(* ===== verification/_CoqProject ===== *)
-Q . S2P
Prelude.v
Errors.v
Text.v
Sha256.v
Json.v
JsonParse.v
Timestamps.v
Auth.v
FacadeRoutes.v
Principals.v
PrincipalGate.v
RateLimit.v
PostgresRateLimit.v
Concurrency.v
Repository.v
RepositoryProps.v
Review.v
ReviewProps.v
Envelope.v
Maintenance.v
EnvelopeProps.v
Dedupe.v
Validation.v
Limits.v
QuarantineStore.v
QuarantineStoreProps.v
Admin.v
AdminProps.v
Paths.v
Hindsight.v
HindsightProps.v
Urls.v
KeyWrap.v
Policy.v
PolicyProps.v
PolicyStore.v
PolicyFlow.v
OpenClaw.v
OpenClawProps.v
Dispatch.v
App.v
AppProps.v
Config.v
HumanAuthStore.v
HumanAuth.v
HumanOidc.v
Chars.v
ScanModels.v
RuleEdges.v
ScanWindows.v
Provenance.v
UnicodeFold.v
UnicodeFoldProps.v
Regex.v
ScanRules.v
ScanRulesProps.v
Base64.v
Base64Props.v
EncodedScan.v
Approval.v
FieldWalk.v
Scanner.v
ScannerProps.v
ScanAcrossProps.v
ScanEntry.v
ScanEntryProps.v
Screen.v
ScreenProps.v
QueryScan.v
ScanExecutor.v
ScanExecutorProps.v
ScreenedFlows.v
LogContract.v
LoggingProps.v
Probes.v
Database.v
Lifecycle.v
LegacyMigration.v
Metrics.v
ReviewAgent.v
