(* ===== verification/Prelude.v ===== *)
(** * Memory Router: a verification development

    The Memory Router ([src/memory_router]) stands between agents and a memory
    service (Hindsight). Requests are authenticated, limited and screened; what
    looks unsafe is encrypted and put in a quarantine, where a reviewer approves,
    rejects or postpones it. This library models that program in pure functions
    and a small state-and-error monad, and proves what makes it correct.

    ** The program and the files

    Foundations
    - [Prelude.v] (this file): tactics, hint databases, dictionaries as
      association lists in insertion order, SQL-like tables as lists of rows
      with [select_where], [update_where], [delete_where].
    - [Errors.v]: [errors.py], the gateway error of [hindsight.py]; the monad
      [eff S A = S -> result A * S]; [transaction] (commit or roll back, as
      [db.py] does), [try_except], [except_Exception].
    - [Text.v], [Sha256.v], [Json.v], [Timestamps.v]: Python strings as their
      UTF-8 bytes, [hashlib.sha256] written out on 32-bit words, JSON values with
      [canonical.py], and [timestamps.py].
    - [JsonParse.v]: [json.loads] of texts and of bytes, with the hooks the
      sources pass.

    Who may do what
    - [Auth.v]: [auth.py], router and admin tokens.
    - [FacadeRoutes.v]: [facade_routes.py], the route table and its dispatch.
    - [Principals.v], [PrincipalGate.v]: [principals.py] and [principal_gate.py],
      registries, keys, grants, bank policies, sessions and the admin gate.

    Limits
    - [RateLimit.v], [PostgresRateLimit.v], [Concurrency.v]: [rate_limit.py]. The
      contract of a sliding window is the class [SlidingWindow], with the log of
      admitted events as its abstract state; both limiters are instances.
    - [Limits.v]: [limits.py], and the limiter interface clients use.

    The quarantine
    - [Envelope.v], [EnvelopeProps.v]: [envelope.py] and the local key of
      [key_wrap.py].
    - [KeyWrap.v]: the sidecar provider of [key_wrap.py].
    - [Dedupe.v]: [dedupe.py].
    - [Repository.v], [RepositoryProps.v]: [repository.py], the item and event
      tables ([qdb]), capacity, store, queue listing, statistics. [db_ok] is the
      well-formedness of the tables.
    - [Review.v], [ReviewProps.v]: [review_repository.py], the review state
      machine; [review_step] is its abstract specification.
    - [QuarantineStore.v], [QuarantineStoreProps.v]: [quarantine_store.py], [put].
    - [Maintenance.v]: [maintenance.py].
    - [Validation.v]: [validation.py], [models.py] and [prepare_retain_body] of
      [policy.py]; the request models as schemas with a typing judgement.
    - [Admin.v], [AdminProps.v]: [admin.py], the review service, which composes
      the components above and calls the memory service.
    - [ReviewAgent.v]: [review_unwrap.py], [cli/review_agent.py] and
      [cli/decrypt_quarantine.py], the tools of a reviewer's workstation.
    - [LegacyMigration.v]: [legacy_migration.py].

    The request path
    - [Paths.v]: [paths.py], path segments, dot segments and route classes.
    - [Hindsight.v], [HindsightProps.v]: [hindsight.py], the client of the memory
      service, over an abstract [send].
    - [Policy.v]: [policy.py], retain and recall around the scanner, the review
      states and the quarantine, over the record [Services]. [PolicyProps.v] has
      the contract of the review store ([ReviewStore]) and the row-by-row
      reference, [PolicyStore.v] the instance for the real repository and [put],
      [PolicyFlow.v] a small program logic and the theorems on whole flows.
    - [OpenClaw.v], [OpenClawProps.v]: [openclaw.py] and [openclaw_contracts.py],
      the facade.
    - [Dispatch.v]: [request_dispatch.py].
    - [App.v], [AppProps.v]: [app.py] and [metrics_http.py] over the record
      [Runtime]: bodies, charges, authentication, admin routes, dispatch order and
      a round of the maintenance loop.
    - [ScreenedFlows.v]: the policy with the scan workers and the scanner as its
      judge, from the body that is stored to the rules that were silent on it.

    Settings and operation
    - [Urls.v]: splitting of URLs and the address checks that share it.
    - [Config.v]: [config.py], from environment to settings.
    - [Database.v]: [db.py], placeholders, transactions of SQLite with failing
      calls, the schema and its upgrade, what opening a backend leaves open.
    - [Lifecycle.v]: [lifecycle.py] and start, stop and [lifespan] of [app.py] over
      a ledger of open resources; what settings become in the runtime.
    - [Probes.v]: [probes.py] and [probes_http.py], the readiness cache as a step
      relation and the log of changes of health.
    - [Metrics.v]: [metrics.py], the exception handlers of [app.py] and
      [observability.py].
    - [LogContract.v], [LoggingProps.v]: [logging_contract.py] and [logging.py].

    Human reviewers
    - [HumanAuthStore.v]: [human_auth_store.py], logins and sessions; the stores'
      operations as a transition system ([hexec]).
    - [HumanAuth.v]: [human_auth.py], start, exchange and sign-out over the class
      [HumanWorld].
    - [HumanOidc.v]: [human_oidc.py] and the URL and mapping checks of
      [human_auth_config.py].

    The content scanner
    - [Chars.v], [ScanModels.v], [Regex.v]: texts as code points with their UTF-8
      encoding, [security_models.py] and the monad of scans ([scan A], the clock
      is its state), and regular expressions as data with a matcher.
    - [UnicodeFold.v], [UnicodeFoldProps.v]: [unicode_security.py] and
      [confusables_data.py], the canonical text and its confusable variants.
    - [RuleEdges.v], [ScanRules.v], [ScanRulesProps.v]: [security_rules.py], the
      rules, their scans and edges, the loop over the detectors.
    - [ScanWindows.v], [Provenance.v], [Approval.v]: [security_windows.py],
      [scan_windows.py] and [security_provenance.py], joins of neighbouring
      fields and the approval each character carries.
    - [Base64.v], [Base64Props.v], [EncodedScan.v]: [security_base64.py], payloads
      split over fields and the scan of what is encoded.
    - [FieldWalk.v], [Scanner.v] and [ScanEntry.v]: [security.py], the walk over a
      JSON value, the scan of fields ([_scan_direct_fields], [_scan_window],
      [_scan_rolling_group], [_scan_skip_groups], [_scan_split_base64]) and the
      entry points with their batches. [ScannerProps.v] has the combinators for
      proofs about safe verdicts and, with [ScanAcrossProps.v] and
      [ScanEntryProps.v], the theorems.
    - [Screen.v], [ScreenProps.v], [QueryScan.v]: [security_screen.py] and the
      query scan of [security.py].
    - [ScanExecutor.v], [ScanExecutorProps.v]: [scan_executor.py], the pool of
      workers, its slots and generations, and each call as a session that takes
      one step between two points where other code may run.

    ** How code becomes definitions

    A function keeps its name; a method becomes a function of its object's
    record. Statuses and error kinds are inductive types, exceptions are values
    of [exn], SQL statements are table functions with the statement's condition.
    Integers are [Z] (Python's are unbounded); the words of SHA-256 carry their
    wrap-around. Time is an argument or read from a [clock] function.

    Concurrency is cooperative: other requests run only at an await. A function
    that awaits between two effects takes [interfere], which maps the shared
    state at each such point to any state other requests may leave, under a
    named contract ([Quiet] of [AdminProps.v], the preservation hypotheses of
    [QuarantineStoreProps.v]); [Concurrency.v], [ScanExecutor.v] and [Probes.v]
    use a step relation instead, and the threads of [ReviewAgent.v] take their
    steps in any order. Transactions are atomic, as the lock or the
    database makes them. Where a call may fail for reasons outside the program,
    a function of [faults] decides for every call whether it does, cancellation
    included ([Database.v], [Lifecycle.v]).

    A component that calls others takes them as a record of operations on an
    abstract state ([Services] of the policy, [Runtime] of the application,
    [HumanServices] of the login), so that its theorems hold whatever the others
    and the requests running beside it do to that state.

    Parameters stand for code outside the repository: [Rfc8785] (canonical
    printing), [AESGCM], the wrap operation of a key provider, the network
    ([send], [outcome]), the random source, [repr] ([PyRepr]), URL rules that need
    the Unicode database or the IPv6 grammar ([UrlSyntax], [httpx_url]), and
    tables of the Unicode database ([UnicodeData]); the case mapping of log fields
    ([CaseMap]), RSA with the reviewer's key, and the files of the old queue.
    Theorems that need a law of a parameter state it as a hypothesis, and their
    witnesses instantiate it.

    The scanner has parameters of its own: the Unicode database of the runtime
    ([UnicodeDb]), the vendored table of confusables ([Confusables], as
    [load_confusables] reads it), the detectors of the agent-memory-guard library
    ([Detectors], and [DetectorLayouts] for where they keep their patterns), the
    case folding of the matcher ([CaseDb]) and the monotonic clock ([Clock], a
    reading for every call, so a deadline may strike at any check). Nothing is
    assumed of what the detectors report. Policy, facade and review take the
    verdict of a scan as an operation of their services, because the scan runs in
    a worker process that may also fail or time out; [ScreenedFlows.v] puts the
    entry points of [ScanExecutor.v] in that place.

    ** What is proved

    - Reviews: every operation follows the abstract machine and keeps the tables
      well formed; a claim with a side effect is kept until its holder or an
      operator's reconciliation ends it; complete flows run
      and leave exactly the intended items and events; stale claims are recovered
      exactly; postponing is bounded. At the service: the memory service is asked
      at most once per decision and the item ends where the answer says, unless
      somebody else reconciles it meanwhile, and an
      approval sends only content with the reviewed digest, to a bank its writer
      may still write to.
    - Quarantine: capacity limits hold after every store, uniqueness and byte
      counts are invariant, a store touches only its row, a [put] that returns has
      stored the input, sealed with the key it drew; opening a sealed envelope returns the object, the size
      estimate is exact; listings, statistics, cleanup, sweep and pruning select
      exactly what they announce.
    - Limits: no window is exceeded in either limiter, the two admit the same
      calls (at ordered times, with no key twice in a call) and refine the
      admission log; concurrency counters and leases are
      bounded under every interleaving, and the heartbeat reacts in time.
    - Access: authentication and authorization are characterised exactly, route
      dispatch and its scopes are complete, admin metadata stays in scope; what
      the memory service is asked for a principal is within its grants, and
      outside the login a request without credentials only counts and is audited.
    - Memory flows: a retain is sent once and only when screened; what a recall
      returns is screened, in parts and as a whole; judging results from one
      batched lookup is judging them row by row while nobody else decides
      reviews, and judging them by the snapshot before the scans in any case; a degraded quarantine or bank
      does not fail a recall; a facade request is forwarded once, to the path it
      names, and its answer meets its contract.
    - The client and the edge: a request to the memory service ends in a checked
      value or a gateway error; bank listings show exactly the allowed banks; a
      decoded path segment cannot become a separator; a body read in chunks is
      the body read whole; printed JSON is read back.
    - Human reviewers: logins and sessions stay within their caps under every
      interleaving; a login is claimed once; the token of an exchange works
      exactly for an hour, or until revocation or activation; a session holds no more
      than the current grants; a sign-out is final; an identity is believed only
      after every check of provider, signature and claims.
    - Settings: what loads has its types and bounds and satisfies the checks
      across fields, loading it again changes nothing, and a startup that passes
      refuses unsafe combinations; the sidecar provider meets the contract of
      envelopes.
    - The scanner: a body, a response or a query with a safe verdict has every
      field, down to keys, numbers and decoded parameters, within its limits and
      silent under rules, detectors and Unicode checks, approved texts aside (a
      text that occurs twice is judged at its first field); no split rule hides
      across neighbouring fields or fields with a few left out; a split payload of
      scannable text is reassembled or the result says that something was left
      out; the
      screen of query windows skips only silent windows; the rule scan and the
      variants it reads are exact up to a reported limit; approval never spreads
      from one field to another; Base64, Luhn's checksum, bounded windows and
      skipping groups are characterised exactly. Where a deadline or a limit
      strikes, the verdict is not safe.
    - The workers: slots are neither lost nor released twice in any reachable
      state, every call ends with a verdict or an error of the service, by its
      time limit if its worker never answers, and what a retain stores (the
      router's own metadata aside) or a recall returns was scanned by a worker.
    - Requests: parsing accepts exactly the well-typed bodies, and what is sent
      upstream is well typed again.
    - Operation: whatever fails during start and stop, nothing is left open; an
      upgraded schema has every table, column and index and keeps its rows;
      placeholders are translated outside quotes only; readiness answers are at
      most five seconds old and one refresh runs at a time; log lines keep their
      contract and the throttle loses no count; the page of the counters reads
      back to what was counted.
    - The reviewer's tools: however the threads of the review agent interleave,
      every answer to a decryption request is explained by one decision of its
      audit, whose table is bounded, and requests without the credential displace
      no review; a token-held key opens what the private key opens; nothing invisible
      is left in the visible form of evidence; importing the old queue again
      changes nothing.

    Every theorem with hypotheses has a witness, a closed lemma that applies it
    to concrete data evaluated by the kernel.

    ** Fuel

    The explicit-stack loops of [Json.v] run with the size of the value and
    [prune_events_before] with one more than the number of events; [json_loads]
    runs with twice the length of the text and one more. The lemmas on them show
    that this is enough, so none of them hides a divergence. The page loop of a
    bank listing has the bound of the code, 1000 pages. Loops of the scanner that
    advance by more than one character, and the walk over a value, run with the
    length of the text or the size of the value ([walk_strings_spec]); the loop
    over batches runs with the number of fields, and [batch_loop_fuel] shows that
    more changes nothing; [_stage_walk] has the nine levels of the code.

    ** Not modelled

    The command line of the tools and of the server, the registration of routes
    with FastAPI, the set-up of log handlers, connection pools and sockets, the
    reading of PEM keys, and the calls to a PKCS#11 token and to plug-ins: they
    consist of calls to libraries with no logic of the router between them. The
    scripts of the repository ([scripts], [.github/scripts]) are not part of the
    program. In the modelled files log lines are left out except in the components
    about logging, probes and errors; rows that SQL leaves unordered are taken in
    table order, [fromisoformat] covers the extended format only, the
    interpreter's recursion limit is a limit of [json.loads] only where the login
    reads key sets ([HumanOidc.v]), and an integer of a log field is printed
    however many digits it has (CPython refuses more than 4300). A
    cancellation is an exception of its own, which [except Exception] does not
    catch; the services a request calls may raise it, the operations on the
    tables do not.
*)

From stdpp Require Import base list sets strings numbers sorting.
From Stdlib Require Import ZArith Lia.

(** ** Hint databases and tactics of the development *)

(** [table] carries the lemmas on SQL-like tables, [text] those on strings. *)
Create HintDb table.
Create HintDb text.

(** Split a conjunction of booleans in a hypothesis or the goal. *)
Ltac split_bool :=
  repeat match goal with
  | H : (_ && _)%bool = true |- _ => apply andb_true_iff in H; destruct H
  | H : (_ || _)%bool = false |- _ => apply orb_false_iff in H; destruct H
  | H : negb _ = true |- _ => apply negb_true_iff in H
  | H : negb _ = false |- _ => apply negb_false_iff in H
  | H : bool_decide _ = true |- _ => apply bool_decide_eq_true in H
  | H : bool_decide _ = false |- _ => apply bool_decide_eq_false in H
  | H : (_ <=? _)%Z = true |- _ => apply Z.leb_le in H
  | H : (_ <=? _)%Z = false |- _ => apply Z.leb_gt in H
  | H : (_ <? _)%Z = true |- _ => apply Z.ltb_lt in H
  | H : (_ <? _)%Z = false |- _ => apply Z.ltb_ge in H
  | H : (_ =? _)%Z = true |- _ => apply Z.eqb_eq in H
  | H : (_ =? _)%Z = false |- _ => apply Z.eqb_neq in H
  | |- (_ && _)%bool = true => apply andb_true_iff; split
  end.

(** Case analysis on the first stuck [match] or [if] of a hypothesis. *)
Ltac case_in H :=
  match type of H with
  | context [match ?x with _ => _ end] => let E := fresh "E" in destruct x eqn:E
  end.

(** Case analysis on the first stuck [match] or [if] of the goal. *)
Ltac case_goal :=
  match goal with
  | |- context [match ?x with _ => _ end] => let E := fresh "E" in destruct x eqn:E
  end.

(** Repeat [case_in] until nothing is left to split, closing absurd branches. *)
Ltac cases_in H := repeat (case_in H; simplify_eq/=; try done).

(** ** Python-level helpers shared by the components *)

(** [x or y] on an optional string: an empty string is falsy. *)
Definition py_or (x : option string) (y : string) : string :=
  match x with
  | Some s => if decide (s = "") then y else s
  | None => y
  end.

(** [bool(x)] on an optional string. *)
Definition truthy (x : option string) : bool :=
  match x with
  | Some s => negb (bool_decide (s = ""))
  | None => false
  end.

(** [x in xs] *)
Definition elem {A} `{EqDecision A} (x : A) (l : list A) : bool := bool_decide (x ∈ l).

(** First-occurrence de-duplication: [list(dict.fromkeys(l))]. *)
Fixpoint dict_fromkeys_from {A} `{EqDecision A} (seen l : list A) : list A :=
  match l with
  | [] => []
  | x :: l' =>
      if elem x seen then dict_fromkeys_from seen l'
      else x :: dict_fromkeys_from (x :: seen) l'
  end.

Definition dict_fromkeys {A} `{EqDecision A} (l : list A) : list A := dict_fromkeys_from [] l.

(** A Python [dict] built by successive assignments: the position of a key is
    that of its first assignment, its value that of the last. *)
Fixpoint dict_set {K V} `{EqDecision K} (k : K) (v : V) (d : list (K * V)) : list (K * V) :=
  match d with
  | [] => [(k, v)]
  | (k', v') :: d' => if decide (k = k') then (k, v) :: d' else (k', v') :: dict_set k v d'
  end.

(** [d.get(k)] *)
Fixpoint dict_get {K V} `{EqDecision K} (k : K) (d : list (K * V)) : option V :=
  match d with
  | [] => None
  | (k', v) :: d' => if decide (k = k') then Some v else dict_get k d'
  end.

(** [d.pop(k, None)], the resulting dict. *)
Definition dict_pop {K V} `{EqDecision K} (k : K) (d : list (K * V)) : list (K * V) :=
  List.filter (fun kv => negb (bool_decide (kv.1 = k))) d.

(** ** Tables: the SQL statements the repositories execute *)

Section table_ops.
Context {R : Type}.
Implicit Types (p : R -> bool) (f : R -> R) (t : list R).

(** [SELECT * FROM t WHERE p] *)
Definition select_where p t : list R := List.filter p t.

(** [fetchone] of a select: its first row *)
Definition fetchone p t : option R := List.find p t.

(** [SELECT COUNT( * ) FROM t WHERE p] *)
Definition count_where p t : Z := Z.of_nat (length (List.filter p t)).

(** [SELECT COALESCE(SUM(g),0) FROM t WHERE p] *)
Definition sum_where (g : R -> Z) p t : Z :=
  foldr (fun r acc => (if p r then g r else 0) + acc)%Z 0%Z t.

(** [UPDATE t SET f WHERE p] *)
Definition update_where p f t : list R := map (fun r => if p r then f r else r) t.

(** [DELETE FROM t WHERE p] *)
Definition delete_where p t : list R := List.filter (fun r => negb (p r)) t.

Lemma count_where_nonneg p t : (0 <= count_where p t)%Z.
Proof. unfold count_where. lia. Qed.

Lemma count_where_cons p r t :
  count_where p (r :: t) = ((if p r then 1 else 0) + count_where p t)%Z.
Proof. unfold count_where. simpl. destruct (p r); simpl; lia. Qed.

Lemma count_where_app p t1 t2 :
  count_where p (t1 ++ t2) = (count_where p t1 + count_where p t2)%Z.
Proof. unfold count_where. rewrite List.filter_app, length_app. lia. Qed.

Lemma sum_where_cons g p r t :
  sum_where g p (r :: t) = ((if p r then g r else 0) + sum_where g p t)%Z.
Proof. done. Qed.

Lemma sum_where_app g p t1 t2 :
  sum_where g p (t1 ++ t2) = (sum_where g p t1 + sum_where g p t2)%Z.
Proof. induction t1 as [|r t1 IH]; simpl; [done|]. rewrite IH. lia. Qed.

Lemma fetchone_Some p t r : fetchone p t = Some r -> r ∈ t /\ p r = true.
Proof. intros H%List.find_some. by rewrite list_elem_of_In. Qed.

Lemma fetchone_None p t r : fetchone p t = None -> r ∈ t -> p r = false.
Proof. intros H Hr. eapply List.find_none; [done|]. by apply list_elem_of_In. Qed.

Lemma select_where_elem p t r : r ∈ select_where p t <-> r ∈ t /\ p r = true.
Proof. unfold select_where. by rewrite !list_elem_of_In, List.filter_In. Qed.

Lemma delete_where_elem p t r : r ∈ delete_where p t <-> r ∈ t /\ p r = false.
Proof.
  unfold delete_where. rewrite !list_elem_of_In, List.filter_In. by rewrite negb_true_iff.
Qed.

Lemma update_where_elem p f t r :
  r ∈ update_where p f t <-> exists r', r' ∈ t /\ r = (if p r' then f r' else r').
Proof.
  unfold update_where. rewrite list_elem_of_In, List.in_map_iff.
  split; intros (r' & H1 & H2); exists r'; rewrite ?list_elem_of_In in *; done.
Qed.

Lemma count_where_delete_le p q t : (count_where p (delete_where q t) <= count_where p t)%Z.
Proof.
  induction t as [|r t IH]; [done|]. unfold delete_where in *. simpl.
  rewrite count_where_cons. destruct (q r); simpl; rewrite ?count_where_cons; case_match; lia.
Qed.

Lemma count_where_ext p q t :
  (forall r, r ∈ t -> p r = q r) -> count_where p t = count_where q t.
Proof.
  induction t as [|r t IH]; intros H; [done|].
  rewrite !count_where_cons, H by left. rewrite IH; [done|]. intros; apply H; by right.
Qed.

Lemma count_where_le p q t :
  (forall r, r ∈ t -> p r = true -> q r = true) -> (count_where p t <= count_where q t)%Z.
Proof.
  induction t as [|r t IH]; intros H; [done|].
  rewrite !count_where_cons.
  assert (count_where p t <= count_where q t)%Z by (apply IH; intros; apply H; [by right|done]).
  destruct (p r) eqn:E; [rewrite (H r); [lia|by left|done]|]. case_match; lia.
Qed.

Lemma count_where_false p t : (forall r, r ∈ t -> p r = false) -> count_where p t = 0%Z.
Proof.
  intros H. rewrite (count_where_ext p (fun _ => false)) by done.
  induction t as [|r t IH]; [done|]. rewrite count_where_cons, IH; [done|].
  intros; apply H; by right.
Qed.

Lemma sum_where_le g p q t :
  (forall r, r ∈ t -> 0 <= g r)%Z ->
  (forall r, r ∈ t -> p r = true -> q r = true) -> (sum_where g p t <= sum_where g q t)%Z.
Proof.
  induction t as [|r t IH]; intros Hg H; [done|].
  rewrite !sum_where_cons. specialize (Hg r ltac:(left)) as Hr.
  assert (sum_where g p t <= sum_where g q t)%Z
    by (apply IH; intros; [apply Hg|apply H; [|done]]; by right).
  destruct (p r) eqn:E; [rewrite (H r); [lia|by left|done]|]. case_match; lia.
Qed.
End table_ops.

(** ** Tables with a primary key *)

Section keyed_table.
Context {R K : Type} `{EqDecision K} (key : R -> K).
Implicit Types (t : list R).

Definition has_key (k : K) (r : R) : bool := bool_decide (key r = k).

Definition keys_unique t : Prop := NoDup (map key t).

Lemma has_key_true k r : has_key k r = true <-> key r = k.
Proof. apply bool_decide_eq_true. Qed.

Lemma has_key_false k r : has_key k r = false <-> key r <> k.
Proof. apply bool_decide_eq_false. Qed.

Lemma keys_unique_inj t r r' :
  keys_unique t -> r ∈ t -> r' ∈ t -> key r = key r' -> r = r'.
Proof.
  unfold keys_unique. induction t as [|x t IH]; intros Hnd Hr Hr' Hk; [by apply not_elem_of_nil in Hr|].
  simpl in Hnd. apply NoDup_cons in Hnd as [Hx Hnd].
  assert (forall y, y ∈ t -> key x <> key y) as Hne.
  { intros y Hy Heq. apply Hx. rewrite Heq. apply list_elem_of_In, List.in_map, list_elem_of_In, Hy. }
  apply elem_of_cons in Hr as [->|Hr], Hr' as [->|Hr']; [done|by destruct (Hne r')| |by apply IH].
  by destruct (Hne r).
Qed.

(** In a table with unique keys, the row of a key splits the table. *)
Lemma keys_unique_split t r :
  keys_unique t -> r ∈ t ->
  exists t1 t2, t = t1 ++ r :: t2 /\
    (forall x, x ∈ t1 ++ t2 -> key x <> key r).
Proof.
  intros Hnd Hr. apply list_elem_of_split in Hr as (t1 & t2 & ->).
  exists t1, t2. split; [done|]. intros x Hx Heq.
  unfold keys_unique in Hnd. rewrite map_app in Hnd. simpl in Hnd.
  apply NoDup_app in Hnd as (_ & Hd & Hnd2). apply NoDup_cons in Hnd2 as [Hn2 _].
  apply elem_of_app in Hx as [Hx|Hx].
  - apply (Hd (key x)); [apply list_elem_of_In, List.in_map, list_elem_of_In, Hx|].
    rewrite Heq. by left.
  - apply Hn2. rewrite <- Heq. apply list_elem_of_In, List.in_map, list_elem_of_In, Hx.
Qed.

Lemma update_where_id (p : R -> bool) f t :
  (forall x, x ∈ t -> p x = false) -> update_where p f t = t.
Proof.
  induction t as [|x t IH]; intros H; [done|]. simpl. rewrite H by left. f_equal.
  apply IH. intros; apply H; by right.
Qed.

Lemma delete_where_id (p : R -> bool) t :
  (forall x, x ∈ t -> p x = false) -> delete_where p t = t.
Proof.
  induction t as [|x t IH]; intros H; [done|]. unfold delete_where in *. simpl.
  rewrite H by left. simpl. f_equal. apply IH. intros; apply H; by right.
Qed.

Lemma update_key_split t1 r t2 f :
  (forall x, x ∈ t1 ++ t2 -> key x <> key r) ->
  update_where (has_key (key r)) f (t1 ++ r :: t2) = t1 ++ f r :: t2.
Proof.
  intros H. unfold update_where. rewrite map_app. simpl.
  rewrite (proj2 (has_key_true (key r) r) eq_refl).
  assert (Hf : forall x, x ∈ t1 ++ t2 -> has_key (key r) x = false)
    by (intros x Hx; apply has_key_false, H, Hx).
  fold (update_where (has_key (key r)) f t1) (update_where (has_key (key r)) f t2).
  rewrite !update_where_id; [done| |]; intros x Hx; apply Hf, elem_of_app; auto.
Qed.

Lemma delete_key_split t1 r t2 :
  (forall x, x ∈ t1 ++ t2 -> key x <> key r) ->
  delete_where (has_key (key r)) (t1 ++ r :: t2) = t1 ++ t2.
Proof.
  intros H.
  assert (Hf : forall x, x ∈ t1 ++ t2 -> has_key (key r) x = false)
    by (intros x Hx; apply has_key_false, H, Hx).
  unfold delete_where. rewrite List.filter_app. simpl.
  rewrite (proj2 (has_key_true (key r) r) eq_refl). simpl.
  fold (delete_where (has_key (key r)) t1) (delete_where (has_key (key r)) t2).
  rewrite !delete_where_id; [done| |]; intros x Hx; apply Hf, elem_of_app; auto.
Qed.

(** Counting after a keyed update: the old row leaves, the new one enters. *)
Lemma count_where_update_key t r f (q : R -> bool) :
  keys_unique t -> r ∈ t ->
  count_where q (update_where (has_key (key r)) f t) =
  (count_where q t - (if q r then 1 else 0) + (if q (f r) then 1 else 0))%Z.
Proof.
  intros Hu Hr. destruct (keys_unique_split _ _ Hu Hr) as (t1 & t2 & -> & Hne).
  rewrite update_key_split by done. rewrite !count_where_app, !count_where_cons. lia.
Qed.

Lemma sum_where_update_key t r f g (q : R -> bool) :
  keys_unique t -> r ∈ t ->
  sum_where g q (update_where (has_key (key r)) f t) =
  (sum_where g q t - (if q r then g r else 0) + (if q (f r) then g (f r) else 0))%Z.
Proof.
  intros Hu Hr. destruct (keys_unique_split _ _ Hu Hr) as (t1 & t2 & -> & Hne).
  rewrite update_key_split by done. rewrite !sum_where_app, !sum_where_cons. lia.
Qed.

Lemma keys_unique_update t p f :
  (forall x, key (f x) = key x) -> keys_unique t -> keys_unique (update_where p f t).
Proof.
  intros Hf Hu. unfold keys_unique, update_where in *. rewrite List.map_map.
  erewrite List.map_ext; [exact Hu|]. intros x. simpl. case_match; auto.
Qed.

Lemma keys_unique_delete t p : keys_unique t -> keys_unique (delete_where p t).
Proof.
  unfold keys_unique, delete_where. induction t as [|x t IH]; intros Hu; [done|].
  simpl in *. apply NoDup_cons in Hu as [Hx Hu]. destruct (p x); simpl; [by apply IH|].
  apply NoDup_cons. split; [|by apply IH]. intros Hin. apply Hx.
  apply list_elem_of_In, List.in_map_iff in Hin as (y & Hy & Hin).
  apply List.filter_In in Hin as [Hin _].
  rewrite <- Hy. apply list_elem_of_In, List.in_map, Hin.
Qed.

Lemma keys_unique_snoc t r :
  (forall x, x ∈ t -> key x <> key r) -> keys_unique t -> keys_unique (t ++ [r]).
Proof.
  intros Hr Hu. unfold keys_unique in *. rewrite map_app. apply NoDup_app.
  split; [done|]. split; [|apply NoDup_singleton].
  intros k Hk Hk'. apply list_elem_of_singleton in Hk' as ->.
  apply list_elem_of_In, List.in_map_iff in Hk as (x & Hx & Hin).
  apply (Hr x); [by apply list_elem_of_In|done].
Qed.

Lemma fetch_key_elem t r : keys_unique t -> r ∈ t -> fetchone (has_key (key r)) t = Some r.
Proof.
  intros Hu Hr. destruct (fetchone (has_key (key r)) t) as [r'|] eqn:E.
  - apply fetchone_Some in E as [Hin Hk]. apply has_key_true in Hk.
    f_equal. by eapply keys_unique_inj.
  - pose proof (fetchone_None _ _ _ E Hr) as Hk. by apply has_key_false in Hk.
Qed.
End keyed_table.

#[export] Hint Resolve count_where_nonneg keys_unique_delete keys_unique_snoc : table.

(** ** Dictionaries as association lists *)

Section dict.
Context {K V : Type} `{EqDecision K}.
Implicit Types (d : list (K * V)) (k : K) (v : V).

Lemma dict_get_set k k' v d :
  dict_get k (dict_set k' v d) = if decide (k = k') then Some v else dict_get k d.
Proof.
  induction d as [|[k1 v1] d IH]; simpl; [repeat case_decide; congruence|].
  repeat case_decide; simpl; repeat case_decide; subst; try congruence.
Qed.

Lemma dict_get_pop k k' d :
  dict_get k (dict_pop k' d) = if decide (k = k') then None else dict_get k d.
Proof.
  unfold dict_pop. induction d as [|[k1 v1] d IH]; simpl; [by case_decide|].
  destruct (decide (k1 = k')) as [->|Hne].
  - rewrite bool_decide_true by done. simpl. rewrite IH. repeat case_decide; congruence.
  - rewrite bool_decide_false by done. simpl. rewrite IH. repeat case_decide; congruence.
Qed.

Lemma dict_get_elem k v d : dict_get k d = Some v -> (k, v) ∈ d.
Proof.
  induction d as [|[k1 v1] d IH]; simpl; [done|].
  case_decide; intros Hg; [simplify_eq; by left|right; auto].
Qed.

Lemma dict_get_None k d : dict_get k d = None <-> k ∉ map fst d.
Proof.
  induction d as [|[k1 v1] d IH]; simpl; [split; [intros _; apply not_elem_of_nil|done]|].
  rewrite not_elem_of_cons. case_decide; [subst; split; [done|tauto]|]. rewrite IH. tauto.
Qed.

Lemma dict_get_nodup k v d : NoDup (map fst d) -> (k, v) ∈ d -> dict_get k d = Some v.
Proof.
  induction d as [|[k1 v1] d IH]; simpl; [intros _ Hn; by apply not_elem_of_nil in Hn|].
  intros [Hx Hnd]%NoDup_cons [Heq|Hin]%elem_of_cons; simplify_eq; [by rewrite decide_True|].
  rewrite decide_False; [by apply IH|]. intros ->. apply Hx.
  by apply list_elem_of_In, (List.in_map fst), list_elem_of_In in Hin.
Qed.

Lemma dict_set_keys k v d : forall x, x ∈ map fst (dict_set k v d) <-> x = k \/ x ∈ map fst d.
Proof.
  induction d as [|[k1 v1] d IH]; intros x; simpl; [rewrite list_elem_of_singleton, elem_of_nil; tauto|].
  case_decide; subst; simpl; rewrite !elem_of_cons; [tauto|]. rewrite IH. tauto.
Qed.

Lemma dict_set_nodup k v d : NoDup (map fst d) -> NoDup (map fst (dict_set k v d)).
Proof.
  induction d as [|[k1 v1] d IH]; simpl; [intros _; apply NoDup_singleton|].
  intros [Hx Hnd]%NoDup_cons. case_decide; subst; simpl; apply NoDup_cons; split; auto.
  rewrite dict_set_keys. intros [->|]; tauto.
Qed.

Lemma filter_keys_nodup (p : K * V -> bool) (d : list (K * V)) : NoDup (map fst d) -> NoDup (map fst (List.filter p d)).
Proof.
  induction d as [|kv d IH]; simpl; [done|]. intros [Hx Hnd]%NoDup_cons.
  case_match; simpl; [|by apply IH]. apply NoDup_cons. split; [|by apply IH].
  intros Hin. apply Hx. apply list_elem_of_In, List.in_map_iff in Hin as (y & <- & Hy).
  apply List.filter_In in Hy as [Hy _]. by apply list_elem_of_In, List.in_map.
Qed.

Lemma dict_pop_nodup k (d : list (K * V)) : NoDup (map fst d) -> NoDup (map fst (dict_pop k d)).
Proof. apply filter_keys_nodup. Qed.

Lemma dict_set_fresh k v d : k ∉ map fst d -> dict_set k v d = d ++ [(k, v)].
Proof.
  induction d as [|[k1 v1] d IH]; simpl; [done|]. rewrite not_elem_of_cons. intros [Hne Hn].
  rewrite decide_False by done. by rewrite IH.
Qed.

(** A dict comprehension: the last entry of a key wins. *)
Definition dict_of (es : list (K * V)) : list (K * V) :=
  fold_left (fun d e => dict_set e.1 e.2 d) es [].

Lemma dict_fold_get k es d :
  dict_get k (fold_left (fun d e => dict_set e.1 e.2 d) es d) =
  match dict_get k (rev es) with Some v => Some v | None => dict_get k d end.
Proof.
  revert d. induction es as [|[k1 v1] es IH]; intros d; simpl; [done|].
  rewrite IH, dict_get_set. simpl. clear IH.
  induction (rev es) as [|[k2 v2] l IHl]; simpl; [by repeat case_decide|].
  by repeat case_decide.
Qed.

Lemma dict_of_get k v es : NoDup (map fst es) -> dict_get k (dict_of es) = Some v <-> (k, v) ∈ es.
Proof.
  intros Hnd. unfold dict_of. rewrite dict_fold_get. simpl.
  assert (Hr : NoDup (map fst (rev es))) by (rewrite List.map_rev; by apply NoDup_ListNoDup, List.NoDup_rev, NoDup_ListNoDup).
  assert (Hel : forall x, x ∈ rev es <-> x ∈ es) by (intros x; rewrite !list_elem_of_In, <- List.in_rev; done).
  split.
  - destruct (dict_get k (rev es)) as [v'|] eqn:E; [|done]. intros [= <-].
    apply Hel. by apply dict_get_elem.
  - intros Hin. apply Hel in Hin. by rewrite (dict_get_nodup _ _ _ Hr Hin).
Qed.
End dict.

Section fromkeys.
Context {A : Type} `{EqDecision A}.
Implicit Types (l seen : list A).

Lemma elem_true (x : A) l : elem x l = true <-> x ∈ l.
Proof. apply bool_decide_eq_true. Qed.

Lemma elem_false (x : A) l : elem x l = false <-> x ∉ l.
Proof. apply bool_decide_eq_false. Qed.

Lemma dict_fromkeys_from_spec seen l x :
  x ∈ dict_fromkeys_from seen l <-> x ∈ l /\ x ∉ seen.
Proof.
  revert seen. induction l as [|y l IH]; intros seen; simpl.
  - rewrite elem_of_nil. tauto.
  - destruct (elem y seen) eqn:E.
    + apply elem_true in E. rewrite IH, elem_of_cons.
      split; [tauto|]. intros [[->|] ?]; tauto.
    + apply elem_false in E. rewrite elem_of_cons, IH, !elem_of_cons.
      destruct (decide (x = y)) as [->|]; tauto.
Qed.

Lemma dict_fromkeys_spec l x : x ∈ dict_fromkeys l <-> x ∈ l.
Proof. unfold dict_fromkeys. rewrite dict_fromkeys_from_spec, elem_of_nil. tauto. Qed.

Lemma dict_fromkeys_from_nodup seen l : NoDup (dict_fromkeys_from seen l).
Proof.
  revert seen. induction l as [|y l IH]; intros seen; simpl; [apply NoDup_nil_2|].
  case_match; [done|]. apply NoDup_cons. split; [|done].
  rewrite dict_fromkeys_from_spec, elem_of_cons. tauto.
Qed.

Lemma dict_fromkeys_nodup l : NoDup (dict_fromkeys l).
Proof. apply dict_fromkeys_from_nodup. Qed.
End fromkeys.
Lemma dict_set_elem {K X} `{EqDecision K} (k k' : K) (v v' : X) d : (k', v') ∈ dict_set k v d -> (k', v') = (k, v) \/ (k', v') ∈ d.
Proof.
  induction d as [|[k1 v1] d IH]; simpl; [rewrite list_elem_of_singleton; by left|]. case_decide; rewrite !elem_of_cons; tauto.
Qed.

(** ** Sorting and induction on lists *)

(** [sorted] with an order: a stable insertion sort. *)
Fixpoint insert_by {A} (le : A -> A -> bool) (x : A) (l : list A) : list A :=
  match l with
  | [] => [x]
  | y :: l' => if le x y then x :: y :: l' else y :: insert_by le x l'
  end.
Definition sorted_by {A} (le : A -> A -> bool) (l : list A) : list A := foldr (insert_by le) [] l.

Lemma insert_by_perm {A} le (x : A) l : insert_by le x l ≡ₚ x :: l.
Proof.
  induction l as [|y l IH]; simpl; [done|]. case_match; [done|].
  rewrite IH. apply Permutation_swap.
Qed.

Lemma sorted_by_perm {A} le (l : list A) : sorted_by le l ≡ₚ l.
Proof. induction l as [|x l IH]; simpl; [done|]. by rewrite insert_by_perm, IH. Qed.

(** Induction by groups of three. *)
Lemma list_ind3 {A} (P : list A -> Prop) :
  P [] -> (forall a, P [a]) -> (forall a b, P [a; b]) -> (forall a b c l, P l -> P (a :: b :: c :: l)) -> forall l, P l.
Proof.
  intros H0 H1 H2 H3. fix IH 1. intros [|a [|b [|c l]]]; [apply H0|apply H1|apply H2|apply H3, IH].
Qed.
