(* ===== verification/Errors.v ===== *)
(** * Errors and the effect monad

    Models [memory_router/errors.py], the error class of
    [memory_router/hindsight.py], and the control flow the components share:
    a computation either returns a value or raises an exception, and in both
    cases leaves a state behind ([eff]); a database transaction that raises
    leaves the state it started from ([transaction], the commit and rollback
    of [Database.transaction] in [memory_router/db.py]). An exception of [exn] is a
    subclass of [Exception], [CancelledError] apart, which [except_Exception]
    lets pass. *)

From stdpp Require Import base list strings numbers.
From Stdlib Require Import ZArith Lia.
From S2P Require Import Prelude.

Local Open Scope Z_scope.

(** ** Exceptions *)

Record HttpError := mkHttpError {
  err_status : Z;
  err_code : string;
  err_message : string;
  err_headers : list (string * string)
}.

(** [HttpError(status, code, message)], with the default empty headers. *)
Definition http_error (st : Z) (c m : string) : HttpError := mkHttpError st c m [].

(** [HttpError.body] *)
Definition err_body (e : HttpError) : list (string * string) :=
  [("error", err_code e); ("message", err_message e)].

Definition rate_limit_error (c m : string) (hs : option (list (string * string))) : HttpError :=
  mkHttpError 429 c m (match hs with Some h => h | None => [] end).

(** The [kind] literals of [HindsightGatewayError]. *)
Inductive gateway_kind :=
  | KTimeout | KHttp | KInvalidResponse | KNetwork | KResponseTooLarge
  | KUnsafeResponse | KResponseScanUnavailable.

#[export] Instance gateway_kind_eq_dec : EqDecision gateway_kind.
Proof. solve_decision. Defined.

Definition gateway_code (k : gateway_kind) : string :=
  match k with
  | KTimeout => "hindsight_timeout"
  | KHttp => "hindsight_http_error"
  | KInvalidResponse => "hindsight_invalid_response"
  | KNetwork => "hindsight_unavailable"
  | KResponseTooLarge => "hindsight_response_too_large"
  | KUnsafeResponse => "hindsight_unsafe_response"
  | KResponseScanUnavailable => "hindsight_response_scan_unavailable"
  end.

Definition gateway_message (k : gateway_kind) : string :=
  match k with
  | KTimeout => "Upstream memory service timed out"
  | KHttp => "Upstream memory service request failed"
  | KInvalidResponse => "Upstream memory service returned an invalid response"
  | KNetwork => "Upstream memory service is unavailable"
  | KResponseTooLarge => "Upstream memory service response exceeded the size limit"
  | KUnsafeResponse => "Upstream memory service returned unsafe content"
  | KResponseScanUnavailable => "Upstream memory service response could not be safety checked"
  end.

(** [HindsightGatewayError]: the HTTP error it is, and what it remembers. *)
Record GatewayError := mkGatewayError {
  gw_http : HttpError;
  gw_kind : gateway_kind;
  gw_upstream_status : option Z;
  gw_operation : option string;
  gw_method : option string;
  gw_timeout_ms : option Z
}.

Definition client_error_status (st : option Z) : bool :=
  match st with Some s => (400 <=? s) && (s <? 500) | None => false end.

(** [HindsightGatewayError.__init__] *)
Definition hindsight_gateway_error (kind : gateway_kind) (upstream_status : option Z)
    (operation method : option string) (timeout_ms client_status : option Z)
    (write_uncertain : bool) : GatewayError :=
  let base := gateway_message kind in
  let msg :=
    if (bool_decide (operation = Some "retain") || write_uncertain)
       && negb (bool_decide (kind = KHttp) && client_error_status upstream_status)
    then (base +:+ "; the write may already have completed; verify its status before retrying")%string
    else base in
  let default_status := if decide (kind = KTimeout) then 504 else 502 in
  mkGatewayError
    (http_error (default default_status client_status) (gateway_code kind) msg)
    kind upstream_status operation method timeout_ms.

(** What a call can raise. [EGateway] is also an [HttpError] (a subclass);
    [EDatabase] stands for any driver exception, [EOther] for the rest. *)
Inductive exn :=
  | EHttp (e : HttpError)
  | EGateway (g : GatewayError)
  | EValueError (m : string)
  | ERuntimeError (m : string)
  | EDatabase (m : string)
  | EOther (m : string).

(** [except HttpError as exc]: the exceptions it catches. *)
Definition as_http (e : exn) : option HttpError :=
  match e with
  | EHttp h => Some h
  | EGateway g => Some (gw_http g)
  | _ => None
  end.

(** What a cancelled task raises: not a subclass of [Exception]. *)
Definition CancelledError : exn := EOther "CancelledError".
Definition is_cancelled (e : exn) : bool := match e with EOther m => bool_decide (m = "CancelledError") | _ => false end.

Definition raise_http (st : Z) (c m : string) : exn := EHttp (http_error st c m).

(** ** Results and effects *)

Inductive result (A : Type) :=
  | Ok (a : A)
  | Err (e : exn).
Arguments Ok {A} _.
Arguments Err {A} _.

#[export] Instance result_ret : MRet result := fun A a => Ok a.
#[export] Instance result_bind : MBind result := fun A B k m =>
  match m with Ok a => k a | Err e => Err e end.

Definition is_ok {A} (r : result A) : bool := match r with Ok _ => true | Err _ => false end.

(** [if not b: raise e] *)
Definition ensure (b : bool) (e : exn) : result unit := if b then Ok () else Err e.

(** A computation on the state [S]: the state survives an exception. *)
Definition eff (S A : Type) : Type := S -> result A * S.

#[export] Instance eff_ret {S} : MRet (eff S) := fun A a s => (Ok a, s).
#[export] Instance eff_bind {S} : MBind (eff S) := fun A B k m s =>
  match m s with
  | (Ok a, s') => k a s'
  | (Err e, s') => (Err e, s')
  end.

Section eff_ops.
Context {S : Type}.

Definition raise {A} (e : exn) : eff S A := fun s => (Err e, s).
Definition get_state : eff S S := fun s => (Ok s, s).
Definition put_state (s : S) : eff S unit := fun _ => (Ok (), s).
Definition modify (f : S -> S) : eff S unit := fun s => (Ok (), f s).
Definition lift {A} (r : result A) : eff S A := fun s => (r, s).

(** [try: m; except e: h e] *)
Definition try_except {A} (m : eff S A) (h : exn -> eff S A) : eff S A := fun s =>
  match m s with
  | (Ok a, s') => (Ok a, s')
  | (Err e, s') => h e s'
  end.

(** [try: m; except Exception as e: h e]: a cancellation passes. *)
Definition except_Exception {A} (m : eff S A) (h : exn -> eff S A) : eff S A := try_except m (fun e => if is_cancelled e then raise e else h e).

(** [async with db.transaction() as tx: m]: commit on success, roll back and
    re-raise otherwise. *)
Definition transaction {A} (m : eff S A) : eff S A := fun s =>
  match m s with
  | (Ok a, s') => (Ok a, s')
  | (Err e, _) => (Err e, s)
  end.

(** [for x in l: f x] *)
Fixpoint for_each {X} (f : X -> eff S unit) (l : list X) : eff S unit :=
  match l with
  | [] => mret ()
  | x :: l' => f x ≫= fun _ => for_each f l'
  end.
End eff_ops.

(** ** Laws and inversion principles *)

Section eff_laws.
Context {S A B : Type}.
Implicit Types (m : eff S A) (k : A -> eff S B) (s : S).

Lemma bind_ok_inv m k s b s2 :
  (m ≫= k) s = (Ok b, s2) -> exists a s1, m s = (Ok a, s1) /\ k a s1 = (Ok b, s2).
Proof.
  unfold mbind, eff_bind. destruct (m s) as [[a|e] s1] eqn:E; [|done].
  intros H. by exists a, s1.
Qed.

Lemma bind_err_inv m k s e s2 :
  (m ≫= k) s = (Err e, s2) ->
  m s = (Err e, s2) \/ exists a s1, m s = (Ok a, s1) /\ k a s1 = (Err e, s2).
Proof.
  unfold mbind, eff_bind. destruct (m s) as [[a|e1] s1] eqn:E; intros H; simplify_eq.
  - right. by exists a, s1.
  - by left.
Qed.

Lemma bind_ok m k s a s1 : m s = (Ok a, s1) -> (m ≫= k) s = k a s1.
Proof. intros H. unfold mbind, eff_bind. by rewrite H. Qed.

Lemma bind_err m k s e s1 : m s = (Err e, s1) -> (m ≫= k) s = (Err e, s1).
Proof. intros H. unfold mbind, eff_bind. by rewrite H. Qed.

Lemma transaction_ok m s a s' : transaction m s = (Ok a, s') <-> m s = (Ok a, s').
Proof. unfold transaction. destruct (m s) as [[?|?] ?]; naive_solver. Qed.

Lemma transaction_ok_inv m s a s' : transaction m s = (Ok a, s') -> m s = (Ok a, s').
Proof. apply transaction_ok. Qed.

(** A transaction that raises has no effect. *)
Lemma transaction_err m s e s' :
  transaction m s = (Err e, s') -> s' = s /\ exists s1, m s = (Err e, s1).
Proof. unfold transaction. destruct (m s) as [[?|?] ?]; naive_solver. Qed.

Lemma lift_ok (r : result A) s a s' : lift r s = (Ok a, s') <-> r = Ok a /\ s' = s.
Proof. unfold lift. naive_solver. Qed.
End eff_laws.

Lemma ensure_ok b e u : ensure b e = Ok u <-> b = true.
Proof. unfold ensure. destruct b, u; naive_solver. Qed.

Lemma result_bind_ok {A B} (r : result A) (k : A -> result B) b :
  (r ≫= k) = Ok b -> exists a, r = Ok a /\ k a = Ok b.
Proof. destruct r; simpl; intros; [eauto|done]. Qed.

(** The monad laws, so that handlers can be rearranged by rewriting. *)
Lemma eff_left_id {S A B} (a : A) (k : A -> eff S B) s : (mret a ≫= k) s = k a s.
Proof. done. Qed.

Lemma eff_assoc {S A B C} (m : eff S A) (k : A -> eff S B) (l : B -> eff S C) s :
  ((m ≫= k) ≫= l) s = (m ≫= fun a => k a ≫= l) s.
Proof. unfold mbind, eff_bind. by destruct (m s) as [[?|?] ?]. Qed.

(** Invert every bind of a successful run in the hypotheses. *)
Ltac eff_inv_step :=
  match goal with
  | H : (_ ≫= _) _ = (Ok _, _) |- _ =>
      let a := fresh "r" in let s := fresh "s" in let H1 := fresh "H" in
      apply bind_ok_inv in H as (a & s & H1 & H)
  | H : transaction _ _ = (Ok _, _) |- _ => apply transaction_ok_inv in H
  | H : lift _ _ = (Ok _, _) |- _ => apply lift_ok in H as [H ?]; subst
  | H : ensure _ _ = Ok _ |- _ => apply ensure_ok in H
  | H : mret _ _ = (Ok _, _) |- _ => unfold mret, eff_ret in H; simplify_eq
  | H : get_state _ = (Ok _, _) |- _ => unfold get_state in H; simplify_eq
  | H : put_state _ _ = (Ok _, _) |- _ => unfold put_state in H; simplify_eq
  | H : modify _ _ = (Ok _, _) |- _ => unfold modify in H; simplify_eq
  | H : raise _ _ = (Ok _, _) |- _ => by unfold raise in H
  end.
Ltac eff_inv := repeat eff_inv_step.
