(* ===== verification/Text.v ===== *)
(** * Text

    The string operations the sources use, on Rocq strings. A Python [str] is
    represented by its UTF-8 bytes: equality, [startswith], concatenation and
    the code-point order of [str] are those of the bytes, and [len(s.encode())]
    is [String.length]. Regular expressions of the sources are written as
    decision functions on the list of characters. *)

From stdpp Require Import base list strings numbers.
From Stdlib Require Import ZArith Lia Ascii Sorting.Sorted.
From S2P Require Import Prelude.

Local Open Scope Z_scope.

(** ** Characters *)

Definition chars (s : string) : list ascii := String.list_ascii_of_string s.
Definition of_chars (l : list ascii) : string := String.string_of_list_ascii l.

Definition code_of (c : ascii) : Z := Z.of_N (N_of_ascii c).
Definition chr (z : Z) : ascii := ascii_of_N (Z.to_N z).

Definition in_range (lo hi : Z) (c : ascii) : bool := (lo <=? code_of c) && (code_of c <=? hi).

(** [[0-9]], [[A-Z]], [[a-z]], [[0-9a-f]], [[0-9A-Za-z]] *)
Definition is_digit : ascii -> bool := in_range 48 57.
Definition is_upper : ascii -> bool := in_range 65 90.
Definition is_lower : ascii -> bool := in_range 97 122.
Definition is_hex (c : ascii) : bool := is_digit c || in_range 97 102 c.
Definition is_alnum (c : ascii) : bool := is_digit c || is_upper c || is_lower c.

(** ** Operations *)

Definition slen (s : string) : Z := Z.of_nat (String.length s).

(** [s.startswith(p)] *)
Definition starts_with (p s : string) : bool := String.prefix p s.

(** [s[len(p):]] *)
Definition remove_prefix (p s : string) : string := of_chars (drop (String.length p) (chars s)).

(** [s[:n]] and [s[n:]] *)
Definition str_take (n : nat) (s : string) : string := of_chars (take n (chars s)).
Definition str_drop (n : nat) (s : string) : string := of_chars (drop n (chars s)).

(** [sep.join(parts)] *)
Fixpoint str_join (sep : string) (parts : list string) : string :=
  match parts with
  | [] => ""
  | [x] => x
  | x :: rest => (x +:+ sep +:+ str_join sep rest)%string
  end.

(** [s.split(sep)] for a one-character separator. *)
Fixpoint split_chars (sep : ascii) (acc : list ascii) (l : list ascii) : list (list ascii) :=
  match l with
  | [] => [rev acc]
  | c :: l' => if ascii_dec c sep then rev acc :: split_chars sep [] l'
               else split_chars sep (c :: acc) l'
  end.
Definition str_split (sep : ascii) (s : string) : list string :=
  map of_chars (split_chars sep [] (chars s)).

(** [s.rpartition(sep)] for a one-character separator: [None] when it does not
    occur, the text before and after its last occurrence otherwise. *)
Fixpoint rpartition_chars (sep : ascii) (l : list ascii) : option (list ascii * list ascii) :=
  match l with
  | [] => None
  | c :: l' =>
      match rpartition_chars sep l' with
      | Some (h, t) => Some (c :: h, t)
      | None => if ascii_dec c sep then Some ([], l') else None
      end
  end.
Definition rpartition (sep : ascii) (s : string) : option (string * string) :=
  match rpartition_chars sep (chars s) with
  | Some (h, t) => Some (of_chars h, of_chars t)
  | None => None
  end.

(** [re.fullmatch("[class]{lo,hi}", s)] *)
Definition class_match (p : ascii -> bool) (lo hi : Z) (s : string) : bool :=
  forallb p (chars s) && (lo <=? slen s) && (slen s <=? hi).

(** [c in s] *)
Definition has_char (c : ascii) (s : string) : bool := existsb (fun d => bool_decide (d = c)) (chars s).

(** The order of Python strings, and of SQL TEXT columns. *)
Definition str_le (s1 s2 : string) : bool := String.leb s1 s2.
Definition str_lt (s1 s2 : string) : bool := String.ltb s1 s2.

(** [sorted(l)] on strings: insertion sort. *)
Fixpoint str_insert (x : string) (l : list string) : list string :=
  match l with
  | [] => [x]
  | y :: l' => if str_le x y then x :: y :: l' else y :: str_insert x l'
  end.
Fixpoint str_sort (l : list string) : list string :=
  match l with
  | [] => []
  | x :: l' => str_insert x (str_sort l')
  end.

(** Decimal text of an integer: [str(n)]. *)
Fixpoint digits_of (fuel : nat) (n : Z) (acc : list ascii) : list ascii :=
  match fuel with
  | O => acc
  | S f =>
      let acc' := chr (48 + n mod 10) :: acc in
      if n <? 10 then acc' else digits_of f (n / 10) acc'
  end.
Definition str_of_Z (n : Z) : string :=
  let m := Z.abs n in
  let ds := of_chars (digits_of (S (Z.to_nat (Z.log2 m))) m []) in
  if n <? 0 then ("-" +:+ ds)%string else ds.

(** ** UTF-8 *)

Definition is_continuation (c : ascii) : bool := in_range 128 191 c.

(** Well-formed UTF-8: no overlong form, no surrogate, at most U+10FFFF. *)
Fixpoint utf8_chars (l : list ascii) : bool :=
  match l with
  | [] => true
  | a :: l1 =>
      if code_of a <? 128 then utf8_chars l1
      else match l1 with
      | [] => false
      | b :: l2 =>
          if in_range 194 223 a then is_continuation b && utf8_chars l2
          else match l2 with
          | [] => false
          | c :: l3 =>
              if in_range 224 239 a then
                is_continuation b && is_continuation c
                && negb ((code_of a =? 224) && (code_of b <? 160))
                && negb ((code_of a =? 237) && (160 <=? code_of b)) && utf8_chars l3
              else match l3 with
              | [] => false
              | d :: l4 =>
                  in_range 240 244 a && is_continuation b && is_continuation c && is_continuation d
                  && negb ((code_of a =? 240) && (code_of b <? 144))
                  && negb ((code_of a =? 244) && (144 <=? code_of b)) && utf8_chars l4
              end
          end
      end
  end.

Definition utf8_valid (s : string) : bool := utf8_chars (chars s).

(** ** Lemmas *)

Lemma chars_of_chars l : chars (of_chars l) = l.
Proof. apply String.list_ascii_of_string_of_list_ascii. Qed.

Lemma of_chars_chars s : of_chars (chars s) = s.
Proof. apply String.string_of_list_ascii_of_string. Qed.

Lemma chars_inj s1 s2 : chars s1 = chars s2 -> s1 = s2.
Proof. intros H. by rewrite <- (of_chars_chars s1), H, of_chars_chars. Qed.

Lemma chars_app s1 s2 : chars (s1 +:+ s2)%string = chars s1 ++ chars s2.
Proof. induction s1 as [|c s1 IH]; [done|]. unfold String.app in *. simpl. by rewrite IH. Qed.

Lemma length_chars s : length (chars s) = String.length s.
Proof. induction s as [|c s IH]; simpl; [done|]. by rewrite IH. Qed.

Lemma of_chars_app l1 l2 : of_chars (l1 ++ l2) = (of_chars l1 +:+ of_chars l2)%string.
Proof. apply chars_inj. by rewrite chars_app, !chars_of_chars. Qed.

Lemma slen_nonneg s : 0 <= slen s.
Proof. unfold slen. lia. Qed.

Lemma slen_app s1 s2 : slen (s1 +:+ s2)%string = slen s1 + slen s2.
Proof. unfold slen. rewrite <- !length_chars, chars_app, length_app. lia. Qed.

Lemma starts_with_app p s : starts_with p (p +:+ s)%string = true.
Proof.
  unfold starts_with. induction p as [|c p IH]; simpl; [by destruct s|].
  unfold String.app. simpl. by destruct (ascii_dec c c).
Qed.

Lemma starts_with_inv p s : starts_with p s = true -> exists t, s = (p +:+ t)%string.
Proof.
  unfold starts_with. revert s. induction p as [|c p IH]; intros s; simpl.
  - intros _. by exists s.
  - destruct s as [|d s]; simpl; [done|]. destruct (ascii_dec c d) as [->|]; [|done].
    intros H. apply IH in H as [t ->]. by exists t.
Qed.

Lemma remove_prefix_app p s : remove_prefix p (p +:+ s)%string = s.
Proof.
  unfold remove_prefix. rewrite chars_app, <- length_chars, drop_app_length.
  apply of_chars_chars.
Qed.

(** The order of strings is a total order. *)
Lemma str_compare_refl s : String.compare s s = Eq.
Proof.
  induction s as [|c s IH]; simpl; [done|]. unfold Ascii.compare. by rewrite N.compare_refl.
Qed.

Lemma str_le_refl s : str_le s s = true.
Proof.
  unfold str_le, String.leb. by rewrite str_compare_refl.
Qed.

Lemma str_le_antisym s1 s2 : str_le s1 s2 = true -> str_le s2 s1 = true -> s1 = s2.
Proof. apply String.leb_antisym. Qed.

Lemma str_le_total s1 s2 : str_le s1 s2 = true \/ str_le s2 s1 = true.
Proof. apply String.leb_total. Qed.

Lemma str_le_trans s1 s2 s3 : str_le s1 s2 = true -> str_le s2 s3 = true -> str_le s1 s3 = true.
Proof.
  intros H1 H2.
  assert (H3 : String.le s1 s3); [|by apply Is_true_true].
  etrans; apply Is_true_true; [apply H1|apply H2].
Qed.

Lemma str_le_false s1 s2 : str_le s1 s2 = false -> str_le s2 s1 = true /\ s1 <> s2.
Proof.
  intros H. split.
  - destruct (str_le_total s1 s2); congruence.
  - intros ->. by rewrite str_le_refl in H.
Qed.

Lemma str_lt_spec s1 s2 : str_lt s1 s2 = true <-> str_le s1 s2 = true /\ s1 <> s2.
Proof.
  unfold str_lt, str_le, String.ltb, String.leb.
  destruct (String.compare s1 s2) eqn:E; split; intros H; try done; [|..|by destruct H].
  - destruct H as [_ H]. by apply String.compare_eq_iff in E.
  - split; [done|]. intros ->. by rewrite str_compare_refl in E.
Qed.

Lemma str_insert_perm x l : str_insert x l ≡ₚ x :: l.
Proof.
  induction l as [|y l IH]; simpl; [done|]. case_match; [done|].
  rewrite IH. apply Permutation_swap.
Qed.

Lemma str_sort_perm l : str_sort l ≡ₚ l.
Proof. induction l as [|x l IH]; simpl; [done|]. by rewrite str_insert_perm, IH. Qed.

Lemma str_sort_elem l x : x ∈ str_sort l <-> x ∈ l.
Proof. by rewrite str_sort_perm. Qed.

Lemma str_insert_sorted x l :
  Sorted (fun a b => str_le a b = true) l -> Sorted (fun a b => str_le a b = true) (str_insert x l).
Proof.
  induction 1 as [|y l Hs IH Hd]; simpl; [repeat constructor|].
  destruct (str_le x y) eqn:E; [repeat constructor; done|].
  constructor; [done|]. apply str_le_false in E as [E _].
  destruct l as [|z l]; simpl in *; [by repeat constructor|].
  case_match; constructor; [done|]. by inversion Hd.
Qed.

Lemma str_sort_sorted l : Sorted (fun a b => str_le a b = true) (str_sort l).
Proof. induction l; simpl; [constructor|]. by apply str_insert_sorted. Qed.

Lemma class_match_spec p lo hi s :
  class_match p lo hi s = true <->
  Forall (fun c => p c = true) (chars s) /\ lo <= slen s <= hi.
Proof.
  unfold class_match. rewrite !andb_true_iff, forallb_forall, !Z.leb_le, List.Forall_forall.
  tauto.
Qed.

Lemma str_split_nonempty sep s : str_split sep s <> [].
Proof.
  unfold str_split. enough (forall acc, split_chars sep acc (chars s) <> []) as H.
  { intros Heq. apply List.map_eq_nil in Heq. by apply (H []). }
  induction (chars s) as [|c l IH]; intros acc; simpl; [done|]. by case_match.
Qed.

Lemma rpartition_chars_none sep l : rpartition_chars sep l = None <-> sep ∉ l.
Proof.
  induction l as [|c l IH]; simpl; [split; [intros _; apply not_elem_of_nil|done]|].
  rewrite not_elem_of_cons. destruct (rpartition_chars sep l) as [[h t]|] eqn:E.
  - split; [done|]. intros [_ Hn]. by apply IH in Hn.
  - destruct (ascii_dec c sep) as [->|Hne]; [split; [done|tauto]|].
    split; [|done]. intros _. split; [done|]. by apply IH.
Qed.

Lemma rpartition_chars_some sep l h t :
  rpartition_chars sep l = Some (h, t) <-> l = h ++ sep :: t /\ sep ∉ t.
Proof.
  split.
  - revert h t. induction l as [|c l IH]; intros h t; simpl; [done|].
    destruct (rpartition_chars sep l) as [[h' t']|] eqn:E.
    + intros [= <- <-]. destruct (IH h' t' eq_refl) as [-> Hn]. done.
    + destruct (ascii_dec c sep) as [->|]; [|done]. intros [= <- <-].
      split; [done|]. by apply rpartition_chars_none.
  - intros [-> Hn]. induction h as [|c h IH]; simpl.
    + rewrite (proj2 (rpartition_chars_none sep t) Hn). by destruct (ascii_dec sep sep).
    + by rewrite IH.
Qed.

Lemma rpartition_some sep s h t :
  rpartition sep s = Some (h, t) <-> s = (h +:+ String sep t)%string /\ sep ∉ chars t.
Proof.
  unfold rpartition. destruct (rpartition_chars sep (chars s)) as [[h' t']|] eqn:E.
  - apply rpartition_chars_some in E as [Es Hn]. split.
    + intros [= <- <-]. rewrite chars_of_chars. split; [|done].
      apply chars_inj. by rewrite Es, chars_app, chars_of_chars; simpl; rewrite chars_of_chars.
    + intros [-> Ht]. rewrite chars_app in Es. simpl in Es.
      assert (Eq : rpartition_chars sep (chars h ++ sep :: chars t) = Some (h', t'))
        by (apply rpartition_chars_some; split; [done|done]).
      rewrite (proj2 (rpartition_chars_some sep _ (chars h) (chars t))) in Eq by done.
      injection Eq as <- <-. by rewrite !of_chars_chars.
  - split; [done|]. intros [-> Ht]. apply rpartition_chars_none in E. exfalso. apply E.
    rewrite chars_app. apply elem_of_app. right. by left.
Qed.

#[export] Hint Resolve str_le_refl slen_nonneg : text.
