(* ===== verification/Sha256.v ===== *)
(** * SHA-256

    [hashlib.sha256] of the Python standard library, as the sources use it:
    [sha256_hex] of [memory_router/canonical.py] and the digests of
    [memory_router/auth.py], [principals.py] and [human_auth_store.py]. The
    function is written out (FIPS 180-4) on 32-bit words kept as [Z] with their
    wrap-around, so that identifiers and digests evaluate in the kernel. *)

From stdpp Require Import base list strings numbers.
From Stdlib Require Import ZArith Lia Ascii.
From S2P Require Import Prelude Text.

Local Open Scope Z_scope.

Definition mask32 : Z := 4294967295.
Definition w32 (x : Z) : Z := Z.land x mask32.
Definition add32 (x y : Z) : Z := w32 (x + y).
Definition not32 (x : Z) : Z := Z.lxor x mask32.
Definition rotr (n x : Z) : Z := w32 (Z.lor (Z.shiftr x n) (Z.shiftl x (32 - n))).

Definition ch (x y z : Z) : Z := Z.lxor (Z.land x y) (Z.land (not32 x) z).
Definition maj (x y z : Z) : Z := Z.lxor (Z.lxor (Z.land x y) (Z.land x z)) (Z.land y z).
Definition bsig0 (x : Z) : Z := Z.lxor (Z.lxor (rotr 2 x) (rotr 13 x)) (rotr 22 x).
Definition bsig1 (x : Z) : Z := Z.lxor (Z.lxor (rotr 6 x) (rotr 11 x)) (rotr 25 x).
Definition ssig0 (x : Z) : Z := Z.lxor (Z.lxor (rotr 7 x) (rotr 18 x)) (Z.shiftr x 3).
Definition ssig1 (x : Z) : Z := Z.lxor (Z.lxor (rotr 17 x) (rotr 19 x)) (Z.shiftr x 10).

(** The constants of FIPS 180-4 are the first 32 bits of the fractional parts
    of the roots of the first primes; they are computed rather than listed. *)
Definition is_prime (n : nat) : bool :=
  forallb (fun d => negb (Nat.eqb (n mod d) 0)) (seq 2 (n - 2)).

Definition first_primes (n : nat) : list Z :=
  map Z.of_nat (take n (List.filter is_prime (seq 2 310))).

(** The largest [r < 2^bits] with [r^k <= x], bit by bit. *)
Fixpoint root_bits (k : Z) (bits : nat) (x r : Z) : Z :=
  match bits with
  | O => r
  | S b =>
      let r' := r + Z.shiftl 1 (Z.of_nat b) in
      root_bits k b x (if r' ^ k <=? x then r' else r)
  end.

(** The first 32 fractional bits of the [k]-th root of [p]. *)
Definition frac_root (k p : Z) : Z := w32 (root_bits k 40 (p * 2 ^ (32 * k)) 0).

Definition round_constants : list Z := Eval vm_compute in map (frac_root 3) (first_primes 64).

Record hstate := HState { ha : Z; hb : Z; hc : Z; hd : Z; he : Z; hf : Z; hg : Z; hh : Z }.

Definition initial_hash : hstate := Eval vm_compute in
  match map (frac_root 2) (first_primes 8) with
  | [a; b; c; d; e; f; g; h] => HState a b c d e f g h
  | _ => HState 0 0 0 0 0 0 0 0
  end.

(** The message schedule, newest word first. *)
Fixpoint extend_schedule (n : nat) (ws : list Z) : list Z :=
  match n with
  | O => ws
  | S n' =>
      let w := add32 (add32 (ssig1 (nth 1 ws 0)) (nth 6 ws 0))
                     (add32 (ssig0 (nth 14 ws 0)) (nth 15 ws 0)) in
      extend_schedule n' (w :: ws)
  end.

Definition sha_round (s : hstate) (kw : Z * Z) : hstate :=
  let t1 := add32 (add32 (hh s) (bsig1 (he s))) (add32 (ch (he s) (hf s) (hg s)) (add32 kw.1 kw.2)) in
  let t2 := add32 (bsig0 (ha s)) (maj (ha s) (hb s) (hc s)) in
  HState (add32 t1 t2) (ha s) (hb s) (hc s) (add32 (hd s) t1) (he s) (hf s) (hg s).

Definition compress (s : hstate) (block : list Z) : hstate :=
  let ws := rev (extend_schedule 48 (rev block)) in
  let r := fold_left sha_round (combine round_constants ws) s in
  HState (add32 (ha s) (ha r)) (add32 (hb s) (hb r)) (add32 (hc s) (hc r)) (add32 (hd s) (hd r))
         (add32 (he s) (he r)) (add32 (hf s) (hf r)) (add32 (hg s) (hg r)) (add32 (hh s) (hh r)).

(** Padding and splitting of the message bytes. *)
Fixpoint be_bytes (n : nat) (x : Z) : list Z :=
  match n with
  | O => []
  | S n' => be_bytes n' (Z.shiftr x 8) ++ [Z.land x 255]
  end.

Definition pad_message (m : list Z) : list Z :=
  let len := Z.of_nat (length m) in
  let zeros := Z.to_nat ((55 - len) mod 64) in
  m ++ [128] ++ replicate zeros 0 ++ be_bytes 8 (8 * len).

Fixpoint words_of (m : list Z) : list Z :=
  match m with
  | b0 :: b1 :: b2 :: b3 :: rest =>
      (Z.shiftl b0 24 + Z.shiftl b1 16 + Z.shiftl b2 8 + b3) :: words_of rest
  | _ => []
  end.

Fixpoint process_blocks (fuel : nat) (ws : list Z) (s : hstate) : hstate :=
  match fuel with
  | O => s
  | S f => match ws with
           | [] => s
           | _ => process_blocks f (drop 16 ws) (compress s (take 16 ws))
           end
  end.

Definition sha256_state (m : list Z) : hstate :=
  let ws := words_of (pad_message m) in
  process_blocks (length ws) ws initial_hash.

(** ** Digests as text *)

Definition hex_digit (n : Z) : ascii :=
  nth (Z.to_nat n) ["0"; "1"; "2"; "3"; "4"; "5"; "6"; "7"; "8"; "9"; "a"; "b"; "c"; "d"; "e"; "f"]%char "0"%char.

Definition hex_word (w : Z) : list ascii :=
  map (fun i => hex_digit (Z.land (Z.shiftr w (4 * i)) 15)) [7; 6; 5; 4; 3; 2; 1; 0].

Definition hex_of_state (s : hstate) : list ascii :=
  hex_word (ha s) ++ hex_word (hb s) ++ hex_word (hc s) ++ hex_word (hd s) ++
  hex_word (he s) ++ hex_word (hf s) ++ hex_word (hg s) ++ hex_word (hh s).

(** [canonical.sha256_hex]: the hex digest of the UTF-8 bytes. *)
Definition sha256_hex (value : string) : string :=
  of_chars (hex_of_state (sha256_state (map code_of (chars value)))).

(** [hashlib.sha256(value.encode()).digest()]: the 32 bytes. *)
Definition sha256_digest (value : string) : list Z :=
  let s := sha256_state (map code_of (chars value)) in
  be_bytes 4 (ha s) ++ be_bytes 4 (hb s) ++ be_bytes 4 (hc s) ++ be_bytes 4 (hd s) ++
  be_bytes 4 (he s) ++ be_bytes 4 (hf s) ++ be_bytes 4 (hg s) ++ be_bytes 4 (hh s).

(** [bytes.fromhex] on text without spaces. *)
Definition hex_value (c : ascii) : option Z :=
  if is_digit c then Some (code_of c - 48)
  else if in_range 97 102 c then Some (code_of c - 87)
  else if in_range 65 70 c then Some (code_of c - 55)
  else None.
Fixpoint fromhex_chars (l : list ascii) : option (list Z) :=
  match l with
  | [] => Some []
  | c :: d :: rest =>
      match hex_value c, hex_value d, fromhex_chars rest with
      | Some h, Some o, Some bs => Some (16 * h + o :: bs)
      | _, _, _ => None
      end
  | _ => None
  end.
Definition bytes_fromhex (s : string) : option (list Z) := fromhex_chars (chars s).

(** [hmac.compare_digest] on byte strings: equality. *)
Definition compare_digest (a b : list Z) : bool := bool_decide (a = b).

(** ** Facts *)

Lemma hex_digit_is_hex n : is_hex (hex_digit n) = true.
Proof.
  unfold hex_digit. generalize (Z.to_nat n). intros k.
  do 16 (destruct k as [|k]; [reflexivity|]). by destruct k.
Qed.

Lemma hex_of_state_length s : length (hex_of_state s) = 64%nat.
Proof. reflexivity. Qed.

Lemma hex_of_state_hex s : Forall (fun c => is_hex c = true) (hex_of_state s).
Proof. unfold hex_of_state, hex_word. simpl. repeat constructor; apply hex_digit_is_hex. Qed.

(** A digest is 64 lowercase hexadecimal characters. *)
Lemma sha256_hex_shape v : class_match is_hex 64 64 (sha256_hex v) = true.
Proof.
  apply class_match_spec. unfold sha256_hex, slen.
  rewrite <- length_chars, !chars_of_chars, hex_of_state_length.
  split; [apply hex_of_state_hex|lia].
Qed.

Lemma compare_digest_true a b : compare_digest a b = true <-> a = b.
Proof. apply bool_decide_eq_true. Qed.

(** Hexadecimal text always parses as bytes when its length is even. *)
Lemma hex_value_is_hex c : is_hex c = true -> is_Some (hex_value c).
Proof.
  unfold is_hex, hex_value. destruct (is_digit c); [by eexists|].
  simpl. intros ->. by eexists.
Qed.

Lemma fromhex_chars_hex n l :
  length l = (2 * n)%nat -> Forall (fun c => is_hex c = true) l ->
  exists bs, fromhex_chars l = Some bs /\ length bs = n.
Proof.
  revert l. induction n as [|n IH]; intros l Hl Hf.
  - destruct l; [|done]. by exists [].
  - destruct l as [|c [|d l]]; simpl in Hl; [lia|lia|].
    apply Forall_cons_1 in Hf as [Hc [Hd Hf]%Forall_cons_1].
    destruct (hex_value_is_hex c Hc) as [h Eh], (hex_value_is_hex d Hd) as [o Eo].
    destruct (IH l) as (bs & Hbs & Hn); [lia|done|].
    exists (16 * h + o :: bs). simpl. rewrite Eh, Eo, Hbs. by rewrite Hn.
Qed.

(** Reading back a printed digest gives its bytes. *)
Lemma hex_digit_nibble n : 0 <= n < 16 -> hex_value (hex_digit n) = Some n.
Proof.
  intros Hn. assert (H : Forall (fun k => hex_value (hex_digit k) = Some k) (seqZ 0 16))
    by (vm_compute; repeat constructor).
  rewrite list.Forall_forall in H. apply H, elem_of_seqZ. lia.
Qed.

Lemma nibble_pair x : 16 * Z.land (Z.shiftr x 4) 15 + Z.land x 15 = Z.land x 255.
Proof.
  change 15 with (Z.ones 4). change 255 with (Z.ones 8).
  rewrite !Z.land_ones, Z.shiftr_div_pow2 by lia. change (2 ^ 4) with 16. change (2 ^ 8) with 256.
  Z.to_euclidean_division_equations. lia.
Qed.

Lemma nibble_bounds x : 0 <= Z.land x 15 < 16.
Proof.
  change 15 with (Z.ones 4). rewrite Z.land_ones by lia. apply Z.mod_pos_bound. lia.
Qed.

Lemma fromhex_nibbles x l bs :
  fromhex_chars l = Some bs ->
  fromhex_chars (hex_digit (Z.land (Z.shiftr x 4) 15) :: hex_digit (Z.land x 15) :: l)
  = Some (Z.land x 255 :: bs).
Proof.
  intros Hl. simpl. rewrite !hex_digit_nibble by apply nibble_bounds. by rewrite Hl, nibble_pair.
Qed.

Lemma fromhex_word w l bs :
  fromhex_chars l = Some bs -> fromhex_chars (hex_word w ++ l) = Some (be_bytes 4 w ++ bs).
Proof.
  intros Hl.
  assert (Eh : hex_word w = concat (map (fun a =>
      [hex_digit (Z.land (Z.shiftr (Z.shiftr w a) 4) 15); hex_digit (Z.land (Z.shiftr w a) 15)])
      [24; 16; 8; 0])) by (simpl; by rewrite !Z.shiftr_shiftr by lia).
  assert (Eb : be_bytes 4 w = map (fun a => Z.land (Z.shiftr w a) 255) [24; 16; 8; 0])
    by (simpl; by rewrite !Z.shiftr_shiftr by lia).
  rewrite Eh, Eb. simpl map. simpl concat. simpl app.
  by repeat apply fromhex_nibbles.
Qed.

Lemma fromhex_sha256 v : bytes_fromhex (sha256_hex v) = Some (sha256_digest v).
Proof.
  unfold bytes_fromhex, sha256_hex, sha256_digest, hex_of_state. rewrite chars_of_chars.
  set (st := sha256_state _). rewrite <- (app_nil_r (hex_word (hh st))), <- (app_nil_r (be_bytes 4 (hh st))).
  by repeat apply fromhex_word.
Qed.

(** Lowercase hexadecimal text is determined by its bytes. *)
Lemma hex_value_inj c d :
  is_hex c = true -> is_hex d = true -> hex_value c = hex_value d -> c = d.
Proof.
  intros Hc Hd. unfold is_hex, hex_value in *. unfold is_digit, in_range, code_of in *.
  intros E. rewrite <- (ascii_N_embedding c), <- (ascii_N_embedding d). f_equal.
  repeat case_match; simplify_eq; split_bool; simpl in *; split_bool; try lia; try done.
Qed.

Lemma hex_value_bound c h : is_hex c = true -> hex_value c = Some h -> 0 <= h < 16.
Proof.
  unfold is_hex, hex_value, is_digit, in_range. intros Hc E.
  repeat case_match; simplify_eq; split_bool; simpl in *; split_bool; try lia; try done.
Qed.

Lemma fromhex_chars_inj bs l1 l2 :
  Forall (fun c => is_hex c = true) l1 -> Forall (fun c => is_hex c = true) l2 ->
  fromhex_chars l1 = Some bs -> fromhex_chars l2 = Some bs -> l1 = l2.
Proof.
  revert l1 l2. induction bs as [|b bs IH]; intros l1 l2 H1 H2 E1 E2.
  - destruct l1 as [|? [|? ?]], l2 as [|? [|? ?]]; simpl in *; try done; repeat case_match; done.
  - destruct l1 as [|c1 [|d1 l1]], l2 as [|c2 [|d2 l2]]; simpl in *; try done.
    apply Forall_cons_1 in H1 as [Hc1 [Hd1 H1]%Forall_cons_1].
    apply Forall_cons_1 in H2 as [Hc2 [Hd2 H2]%Forall_cons_1].
    destruct (hex_value c1) as [h1|] eqn:Eh1; [|done]. destruct (hex_value d1) as [o1|] eqn:Eo1; [|done].
    destruct (hex_value c2) as [h2|] eqn:Eh2; [|done]. destruct (hex_value d2) as [o2|] eqn:Eo2; [|done].
    destruct (fromhex_chars l1) eqn:F1; [|done]. destruct (fromhex_chars l2) eqn:F2; [|done].
    pose proof (hex_value_bound _ _ Hc1 Eh1). pose proof (hex_value_bound _ _ Hd1 Eo1).
    pose proof (hex_value_bound _ _ Hc2 Eh2). pose proof (hex_value_bound _ _ Hd2 Eo2).
    simplify_eq. assert (h1 = h2 /\ o1 = o2) as [-> ->] by lia.
    f_equal; [apply hex_value_inj; congruence|]. f_equal; [apply hex_value_inj; congruence|].
    by apply IH.
Qed.

(** The published test vectors. *)
Example sha256_abc :
  sha256_hex "abc" = "ba7816bf8f01cfea414140de5dae2223b00361a396177a9cb410ff61f20015ad".
Proof. vm_compute. reflexivity. Qed.

Example sha256_two_blocks :
  sha256_hex "abcdbcdecdefdefgefghfghighijhijkijkljklmklmnlmnomnopnopq" =
  "248d6a61d20638b8e5c026930c3e6039a33ce45964ff2167f6ecedd419db06c1".
Proof. vm_compute. reflexivity. Qed.
