(* ===== verification/Json.v ===== *)
(** * JSON values, canonical form and worklist traversals

    JSON values as the sources handle them, [memory_router/canonical.py]
    ([canonical_json] with its safety pass, [assert_json_depth]) and
    [_string_value_bytes] of [memory_router/limits.py]. A float is represented
    by the text of its value; the third-party [rfc8785.dumps] is the operation
    of the class [Rfc8785]. The two traversals pop their worklist from the end,
    as the code does, and are related to the recursive definitions. *)

From Stdlib Require Import ZArith Lia Ascii.
From stdpp Require Import base sets strings numbers list.
From S2P Require Import Prelude Errors Text Sha256.

Local Open Scope Z_scope.
Local Set Warnings "-register-all".

Inductive json :=
  | JNull
  | JBool (b : bool)
  | JInt (n : Z)
  | JFloat (text : string)
  | JStr (s : string)
  | JList (l : list json)
  | JDict (d : list (string * json)).

(** Induction through lists and dictionaries. *)
Section json_induction.
Context (P : json -> Prop)
  (Hnull : P JNull) (Hbool : forall b, P (JBool b)) (Hint : forall n, P (JInt n))
  (Hfloat : forall t, P (JFloat t)) (Hstr : forall s, P (JStr s))
  (Hlist : forall l, Forall P l -> P (JList l))
  (Hdict : forall d, Forall (fun kv => P kv.2) d -> P (JDict d)).

Fixpoint json_ind' (v : json) : P v :=
  match v with
  | JNull => Hnull
  | JBool b => Hbool b
  | JInt n => Hint n
  | JFloat t => Hfloat t
  | JStr s => Hstr s
  | JList l => Hlist l ((fix go (l : list json) : Forall P l :=
                           match l with [] => Forall_nil_2 _ | x :: l' => Forall_cons_2 P x l' (json_ind' x) (go l') end) l)
  | JDict d => Hdict d ((fix go (d : list (string * json)) : Forall (fun kv => P kv.2) d :=
                           match d with [] => Forall_nil_2 _ | kv :: d' => Forall_cons_2 (fun kv => P kv.2) kv d' (json_ind' kv.2) (go d') end) d)
  end.
End json_induction.

#[export] Instance json_eq_dec : EqDecision json.
Proof.
  refine (fix go (v w : json) : Decision (v = w) :=
    let _ : EqDecision json := go in
    match v, w with
    | JNull, JNull => left eq_refl
    | JBool a, JBool b => cast_if (decide (a = b))
    | JInt a, JInt b => cast_if (decide (a = b))
    | JFloat a, JFloat b => cast_if (decide (a = b))
    | JStr a, JStr b => cast_if (decide (a = b))
    | JList a, JList b => cast_if (decide (a = b))
    | JDict a, JDict b => cast_if (decide (a = b))
    | _, _ => right _
    end); abstract congruence.
Defined.

(** The values a container holds, in iteration order. *)
Definition children (v : json) : list json :=
  match v with
  | JList l => l
  | JDict d => map snd d
  | _ => []
  end.

(** [json.dumps(v, separators=(",", ":"), ensure_ascii=False)] *)
Definition hex4 (n : Z) : list ascii :=
  map (fun i => hex_digit (Z.land (Z.shiftr n (4 * i)) 15)) [3; 2; 1; 0].

Definition escape_char (c : ascii) : list ascii :=
  let n := code_of c in
  if n =? 34 then [chr 92; chr 34]
  else if n =? 92 then [chr 92; chr 92]
  else if n =? 10 then [chr 92; "n"%char]
  else if n =? 13 then [chr 92; "r"%char]
  else if n =? 9 then [chr 92; "t"%char]
  else if n =? 8 then [chr 92; "b"%char]
  else if n =? 12 then [chr 92; "f"%char]
  else if n <? 32 then [chr 92; "u"%char] ++ hex4 n
  else [c].

Definition json_string (s : string) : string :=
  of_chars (chr 34 :: concat (map escape_char (chars s)) ++ [chr 34]).

Fixpoint json_dumps (v : json) : string :=
  match v with
  | JNull => "null"
  | JBool b => if b then "true" else "false"
  | JInt n => str_of_Z n
  | JFloat t => t
  | JStr s => json_string s
  | JList l => ("[" +:+ str_join "," (map json_dumps l) +:+ "]")%string
  | JDict d =>
      ("{" +:+ str_join "," (map (fun kv => (json_string kv.1 +:+ ":" +:+ json_dumps kv.2)%string) d) +:+ "}")%string
  end.

(** [value.get(key)] of a dictionary. *)
Definition jget (key : string) (v : json) : option json :=
  match v with JDict d => dict_get key d | _ => None end.

(** [value[key] = x] of a dictionary. *)
Definition jset (key : string) (x : json) (v : json) : json :=
  match v with JDict d => JDict (dict_set key x d) | _ => v end.

(** [None] in JSON. *)
Definition jopt (o : option string) : json := match o with Some s => JStr s | None => JNull end.

(** ** canonical.py *)

Definition _MAX_SAFE_INTEGER : Z := Z.shiftl 1 53 - 1.

(** [math.isfinite] on the text of a float. *)
Definition isfinite (t : string) : bool := negb (elem t ["nan"; "inf"; "-inf"]).

(** [_rfc8785_safe]: raises on values outside JSON, and returns the value. Text
    is valid UTF-8 and dictionary keys are text in this representation. *)
Fixpoint _rfc8785_safe (v : json) : bool :=
  match v with
  | JNull | JBool _ | JStr _ => true
  | JInt n => (- _MAX_SAFE_INTEGER <=? n) && (n <=? _MAX_SAFE_INTEGER)
  | JFloat t => isfinite t
  | JList l => forallb _rfc8785_safe l
  | JDict d => forallb (fun kv => _rfc8785_safe kv.2) d
  end.

(** [rfc8785.dumps]: [None] when it raises a canonicalization error. *)
Class Rfc8785 := { rfc8785_dumps : json -> option string }.

Definition canonical_json `{Rfc8785} (v : json) : result string :=
  if _rfc8785_safe v then
    match rfc8785_dumps v with
    | Some s => Ok s
    | None => Err (EValueError "value must contain JSON values only")
    end
  else Err (EValueError "value must contain JSON values only").

(** A stack popped from the end and extended at the end, as a list whose head
    is the top. *)
Definition push_all {A} (xs stack : list A) : list A := rev xs ++ stack.

(** [assert_json_depth], one iteration of its loop per unit of fuel. *)
Fixpoint depth_loop (fuel : nat) (stack : list (json * Z)) (max_depth : Z) : option (result unit) :=
  match fuel with
  | O => None
  | S f =>
      match stack with
      | [] => Some (Ok ())
      | (current, depth) :: stack' =>
          if max_depth <? depth then Some (Err (EValueError "JSON nesting depth exceeds limit"))
          else depth_loop f (push_all (map (fun v => (v, depth + 1)) (children current)) stack') max_depth
      end
  end.

(** The number of values in a JSON value. *)
Fixpoint json_size (v : json) : nat :=
  S (match v with
     | JList l => list_sum (map json_size l)
     | JDict d => list_sum (map (fun kv => json_size kv.2) d)
     | _ => O
     end).

Definition assert_json_depth (v : json) (max_depth : Z) : option (result unit) :=
  depth_loop (S (json_size v)) [(v, 1)] max_depth.

(** ** limits.py: the bytes of the text in a request *)

Fixpoint bytes_loop (fuel : nat) (pending : list json) (total : Z) : option Z :=
  match fuel with
  | O => None
  | S f =>
      match pending with
      | [] => Some total
      | current :: pending' =>
          match current with
          | JStr s => bytes_loop f pending' (total + slen s)
          | _ => bytes_loop f (push_all (children current) pending') total
          end
      end
  end.

Definition _string_value_bytes (v : json) : option Z := bytes_loop (S (json_size v)) [v] 0.

(** ** Recursive counterparts *)

(** The nesting depth: one for a scalar. *)
Fixpoint json_depth (v : json) : Z :=
  1 + match v with
      | JList l => foldr Z.max 0 (map json_depth l)
      | JDict d => foldr Z.max 0 (map (fun kv => json_depth kv.2) d)
      | _ => 0
      end.

(** The UTF-8 bytes of all string values, keys excluded. *)
Fixpoint string_bytes (v : json) : Z :=
  match v with
  | JStr s => slen s
  | JList l => foldr Z.add 0 (map string_bytes l)
  | JDict d => foldr Z.add 0 (map (fun kv => string_bytes kv.2) d)
  | _ => 0
  end.

(** ** Lemmas *)

Definition stack_size (l : list json) : nat := list_sum (map json_size l).

Lemma json_size_children v : json_size v = S (stack_size (children v)).
Proof.
  unfold stack_size. destruct v; simpl; try done. f_equal. f_equal. by rewrite List.map_map.
Qed.

Lemma json_depth_children v : json_depth v = 1 + foldr Z.max 0 (map json_depth (children v)).
Proof. destruct v; simpl; try done. by rewrite List.map_map. Qed.

Lemma string_bytes_children v :
  string_bytes v = match v with JStr s => slen s | _ => foldr Z.add 0 (map string_bytes (children v)) end.
Proof. destruct v; simpl; try done. by rewrite List.map_map. Qed.

Lemma stack_size_push xs l : stack_size (push_all xs l) = (stack_size xs + stack_size l)%nat.
Proof.
  unfold stack_size, push_all. rewrite map_app, list_sum_app. f_equal.
  rewrite List.map_rev. induction (map json_size xs) as [|x m IH]; simpl; [done|].
  rewrite list_sum_app, IH. simpl. lia.
Qed.

Lemma depth_positive v : 1 <= json_depth v.
Proof.
  rewrite json_depth_children. enough (0 <= foldr Z.max 0 (map json_depth (children v))) by lia.
  induction (children v); simpl; lia.
Qed.

(** Every entry of the stack fits. *)
Definition fits (max_depth : Z) (e : json * Z) : bool := e.2 + json_depth e.1 - 1 <=? max_depth.

Lemma fits_children max_depth v d :
  d <= max_depth ->
  fits max_depth (v, d) = forallb (fits max_depth) (map (fun c => (c, d + 1)) (children v)).
Proof.
  intros Hd. unfold fits. rewrite json_depth_children. simpl.
  induction (children v) as [|c l IH]; simpl; [apply Z.leb_le; lia|].
  rewrite <- IH. pose proof (depth_positive c).
  destruct (_ <=? _) eqn:E1, (d + 1 + _ - 1 <=? _) eqn:E2, (d + (1 + foldr Z.max 0 (map json_depth l)) - 1 <=? _) eqn:E3;
    split_bool; simpl; try done; lia.
Qed.

Lemma forallb_push {A} (p : A -> bool) xs l : forallb p (push_all xs l) = forallb p xs && forallb p l.
Proof.
  unfold push_all. rewrite forallb_app. f_equal.
  induction xs as [|x xs IH]; simpl; [done|]. rewrite forallb_app, IH. simpl. rewrite andb_true_r. apply andb_comm.
Qed.

Lemma depth_loop_spec fuel stack max_depth :
  (stack_size (map fst stack) < fuel)%nat ->
  depth_loop fuel stack max_depth =
  Some (if forallb (fits max_depth) stack then Ok () else Err (EValueError "JSON nesting depth exceeds limit")).
Proof.
  revert stack. induction fuel as [|f IH]; intros stack Hf; [lia|].
  destruct stack as [|[v d] stack]; simpl; [done|].
  destruct (max_depth <? d) eqn:E; split_bool.
  - assert (Hfit : fits max_depth (v, d) = false).
    { unfold fits. simpl. pose proof (depth_positive v). apply Z.leb_gt. lia. }
    by rewrite Hfit.
  - assert (Em : map fst (push_all (map (fun c => (c, d + 1)) (children v)) stack)
                 = push_all (children v) (map fst stack)).
    { unfold push_all. rewrite map_app, List.map_rev, List.map_map. simpl. by rewrite List.map_id. }
    rewrite IH.
    + by rewrite forallb_push, <- fits_children.
    + rewrite Em, stack_size_push. unfold stack_size in *. simpl in Hf.
      rewrite json_size_children in Hf. unfold stack_size in Hf. lia.
Qed.

Lemma foldr_add_push (f : json -> Z) xs l :
  foldr Z.add 0 (map f (push_all xs l)) = foldr Z.add 0 (map f xs) + foldr Z.add 0 (map f l).
Proof.
  unfold push_all. induction xs as [|x xs IH] using rev_ind; simpl; [done|].
  rewrite rev_app_distr. simpl. rewrite IH, map_app. simpl.
  clear IH. induction (map f xs); simpl; lia.
Qed.

Lemma bytes_loop_spec fuel pending total :
  (stack_size pending < fuel)%nat ->
  bytes_loop fuel pending total = Some (total + foldr Z.add 0 (map string_bytes pending)).
Proof.
  revert pending total. induction fuel as [|f IH]; intros pending total Hf; [lia|].
  destruct pending as [|v pending]; simpl; [f_equal; lia|].
  unfold stack_size in Hf. simpl in Hf. rewrite json_size_children in Hf. fold (stack_size pending) in Hf.
  rewrite string_bytes_children. destruct v;
    (rewrite IH by (rewrite ?stack_size_push; simpl in *; lia));
    rewrite ?foldr_add_push; f_equal; simpl; lia.
Qed.

(** ** Properties *)

(** The depth check terminates and is exact: its loop, with the size of
    the value as fuel, always ends, and it accepts exactly the values whose
    nesting depth is within the limit. *)
Lemma json_depth_check v max_depth :
  assert_json_depth v max_depth =
  Some (if json_depth v <=? max_depth then Ok () else Err (EValueError "JSON nesting depth exceeds limit")).
Proof.
  unfold assert_json_depth. rewrite depth_loop_spec.
  - cbn [forallb]. rewrite andb_true_r. unfold fits. cbn [fst snd].
    by replace (1 + json_depth v - 1) with (json_depth v) by lia.
  - unfold stack_size. simpl. lia.
Qed.

(** The byte count of a request terminates and equals the sum of the
    UTF-8 lengths of all its string values, whatever the traversal order. *)
Lemma string_value_bytes_exact v : _string_value_bytes v = Some (string_bytes v).
Proof.
  unfold _string_value_bytes. rewrite bytes_loop_spec.
  - simpl. f_equal. lia.
  - unfold stack_size. simpl. lia.
Qed.
