(* ===== verification/JsonParse.v ===== *)
(** * The JSON parser

    [json.loads] of the Python standard library, as [memory_router/envelope.py]
    and [repository.py] use it on decrypted objects, [app.py] and [hindsight.py]
    on bytes with a hook that refuses constants, and [human_auth.py] with one
    that refuses repeated keys: the encoding of bytes, white space, strings with
    their escapes and surrogate pairs, integers (at most 4300 digits), floats
    with the text of their nearest double, the constants [NaN] and [Infinity],
    and objects whose later duplicate keys win. [None] is its [ValueError]; the
    interpreter's recursion limit is not modelled. A lone surrogate is kept as
    its three-byte form, which no valid text contains. *)

From Stdlib Require Import ZArith Lia Ascii.
From stdpp Require Import base sets strings numbers list.
From S2P Require Import Prelude Errors Text Json.

Local Open Scope Z_scope.

(** ** Strings *)

Definition is_char_code (n : Z) (c : ascii) : bool := code_of c =? n.

Definition hex_value (c : ascii) : option Z :=
  if in_range 48 57 c then Some (code_of c - 48)
  else if in_range 97 102 c then Some (code_of c - 87)
  else if in_range 65 70 c then Some (code_of c - 55)
  else None.

(** [_decode_uXXXX] *)
Definition decode_u (h1 h2 h3 h4 : ascii) : option Z :=
  a ← hex_value h1; b ← hex_value h2; c ← hex_value h3; d ← hex_value h4;
  Some (4096 * a + 256 * b + 16 * c + d).

(** The UTF-8 bytes of a code point. *)
Definition utf8_encode (n : Z) : list ascii :=
  let tail k := chr (128 + Z.land (Z.shiftr n (6 * k)) 63) in
  if n <? 128 then [chr n]
  else if n <? 2048 then [chr (192 + Z.shiftr n 6); tail 0]
  else if n <? 65536 then [chr (224 + Z.shiftr n 12); tail 1; tail 0]
  else [chr (240 + Z.shiftr n 18); tail 2; tail 1; tail 0].

Definition is_high (n : Z) : bool := (55296 <=? n) && (n <=? 56319).
Definition is_low (n : Z) : bool := (56320 <=? n) && (n <=? 57343).
Definition join_surrogates (hi lo : Z) : Z := 65536 + Z.lor (Z.shiftl (hi - 55296) 10) (lo - 56320).

(** The character after a backslash. *)
Definition simple_escape (c : ascii) : option ascii :=
  let n := code_of c in
  if n =? 34 then Some (chr 34)
  else if n =? 92 then Some (chr 92)
  else if n =? 47 then Some (chr 47)
  else if n =? 98 then Some (chr 8)
  else if n =? 102 then Some (chr 12)
  else if n =? 110 then Some (chr 10)
  else if n =? 114 then Some (chr 13)
  else if n =? 116 then Some (chr 9)
  else None.

(** Put decoded characters in front of what follows. *)
Definition prepend (cs : list ascii) (r : option (list ascii * list ascii)) : option (list ascii * list ascii) :=
  p ← r; Some (cs ++ p.1, p.2).

(** [scanstring] after the opening quote: the contents and what follows the
    closing one. *)
Fixpoint scan_string (l : list ascii) : option (list ascii * list ascii) :=
  match l with
  | [] => None
  | c :: l1 =>
      if is_char_code 34 c then Some ([], l1)
      else if negb (is_char_code 92 c) then
        if code_of c <? 32 then None else prepend [c] (scan_string l1)
      else
        match l1 with
        | [] => None
        | e :: l2 =>
            if negb (is_char_code 117 e) then
              match simple_escape e with
              | Some c' => prepend [c'] (scan_string l2)
              | None => None
              end
            else
              match l2 with
              | h1 :: h2 :: h3 :: h4 :: l6 =>
                  match decode_u h1 h2 h3 h4 with
                  | None => None
                  | Some n =>
                      match l6 with
                      | b :: u :: g1 :: g2 :: g3 :: g4 :: l12 =>
                          if is_high n && is_char_code 92 b && is_char_code 117 u then
                            match decode_u g1 g2 g3 g4 with
                            | None => None
                            | Some m => if is_low m then prepend (utf8_encode (join_surrogates n m)) (scan_string l12)
                                        else prepend (utf8_encode n) (scan_string l6)
                            end
                          else prepend (utf8_encode n) (scan_string l6)
                      | _ => prepend (utf8_encode n) (scan_string l6)
                      end
                  end
              | _ => None
              end
        end
  end.

(** ** Numbers *)

(** The longest prefix of characters in [p]. *)
Fixpoint span (p : ascii -> bool) (l : list ascii) : list ascii * list ascii :=
  match l with
  | c :: l' => if p c then let '(a, b) := span p l' in (c :: a, b) else ([], l)
  | [] => ([], [])
  end.

Definition digits_number (ds : list ascii) : Z := foldl (fun n c => 10 * n + (code_of c - 48)) 0 ds.

(** An optional minus sign, then [0] or digits that do not start with [0]. *)
Definition scan_integer (l : list ascii) : option (list ascii * list ascii * list ascii) :=
  let '(sign, l) := match l with c :: l' => if is_char_code 45 c then ([c], l') else ([], l) | [] => ([], l) end in
  match l with
  | c :: l' =>
      if is_char_code 48 c then Some (sign, [c], l')
      else if is_digit c then let '(ds, rest) := span is_digit l' in Some (sign, c :: ds, rest)
      else None
  | [] => None
  end.

(** [([.][0-9]+)?], without the point. *)
Definition scan_fraction (l : list ascii) : list ascii * list ascii :=
  match l with
  | c :: l' => if is_char_code 46 c then match span is_digit l' with ([], _) => ([], l) | p => p end else ([], l)
  | [] => ([], l)
  end.

(** [([eE][-+]?[0-9]+)?]: the exponent, when there is one. *)
Definition scan_exponent (l : list ascii) : option Z * list ascii :=
  match l with
  | c :: l1 =>
      if is_char_code 101 c || is_char_code 69 c then
        let '(neg, l2) := match l1 with
                          | s :: l2 => if is_char_code 45 s then (true, l2) else if is_char_code 43 s then (false, l2) else (false, l1)
                          | [] => (false, l1)
                          end in
        match span is_digit l2 with
        | ([], _) => (None, l)
        | (ds, rest) => (Some (if neg : bool then - digits_number ds else digits_number ds), rest)
        end
      else (None, l)
  | [] => (None, l)
  end.

(** [num / den] to the nearest integer, ties to even. *)
Definition round_div (num den : Z) : Z :=
  let q := num / den in
  let r := num mod den in
  if (2 * r <? den) || ((2 * r =? den) && Z.even q) then q else q + 1.

(** [n * 10 ^ e] as a fraction. *)
Definition decimal_fraction (n e : Z) : Z * Z := if 0 <=? e then (n * 10 ^ e, 1) else (n, 10 ^ (- e)).

(** The double nearest to a positive fraction: mantissa and exponent, [None]
    when it overflows. *)
Definition round_double (num den : Z) : option (Z * Z) :=
  let k := Z.log2 num - Z.log2 den in
  let k := if num * 2 ^ Z.max 0 (- k) <? den * 2 ^ Z.max 0 k then k - 1 else k in
  let e := Z.max (k - 52) (-1074) in
  let m := round_div (num * 2 ^ Z.max 0 (- e)) (den * 2 ^ Z.max 0 e) in
  let '(m, e) := if m =? 2 ^ 53 then (2 ^ 52, e + 1) else (m, e) in
  if 971 <? e then None else Some (m, e).

(** The shortest decimal that rounds to a double, the nearest such one: digits
    [d] and exponent [x] of [d * 10 ^ x]. [p] is the exponent of the first digit. *)
Definition double_of_decimal (d x : Z) : option (Z * Z) :=
  let '(a, b) := decimal_fraction d x in round_double a b.

Fixpoint shortest (tries : list Z) (num den p : Z) (double : Z * Z) : Z * Z :=
  match tries with
  | [] => (0, 0)
  | n :: tries' =>
      let x := p - n + 1 in
      let '(a, b) := (num * 10 ^ Z.max 0 (- x), den * 10 ^ Z.max 0 x) in
      let near := round_div a b in
      let other := if near =? a / b then near + 1 else near - 1 in
      if bool_decide (double_of_decimal near x = Some double) then (near, x)
      else if (0 <? other) && bool_decide (double_of_decimal other x = Some double) then (other, x)
      else shortest tries' num den p double
  end.

Definition zeros (n : Z) : string := of_chars (replicate (Z.to_nat n) "0"%char).

(** [repr] of a double from its digits and the position of the decimal point. *)
Definition format_repr (ds : string) (decpt : Z) : string :=
  let n := slen ds in
  if (-4 <? decpt) && (decpt <=? 16) then
    if decpt <=? 0 then ("0." +:+ zeros (- decpt) +:+ ds)%string
    else if n <=? decpt then (ds +:+ zeros (decpt - n) +:+ ".0")%string
    else (str_take (Z.to_nat decpt) ds +:+ "." +:+ str_drop (Z.to_nat decpt) ds)%string
  else
    let e := decpt - 1 in
    let es := str_of_Z (Z.abs e) in
    let mantissa := if n =? 1 then ds else (str_take 1 ds +:+ "." +:+ str_drop 1 ds)%string in
    let sign := if e <? 0 then "-"%string else "+"%string in
    (mantissa +:+ "e" +:+ sign +:+ str_take (Z.to_nat (2 - slen es)) "0" +:+ es)%string.

(** The exponent of the first digit of a positive fraction. *)
Definition first_digit (num den : Z) : Z :=
  let guess := slen (str_of_Z num) - slen (str_of_Z den) in
  if num * 10 ^ Z.max 0 (- guess) <? den * 10 ^ Z.max 0 guess then guess - 1 else guess.

(** [repr(float(text))] for a decimal [(-1)^neg * n * 10^e]; exponents beyond
    every double are decided without computing the power. *)
Definition float_repr (neg : bool) (n e : Z) : string :=
  let sign := if neg then "-"%string else ""%string in
  let size := e + slen (str_of_Z n) in
  let body :=
    if (n =? 0) || (size <? -400) then "0.0"%string
    else if 400 <? size then "inf"%string
    else
      let '(num, den) := decimal_fraction n e in
      match round_double num den with
      | None => "inf"%string
      | Some (m, k) =>
          if m =? 0 then "0.0"%string
          else
            let '(num, den) := if 0 <=? k then (m * 2 ^ k, 1) else (m, 2 ^ (- k)) in
            let '(d, x) := shortest (seqZ 1 17) num den (first_digit num den) (m, k) in
            let ds := str_of_Z d in
            let stripped := of_chars (rev ((span (is_char_code 48) (rev (chars ds))).2)) in
            format_repr stripped (x + slen ds)
      end in
  (sign +:+ body)%string.

(** [int] refuses more digits than this. *)
Definition INT_MAX_STR_DIGITS : Z := 4300.

Definition scan_number (l : list ascii) : option (json * list ascii) :=
  match scan_integer l with
  | None => None
  | Some (sign, ds, l1) =>
      let neg := negb (bool_decide (sign = [])) in
      let '(frac, l2) := scan_fraction l1 in
      let '(ex, l3) := scan_exponent l2 in
      match frac, ex with
      | [], None =>
          if INT_MAX_STR_DIGITS <? Z.of_nat (length ds) then None
          else Some (JInt (if neg then - digits_number ds else digits_number ds), l1)
      | _, _ =>
          Some (JFloat (float_repr neg (digits_number (ds ++ frac)) (default 0 ex - Z.of_nat (length frac))), l3)
      end
  end.

(** ** Values *)

Definition is_space (c : ascii) : bool := elem (code_of c) [32; 9; 10; 13].
Definition skip_space (l : list ascii) : list ascii := (span is_space l).2.

(** The rest of [l] after a literal. *)
Fixpoint after (lit l : list ascii) : option (list ascii) :=
  match lit, l with
  | [], _ => Some l
  | a :: lit', c :: l' => if bool_decide (c = a) then after lit' l' else None
  | _ :: _, [] => None
  end.

(** The constants, in the order the scanner tries them. A [parse_constant] hook
    that raises refuses the last three, which nothing else accepts. *)
Definition constants (strict : bool) : list (string * json) :=
  [("null", JNull); ("true", JBool true); ("false", JBool false)]
  ++ (if strict then [] else [("NaN", JFloat "nan"); ("Infinity", JFloat "inf"); ("-Infinity", JFloat "-inf")]).

Fixpoint scan_constant (cs : list (string * json)) (l : list ascii) : option (json * list ascii) :=
  match cs with
  | [] => None
  | (lit, v) :: cs' => match after (chars lit) l with Some rest => Some (v, rest) | None => scan_constant cs' l end
  end.

Section scanner.
(** Whether the object hook refuses a repeated key, and the constant hook a
    number that is not finite. *)
Context (unique strict : bool).

(** [scan_once] and the bodies of an array and of an object, after their
    opening bracket; [d] holds the members read so far. *)
Fixpoint scan_once (fuel : nat) (l : list ascii) : option (json * list ascii) :=
  match fuel with
  | O => None
  | S f =>
      match l with
      | [] => None
      | c :: l' =>
          if is_char_code 34 c then p ← scan_string l'; Some (JStr (of_chars p.1), p.2)
          else if is_char_code 123 c then
            match skip_space l' with
            | c' :: rest => if is_char_code 125 c' then Some (JDict [], rest) else scan_members f [] (c' :: rest)
            | [] => None
            end
          else if is_char_code 91 c then
            match skip_space l' with
            | c' :: rest => if is_char_code 93 c' then Some (JList [], rest) else scan_elements f (c' :: rest)
            | [] => None
            end
          else
            match scan_constant (constants strict) l with
            | Some r => Some r
            | None => scan_number l
            end
      end
  end
with scan_elements (fuel : nat) (l : list ascii) : option (json * list ascii) :=
  match fuel with
  | O => None
  | S f =>
      p ← scan_once f l;
      match skip_space p.2 with
      | c :: rest =>
          if is_char_code 93 c then Some (JList [p.1], rest)
          else if is_char_code 44 c then
            q ← scan_elements f (skip_space rest);
            match q.1 with JList vs => Some (JList (p.1 :: vs), q.2) | _ => None end
          else None
      | [] => None
      end
  end
with scan_members (fuel : nat) (d : list (string * json)) (l : list ascii) : option (json * list ascii) :=
  match fuel with
  | O => None
  | S f =>
      match l with
      | c :: l' =>
          if negb (is_char_code 34 c) then None
          else
            k ← scan_string l';
            match skip_space k.2 with
            | c1 :: l1 =>
                if negb (is_char_code 58 c1) then None
                else
                  p ← scan_once f (skip_space l1);
                  if unique && elem (of_chars k.1) (map fst d) then None else
                  let d' := dict_set (of_chars k.1) p.1 d in
                  match skip_space p.2 with
                  | c2 :: rest =>
                      if is_char_code 125 c2 then Some (JDict d', rest)
                      else if is_char_code 44 c2 then scan_members f d' (skip_space rest)
                      else None
                  | [] => None
                  end
            | [] => None
            end
      | [] => None
      end
  end.

Definition json_loads_with (s : string) : option json :=
  p ← scan_once (S (2 * String.length s)) (skip_space (chars s));
  match skip_space p.2 with [] => Some p.1 | _ => None end.

(** ** Reading back printed strings *)

Lemma scan_u h1 h2 h3 h4 n tail :
  decode_u h1 h2 h3 h4 = Some n -> is_high n = false ->
  scan_string ("\"%char :: "u"%char :: h1 :: h2 :: h3 :: h4 :: tail) = prepend (utf8_encode n) (scan_string tail).
Proof.
  intros Hu Hh. cbn [scan_string]. change (is_char_code 34 "\"%char) with false. change (is_char_code 92 "\"%char) with true.
  change (is_char_code 117 "u"%char) with true. cbn [negb]. rewrite Hu.
  do 6 (destruct tail as [|? tail]; [done|]). by rewrite Hh.
Qed.

Lemma scan_escape c tail : scan_string (escape_char c ++ tail) = prepend [c] (scan_string tail).
Proof.
  destruct c as [[] [] [] [] [] [] [] []];
    first [reflexivity
          |match goal with |- context [escape_char ?c] => let l := eval vm_compute in (escape_char c) in change (escape_char c) with l end;
           cbn [app]; erewrite scan_u by reflexivity; reflexivity].
Qed.

Lemma scan_string_escaped l rest : scan_string (concat (map escape_char l) ++ chr 34 :: rest) = Some (l, rest).
Proof. induction l as [|c l IH]; [done|]. simpl. by rewrite <- app_assoc, scan_escape, IH. Qed.

(** ** Reading back printed numbers *)

(** What follows a printed value: nothing, a comma or a closing bracket. *)
Definition ends_value (l : list ascii) : bool :=
  match l with [] => true | c :: _ => elem (code_of c) [44; 93; 125] end.

Lemma span_app p a b : forallb p a = true -> match b with [] => True | c :: _ => p c = false end -> span p (a ++ b) = (a, b).
Proof.
  intros Ha Hb. induction a as [|c a IH]; simpl in *.
  - destruct b as [|c b]; [done|]. simpl. by rewrite Hb.
  - split_bool. rewrite H. by rewrite IH.
Qed.

Lemma span_split p l a b : span p l = (a, b) -> l = a ++ b /\ forallb p a = true /\ match b with [] => True | c :: _ => p c = false end.
Proof.
  revert a b. induction l as [|c l IH]; simpl; intros a b; [by intros [= <- <-]|].
  destruct (p c) eqn:E.
  - destruct (span p l) as [a' b']. intros [= <- <-]. destruct (IH a' b' eq_refl) as (-> & ? & ?). simpl. by rewrite E.
  - intros [= <- <-]. simpl. by rewrite E.
Qed.

Lemma digits_number_snoc ds c : digits_number (ds ++ [c]) = 10 * digits_number ds + (code_of c - 48).
Proof. unfold digits_number. by rewrite foldl_app. Qed.

(** A decimal digit, as [digits_of] prints it. *)
Lemma digit_char n : 0 <= n < 10 -> code_of (chr (48 + n)) = 48 + n /\ is_digit (chr (48 + n)) = true.
Proof.
  intros Hn. assert (Hall : forallb (fun n => (code_of (chr (48 + n)) =? 48 + n) && is_digit (chr (48 + n))) (seqZ 0 10) = true)
    by reflexivity.
  rewrite List.forallb_forall in Hall. specialize (Hall n).
  assert (Hin : List.In n (seqZ 0 10)) by (apply list_elem_of_In, elem_of_seqZ; lia).
  specialize (Hall Hin). split_bool. done.
Qed.

(** The printed digits of [n]: no leading zero but for [n = 0]. *)
Definition decimal (n : Z) (ds : list ascii) : Prop :=
  forallb is_digit ds = true /\ digits_number ds = n /\
  match ds with [] => False | c :: ds' => code_of c = 48 -> ds' = [] end.

Lemma digits_of_decimal fuel n acc :
  0 <= n < 2 ^ Z.of_nat fuel -> exists ds, digits_of fuel n acc = ds ++ acc /\ (0 < Z.of_nat fuel -> decimal n ds).
Proof.
  revert n acc. induction fuel as [|f IH]; intros n acc Hn; [exists []; split; [done|lia]|].
  assert (Hm : 0 <= n mod 10 < 10) by (apply Z.mod_pos_bound; lia).
  destruct (digit_char (n mod 10) Hm) as [Hc Hd].
  cbn [digits_of]. destruct (n <? 10) eqn:E; split_bool.
  - exists [chr (48 + n mod 10)]. split; [done|]. intros _. unfold decimal, digits_number.
    cbn [forallb foldl]. rewrite Hd, Hc. rewrite Z.mod_small by lia. split_and!; [done|lia|done].
  - assert (Hq : 1 <= n / 10) by (apply Z.div_le_lower_bound; lia).
    assert (Hq2 : n / 10 < 2 ^ Z.of_nat f).
    { apply Z.div_lt_upper_bound; [lia|]. rewrite Nat2Z.inj_succ, Z.pow_succ_r in Hn by lia. lia. }
    destruct (IH (n / 10) (chr (48 + n mod 10) :: acc)) as (ds & -> & Hds); [lia|].
    exists (ds ++ [chr (48 + n mod 10)]). split; [by rewrite <- app_assoc|]. intros _.
    assert (Hf : 0 < Z.of_nat f) by (destruct f; [change (2 ^ Z.of_nat 0) with 1 in Hq2; lia|lia]).
    destruct (Hds Hf) as (H1 & H2 & H3). unfold decimal.
    rewrite digits_number_snoc, forallb_app, H1, H2, Hc. cbn [forallb]. rewrite Hd.
    split_and!; [done|pose proof (Z.div_mod n 10); lia|].
    destruct ds as [|c ds]; [done|]. simpl. intros Hz. specialize (H3 Hz). subst ds. exfalso.
    unfold digits_number in H2. cbn [foldl] in H2. lia.
Qed.

Lemma str_of_Z_decimal n :
  exists ds, decimal (Z.abs n) ds /\ chars (str_of_Z n) = if n <? 0 then "-"%char :: ds else ds.
Proof.
  destruct (digits_of_decimal (S (Z.to_nat (Z.log2 (Z.abs n)))) (Z.abs n) []) as (ds & Hds & Hdec).
  - split; [lia|]. pose proof (Z.log2_nonneg (Z.abs n)). rewrite Nat2Z.inj_succ, Z2Nat.id by done.
    destruct (decide (Z.abs n = 0)) as [->|]; [done|]. apply Z.log2_spec. lia.
  - exists ds. split; [apply Hdec; lia|]. unfold str_of_Z. cbn zeta. rewrite Hds, app_nil_r.
    destruct (n <? 0); [by rewrite chars_app, chars_of_chars|apply chars_of_chars].
Qed.

(** Scanning the digits of an integer. *)
Lemma scan_integer_decimal n ds rest :
  decimal n ds -> match rest with [] => True | c :: _ => is_digit c = false end ->
  scan_integer (ds ++ rest) = Some ([], ds, rest) /\ scan_integer ("-"%char :: ds ++ rest) = Some (["-"%char], ds, rest).
Proof.
  intros (H1 & _ & H3) Hr. destruct ds as [|c ds]; [done|]. simpl in H1. split_bool.
  assert (Hc : is_char_code 45 c = false).
  { unfold is_char_code. unfold is_digit, in_range in H. split_bool. apply Z.eqb_neq. lia. }
  unfold scan_integer. change (is_char_code 45 "-"%char) with true. cbn [app]. rewrite Hc.
  destruct (is_char_code 48 c) eqn:E.
  - apply Z.eqb_eq in E. rewrite (H3 E). done.
  - rewrite H, span_app by done. done.
Qed.

Lemma ends_value_head c l : ends_value (c :: l) = true -> c = ","%char \/ c = "]"%char \/ c = "}"%char.
Proof.
  intros H%elem_true. set_unfold in H. assert (Hc : forall n, code_of c = n -> c = chr n).
  { intros n <-. unfold chr, code_of. by rewrite N2Z.id, ascii_N_embedding. }
  destruct H as [H|[H|[H|[]]]]; apply Hc in H; subst; auto.
Qed.

Lemma ends_value_digit rest : ends_value rest = true -> match rest with [] => True | c :: _ => is_digit c = false end.
Proof. destruct rest as [|c rest]; [done|]. intros [->|[->| ->]]%ends_value_head; done. Qed.

Lemma span_extend p l a b rest :
  span p l = (a, b) -> match rest with [] => True | c :: _ => p c = false end -> span p (l ++ rest) = (a, b ++ rest).
Proof.
  intros (-> & Ha & Hb)%span_split Hr. rewrite <- app_assoc. apply span_app; [done|]. by destruct b.
Qed.

Lemma scan_integer_extend l s ds r rest :
  scan_integer l = Some (s, ds, r) -> ends_value rest = true -> scan_integer (l ++ rest) = Some (s, ds, r ++ rest).
Proof.
  intros Hs Hr%ends_value_digit. unfold scan_integer in *.
  assert (Hbody : forall sg l0, match l0 with
    | [] => None | c :: l' => if is_char_code 48 c then Some (sg, [c], l')
      else if is_digit c then let '(ds, rest) := span is_digit l' in Some (sg, c :: ds, rest) else None end = Some (s, ds, r) ->
    match l0 ++ rest with
    | [] => None | c :: l' => if is_char_code 48 c then Some (sg, [c], l')
      else if is_digit c then let '(ds, rest) := span is_digit l' in Some (sg, c :: ds, rest) else None end = Some (s, ds, r ++ rest)).
  { intros sg [|c l0] Hl; [done|]. cbn [app]. destruct (is_char_code 48 c); [by injection Hl as -> -> ->|].
    destruct (is_digit c); [|done]. destruct (span is_digit l0) as [a b] eqn:E. injection Hl as -> <- <-.
    by rewrite (span_extend _ _ _ _ _ E Hr). }
  destruct l as [|c l]; [done|]. cbn [app]. destruct (is_char_code 45 c).
  - by apply Hbody.
  - by apply (Hbody [] (c :: l)).
Qed.

Lemma scan_fraction_extend l f r rest :
  scan_fraction l = (f, r) -> ends_value rest = true -> scan_fraction (l ++ rest) = (f, r ++ rest).
Proof.
  intros Hs Hr. pose proof (ends_value_digit _ Hr) as Hd. destruct l as [|c l]; simpl in *.
  - injection Hs as <- <-. destruct rest as [|c rest]; [done|]. by apply ends_value_head in Hr as [->|[->| ->]].
  - destruct (is_char_code 46 c); [|by injection Hs as <- <-].
    destruct (span is_digit l) as [a b] eqn:E. rewrite (span_extend _ _ _ _ _ E Hd).
    destruct a; by injection Hs as <- <-.
Qed.

Lemma scan_exponent_extend l e r rest :
  scan_exponent l = (e, r) -> ends_value rest = true -> scan_exponent (l ++ rest) = (e, r ++ rest).
Proof.
  intros Hs Hr. pose proof (ends_value_digit _ Hr) as Hd. destruct l as [|c l].
  { simpl in Hs. injection Hs as <- <-. destruct rest as [|c rest]; [done|]. by apply ends_value_head in Hr as [->|[->| ->]]. }
  unfold scan_exponent in *. cbn [app]. destruct (is_char_code 101 c || is_char_code 69 c); [|by injection Hs as <- <-].
  destruct l as [|s l].
  - simpl in Hs. injection Hs as <- <-. cbn [app]. destruct rest as [|c' rest]; [done|].
    apply ends_value_head in Hr as [->|[->| ->]]; reflexivity.
  - cbn [app]. destruct (is_char_code 45 s); [|destruct (is_char_code 43 s)].
    1,2: destruct (span is_digit l) as [a b] eqn:E; rewrite (span_extend _ _ _ _ _ E Hd); destruct a; by injection Hs as <- <-.
    destruct (span is_digit (s :: l)) as [a b] eqn:E. change (s :: l ++ rest) with ((s :: l) ++ rest).
    rewrite (span_extend _ _ _ _ _ E Hd). destruct a; by injection Hs as <- <-.
Qed.

Lemma scan_number_extend l v r rest :
  scan_number l = Some (v, r) -> ends_value rest = true -> scan_number (l ++ rest) = Some (v, r ++ rest).
Proof.
  intros Hs Hr. unfold scan_number in *. destruct (scan_integer l) as [[[s ds] r1]|] eqn:E1; [|done].
  rewrite (scan_integer_extend _ _ _ _ _ E1 Hr).
  destruct (scan_fraction r1) as [f r2] eqn:E2. rewrite (scan_fraction_extend _ _ _ _ E2 Hr).
  destruct (scan_exponent r2) as [e r3] eqn:E3. rewrite (scan_exponent_extend _ _ _ _ E3 Hr).
  destruct f; [destruct e|]; try by injection Hs as <- <-. destruct (_ <? _); [done|]. by injection Hs as <- <-.
Qed.

(** An integer that [int] reads back: its sign is not counted. *)
Definition int_readable (n : Z) : bool := slen (str_of_Z n) - (if n <? 0 then 1 else 0) <=? INT_MAX_STR_DIGITS.

Lemma scan_number_int n rest :
  int_readable n = true -> ends_value rest = true -> scan_number (chars (str_of_Z n) ++ rest) = Some (JInt n, rest).
Proof.
  intros Hn Hr. apply (scan_number_extend _ _ [] _); [|done].
  destruct (str_of_Z_decimal n) as (ds & Hdec & Hchars).
  assert (Hlen : (INT_MAX_STR_DIGITS <? Z.of_nat (length ds)) = false).
  { unfold int_readable in Hn. apply Z.leb_le in Hn. apply Z.ltb_ge. unfold slen in Hn. rewrite <- length_chars, Hchars in Hn.
    destruct (n <? 0); cbn [length] in Hn; lia. }
  rewrite Hchars. destruct (scan_integer_decimal _ ds [] Hdec I) as [Hpos Hneg]. rewrite app_nil_r in Hpos, Hneg.
  destruct Hdec as (_ & Hval & _). unfold scan_number.
  destruct (Z.ltb_spec n 0); [rewrite Hneg|rewrite Hpos]; cbn [scan_fraction scan_exponent];
    rewrite Hlen, Hval; do 3 f_equal; simpl; lia.
Qed.

(** ** Reading back printed values *)

(** The values [json.loads] restores: readable integers, floats in the text of
    their value, objects without duplicate keys. *)
Fixpoint readable (v : json) : bool :=
  match v with
  | JNull | JBool _ | JStr _ => true
  | JInt n => int_readable n
  | JFloat t => bool_decide (scan_number (chars t) = Some (JFloat t, []))
  | JList l => forallb readable l
  | JDict d => bool_decide (NoDup (map fst d)) && forallb (fun kv => readable kv.2) d
  end.

Lemma skip_space_head c l : is_space c = false -> skip_space (c :: l) = c :: l.
Proof. intros E. unfold skip_space. simpl. by rewrite E. Qed.

(** How a number starts. *)
Lemma scan_number_head l v r :
  scan_number l = Some (v, r) -> match l with
    | c :: l' => is_digit c = true \/ c = "-"%char /\ match l' with c' :: _ => is_digit c' = true | [] => False end
    | [] => False
    end.
Proof.
  unfold scan_number. destruct (scan_integer l) as [p|] eqn:E; [|done]. intros _. unfold scan_integer in E.
  assert (H0 : forall c, is_char_code 48 c = true -> is_digit c = true).
  { intros c Hc. unfold is_char_code in Hc. apply Z.eqb_eq in Hc. unfold is_digit, in_range. by rewrite Hc. }
  destruct l as [|c l]; [done|]. destruct (is_char_code 45 c) eqn:Ec.
  - right. split.
    + unfold is_char_code in Ec. apply Z.eqb_eq in Ec. rewrite <- (ascii_N_embedding c).
      unfold code_of in Ec. by replace (N_of_ascii c) with 45%N by lia.
    + destruct l as [|c' l]; [done|]. destruct (is_char_code 48 c') eqn:E0; [by apply H0|]. by destruct (is_digit c').
  - left. destruct (is_char_code 48 c) eqn:E0; [by apply H0|]. by destruct (is_digit c).
Qed.

Lemma after_other a lit c l : c <> a -> after (a :: lit) (c :: l) = None.
Proof. intros Hne. simpl. by rewrite bool_decide_false. Qed.

Lemma digit_not (a c : ascii) : is_digit c = true -> is_digit a = false -> c <> a.
Proof. congruence. Qed.

(** A number is not taken for anything else. *)
Lemma scan_once_number fuel l v r : scan_number l = Some (v, r) -> scan_once (S fuel) l = Some (v, r).
Proof.
  intros Hs. pose proof (scan_number_head _ _ _ Hs) as Hh. destruct l as [|c l]; [done|].
  assert (Hq : is_char_code 34 c = false /\ is_char_code 123 c = false /\ is_char_code 91 c = false).
  { destruct Hh as [Hc|[-> _]]; [|done]. unfold is_digit, in_range in Hc. split_bool. unfold is_char_code.
    split_and!; apply Z.eqb_neq; lia. }
  destruct Hq as (H1 & H2 & H3). cbn [scan_once]. rewrite H1, H2, H3.
  assert (Hconst : scan_constant (constants strict) (c :: l) = None); [|by rewrite Hconst].
  unfold constants. destruct Hh as [Hc|[-> Hl]]; destruct strict; cbn [app scan_constant]; unfold chars; cbn [String.list_ascii_of_string].
  - rewrite !after_other by (by apply digit_not). done.
  - rewrite !after_other by (by apply digit_not). done.
  - by rewrite !(after_other _ _ "-"%char) by done.
  - rewrite !(after_other _ _ "-"%char) by done. destruct l as [|c l]; [done|].
    cbn [after]. rewrite bool_decide_true by done.
    by rewrite bool_decide_false by (by apply digit_not).
Qed.

(** The first character of a printed value. *)
Lemma dumps_head v : readable v = true ->
  exists c l, chars (json_dumps v) = c :: l /\ is_space c = false /\ is_char_code 93 c = false /\ is_char_code 125 c = false.
Proof.
  assert (Hnum : forall l v' r, scan_number l = Some (v', r) ->
    exists c l', l = c :: l' /\ is_space c = false /\ is_char_code 93 c = false /\ is_char_code 125 c = false).
  { intros l v' r Hs%scan_number_head. destruct l as [|c l]; [done|]. exists c, l. split; [done|].
    destruct Hs as [Hc|[-> _]]; [|done]. unfold is_digit, in_range in Hc. split_bool.
    unfold is_space, is_char_code. split_and!; [|apply Z.eqb_neq; lia..].
    apply elem_false. intros Hin. set_unfold in Hin. lia. }
  destruct v as [|[]|n|t|s|l|d]; simpl; intros Hv; try by (eexists _, _).
  - eapply Hnum. rewrite <- (app_nil_r (chars _)). by apply scan_number_int.
  - split_bool. by eapply Hnum.
Qed.

(** Printed and followed by the end of a value, [v] is read back. *)
Definition reads (v : json) : Prop := forall fuel rest,
  readable v = true -> ends_value rest = true -> (length (chars (json_dumps v)) <= fuel)%nat ->
  scan_once fuel (chars (json_dumps v) ++ rest) = Some (v, rest).

(** A list of parts joined by commas, as characters. *)
Lemma join_cons x y l : chars (str_join "," (x :: y :: l)) = chars x ++ ","%char :: chars (str_join "," (y :: l)).
Proof. cbn [str_join]. by rewrite !chars_app. Qed.

Lemma scan_elements_reads l fuel rest :
  Forall reads l -> forallb readable l = true -> l <> [] ->
  (length (chars (str_join "," (map json_dumps l))) < fuel)%nat ->
  scan_elements fuel (chars (str_join "," (map json_dumps l)) ++ "]"%char :: rest) = Some (JList l, rest).
Proof.
  intros Hl. revert fuel. induction Hl as [|x l Hx Hl IH]; intros fuel Hr Hne Hf; [done|].
  destruct fuel as [|f]; [lia|]. simpl in Hr. split_bool. destruct l as [|y l].
  - cbn [map str_join] in *. cbn [scan_elements]. rewrite Hx by (done || lia). reflexivity.
  - cbn [map] in *. rewrite join_cons in *. rewrite <- app_assoc. cbn [app]. cbn [scan_elements].
    rewrite length_app in Hf. cbn [length] in Hf. rewrite Hx by (done || lia).
    cbn [mbind option_bind fst snd]. rewrite skip_space_head by done.
    change (is_char_code 93 ","%char) with false. change (is_char_code 44 ","%char) with true. cbn iota.
    pose proof H0 as Hy. simpl in Hy. split_bool. destruct (dumps_head y H1) as (c & t & Hc & Hsp & _).
    assert (Hskip : skip_space (chars (str_join "," (json_dumps y :: map json_dumps l)) ++ "]"%char :: rest) =
      chars (str_join "," (json_dumps y :: map json_dumps l)) ++ "]"%char :: rest).
    { destruct l as [|z l]; cbn [map]; [cbn [str_join]|rewrite join_cons]; rewrite Hc; cbn [app]; by apply skip_space_head. }
    rewrite Hskip, IH by (done || lia). done.
Qed.

(** A printed member. *)
Definition member (kv : string * json) : string := (json_string kv.1 +:+ ":" +:+ json_dumps kv.2)%string.

Lemma chars_member kv tail : chars (member kv) ++ tail =
  chr 34 :: concat (map escape_char (chars kv.1)) ++ chr 34 :: ":"%char :: chars (json_dumps kv.2) ++ tail.
Proof.
  unfold member, json_string. rewrite !chars_app, chars_of_chars. cbn [app]. by rewrite <- !app_assoc.
Qed.

Lemma scan_members_reads d fuel acc rest :
  Forall (fun kv => reads kv.2) d -> forallb (fun kv => readable kv.2) d = true -> d <> [] ->
  NoDup (map fst (acc ++ d)) ->
  (length (chars (str_join "," (map member d))) < fuel)%nat ->
  scan_members fuel acc (chars (str_join "," (map member d)) ++ "}"%char :: rest) = Some (JDict (acc ++ d), rest).
Proof.
  intros Hd. revert fuel acc. induction Hd as [|[k v] d Hv Hd IH]; intros fuel acc Hr Hne Hnd Hf; [done|].
  destruct fuel as [|f]; [lia|]. simpl in Hr. split_bool.
  assert (Hfresh : k ∉ map fst acc).
  { rewrite map_app in Hnd. apply NoDup_app in Hnd as (_ & Hdis & _). intros Hk. apply (Hdis k Hk). by left. }
  assert (Hone : forall tail, ends_value tail = true -> (length (chars (member (k, v))) <= f)%nat ->
    scan_members (S f) acc (chars (member (k, v)) ++ tail) =
    match skip_space tail with
    | c2 :: r => if is_char_code 125 c2 then Some (JDict (acc ++ [(k, v)]), r)
                 else if is_char_code 44 c2 then scan_members f (acc ++ [(k, v)]) (skip_space r) else None
    | [] => None
    end).
  { intros tail Ht Hlen. rewrite chars_member. cbn [scan_members fst snd]. change (is_char_code 34 (chr 34)) with true. cbn [negb].
    rewrite scan_string_escaped. cbn [mbind option_bind fst snd]. rewrite skip_space_head by done.
    change (is_char_code 58 ":"%char) with true. cbn [negb].
    destruct (dumps_head v H) as (c & t & Hc & Hsp & _).
    assert (Hskip : skip_space (chars (json_dumps v) ++ tail) = chars (json_dumps v) ++ tail)
      by (rewrite Hc; by apply skip_space_head).
    rewrite Hskip, Hv; [|done|done|].
    - cbn [mbind option_bind fst snd]. cbn zeta. rewrite of_chars_chars, (proj2 (elem_false _ _) Hfresh), andb_false_r. by rewrite dict_set_fresh.
    - pose proof (chars_member (k, v) []) as Hm. rewrite !app_nil_r in Hm. rewrite Hm in Hlen. cbn [length fst snd] in Hlen.
      rewrite length_app in Hlen. cbn [length] in Hlen. cbn [snd]. lia. }
  destruct d as [|kv d].
  - cbn [map str_join] in *. rewrite Hone by (done || lia). done.
  - cbn [map] in *. rewrite join_cons in *. rewrite <- app_assoc. cbn [app]. rewrite length_app in Hf. cbn [length] in Hf.
    rewrite Hone by (done || lia). rewrite skip_space_head by done.
    change (is_char_code 125 ","%char) with false. change (is_char_code 44 ","%char) with true. cbn iota.
    assert (Hskip : skip_space (chars (str_join "," (member kv :: map member d)) ++ "}"%char :: rest) =
      chars (str_join "," (member kv :: map member d)) ++ "}"%char :: rest).
    { destruct d as [|z d]; cbn [map]; [cbn [str_join]|rewrite join_cons, <- app_assoc]; rewrite chars_member;
        by apply skip_space_head. }
    rewrite Hskip, IH; [|done|done| |lia]; by rewrite <- app_assoc.
Qed.

Lemma reads_all v : reads v.
Proof.
  induction v as [|b|n|t|s|l Hl|d Hd] using json_ind'; intros fuel rest Hv Hr Hf;
    (destruct fuel as [|f]; [destruct (dumps_head _ Hv) as (? & ? & E & _); rewrite E in Hf; simpl in Hf; lia|]).
  - reflexivity.
  - by destruct b.
  - apply scan_once_number. by apply scan_number_int.
  - apply scan_once_number. simpl in Hv. split_bool. by apply (scan_number_extend _ _ [] _).
  - cbn [json_dumps]. unfold json_string. rewrite chars_of_chars. cbn [app]. rewrite <- app_assoc. cbn [app scan_once].
    change (is_char_code 34 (chr 34)) with true. cbn iota. rewrite scan_string_escaped. simpl. by rewrite of_chars_chars.
  - cbn [json_dumps] in *. rewrite !chars_app in *. cbn [chars String.list_ascii_of_string app] in *.
    destruct l as [|x l]; [reflexivity|]. rewrite <- app_assoc. cbn [app].
    pose proof Hv as Hx. simpl in Hx. split_bool. destruct (dumps_head x H) as (c & t & Hc & Hsp & H93 & _).
    assert (Hhead : exists t', chars (str_join "," (map json_dumps (x :: l))) = c :: t').
    { destruct l as [|y l]; cbn [map]; [cbn [str_join]|rewrite join_cons]; rewrite Hc; by eexists. }
    destruct Hhead as [t' Ht]. cbn [scan_once].
    change (is_char_code 34 "["%char) with false. change (is_char_code 123 "["%char) with false. change (is_char_code 91 "["%char) with true.
    cbn iota. cbn [length] in Hf. rewrite length_app in Hf. cbn [length] in Hf.
    pose proof (scan_elements_reads (x :: l) f rest Hl Hv ltac:(done) ltac:(lia)) as Hel. rewrite Ht in *. cbn [app] in *.
    rewrite skip_space_head, H93 by done. exact Hel.
  - cbn [json_dumps] in *. change (map (fun kv => _) d) with (map member d) in *.
    rewrite !chars_app in *. cbn [chars String.list_ascii_of_string app] in *.
    destruct d as [|x d]; [reflexivity|]. rewrite <- app_assoc. cbn [app].
    simpl in Hv. apply andb_true_iff in Hv as [Hnd Hv]. apply bool_decide_eq_true in Hnd.
    assert (Hhead : exists t', chars (str_join "," (map member (x :: d))) = chr 34 :: t').
    { destruct d as [|y d]; cbn [map]; [cbn [str_join]; rewrite <- (app_nil_r (chars _))|rewrite join_cons];
        rewrite chars_member; by eexists. }
    destruct Hhead as [t' Ht]. cbn [scan_once].
    change (is_char_code 34 "{"%char) with false. change (is_char_code 123 "{"%char) with true.
    cbn iota. cbn [length] in Hf. rewrite length_app in Hf. cbn [length] in Hf.
    pose proof (scan_members_reads (x :: d) f [] rest Hd Hv ltac:(done) Hnd ltac:(lia)) as Hmem. rewrite Ht in *. cbn [app] in *.
    rewrite skip_space_head by done. exact Hmem.
Qed.

(** ** The fuel is enough *)

Lemma skip_space_length l : (length (skip_space l) <= length l)%nat.
Proof.
  unfold skip_space. destruct (span is_space l) as [a b] eqn:E. apply span_split in E as (-> & _). rewrite length_app. simpl. lia.
Qed.

Lemma scan_string_length l cs r : scan_string l = Some (cs, r) -> (length r < length l)%nat.
Proof.
  assert (Hpre : forall x t cs' r', prepend x t = Some (cs', r') -> exists c0, t = Some (c0, r')).
  { intros x [[c0 r0]|] cs' r' E; [|done]. injection E as _ <-. by exists c0. }
  remember (length l) as n eqn:Hn. revert l cs r Hn. induction (lt_wf n) as [n _ IH]. intros l cs r Hn Hs.
  assert (Hrec : forall x l' cs' , (length l' < n)%nat -> prepend x (scan_string l') = Some (cs', r) -> (length r < n)%nat).
  { intros x l' cs' Hl [c0 E]%Hpre. specialize (IH _ Hl l' c0 r eq_refl E). lia. }
  destruct l as [|c l1]; [done|]. cbn [scan_string] in Hs. cbn [length] in Hn.
  destruct (is_char_code 34 c); [injection Hs as _ <-; lia|].
  destruct (negb (is_char_code 92 c)); [destruct (_ <? _); [done|]; eapply Hrec; [|exact Hs]; lia|].
  destruct l1 as [|e l2]; [done|]. cbn [length] in Hn.
  destruct (negb (is_char_code 117 e)); [destruct (simple_escape e); [|done]; eapply Hrec; [|exact Hs]; lia|].
  do 4 (destruct l2 as [|? l2]; [done|]). cbn [length] in Hn.
  destruct (decode_u _ _ _ _); [|done].
  do 6 (destruct l2 as [|? l2]; [eapply Hrec; [|exact Hs]; simpl; lia|]). cbn [length] in Hn.
  destruct (_ && _ && _); [destruct (decode_u _ _ _ _); [destruct (is_low _)|done]|]; (eapply Hrec; [|exact Hs]; simpl; lia).
Qed.

Lemma scan_constant_length cs l v r :
  forallb (fun e => negb (bool_decide (e.1 = ""))) cs = true -> scan_constant cs l = Some (v, r) -> (length r < length l)%nat.
Proof.
  assert (Haft : forall lit l r, after lit l = Some r -> length l = (length lit + length r)%nat).
  { intros lit. induction lit as [|a lit IH]; intros [|c l'] r'; simpl; try done; try (by intros [= <-]).
    case_bool_decide; [|done]. intros E%IH. lia. }
  induction cs as [|[lit v'] cs IH]; simpl; [done|]. intros Hcs. split_bool.
  destruct (after (chars lit) l) as [r'|] eqn:E; [|by apply IH]. intros [= <- <-]. apply Haft in E. rewrite length_chars in E.
  destruct lit; [done|]. simpl in E. lia.
Qed.

Lemma scan_number_length l v r : scan_number l = Some (v, r) -> (length r < length l)%nat.
Proof.
  assert (Hspan : forall l a b, span is_digit l = (a, b) -> length l = (length a + length b)%nat)
    by (intros l0 a b (-> & _)%span_split; by rewrite length_app).
  assert (Hint : forall s ds r1, scan_integer l = Some (s, ds, r1) -> (length r1 < length l)%nat).
  { intros s ds r1 E. unfold scan_integer in E. destruct l as [|c l']; [done|]. cbn [length].
    destruct (is_char_code 45 c); [destruct l' as [|c' l']; [done|]; cbn [length]|];
      (destruct (is_char_code 48 _); [injection E as _ _ <-; lia|]; destruct (is_digit _); [|done];
       destruct (span is_digit l') as [a b] eqn:Es; apply Hspan in Es; injection E as _ _ <-; lia). }
  assert (Hfrac : forall l f r, scan_fraction l = (f, r) -> (length r <= length l)%nat).
  { intros [|c l0] f r0; simpl; [by intros [= _ <-]|]. destruct (is_char_code 46 c); [|by intros [= _ <-]].
    destruct (span is_digit l0) as [[|? ?] b] eqn:Es; apply Hspan in Es; intros [= _ <-]; simpl in *; lia. }
  assert (Hexp : forall l e r, scan_exponent l = (e, r) -> (length r <= length l)%nat).
  { intros [|c l0] e r0; simpl; [by intros [= _ <-]|]. destruct (_ || _); [|by intros [= _ <-]].
    destruct l0 as [|s l0]; [by intros [= _ <-]|].
    destruct (is_char_code 45 s); [|destruct (is_char_code 43 s)].
    1,2: destruct (span is_digit l0) as [[|? ?] b] eqn:Es; apply Hspan in Es; intros [= _ <-]; simpl in *; lia.
    destruct (span is_digit (s :: l0)) as [[|? ?] b] eqn:Es; apply Hspan in Es; intros [= _ <-]; simpl in *; lia. }
  unfold scan_number. destruct (scan_integer l) as [[[s ds] r1]|]; [|done]. specialize (Hint s ds r1 eq_refl).
  destruct (scan_fraction r1) as [f r2] eqn:E2. apply Hfrac in E2.
  destruct (scan_exponent r2) as [e r3] eqn:E3. apply Hexp in E3.
  destruct f; [destruct e|]; try (intros [= _ <-]; lia). destruct (_ <? _); [done|]. intros [= _ <-]. lia.
Qed.

(** Every scan consumes something. *)
Lemma scan_consumes fuel :
  (forall l v r, scan_once fuel l = Some (v, r) -> (length r < length l)%nat) /\
  (forall l v r, scan_elements fuel l = Some (v, r) -> (length r < length l)%nat) /\
  (forall d l v r, scan_members fuel d l = Some (v, r) -> (length r < length l)%nat).
Proof.
  assert (Hskip : forall l c t, skip_space l = c :: t -> (length t < length l)%nat)
    by (intros l c t E; pose proof (skip_space_length l) as H; rewrite E in H; simpl in H; lia).
  induction fuel as [|f (IHo & IHe & IHm)]; [done|]. split_and!.
  - intros [|c l] v r H; [done|]. cbn [scan_once] in H. cbn [length].
    destruct (is_char_code 34 c).
    { destruct (scan_string l) as [[cs r']|] eqn:E; [|done]. injection H as _ <-. apply scan_string_length in E. simpl. lia. }
    destruct (is_char_code 123 c); [|destruct (is_char_code 91 c)].
    + destruct (skip_space l) as [|c' t] eqn:E; [done|]. apply Hskip in E.
      destruct (is_char_code 125 c'); [injection H as _ <-; lia|]. apply IHm in H. simpl in H. lia.
    + destruct (skip_space l) as [|c' t] eqn:E; [done|]. apply Hskip in E.
      destruct (is_char_code 93 c'); [injection H as _ <-; lia|]. apply IHe in H. simpl in H. lia.
    + destruct (scan_constant (constants strict) (c :: l)) as [[v' r']|] eqn:E; [|by apply scan_number_length in H].
      injection H as _ <-. apply scan_constant_length in E; [done|]. by destruct strict.
  - intros l v r H. cbn [scan_elements] in H. destruct (scan_once f l) as [[x r1]|] eqn:E; [|done]. apply IHo in E.
    cbn [mbind option_bind fst snd] in H. destruct (skip_space r1) as [|c t] eqn:Es; [done|]. apply Hskip in Es.
    destruct (is_char_code 93 c); [injection H as _ <-; lia|]. destruct (is_char_code 44 c); [|done].
    destruct (scan_elements f _) as [[q r2]|] eqn:E2; [|done]. apply IHe in E2. pose proof (skip_space_length t).
    cbn [mbind option_bind fst snd] in H. destruct q; try done. injection H as _ <-. lia.
  - intros d l v r H. cbn [scan_members] in H. destruct l as [|c l]; [done|]. cbn [length]. destruct (negb _); [done|].
    destruct (scan_string l) as [[k r1]|] eqn:E; [|done]. apply scan_string_length in E.
    cbn [mbind option_bind fst snd] in H. destruct (skip_space r1) as [|c1 t] eqn:Es; [done|]. apply Hskip in Es.
    destruct (negb _); [done|]. pose proof (skip_space_length t).
    destruct (scan_once f _) as [[x r2]|] eqn:E2; [|done]. apply IHo in E2. cbn [mbind option_bind fst snd] in H.
    destruct (unique && _); [done|]. cbn zeta in H.
    destruct (skip_space r2) as [|c2 t2] eqn:Es2; [done|]. apply Hskip in Es2. pose proof (skip_space_length t2).
    destruct (is_char_code 125 c2); [injection H as _ <-; lia|]. destruct (is_char_code 44 c2); [|done]. apply IHm in H. lia.
Qed.

(** Beyond the bound more fuel changes nothing. *)
Lemma scan_fuel fuel :
  (forall l, (2 * length l < fuel)%nat -> scan_once (S fuel) l = scan_once fuel l) /\
  (forall l, (2 * length l + 1 < fuel)%nat -> scan_elements (S fuel) l = scan_elements fuel l) /\
  (forall d l, (2 * length l + 1 < fuel)%nat -> scan_members (S fuel) d l = scan_members fuel d l).
Proof.
  assert (Hskip : forall l c t, skip_space l = c :: t -> (length (c :: t) <= length l)%nat)
    by (intros l c t E; pose proof (skip_space_length l) as H; by rewrite E in H).
  induction fuel as [|f (IHo & IHe & IHm)]; [split_and!; intros; lia|]. split_and!.
  - intros [|c l] Hl; [done|]. remember (S f) as g eqn:Hg. cbn [scan_once].
    replace (scan_once g (c :: l)) with (scan_once (S f) (c :: l)) by (by rewrite Hg). cbn [scan_once]. cbn [length] in Hl.
    destruct (is_char_code 34 c); [done|]. destruct (is_char_code 123 c); [|destruct (is_char_code 91 c); [|done]].
    + destruct (skip_space l) as [|c' t] eqn:E; [done|]. apply Hskip in E. destruct (is_char_code 125 c'); [done|].
      apply IHm. lia.
    + destruct (skip_space l) as [|c' t] eqn:E; [done|]. apply Hskip in E. destruct (is_char_code 93 c'); [done|].
      apply IHe. lia.
  - intros l Hl. remember (S f) as g eqn:Hg. cbn [scan_elements].
    replace (scan_elements g l) with (scan_elements (S f) l) by (by rewrite Hg). cbn [scan_elements].
    assert (Ho : scan_once g l = scan_once f l) by (apply IHo; lia). rewrite Ho.
    destruct (scan_once f l) as [[x r]|] eqn:E; [|done]. apply scan_consumes in E. cbn [mbind option_bind fst snd].
    destruct (skip_space r) as [|c t] eqn:Es; [done|]. apply Hskip in Es. cbn [length] in Es.
    destruct (is_char_code 93 c); [done|]. destruct (is_char_code 44 c); [|done].
    pose proof (skip_space_length t). assert (He : scan_elements g (skip_space t) = scan_elements f (skip_space t))
      by (apply IHe; lia). by rewrite He.
  - intros d l Hl. remember (S f) as g eqn:Hg. cbn [scan_members].
    replace (scan_members g d l) with (scan_members (S f) d l) by (by rewrite Hg). cbn [scan_members].
    destruct l as [|c l]; [done|]. cbn [length] in Hl. destruct (negb _); [done|].
    destruct (scan_string l) as [[k r1]|] eqn:E; [|done]. apply scan_string_length in E. cbn [mbind option_bind fst snd].
    destruct (skip_space r1) as [|c1 t] eqn:Es; [done|]. apply Hskip in Es. cbn [length] in Es.
    destruct (negb _); [done|]. pose proof (skip_space_length t).
    assert (Ho : scan_once g (skip_space t) = scan_once f (skip_space t)) by (apply IHo; lia). rewrite Ho.
    destruct (scan_once f _) as [[x r2]|] eqn:E2; [|done]. apply scan_consumes in E2. cbn [mbind option_bind fst snd].
    destruct (unique && _); [done|]. cbn zeta.
    destruct (skip_space r2) as [|c2 t2] eqn:Es2; [done|]. apply Hskip in Es2. cbn [length] in Es2.
    destruct (is_char_code 125 c2); [done|]. destruct (is_char_code 44 c2); [|done]. pose proof (skip_space_length t2).
    apply IHm. lia.
Qed.

Lemma scan_once_fuel l fuel : (S (2 * length l) <= fuel)%nat -> scan_once fuel l = scan_once (S (2 * length l)) l.
Proof. intros Hf. induction Hf as [|f Hf IH]; [done|]. rewrite <- IH. apply scan_fuel. lia. Qed.

End scanner.

(** [json.loads] *)
Definition json_loads (s : string) : option json := json_loads_with false false s.

(** ** Texts of bytes

    [json.loads] of bytes: the encoding is detected and the bytes are decoded
    with [surrogatepass]. *)

Inductive encoding := Utf8 | Utf8Sig | Utf16BE | Utf16LE | Utf32BE | Utf32LE.

(** [json.detect_encoding], and how many bytes of a mark the codec drops. *)
Definition detect_encoding (b : list ascii) : encoding * nat :=
  match map code_of b with
  | 0 :: 0 :: 254 :: 255 :: _ => (Utf32BE, 4%nat)
  | 255 :: 254 :: 0 :: 0 :: _ => (Utf32LE, 4%nat)
  | 254 :: 255 :: _ => (Utf16BE, 2%nat)
  | 255 :: 254 :: _ => (Utf16LE, 2%nat)
  | 239 :: 187 :: 191 :: _ => (Utf8Sig, 3%nat)
  | b0 :: b1 :: b2 :: b3 :: _ =>
      if b0 =? 0 then (if b1 =? 0 then Utf32BE else Utf16BE, 0%nat)
      else if b1 =? 0 then (if (b2 =? 0) && (b3 =? 0) then Utf32LE else Utf16LE, 0%nat)
      else (Utf8, 0%nat)
  | [b0; b1] => (if b0 =? 0 then Utf16BE else if b1 =? 0 then Utf16LE else Utf8, 0%nat)
  | _ => (Utf8, 0%nat)
  end.

(** Well-formed UTF-8 in which surrogates may stand. *)
Fixpoint utf8_surrogatepass (l : list ascii) : bool :=
  match l with
  | [] => true
  | a :: l1 =>
      if code_of a <? 128 then utf8_surrogatepass l1
      else match l1 with
      | [] => false
      | b :: l2 =>
          if in_range 194 223 a then is_continuation b && utf8_surrogatepass l2
          else match l2 with
          | [] => false
          | c :: l3 =>
              if in_range 224 239 a then
                is_continuation b && is_continuation c && negb ((code_of a =? 224) && (code_of b <? 160)) && utf8_surrogatepass l3
              else match l3 with
              | [] => false
              | d :: l4 =>
                  in_range 240 244 a && is_continuation b && is_continuation c && is_continuation d
                  && negb ((code_of a =? 240) && (code_of b <? 144))
                  && negb ((code_of a =? 244) && (144 <=? code_of b)) && utf8_surrogatepass l4
              end
          end
      end
  end.

(** The 16-bit units and the 32-bit code points of the bytes. *)
Fixpoint units16 (big : bool) (l : list ascii) : option (list Z) :=
  match l with
  | [] => Some []
  | a :: b :: l' =>
      us ← units16 big l';
      Some ((if big then 256 * code_of a + code_of b else 256 * code_of b + code_of a) :: us)
  | _ => None
  end.

Fixpoint units32 (big : bool) (l : list ascii) : option (list Z) :=
  match l with
  | [] => Some []
  | a :: b :: c :: d :: l' =>
      us ← units32 big l';
      let n := if big then 16777216 * code_of a + 65536 * code_of b + 256 * code_of c + code_of d
               else 16777216 * code_of d + 65536 * code_of c + 256 * code_of b + code_of a in
      if n <=? 1114111 then Some (n :: us) else None
  | _ => None
  end.

(** Joined surrogate pairs; a lone surrogate is kept. *)
Fixpoint join_units (us : list Z) : list Z :=
  match us with
  | hi :: ((lo :: us') as rest) => if is_high hi && is_low lo then join_surrogates hi lo :: join_units us' else hi :: join_units rest
  | _ => us
  end.

Definition decode_bytes (b : list ascii) : option (list ascii) :=
  let '(e, mark) := detect_encoding b in
  let b := drop mark b in
  match e with
  | Utf8 | Utf8Sig => if utf8_surrogatepass b then Some b else None
  | Utf16BE => us ← units16 true b; Some (concat (map utf8_encode (join_units us)))
  | Utf16LE => us ← units16 false b; Some (concat (map utf8_encode (join_units us)))
  | Utf32BE => us ← units32 true b; Some (concat (map utf8_encode us))
  | Utf32LE => us ← units32 false b; Some (concat (map utf8_encode us))
  end.

(** [json.loads(b, object_pairs_hook=..., parse_constant=...)] *)
Definition json_loads_bytes (unique strict : bool) (b : string) : option json :=
  text ← decode_bytes (chars b); json_loads_with unique strict (of_chars text).

(** ** Properties *)

(** [json.loads] is total and undoes [json.dumps]. Every value with readable
    numbers and distinct keys, whatever its nesting and its texts, is restored
    from its printed form; and on any text the parser's bound on its recursion
    is never what makes it fail: with more fuel it gives the same answer. *)
Lemma json_loads_dumps :
  (forall v, readable v = true -> json_loads (json_dumps v) = Some v) /\
  (forall s fuel, (S (2 * String.length s) <= fuel)%nat ->
     json_loads s = (p ← scan_once false false fuel (skip_space (chars s)); match skip_space p.2 with [] => Some p.1 | _ => None end)).
Proof.
  split.
  - intros v Hv. unfold json_loads, json_loads_with. destruct (dumps_head v Hv) as (c & l & Hc & Hsp & _).
    pose proof (reads_all false false v (S (2 * String.length (json_dumps v))) [] Hv eq_refl) as Hr.
    rewrite app_nil_r, length_chars in Hr. rewrite Hc, skip_space_head, <- Hc by done. rewrite Hr by lia. done.
  - intros s fuel Hf. unfold json_loads, json_loads_with. pose proof (skip_space_length (chars s)) as Hl. rewrite length_chars in Hl.
    rewrite (scan_once_fuel _ _ _ fuel), (scan_once_fuel _ _ _ (S (2 * String.length s))) by lia. done.
Qed.

(** ** Examples *)

Module Example_loads.
Definition quote (s : string) : string := of_chars (chr 34 :: chars s ++ [chr 34]).

Definition sample : json :=
  JDict [("text", JStr (of_chars [chr 34; chr 92; chr 10; chr 1; chr 195; chr 169])); ("n", JInt (-120)); ("f", JFloat "1.5e-07");
         ("l", JList [JNull; JBool true; JDict []; JList []])].

(** White space, escapes, a surrogate pair, duplicate keys, rounding. *)
Example loads_text :
  json_loads ("[ {" +:+ quote "a" +:+ ":1, " +:+ quote "a" +:+ ": 0.10 } , " +:+ quote "\u00e9\ud83d\ude00\/" +:+ ",9007199254740993.0 ]") =
  Some (JList [JDict [("a", JFloat "0.1")]; JStr "é😀/"; JFloat "9007199254740992.0"]).
Proof. vm_compute. reflexivity. Qed.

Example loads_refused : map json_loads ["[1,]"; "01"; "{}x"; "tru"; ""; "[1"] = replicate 6 None.
Proof. vm_compute. reflexivity. Qed.
End Example_loads.
Import Example_loads.

Lemma json_loads_dumps_witness : readable sample = true /\ json_loads (json_dumps sample) = Some sample.
Proof.
  assert (H : readable sample = true) by (vm_compute; reflexivity).
  split; [exact H|]. apply (proj1 json_loads_dumps). exact H.
Defined.
