(* ===== verification/Timestamps.v ===== *)
(** * Timestamps

    Models [memory_router/timestamps.py]. A [datetime] is its instant in
    microseconds since 1970-01-01 (wall-clock time when it carries no zone).
    [fromisoformat] is written for the extended format
    [YYYY-MM-DDTHH:MM:SS[.f...][Z|+HH:MM|-HH:MM]], the one the program writes
    and accepts from clients; other ISO 8601 forms are outside the model. *)

From Stdlib Require Import ZArith Lia Ascii.
From stdpp Require Import base sets strings numbers list.
From S2P Require Import Prelude Errors Text.

Local Open Scope Z_scope.

Record datetime := mkDatetime { dt_instant : Z; dt_aware : bool }.

Definition us_per_day : Z := 86400000000.

(** ** The calendar *)

(** Days since 1970-01-01 of a proleptic Gregorian date, and back: years are
    counted from March, in eras of 400 years of 146097 days. *)
Definition days_from_civil (y m d : Z) : Z :=
  let y' := if m <=? 2 then y - 1 else y in
  let era := y' / 400 in
  let yoe := y' mod 400 in
  let mp := (m + 9) mod 12 in
  let doy := (153 * mp + 2) / 5 + d - 1 in
  let doe := yoe * 365 + yoe / 4 - yoe / 100 + doy in
  era * 146097 + doe - 719468.

Definition civil_of_doe (doe : Z) : Z * Z * Z :=
  let yoe := (doe - doe / 1460 + doe / 36524 - doe / 146096) / 365 in
  let doy := doe - (365 * yoe + yoe / 4 - yoe / 100) in
  let mp := (5 * doy + 2) / 153 in
  let d := doy - (153 * mp + 2) / 5 + 1 in
  let m := if mp <? 10 then mp + 3 else mp - 9 in
  (if m <=? 2 then yoe + 1 else yoe, m, d).

Definition civil_from_days (z : Z) : Z * Z * Z :=
  let z' := z + 719468 in
  let '(y, m, d) := civil_of_doe (z' mod 146097) in
  (y + 400 * (z' / 146097), m, d).

Definition leap_year (y : Z) : bool :=
  (y mod 4 =? 0) && (negb (y mod 100 =? 0) || (y mod 400 =? 0)).

Definition days_in_month (y m : Z) : Z :=
  if m =? 2 then (if leap_year y then 29 else 28)
  else if (m =? 4) || (m =? 6) || (m =? 9) || (m =? 11) then 30
  else 31.

(** ** Fixed-width decimal text *)

Fixpoint pad_digits (n : nat) (x : Z) : list ascii :=
  match n with
  | O => []
  | S n' => pad_digits n' (x / 10) ++ [chr (48 + x mod 10)]
  end.

(** The value of decimal digits. *)
Fixpoint digits_value (acc : Z) (l : list ascii) : option Z :=
  match l with
  | [] => Some acc
  | c :: l' => if is_digit c then digits_value (10 * acc + (code_of c - 48)) l' else None
  end.

(** Read exactly [n] digits. *)
Definition read_digits (n : nat) (l : list ascii) : option (Z * list ascii) :=
  if (length l <? n)%nat then None
  else match digits_value 0 (take n l) with
       | Some v => Some (v, drop n l)
       | None => None
       end.

(** Read one character that satisfies [p]. *)
Definition read_char (p : ascii -> bool) (l : list ascii) : option (ascii * list ascii) :=
  match l with
  | c :: l' => if p c then Some (c, l') else None
  | [] => None
  end.

Definition is_char (a c : ascii) : bool := bool_decide (c = a).

(** The leading digits of a text. *)
Fixpoint span_digits (l : list ascii) : list ascii * list ascii :=
  match l with
  | c :: l' => if is_digit c then let (ds, rest) := span_digits l' in (c :: ds, rest) else ([], l)
  | [] => ([], [])
  end.

(** Microseconds of fractional digits: the first six, padded with zeros. *)
Definition fraction_us (ds : list ascii) : option Z := digits_value 0 (take 6 (ds ++ replicate 6 "0"%char)).

(** The zone at the end of a timestamp: [None] when malformed, the offset in
    microseconds when present. *)
Definition read_zone (l : list ascii) : option (option Z) :=
  match l with
  | [] => Some None
  | c :: l' =>
      if is_char "Z" c then match l' with [] => Some (Some 0) | _ => None end
      else if is_char "+" c || is_char "-" c then
        '(h, l1) ← read_digits 2 l';
        '(_, l2) ← read_char (is_char ":") l1;
        '(m, l3) ← read_digits 2 l2;
        match l3 with
        | [] =>
            if (h <? 24) && (m <? 60)
            then Some (Some ((if is_char "-" c then -1 else 1) * (h * 60 + m) * 60000000))
            else None
        | _ => None
        end
      else None
  end.

(** [datetime.fromisoformat]: [None] for its [ValueError]. *)
Definition fromisoformat (s : string) : option datetime :=
  '(y, l1) ← read_digits 4 (chars s);
  '(_, l2) ← read_char (is_char "-") l1;
  '(mo, l3) ← read_digits 2 l2;
  '(_, l4) ← read_char (is_char "-") l3;
  '(d, l5) ← read_digits 2 l4;
  '(_, l6) ← read_char (is_char "T") l5;
  '(h, l7) ← read_digits 2 l6;
  '(_, l8) ← read_char (is_char ":") l7;
  '(mi, l9) ← read_digits 2 l8;
  '(_, l10) ← read_char (is_char ":") l9;
  '(sec, l11) ← read_digits 2 l10;
  '(us, l12) ← (match l11 with
                | c :: l' =>
                    if is_char "." c then
                      let (ds, rest) := span_digits l' in
                      match ds with
                      | [] => None
                      | _ => us ← fraction_us ds; Some (us, rest)
                      end
                    else Some (0, l11)
                | [] => Some (0, [])
                end);
  zone ← read_zone l12;
  if (1 <=? y) && (1 <=? mo) && (mo <=? 12) && (1 <=? d) && (d <=? days_in_month y mo)
     && (h <? 24) && (mi <? 60) && (sec <? 60)
  then
    let wall := days_from_civil y mo d * us_per_day + ((h * 60 + mi) * 60 + sec) * 1000000 + us in
    match zone with
    | Some off => Some (mkDatetime (wall - off) true)
    | None => Some (mkDatetime wall false)
    end
  else None.

Definition parse_iso (value : string) : option datetime := fromisoformat value.

(** The text of an instant: [isoformat(timespec="milliseconds")] in UTC with
    [+00:00] replaced by [Z]. *)
Definition iso_text (instant : Z) : string :=
  let '(y, m, d) := civil_from_days (instant / us_per_day) in
  let ms := (instant mod us_per_day) / 1000 in
  let sec := ms / 1000 in
  of_chars (pad_digits 4 y ++ ["-"%char] ++ pad_digits 2 m ++ ["-"%char] ++ pad_digits 2 d ++ ["T"%char]
    ++ pad_digits 2 (sec / 3600) ++ [":"%char] ++ pad_digits 2 (sec / 60 mod 60) ++ [":"%char]
    ++ pad_digits 2 (sec mod 60) ++ ["."%char] ++ pad_digits 3 (ms mod 1000) ++ ["Z"%char]).

(** The instants a [datetime] can hold in UTC: years 1 to 9999. *)
Definition min_instant : Z := days_from_civil 1 1 1 * us_per_day.
Definition max_instant : Z := days_from_civil 10000 1 1 * us_per_day - 1.
Definition representable (instant : Z) : bool := (min_instant <=? instant) && (instant <=? max_instant).

(** [iso_format] of an aware datetime: [None] when UTC overflows. A naive one
    would be read in the zone of the host, [local_offset]. *)
Definition iso_format (local_offset : Z) (value : datetime) : option string :=
  let instant := if dt_aware value then dt_instant value else dt_instant value - local_offset in
  if representable instant then Some (iso_text instant) else None.

(** [iso_now()] at an instant. *)
Definition iso_now (now : Z) : string := iso_text now.

(** [a - b]: [None] for the [TypeError] of mixing naive and aware. *)
Definition dt_sub (a b : datetime) : option Z :=
  if Bool.eqb (dt_aware a) (dt_aware b) then Some (dt_instant a - dt_instant b) else None.

Example iso_epoch : iso_text 0 = "1970-01-01T00:00:00.000Z".
Proof. vm_compute. reflexivity. Qed.
Example iso_leap : iso_text 1709251199999999 = "2024-02-29T23:59:59.999Z".
Proof. vm_compute. reflexivity. Qed.
Example parse_offset : parse_iso "2024-03-01T01:30:00.5+02:00" = Some (mkDatetime 1709249400500000 true).
Proof. vm_compute. reflexivity. Qed.
Example parse_bad_day : parse_iso "2023-02-29T00:00:00Z" = None.
Proof. vm_compute. reflexivity. Qed.
