(* ===== verification/Auth.v ===== *)
(** * Bearer-token authentication

    Models [memory_router/auth.py]: constant-time bearer comparison, the
    router token, and the four admin token slots with their scopes. *)

From stdpp Require Import base list sets strings numbers.
From Stdlib Require Import ZArith Lia.
From S2P Require Import Prelude Text Sha256.

Definition bearer_matches (authorization token : option string) : bool :=
  if negb (truthy authorization) || negb (truthy token) then false
  else
    match authorization, token with
    | Some a, Some t =>
        let presented := sha256_digest a in
        let expected := sha256_digest ("Bearer " +:+ t)%string in
        compare_digest presented expected
    | _, _ => false
    end.

Definition router_authorized (authorization token : option string) (allow_anonymous : bool) : bool :=
  if truthy token then bearer_matches authorization token else allow_anonymous.

(** The configured admin tokens: slot name to token, [None] when unset. *)
Definition admin_tokens : Type := list (string * option string).

(** [tokens.get(slot)] *)
Definition token_of (tokens : admin_tokens) (slot : string) : option string :=
  mjoin (dict_get slot tokens).

Definition _admin_slot_candidates (scope : string) (tokens : admin_tokens)
    : list (string * option string) :=
  let candidates := [("legacy", token_of tokens "legacy")] in
  if decide (scope = "read") then
    candidates ++ [("read", token_of tokens "read"); ("review", token_of tokens "review")]
  else if decide (scope = "review") then candidates ++ [("review", token_of tokens "review")]
  else if decide (scope = "cleanup") then candidates ++ [("cleanup", token_of tokens "cleanup")]
  else candidates.

Definition admin_authorized (authorization : option string) (scope : string)
    (tokens : admin_tokens) : bool :=
  existsb (fun st => truthy st.2 && bearer_matches authorization st.2)
    (_admin_slot_candidates scope tokens).

Definition admin_token_scope (authorization : option string) (scope : string)
    (tokens : admin_tokens) : option string :=
  fst <$> List.find (fun st => bearer_matches authorization st.2) (_admin_slot_candidates scope tokens).

Definition admin_token_recognized (authorization : option string) (tokens : admin_tokens) : bool :=
  existsb (fun st => truthy st.2 && bearer_matches authorization st.2) tokens.

(** ** Lemmas *)

Lemma bearer_matches_truthy a t : bearer_matches a t = true -> truthy a = true /\ truthy t = true.
Proof.
  unfold bearer_matches. destruct (truthy a), (truthy t); simpl; try done.
Qed.

Lemma slot_candidate_token scope tokens slot tok :
  (slot, tok) ∈ _admin_slot_candidates scope tokens -> tok = token_of tokens slot.
Proof.
  unfold _admin_slot_candidates. repeat case_decide; simpl; set_unfold; naive_solver.
Qed.

(** The slots that may act for a scope. *)
Definition scope_slots (scope : string) : list string := map fst (_admin_slot_candidates scope []).

Lemma slot_candidates_slots scope tokens :
  map fst (_admin_slot_candidates scope tokens) = scope_slots scope.
Proof. unfold scope_slots, _admin_slot_candidates. by repeat case_decide. Qed.

(** ** Properties *)

(** An admin request is authorized exactly when some token slot accounts
    for it, and then the reported slot is one of the scope's slots, holds a
    non-empty token and that token is the presented bearer. In particular the
    dispatcher's "authorized without a matching admin token slot" branch is
    unreachable. *)
Lemma admin_authorized_has_slot authorization scope tokens :
  (admin_authorized authorization scope tokens = true <->
   is_Some (admin_token_scope authorization scope tokens)) /\
  (forall slot, admin_token_scope authorization scope tokens = Some slot ->
     slot ∈ scope_slots scope /\ truthy (token_of tokens slot) = true /\
     bearer_matches authorization (token_of tokens slot) = true).
Proof.
  unfold admin_authorized, admin_token_scope. split.
  - rewrite existsb_exists. split.
    + intros ([slot tok] & Hin & [_ Hm]%andb_true_iff).
      destruct (List.find _ _) eqn:E; [by eexists|].
      by rewrite (List.find_none _ _ E _ Hin) in Hm.
    + intros [slot Hs]. apply fmap_Some in Hs as ([slot' tok] & Hf & ->).
      apply List.find_some in Hf as [Hin Hm]. exists (slot', tok). split; [done|].
      apply andb_true_iff. split; [by apply bearer_matches_truthy in Hm as [_ ?]|done].
  - intros slot Hs. apply fmap_Some in Hs as ([slot' tok] & Hf & ->).
    apply List.find_some in Hf as [Hin Hm]. simpl in *.
    rewrite <- list_elem_of_In in Hin.
    rewrite <- (slot_candidate_token _ _ _ _ Hin). split_and!; try done.
    + rewrite <- (slot_candidates_slots scope tokens).
      by apply (list_elem_of_fmap_2 fst _ (slot', tok)).
    + by apply bearer_matches_truthy in Hm as [_ ?].
Qed.
