(* ===== verification/FacadeRoutes.v ===== *)
(** * The facade route table

    Models [memory_router/facade_routes.py]: the bank-scoped Hindsight routes
    the router exposes, the record [_route] builds for each, and first-match
    dispatch. A compiled pattern
    [/v1/default/banks/(?P<bank>[^/]+)/...] is represented by the segments of
    its template: [[^/]+] never crosses a slash, so a full match is a
    segment-wise comparison. *)

From stdpp Require Import base list sets strings numbers.
From Stdlib Require Import ZArith Lia Ascii.
From S2P Require Import Prelude Errors Text.

Inductive BodyMode := BodyNone | BodyOptional | BodyRequired.
Inductive ResponseMode := RespObject | RespArray.
Inductive RequestScanMode := ScanRecall | ScanRetain.

#[export] Instance BodyMode_eq_dec : EqDecision BodyMode.
Proof. solve_decision. Defined.
#[export] Instance ResponseMode_eq_dec : EqDecision ResponseMode.
Proof. solve_decision. Defined.
#[export] Instance RequestScanMode_eq_dec : EqDecision RequestScanMode.
Proof. solve_decision. Defined.

(** A template segment: literal text or a named parameter. *)
Inductive segment :=
  | SLit (s : string)
  | SParam (name : string).

#[export] Instance segment_eq_dec : EqDecision segment.
Proof. solve_decision. Defined.

Record FacadeRoute := mkFacadeRoute {
  fr_method : string;
  fr_template : string;
  fr_read : bool;
  fr_request_scan : RequestScanMode;
  fr_body : BodyMode;
  fr_strict_contract : bool;
  fr_success_status : Z;
  fr_body_label : string;
  fr_resource : string;
  fr_operation : string;
  fr_params : list string;
  fr_query_params : list string;
  fr_required_query_params : list string;
  fr_response : ResponseMode;
  fr_allow_empty_response : bool;
  fr_pattern : list segment
}.

(** A segment [{name}] of a template. *)
Definition param_segment (s : string) : option string :=
  match chars s with
  | "{"%char :: rest =>
      match rev rest with
      | "}"%char :: inner => Some (of_chars (rev inner))
      | _ => None
      end
  | _ => None
  end.

(** The segments after the bank: none for the empty template. *)
Definition template_segments (template : string) : list segment :=
  if decide (template = "") then []
  else map (fun s => match param_segment s with Some n => SParam n | None => SLit s end)
           (str_split "/" template).

(** [s.replace(a, b)] for single characters. *)
Definition replace_char (a : ascii) (b : string) (s : string) : string :=
  str_join b (str_split a s).

Definition or_default (s d : string) : string := if decide (s = "") then d else s.

Definition _route (method template : string) (read : bool) (body : BodyMode)
    (request_scan : option RequestScanMode) (strict : bool) (success_status : Z)
    (body_label : option string) (query required_query : list string)
    (response : ResponseMode) (allow_empty_response : bool) : result FacadeRoute :=
  let segs := template_segments template in
  let params := omap (fun s => match s with SParam n => Some n | SLit _ => None end) segs in
  let resource :=
    str_join "/" (omap (fun s => match s with SLit t => Some t | SParam _ => None end) segs) in
  if negb (forallb (fun q => elem q query) required_query)
  then Err (EValueError "required query parameters must be forwardable")
  else Ok (mkFacadeRoute method template read
    (default (if read then ScanRecall else ScanRetain) request_scan)
    body strict success_status
    (default (or_default (replace_char "/" " " resource) "bank") body_label)
    resource
    (or_default (replace_char "/" "_" resource) "bank")
    params query required_query response
    (allow_empty_response || bool_decide (method = "DELETE")
     || (bool_decide (method = "POST") && bool_decide (body = BodyNone)))
    segs).

(** The table as the module builds it. *)
Definition FACADE_ROUTE_TABLE : list (result FacadeRoute) :=
  [
   _route "PUT" "" false BodyRequired None true 200 (Some "bank") [] [] RespObject false;
   _route "PATCH" "config" false BodyRequired None true 200 (Some "bank config") [] [] RespObject false;
   _route "GET" "mental-models" true BodyNone None true 200 None ["tags"; "tags_match"; "detail"; "limit"; "offset"; "exclude_knowledge_pages"] [] RespObject false;
   _route "POST" "mental-models" false BodyRequired None true 200 (Some "mental-model") [] [] RespObject false;
   _route "GET" "mental-models/{mental_model_id}" true BodyNone None true 200 None ["detail"] [] RespObject false;
   _route "PATCH" "mental-models/{mental_model_id}" false BodyRequired None true 200 (Some "mental-model") [] [] RespObject false;
   _route "DELETE" "mental-models/{mental_model_id}" false BodyNone None true 200 None [] [] RespObject false;
   _route "POST" "reflect" true BodyRequired None true 200 (Some "reflect") [] [] RespObject false;
   _route "PATCH" "" false BodyRequired None false 200 (Some "bank") [] [] RespObject false;
   _route "DELETE" "" false BodyNone None false 200 None [] [] RespObject false;
   _route "GET" "config" true BodyNone None false 200 None [] [] RespObject false;
   _route "DELETE" "config" false BodyNone None false 200 None [] [] RespObject false;
   _route "GET" "stats" true BodyNone None false 200 None ["refresh"] [] RespObject false;
   _route "GET" "stats/memories-timeseries" true BodyNone None false 200 None ["period"; "time_field"] [] RespObject false;
   _route "GET" "tags" true BodyNone None false 200 None ["q"; "source"; "limit"; "offset"] [] RespObject false;
   _route "GET" "graph" true BodyNone None false 200 None ["type"; "limit"; "q"; "tags"; "tags_match"; "document_id"; "chunk_id"] [] RespObject false;
   _route "POST" "consolidate" false BodyOptional None false 200 None [] [] RespObject false;
   _route "POST" "consolidation/recover" false BodyNone None false 200 None [] [] RespObject false;
   _route "GET" "memories/list" true BodyNone None false 200 None ["type"; "q"; "consolidation_state"; "state"; "document_id"; "entity_id"; "tags"; "tags_match"; "time_field"; "start_date"; "end_date"; "limit"; "offset"] [] RespObject false;
   _route "DELETE" "memories" false BodyNone None false 200 None ["type"] [] RespObject false;
   _route "POST" "memories/dry-run-extract" true BodyRequired (Some ScanRetain) false 200 None [] [] RespObject false;
   _route "GET" "memories/{memory_id}" true BodyNone None false 200 None [] [] RespObject false;
   _route "PATCH" "memories/{memory_id}" false BodyRequired None false 200 None [] [] RespObject false;
   _route "GET" "memories/{memory_id}/history" true BodyNone None false 200 None [] [] RespArray false;
   _route "DELETE" "memories/{memory_id}/observations" false BodyNone None false 200 None [] [] RespObject false;
   _route "GET" "documents" true BodyNone None false 200 None ["q"; "tags"; "tags_match"; "time_field"; "start_date"; "end_date"; "limit"; "offset"] [] RespObject false;
   _route "GET" "documents/{document_id}" true BodyNone None false 200 None [] [] RespObject false;
   _route "PATCH" "documents/{document_id}" false BodyRequired None false 200 None [] [] RespObject false;
   _route "DELETE" "documents/{document_id}" false BodyNone None false 200 None [] [] RespObject false;
   _route "GET" "documents/{document_id}/chunks" true BodyNone None false 200 None ["limit"; "offset"] [] RespObject false;
   _route "POST" "documents/{document_id}/reprocess" false BodyNone None false 200 None [] [] RespObject false;
   _route "GET" "entities" true BodyNone None false 200 None ["limit"; "offset"; "tags"; "tags_match"; "tag_groups"] [] RespObject false;
   _route "GET" "entities/graph" true BodyNone None false 200 None ["limit"; "min_count"; "tags"; "tags_match"; "tag_groups"] [] RespObject false;
   _route "GET" "entities/{entity_id}" true BodyNone None false 200 None ["tags"; "tags_match"; "tag_groups"] [] RespObject false;
   _route "POST" "mental-models/{mental_model_id}/refresh" false BodyOptional None false 200 None [] [] RespObject true;
   _route "POST" "mental-models/{mental_model_id}/clear" false BodyNone None false 200 None [] [] RespObject false;
   _route "POST" "mental-models/{mental_model_id}/dry-run-refresh" true BodyNone None false 200 None [] [] RespObject false;
   _route "GET" "mental-models/{mental_model_id}/history" true BodyNone None false 200 None [] [] RespArray false;
   _route "GET" "directives" true BodyNone None false 200 None ["tags"; "tags_match"; "active_only"; "limit"; "offset"] [] RespObject false;
   _route "POST" "directives" false BodyRequired None false 200 None [] [] RespObject false;
   _route "GET" "directives/{directive_id}" true BodyNone None false 200 None [] [] RespObject false;
   _route "PATCH" "directives/{directive_id}" false BodyRequired None false 200 None [] [] RespObject false;
   _route "DELETE" "directives/{directive_id}" false BodyNone None false 200 None [] [] RespObject false;
   _route "GET" "observations/scopes" true BodyNone None false 200 None ["limit"; "offset"] [] RespObject false;
   _route "DELETE" "observations" false BodyNone None false 200 None [] [] RespObject false;
   _route "GET" "operations" true BodyNone None false 200 None ["status"; "type"; "limit"; "offset"; "exclude_parents"] [] RespObject false;
   _route "GET" "operations/{operation_id}" true BodyNone None false 200 None ["include_payload"] [] RespObject false;
   _route "DELETE" "operations/{operation_id}" false BodyNone None false 200 None [] [] RespObject false;
   _route "DELETE" "operations/{operation_id}/delete" false BodyNone None false 200 None [] [] RespObject false;
   _route "POST" "operations/{operation_id}/retry" false BodyNone None false 200 None [] [] RespObject false;
   _route "GET" "knowledge-base/search" true BodyNone None false 200 None ["q"; "limit"; "tags"; "tags_match"; "tag_groups"] ["q"] RespObject false;
   _route "GET" "knowledge-base/tree" true BodyNone None false 200 None ["tags"; "tags_match"; "tag_groups"] [] RespObject false;
   _route "POST" "knowledge-base/folders" false BodyRequired None false 201 None [] [] RespObject false;
   _route "POST" "knowledge-base/pages" false BodyRequired None false 201 None [] [] RespObject false;
   _route "GET" "knowledge-base/pages/{page_id}" true BodyNone None false 200 None [] [] RespObject false;
   _route "PATCH" "knowledge-base/nodes/{node_id}" false BodyRequired None false 200 None [] [] RespObject false;
   _route "DELETE" "knowledge-base/nodes/{node_id}" false BodyNone None false 200 None [] [] RespObject false;
   _route "GET" "audit-logs" true BodyNone None false 200 None ["action"; "transport"; "start_date"; "end_date"; "limit"; "offset"] [] RespObject false;
   _route "GET" "audit-logs/stats" true BodyNone None false 200 None ["action"; "period"] [] RespObject false;
   _route "GET" "llm-requests" true BodyNone None false 200 None ["status"; "operation"; "scope"; "call_type"; "provider"; "trace_id"; "document_id"; "memory_id"; "group"; "start_date"; "end_date"; "limit"; "offset"] [] RespObject false;
   _route "GET" "llm-requests/stats" true BodyNone None false 200 None ["operation"; "call_type"; "period"] [] RespObject false
  ].

Definition ok_value {A} (r : result A) : option A := match r with Ok a => Some a | Err _ => None end.

Definition FACADE_ROUTES : list FacadeRoute := Eval vm_compute in omap ok_value FACADE_ROUTE_TABLE.

Definition facade_route (method template : string) : option FacadeRoute :=
  List.find (fun r => bool_decide (fr_method r = method) && bool_decide (fr_template r = template))
    FACADE_ROUTES.

(** ** Matching a path *)

(** The bank and parameter values of a match, in template order. *)
Fixpoint match_segments (pattern : list segment) (path : list string) : option (list string) :=
  match pattern, path with
  | [], [] => Some []
  | SLit s :: pattern', t :: path' =>
      if decide (s = t) then match_segments pattern' path' else None
  | SParam _ :: pattern', t :: path' =>
      if decide (t = "") then None
      else match match_segments pattern' path' with Some vs => Some (t :: vs) | None => None end
  | _, _ => None
  end.

(** [route.pattern.fullmatch(pathname)] *)
Definition fullmatch_route (r : FacadeRoute) (pathname : string) : option (string * list string) :=
  match str_split "/" pathname with
  | "" :: "v1" :: "default" :: "banks" :: bank :: rest =>
      if decide (bank = "") then None
      else match match_segments (fr_pattern r) rest with
           | Some vs => Some (bank, vs)
           | None => None
           end
  | _ => None
  end.

Fixpoint match_routes (routes : list FacadeRoute) (method pathname : string)
    : option (FacadeRoute * string * list string) :=
  match routes with
  | [] => None
  | r :: routes' =>
      if decide (fr_method r <> method) then match_routes routes' method pathname
      else match fullmatch_route r pathname with
           | Some (bank, vs) => Some (r, bank, vs)
           | None => match_routes routes' method pathname
           end
  end.

Definition match_facade_route (method pathname : string)
    : option (FacadeRoute * string * list string) :=
  match_routes FACADE_ROUTES method pathname.

(** ** Lemmas *)

(** Building the table raises nothing: every route is in [FACADE_ROUTES]. *)
Lemma facade_table_builds : forallb is_ok FACADE_ROUTE_TABLE = true.
Proof. vm_compute. reflexivity. Qed.

Lemma split_chars_no_sep sep acc l rest :
  (forall c, c ∈ l -> c <> sep) ->
  split_chars sep acc (l ++ sep :: rest) = (rev acc ++ l) :: split_chars sep [] rest.
Proof.
  revert acc. induction l as [|c l IH]; intros acc Hl; simpl.
  - destruct (ascii_dec sep sep); [by rewrite app_nil_r|done].
  - destruct (ascii_dec c sep) as [->|_]; [by destruct (Hl sep ltac:(left))|].
    rewrite IH; [|intros; apply Hl; by right]. simpl. by rewrite <- app_assoc.
Qed.

Lemma split_chars_last sep acc l :
  (forall c, c ∈ l -> c <> sep) -> split_chars sep acc l = [rev acc ++ l].
Proof.
  revert acc. induction l as [|c l IH]; intros acc Hl; simpl; [by rewrite app_nil_r|].
  destruct (ascii_dec c sep) as [->|_]; [by destruct (Hl sep ltac:(left))|].
  rewrite IH; [|intros; apply Hl; by right]. simpl. by rewrite <- app_assoc.
Qed.

(** A text without the separator. *)
Definition no_char (sep : ascii) (s : string) : Prop := forall c, c ∈ chars s -> c <> sep.

#[export] Instance no_char_dec sep s : Decision (no_char sep s).
Proof.
  refine (cast_if (decide (Forall (fun c => c <> sep) (chars s)))); unfold no_char;
    [exact (proj1 (list.Forall_forall (fun c => c <> sep) _) f)
    |intros Hall; exact (n (proj2 (list.Forall_forall (fun c => c <> sep) _) Hall))].
Defined.

(** [split] undoes [join] on parts without the separator. *)
Lemma str_split_join sep parts :
  parts <> [] -> Forall (no_char sep) parts ->
  str_split sep (str_join (String sep "") parts) = parts.
Proof.
  intros Hne Hf. induction parts as [|x parts IH]; [done|]. clear Hne.
  apply Forall_cons_1 in Hf as [Hx Hf]. unfold str_split in *.
  destruct parts as [|y parts].
  - simpl. rewrite split_chars_last by apply Hx. simpl. by rewrite of_chars_chars.
  - change (str_join (String sep "") (x :: y :: parts))
      with (x +:+ String sep "" +:+ str_join (String sep "") (y :: parts))%string.
    rewrite !chars_app. change (chars (String sep "")) with [sep]. simpl app.
    rewrite split_chars_no_sep by apply Hx. simpl map. rewrite of_chars_chars. f_equal.
    by apply IH.
Qed.

(** ** Routes and the paths they serve *)

(** The path segments of a pattern with its parameters filled in. *)
Fixpoint fill (pattern : list segment) (vals : list string) : list string :=
  match pattern with
  | [] => []
  | SLit s :: p => s :: fill p vals
  | SParam _ :: p => default "" (head vals) :: fill p (tail vals)
  end.

(** The path of a route for a bank and parameter values, as a client requests it. *)
Definition route_path (r : FacadeRoute) (bank : string) (vals : list string) : string :=
  str_join "/" ("" :: "v1" :: "default" :: "banks" :: bank :: fill (fr_pattern r) vals).

Definition pattern_params (pattern : list segment) : nat :=
  length (omap (fun s => match s with SParam n => Some n | SLit _ => None end) pattern).

(** The literal segments of the whole table. *)
Definition static_segments : list string :=
  concat (map (fun r => omap (fun s => match s with SLit t => Some t | _ => None end) (fr_pattern r))
    FACADE_ROUTES).

(** A path segment a client may use as an identifier. *)
Definition plain_segment (s : string) : Prop := s <> "" /\ no_char "/" s.

(** Some position tells a path of [pat] apart from pattern [pat'], provided
    parameter values are not literals of the table. *)
Fixpoint distinguishable (pat' pat : list segment) : bool :=
  match pat', pat with
  | [], [] => false
  | [], _ => true
  | _, [] => true
  | SLit a :: p', SLit b :: p => negb (bool_decide (a = b)) || distinguishable p' p
  | SLit _ :: _, SParam _ :: _ => true
  | SParam _ :: p', _ :: p => distinguishable p' p
  end.

(** No earlier route of the same method captures a later route's paths. *)
Fixpoint shadow_free (routes : list FacadeRoute) : bool :=
  match routes with
  | [] => true
  | r :: rs =>
      forallb (fun r2 => negb (bool_decide (fr_method r = fr_method r2))
                         || distinguishable (fr_pattern r) (fr_pattern r2)) rs
      && shadow_free rs
  end.

Lemma table_shadow_free : shadow_free FACADE_ROUTES = true.
Proof. vm_compute. reflexivity. Qed.

(** Every literal of the table is a plain segment. *)
Lemma static_segments_plain :
  forallb (fun s => negb (bool_decide (s = "")) && bool_decide (no_char "/" s)) static_segments = true.
Proof. vm_compute. reflexivity. Qed.

Definition pattern_literals (pattern : list segment) : list string :=
  omap (fun s => match s with SLit t => Some t | _ => None end) pattern.

Lemma static_segments_in r s :
  r ∈ FACADE_ROUTES -> s ∈ pattern_literals (fr_pattern r) -> s ∈ static_segments.
Proof.
  intros Hr Hs. unfold static_segments. apply list_elem_of_In, List.in_concat.
  exists (pattern_literals (fr_pattern r)). split; [|by apply list_elem_of_In].
  apply List.in_map_iff. exists r. split; [done|]. by apply list_elem_of_In.
Qed.

Lemma static_segment_plain s : s ∈ static_segments -> plain_segment s.
Proof.
  intros Hs. pose proof static_segments_plain as H. rewrite forallb_forall in H.
  specialize (H s ltac:(by apply list_elem_of_In)). split_bool. by split.
Qed.

(** The literals of a pattern occur in every filled path. *)
Lemma fill_plain pat vals :
  (forall s, s ∈ pattern_literals pat -> plain_segment s) ->
  Forall plain_segment vals -> length vals = pattern_params pat ->
  Forall plain_segment (fill pat vals).
Proof.
  unfold pattern_params, pattern_literals.
  revert vals. induction pat as [|[t|n] pat IH]; intros vals Hl Hv Hn; simpl in *; [constructor| |].
  - constructor; [apply Hl; by left|]. apply IH; [|done|done]. intros; apply Hl; by right.
  - destruct vals as [|v vals]; [done|]. apply Forall_cons_1 in Hv as [Hv Hvs]. simpl.
    constructor; [done|]. apply IH; [done|done|]. by injection Hn.
Qed.

Lemma match_own_pattern pat vals :
  Forall plain_segment vals -> length vals = pattern_params pat ->
  match_segments pat (fill pat vals) = Some vals.
Proof.
  unfold pattern_params. revert vals.
  induction pat as [|[t|n] pat IH]; intros vals Hv Hn; simpl in *.
  - by destruct vals.
  - rewrite decide_True by done. by apply IH.
  - destruct vals as [|v vals]; [done|]. apply Forall_cons_1 in Hv as [Hv Hvs]. simpl in *.
    rewrite decide_False by apply Hv. rewrite IH; [done|done|]. by injection Hn.
Qed.

Lemma match_other_pattern pat' pat vals :
  distinguishable pat' pat = true ->
  (forall s v, s ∈ pattern_literals pat' -> v ∈ vals -> s <> v) ->
  length vals = pattern_params pat ->
  match_segments pat' (fill pat vals) = None.
Proof.
  unfold pattern_params, pattern_literals.
  revert pat vals. induction pat' as [|[a|n'] pat' IH]; intros [|[b|n] pat] vals Hd Hne Hn;
    simpl in *; try done.
  - case_decide as Hab; [|done]. rewrite bool_decide_true in Hd by done. apply IH; [done| |done].
    intros s v Hs Hv. apply Hne; [by right|done].
  - destruct vals as [|v vals]; [done|]. simpl in *.
    rewrite decide_False; [done|]. apply Hne; [by left|by left].
  - case_decide; [done|]. rewrite IH; [done|done| |done].
    intros s v Hs Hv. by apply Hne.
  - destruct vals as [|v vals]; [done|]. simpl in *. case_decide; [done|].
    rewrite IH; [done|done| |by injection Hn]. intros s w Hs Hw. apply Hne; [done|by right].
Qed.

Lemma fullmatch_route_path r r' bank vals :
  Forall plain_segment (bank :: fill (fr_pattern r) vals) ->
  fullmatch_route r' (route_path r bank vals) =
  match match_segments (fr_pattern r') (fill (fr_pattern r) vals) with
  | Some vs => Some (bank, vs)
  | None => None
  end.
Proof.
  intros Hp. unfold fullmatch_route, route_path.
  rewrite (str_split_join "/"); [|done|].
  - apply Forall_cons_1 in Hp as [Hb _]. by rewrite decide_False by apply Hb.
  - repeat (apply Forall_cons_2; [apply (bool_decide_unpack _); vm_compute; exact I|]).
    eapply Forall_impl; [|exact Hp]. by intros x [_ ?].
Qed.

Lemma match_routes_own routes r bank vals :
  shadow_free routes = true -> r ∈ routes ->
  Forall plain_segment (bank :: fill (fr_pattern r) vals) ->
  Forall plain_segment vals -> length vals = pattern_params (fr_pattern r) ->
  (forall r' s v, r' ∈ routes -> s ∈ pattern_literals (fr_pattern r') -> v ∈ vals -> s <> v) ->
  match_routes routes (fr_method r) (route_path r bank vals) = Some (r, bank, vals).
Proof.
  intros Hs Hr Hp Hv Hn Hne. induction routes as [|r0 routes IH]; [by apply not_elem_of_nil in Hr|].
  simpl in *. apply andb_true_iff in Hs as [Hs0 Hs]. rewrite fullmatch_route_path by done.
  apply elem_of_cons in Hr as [<-|Hr].
  - rewrite decide_False by tauto. by rewrite match_own_pattern.
  - rewrite IH; [|done|done|intros; eapply Hne; [by right|done|done]].
    case_decide as Hm; [done|]. rewrite match_other_pattern; [done| | |done].
    + rewrite forallb_forall in Hs0. specialize (Hs0 r ltac:(by apply list_elem_of_In)).
      apply orb_true_iff in Hs0 as [Hs0|]; [|done]. split_bool. by destruct Hm.
    + intros s v Hlit Hin. eapply Hne; [by left|done|done].
Qed.

(** ** Properties *)

(** Dispatch is exact on the route table. For every route, every bank and
    all parameter values that are non-empty path segments and not a static
    segment of the table, requesting the route's method and path is matched to
    that route, with that bank and those values: no earlier route captures it. *)
Lemma facade_dispatch_exact r bank vals :
  r ∈ FACADE_ROUTES -> plain_segment bank -> Forall plain_segment vals ->
  length vals = pattern_params (fr_pattern r) ->
  Forall (fun v => v ∉ static_segments) vals ->
  match_facade_route (fr_method r) (route_path r bank vals) = Some (r, bank, vals).
Proof.
  intros Hr Hb Hv Hn Hst. apply match_routes_own; try apply table_shadow_free; try done.
  - constructor; [done|]. apply fill_plain; [|done|done].
    intros s Hs. eapply static_segment_plain, static_segments_in; done.
  - intros r' s v Hr' Hs Hin ->. rewrite list.Forall_forall in Hst. apply (Hst v Hin).
    by eapply static_segments_in.
Qed.

Lemma facade_dispatch_exact_witness :
  exists r, facade_route "GET" "memories/{memory_id}/history" = Some r /\
    match_facade_route "GET" "/v1/default/banks/team/memories/m-17/history" = Some (r, "team", ["m-17"]).
Proof.
  destruct (facade_route "GET" "memories/{memory_id}/history") as [r|] eqn:E; [|by vm_compute in E].
  exists r. split; [done|].
  assert (Hr : r ∈ FACADE_ROUTES) by (apply List.find_some in E as [? _]; by apply list_elem_of_In).
  vm_compute in E. injection E as <-.
  refine (facade_dispatch_exact _ "team" ["m-17"] Hr _ _ _ _).
  - split; [done|]. apply (bool_decide_unpack _). vm_compute. exact I.
  - repeat constructor; [done|]. apply (bool_decide_unpack _). vm_compute. exact I.
  - reflexivity.
  - repeat constructor. apply (bool_decide_unpack _). vm_compute. exact I.
Defined.
