(* ===== verification/Principals.v ===== *)
(** * Principals: registry, authentication and authorization

    Models [memory_router/principals.py]: the registry with the validators the
    module declares, the checks of [load_principal_registry], the resolver
    (token parsing, authentication, authorization, effective limits) and the
    scope a facade route requires.

    Reading the file and the structural typing of the JSON value are the
    [read_registry] parameter; pydantic's lax boolean parsing is [bool_of].
    Python dictionaries are association lists; their keys are distinct. *)

From Stdlib Require Import ZArith Lia Ascii.
From stdpp Require Import base sets strings numbers list.
From S2P Require Import Prelude Errors Text Sha256 Timestamps FacadeRoutes.

Local Open Scope Z_scope.

(** ** Scope vocabulary *)

Definition SCOPE_BANK_LIST : string := "bank.list".
Definition SCOPE_MEMORY_RECALL : string := "memory.recall".
Definition SCOPE_MEMORY_RETAIN : string := "memory.retain".
Definition SCOPE_MEMORY_REFLECT : string := "memory.reflect".
Definition SCOPE_BANK_CONFIG_READ : string := "bank.config.read".
Definition SCOPE_BANK_CONFIG_WRITE : string := "bank.config.write".
Definition SCOPE_QUARANTINE_REVIEW : string := "quarantine.review".
Definition SCOPE_QUARANTINE_DECIDE : string := "quarantine.decide".
Definition SCOPE_BANK_ADMIN : string := "bank.admin".
Definition SCOPE_VOCABULARY : list string :=
  [SCOPE_BANK_LIST; SCOPE_MEMORY_RECALL; SCOPE_MEMORY_RETAIN; SCOPE_MEMORY_REFLECT;
   SCOPE_BANK_CONFIG_READ; SCOPE_BANK_CONFIG_WRITE; SCOPE_QUARANTINE_REVIEW;
   SCOPE_QUARANTINE_DECIDE; SCOPE_BANK_ADMIN].

Definition TOKEN_PREFIX : string := "mr_".
Definition _BEARER_PREFIX : string := "Bearer ".

(** [[A-Za-z0-9._:-]] and [[A-Za-z0-9._-]] *)
Definition key_id_char (c : ascii) : bool :=
  is_alnum c || elem c ["."; "_"; "-"]%char.
Definition principal_id_char (c : ascii) : bool := key_id_char c || bool_decide (c = ":"%char).

Definition PRINCIPAL_ID_PATTERN (s : string) : bool := class_match principal_id_char 1 128 s.
Definition KEY_ID_PATTERN (s : string) : bool := class_match key_id_char 1 64 s.
Definition SECRET_PATTERN (s : string) : bool := class_match is_hex 64 64 s.
Definition DIGEST_PATTERN (s : string) : bool := SECRET_PATTERN s.

Definition _DUMMY_DIGEST : list Z := sha256_digest "memory-router:unknown-key".

Definition _BANK_LEVEL_READ_RESOURCES : list string :=
  ["stats"; "stats/memories-timeseries"; "tags"; "audit-logs/stats"; "llm-requests/stats"].
Definition _BANK_MANAGE_RESOURCES : list string := ["consolidate"; "consolidation/recover"].

(** ** The registry *)

Record PrincipalKey := mkPrincipalKey {
  pk_id : string;
  pk_sha256 : string;
  pk_created_at : datetime;
  pk_expires_at : option datetime;
  pk_revoked_at : option datetime
}.

Record PrincipalGrant := mkPrincipalGrant { pg_bank : string; pg_scopes : list string }.

Inductive LimitOperation := OpRecall | OpRetain | OpReflect | OpConfig | OpAdmin.

#[export] Instance LimitOperation_eq_dec : EqDecision LimitOperation.
Proof. solve_decision. Defined.

Definition LIMIT_OPERATIONS : list LimitOperation := [OpRecall; OpRetain; OpReflect; OpConfig; OpAdmin].

Record PrincipalOperationLimit := mkPrincipalOperationLimit {
  ol_rate_limit_max : option Z;
  ol_rate_limit_window_ms : option Z;
  ol_concurrency_max : option Z;
  ol_max_body_bytes : option Z
}.

(** [PrincipalLimits], its fields reached by [getattr]. *)
Record PrincipalLimits := mkPrincipalLimits {
  lim_recall : option PrincipalOperationLimit;
  lim_retain : option PrincipalOperationLimit;
  lim_reflect : option PrincipalOperationLimit;
  lim_config : option PrincipalOperationLimit;
  lim_admin : option PrincipalOperationLimit
}.

Definition limits_get (l : PrincipalLimits) (op : LimitOperation) : option PrincipalOperationLimit :=
  match op with
  | OpRecall => lim_recall l
  | OpRetain => lim_retain l
  | OpReflect => lim_reflect l
  | OpConfig => lim_config l
  | OpAdmin => lim_admin l
  end.

Record Principal := mkPrincipal {
  pr_keys : list PrincipalKey;
  pr_grants : list PrincipalGrant;
  pr_limits : PrincipalLimits;
  pr_source : string
}.

Record BankAccessPolicy := mkBankAccessPolicy { allowed_principals : list string }.
Record BankConfiguration := mkBankConfiguration { access_policy : option BankAccessPolicy }.

Record PrincipalRegistry := mkPrincipalRegistry {
  reg_principals : list (string * Principal);
  reg_defaults : PrincipalLimits;
  reg_banks : list (string * BankConfiguration)
}.

(** ** Field and model validators *)

Definition timezone_aware (v : option datetime) : bool :=
  match v with Some d => dt_aware d | None => true end.

Definition expiry_after_creation (k : PrincipalKey) : bool :=
  match pk_expires_at k with
  | Some e => negb (dt_instant e <=? dt_instant (pk_created_at k))
  | None => true
  end.

(** [Field(min_length=1)] on a string or a list, [Field(ge=1)] on an optional integer. *)
Definition nonempty (s : string) : bool := negb (bool_decide (s = "")).
Definition nonempty_list {A} (l : list A) : bool := match l with [] => false | _ => true end.
Definition ge1 (v : option Z) : bool := match v with Some x => 1 <=? x | None => true end.

Definition key_valid (k : PrincipalKey) : bool :=
  nonempty (pk_id k) && timezone_aware (Some (pk_created_at k)) && timezone_aware (pk_expires_at k)
  && timezone_aware (pk_revoked_at k) && expiry_after_creation k.

Definition grant_valid (g : PrincipalGrant) : bool := nonempty (pg_bank g) && nonempty_list (pg_scopes g).

Definition operation_limit_valid (l : option PrincipalOperationLimit) : bool :=
  match l with
  | Some l => ge1 (ol_rate_limit_max l) && ge1 (ol_rate_limit_window_ms l)
              && ge1 (ol_concurrency_max l) && ge1 (ol_max_body_bytes l)
  | None => true
  end.

Definition limits_valid (l : PrincipalLimits) : bool :=
  forallb (fun op => operation_limit_valid (limits_get l op)) LIMIT_OPERATIONS.

Definition human_scopes : list string :=
  [SCOPE_BANK_LIST; SCOPE_MEMORY_RECALL; SCOPE_MEMORY_RETAIN; SCOPE_MEMORY_REFLECT;
   SCOPE_BANK_CONFIG_READ].

Definition validate_credential_kind (p : Principal) : bool :=
  if decide (pr_source p = "human") then
    negb (nonempty_list (pr_keys p)
          || existsb (fun g => existsb (fun s => negb (elem s human_scopes)) (pg_scopes g)) (pr_grants p))
  else nonempty_list (pr_keys p).

Definition principal_valid (p : Principal) : bool :=
  forallb key_valid (pr_keys p) && forallb grant_valid (pr_grants p) && limits_valid (pr_limits p)
  && nonempty (pr_source p) && validate_credential_kind p.

(** The constraints [PrincipalRegistry.model_validate] enforces. *)
Definition model_validate (r : PrincipalRegistry) : bool :=
  nonempty_list (reg_principals r) && forallb (fun kp => principal_valid kp.2) (reg_principals r)
  && limits_valid (reg_defaults r).

(** ** Registry loading *)

Definition is_dots (s : string) : bool := elem s ["."; ".."].

Definition _validate_principal_id (principal_id : string) : result unit :=
  ensure (negb (is_dots principal_id || negb (PRINCIPAL_ID_PATTERN principal_id)))
    (ERuntimeError "principal id must match [A-Za-z0-9._:-]{1,128} and cannot be . or ..").

(** Returns [seen_key_ids] with the key added. *)
Definition _validate_key (key : PrincipalKey) (seen_key_ids : list string) : result (list string) :=
  if negb (KEY_ID_PATTERN (pk_id key)) then
    Err (ERuntimeError "key id must match [A-Za-z0-9._-]{1,64}")
  else if elem (pk_id key) seen_key_ids then
    Err (ERuntimeError "key ids must be unique across principals")
  else if negb (DIGEST_PATTERN (pk_sha256 key)) then
    Err (ERuntimeError "key sha256 must be 64 lowercase hex characters")
  else Ok (pk_id key :: seen_key_ids).

Definition _validate_grant (grant : PrincipalGrant) : result unit :=
  if is_dots (pg_bank grant) || negb (PRINCIPAL_ID_PATTERN (pg_bank grant)) then
    Err (ERuntimeError "grant bank must match [A-Za-z0-9._:-]{1,128} and cannot be . or ..")
  else
    match str_sort (List.filter (fun s => negb (elem s SCOPE_VOCABULARY)) (dict_fromkeys (pg_scopes grant))) with
    | u :: _ => Err (ERuntimeError ("unknown grant scope: " +:+ u)%string)
    | [] =>
        ensure (bool_decide (length (pg_scopes grant) = length (dict_fromkeys (pg_scopes grant))))
          (ERuntimeError "grant scopes must be unique")
    end.

Fixpoint validate_keys (keys : list PrincipalKey) (seen : list string) : result (list string) :=
  match keys with
  | [] => Ok seen
  | k :: ks => _validate_key k seen ≫= validate_keys ks
  end.

Fixpoint validate_each {A} (f : A -> result unit) (l : list A) : result unit :=
  match l with
  | [] => Ok ()
  | x :: l' => f x ≫= fun _ => validate_each f l'
  end.

Definition _validate_principal (principal : Principal) (seen_key_ids : list string) : result (list string) :=
  seen ← validate_keys (pr_keys principal) seen_key_ids;
  _ ← validate_each _validate_grant (pr_grants principal);
  let grant_banks := map pg_bank (pr_grants principal) in
  if bool_decide (length grant_banks = length (dict_fromkeys grant_banks)) then Ok seen
  else Err (ERuntimeError "grant banks must be unique per principal").

Definition _is_control_plane (principal_id source : string) : bool :=
  bool_decide (principal_id = "control-plane") && bool_decide (source = "control-plane").

Definition grant_conflicts (bank : string) (policy : BankAccessPolicy) (ip : string * Principal) : bool :=
  negb (_is_control_plane ip.1 (pr_source ip.2))
  && existsb (fun g => bool_decide (pg_bank g = bank)) (pr_grants ip.2)
  && negb (elem ip.1 (allowed_principals policy)).

Definition _validate_bank_configuration (bank : string) (config : BankConfiguration)
    (principals : list (string * Principal)) : result unit :=
  _ ← _validate_principal_id bank;
  match access_policy config with
  | None => Ok ()
  | Some policy =>
      _ ← validate_each _validate_principal_id (allowed_principals policy);
      if negb (bool_decide (length (allowed_principals policy)
                            = length (dict_fromkeys (allowed_principals policy))))
      then Err (ERuntimeError "allowedPrincipals must be unique")
      else if existsb (grant_conflicts bank policy) principals
      then Err (ERuntimeError "principal grant conflicts with bank access policy")
      else Ok ()
  end.

Fixpoint validate_principals (ps : list (string * Principal)) (seen : list string) : result (list string) :=
  match ps with
  | [] => Ok seen
  | (principal_id, principal) :: ps' =>
      _ ← _validate_principal_id principal_id;
      seen' ← _validate_principal principal seen;
      validate_principals ps' seen'
  end.

Section load.
(** The file read as JSON of the registry's shape: [None] when the file is not
    readable JSON, [Some None] when the value has not that shape. *)
Context (read_registry : string -> option (option PrincipalRegistry)).

Definition load_principal_registry (path : string) : result PrincipalRegistry :=
  match read_registry path with
  | None => Err (ERuntimeError "principal registry is not readable JSON")
  | Some value =>
      match value with
      | Some registry =>
          if model_validate registry then
            _ ← validate_principals (reg_principals registry) [];
            _ ← validate_each
                  (fun bc => _validate_bank_configuration bc.1 bc.2 (reg_principals registry))
                  (reg_banks registry);
            Ok registry
          else Err (ERuntimeError "invalid principal registry")
      | None => Err (ERuntimeError "invalid principal registry")
      end
  end.
End load.

(** ** Effective limits *)

Record ResolvedPrincipalLimit := mkResolvedPrincipalLimit {
  rl_rate_limit_max : Z;
  rl_rate_limit_window_ms : Z;
  rl_concurrency_max : Z;
  rl_max_body_bytes : Z
}.

Definition _BUILTIN_LIMITS (op : LimitOperation) : ResolvedPrincipalLimit :=
  match op with
  | OpRecall => mkResolvedPrincipalLimit 120 60000 4 32768
  | OpRetain => mkResolvedPrincipalLimit 30 60000 2 524288
  | OpReflect => mkResolvedPrincipalLimit 30 60000 2 32768
  | OpConfig => mkResolvedPrincipalLimit 60 60000 2 131072
  | OpAdmin => mkResolvedPrincipalLimit 10 60000 1 131072
  end.

(** [x or y] on an optional integer: zero is falsy. *)
Definition int_or (x : option Z) (y : Z) : Z :=
  match x with Some v => if v =? 0 then y else v | None => y end.

Definition _merge_limit (base : ResolvedPrincipalLimit) (override : option PrincipalOperationLimit)
    : ResolvedPrincipalLimit :=
  match override with
  | None => base
  | Some o =>
      mkResolvedPrincipalLimit
        (int_or (ol_rate_limit_max o) (rl_rate_limit_max base))
        (int_or (ol_rate_limit_window_ms o) (rl_rate_limit_window_ms base))
        (int_or (ol_concurrency_max o) (rl_concurrency_max base))
        (int_or (ol_max_body_bytes o) (rl_max_body_bytes base))
  end.

Definition _limits_for (registry : PrincipalRegistry) (principal : Principal)
    : list (LimitOperation * ResolvedPrincipalLimit) :=
  map (fun operation =>
         let value := _merge_limit (_BUILTIN_LIMITS operation) (limits_get (reg_defaults registry) operation) in
         (operation, _merge_limit value (limits_get (pr_limits principal) operation)))
    LIMIT_OPERATIONS.

(** ** Authentication *)

Record PrincipalSession := mkPrincipalSession {
  ps_principal_id : string;
  ps_key_id : string;
  ps_grants : list PrincipalGrant;
  ps_limits : list (LimitOperation * ResolvedPrincipalLimit);
  ps_source : string
}.

(** [Authentication]: a session exactly with the status "ok". *)
Inductive Authentication :=
  | AuthOk (session : PrincipalSession)
  | AuthInvalidFormat
  | AuthUnknownKey
  | AuthWrongSecret
  | AuthExpired
  | AuthRevoked.

Definition _bearer_token (authorization : option string) : option string :=
  match authorization with
  | None => None
  | Some a =>
      if starts_with _BEARER_PREFIX a then
        let token := remove_prefix _BEARER_PREFIX a in
        if decide (token = "") then None else Some token
      else None
  end.

Definition _parse_token (token : string) : option (string * string) :=
  if starts_with TOKEN_PREFIX token then
    match rpartition "_" (remove_prefix TOKEN_PREFIX token) with
    | None => None
    | Some (key_id, secret) =>
        if negb (KEY_ID_PATTERN key_id) || negb (SECRET_PATTERN secret) then None
        else Some (key_id, secret)
    end
  else None.

Definition token_digest (secret : string) : list Z := sha256_digest secret.

Record PrincipalResolver := mkPrincipalResolver {
  res_registry : PrincipalRegistry;
  res_index : list (string * (string * PrincipalKey))
}.

(** The entries of the index comprehension, in iteration order. *)
Definition index_entries (registry : PrincipalRegistry) : list (string * (string * PrincipalKey)) :=
  concat (map (fun ip => map (fun k => (pk_id k, (ip.1, k))) (pr_keys ip.2)) (reg_principals registry)).

(** [PrincipalResolver.__init__] *)
Definition principal_resolver (registry : PrincipalRegistry) : PrincipalResolver :=
  mkPrincipalResolver registry (dict_of (index_entries registry)).

Definition session_for (registry : PrincipalRegistry) (principal_id key_id : string)
    (principal : Principal) : PrincipalSession :=
  mkPrincipalSession principal_id key_id (pr_grants principal) (_limits_for registry principal)
    (pr_source principal).

(** [PrincipalResolver.authenticate] at the instant [now]. *)
Definition authenticate (self : PrincipalResolver) (authorization : option string) (now : Z)
    : result Authentication :=
  match _parse_token (default "" (_bearer_token authorization)) with
  | None => Ok AuthInvalidFormat
  | Some (key_id, secret) =>
      let entry := dict_get key_id (res_index self) in
      stored ← match entry with
               | Some e => match bytes_fromhex (pk_sha256 e.2) with
                           | Some b => Ok b
                           | None => Err (EValueError "non-hexadecimal number found in fromhex() arg")
                           end
               | None => Ok _DUMMY_DIGEST
               end;
      let matched := compare_digest (token_digest secret) stored in
      match entry with
      | None => Ok AuthUnknownKey
      | Some (principal_id, key) =>
          if negb matched then Ok AuthWrongSecret
          else match pk_revoked_at key with
               | Some _ => Ok AuthRevoked
               | None =>
                   if match pk_expires_at key with
                      | Some e => dt_instant e <=? now
                      | None => false
                      end
                   then Ok AuthExpired
                   else match dict_get principal_id (reg_principals (res_registry self)) with
                        | None => Err (EOther "KeyError")
                        | Some principal =>
                            Ok (AuthOk (session_for (res_registry self) principal_id key_id principal))
                        end
               end
      end
  end.

(** [authenticate_request]; [human] is the installed [human_authenticate]. *)
Definition authenticate_request (self : PrincipalResolver) (human : option (string -> result Authentication))
    (authorization : option string) (now : Z) : result Authentication :=
  match authorization with
  | Some a =>
      if starts_with "Bearer mrh_" a then
        match human with
        | None => Ok AuthInvalidFormat
        | Some f => f a
        end
      else authenticate self authorization now
  | None => authenticate self authorization now
  end.

(** ** Authorization *)

Definition grants_scope (grants : list PrincipalGrant) (scope bank : string) : bool :=
  existsb (fun g => bool_decide (pg_bank g = bank) && elem scope (pg_scopes g)) grants.

Definition _policy_allows (self : PrincipalResolver) (principal_id source bank : string) : bool :=
  match dict_get bank (reg_banks (res_registry self)) ≫= access_policy with
  | None => true
  | Some policy => _is_control_plane principal_id source || elem principal_id (allowed_principals policy)
  end.

Definition authorize (self : PrincipalResolver) (session : PrincipalSession) (scope bank : string) : bool :=
  grants_scope (ps_grants session) scope bank
  && _policy_allows self (ps_principal_id session) (ps_source session) bank.

Definition authorize_current (self : PrincipalResolver) (principal_id scope bank : string) : bool :=
  match dict_get principal_id (reg_principals (res_registry self)) with
  | None => false
  | Some principal =>
      grants_scope (pr_grants principal) scope bank
      && _policy_allows self principal_id (pr_source principal) bank
  end.

Definition _banks_with_scope (self : PrincipalResolver) (session : PrincipalSession) (scope : string)
    : list string :=
  str_sort (dict_fromkeys (map pg_bank
    (List.filter (fun g => elem scope (pg_scopes g)
                  && _policy_allows self (ps_principal_id session) (ps_source session) (pg_bank g))
       (ps_grants session)))).

Definition list_banks (self : PrincipalResolver) (session : PrincipalSession) : list string :=
  _banks_with_scope self session SCOPE_BANK_LIST.

Definition inherited_banks (self : PrincipalResolver) (parent : PrincipalSession) (banks : list string)
    (scope : string) : list string :=
  str_sort (dict_fromkeys (List.filter (fun b => authorize self parent scope b) banks)).

Definition quarantine_review_banks (self : PrincipalResolver) (session : PrincipalSession) : list string :=
  _banks_with_scope self session SCOPE_QUARANTINE_REVIEW.

Definition scope_limit_operation (scope : string) : LimitOperation :=
  if decide (scope = SCOPE_MEMORY_RECALL) then OpRecall
  else if decide (scope = SCOPE_MEMORY_RETAIN) then OpRetain
  else if decide (scope = SCOPE_MEMORY_REFLECT) then OpReflect
  else if elem scope [SCOPE_BANK_ADMIN; SCOPE_QUARANTINE_REVIEW] then OpAdmin
  else OpConfig.

(** ** The scope a facade route requires *)

Section facade.
(** pydantic's parsing of a query value as a boolean. *)
Context (bool_of : string -> option bool).

Definition _operation_read_scope (query : list (string * string)) : result string :=
  let values := map snd (List.filter (fun kv => bool_decide (kv.1 = "include_payload")) query) in
  match mapM bool_of values with
  | None => Err (raise_http 400 "invalid_query" "include_payload must be a boolean")
  | Some include_payload =>
      Ok (if existsb id include_payload then SCOPE_MEMORY_RECALL else SCOPE_BANK_CONFIG_READ)
  end.

Definition facade_scope (route : FacadeRoute) (query : list (string * string)) : result string :=
  let resource := fr_resource route in
  if decide (fr_template route = "reflect") then Ok SCOPE_MEMORY_REFLECT
  else if decide (fr_template route = "memories/dry-run-extract") then Ok SCOPE_MEMORY_RETAIN
  else if bool_decide (resource = "") || elem resource _BANK_MANAGE_RESOURCES then Ok SCOPE_BANK_ADMIN
  else if decide (resource = "config") then
    Ok (if fr_read route then SCOPE_BANK_CONFIG_READ else SCOPE_BANK_CONFIG_WRITE)
  else if elem resource _BANK_LEVEL_READ_RESOURCES then Ok SCOPE_BANK_CONFIG_READ
  else if fr_read route && bool_decide (fr_template route = "operations/{operation_id}") then
    _operation_read_scope query
  else if bool_decide (resource = "operations") || starts_with "operations/" resource then
    Ok (if fr_read route then SCOPE_BANK_CONFIG_READ else SCOPE_BANK_ADMIN)
  else Ok (if fr_read route then SCOPE_MEMORY_RECALL else SCOPE_MEMORY_RETAIN).
End facade.

(** ** What loading establishes *)

(** The facts the resolver relies on. *)
Record registry_ok (r : PrincipalRegistry) : Prop := {
  rok_model : model_validate r = true;
  rok_keys : NoDup (map fst (index_entries r));
  rok_digests : forall e, e ∈ index_entries r ->
    KEY_ID_PATTERN (pk_id e.2.2) = true /\ DIGEST_PATTERN (pk_sha256 e.2.2) = true;
  rok_policies : forall bank config policy ip,
    (bank, config) ∈ reg_banks r -> access_policy config = Some policy ->
    ip ∈ reg_principals r -> grant_conflicts bank policy ip = false
}.

Lemma validate_each_ok {A} (f : A -> result unit) l u :
  validate_each f l = Ok u -> forall x, x ∈ l -> exists v, f x = Ok v.
Proof.
  induction l as [|y l IH]; simpl; intros Hv x Hx; [by apply not_elem_of_nil in Hx|].
  apply result_bind_ok in Hv as (v & Hf & Hv).
  apply elem_of_cons in Hx as [->|Hx]; [by exists v|]. by apply IH.
Qed.

Definition principal_entries (ip : string * Principal) : list (string * (string * PrincipalKey)) :=
  map (fun k => (pk_id k, (ip.1, k))) (pr_keys ip.2).

Lemma validate_keys_ok ks seen seen' :
  validate_keys ks seen = Ok seen' ->
  seen' = rev (map pk_id ks) ++ seen /\ (NoDup seen -> NoDup seen') /\
  Forall (fun k => KEY_ID_PATTERN (pk_id k) = true /\ DIGEST_PATTERN (pk_sha256 k) = true) ks.
Proof.
  revert seen. induction ks as [|k ks IH]; intros seen; simpl; [intros [= <-]; split_and!; try done; constructor|].
  intros (s1 & Hk & Hks)%result_bind_ok. apply IH in Hks as (-> & Hnd & Hf).
  unfold _validate_key in Hk. cases_in Hk. split_bool. apply elem_false in E0.
  rewrite <- app_assoc. split_and!; [done| |].
  - intros Hs. apply Hnd. by apply NoDup_cons.
  - by constructor.
Qed.

Lemma validate_principals_ok ps seen seen' :
  validate_principals ps seen = Ok seen' ->
  seen' ≡ₚ map fst (concat (map principal_entries ps)) ++ seen /\ (NoDup seen -> NoDup seen') /\
  (forall e, e ∈ concat (map principal_entries ps) ->
     KEY_ID_PATTERN (pk_id e.2.2) = true /\ DIGEST_PATTERN (pk_sha256 e.2.2) = true).
Proof.
  revert seen. induction ps as [|[pid p] ps IH]; intros seen; simpl.
  - intros [= <-]. split_and!; try done. intros e He. by apply not_elem_of_nil in He.
  - intros (u & _ & Hv)%result_bind_ok. apply result_bind_ok in Hv as (s1 & Hp & Hps).
    apply IH in Hps as (Hperm & Hnd & Hf). unfold _validate_principal in Hp.
    apply result_bind_ok in Hp as (s2 & Hks & Hp). apply result_bind_ok in Hp as (u2 & _ & Hp).
    case_match; simplify_eq. apply validate_keys_ok in Hks as (-> & Hnd2 & Hk).
    split_and!.
    + rewrite Hperm, map_app. unfold principal_entries at 2. rewrite List.map_map. simpl.
      change (map (fun x => pk_id x) (pr_keys p)) with (map pk_id (pr_keys p)).
      rewrite <- (Permutation_rev (map pk_id (pr_keys p))). rewrite (Permutation_app_comm (map _ (concat _))).
      rewrite <- !app_assoc. f_equiv. apply Permutation_app_comm.
    + auto.
    + intros e [He|He]%elem_of_app; [|by apply Hf].
      apply list_elem_of_In, List.in_map_iff in He as (k & <- & Hin). simpl.
      rewrite list.Forall_forall in Hk. apply Hk. by apply list_elem_of_In.
Qed.

Lemma load_registry_ok read path r :
  load_principal_registry read path = Ok r -> read path = Some (Some r) /\ registry_ok r.
Proof.
  unfold load_principal_registry. intros Hl. cases_in Hl.
  apply result_bind_ok in Hl as (seen & Hps & Hl). apply result_bind_ok in Hl as (u & Hb & Hl).
  simplify_eq. split; [done|]. apply validate_principals_ok in Hps as (Hperm & Hnd & Hf).
  assert (Hi : index_entries r = concat (map principal_entries (reg_principals r))) by done.
  split; [done| |by rewrite Hi|].
  - rewrite Hi. rewrite app_nil_r in Hperm. rewrite <- Hperm. apply Hnd, NoDup_nil_2.
  - intros bank config policy ip Hbc Hpol Hip.
    destruct (validate_each_ok _ _ _ Hb _ Hbc) as [v Hv]. simpl in Hv.
    unfold _validate_bank_configuration in Hv. apply result_bind_ok in Hv as (u2 & _ & Hv).
    rewrite Hpol in Hv. apply result_bind_ok in Hv as (u3 & _ & Hv). cases_in Hv.
    destruct (grant_conflicts bank policy ip) eqn:Ec; [|done].
    assert (existsb (grant_conflicts bank policy) (reg_principals r) = true); [|congruence].
    apply existsb_exists. exists ip. by rewrite <- list_elem_of_In.
Qed.

(** ** The key index is exact *)

Lemma index_entry_elem r e :
  e ∈ index_entries r <->
  exists principal, (e.2.1, principal) ∈ reg_principals r /\ e.2.2 ∈ pr_keys principal /\ e.1 = pk_id e.2.2.
Proof.
  unfold index_entries. rewrite list_elem_of_In, List.in_concat. split.
  - intros (l & Hl & He). apply List.in_map_iff in Hl as ([pid p] & <- & Hp).
    apply List.in_map_iff in He as (k & <- & Hk). simpl. exists p. by rewrite !list_elem_of_In.
  - destruct e as [kid [pid k]]. simpl. intros (p & Hp & Hk & ->).
    exists (map (fun k => (pk_id k, (pid, k))) (pr_keys p)). split.
    + apply List.in_map_iff. exists (pid, p). by rewrite <- list_elem_of_In.
    + apply List.in_map_iff. exists k. by rewrite <- list_elem_of_In.
Qed.

Lemma index_get r kid pid k :
  registry_ok r ->
  dict_get kid (res_index (principal_resolver r)) = Some (pid, k) <->
  exists principal, (pid, principal) ∈ reg_principals r /\ k ∈ pr_keys principal /\ kid = pk_id k.
Proof.
  intros Hok. simpl. rewrite dict_of_get by apply Hok. by rewrite index_entry_elem.
Qed.

(** ** Tokens *)

Definition bearer_for (key_id secret : string) : string :=
  (_BEARER_PREFIX +:+ TOKEN_PREFIX +:+ key_id +:+ String "_" secret)%string.

Lemma str_app_cons_ne (s : string) c t : (s +:+ String c t)%string <> "".
Proof. by destruct s. Qed.

Lemma hex_no_underscore s : SECRET_PATTERN s = true -> "_"%char ∉ chars s.
Proof.
  intros [Hf _]%class_match_spec Hin. rewrite list.Forall_forall in Hf. by apply Hf in Hin.
Qed.

Lemma parse_bearer authorization key_id secret :
  _parse_token (default "" (_bearer_token authorization)) = Some (key_id, secret) <->
  authorization = Some (bearer_for key_id secret) /\
  KEY_ID_PATTERN key_id = true /\ SECRET_PATTERN secret = true.
Proof.
  split.
  - unfold _bearer_token. destruct authorization as [a|]; [|done].
    destruct (starts_with _BEARER_PREFIX a) eqn:Ea; [|done].
    apply starts_with_inv in Ea as [t ->]. rewrite remove_prefix_app.
    case_decide as Ht; [done|]. simpl. unfold _parse_token.
    destruct (starts_with TOKEN_PREFIX t) eqn:Et; [|done].
    apply starts_with_inv in Et as [u ->]. rewrite remove_prefix_app.
    destruct (rpartition "_" u) as [[h v]|] eqn:Er; [|done].
    apply rpartition_some in Er as [-> _].
    destruct (KEY_ID_PATTERN h) eqn:E1, (SECRET_PATTERN v) eqn:E2; simpl; try done.
    intros [= <- <-]. done.
  - intros (-> & Hk & Hs). unfold _bearer_token, bearer_for.
    rewrite starts_with_app, remove_prefix_app. rewrite decide_False by done. simpl.
    unfold _parse_token. rewrite starts_with_app, remove_prefix_app.
    rewrite (proj2 (rpartition_some "_" _ key_id secret)) by (split; [done|by apply hex_no_underscore]).
    by rewrite Hk, Hs.
Qed.

(** The stored digest is that of the secret exactly when its bytes are. *)
Lemma stored_digest k secret bs :
  DIGEST_PATTERN (pk_sha256 k) = true -> bytes_fromhex (pk_sha256 k) = Some bs ->
  token_digest secret = bs <-> pk_sha256 k = sha256_hex secret.
Proof.
  intros [Hf _]%class_match_spec Hb. unfold token_digest. split; intros Heq.
  - apply chars_inj. apply (fromhex_chars_inj bs); [done| |done|].
    + by destruct (proj1 (class_match_spec _ _ _ _) (sha256_hex_shape secret)).
    + rewrite <- Heq. apply fromhex_sha256.
  - rewrite Heq, fromhex_sha256 in Hb. by injection Hb.
Qed.

Lemma digest_parses k : DIGEST_PATTERN (pk_sha256 k) = true -> is_Some (bytes_fromhex (pk_sha256 k)).
Proof.
  intros [Hf Hl]%class_match_spec. unfold slen in Hl. rewrite <- length_chars in Hl.
  destruct (fromhex_chars_hex 32 (chars (pk_sha256 k))) as (bs & E & _); [lia|done|]. by exists bs.
Qed.

(** ** Authentication in terms of the registry *)

(** The holder of [secret] for a live key of a principal at [now]. *)
Definition holds_live_key (r : PrincipalRegistry) (now : Z) (pid : string) (p : Principal)
    (k : PrincipalKey) (secret : string) : Prop :=
  (pid, p) ∈ reg_principals r /\ k ∈ pr_keys p /\ SECRET_PATTERN secret = true /\
  pk_sha256 k = sha256_hex secret /\ pk_revoked_at k = None /\
  (forall e, pk_expires_at k = Some e -> now < dt_instant e).

Lemma key_pattern_of r pid p k :
  registry_ok r -> (pid, p) ∈ reg_principals r -> k ∈ pr_keys p ->
  KEY_ID_PATTERN (pk_id k) = true /\ DIGEST_PATTERN (pk_sha256 k) = true.
Proof.
  intros Hok Hp Hk. apply (rok_digests r Hok (pk_id k, (pid, k))).
  apply index_entry_elem. by exists p.
Qed.

Lemma authenticate_complete r now pid p k secret :
  registry_ok r -> NoDup (map fst (reg_principals r)) -> holds_live_key r now pid p k secret ->
  authenticate (principal_resolver r) (Some (bearer_for (pk_id k) secret)) now
  = Ok (AuthOk (session_for r pid (pk_id k) p)).
Proof.
  intros Hok Hnd (Hp & Hk & Hs & Hd & Hrev & Hexp). unfold authenticate.
  destruct (key_pattern_of _ _ _ _ Hok Hp Hk) as [Hkid Hdig].
  rewrite (proj2 (parse_bearer _ (pk_id k) secret)) by done.
  rewrite (proj2 (index_get r (pk_id k) pid k Hok)) by (by exists p). cbn [snd fst].
  rewrite Hd, fromhex_sha256. cbn.
  rewrite (proj2 (compare_digest_true _ _)) by done. cbn. rewrite Hrev.
  rewrite (dict_get_nodup _ _ _ Hnd Hp).
  destruct (pk_expires_at k) as [e|]; [|done]. specialize (Hexp e eq_refl).
  by rewrite (proj2 (Z.leb_gt _ _)) by lia.
Qed.

Lemma authenticate_sound r authorization now s :
  registry_ok r -> NoDup (map fst (reg_principals r)) ->
  authenticate (principal_resolver r) authorization now = Ok (AuthOk s) ->
  exists pid p k secret, authorization = Some (bearer_for (pk_id k) secret) /\
    holds_live_key r now pid p k secret /\ s = session_for r pid (pk_id k) p.
Proof.
  intros Hok Hnd. unfold authenticate.
  destruct (_parse_token _) as [[kid secret]|] eqn:Ep; [|done].
  apply parse_bearer in Ep as (-> & Hkid & Hs).
  destruct (dict_get kid _) as [[pid k]|] eqn:Ei; [|done].
  apply (index_get r kid pid k Hok) in Ei as (p & Hp & Hk & ->). cbn [snd fst].
  destruct (key_pattern_of _ _ _ _ Hok Hp Hk) as [_ Hdig].
  destruct (digest_parses _ Hdig) as [bs Hbs]. rewrite Hbs. cbn.
  destruct (compare_digest _ bs) eqn:Ec; [|done]. apply compare_digest_true in Ec. cbn.
  destruct (pk_revoked_at k) eqn:Er; [done|]. case_match eqn:Ee; [done|].
  rewrite (dict_get_nodup _ _ _ Hnd Hp). intros [= <-].
  exists pid, p, k, secret. split; [done|]. split; [|done].
  split_and!; try done; [by apply (stored_digest _ _ _ Hdig Hbs)|].
  intros e He. rewrite He in Ee. by apply Z.leb_gt in Ee.
Qed.

Lemma authenticate_total r authorization now :
  registry_ok r -> NoDup (map fst (reg_principals r)) ->
  is_ok (authenticate (principal_resolver r) authorization now) = true.
Proof.
  intros Hok Hnd. unfold authenticate.
  destruct (_parse_token _) as [[kid secret]|] eqn:Ep; [|done].
  destruct (dict_get kid _) as [[pid k]|] eqn:Ei; [|done].
  apply (index_get r kid pid k Hok) in Ei as (p & Hp & Hk & ->). cbn [snd fst].
  destruct (key_pattern_of _ _ _ _ Hok Hp Hk) as [_ Hdig].
  destruct (digest_parses _ Hdig) as [bs Hbs]. rewrite Hbs. cbn.
  rewrite (dict_get_nodup _ _ _ Hnd Hp). by repeat (case_match; try done).
Qed.

(** A registry principal with a key is not a human one. *)
Lemma keyed_not_human r pid p k :
  registry_ok r -> (pid, p) ∈ reg_principals r -> k ∈ pr_keys p -> pr_source p <> "human".
Proof.
  intros Hok Hp Hk Hsrc. destruct (proj1 (andb_true_iff _ _) (rok_model r Hok)) as [Hm _].
  apply andb_true_iff in Hm as [_ Hm]. rewrite forallb_forall in Hm.
  specialize (Hm (pid, p) (proj1 (list_elem_of_In _ _) Hp)).
  apply andb_true_iff in Hm as [_ Hv]. simpl in Hv.
  unfold validate_credential_kind in Hv. rewrite decide_True in Hv by done.
  destruct (pr_keys p); [by apply not_elem_of_nil in Hk|done].
Qed.

(** ** Policies never contradict grants in a loaded registry *)

Lemma policy_allows_granted r pid p scope bank :
  registry_ok r -> (pid, p) ∈ reg_principals r -> grants_scope (pr_grants p) scope bank = true ->
  _policy_allows (principal_resolver r) pid (pr_source p) bank = true.
Proof.
  intros Hok Hp Hg. unfold _policy_allows. simpl.
  destruct (dict_get bank (reg_banks r)) as [config|] eqn:Eb; [|done]. simpl.
  destruct (access_policy config) as [policy|] eqn:Epol; [|done].
  pose proof (rok_policies r Hok _ _ _ _ (dict_get_elem _ _ _ Eb) Epol Hp) as Hc.
  unfold grant_conflicts in Hc. simpl in Hc.
  assert (Hex : existsb (fun g => bool_decide (pg_bank g = bank)) (pr_grants p) = true).
  { apply existsb_exists in Hg as (g & Hin & Hb). split_bool. apply existsb_exists.
    exists g. split; [done|]. by apply bool_decide_eq_true. }
  rewrite Hex in Hc. destruct (_is_control_plane _ _); [done|].
  by destruct (elem pid _).
Qed.

(** ** Properties *)

(** C16: authentication is exact. With a registry that loaded, authenticating
    never raises, and it succeeds exactly for the bearer [mr_<key id>_<secret>]
    of a registered key whose stored digest is the SHA-256 of the secret, which
    is neither revoked nor expired; the session is then that key's principal,
    which is never a human one. *)
Theorem authenticate_exact read path r authorization now :
  load_principal_registry read path = Ok r -> NoDup (map fst (reg_principals r)) ->
  is_ok (authenticate (principal_resolver r) authorization now) = true /\
  (forall s, authenticate (principal_resolver r) authorization now = Ok (AuthOk s) <->
     exists pid p k secret, authorization = Some (bearer_for (pk_id k) secret) /\
       holds_live_key r now pid p k secret /\ pr_source p <> "human" /\
       s = session_for r pid (pk_id k) p).
Proof.
  intros [_ Hok]%load_registry_ok Hnd. split; [by apply authenticate_total|].
  intros s. split.
  - intros (pid & p & k & secret & Ha & Hl & ->)%authenticate_sound; [|done|done].
    exists pid, p, k, secret. split_and!; try done.
    destruct Hl as (Hp & Hk & _). by eapply keyed_not_human.
  - intros (pid & p & k & secret & -> & Hl & _ & ->). by apply authenticate_complete.
Qed.

(** C18: for every session of a loaded registry, the three authorization
    answers agree: the check at request time ([authorize]), the recheck of a
    queued operation ([authorize_current]) and the bare grant. A bank policy
    can never silently narrow a grant, because loading refuses the conflict. *)
Theorem authorize_agrees read path r authorization now s scope bank :
  load_principal_registry read path = Ok r -> NoDup (map fst (reg_principals r)) ->
  authenticate (principal_resolver r) authorization now = Ok (AuthOk s) ->
  authorize (principal_resolver r) s scope bank = grants_scope (ps_grants s) scope bank /\
  authorize_current (principal_resolver r) (ps_principal_id s) scope bank
    = authorize (principal_resolver r) s scope bank.
Proof.
  intros [_ Hok]%load_registry_ok Hnd Ha.
  apply authenticate_sound in Ha as (pid & p & k & secret & -> & (Hp & _) & ->); [|done|done].
  unfold authorize, authorize_current, session_for. simpl.
  rewrite (dict_get_nodup _ _ _ Hnd Hp). split; [|done].
  destruct (grants_scope (pr_grants p) scope bank) eqn:Eg; [|done].
  by rewrite (policy_allows_granted _ _ _ scope).
Qed.

(** *** Effective limits *)

Definition limit_positive (l : ResolvedPrincipalLimit) : Prop :=
  1 <= rl_rate_limit_max l /\ 1 <= rl_rate_limit_window_ms l /\
  1 <= rl_concurrency_max l /\ 1 <= rl_max_body_bytes l.

Lemma int_or_positive x y : ge1 x = true -> 1 <= y -> 1 <= int_or x y.
Proof. unfold ge1, int_or. repeat case_match; intros; split_bool; lia. Qed.

Lemma merge_limit_positive base o :
  operation_limit_valid o = true -> limit_positive base -> limit_positive (_merge_limit base o).
Proof.
  destruct o as [o|]; [|done]. unfold operation_limit_valid. intros Hv (? & ? & ? & ?). split_bool.
  unfold limit_positive. simpl. split_and!; by apply int_or_positive.
Qed.

Lemma limits_valid_get l op : limits_valid l = true -> operation_limit_valid (limits_get l op) = true.
Proof.
  unfold limits_valid. rewrite forallb_forall. intros Hv. apply Hv. destruct op; simpl; tauto.
Qed.

Lemma principal_limits_valid r pid p :
  registry_ok r -> (pid, p) ∈ reg_principals r ->
  limits_valid (pr_limits p) = true /\ limits_valid (reg_defaults r) = true.
Proof.
  intros Hok Hp. destruct (proj1 (andb_true_iff _ _) (rok_model r Hok)) as [Hm Hd].
  split; [|done]. apply andb_true_iff in Hm as [_ Hm]. rewrite forallb_forall in Hm.
  specialize (Hm (pid, p) (proj1 (list_elem_of_In _ _) Hp)).
  unfold principal_valid in Hm. by split_bool.
Qed.

(** Every authenticated session carries a limit for every operation class,
    and each rate, window, concurrency and body bound is at least one: a
    registry can tighten or raise the built-in limits but never switch one off
    or make it zero. *)
Lemma session_limits_positive read path r authorization now s op :
  load_principal_registry read path = Ok r -> NoDup (map fst (reg_principals r)) ->
  authenticate (principal_resolver r) authorization now = Ok (AuthOk s) ->
  exists l, dict_get op (ps_limits s) = Some l /\ limit_positive l.
Proof.
  intros [_ Hok]%load_registry_ok Hnd Ha.
  apply authenticate_sound in Ha as (pid & p & k & secret & -> & (Hp & _) & ->); [|done|done].
  destruct (principal_limits_valid _ _ _ Hok Hp) as [Hl Hd].
  exists (_merge_limit (_merge_limit (_BUILTIN_LIMITS op) (limits_get (reg_defaults r) op))
            (limits_get (pr_limits p) op)).
  split; [by destruct op|].
  do 2 (apply merge_limit_positive; [by apply limits_valid_get|]).
  destruct op; vm_compute; by split_and!.
Qed.

(** *** Listing *)

Lemma banks_with_scope_elem self session scope bank :
  bank ∈ _banks_with_scope self session scope <-> authorize self session scope bank = true.
Proof.
  unfold authorize, grants_scope, _banks_with_scope.
  rewrite str_sort_elem, dict_fromkeys_spec.
  rewrite list_elem_of_In, List.in_map_iff, andb_true_iff, existsb_exists. split.
  - intros (g & <- & [Hin Hs]%List.filter_In). split_bool.
    split; [|done]. exists g. split; [done|]. split_bool; [by apply bool_decide_eq_true|done].
  - intros [(g & Hin & Hb) Hpol]. split_bool. subst. exists g. split; [done|].
    apply List.filter_In. by split; [|split_bool].
Qed.

(** A bank listing for a scope is the sorted, duplicate-free list of
    exactly the banks on which the session is authorized for that scope; the
    banks a task inherits are those of the request that pass the same check. *)
Lemma banks_with_scope_exact self session scope banks :
  let listed := _banks_with_scope self session scope in
  let inherited := inherited_banks self session banks scope in
  Sorted.Sorted (fun a b => str_le a b = true) listed /\ NoDup listed /\
  (forall bank, bank ∈ listed <-> authorize self session scope bank = true) /\
  Sorted.Sorted (fun a b => str_le a b = true) inherited /\ NoDup inherited /\
  (forall bank, bank ∈ inherited <-> bank ∈ banks /\ authorize self session scope bank = true).
Proof.
  cbn zeta. split_and!; try apply str_sort_sorted; try (unfold _banks_with_scope, inherited_banks; rewrite str_sort_perm; apply dict_fromkeys_nodup).
  - intros bank. apply banks_with_scope_elem.
  - intros bank. unfold inherited_banks.
    by rewrite str_sort_elem, dict_fromkeys_spec, !list_elem_of_In, List.filter_In.
Qed.

(** *** Scopes of routes *)

Definition write_scopes : list string :=
  [SCOPE_MEMORY_RETAIN; SCOPE_MEMORY_REFLECT; SCOPE_BANK_CONFIG_WRITE; SCOPE_BANK_ADMIN].

(** A route's scope is good: in the vocabulary, not a queue scope, and a
    mutating scope unless the route only reads (or previews). *)
Definition scope_fits (route : FacadeRoute) (scope : string) : bool :=
  elem scope SCOPE_VOCABULARY
  && negb (elem scope [SCOPE_QUARANTINE_REVIEW; SCOPE_QUARANTINE_DECIDE; SCOPE_BANK_LIST])
  && (fr_read route || elem scope write_scopes).

Lemma operation_read_scope_cases bool_of query s :
  _operation_read_scope bool_of query = Ok s -> s = SCOPE_MEMORY_RECALL \/ s = SCOPE_BANK_CONFIG_READ.
Proof. unfold _operation_read_scope. intros Hs. repeat case_match; simplify_eq; auto. Qed.

(** All routes but the operation lookup have a scope that no query changes. *)
Lemma facade_scopes_fit :
  forallb (fun r =>
    match facade_scope (fun _ => None) r [("include_payload", "x")] with
    | Ok s => scope_fits r s
    | Err _ => fr_read r && bool_decide (fr_template r = "operations/{operation_id}")
    end) FACADE_ROUTES = true.
Proof. vm_compute. reflexivity. Qed.

Lemma facade_scope_query bool_of r query s :
  facade_scope bool_of r query = Ok s ->
  facade_scope (fun _ => None) r [("include_payload", "x")] = Ok s \/
  (fr_read r = true /\ (s = SCOPE_MEMORY_RECALL \/ s = SCOPE_BANK_CONFIG_READ)).
Proof.
  unfold facade_scope. intros Hs. repeat (case_match; simplify_eq; try (by left)).
  right. split_bool. split; [done|]. by eapply operation_read_scope_cases.
Qed.

(** On every route of the table, whatever the query and the boolean
    parser, the required scope is one of the vocabulary and not a queue scope,
    and a route that is not read-only always requires a mutating scope:
    retain, reflect, config write or bank administration. *)
Lemma facade_scope_fits bool_of r query s :
  r ∈ FACADE_ROUTES -> facade_scope bool_of r query = Ok s -> scope_fits r s = true.
Proof.
  intros Hr Hs. apply facade_scope_query in Hs as [Hs|[Hread Hs]].
  - pose proof facade_scopes_fit as Hall. rewrite forallb_forall in Hall.
    specialize (Hall r (proj1 (list_elem_of_In _ _) Hr)). by rewrite Hs in Hall.
  - unfold scope_fits. rewrite Hread. by destruct Hs as [-> | ->].
Qed.

(** ** Concrete instances *)

Module Example_registry.
Definition secret : string := "00112233445566778899aabbccddeeff00112233445566778899aabbccddeeff".
Definition key : PrincipalKey :=
  Eval vm_compute in
  mkPrincipalKey "ci.2024" (sha256_hex secret) (mkDatetime 1000 true) (Some (mkDatetime 9000 true)) None.
Definition no_limits : PrincipalLimits := mkPrincipalLimits None None None None None.
Definition agent : Principal :=
  mkPrincipal [key]
    [mkPrincipalGrant "team" [SCOPE_MEMORY_RECALL; SCOPE_QUARANTINE_REVIEW];
     mkPrincipalGrant "ops" [SCOPE_BANK_LIST]]
    (mkPrincipalLimits (Some (mkPrincipalOperationLimit (Some 5) None (Some 1) None)) None None None None)
    "application".
Definition registry : PrincipalRegistry :=
  mkPrincipalRegistry [("agent:one", agent)] no_limits
    [("team", mkBankConfiguration (Some (mkBankAccessPolicy ["agent:one"])))].
Definition reader (path : string) : option (option PrincipalRegistry) := Some (Some registry).

Lemma loads : load_principal_registry reader "principals.json" = Ok registry.
Proof. vm_compute. reflexivity. Qed.

Lemma distinct : NoDup (map fst (reg_principals registry)).
Proof. apply NoDup_singleton. Qed.

Definition session : PrincipalSession := session_for registry "agent:one" "ci.2024" agent.

Lemma signs_in :
  authenticate (principal_resolver registry) (Some (bearer_for "ci.2024" secret)) 5000 = Ok (AuthOk session).
Proof. vm_compute. reflexivity. Qed.
End Example_registry.

Lemma authenticate_exact_witness :
  authenticate (principal_resolver Example_registry.registry)
    (Some (bearer_for "ci.2024" Example_registry.secret)) 5000 = Ok (AuthOk Example_registry.session).
Proof.
  apply (proj2 (authenticate_exact _ _ _ (Some (bearer_for "ci.2024" Example_registry.secret)) 5000
    Example_registry.loads Example_registry.distinct)).
  exists "agent:one", Example_registry.agent, Example_registry.key, Example_registry.secret.
  split; [done|]. split; [|done]. split_and!; try (vm_compute; reflexivity); try by left.
  intros e [= <-]. done.
Defined.

Lemma authorize_agrees_witness :
  authorize (principal_resolver Example_registry.registry) Example_registry.session
    SCOPE_MEMORY_RECALL "team" = true.
Proof.
  rewrite (proj1 (authorize_agrees _ _ _ _ _ _ SCOPE_MEMORY_RECALL "team"
    Example_registry.loads Example_registry.distinct Example_registry.signs_in)).
  vm_compute. reflexivity.
Defined.

Lemma session_limits_positive_witness :
  exists l, dict_get OpRecall (ps_limits Example_registry.session) = Some l /\ limit_positive l.
Proof.
  exact (session_limits_positive _ _ _ _ _ _ OpRecall
    Example_registry.loads Example_registry.distinct Example_registry.signs_in).
Defined.

Lemma facade_scope_fits_witness :
  exists r, r ∈ FACADE_ROUTES /\ scope_fits r SCOPE_MEMORY_RECALL = true.
Proof.
  destruct (facade_route "GET" "operations/{operation_id}") as [r|] eqn:E; [|by vm_compute in E].
  exists r. assert (Hr : r ∈ FACADE_ROUTES) by (apply List.find_some in E as [? _]; by apply list_elem_of_In).
  split; [done|]. vm_compute in E. injection E as <-.
  refine (facade_scope_fits (fun v => if decide (v = "true") then Some true else None) _
    [("include_payload", "true")] _ Hr _). vm_compute. reflexivity.
Defined.
