(* ===== verification/PrincipalGate.v ===== *)
(** * The principal-mode gate

    Models [memory_router/principal_gate.py]: authentication with the claimed
    agent check, the grant requirement, and the metadata-only admin surface a
    principal may reach. Logging has no effect on control flow and is left
    out; the failure callbacks ([on_failure], the auditor's [persist]), the
    rate charge and the two admin queries are parameters over an arbitrary
    state. *)

From Stdlib Require Import ZArith Lia.
From stdpp Require Import base sets strings numbers list.
From S2P Require Import Prelude Errors Text Principals.

Section gate.
Context {S : Type}.
Context (resolver : PrincipalResolver) (human : option (string -> result Authentication)) (now : Z).
Context (on_failure : eff S unit) (persist : string -> string -> eff S unit).

Definition authenticate_principal (authorization claimed : option string) (route_class : string)
    : eff S (option PrincipalSession) :=
  res ← lift (authenticate_request resolver human authorization now);
  match res with
  | AuthOk session =>
      if match claimed with Some c => negb (bool_decide (c = ps_principal_id session)) | None => false end
      then
        _ ← on_failure;
        _ ← persist "router" route_class;
        raise (raise_http 403 "agent_claim_mismatch"
                 "claimed agent does not match the authenticated principal")
      else mret (Some session)
  | _ =>
      _ ← on_failure;
      _ ← persist "router" route_class;
      mret None
  end.

Definition require_grant (session : PrincipalSession) (scope bank : string) : eff S unit :=
  lift (ensure (authorize resolver session scope bank)
          (raise_http 403 "authorization_denied" "principal lacks the required grant")).

(** [_PRINCIPAL_ADMIN_METADATA_PATHS] *)
Definition _PRINCIPAL_ADMIN_METADATA_PATHS : list string :=
  ["/admin/quarantine/queue"; "/admin/quarantine/stats"].

Definition principal_token_present (authorization : option string) : bool :=
  match authorization with
  | Some a => starts_with ("Bearer " +:+ TOKEN_PREFIX)%string a
  | None => false
  end.

Context {Resp : Type} (unauthorized : Resp).
Context (principal_rate : PrincipalSession -> string -> string -> eff S unit).
Context (bank_stats queue_response : list string -> eff S Resp).

(** [principal_admin_metadata_response]; [bank_id] is the query parameter. *)
Definition principal_admin_metadata_response (authorization claimed bank_id : option string)
    (pathname method : string) : eff S Resp :=
  let route_class := "admin" in
  principal ← authenticate_principal authorization claimed route_class;
  match principal with
  | None => mret unauthorized
  | Some principal =>
      if negb (bool_decide (method = "GET")) || negb (elem pathname _PRINCIPAL_ADMIN_METADATA_PATHS)
      then mret unauthorized
      else
        let banks := quarantine_review_banks resolver principal in
        scoped ← match bank_id with
                 | Some b =>
                     _ ← require_grant principal SCOPE_QUARANTINE_REVIEW b;
                     mret [b]
                 | None =>
                     _ ← (if nonempty_list banks then mret ()
                          else require_grant principal SCOPE_QUARANTINE_REVIEW "-");
                     mret banks
                 end;
        _ ← principal_rate principal SCOPE_QUARANTINE_REVIEW route_class;
        if decide (pathname = "/admin/quarantine/stats") then bank_stats scoped
        else queue_response scoped
  end.

(** ** Lemmas *)

Lemma authenticate_principal_ok authorization claimed rc s p s' :
  authenticate_principal authorization claimed rc s = (Ok (Some p), s') ->
  s' = s /\ authenticate_request resolver human authorization now = Ok (AuthOk p) /\
  (forall c, claimed = Some c -> c = ps_principal_id p).
Proof.
  unfold authenticate_principal. intros Ha. apply bind_ok_inv in Ha as (res & s1 & Hr & Ha).
  apply lift_ok in Hr as [Hr ->].
  destruct res; try (by eff_inv). case_match eqn:Ec; eff_inv.
  split_and!; [done|done|]. intros c ->. by split_bool.
Qed.

Lemma require_grant_ok p scope bank s u s' :
  require_grant p scope bank s = (Ok u, s') -> s' = s /\ authorize resolver p scope bank = true.
Proof. unfold require_grant. intros Hg. by eff_inv. Qed.

(** ** Properties *)

(** The admin metadata surface never leaves the principal's review grants.
    A successful response is either the 401 body or the result of exactly one
    admin query, run after the rate charge, on a non-empty list of banks each
    of which the authenticated principal may review; with a bank parameter the
    list is that bank alone, and without one it is every reviewable bank. The
    claimed-agent header, when present, names that principal. *)
Lemma admin_metadata_scoped authorization claimed bank_id pathname method s resp s' :
  principal_admin_metadata_response authorization claimed bank_id pathname method s = (Ok resp, s') ->
  resp = unauthorized \/
  exists p scoped s1 u,
    authenticate_request resolver human authorization now = Ok (AuthOk p) /\
    (forall c, claimed = Some c -> c = ps_principal_id p) /\
    method = "GET" /\ pathname ∈ _PRINCIPAL_ADMIN_METADATA_PATHS /\
    scoped <> [] /\
    (forall bank, bank ∈ scoped -> authorize resolver p SCOPE_QUARANTINE_REVIEW bank = true) /\
    scoped = match bank_id with Some b => [b] | None => quarantine_review_banks resolver p end /\
    principal_rate p SCOPE_QUARANTINE_REVIEW "admin" s = (Ok u, s1) /\
    (if decide (pathname = "/admin/quarantine/stats") then bank_stats scoped s1
     else queue_response scoped s1) = (Ok resp, s').
Proof.
  unfold principal_admin_metadata_response. intros Hm.
  apply bind_ok_inv in Hm as ([p|] & s1 & Ha & Hm); [|left; by eff_inv].
  apply authenticate_principal_ok in Ha as (-> & Hauth & Hclaim).
  destruct (_ || _) eqn:Eg; [left; by eff_inv|]. split_bool. right.
  apply bind_ok_inv in Hm as (scoped & s2 & Hsc & Hm).
  apply bind_ok_inv in Hm as (u & s3 & Hrate & Hm).
  assert (s2 = s /\ scoped <> [] /\
    (forall bank, bank ∈ scoped -> authorize resolver p SCOPE_QUARANTINE_REVIEW bank = true) /\
    scoped = match bank_id with Some b => [b] | None => quarantine_review_banks resolver p end)
    as (-> & Hne & Hauthz & Heq).
  { destruct bank_id as [b|].
    - apply bind_ok_inv in Hsc as (? & ? & Hg & Hsc). apply require_grant_ok in Hg as [-> Hg].
      eff_inv. split_and!; try done. by intros bank ->%list_elem_of_singleton.
    - apply bind_ok_inv in Hsc as (? & ? & Hg & Hsc). eff_inv.
      destruct (nonempty_list _) eqn:En.
      + eff_inv. split_and!; try done; [intros Hnil; by rewrite Hnil in En|].
        intros bank. apply banks_with_scope_elem.
      + apply require_grant_ok in Hg as [-> Hg]. apply banks_with_scope_elem in Hg.
        unfold quarantine_review_banks in *.
        destruct (_banks_with_scope resolver p _); [by apply not_elem_of_nil in Hg|done]. }
  exists p, scoped, s3, u. rewrite <- elem_true. split_and!; try done.
  by destruct (decide (pathname = "/admin/quarantine/stats")%string).
Qed.
End gate.

Lemma admin_metadata_scoped_witness :
  exists p, authenticate_request (principal_resolver Example_registry.registry) None
              (Some (bearer_for "ci.2024" Example_registry.secret)) 5000 = Ok (AuthOk p) /\
            quarantine_review_banks (principal_resolver Example_registry.registry) p = ["team"].
Proof.
  destruct (admin_metadata_scoped (S := list string)
    (principal_resolver Example_registry.registry) None 5000 (mret ()) (fun _ _ => mret ()) "401"
    (fun _ sc _ s => (Ok (), sc :: s)) (fun banks s => (Ok (str_join "," banks), "stats" :: s))
    (fun banks s => (Ok (str_join "," banks), "queue" :: s))
    (Some (bearer_for "ci.2024" Example_registry.secret)) (Some "agent:one") None
    "/admin/quarantine/stats" "GET" [] "team" ["stats"; SCOPE_QUARANTINE_REVIEW])
    as [Hbad|(p & scoped & s1 & u & Ha & _ & _ & _ & _ & _ & -> & _ & Hend)];
    [vm_compute; reflexivity|done|].
  exists p. split; [exact Ha|]. vm_compute in Ha. injection Ha as <-. vm_compute. reflexivity.
Defined.
