(* ===== verification/RateLimit.v ===== *)
(** * Rate limiting: specification and the in-memory limiter

    Models the first half of [memory_router/rate_limit.py]. The abstract
    specification is a log of admissions per bucket key; a call is admitted
    when every active bucket still has room in its sliding window, and then
    charges each of them. [SlidingWindow] is the interface a limiter offers to
    its clients: it simulates that specification. [InMemoryRateLimiter] is
    modelled with its deques, windows, periodic sweep and distinct-identity
    sets, and is shown to implement the interface; the PostgreSQL limiter is
    in [PostgresRateLimit.v]. *)

From Stdlib Require Import ZArith Lia.
From stdpp Require Import base sets strings numbers list.
From S2P Require Import Prelude Errors Text.

Local Open Scope Z_scope.

Record Bucket := mkBucket { b_key : string; b_maximum : Z; b_window_ms : Z }.
Record Distinct := mkDistinct { d_scope : string; d_identity : string; d_maximum : Z; d_window_ms : Z }.

Definition _SWEEP_EVERY : Z := 128.

Definition rate_limited : exn :=
  raise_http 429 "quarantine_rate_limited" "too many quarantine writes".

(** A bucket counts only with a positive maximum and window. *)
Definition active (b : Bucket) : bool := negb ((b_maximum b <=? 0) || (b_window_ms b <=? 0)).
Definition d_active (d : Distinct) : bool := negb ((d_maximum d <=? 0) || (d_window_ms d <=? 0)).

(** ** The abstract limiter *)

(** Admission times per key, oldest first. *)
Definition admission_log : Type := string -> list Z.

Definition in_window (log : admission_log) (b : Bucket) (now : Z) : Z :=
  count_where (fun t => now - b_window_ms b <? t) (log (b_key b)).

Definition has_room (log : admission_log) (now : Z) (b : Bucket) : bool :=
  negb (active b) || (in_window log b now <? b_maximum b).

Definition active_keys (buckets : list Bucket) : list string := map b_key (List.filter active buckets).

Definition charge (log : admission_log) (keys : list string) (now : Z) : admission_log :=
  fun k => log k ++ replicate (length (List.filter (fun x => bool_decide (x = k)) keys)) now.

Definition spec_consume (log : admission_log) (buckets : list Bucket) (now : Z) : option admission_log :=
  if forallb (has_room log now) buckets then Some (charge log (active_keys buckets) now) else None.

(** ** The interface *)

(** All admissions happened by [last], in order. *)
Definition log_ok (last : Z) (log : admission_log) : Prop :=
  forall k, Sorted.StronglySorted Z.le (log k) /\ Forall (fun t => t <= last) (log k).

(** The buckets of a call use the window their key is registered with. *)
Definition windows_agree (window : string -> Z) (buckets : list Bucket) : Prop :=
  forall b, b ∈ buckets -> active b = true -> b_window_ms b = window (b_key b).

(** What a limiter with state [S] promises: a relation [sim] to an admission
    log, kept by every call at a time not before the last one, where the call
    succeeds exactly when the specification admits it. *)
Class SlidingWindow {S : Type} (consume : list Bucket -> Z -> eff S unit) (init : S) := {
  sim : (string -> Z) -> Z -> S -> admission_log -> Prop;
  sim_init : forall window last, sim window last init (fun _ => []);
  sim_log_ok : forall window last s log, sim window last s log -> log_ok last log;
  sim_step : forall window last s log buckets now,
    sim window last s log -> last <= now -> windows_agree window buckets ->
    NoDup (active_keys buckets) ->
    match consume buckets now s, spec_consume log buckets now with
    | (Ok _, s'), Some log' => sim window now s' log'
    | (Err e, s'), None => e = rate_limited /\ sim window now s' log
    | _, _ => False
    end
}.

(** A sequence of calls and the admissions it led to. *)
Fixpoint run_calls {S} (consume : list Bucket -> Z -> eff S unit) (calls : list (list Bucket * Z))
    (s : S) (log : admission_log) : S * admission_log :=
  match calls with
  | [] => (s, log)
  | (buckets, now) :: calls' =>
      match consume buckets now s with
      | (Ok _, s') => run_calls consume calls' s' (charge log (active_keys buckets) now)
      | (Err _, s') => run_calls consume calls' s' log
      end
  end.

(** Calls at non-decreasing times, each key with one maximum and window. *)
Fixpoint calls_ok (maximum window : string -> Z) (last : Z) (calls : list (list Bucket * Z)) : Prop :=
  match calls with
  | [] => True
  | (buckets, now) :: calls' =>
      last <= now /\ NoDup (active_keys buckets) /\
      (forall b, b ∈ buckets -> active b = true ->
         b_window_ms b = window (b_key b) /\ b_maximum b = maximum (b_key b)) /\
      calls_ok maximum window now calls'
  end.

(** At most [maximum] admissions in any window ending at any [t]. *)
Definition window_bounded (maximum window : string -> Z) (log : admission_log) : Prop :=
  forall k t, log k <> [] -> count_where (fun x => (t - window k <? x) && (x <=? t)) (log k) <= maximum k.

(** ** The in-memory limiter *)

Record InMemoryRateLimiter := mkInMemoryRateLimiter {
  im_events : list (string * list Z);
  im_event_windows : list (string * Z);
  im_distinct : list (string * list (string * Z));
  im_distinct_windows : list (string * Z);
  im_consume_count : Z
}.

(** [InMemoryRateLimiter.__init__] *)
Definition in_memory_rate_limiter : InMemoryRateLimiter := mkInMemoryRateLimiter [] [] [] [] 0.

Definition with_events (ev : list (string * list Z)) (s : InMemoryRateLimiter) : InMemoryRateLimiter :=
  mkInMemoryRateLimiter ev (im_event_windows s) (im_distinct s) (im_distinct_windows s) (im_consume_count s).
Definition with_event_windows (ew : list (string * Z)) (s : InMemoryRateLimiter) : InMemoryRateLimiter :=
  mkInMemoryRateLimiter (im_events s) ew (im_distinct s) (im_distinct_windows s) (im_consume_count s).
Definition with_distinct (d : list (string * list (string * Z))) (s : InMemoryRateLimiter) : InMemoryRateLimiter :=
  mkInMemoryRateLimiter (im_events s) (im_event_windows s) d (im_distinct_windows s) (im_consume_count s).
Definition with_distinct_windows (dw : list (string * Z)) (s : InMemoryRateLimiter) : InMemoryRateLimiter :=
  mkInMemoryRateLimiter (im_events s) (im_event_windows s) (im_distinct s) dw (im_consume_count s).
Definition with_consume_count (n : Z) (s : InMemoryRateLimiter) : InMemoryRateLimiter :=
  mkInMemoryRateLimiter (im_events s) (im_event_windows s) (im_distinct s) (im_distinct_windows s) n.

(** [while queue and queue[0] <= cutoff: queue.popleft()] *)
Fixpoint popleft_expired (cutoff : Z) (queue : list Z) : list Z :=
  match queue with
  | t :: queue' => if t <=? cutoff then popleft_expired cutoff queue' else queue
  | [] => []
  end.

(** [self.events[key]] of a defaultdict. *)
Definition queue_of (events : list (string * list Z)) (key : string) : list Z :=
  default [] (dict_get key events).

Fixpoint _live_buckets (buckets : list Bucket) (now : Z) : eff InMemoryRateLimiter (list string) :=
  match buckets with
  | [] => mret []
  | b :: buckets' =>
      if negb (active b) then _live_buckets buckets' now
      else
        _ ← modify (fun s => with_event_windows (dict_set (b_key b) (b_window_ms b) (im_event_windows s)) s);
        s ← get_state;
        let queue := popleft_expired (now - b_window_ms b) (queue_of (im_events s) (b_key b)) in
        _ ← modify (fun s => with_events (dict_set (b_key b) queue (im_events s)) s);
        if b_maximum b <=? Z.of_nat (length queue) then raise rate_limited
        else
          live ← _live_buckets buckets' now;
          mret (b_key b :: live)
  end.

(** [additions[scope].add(identity)] on a defaultdict of sets. *)
Definition add_identity (scope identity : string) (additions : list (string * list string))
    : list (string * list string) :=
  let current := default [] (dict_get scope additions) in
  if elem identity current then dict_set scope current additions
  else dict_set scope (current ++ [identity]) additions.

Definition live_identities (cutoff : Z) (values : list (string * Z)) : list (string * Z) :=
  List.filter (fun it => negb (it.2 <=? cutoff)) values.

Fixpoint _distinct_additions (identities : list Distinct) (now : Z)
    (additions : list (string * list string)) : eff InMemoryRateLimiter (list (string * list string)) :=
  match identities with
  | [] => mret additions
  | d :: identities' =>
      if negb (d_active d) then _distinct_additions identities' now additions
      else
        _ ← modify (fun s => with_distinct_windows (dict_set (d_scope d) (d_window_ms d) (im_distinct_windows s)) s);
        s ← get_state;
        let current := live_identities (now - d_window_ms d) (default [] (dict_get (d_scope d) (im_distinct s))) in
        _ ← modify (fun s => with_distinct (dict_set (d_scope d) current (im_distinct s)) s);
        _distinct_additions identities' now
          (if bool_decide (dict_get (d_identity d) current = None)
           then add_identity (d_scope d) (d_identity d) additions else additions)
  end.

(** The loop that compares the known identities and the additions with the maximum. *)
Fixpoint check_identities (identities : list Distinct) (additions : list (string * list string))
    : eff InMemoryRateLimiter unit :=
  match identities with
  | [] => mret ()
  | d :: identities' =>
      if 0 <? d_maximum d then
        s ← get_state;
        let current := default [] (dict_get (d_scope d) (im_distinct s)) in
        _ ← modify (fun s => with_distinct (dict_set (d_scope d) current (im_distinct s)) s);
        let added := default [] (dict_get (d_scope d) additions) in
        if d_maximum d <? Z.of_nat (length current) + Z.of_nat (length added) then raise rate_limited
        else check_identities identities' additions
      else check_identities identities' additions
  end.

Definition drop_empty_keys {V} (windows : list (string * Z)) (d : list (string * list V)) : list (string * Z) :=
  fold_left (fun w kv => match kv.2 with [] => dict_pop kv.1 w | _ => w end) d windows.

Definition _drop_empty (s : InMemoryRateLimiter) : InMemoryRateLimiter :=
  let nonempty {V} (kv : string * list V) := match kv.2 with [] => false | _ => true end in
  mkInMemoryRateLimiter
    (List.filter nonempty (im_events s)) (drop_empty_keys (im_event_windows s) (im_events s))
    (List.filter nonempty (im_distinct s)) (drop_empty_keys (im_distinct_windows s) (im_distinct s))
    (im_consume_count s).

Definition _sweep_stale (now : Z) (s : InMemoryRateLimiter) : InMemoryRateLimiter :=
  let ev := map (fun kq => match dict_get kq.1 (im_event_windows s) with
                           | None => kq
                           | Some window => (kq.1, popleft_expired (now - window) kq.2)
                           end) (im_events s) in
  let di := map (fun kv => match dict_get kv.1 (im_distinct_windows s) with
                           | None => kv
                           | Some window => (kv.1, live_identities (now - window) kv.2)
                           end) (im_distinct s) in
  _drop_empty (with_distinct di (with_events ev s)).

Definition append_events (live : list string) (now : Z) (s : InMemoryRateLimiter) : InMemoryRateLimiter :=
  with_events (fold_left (fun ev k => dict_set k (queue_of ev k ++ [now]) ev) live (im_events s)) s.

Definition record_identities (identities : list Distinct) (now : Z) (s : InMemoryRateLimiter) : InMemoryRateLimiter :=
  with_distinct
    (fold_left (fun di d =>
       if d_active d then
         dict_set (d_scope d) (dict_set (d_identity d) now (default [] (dict_get (d_scope d) di))) di
       else di) identities (im_distinct s)) s.

(** [InMemoryRateLimiter.consume_many_distinct] at time [now]. *)
Definition consume_many_distinct (buckets : list Bucket) (identities : list Distinct) (now : Z)
    : eff InMemoryRateLimiter unit :=
  _ ← modify (fun s => with_consume_count (im_consume_count s + 1) s);
  s ← get_state;
  _ ← (if im_consume_count s mod _SWEEP_EVERY =? 0 then modify (_sweep_stale now) else mret ());
  live ← _live_buckets buckets now;
  additions ← _distinct_additions identities now [];
  _ ← check_identities identities additions;
  _ ← modify (append_events live now);
  _ ← modify (record_identities identities now);
  modify _drop_empty.

(** [InMemoryRateLimiter.consume_many] *)
Definition consume_many (buckets : list Bucket) (now : Z) : eff InMemoryRateLimiter unit :=
  consume_many_distinct buckets [] now.

(** ** Lemmas on logs and queues *)

Definition after (c : Z) (l : list Z) : list Z := List.filter (fun t => c <? t) l.

Lemma after_app c l1 l2 : after c (l1 ++ l2) = after c l1 ++ after c l2.
Proof. apply List.filter_app. Qed.

Lemma after_after c c' l : after c' (after c l) = after (Z.max c c') l.
Proof.
  unfold after. induction l as [|t l IH]; simpl; [done|].
  destruct (c <? t) eqn:E1, (Z.max c c' <? t) eqn:E2; simpl; rewrite ?IH; split_bool;
    destruct (c' <? t) eqn:E3; split_bool; try done; lia.
Qed.

Lemma after_replicate c n now : c < now -> after c (replicate n now) = replicate n now.
Proof.
  intros Hc. unfold after. induction n as [|n IH]; simpl; [done|].
  by rewrite (proj2 (Z.ltb_lt c now)), IH by lia.
Qed.

Lemma after_sorted c l : Sorted.StronglySorted Z.le l -> Sorted.StronglySorted Z.le (after c l).
Proof.
  unfold after. induction 1 as [|t l Hs IH Hf]; simpl; [constructor|].
  case_match; [|done]. constructor; [done|].
  rewrite list.Forall_forall in *. intros x Hx. apply Hf.
  apply list_elem_of_In, List.filter_In in Hx as [Hx _]. by apply list_elem_of_In.
Qed.

Lemma popleft_after c l : Sorted.StronglySorted Z.le l -> popleft_expired c l = after c l.
Proof.
  unfold after. induction 1 as [|t l Hs IH Hf]; simpl; [done|].
  destruct (t <=? c) eqn:E; split_bool.
  - rewrite (proj2 (Z.ltb_ge c t)) by lia. done.
  - rewrite (proj2 (Z.ltb_lt c t)) by lia. f_equal. symmetry.
    rewrite list.Forall_forall in Hf. clear IH Hs.
    induction l as [|x l IHl]; simpl; [done|].
    assert (t <= x) by (apply Hf; by left). rewrite (proj2 (Z.ltb_lt c x)) by lia. f_equal.
    apply IHl. intros y Hy. apply Hf. by right.
Qed.

Lemma count_after c l : count_where (fun t => c <? t) l = Z.of_nat (length (after c l)).
Proof. done. Qed.

Lemma sorted_snoc l n now :
  Sorted.StronglySorted Z.le l -> Forall (fun t => t <= now) l ->
  Sorted.StronglySorted Z.le (l ++ replicate n now).
Proof.
  intros Hs. induction Hs as [|t l Hs IH Hf]; intros Hle; simpl.
  - induction n as [|n IHn]; simpl; constructor; [done|]. apply Forall_replicate. lia.
  - apply Forall_cons_1 in Hle as [Ht Hle]. constructor; [by apply IH|].
    apply Forall_app. split; [done|]. by apply Forall_replicate.
Qed.

Lemma log_ok_charge now log keys : log_ok now log -> log_ok now (charge log keys now).
Proof.
  intros Hl k. destruct (Hl k) as [Hs Hf]. unfold charge. split; [by apply sorted_snoc|].
  apply Forall_app. split; [done|]. apply Forall_replicate. lia.
Qed.

Lemma log_ok_later last now log : last <= now -> log_ok last log -> log_ok now log.
Proof.
  intros Hle Hl k. destruct (Hl k) as [Hs Hf]. split; [done|].
  eapply Forall_impl; [exact Hf|]. intros; simpl in *; lia.
Qed.

Lemma occurrences_nodup (keys : list string) k :
  NoDup keys ->
  length (List.filter (fun x => bool_decide (x = k)) keys) = if bool_decide (k ∈ keys) then 1%nat else 0%nat.
Proof.
  induction 1 as [|x keys Hx Hnd IH]; simpl; [done|].
  destruct (decide (x = k)) as [->|Hne].
  - rewrite bool_decide_true by done. simpl. rewrite IH, bool_decide_false by done.
    by rewrite bool_decide_true by left.
  - rewrite bool_decide_false by done. rewrite IH. apply f_equal with (f := fun b : bool => if b then 1%nat else 0%nat).
    apply bool_decide_ext. rewrite elem_of_cons. naive_solver.
Qed.

Lemma active_keys_elem buckets k :
  k ∈ active_keys buckets <-> exists b, b ∈ buckets /\ active b = true /\ b_key b = k.
Proof.
  unfold active_keys. rewrite list_elem_of_In, List.in_map_iff.
  split; intros (b & H1 & H2); exists b; rewrite ?List.filter_In, ?list_elem_of_In in *; naive_solver.
Qed.

Lemma active_window b : active b = true -> 0 < b_window_ms b /\ 0 < b_maximum b.
Proof. unfold active. intros Ha. split_bool. lia. Qed.

(** ** The sliding-window bound, against the interface *)

Lemma count_window_snoc k t (window maximum : string -> Z) log now :
  Forall (fun x => x <= now) (log k) -> 0 < window k ->
  count_where (fun x => now - window k <? x) (log k) < maximum k ->
  count_where (fun x => (t - window k <? x) && (x <=? t)) (log k) <= maximum k ->
  count_where (fun x => (t - window k <? x) && (x <=? t)) (log k ++ [now]) <= maximum k.
Proof.
  intros Hf Hw Hroom Hold. rewrite count_where_app, count_where_cons.
  change (count_where _ []) with 0. destruct ((t - window k <? now) && (now <=? t)) eqn:E; [|lia].
  split_bool.
  enough (count_where (fun x => (t - window k <? x) && (x <=? t)) (log k)
          <= count_where (fun x => now - window k <? x) (log k)) by lia.
  apply count_where_le. intros x Hx Hin. split_bool.
  rewrite list.Forall_forall in Hf. apply Z.ltb_lt. specialize (Hf _ Hx). lia.
Qed.

Lemma charge_bounded maximum window buckets now log :
  window_bounded maximum window log -> log_ok now log ->
  NoDup (active_keys buckets) ->
  (forall b, b ∈ buckets -> active b = true ->
     b_window_ms b = window (b_key b) /\ b_maximum b = maximum (b_key b)) ->
  forallb (has_room log now) buckets = true ->
  window_bounded maximum window (charge log (active_keys buckets) now).
Proof.
  intros Hb Hok Hnd Hag Hroom k t Hne. unfold charge in *. rewrite occurrences_nodup in * by done.
  case_bool_decide as Hk; simpl in *; [|rewrite app_nil_r in *; by apply Hb].
  apply active_keys_elem in Hk as (b & Hin & Hact & <-).
  destruct (Hag b Hin Hact) as [Ew Em]. destruct (active_window b Hact).
  rewrite forallb_forall in Hroom. specialize (Hroom b (proj1 (list_elem_of_In _ _) Hin)).
  unfold has_room, in_window in Hroom. rewrite Hact, Ew, Em in Hroom. simpl in Hroom. apply Z.ltb_lt in Hroom.
  apply (count_window_snoc (b_key b)); [apply Hok|lia|done|].
  destruct (decide (log (b_key b) = [])) as [->|Hn]; [|by apply Hb].
  unfold count_where. simpl. lia.
Qed.

Section bound.
Context {S : Type} (consume : list Bucket -> Z -> eff S unit) (init : S) `{!SlidingWindow consume init}.

Lemma run_calls_bounded maximum window calls last s log :
  sim window last s log -> window_bounded maximum window log -> calls_ok maximum window last calls ->
  window_bounded maximum window (run_calls consume calls s log).2.
Proof.
  revert last s log. induction calls as [|[buckets now] calls IH]; intros last s log Hsim Hb Hc; simpl; [done|].
  destruct Hc as (Hle & Hnd & Hag & Hc).
  assert (Hagw : windows_agree window buckets) by (intros b Hin Hact; by apply Hag).
  pose proof (sim_step window last s log buckets now Hsim Hle Hagw Hnd) as Hstep.
  pose proof (sim_log_ok _ _ _ _ Hsim) as Hlog. unfold spec_consume in Hstep.
  destruct (consume buckets now s) as [[u|e] s'], (forallb _ buckets) eqn:E; try done.
  - apply (IH now); [done| |done]. apply charge_bounded; try done. by eapply log_ok_later.
  - destruct Hstep as [_ Hstep]. by apply (IH now).
Qed.
End bound.

(** Two limiters with this interface admit the same calls. *)
Lemma runs_agree {S1 S2} (c1 : list Bucket -> Z -> eff S1 unit) (i1 : S1) (c2 : list Bucket -> Z -> eff S2 unit)
    (i2 : S2) `{!SlidingWindow c1 i1} `{!SlidingWindow c2 i2} maximum window calls last s1 s2 log :
  sim (consume := c1) (init := i1) window last s1 log ->
  sim (consume := c2) (init := i2) window last s2 log ->
  calls_ok maximum window last calls ->
  (run_calls c1 calls s1 log).2 = (run_calls c2 calls s2 log).2.
Proof.
  revert last s1 s2 log. induction calls as [|[buckets now] calls IH]; intros last s1 s2 log H1 H2 Hc; simpl; [done|].
  destruct Hc as (Hle & Hnd & Hag & Hc).
  assert (Hagw : windows_agree window buckets) by (intros b Hin Hact; by apply Hag).
  pose proof (sim_step window last s1 log buckets now H1 Hle Hagw Hnd) as Hst1.
  pose proof (sim_step window last s2 log buckets now H2 Hle Hagw Hnd) as Hst2.
  unfold spec_consume in *.
  destruct (c1 buckets now s1) as [[|] ?], (c2 buckets now s2) as [[|] ?], (forallb _ buckets); try done.
  - by apply (IH now).
  - destruct Hst1, Hst2. by apply (IH now).
Qed.

(** ** The in-memory limiter simulates the specification *)

(** The queue of a key is the part of its log after some cutoff that is
    already outside the window. *)
Definition im_sim (window : string -> Z) (last : Z) (s : InMemoryRateLimiter) (log : admission_log) : Prop :=
  log_ok last log /\ NoDup (map fst (im_events s)) /\
  (forall k w, dict_get k (im_event_windows s) = Some w -> w = window k) /\
  (forall k, exists c, c <= last - window k /\ queue_of (im_events s) k = after c (log k)).

Lemma im_sim_later window last now s log : last <= now -> im_sim window last s log -> im_sim window now s log.
Proof.
  intros Hle (Hl & Hnd & Hw & Hq). split_and!; [by eapply log_ok_later|done|done|].
  intros k. destruct (Hq k) as (c & Hc & E). exists c. split; [lia|done].
Qed.

Lemma queue_of_set k k' q ev :
  queue_of (dict_set k' q ev) k = if decide (k = k') then q else queue_of ev k.
Proof. unfold queue_of. rewrite dict_get_set. by case_decide. Qed.

(** Expiring a queue at [now] leaves exactly the admissions in the window. *)
Lemma expire_queue window now log k c q :
  log_ok now log -> q = after c (log k) -> c <= now - window k ->
  popleft_expired (now - window k) q = after (now - window k) (log k).
Proof.
  intros Hl -> Hc. rewrite popleft_after by (apply after_sorted, Hl).
  rewrite after_after. f_equal. lia.
Qed.

Lemma im_sim_expire window now s log k :
  im_sim window now s log ->
  let q := popleft_expired (now - window k) (queue_of (im_events s) k) in
  q = after (now - window k) (log k) /\
  im_sim window now
    (with_events (dict_set k q (im_events s))
      (with_event_windows (dict_set k (window k) (im_event_windows s)) s)) log.
Proof.
  intros (Hl & Hnd & Hw & Hq) q. destruct (Hq k) as (c & Hc & E).
  assert (Hqe : q = after (now - window k) (log k)) by (by eapply expire_queue).
  split; [done|]. split_and!; [done|by apply dict_set_nodup| |]; simpl.
  - intros k' w. rewrite dict_get_set. case_decide as Hk; [by intros [= <-]; rewrite Hk|apply Hw].
  - intros k'. rewrite queue_of_set. case_decide as Hk; [|apply Hq].
    subst k'. exists (now - window k). split; [lia|done].
Qed.

Lemma live_buckets_sim window now s log buckets :
  im_sim window now s log -> windows_agree window buckets ->
  match _live_buckets buckets now s with
  | (Ok live, s') =>
      live = active_keys buckets /\ forallb (has_room log now) buckets = true /\ im_sim window now s' log
  | (Err e, s') =>
      e = rate_limited /\ forallb (has_room log now) buckets = false /\ im_sim window now s' log
  end.
Proof.
  revert s. induction buckets as [|b buckets IH]; intros s Hs Hag; [done|].
  assert (Hag' : windows_agree window buckets) by (intros b' Hin; apply Hag; by right).
  simpl _live_buckets. cbn [forallb]. unfold has_room at 1 3. unfold active_keys. cbn [List.filter].
  destruct (active b) eqn:Ea; cbn [negb orb andb map]; [|by apply IH].
  unfold mbind, eff_bind, modify, get_state. cbn [im_events im_event_windows with_event_windows].
  assert (Ew : b_window_ms b = window (b_key b)) by (apply Hag; [by left|done]).
  rewrite Ew. destruct (im_sim_expire window now s log (b_key b) Hs) as [Hq Hs1]. cbn zeta in *.
  set (q := popleft_expired _ _) in *.
  assert (Hin : in_window log b now = Z.of_nat (length q)) by (unfold in_window; by rewrite Ew, Hq).
  rewrite Hin. destruct (b_maximum b <=? Z.of_nat (length q)) eqn:Em.
  - unfold raise. split_bool. rewrite (proj2 (Z.ltb_ge _ _)) by lia. done.
  - split_bool. rewrite (proj2 (Z.ltb_lt _ _)) by lia. cbn [andb].
    specialize (IH _ Hs1 Hag'). unfold with_events, with_event_windows in *. cbn in *.
    destruct (_live_buckets buckets now _) as [[live|e] s']; [|done].
    destruct IH as (-> & Hall & Hs'). done.
Qed.

Lemma fold_append_queue live now ev k :
  queue_of (fold_left (fun ev k => dict_set k (queue_of ev k ++ [now]) ev) live ev) k =
  queue_of ev k ++ replicate (length (List.filter (fun x => bool_decide (x = k)) live)) now.
Proof.
  revert ev. induction live as [|x live IH]; intros ev; simpl; [by rewrite app_nil_r|].
  rewrite IH, queue_of_set. case_decide as Hk.
  - subst. rewrite bool_decide_true by done. simpl. by rewrite <- app_assoc.
  - by rewrite bool_decide_false by done.
Qed.

Lemma fold_append_nodup live now ev :
  NoDup (map fst ev) ->
  NoDup (map fst (fold_left (fun ev k => dict_set k (queue_of ev k ++ [now]) ev) live ev)).
Proof.
  revert ev. induction live as [|x live IH]; intros ev Hnd; simpl; [done|].
  by apply IH, dict_set_nodup.
Qed.

Lemma append_events_sim window now s log live :
  im_sim window now s log -> (forall k, k ∈ live -> 0 < window k) ->
  im_sim window now (append_events live now s) (charge log live now).
Proof.
  intros (Hl & Hnd & Hw & Hq) Hlive. split_and!; [by apply log_ok_charge|by apply fold_append_nodup|done|].
  intros k. destruct (Hq k) as (c & Hc & E). exists c. split; [done|]. simpl.
  rewrite fold_append_queue. unfold charge. rewrite after_app, E. f_equal.
  destruct (List.filter _ live) as [|x l] eqn:Ef; [done|].
  rewrite after_replicate; [done|].
  assert (Hx : x ∈ List.filter (fun x => bool_decide (x = k)) live) by (rewrite Ef; by left).
  apply list_elem_of_In, List.filter_In in Hx as [Hx Hxk]. split_bool. subst x.
  specialize (Hlive k (proj2 (list_elem_of_In _ _) Hx)). lia.
Qed.

Lemma drop_filter_get {V} (d : list (string * list V)) k :
  NoDup (map fst d) ->
  default [] (dict_get k (List.filter (fun kv => match kv.2 with [] => false | _ => true end) d))
  = default [] (dict_get k d).
Proof.
  induction d as [|[k1 q] d IH]; simpl; [done|]. intros [Hx Hnd]%NoDup_cons.
  destruct q as [|t q]; simpl; case_decide as Hk; auto.
  subst. rewrite IH by done. simpl. by rewrite (proj2 (dict_get_None k1 d)).
Qed.

Lemma drop_empty_keys_get {V} (d : list (string * list V)) k windows w :
  dict_get k (drop_empty_keys windows d) = Some w -> dict_get k windows = Some w.
Proof.
  revert windows. induction d as [|[k1 q] d IH]; intros windows; simpl; [done|].
  intros Hg%IH. destruct q; [|done]. simpl in Hg. rewrite dict_get_pop in Hg. by case_decide.
Qed.

Lemma drop_empty_sim window now s log : im_sim window now s log -> im_sim window now (_drop_empty s) log.
Proof.
  intros (Hl & Hnd & Hw & Hq). split_and!; [done|by apply filter_keys_nodup| |].
  - intros k w Hg. apply Hw. exact (drop_empty_keys_get _ _ _ _ Hg).
  - intros k. destruct (Hq k) as (c & Hc & E). exists c. split; [done|].
    rewrite <- E. unfold queue_of. simpl. by apply drop_filter_get.
Qed.

Lemma sweep_map_get (f : string -> list Z -> list Z) (ev : list (string * list Z)) k :
  dict_get k (map (fun kq => (kq.1, f kq.1 kq.2)) ev) = f k <$> dict_get k ev.
Proof. induction ev as [|[k1 q] ev IH]; simpl; [done|]. by case_decide; subst. Qed.

Lemma sweep_stale_sim window now s log : im_sim window now s log -> im_sim window now (_sweep_stale now s) log.
Proof.
  intros (Hl & Hnd & Hw & Hq). apply drop_empty_sim. unfold with_distinct, with_events. simpl.
  set (f := fun k q => match dict_get k (im_event_windows s) with
                       | None => q
                       | Some w => popleft_expired (now - w) q
                       end).
  assert (Em : map (fun kq => match dict_get kq.1 (im_event_windows s) with
                              | None => kq
                              | Some w => (kq.1, popleft_expired (now - w) kq.2)
                              end) (im_events s) = map (fun kq => (kq.1, f kq.1 kq.2)) (im_events s)).
  { apply List.map_ext. intros [k q]. unfold f. simpl. by case_match. }
  rewrite Em. split_and!; simpl; [done| |done|].
  - rewrite List.map_map. simpl. done.
  - intros k. destruct (Hq k) as (c & Hc & E). unfold queue_of in *. rewrite sweep_map_get.
    destruct (dict_get k (im_events s)) as [q|] eqn:Eq; simpl in *; [|by exists c].
    unfold f. destruct (dict_get k (im_event_windows s)) as [w|] eqn:Ew; [|by exists c].
    apply Hw in Ew as ->. exists (now - window k). split; [lia|]. by eapply expire_queue.
Qed.

#[export] Hint Resolve drop_empty_sim sweep_stale_sim append_events_sim im_sim_later : table.

Lemma consume_many_sim window last s log buckets now :
  im_sim window last s log -> last <= now -> windows_agree window buckets ->
  match consume_many buckets now s, spec_consume log buckets now with
  | (Ok _, s'), Some log' => im_sim window now s' log'
  | (Err e, s'), None => e = rate_limited /\ im_sim window now s' log
  | _, _ => False
  end.
Proof.
  intros Hs Hle Hag. apply (im_sim_later _ _ now) in Hs; [|done].
  unfold consume_many, consume_many_distinct.
  set (s1 := with_consume_count (im_consume_count s + 1) s).
  assert (Hs1 : im_sim window now s1 log) by done.
  set (sweep := if im_consume_count s1 mod _SWEEP_EVERY =? 0
                then modify (_sweep_stale now) else mret () : eff InMemoryRateLimiter unit).
  assert (Hsw : exists s2, sweep s1 = (Ok (), s2) /\ im_sim window now s2 log)
    by (unfold sweep; case_match; eexists; split; try done; by apply sweep_stale_sim).
  rewrite (bind_ok _ _ s () s1), (bind_ok _ _ s1 s1 s1) by done. fold sweep.
  destruct Hsw as (s2 & Esw & Hs2). rewrite (bind_ok _ _ _ _ _ Esw).
  unfold mbind, eff_bind. pose proof (live_buckets_sim window now s2 log buckets Hs2 Hag) as Hlive.
  unfold spec_consume. destruct (_live_buckets buckets now s2) as [[live|e] s3].
  - destruct Hlive as (-> & -> & Hs3). simpl. apply drop_empty_sim.
    refine (append_events_sim window now s3 log _ Hs3 _).
    intros k (b & Hin & Hact & <-)%active_keys_elem. rewrite <- Hag by done. by apply active_window.
  - destruct Hlive as (-> & -> & Hs3). done.
Qed.

#[export] Instance in_memory_sliding_window : SlidingWindow consume_many in_memory_rate_limiter.
Proof.
  refine {| sim := im_sim |}.
  - intros window last. split_and!; [|apply NoDup_nil_2|done|].
    + intros k. by split; [constructor|].
    + intros k. exists (last - window k). by split.
  - by intros window last s log [Hl _].
  - intros. by eapply consume_many_sim.
Defined.

(** ** Distinct identities *)

Definition scope_ids (s : InMemoryRateLimiter) (scope : string) : list (string * Z) :=
  default [] (dict_get scope (im_distinct s)).

(** The identities of a scope use one window. *)
Definition d_windows_agree (window : string -> Z) (identities : list Distinct) : Prop :=
  forall d, d ∈ identities -> d_active d = true -> d_window_ms d = window (d_scope d).

(** Dictionaries have distinct keys. *)
Definition distinct_ok (s : InMemoryRateLimiter) : Prop :=
  NoDup (map fst (im_distinct s)) /\ forall scope, NoDup (map fst (scope_ids s scope)).

Lemma scope_ids_set s scope' v scope :
  scope_ids (with_distinct (dict_set scope' v (im_distinct s)) s) scope =
  if decide (scope = scope') then v else scope_ids s scope.
Proof. unfold scope_ids. simpl. rewrite dict_get_set. by case_decide. Qed.

Lemma distinct_ok_set s scope v :
  distinct_ok s -> NoDup (map fst v) -> distinct_ok (with_distinct (dict_set scope v (im_distinct s)) s).
Proof.
  intros [Hnd Hin] Hv. split; [by apply dict_set_nodup|].
  intros sc. rewrite scope_ids_set. by case_decide.
Qed.

Lemma live_identities_nodup c v : NoDup (map fst v) -> NoDup (map fst (live_identities c v)).
Proof. apply filter_keys_nodup. Qed.

(** [_live_buckets] leaves the identities alone. *)
Lemma live_buckets_distinct buckets now s r s' :
  _live_buckets buckets now s = (r, s') -> im_distinct s' = im_distinct s.
Proof.
  revert s r s'. induction buckets as [|b buckets IH]; intros s r s' Hl; simpl in Hl;
    [by injection Hl as _ <-|].
  destruct (negb (active b)); [by apply IH in Hl|].
  unfold mbind, eff_bind, modify, get_state in Hl. cbn in Hl.
  destruct (b_maximum b <=? _); [unfold raise in Hl; by injection Hl as _ <-|].
  destruct (_live_buckets buckets now _) as [[live|e] s1] eqn:E; apply IH in E;
    injection Hl as _ <-; by rewrite E.
Qed.

Definition additions_of (additions : list (string * list string)) (scope : string) : list string :=
  default [] (dict_get scope additions).

Lemma add_identity_elem scope identity additions sc x :
  x ∈ additions_of (add_identity scope identity additions) sc <->
  x ∈ additions_of additions sc \/ (sc = scope /\ x = identity).
Proof.
  unfold additions_of, add_identity. case_match eqn:E; rewrite dict_get_set.
  - apply elem_true in E. case_decide; subst; simpl; [|naive_solver].
    destruct (dict_get scope additions); naive_solver.
  - case_decide; subst; simpl; [|naive_solver]. rewrite elem_of_app, list_elem_of_singleton. naive_solver.
Qed.

Lemma distinct_additions_spec window identities now adds s :
  d_windows_agree window identities -> distinct_ok s ->
  exists adds' s', _distinct_additions identities now adds s = (Ok adds', s') /\ distinct_ok s' /\
    (forall sc x, x ∈ additions_of adds sc -> x ∈ additions_of adds' sc) /\
    (forall sc it, it ∈ scope_ids s' sc -> it ∈ scope_ids s sc) /\
    (forall d, d ∈ identities -> d_active d = true ->
       d_identity d ∈ map fst (scope_ids s' (d_scope d)) \/ d_identity d ∈ additions_of adds' (d_scope d)) /\
    (forall sc it, it ∈ scope_ids s sc -> now - window sc < it.2 -> it ∈ scope_ids s' sc).
Proof.
  revert adds s. induction identities as [|d ids IH]; intros adds s Hag Hok; simpl.
  { exists adds, s. split_and!; try done. intros d Hd. by apply not_elem_of_nil in Hd. }
  assert (Hag' : d_windows_agree window ids) by (intros d' Hd'; apply Hag; by right).
  destruct (d_active d) eqn:Ea; simpl.
  2: { destruct (IH adds s Hag' Hok) as (adds' & s' & E & Hok' & Hmono & Hsub & Hall & Hkeep).
       exists adds', s'. split_and!; try done. intros d' [->|Hd']%elem_of_cons; [congruence|by apply Hall]. }
  unfold mbind, eff_bind, modify, get_state. cbn beta iota zeta delta [im_distinct with_distinct_windows].
  assert (Ew : d_window_ms d = window (d_scope d)) by (apply Hag; [by left|done]). rewrite Ew.
  set (cur := live_identities _ _).
  set (s1 := with_distinct _ _). set (adds1 := if bool_decide _ then _ else _).
  assert (Hcur : forall it, it ∈ cur <-> it ∈ scope_ids s (d_scope d) /\ now - window (d_scope d) < it.2).
  { intros it. unfold cur, live_identities, scope_ids.
    rewrite list_elem_of_In, List.filter_In, <- list_elem_of_In, negb_true_iff, Z.leb_gt. done. }
  assert (Hs1 : forall sc, scope_ids s1 sc = if decide (sc = d_scope d) then cur else scope_ids s sc)
    by (intros sc; unfold s1, scope_ids; simpl; rewrite dict_get_set; by case_decide).
  assert (Hok1 : distinct_ok s1).
  { destruct Hok as [Hnd Hin]. split; [by apply dict_set_nodup|].
    intros sc. rewrite Hs1. case_decide; [|done]. apply live_identities_nodup, (Hin (d_scope d)). }
  destruct (IH adds1 s1 Hag' Hok1) as (adds' & s' & E & Hok' & Hmono & Hsub & Hall & Hkeep).
  assert (Hadds : forall sc x, x ∈ additions_of adds sc -> x ∈ additions_of adds1 sc)
    by (intros sc x Hx; unfold adds1; case_match; [apply add_identity_elem; by left|done]).
  exists adds', s'. split_and!; try done; [by auto| | |].
  - intros sc it Hit%Hsub. rewrite Hs1 in Hit. case_decide; [subst|done]. by apply Hcur in Hit as [? _].
  - intros d' [->|Hd']%elem_of_cons; [|by apply Hall]. intros _.
    destruct (dict_get (d_identity d) cur) as [t|] eqn:Eg.
    + left. apply dict_get_elem in Eg as Hin. apply Hcur in Hin as Hin2.
      apply list_elem_of_In, List.in_map_iff. exists (d_identity d, t). split; [done|].
      apply list_elem_of_In, Hkeep; [|simpl; tauto]. rewrite Hs1. by rewrite decide_True.
    + right. apply Hmono. unfold adds1. rewrite bool_decide_true by done. apply add_identity_elem. by right.
  - intros sc it Hit Hlt. apply Hkeep; [|done]. rewrite Hs1. case_decide; [subst|done]. by apply Hcur.
Qed.

Lemma check_identities_ok identities adds s u s' :
  check_identities identities adds s = (Ok u, s') -> distinct_ok s ->
  distinct_ok s' /\ (forall sc, scope_ids s' sc = scope_ids s sc) /\
  forall d, d ∈ identities -> d_active d = true ->
    Z.of_nat (length (scope_ids s (d_scope d))) + Z.of_nat (length (additions_of adds (d_scope d))) <= d_maximum d.
Proof.
  revert s. induction identities as [|d ids IH]; intros s Hc Hok; simpl in Hc.
  { injection Hc as _ <-. split_and!; try done. intros d Hd. by apply not_elem_of_nil in Hd. }
  destruct (0 <? d_maximum d) eqn:Em.
  - unfold mbind, eff_bind, modify, get_state in Hc. cbn in Hc. case_match eqn:Ecmp; [done|]. split_bool.
    set (s1 := with_distinct _ s) in Hc.
    assert (Hs1 : forall sc, scope_ids s1 sc = scope_ids s sc)
      by (intros sc; unfold s1; rewrite scope_ids_set; case_decide; by subst).
    destruct (IH s1 Hc) as (Hok' & Heq & Hall); [apply distinct_ok_set; [done|apply Hok]|].
    split_and!; [done|intros sc; by rewrite Heq|].
    intros d' [->|Hd']%elem_of_cons Hact; [done|]. rewrite <- Hs1. by apply Hall.
  - destruct (IH s Hc Hok) as (Hok' & Heq & Hall). split_and!; try done.
    intros d' [->|Hd']%elem_of_cons Hact; [|by apply Hall].
    unfold d_active in Hact. split_bool. lia.
Qed.

Definition record_one (now : Z) (di : list (string * list (string * Z))) (d : Distinct) :=
  if d_active d then
    dict_set (d_scope d) (dict_set (d_identity d) now (default [] (dict_get (d_scope d) di))) di
  else di.

Lemma record_fold_spec identities now di :
  let di' := fold_left (record_one now) identities di in
  let ids d sc := default [] (dict_get sc d) in
  (NoDup (map fst di) -> NoDup (map fst di')) /\
  (forall sc, NoDup (map fst (ids di sc)) -> NoDup (map fst (ids di' sc))) /\
  (forall sc x, x ∈ map fst (ids di' sc) ->
     x ∈ map fst (ids di sc) \/ exists d, d ∈ identities /\ d_active d = true /\ d_scope d = sc /\ d_identity d = x) /\
  (forall sc x, dict_get x (ids di sc) = Some now -> dict_get x (ids di' sc) = Some now) /\
  (forall d, d ∈ identities -> d_active d = true -> dict_get (d_identity d) (ids di' (d_scope d)) = Some now).
Proof.
  cbn zeta. revert di. induction identities as [|d l IH]; intros di; simpl.
  { split_and!; try done; [by left|]. intros d Hd. by apply not_elem_of_nil in Hd. }
  destruct (IH (record_one now di d)) as (H1 & H2 & H3 & H4 & H5). clear IH.
  assert (Hone : forall sc, default [] (dict_get sc (record_one now di d)) =
    if d_active d && bool_decide (sc = d_scope d)
    then dict_set (d_identity d) now (default [] (dict_get sc di)) else default [] (dict_get sc di)).
  { intros sc. unfold record_one. destruct (d_active d); simpl; [|done]. rewrite dict_get_set.
    case_decide; subst; [by rewrite bool_decide_true|by rewrite bool_decide_false]. }
  split_and!.
  - intros Hnd. apply H1. unfold record_one. case_match; [by apply dict_set_nodup|done].
  - intros sc Hnd. apply H2. rewrite Hone. case_match; [by apply dict_set_nodup|done].
  - intros sc x Hx. apply H3 in Hx as [Hx|(d' & Hin & Ha & Hsc & Hid)].
    + rewrite Hone in Hx. destruct (d_active d && _) eqn:E; [|by left]. split_bool.
      apply dict_set_keys in Hx as [->|Hx]; [|by left]. right. exists d. split; [by left|done].
    + right. exists d'. split; [by right|done].
  - intros sc x Hg. apply H4. rewrite Hone. destruct (d_active d && _); [|done]. rewrite dict_get_set. by case_decide.
  - intros d' [->|Hd']%elem_of_cons Ha; [|by apply H5]. apply H4.
    rewrite Hone, Ha, bool_decide_true by done. simpl. rewrite dict_get_set. by rewrite decide_True.
Qed.

Lemma sweep_distinct_ok now s : distinct_ok s -> distinct_ok (_sweep_stale now s).
Proof.
  intros [Hnd Hin]. unfold _sweep_stale. simpl. split; simpl.
  - apply filter_keys_nodup. rewrite List.map_map. erewrite List.map_ext; [exact Hnd|].
    intros [k v]. simpl. by case_match.
  - intros sc. unfold scope_ids. simpl. rewrite drop_filter_get.
    2:{ rewrite List.map_map. erewrite List.map_ext; [exact Hnd|]. intros [k v]. simpl. by case_match. }
    specialize (Hin sc). unfold scope_ids in Hin. clear Hnd.
    induction (im_distinct s) as [|[k v] l IH]; simpl in *; [apply NoDup_nil_2|].
    destruct (dict_get k (im_distinct_windows s)) as [w|]; simpl; case_decide; simpl in *; auto.
    by apply live_identities_nodup.
Qed.

Lemma drop_empty_distinct s :
  distinct_ok s -> distinct_ok (_drop_empty s) /\ forall sc, scope_ids (_drop_empty s) sc = scope_ids s sc.
Proof.
  intros [Hnd Hin]. assert (Heq : forall sc, scope_ids (_drop_empty s) sc = scope_ids s sc)
    by (intros sc; unfold scope_ids; simpl; by apply drop_filter_get).
  split; [|done]. split; [by apply filter_keys_nodup|]. intros sc. rewrite Heq. apply Hin.
Qed.

Lemma length_keys_incl {V} (a : list (string * V)) (l : list string) :
  NoDup (map fst a) -> (forall x, x ∈ map fst a -> x ∈ l) -> (length a <= length l)%nat.
Proof.
  intros Hnd Hsub. rewrite <- (List.length_map fst). apply List.NoDup_incl_length; [by apply NoDup_ListNoDup|].
  intros x Hx. apply list_elem_of_In, Hsub, list_elem_of_In, Hx.
Qed.

(** Recording after the check stays within the maximum. *)
Lemma record_bounded identities now adds s :
  distinct_ok s ->
  (forall d, d ∈ identities -> d_active d = true ->
     d_identity d ∈ map fst (scope_ids s (d_scope d)) \/ d_identity d ∈ additions_of adds (d_scope d)) ->
  distinct_ok (record_identities identities now s) /\
  (forall d, d ∈ identities -> d_active d = true ->
     dict_get (d_identity d) (scope_ids (record_identities identities now s) (d_scope d)) = Some now /\
     Z.of_nat (length (scope_ids (record_identities identities now s) (d_scope d)))
       <= Z.of_nat (length (scope_ids s (d_scope d))) + Z.of_nat (length (additions_of adds (d_scope d)))).
Proof.
  intros [Hnd Hin] Hknown.
  destruct (record_fold_spec identities now (im_distinct s)) as (H1 & H2 & H3 & _ & H5).
  split; [split; [by apply H1|intros sc; apply H2, Hin]|].
  intros d Hd Ha. split; [by apply H5|].
  assert (Hlen : (length (scope_ids (record_identities identities now s) (d_scope d))
    <= length (map fst (scope_ids s (d_scope d)) ++ additions_of adds (d_scope d)))%nat).
  { apply length_keys_incl; [apply H2, Hin|].
    intros x [Hx|(d' & Hd' & Ha' & <- & <-)]%H3; apply elem_of_app; [by left|by apply Hknown]. }
  rewrite length_app, List.length_map in Hlen. lia.
Qed.

(** The events part of a call never touches the identities. *)
Lemma append_events_distinct live now s : im_distinct (append_events live now s) = im_distinct s.
Proof. done. Qed.

Lemma distinct_ok_ext s s' : im_distinct s' = im_distinct s -> distinct_ok s -> distinct_ok s'.
Proof. intros E. unfold distinct_ok, scope_ids. by rewrite E. Qed.

Lemma scope_ids_ext s s' sc : im_distinct s' = im_distinct s -> scope_ids s' sc = scope_ids s sc.
Proof. intros E. unfold scope_ids. by rewrite E. Qed.

(** ** Properties *)

(** Over any run of calls at non-decreasing times, in which each key keeps
    its maximum and window, the in-memory limiter never admits more than the
    maximum of a key in any window-long interval, although it expires, sweeps
    and drops its queues along the way. *)
Lemma in_memory_window_bound maximum window calls start :
  calls_ok maximum window start calls ->
  window_bounded maximum window (run_calls consume_many calls in_memory_rate_limiter (fun _ => [])).2.
Proof.
  intros Hc. apply (run_calls_bounded consume_many in_memory_rate_limiter maximum window calls start);
    [apply sim_init|by intros k t Hne|done].
Qed.

(** The in-memory limiter refines the admission log: from related states
    a call succeeds exactly when every active bucket has room in its sliding
    window, then charges each active bucket once and stays related; otherwise
    it raises the 429 error and stays related to the same log, so a rejected
    call is never charged, not even partially. *)
Lemma in_memory_refines_spec window last s log buckets now :
  im_sim window last s log -> last <= now -> windows_agree window buckets ->
  match consume_many buckets now s, spec_consume log buckets now with
  | (Ok _, s'), Some log' => im_sim window now s' log'
  | (Err e, s'), None => e = rate_limited /\ im_sim window now s' log
  | _, _ => False
  end.
Proof. apply consume_many_sim. Qed.

(** A successful call with distinct identities records every active
    identity at the call's time and leaves at most the scope's maximum of
    identities recorded, with no identity twice. *)
Lemma in_memory_distinct_bound window buckets identities now s u s' :
  distinct_ok s -> d_windows_agree window identities ->
  consume_many_distinct buckets identities now s = (Ok u, s') ->
  distinct_ok s' /\
  forall d, d ∈ identities -> d_active d = true ->
    dict_get (d_identity d) (scope_ids s' (d_scope d)) = Some now /\
    Z.of_nat (length (scope_ids s' (d_scope d))) <= d_maximum d.
Proof.
  intros Hok Hag Hc. unfold consume_many_distinct in Hc. eff_inv.
  assert (Hok1 : distinct_ok s2).
  { case_match; eff_inv; [apply sweep_distinct_ok|]; by apply (distinct_ok_ext s). }
  apply live_buckets_distinct in H2 as Ed.
  apply (distinct_ok_ext _ _ Ed) in Hok1.
  destruct (distinct_additions_spec window identities now [] s3 Hag Hok1)
    as (adds & sa & Ea & Hok5 & _ & _ & Hknown & _).
  rewrite Ea in H3. simplify_eq.
  apply check_identities_ok in H4 as (Hok6 & Heq & Hmax); [|done].
  set (s7 := append_events _ now _) in *.
  assert (Hok7 : distinct_ok s7) by (by eapply distinct_ok_ext).
  destruct (record_bounded identities now r3 s7 Hok7) as [Hok8 Hrec].
  { intros d Hd Ha. rewrite (scope_ids_ext s5 s7 _ eq_refl), Heq. by apply Hknown. }
  destruct (drop_empty_distinct _ Hok8) as [Hok9 Hdrop]. split; [done|].
  intros d Hd Ha. rewrite Hdrop. destruct (Hrec d Hd Ha) as [Hg Hlen]. split; [done|].
  rewrite (scope_ids_ext s5 s7 _ eq_refl), Heq in Hlen. specialize (Hmax d Hd Ha). lia.
Qed.

(** ** Concrete instances *)

Module Example_limiter.
Definition maximum (k : string) : Z := 2.
Definition window (k : string) : Z := 100.
Definition call (now : Z) : list Bucket * Z := ([mkBucket "w" 2 100], now).

(** Three calls in one window: the third is refused, a later one is not. *)
Definition calls : list (list Bucket * Z) := [call 10; call 20; call 30; call 111].

Lemma calls_fit : calls_ok maximum window 0 calls.
Proof.
  repeat split; try lia; try (apply NoDup_singleton);
    apply list_elem_of_singleton in H as ->; done.
Qed.

Example admitted : (run_calls consume_many calls in_memory_rate_limiter (fun _ => [])).2 "w" = [10; 20; 111].
Proof. vm_compute. reflexivity. Qed.
End Example_limiter.

Lemma in_memory_window_bound_witness :
  count_where (fun x => (120 - 100 <? x) && (x <=? 120))
    ((run_calls consume_many Example_limiter.calls in_memory_rate_limiter (fun _ => [])).2 "w") <= 2.
Proof.
  apply (in_memory_window_bound Example_limiter.maximum Example_limiter.window Example_limiter.calls 0
    Example_limiter.calls_fit "w" 120). vm_compute. discriminate.
Defined.

Lemma in_memory_refines_spec_witness :
  exists log', spec_consume (fun _ => []) [mkBucket "w" 2 100] 10 = Some log' /\
    im_sim (fun _ => 100) 10 (consume_many [mkBucket "w" 2 100] 10 in_memory_rate_limiter).2 log'.
Proof.
  eexists. split; [reflexivity|].
  refine (in_memory_refines_spec (fun _ => 100) 0 in_memory_rate_limiter (fun _ => [])
    [mkBucket "w" 2 100] 10 _ _ _).
  - split_and!; [intros k; by split; constructor|apply NoDup_nil_2|done|].
    intros k. exists (-100). by split.
  - done.
  - by intros b ->%list_elem_of_singleton.
Defined.

Lemma in_memory_distinct_bound_witness :
  exists s', consume_many_distinct [] [mkDistinct "ids" "a" 2 100; mkDistinct "ids" "b" 2 100] 10
               in_memory_rate_limiter = (Ok (), s') /\ Z.of_nat (length (scope_ids s' "ids")) <= 2.
Proof.
  eexists. split; [vm_compute; reflexivity|].
  refine (proj2 (proj2 (in_memory_distinct_bound (fun _ => 100) []
    [mkDistinct "ids" "a" 2 100; mkDistinct "ids" "b" 2 100] 10 in_memory_rate_limiter () _ _ _ _)
    (mkDistinct "ids" "a" 2 100) _ _)).
  - split; [apply NoDup_nil_2|]. intros sc. apply NoDup_nil_2.
  - intros d [->|[->|Hn]%elem_of_cons]%elem_of_cons; [done|done|by apply not_elem_of_nil in Hn].
  - vm_compute. reflexivity.
  - by left.
  - done.
Defined.
