(* ===== verification/PostgresRateLimit.v ===== *)
(** * The PostgreSQL rate limiter

    Models [_normalize_buckets], [_normalize_identities], [_PostgresSession]
    and [PostgresRateLimiter] of [memory_router/rate_limit.py]: the event,
    identity and state tables, the per-process window cache, the periodic
    global sweep and the transaction around a call. Advisory locks order the
    transactions that touch a key and have no other effect; calls here are the
    serialised ones. The limiter implements [SlidingWindow]. *)

From Stdlib Require Import ZArith Lia.
From stdpp Require Import base sets strings numbers list.
From S2P Require Import Prelude Errors Text RateLimit.

Local Open Scope Z_scope.

(** ** Normalisation *)

(** The order of the [Bucket] and [Distinct] tuples. *)
Definition bucket_le (a b : Bucket) : bool :=
  if decide (b_key a = b_key b) then
    if b_maximum a =? b_maximum b then b_window_ms a <=? b_window_ms b else b_maximum a <=? b_maximum b
  else str_le (b_key a) (b_key b).

Definition distinct_le (a b : Distinct) : bool :=
  if decide (d_scope a = d_scope b) then
    if decide (d_identity a = d_identity b) then
      if d_maximum a =? d_maximum b then d_window_ms a <=? d_window_ms b else d_maximum a <=? d_maximum b
    else str_le (d_identity a) (d_identity b)
  else str_le (d_scope a) (d_scope b).

Definition _normalize_buckets (buckets : list Bucket) : list Bucket :=
  let normalized := dict_of (map (fun b => (b_key b, b)) (List.filter active buckets)) in
  sorted_by bucket_le (map snd normalized).

Definition _normalize_identities (identities : list Distinct) : list Distinct :=
  sorted_by distinct_le
    (map snd (dict_of (map (fun d => ((d_scope d, d_identity d), d)) (List.filter d_active identities)))).

(** ** Tables and sessions *)

Record pg_db := mkPgDb {
  pg_events : list (string * Z);
  pg_identities : list ((string * string) * Z);
  pg_max_window : option Z
}.

Record _PostgresSession := mkPostgresSession {
  ses_db : pg_db;
  ses_global_sweep : bool;
  ses_max_window_cache : option Z;
  ses_observed_max_window : option Z
}.

Definition on_db (f : pg_db -> pg_db) (s : _PostgresSession) : _PostgresSession :=
  mkPostgresSession (f (ses_db s)) (ses_global_sweep s) (ses_max_window_cache s) (ses_observed_max_window s).
Definition observe (w : Z) (s : _PostgresSession) : _PostgresSession :=
  mkPostgresSession (ses_db s) (ses_global_sweep s) (ses_max_window_cache s) (Some w).
Definition set_events (ev : list (string * Z)) (d : pg_db) : pg_db :=
  mkPgDb ev (pg_identities d) (pg_max_window d).
Definition set_identities (ids : list ((string * string) * Z)) (d : pg_db) : pg_db :=
  mkPgDb (pg_events d) ids (pg_max_window d).

(** [int(row.get("max_window_ms") or 0)] *)
Definition stored_max_window (d : pg_db) : Z := default 0 (pg_max_window d).

Definition _record_max_window (window : Z) : eff _PostgresSession unit :=
  s ← get_state;
  if bool_decide (ses_max_window_cache s = None) && negb (ses_global_sweep s) then mret ()
  else
    match (c ← ses_max_window_cache s; if window <=? c then Some c else None) with
    | Some c => modify (observe c)
    | None =>
        let current := stored_max_window (ses_db s) in
        _ ← (if current <? window then
               modify (on_db (fun d => mkPgDb (pg_events d) (pg_identities d)
                 (Some (match pg_max_window d with Some m => Z.max m window | None => window end))))
             else mret ());
        modify (observe (Z.max current window))
    end.

Definition _global_sweep (now : Z) : eff _PostgresSession unit :=
  s ← get_state;
  let max_window := stored_max_window (ses_db s) in
  _ ← modify (observe (Z.max (default 0 (ses_observed_max_window s)) max_window));
  if max_window <=? 0 then mret ()
  else
    let cutoff := now - max_window in
    _ ← modify (on_db (fun d => set_events (delete_where (fun e => e.2 <=? cutoff) (pg_events d)) d));
    modify (on_db (fun d => set_identities (delete_where (fun i => i.2 <=? cutoff) (pg_identities d)) d)).

Definition _check_buckets (buckets : list Bucket) (now : Z) : eff _PostgresSession unit :=
  match buckets with
  | [] => mret ()
  | _ =>
      _ ← modify (on_db (fun d => set_events (delete_where (fun e =>
            existsb (fun b => bool_decide (e.1 = b_key b) && (e.2 <=? now - b_window_ms b)) buckets)
            (pg_events d)) d));
      s ← get_state;
      if existsb (fun b => b_maximum b <=? count_where (fun e => bool_decide (e.1 = b_key b)) (pg_events (ses_db s)))
           buckets
      then raise rate_limited else mret ()
  end.

Definition _insert_buckets (buckets : list Bucket) (now : Z) : eff _PostgresSession unit :=
  modify (on_db (fun d => set_events (pg_events d ++ map (fun b => (b_key b, now)) buckets) d)).

(** [by_scope]: the identities of each scope, in order of appearance. *)
Definition group_by_scope (identities : list Distinct) : list (string * list Distinct) :=
  fold_left (fun g d => dict_set (d_scope d) (default [] (dict_get (d_scope d) g) ++ [d]) g) identities [].

Definition _check_distinct_scope (scope : string) (values : list Distinct) (now : Z) : eff _PostgresSession unit :=
  match values with
  | [] => mret ()
  | v0 :: _ =>
      let maximum := d_maximum v0 in
      let window := d_window_ms v0 in
      _ ← modify (on_db (fun d => set_identities (delete_where (fun i =>
            bool_decide (i.1.1 = scope) && (i.2 <=? now - window)) (pg_identities d)) d));
      s ← get_state;
      let count := count_where (fun i => bool_decide (i.1.1 = scope)) (pg_identities (ses_db s)) in
      let existing := Z.of_nat (length (List.filter (fun v =>
            existsb (fun i => bool_decide (i.1 = (scope, d_identity v))) (pg_identities (ses_db s))) values)) in
      let additions := Z.of_nat (length (dict_fromkeys (map d_identity values))) - existing in
      if maximum <? count + additions then raise rate_limited else mret ()
  end.

(** [INSERT ... ON CONFLICT(scope,identity) DO UPDATE] *)
Definition upsert_identity (now : Z) (d : Distinct) : eff _PostgresSession unit :=
  modify (on_db (fun db => set_identities (dict_set (d_scope d, d_identity d) now (pg_identities db)) db)).

Definition max_list (l : list Z) : Z := match l with [] => 0 | x :: l' => fold_left Z.max l' x end.

(** [_PostgresSession.consume_many_distinct] *)
Definition session_consume_many_distinct (buckets : list Bucket) (identities : list Distinct) (now : Z)
    : eff _PostgresSession unit :=
  let normalized_buckets := _normalize_buckets buckets in
  let normalized_identities := _normalize_identities identities in
  match normalized_buckets, normalized_identities with
  | [], [] => mret ()
  | _, _ =>
      let windows := map b_window_ms normalized_buckets ++ map d_window_ms normalized_identities in
      _ ← _record_max_window (max_list windows);
      s ← get_state;
      _ ← (if ses_global_sweep s then _global_sweep now else mret ());
      _ ← _check_buckets normalized_buckets now;
      _ ← for_each (fun sv => _check_distinct_scope sv.1 sv.2 now) (group_by_scope normalized_identities);
      _ ← _insert_buckets normalized_buckets now;
      for_each (upsert_identity now) normalized_identities
  end.

(** ** The limiter *)

Record PostgresRateLimiter := mkPostgresRateLimiter {
  pl_database : pg_db;
  pl_consume_count : Z;
  pl_max_window_cache : Z
}.

Definition postgres_rate_limiter : PostgresRateLimiter :=
  mkPostgresRateLimiter (mkPgDb [] [] None) 0 0.

(** [consumer_for_transaction]: a session of its own on the caller's tables. *)
Definition consumer_for_transaction (db : pg_db) : _PostgresSession :=
  mkPostgresSession db false (Some 0) None.

(** [_next_session]; the count it increments is returned too. *)
Definition _next_session (l : PostgresRateLimiter) : _PostgresSession * Z :=
  let n := pl_consume_count l + 1 in
  (mkPostgresSession (pl_database l) (n mod _SWEEP_EVERY =? 0) (Some (pl_max_window_cache l)) None, n).

Definition _commit_session (s : _PostgresSession) (cache : Z) : Z :=
  match ses_observed_max_window s with
  | Some w => Z.max cache w
  | None => cache
  end.

(** The transaction of [consume_many_distinct] and of [with_identity_lock]:
    the operation runs on the next session; its tables are committed, and the
    cache updated, only when it does not raise. *)
Definition with_identity_lock {A} (operation : eff _PostgresSession A) : eff PostgresRateLimiter A := fun l =>
  let (session, n) := _next_session l in
  match operation session with
  | (Ok a, session') =>
      (Ok a, mkPostgresRateLimiter (ses_db session') n (_commit_session session' (pl_max_window_cache l)))
  | (Err e, _) => (Err e, mkPostgresRateLimiter (pl_database l) n (pl_max_window_cache l))
  end.

Definition pg_consume_many_distinct (buckets : list Bucket) (identities : list Distinct) (now : Z)
    : eff PostgresRateLimiter unit :=
  with_identity_lock (session_consume_many_distinct buckets identities now).

Definition pg_consume_many (buckets : list Bucket) (now : Z) : eff PostgresRateLimiter unit :=
  pg_consume_many_distinct buckets [] now.

(** ** Lemmas *)

Lemma dict_of_nodup {K V} `{EqDecision K} (es : list (K * V)) : NoDup (map fst es) -> dict_of es = es.
Proof.
  unfold dict_of. intros Hnd.
  enough (forall d, NoDup (map fst (d ++ es)) ->
    fold_left (fun d e => dict_set e.1 e.2 d) es d = d ++ es) as Hgen by (by apply (Hgen [])).
  clear Hnd. induction es as [|[k v] es IH]; intros d Hd; simpl; [by rewrite app_nil_r|].
  rewrite map_app in Hd. simpl in Hd. apply NoDup_app in Hd as Hd'. destruct Hd' as (_ & Hdis & _).
  rewrite dict_set_fresh.
  - rewrite IH; [by rewrite <- app_assoc|]. rewrite <- app_assoc. simpl. by rewrite map_app.
  - intros Hin. apply (Hdis k Hin). by left.
Qed.

(** With distinct keys, normalising keeps the active buckets. *)
Lemma normalize_perm buckets :
  NoDup (active_keys buckets) -> _normalize_buckets buckets ≡ₚ List.filter active buckets.
Proof.
  intros Hnd. unfold _normalize_buckets. rewrite sorted_by_perm, dict_of_nodup.
  - rewrite List.map_map. simpl. by rewrite List.map_id.
  - rewrite List.map_map. simpl. exact Hnd.
Qed.

Lemma charge_perm log keys keys' now k : keys ≡ₚ keys' -> charge log keys now k = charge log keys' now k.
Proof.
  intros Hp. unfold charge. do 2 f_equal. induction Hp; simpl; repeat case_match; simpl; try congruence; lia.
Qed.

(** ** Simulation *)

(** The times of the rows of a key. *)
Definition rows_of (k : string) (rows : list (string * Z)) : list Z :=
  map snd (List.filter (fun e => bool_decide (e.1 = k)) rows).

Lemma rows_of_app k r1 r2 : rows_of k (r1 ++ r2) = rows_of k r1 ++ rows_of k r2.
Proof. unfold rows_of. by rewrite List.filter_app, map_app. Qed.

Lemma rows_of_delete k (p : string * Z -> bool) c rows :
  (forall t, p (k, t) = (t <=? c)) -> rows_of k (delete_where p rows) = after c (rows_of k rows).
Proof.
  intros Hp. unfold rows_of, delete_where, after. induction rows as [|[k' t] rows IH]; simpl; [done|].
  destruct (decide (k' = k)) as [->|Hne].
  - rewrite bool_decide_true by done. rewrite Hp. simpl.
    destruct (t <=? c) eqn:E; simpl; split_bool.
    + rewrite (proj2 (Z.ltb_ge c t)) by lia. done.
    + rewrite bool_decide_true by done. rewrite (proj2 (Z.ltb_lt c t)) by lia. simpl. by rewrite IH.
  - rewrite bool_decide_false by done. destruct (p (k', t)); simpl; [done|].
    by rewrite bool_decide_false by done.
Qed.

Lemma rows_of_delete_none k (p : string * Z -> bool) rows :
  (forall t, p (k, t) = false) -> rows_of k (delete_where p rows) = rows_of k rows.
Proof.
  intros Hp. unfold rows_of, delete_where. induction rows as [|[k' t] rows IH]; simpl; [done|].
  destruct (decide (k' = k)) as [->|Hne].
  - rewrite Hp. simpl. rewrite bool_decide_true by done. simpl. by rewrite IH.
  - rewrite (bool_decide_false (k' = k)) by done. destruct (p (k', t)); simpl; [done|].
    by rewrite bool_decide_false by done.
Qed.

Lemma count_rows_of k rows :
  count_where (fun e => bool_decide (e.1 = k)) rows = Z.of_nat (length (rows_of k rows)).
Proof. unfold count_where, rows_of. by rewrite List.length_map. Qed.

Lemma rows_of_inserted k buckets now :
  rows_of k (map (fun b => (b_key b, now)) buckets) =
  replicate (length (List.filter (fun x => bool_decide (x = k)) (map b_key buckets))) now.
Proof.
  unfold rows_of. induction buckets as [|b buckets IH]; simpl; [done|].
  case_match; simpl; [by rewrite IH|done].
Qed.

(** The tables hold, for each key, its log after an expired cutoff, and the
    stored maximum window covers every key that has admissions. *)
Definition db_sim (window : string -> Z) (last : Z) (d : pg_db) (log : admission_log) : Prop :=
  log_ok last log /\
  (forall k, exists c, c <= last - window k /\ rows_of k (pg_events d) = after c (log k)) /\
  (forall k, log k <> [] -> window k <= stored_max_window d) /\
  0 <= stored_max_window d.

Lemma db_sim_later window last now d log : last <= now -> db_sim window last d log -> db_sim window now d log.
Proof.
  intros Hle (Hl & Hq & Hm & H0). split_and!; [by eapply log_ok_later| |done|done].
  intros k. destruct (Hq k) as (c & Hc & E). exists c. split; [lia|done].
Qed.

(** A session on simulated tables, with the observed window not above the stored one. *)
Definition ses_sim (window : string -> Z) (now : Z) (s : _PostgresSession) (log : admission_log) : Prop :=
  db_sim window now (ses_db s) log /\
  (forall c, ses_max_window_cache s = Some c -> c <= stored_max_window (ses_db s)) /\
  (forall w, ses_observed_max_window s = Some w -> w <= stored_max_window (ses_db s)).

Lemma record_max_window_sim window now s log w :
  ses_sim window now s log -> is_Some (ses_max_window_cache s) ->
  exists s', _record_max_window w s = (Ok (), s') /\ ses_sim window now s' log /\
    w <= stored_max_window (ses_db s') /\ is_Some (ses_max_window_cache s') /\
    ses_global_sweep s' = ses_global_sweep s.
Proof.
  intros (Hd & Hc & Ho) [c Ec]. unfold _record_max_window, mbind at 1, eff_bind at 1, get_state.
  rewrite Ec. cbn. specialize (Hc c Ec) as Hcle. destruct (w <=? c) eqn:Ew; split_bool.
  - eexists. split; [done|]. unfold modify, observe, ses_sim. simpl. rewrite Ec.
    split_and!; try done; try (by intros ? [= <-]); lia.
  - unfold mbind, eff_bind, modify. destruct (stored_max_window (ses_db s) <? w) eqn:Es; split_bool.
    + eexists. split; [done|]. destruct Hd as (Hl & Hq & Hm & H0).
      set (m' := match pg_max_window (ses_db s) with Some m => Z.max m w | None => w end).
      assert (Hm' : stored_max_window (ses_db s) <= m' /\ w <= m')
        by (unfold m', stored_max_window in *; destruct (pg_max_window (ses_db s)); simpl in *; lia).
      unfold ses_sim, db_sim, stored_max_window in *. cbn. fold m'. clearbody m'. rewrite Ec.
      split_and!; try done; try (intros ? [= <-]); try lia.
      intros k Hk. specialize (Hm k Hk). lia.
    + eexists. split; [done|]. unfold ses_sim. simpl. rewrite Ec.
      split_and!; try done; try (intros ? [= <-]; lia).
Qed.

(** Deleting rows up to a cutoff that is out of every live window. *)
Lemma sweep_rows_sim window now d log cutoff :
  db_sim window now d log -> (forall k, log k <> [] -> cutoff <= now - window k) ->
  db_sim window now (set_events (delete_where (fun e => e.2 <=? cutoff) (pg_events d)) d) log.
Proof.
  intros (Hl & Hq & Hm & H0) Hcut. split_and!; try done. intros k. simpl.
  rewrite (rows_of_delete k _ cutoff) by done. destruct (Hq k) as (c & Hc & ->).
  rewrite after_after. destruct (decide (log k = [])) as [->|Hne].
  - exists (now - window k). split; [lia|done].
  - exists (Z.max c cutoff). specialize (Hcut k Hne). split; [lia|done].
Qed.

Lemma global_sweep_sim window now s log :
  ses_sim window now s log ->
  exists s', _global_sweep now s = (Ok (), s') /\ ses_sim window now s' log /\
    stored_max_window (ses_db s') = stored_max_window (ses_db s).
Proof.
  intros (Hd & Hc & Ho). unfold _global_sweep, mbind, eff_bind, get_state, modify.
  set (m := stored_max_window (ses_db s)).
  assert (Hobs : Z.max (default 0 (ses_observed_max_window s)) m <= m).
  { destruct Hd as (_ & _ & _ & H0). destruct (ses_observed_max_window s) as [w|]; simpl; [|fold m in H0; lia].
    specialize (Ho w eq_refl). fold m in Ho. lia. }
  destruct (m <=? 0) eqn:Em; split_bool; eexists; (split; [done|]); (split; [|done]).
  - split_and!; try done. by intros w [= <-].
  - assert (Hd' : db_sim window now (set_events (delete_where (fun e => e.2 <=? now - m) (pg_events (ses_db s))) (ses_db s)) log).
    { apply sweep_rows_sim; [done|]. destruct Hd as (_ & _ & Hm & _).
      intros k Hk. specialize (Hm k Hk). fold m in Hm. lia. }
    split_and!; [exact Hd'|exact Hc|]. by intros w [= <-].
Qed.

(** The expiry of [_check_buckets] on the keys of the call. *)
Definition expired_row (buckets : list Bucket) (now : Z) (e : string * Z) : bool :=
  existsb (fun b => bool_decide (e.1 = b_key b) && (e.2 <=? now - b_window_ms b)) buckets.

Lemma expired_row_key window buckets now k t :
  (forall b, b ∈ buckets -> b_window_ms b = window (b_key b)) ->
  expired_row buckets now (k, t) = bool_decide (k ∈ map b_key buckets) && (t <=? now - window k).
Proof.
  intros Hw. unfold expired_row. cbn [fst snd]. induction buckets as [|b buckets IH]; simpl; [done|].
  rewrite IH by (intros; apply Hw; by right). rewrite Hw by left.
  destruct (decide (k = b_key b)) as [->|Hne].
  - rewrite bool_decide_true by done. rewrite (bool_decide_true (_ ∈ _ :: _)) by left.
    destruct (t <=? _); simpl; [done|]. by rewrite andb_false_r.
  - rewrite (bool_decide_false (k = _)) by done. simpl. f_equal. apply bool_decide_ext.
    rewrite elem_of_cons. naive_solver.
Qed.

Lemma room_rows window now log rows buckets :
  (forall b, b ∈ buckets -> b_window_ms b = window (b_key b) /\ active b = true) ->
  (forall b, b ∈ buckets -> rows_of (b_key b) rows = after (now - window (b_key b)) (log (b_key b))) ->
  existsb (fun b => b_maximum b <=? count_where (fun e => bool_decide (e.1 = b_key b)) rows) buckets
  = negb (forallb (has_room log now) buckets).
Proof.
  induction buckets as [|b l IH]; intros Hb Hrow; simpl; [done|].
  rewrite IH by (intros; (apply Hb || apply Hrow); by right). rewrite negb_andb. f_equal.
  destruct (Hb b ltac:(left)) as [Ew Ha]. unfold has_room, in_window. rewrite Ha. simpl.
  by rewrite count_rows_of, (Hrow b ltac:(left)), Ew, count_after, <- Z.leb_antisym.
Qed.

Lemma check_buckets_sim window now s log buckets :
  ses_sim window now s log -> (forall b, b ∈ buckets -> b_window_ms b = window (b_key b) /\ active b = true) ->
  match _check_buckets buckets now s with
  | (Ok _, s') => forallb (has_room log now) buckets = true /\ ses_sim window now s' log /\
      stored_max_window (ses_db s') = stored_max_window (ses_db s)
  | (Err e, _) => e = rate_limited /\ forallb (has_room log now) buckets = false
  end.
Proof.
  intros (Hd & Hc & Ho) Hb. destruct buckets as [|b0 bs]; [by split_and!|].
  set (buckets := b0 :: bs) in *.
  set (rows := delete_where (expired_row buckets now) (pg_events (ses_db s))).
  change (_check_buckets buckets now s) with
    ((if existsb (fun b => b_maximum b <=? count_where (fun e => bool_decide (e.1 = b_key b)) rows) buckets
      then raise rate_limited else mret ()) (on_db (set_events rows) s)).
  destruct Hd as (Hl & Hq & Hm & H0).
  assert (Hrow : forall k, k ∈ map b_key buckets -> rows_of k rows = after (now - window k) (log k)).
  { intros k Hk. unfold rows. rewrite (rows_of_delete k _ (now - window k)).
    - destruct (Hq k) as (c & Hcc & ->). rewrite after_after. f_equal. lia.
    - intros t. rewrite (expired_row_key window) by (intros; by apply Hb). by rewrite bool_decide_true. }
  assert (Hroom : existsb (fun b => b_maximum b <=? count_where (fun e => bool_decide (e.1 = b_key b)) rows) buckets
                  = negb (forallb (has_room log now) buckets)).
  { apply (room_rows window); [done|]. intros b Hin. apply Hrow.
    by apply list_elem_of_In, List.in_map, list_elem_of_In. }
  rewrite Hroom. destruct (forallb (has_room log now) buckets); simpl; [|done].
  split; [done|]. split; [|done]. split; [|done]. split_and!; try done. simpl. intros k.
  destruct (decide (k ∈ map b_key buckets)) as [Hk|Hk].
  - exists (now - window k). split; [lia|]. by apply Hrow.
  - destruct (Hq k) as (c & Hcc & E). exists c. split; [done|]. rewrite <- E. apply rows_of_delete_none.
    intros t. rewrite (expired_row_key window) by (intros; by apply Hb). by rewrite bool_decide_false.
Qed.

Lemma occurrences_nil (keys : list string) k :
  k ∉ keys -> List.filter (fun x => bool_decide (x = k)) keys = [].
Proof.
  induction keys as [|x keys IH]; simpl; [done|]. rewrite not_elem_of_cons. intros [Hne Hn].
  rewrite bool_decide_false by done. by apply IH.
Qed.

Lemma insert_buckets_sim window now s log buckets :
  ses_sim window now s log ->
  (forall b, b ∈ buckets -> 0 < window (b_key b) <= stored_max_window (ses_db s)) ->
  exists s', _insert_buckets buckets now s = (Ok (), s') /\
    ses_sim window now s' (charge log (map b_key buckets) now).
Proof.
  intros ((Hl & Hq & Hm & H0) & Hc & Ho) Hb. eexists. split; [done|]. split; [|done].
  split_and!; [by apply log_ok_charge| | |done]; simpl; intros k; unfold charge.
  - destruct (Hq k) as (c & Hcc & E). exists c. split; [done|].
    rewrite rows_of_app, rows_of_inserted, after_app, E. f_equal.
    destruct (decide (k ∈ map b_key buckets)) as [Hk|Hk].
    + apply list_elem_of_In, List.in_map_iff in Hk as (b & <- & Hin). apply list_elem_of_In in Hin.
      rewrite after_replicate; [done|]. specialize (Hb b Hin). lia.
    + by rewrite occurrences_nil.
  - intros Hne. destruct (decide (log k = [])) as [Hnil|Hn]; [|by apply Hm].
    destruct (decide (k ∈ map b_key buckets)) as [Hk|Hk]; [|by rewrite occurrences_nil, Hnil in Hne].
    apply list_elem_of_In, List.in_map_iff in Hk as (b & <- & Hin). apply list_elem_of_In in Hin. by apply Hb.
Qed.

Lemma ses_sim_ext window now s log log' :
  (forall k, log' k = log k) -> ses_sim window now s log -> ses_sim window now s log'.
Proof.
  intros E ((Hl & Hq & Hm & H0) & Hc & Ho). split; [|done].
  split_and!; try done; intros k; rewrite ?E; auto.
Qed.

Lemma fold_max_ge l x : x <= fold_left Z.max l x /\ forall y, y ∈ l -> y <= fold_left Z.max l x.
Proof.
  revert x. induction l as [|z l IH]; intros x; simpl.
  - split; [lia|]. intros y Hy. by apply not_elem_of_nil in Hy.
  - destruct (IH (Z.max x z)) as [H1 H2]. split; [lia|].
    intros y [->|Hy]%elem_of_cons; [lia|by apply H2].
Qed.

Lemma max_list_ge l y : y ∈ l -> y <= max_list l.
Proof.
  destruct l as [|x l]; simpl; [intros Hn; by apply not_elem_of_nil in Hn|].
  destruct (fold_max_ge l x) as [H1 H2]. intros [->|Hy]%elem_of_cons; [done|by apply H2].
Qed.

Lemma forallb_perm {A} (p : A -> bool) l l' : l ≡ₚ l' -> forallb p l = forallb p l'.
Proof.
  induction 1; simpl; try congruence. destruct (p x), (p y); done.
Qed.

(** Inactive buckets always have room. *)
Lemma room_normalize log now buckets nb :
  nb ≡ₚ List.filter active buckets -> forallb (has_room log now) nb = forallb (has_room log now) buckets.
Proof.
  intros Hp. rewrite (forallb_perm _ _ _ Hp). clear Hp.
  induction buckets as [|b l IH]; simpl; [done|].
  destruct (active b) eqn:Ea; simpl; [by rewrite IH|]. unfold has_room at 2. rewrite Ea. done.
Qed.

(** The whole call on a session. *)
Lemma session_consume_sim window now s log buckets :
  ses_sim window now s log -> is_Some (ses_max_window_cache s) ->
  windows_agree window buckets -> NoDup (active_keys buckets) ->
  match session_consume_many_distinct buckets [] now s, spec_consume log buckets now with
  | (Ok _, s'), Some log' => ses_sim window now s' log'
  | (Err e, _), None => e = rate_limited
  | _, _ => False
  end.
Proof.
  intros Hs Hcache Hag Hnd. pose proof (normalize_perm buckets Hnd) as Hp.
  assert (Hb : forall b, b ∈ _normalize_buckets buckets -> b ∈ buckets /\ active b = true).
  { intros b. rewrite Hp, list_elem_of_In, List.filter_In, <- list_elem_of_In. done. }
  assert (Hroom : forallb (has_room log now) buckets = forallb (has_room log now) (_normalize_buckets buckets)).
  { rewrite (room_normalize log now buckets (_normalize_buckets buckets) Hp). done. }
  assert (Hch : forall k, charge log (active_keys buckets) now k
                          = charge log (map b_key (_normalize_buckets buckets)) now k).
  { intros k. apply charge_perm. unfold active_keys. by rewrite Hp. }
  unfold session_consume_many_distinct, spec_consume. rewrite Hroom.
  set (nb := _normalize_buckets buckets) in *. clearbody nb.
  change (_normalize_identities []) with (@nil Distinct). cbn [map for_each group_by_scope fold_left].
  destruct nb as [|b0 nb0].
  { apply (ses_sim_ext _ _ _ log); [|done]. intros k. rewrite Hch. unfold charge. simpl. by rewrite app_nil_r. }
  set (nb := b0 :: nb0) in *. rewrite app_nil_r.
  destruct (record_max_window_sim window now s log (max_list (map b_window_ms nb)) Hs Hcache)
    as (s1 & E1 & Hs1 & Hmax & _ & Hgs).
  unfold mbind, eff_bind. rewrite E1. cbn [get_state].
  assert (Hsw : exists s2, (if ses_global_sweep s1 then _global_sweep now else mret ()) s1 = (Ok (), s2) /\
    ses_sim window now s2 log /\ stored_max_window (ses_db s2) = stored_max_window (ses_db s1))
    by (case_match; [by apply global_sweep_sim|by exists s1]).
  destruct Hsw as (s2 & E2 & Hs2 & Hst2). unfold get_state. rewrite E2.
  assert (Hbw : forall b, b ∈ nb -> b_window_ms b = window (b_key b) /\ active b = true)
    by (intros b Hin; destruct (Hb b Hin); split; [by apply Hag|done]).
  pose proof (check_buckets_sim window now s2 log nb Hs2 Hbw) as Hck.
  destruct (_check_buckets nb now s2) as [[u|e] s3]; [|destruct Hck as [-> ->]; done].
  destruct Hck as (-> & Hs3 & Hst3). cbn [mret eff_ret].
  destruct (insert_buckets_sim window now s3 log nb Hs3) as (s4 & E4 & Hs4).
  { intros b Hin. destruct (Hbw b Hin) as [Ew Ha]. rewrite <- Ew. destruct (active_window b Ha).
    rewrite Hst3, Hst2. split; [done|]. etrans; [|exact Hmax]. apply max_list_ge.
    by apply list_elem_of_In, List.in_map, list_elem_of_In. }
  unfold mret, eff_ret. rewrite E4. by apply (ses_sim_ext _ _ _ (charge log (map b_key nb) now)).
Qed.

(** *** The session's own cache is constant *)

Create HintDb session.

Definition keeps_cache {A} (m : eff _PostgresSession A) : Prop :=
  forall s r s', m s = (r, s') -> ses_max_window_cache s' = ses_max_window_cache s.

Lemma keeps_bind {A B} (m : eff _PostgresSession A) (k : A -> eff _PostgresSession B) :
  keeps_cache m -> (forall a, keeps_cache (k a)) -> keeps_cache (m ≫= k).
Proof.
  intros Hm Hk s r s'. unfold mbind, eff_bind. destruct (m s) as [[a|e] s1] eqn:E.
  - intros H2%Hk. apply Hm in E. congruence.
  - intros [= <- <-]. by eapply Hm.
Qed.

Lemma keeps_ret {A} (a : A) : keeps_cache (mret a).
Proof. by intros s r s' [= <- <-]. Qed.

Lemma keeps_raise {A} e : keeps_cache (raise e : eff _ A).
Proof. by intros s r s' [= <- <-]. Qed.

Lemma keeps_get : keeps_cache get_state.
Proof. by intros s r s' [= <- <-]. Qed.

Lemma keeps_on_db f : keeps_cache (modify (on_db f)).
Proof. by intros s r s' [= <- <-]. Qed.

Lemma keeps_observe w : keeps_cache (modify (observe w)).
Proof. by intros s r s' [= <- <-]. Qed.

Lemma keeps_for_each {X} (f : X -> eff _PostgresSession unit) l :
  (forall x, keeps_cache (f x)) -> keeps_cache (for_each f l).
Proof. intros Hf. induction l; simpl; [apply keeps_ret|by apply keeps_bind]. Qed.

#[local] Hint Resolve keeps_bind keeps_ret keeps_raise keeps_get keeps_on_db keeps_observe keeps_for_each : session.

(** Split the conditionals of a session operation and apply the closure lemmas. *)
Ltac keeps :=
  repeat first
    [ apply keeps_bind; [|intros] | apply keeps_for_each; intros
    | progress auto with session | case_match | progress cbn zeta ].

Lemma session_consume_cache buckets identities now :
  keeps_cache (session_consume_many_distinct buckets identities now).
Proof.
  unfold session_consume_many_distinct, _record_max_window, _global_sweep, _check_buckets,
    _check_distinct_scope, _insert_buckets, upsert_identity. keeps.
Qed.

(** ** The limiter *)

Definition pg_sim (window : string -> Z) (last : Z) (l : PostgresRateLimiter) (log : admission_log) : Prop :=
  db_sim window last (pl_database l) log /\ pl_max_window_cache l <= stored_max_window (pl_database l).

Lemma pg_consume_sim window last l log buckets now :
  pg_sim window last l log -> last <= now -> windows_agree window buckets ->
  NoDup (active_keys buckets) ->
  match pg_consume_many buckets now l, spec_consume log buckets now with
  | (Ok _, l'), Some log' => pg_sim window now l' log'
  | (Err e, l'), None => e = rate_limited /\ pg_sim window now l' log
  | _, _ => False
  end.
Proof.
  intros [Hd Hc] Hle Hag Hnd. apply (db_sim_later _ _ now) in Hd; [|done].
  unfold pg_consume_many, pg_consume_many_distinct, with_identity_lock, _next_session.
  set (s0 := mkPostgresSession _ _ _ _).
  assert (Hs0 : ses_sim window now s0 log) by (split_and!; [done|by intros c [= <-]|done]).
  pose proof (session_consume_sim window now s0 log buckets Hs0 ltac:(by eexists) Hag Hnd) as Hstep.
  destruct (session_consume_many_distinct buckets [] now s0) as [[u|e] s1] eqn:Es, (spec_consume log buckets now); try done.
  destruct Hstep as (Hd1 & Hc1 & Ho1). split; [done|]. simpl. unfold _commit_session.
  apply session_consume_cache in Es as Ec. specialize (Hc1 _ Ec).
  destruct (ses_observed_max_window s1) as [w|]; [specialize (Ho1 w eq_refl); lia|done].
Qed.

#[export] Instance postgres_sliding_window : SlidingWindow pg_consume_many postgres_rate_limiter.
Proof.
  refine {| sim := pg_sim |}.
  - intros window last. split; [|done]. split_and!; [intros k; by split; constructor| |done|done].
    intros k. exists (last - window k). by split.
  - by intros window last s log [[Hl _] _].
  - intros. by eapply pg_consume_sim.
Defined.

(** ** Properties *)

(** The PostgreSQL limiter keeps the same bound as the in-memory one:
    over any run of serialised calls at non-decreasing times, no key is
    admitted more than its maximum in any window-long interval, in spite of
    the shared maximum-window row, the cached copy of it that skips the row,
    the global sweep every 128 calls and the rollback of rejected calls. *)
Lemma postgres_window_bound maximum window calls start :
  calls_ok maximum window start calls ->
  window_bounded maximum window (run_calls pg_consume_many calls postgres_rate_limiter (fun _ => [])).2.
Proof.
  intros Hc. apply (run_calls_bounded pg_consume_many postgres_rate_limiter maximum window calls start);
    [apply sim_init|by intros k t Hne|done].
Qed.

Lemma postgres_window_bound_witness :
  count_where (fun x => (120 - 100 <? x) && (x <=? 120))
    ((run_calls pg_consume_many Example_limiter.calls postgres_rate_limiter (fun _ => [])).2 "w") <= 2.
Proof.
  apply (postgres_window_bound Example_limiter.maximum Example_limiter.window Example_limiter.calls 0
    Example_limiter.calls_fit "w" 120). vm_compute. discriminate.
Defined.



(** Two buckets of one key in a call: the in-memory limiter has charged the key twice
    and refuses the next call, the PostgreSQL one admits it. *)
Example twice_charged :
  let pair := [mkBucket "w" 2 100; mkBucket "w" 2 100] in
  (run_calls consume_many [(pair, 10); Example_limiter.call 20] in_memory_rate_limiter (fun _ => [])).2 "w" = [10; 10]
  /\ (run_calls pg_consume_many [(pair, 10); Example_limiter.call 20] postgres_rate_limiter (fun _ => [])).2 "w" = [10; 10; 20].
Proof. vm_compute. split; reflexivity. Qed.
