(* ===== verification/Concurrency.v ===== *)
(** * Concurrency limits

    Models the concurrency limiters of [memory_router/rate_limit.py]. The
    in-memory limiter's [run] suspends while the operation runs, so it is split
    at the await into its entry and its [finally] block, and requests
    interleave as a step relation. The PostgreSQL limiter's leases are a table
    with acquire, refresh and release transactions; its heartbeat is a timed
    loop, in units of a third of a millisecond so that the interval
    [lease_ms / 3000] seconds is the integer [lease_ms]. *)

From Stdlib Require Import ZArith Lia.
From stdpp Require Import base sets strings numbers list relations.
From S2P Require Import Prelude Errors.

Local Open Scope Z_scope.

Definition concurrency_limited : exn :=
  EHttp (mkHttpError 429 "principal_concurrency_limited" "too many concurrent requests for principal"
           [("retry-after", "1")]).

(** ** In memory *)

(** [InMemoryConcurrencyLimiter.active] *)
Definition InMemoryConcurrencyLimiter : Type := list (string * Z).

(** The part of [run] before the operation is awaited. *)
Definition run_enter (bucket : string) (maximum : Z) : eff InMemoryConcurrencyLimiter unit :=
  st ← get_state;
  let active := default 0 (dict_get bucket st) in
  if maximum <=? active then raise concurrency_limited
  else put_state (dict_set bucket (active + 1) st).

(** The [finally] block of [run]. *)
Definition run_finally (bucket : string) : eff InMemoryConcurrencyLimiter unit :=
  st ← get_state;
  match dict_get bucket st with
  | None => raise (EOther "KeyError")
  | Some active =>
      let remaining := active - 1 in
      if negb (remaining =? 0) then put_state (dict_set bucket remaining st)
      else put_state (dict_pop bucket st)
  end.

(** The limiter together with the buckets of the operations in flight. *)
Record world := mkWorld { w_active : InMemoryConcurrencyLimiter; w_running : list string }.

Section in_memory.
Context (maximum : string -> Z).

(** One request enters or is refused, or one operation in flight finishes. *)
Inductive conc_step : world -> world -> Prop :=
  | conc_enter bucket active active' running u :
      run_enter bucket (maximum bucket) active = (Ok u, active') ->
      conc_step (mkWorld active running) (mkWorld active' (bucket :: running))
  | conc_refuse bucket active active' running e :
      run_enter bucket (maximum bucket) active = (Err e, active') ->
      conc_step (mkWorld active running) (mkWorld active' running)
  | conc_finish bucket active active' r1 r2 res :
      run_finally bucket active = (res, active') ->
      conc_step (mkWorld active (r1 ++ bucket :: r2)) (mkWorld active' (r1 ++ r2)).

Definition running_in (bucket : string) (running : list string) : Z :=
  count_where (fun b => bool_decide (b = bucket)) running.

(** The counter of a bucket is the number of its operations in flight; there
    is no entry for a bucket without any. *)
Definition conc_inv (w : world) : Prop :=
  NoDup (map fst (w_active w)) /\
  forall bucket,
    dict_get bucket (w_active w) = (if running_in bucket (w_running w) =? 0 then None else Some (running_in bucket (w_running w))) /\
    running_in bucket (w_running w) <= Z.max 0 (maximum bucket).

Lemma running_in_cons b bucket running :
  running_in bucket (b :: running) =
  (if decide (b = bucket) then 1 else 0) + running_in bucket running.
Proof.
  unfold running_in. simpl. rewrite count_where_cons.
  destruct (decide (b = bucket)); [by rewrite bool_decide_true|by rewrite bool_decide_false].
Qed.

Lemma running_in_mid b bucket r1 r2 :
  running_in bucket (r1 ++ b :: r2) =
  (if decide (b = bucket) then 1 else 0) + running_in bucket (r1 ++ r2).
Proof.
  unfold running_in. simpl. rewrite !count_where_app, count_where_cons.
  destruct (decide (b = bucket)); [rewrite bool_decide_true by done|rewrite bool_decide_false by done]; lia.
Qed.

Lemma running_in_nonneg bucket r : 0 <= running_in bucket r.
Proof. apply count_where_nonneg. Qed.

Lemma conc_inv_enter bucket active active' running u :
  conc_inv (mkWorld active running) -> run_enter bucket (maximum bucket) active = (Ok u, active') ->
  conc_inv (mkWorld active' (bucket :: running)).
Proof.
  intros [Hnd Hinv] Hr. unfold run_enter, mbind, eff_bind, get_state in Hr. cbn zeta in Hr.
  destruct (maximum bucket <=? _) eqn:Em; [done|]. injection Hr as _ <-. split_bool.
  destruct (Hinv bucket) as [Hget Hle]. simpl in *. rewrite Hget in *.
  pose proof (running_in_nonneg bucket running) as Hnn.
  assert (Hd : default 0 (if running_in bucket running =? 0 then None
                 else Some (running_in bucket running)) = running_in bucket running)
    by (destruct (_ =? 0) eqn:E; split_bool; simpl; lia).
  rewrite Hd in *. split; [by apply dict_set_nodup|]. intros b. simpl. rewrite running_in_cons.
  rewrite dict_get_set. destruct (Hinv b) as [Hgb Hlb].
  destruct (decide (b = bucket)) as [->|Hne].
  - rewrite decide_True by done. rewrite (proj2 (Z.eqb_neq _ 0)) by lia. split; [f_equal; lia|lia].
  - rewrite decide_False by done. simpl. done.
Qed.

Lemma conc_inv_finish bucket active active' r1 r2 res :
  conc_inv (mkWorld active (r1 ++ bucket :: r2)) -> run_finally bucket active = (res, active') ->
  res = Ok () /\ conc_inv (mkWorld active' (r1 ++ r2)).
Proof.
  intros [Hnd Hinv] Hr. unfold run_finally, mbind, eff_bind, get_state in Hr. simpl in *.
  set (n := running_in bucket (r1 ++ r2)) in *.
  pose proof (running_in_nonneg bucket (r1 ++ r2)) as Hnn. fold n in Hnn.
  destruct (Hinv bucket) as [Hget Hle]. rewrite running_in_mid, decide_True in Hget, Hle by done.
  fold n in Hget, Hle. rewrite (proj2 (Z.eqb_neq _ 0)) in Hget by lia. rewrite Hget in Hr.
  replace (1 + n - 1) with n in Hr by lia.
  destruct (n =? 0) eqn:En; simpl in Hr; unfold put_state in Hr; injection Hr as <- <-; split_bool; (split; [done|]).
  - split; [by apply dict_pop_nodup|]. intros b. simpl. rewrite dict_get_pop.
    destruct (Hinv b) as [Hgb Hlb]. rewrite running_in_mid in Hgb, Hlb.
    destruct (decide (b = bucket)) as [->|Hne].
    + fold n. rewrite En. split; [done|lia].
    + rewrite decide_False in Hgb, Hlb by done. done.
  - split; [by apply dict_set_nodup|]. intros b. simpl. rewrite dict_get_set.
    destruct (Hinv b) as [Hgb Hlb]. rewrite running_in_mid in Hgb, Hlb.
    destruct (decide (b = bucket)) as [->|Hne].
    + fold n. rewrite (proj2 (Z.eqb_neq _ 0)) by lia. split; [done|]. fold n in Hlb. lia.
    + rewrite decide_False in Hgb, Hlb by done. done.
Qed.

Lemma conc_inv_step w w' : conc_inv w -> conc_step w w' -> conc_inv w'.
Proof.
  intros Hi Hs. destruct Hs as [b a a' r u Hr|b a a' r e Hr|b a a' r1 r2 res Hr].
  - by eapply conc_inv_enter.
  - assert (a' = a) as ->; [|done]. unfold run_enter, mbind, eff_bind, get_state in Hr.
    case_match; [by injection Hr|done].
  - by eapply conc_inv_finish.
Qed.

Lemma conc_inv_init : conc_inv (mkWorld [] []).
Proof. split; [apply NoDup_nil_2|]. intros b. split; [done|]. unfold running_in, count_where. simpl. lia. Qed.

Lemma conc_inv_reachable w : rtc conc_step (mkWorld [] []) w -> conc_inv w.
Proof.
  intros Hr. remember (mkWorld [] []) as w0 eqn:E. assert (Hi : conc_inv w0) by (subst; apply conc_inv_init).
  clear E. induction Hr as [|w0 w1 w Hs Hr IH]; [done|]. apply IH. by eapply conc_inv_step.
Qed.
End in_memory.

(** ** PostgreSQL leases *)

Record lease := mkLease { le_bucket : string; le_id : string; le_expires_at_ms : Z }.

(** The primary key of the lease table. *)
Definition lease_key (l : lease) : string * string := (le_bucket l, le_id l).
Definition in_bucket (bucket : string) (l : lease) : bool := bool_decide (le_bucket l = bucket).

(** The constructor's guard. *)
Definition postgres_concurrency_limiter (lease_ms : Z) : result Z :=
  if lease_ms <? 3000 then Err (EValueError "lease_ms must be at least 3000") else Ok lease_ms.

Section leases.
Context (lease_ms : Z).

(** [_acquire] at the database's time [now]. *)
Definition _acquire (bucket lease_id : string) (maximum now : Z) : eff (list lease) unit := transaction (
  _ ← modify (delete_where (fun l => in_bucket bucket l && (le_expires_at_ms l <=? now)));
  t ← get_state;
  if maximum <=? count_where (in_bucket bucket) t then raise concurrency_limited
  else if existsb (fun l => bool_decide (lease_key l = (bucket, lease_id))) t
  then raise (EDatabase "duplicate key value violates unique constraint")
  else put_state (t ++ [mkLease bucket lease_id (now + lease_ms)])).

Definition lease_matches (bucket lease_id : string) (now : Z) (l : lease) : bool :=
  bool_decide (lease_key l = (bucket, lease_id)) && (now <? le_expires_at_ms l).

(** [_refresh]: [UPDATE ... RETURNING], lost when no row matched. *)
Definition _refresh (bucket lease_id : string) (now : Z) : eff (list lease) unit := transaction (
  t ← get_state;
  _ ← modify (update_where (lease_matches bucket lease_id now)
        (fun l => mkLease (le_bucket l) (le_id l) (now + lease_ms)));
  if existsb (lease_matches bucket lease_id now) t then mret ()
  else raise (ERuntimeError "principal concurrency lease was lost")).

Definition _release (bucket lease_id : string) : eff (list lease) unit :=
  modify (delete_where (fun l => bool_decide (lease_key l = (bucket, lease_id)))).

(** The transactions of concurrent requests, in commit order. *)
Inductive lease_op :=
  | LAcquire (bucket lease_id : string)
  | LRefresh (bucket lease_id : string)
  | LRelease (bucket lease_id : string).

Context (maximum : string -> Z).

Definition run_op (op : lease_op) (now : Z) : eff (list lease) unit :=
  match op with
  | LAcquire b i => _acquire b i (maximum b) now
  | LRefresh b i => _refresh b i now
  | LRelease b i => _release b i
  end.

(** Run the transactions whatever their outcome. *)
Fixpoint run_ops (ops : list (lease_op * Z)) (t : list lease) : list lease :=
  match ops with
  | [] => t
  | (op, now) :: ops' => run_ops ops' (run_op op now t).2
  end.

Fixpoint times_ok (last : Z) (ops : list (lease_op * Z)) : Prop :=
  match ops with
  | [] => True
  | (_, now) :: ops' => last <= now /\ times_ok now ops'
  end.

Fixpoint end_time (last : Z) (ops : list (lease_op * Z)) : Z :=
  match ops with
  | [] => last
  | (_, now) :: ops' => end_time now ops'
  end.

Definition live_in (bucket : string) (now : Z) (l : lease) : bool :=
  in_bucket bucket l && (now <? le_expires_at_ms l).

(** Live leases never exceed the maximum; lease keys are unique. *)
Definition lease_inv (last : Z) (t : list lease) : Prop :=
  keys_unique lease_key t /\
  forall bucket, count_where (live_in bucket last) t <= Z.max 0 (maximum bucket).

Lemma live_later bucket last now t :
  last <= now -> count_where (live_in bucket now) t <= count_where (live_in bucket last) t.
Proof.
  intros Hle. apply count_where_le. intros l _ Hl. unfold live_in in *. split_bool; [done|].
  apply Z.ltb_lt. lia.
Qed.

Lemma lease_inv_later last now t : last <= now -> lease_inv last t -> lease_inv now t.
Proof. intros Hle [Hu Hb]. split; [done|]. intros b. etrans; [by apply live_later|done]. Qed.

Lemma lease_inv_delete now t p : lease_inv now t -> lease_inv now (delete_where p t).
Proof.
  intros [Hu Hb]. split; [by apply keys_unique_delete|]. intros b.
  etrans; [apply count_where_delete_le|done].
Qed.

Lemma lease_inv_acquire now t bucket lease_id r t' :
  lease_inv now t -> _acquire bucket lease_id (maximum bucket) now t = (r, t') -> lease_inv now t'.
Proof.
  intros Hi Ha. destruct r as [u|e]; [|by apply transaction_err in Ha as [-> _]].
  unfold _acquire in Ha. apply transaction_ok_inv in Ha. unfold mbind, eff_bind, modify, get_state in Ha.
  destruct (maximum bucket <=? _) eqn:Em; [done|].
  destruct (existsb _ _) eqn:Eu; [done|]. injection Ha as _ <-. split_bool.
  apply (lease_inv_delete _ _ (fun l => in_bucket bucket l && (le_expires_at_ms l <=? now))) in Hi.
  set (t1 := delete_where _ t) in *. destruct Hi as [Hu Hb]. split.
  - apply keys_unique_snoc; [|done]. intros l Hl Hk. rewrite <- not_true_iff_false in Eu. apply Eu.
    apply existsb_exists. exists l. split; [by apply list_elem_of_In|]. by apply bool_decide_eq_true.
  - intros b. rewrite count_where_app, count_where_cons. change (count_where _ []) with 0.
    unfold live_in at 2. unfold in_bucket. simpl. case_bool_decide as Hbk; simpl; [subst|specialize (Hb b); lia].
    assert (count_where (live_in b now) t1 <= count_where (in_bucket b) t1)
      by (apply count_where_le; intros l _ Hl; unfold live_in in Hl; by split_bool).
    case_match; lia.
Qed.

Lemma lease_inv_refresh now t bucket lease_id r t' :
  lease_inv now t -> _refresh bucket lease_id now t = (r, t') -> lease_inv now t'.
Proof.
  intros [Hu Hb] Ha. destruct r as [u|e]; [|by apply transaction_err in Ha as [-> _]].
  unfold _refresh in Ha. apply transaction_ok_inv in Ha. unfold mbind, eff_bind, modify, get_state in Ha.
  destruct (existsb _ _) in Ha; [|done]. injection Ha as _ <-. split; [by apply keys_unique_update|].
  intros b. etrans; [|apply (Hb b)]. clear. unfold update_where.
  induction t as [|l t IH]; simpl; [done|]. rewrite !count_where_cons.
  destruct (lease_matches bucket lease_id now l) eqn:E; [|lia].
  unfold lease_matches in E. split_bool. unfold live_in, in_bucket in *. simpl.
  destruct (bool_decide (le_bucket l = b)); simpl; [|lia].
  rewrite (proj2 (Z.ltb_lt now (le_expires_at_ms l))) by done. case_match; lia.
Qed.

Lemma lease_inv_run ops last t :
  lease_inv last t -> times_ok last ops ->
  lease_inv (end_time last ops) (run_ops ops t).
Proof.
  revert last t. induction ops as [|[op now] ops IH]; intros last t Hi Ht; simpl; [done|].
  destruct Ht as [Hle Ht]. apply (lease_inv_later _ now) in Hi; [|done].
  assert (Hstep : lease_inv now (run_op op now t).2).
  { destruct (run_op op now t) as [r t'] eqn:E. simpl. destruct op; simpl in E.
    - by eapply lease_inv_acquire.
    - by eapply lease_inv_refresh.
    - injection E as <- <-. by apply lease_inv_delete. }
  by apply IH.
Qed.
End leases.

(** ** The heartbeat *)

(** Times in thirds of a millisecond. *)
Section heartbeat.
Context (lease_ms : Z).

(** [interval = lease_ms / 3000] seconds, [lease_ms / 1000] seconds, [1.0] second. *)
Definition hb_interval : Z := lease_ms.
Definition hb_lease : Z := 3 * lease_ms.
Definition hb_second : Z := 3000.

Record hb_state := mkHb { hb_deadline : Z; hb_next_delay : Z }.

(** The state when the loop is entered at clock [t0]. *)
Definition hb_init (t0 : Z) : hb_state := mkHb (t0 + hb_lease) hb_interval.

Inductive refresh_outcome := RefreshOk | RefreshLeaseLost | RefreshException.

Inductive hb_result := HbContinue (st : hb_state) | HbLost | HbRefreshFailed.

(** What the loop does when a refresh attempt has ended at clock [t]. *)
Definition hb_step (st : hb_state) (outcome : refresh_outcome) (t : Z) : hb_result :=
  match outcome with
  | RefreshOk => HbContinue (mkHb (t + hb_lease) hb_interval)
  | RefreshLeaseLost => HbLost
  | RefreshException =>
      let remaining := hb_deadline st - t in
      if remaining <=? hb_interval then HbRefreshFailed
      else HbContinue (mkHb (hb_deadline st) (Z.min hb_second (remaining - hb_interval)))
  end.

(** The loop over the outcomes of its attempts. An attempt that follows a sleep
    of [hb_next_delay] starts at [t + hb_next_delay] and ends at its clock
    reading, at most half an interval later ([wait_for]'s timeout). [held] is
    the expiry of the lease in the database: a successful refresh moves it to
    the database's time during the attempt plus the lease. The result is the
    clock when the loop raised [ConcurrencyLeaseRefreshFailed], with the
    expiry then in force. *)
Inductive hb_run : hb_state -> Z -> Z -> Z -> Z -> Prop :=
  | hb_fails st t held t' :
      t + hb_next_delay st <= t' -> 2 * (t' - (t + hb_next_delay st)) <= hb_interval ->
      hb_step st RefreshException t' = HbRefreshFailed ->
      hb_run st t held t' held
  | hb_retries st st' t held t' tf heldf :
      t + hb_next_delay st <= t' -> 2 * (t' - (t + hb_next_delay st)) <= hb_interval ->
      hb_step st RefreshException t' = HbContinue st' ->
      hb_run st' t' held tf heldf -> hb_run st t held tf heldf
  | hb_refreshes st st' t held t' db tf heldf :
      t + hb_next_delay st <= t' -> 2 * (t' - (t + hb_next_delay st)) <= hb_interval ->
      t + hb_next_delay st <= db <= t' ->
      hb_step st RefreshOk t' = HbContinue st' ->
      hb_run st' t' (db + hb_lease) tf heldf -> hb_run st t held tf heldf.

(** The next attempt starts an interval before the deadline, and the deadline
    is at most half an interval after the lease's expiry. *)
Definition hb_inv (st : hb_state) (t held : Z) : Prop :=
  0 < hb_next_delay st /\ t + hb_next_delay st <= hb_deadline st - hb_interval /\
  2 * (hb_deadline st - held) <= hb_interval.

Lemma hb_inv_run st t held tf heldf : 0 < lease_ms -> hb_inv st t held -> hb_run st t held tf heldf -> tf <= heldf.
Proof.
  intros Hl Hi Hr. unfold hb_inv, hb_interval in *. induction Hr as
    [st t held t' H1 H2 H3|st st' t held t' tf heldf H1 H2 H3 Hr IH|st st' t held t' db tf heldf H1 H2 Hdb H3 Hr IH];
    unfold hb_step, hb_interval, hb_second, hb_lease in *.
  - lia.
  - cases_in H3. split_bool. apply IH. simpl. lia.
  - simplify_eq. apply IH. simpl. lia.
Qed.

(** Attempts never spin: between two attempts the loop always sleeps. *)
Lemma hb_step_delay st outcome t st' :
  0 < lease_ms -> hb_step st outcome t = HbContinue st' -> 0 < hb_next_delay st' <= Z.max hb_interval hb_second.
Proof.
  unfold hb_step, hb_interval, hb_second, hb_lease. intros Hl Hs. cases_in Hs; split_bool; simpl; lia.
Qed.
End heartbeat.

(** ** Properties *)

(** In every state reachable by requests entering, being refused and
    finishing in any order, the counter of each bucket is exactly its number of
    operations in flight, that number never exceeds the bucket's maximum, and
    finishing an operation never fails on a missing counter. *)
Lemma concurrency_invariant maximum w :
  rtc (conc_step maximum) (mkWorld [] []) w ->
  conc_inv maximum w /\
  (forall bucket r1 r2, w_running w = r1 ++ bucket :: r2 -> (run_finally bucket (w_active w)).1 = Ok ()).
Proof.
  intros Hr. apply conc_inv_reachable in Hr as Hi. split; [done|]. intros bucket r1 r2 E.
  destruct w as [active running]. simpl in *. subst.
  destruct (run_finally bucket active) as [res a'] eqn:Ef. simpl. by eapply conc_inv_finish.
Qed.

Lemma concurrency_invariant_witness :
  conc_inv (fun _ => 1) (mkWorld [("a", 1)] ["a"]).
Proof.
  refine (proj1 (concurrency_invariant (fun _ => 1) (mkWorld [("a", 1)] ["a"]) _)).
  apply rtc_once. eapply conc_enter. vm_compute. reflexivity.
Defined.

(** Whatever acquisitions, refreshes and releases are committed in
    whatever order, at non-decreasing database times, a bucket never has more
    unexpired leases than its maximum, and lease identities stay unique: a
    refresh can neither resurrect an expired lease nor take a slot twice. *)
Lemma lease_bound lease_ms maximum ops start bucket :
  times_ok start ops ->
  keys_unique lease_key (run_ops lease_ms maximum ops []) /\
  count_where (live_in bucket (end_time start ops)) (run_ops lease_ms maximum ops []) <= Z.max 0 (maximum bucket).
Proof.
  intros Ht. destruct (lease_inv_run lease_ms maximum ops start []) as [Hu Hb]; [|done|by split].
  split; [apply NoDup_nil_2|]. intros b. unfold count_where. simpl. lia.
Qed.

Lemma lease_bound_witness :
  run_ops 3000 (fun _ => 1) [(LAcquire "b" "x", 10); (LAcquire "b" "y", 20); (LRefresh "b" "x", 3000)] []
    = [mkLease "b" "x" 6000] /\
  count_where (live_in "b" 3000)
    (run_ops 3000 (fun _ => 1) [(LAcquire "b" "x", 10); (LAcquire "b" "y", 20); (LRefresh "b" "x", 3000)] []) <= 1.
Proof.
  split; [vm_compute; reflexivity|].
  refine (proj2 (lease_bound 3000 (fun _ => 1)
    [(LAcquire "b" "x", 10); (LAcquire "b" "y", 20); (LRefresh "b" "x", 3000)] 0 "b" _)).
  simpl. lia.
Defined.

(** The heartbeat gives up in time. If refresh attempts keep to their
    timeout and the loop started within half an interval of the acquisition,
    the loop raises its refresh failure, which cancels the operation, no later
    than the moment the lease expires in the database, even though its local
    deadline is computed from the end of the last successful attempt. *)
Lemma heartbeat_in_time lease_ms t0 held tf heldf :
  is_ok (postgres_concurrency_limiter lease_ms) = true ->
  2 * (t0 + hb_lease lease_ms - held) <= hb_interval lease_ms ->
  hb_run lease_ms (hb_init lease_ms t0) t0 held tf heldf -> tf <= heldf.
Proof.
  unfold postgres_concurrency_limiter. intros Hl Hheld. case_match; [done|]. split_bool.
  apply hb_inv_run; [lia|]. unfold hb_inv, hb_init, hb_interval, hb_lease in *. simpl. lia.
Qed.

(** A lease of 3 s acquired at 0: an attempt fails at 4500, the next at 7000,
    and the loop gives up then, before the expiry at 9000. *)
Lemma heartbeat_in_time_witness : 7000 <= 9000.
Proof.
  apply (heartbeat_in_time 3000 0 9000 7000 9000); [reflexivity|by vm_compute|].
  eapply hb_retries with (t' := 4500); [by vm_compute|by vm_compute|vm_compute; reflexivity|].
  apply hb_fails; [by vm_compute|by vm_compute|vm_compute; reflexivity].
Defined.
