(* ===== verification/Repository.v ===== *)
(** * The quarantine repository

    Models [memory_router/repository.py]: the quarantine tables with their
    unique indexes, admission of an item ([store]) with its row-locked checks
    and capacity limits, lookups, the review queue listing and the counters.

    A row's envelope column is the JSON value whose compact text it holds, so
    [stored] (which parses that text back) is the identity here; the byte count
    is the length of the text. Event identifiers are fresh numbers in place of
    random UUIDs. An SQL statement that would break a unique index raises and
    the transaction rolls back. Timestamps are compared as text, as SQL and
    Python do. *)

From Stdlib Require Import ZArith Lia.
From stdpp Require Import base sets strings numbers list.
From S2P Require Import Prelude Errors Text Sha256 Json JsonParse Timestamps.

Local Open Scope Z_scope.

(** ** Data *)

Inductive status :=
  | PENDING | POSTPONED | REVIEW_IN_PROGRESS | REVIEW_SIDE_EFFECT_STARTED
  | REVIEW_SIDE_EFFECT_COMPLETED | REVIEWED_ALLOWED | REVIEWED_BLOCKED.

#[export] Instance status_eq_dec : EqDecision status.
Proof. solve_decision. Defined.

Definition status_text (s : status) : string :=
  match s with
  | PENDING => "pending"
  | POSTPONED => "postponed"
  | REVIEW_IN_PROGRESS => "review_in_progress"
  | REVIEW_SIDE_EFFECT_STARTED => "review_side_effect_started"
  | REVIEW_SIDE_EFFECT_COMPLETED => "review_side_effect_completed"
  | REVIEWED_ALLOWED => "reviewed_allowed"
  | REVIEWED_BLOCKED => "reviewed_blocked"
  end.

Definition REVIEWABLE_STATUSES : list status := [PENDING; POSTPONED].
Definition IN_REVIEW_STATUSES : list status :=
  [REVIEW_IN_PROGRESS; REVIEW_SIDE_EFFECT_STARTED; REVIEW_SIDE_EFFECT_COMPLETED].
Definition FINAL_STATUSES : list status := [REVIEWED_ALLOWED; REVIEWED_BLOCKED].

Definition SECURITY_EVENT_IDENTITY_LIMIT : Z := 64.
Definition MEMORY_REVIEW_BATCH_SIZE : nat := 200.

(** A row of [quarantine_items]; an item to store has the same fields. *)
Record item := mkItem {
  it_quarantine_id : string;
  it_created_at : string;
  it_updated_at : string;
  it_kind : string;
  it_reason : string;
  it_writer_id : option string;
  it_source : option string;
  it_source_bank : option string;
  it_source_memory_id : option string;
  it_source_content_sha256 : option string;
  it_dedupe_key : option string;
  it_sha256 : string;
  it_encrypted : option json;
  it_encrypted_bytes : Z;
  it_status : status;
  it_postpone_count : Z;
  it_requarantine_count : Z;
  it_expires_at : option string;
  it_bank_id : option string
}.

#[export] Instance item_eq_dec : EqDecision item.
Proof. solve_decision. Defined.

(** A row of [quarantine_events]. *)
Record event := mkEvent {
  ev_id : Z;
  ev_quarantine_id : string;
  ev_occurred_at : string;
  ev_type : string;
  ev_details : json
}.

Record qdb := mkQdb { q_items : list item; q_events : list event; q_next_event : Z }.

Definition set_items (t : list item) (d : qdb) : qdb := mkQdb t (q_events d) (q_next_event d).

(** The partial unique indexes of the table. *)
Definition memory_key (i : item) : option (string * string) :=
  match it_source_bank i, it_source_memory_id i with
  | Some b, Some m => Some (b, m)
  | _, _ => None
  end.

Definition unique_ok (t : list item) : bool :=
  bool_decide (NoDup (map it_quarantine_id t))
  && bool_decide (NoDup (omap memory_key t)) && bool_decide (NoDup (omap it_dedupe_key t)).

(** A statement on [quarantine_items], refused when it breaks an index. *)
Definition execute_items (f : list item -> list item) : eff qdb unit :=
  d ← get_state;
  let t := f (q_items d) in
  if unique_ok t then put_state (set_items t d)
  else raise (EDatabase "UNIQUE constraint failed").

(** [insert_event], with the actor added to the details. *)
Definition insert_event (quarantine_id event_type at_ : string) (details : list (string * json))
    (actor : option string) : eff qdb unit :=
  let payload := match actor with Some a => dict_set "actor" (JStr a) details | None => details end in
  modify (fun d => mkQdb (q_items d)
    (q_events d ++ [mkEvent (q_next_event d) quarantine_id at_ event_type (JDict payload)])
    (q_next_event d + 1)).

(** ** Snapshots and evidence *)

(** The dictionary [stored] returns, as JSON. *)
Definition item_json (i : item) : json :=
  JDict [("quarantine_id", JStr (it_quarantine_id i)); ("created_at", JStr (it_created_at i));
         ("updated_at", JStr (it_updated_at i)); ("kind", JStr (it_kind i)); ("reason", JStr (it_reason i));
         ("writer_id", jopt (it_writer_id i)); ("source", jopt (it_source i));
         ("source_bank", jopt (it_source_bank i)); ("source_memory_id", jopt (it_source_memory_id i));
         ("source_content_sha256", jopt (it_source_content_sha256 i)); ("dedupe_key", jopt (it_dedupe_key i));
         ("sha256", JStr (it_sha256 i)); ("encrypted_bytes", JInt (it_encrypted_bytes i));
         ("status", JStr (status_text (it_status i))); ("postpone_count", JInt (it_postpone_count i));
         ("requarantine_count", JInt (it_requarantine_count i)); ("expires_at", jopt (it_expires_at i));
         ("bank_id", jopt (it_bank_id i)); ("encrypted", default JNull (it_encrypted i))].

Record AdmissionSnapshot := mkAdmissionSnapshot { fingerprint : option string }.

#[export] Instance snapshot_eq_dec : EqDecision AdmissionSnapshot.
Proof. solve_decision. Defined.

Record AdmissionEvidence := mkAdmissionEvidence { plaintext : string }.

Section evidence.
Context `{Rfc8785}.

(** [AdmissionSnapshot.capture] *)
Definition capture (i : option item) : result AdmissionSnapshot :=
  match i with
  | None => Ok (mkAdmissionSnapshot None)
  | Some i => s ← canonical_json (item_json i); Ok (mkAdmissionSnapshot (Some (sha256_hex s)))
  end.

(** [AdmissionEvidence.matches] *)
Definition evidence_matches (self : AdmissionEvidence) (incoming_sha : string) (existing : item) : bool :=
  if negb (bool_decide (sha256_hex (plaintext self) = incoming_sha)) then false
  else
    match it_encrypted existing with
    | Some (JDict envelope) =>
        match dict_get "created_at" envelope with
        | Some (JStr created_at) =>
            match parse_iso created_at, json_loads (plaintext self) with
            | Some _, Some (JDict value) =>
                match canonical_json (JDict (dict_set "created_at" (JStr created_at) value)) with
                | Ok s => bool_decide (sha256_hex s = it_sha256 existing)
                | Err _ => false
                end
            | _, _ => false
            end
        | _ => false
        end
    | _ => false
    end.

Definition _same_evidence (i existing : item) (incoming_evidence : option AdmissionEvidence) : bool :=
  bool_decide (it_quarantine_id i = it_quarantine_id existing)
  && bool_decide (it_kind i = it_kind existing)
  && bool_decide (it_reason i = it_reason existing)
  && bool_decide (it_writer_id i = it_writer_id existing)
  && bool_decide (it_source i = it_source existing)
  && bool_decide (it_source_bank i = it_source_bank existing)
  && bool_decide (it_source_memory_id i = it_source_memory_id existing)
  && bool_decide (it_source_content_sha256 i = it_source_content_sha256 existing)
  && bool_decide (it_dedupe_key i = it_dedupe_key existing)
  && bool_decide (it_bank_id i = it_bank_id existing)
  && (bool_decide (it_sha256 i = it_sha256 existing)
      || match incoming_evidence with
         | Some e => evidence_matches e (it_sha256 i) existing
         | None => false
         end).
End evidence.

(** ** Predicates on rows *)

(** [is_expired], [_expired], [_is_pending] *)
Definition is_expired (i : item) (at_ : string) : bool :=
  match it_expires_at i with Some e => str_le e at_ | None => false end.

Definition _expired (i : item) (at_ : string) : bool :=
  elem (it_status i) REVIEWABLE_STATUSES && is_expired i at_.

Definition _is_pending (i : option item) : bool :=
  match i with Some i => elem (it_status i) REVIEWABLE_STATUSES | None => false end.

Definition _same_scope (left right : item) : bool :=
  if bool_decide (it_reason left = "unknown_writer") || bool_decide (it_reason right = "unknown_writer") then
    bool_decide (it_reason left = it_reason right) && bool_decide (it_reason right = "unknown_writer")
  else if bool_decide (it_writer_id left <> None) || bool_decide (it_writer_id right <> None) then
    bool_decide (it_writer_id left <> None) && bool_decide (it_writer_id left = it_writer_id right)
  else bool_decide (it_kind left = it_kind right).

(** [status IN ('pending','postponed') AND (expires_at IS NULL OR expires_at>?)] *)
Definition live_pending (at_ : string) (i : item) : bool :=
  elem (it_status i) REVIEWABLE_STATUSES
  && match it_expires_at i with None => true | Some e => str_lt at_ e end.

(** [encrypted_bytes<>0 AND NOT(status IN (...) AND expires_at IS NOT NULL AND expires_at<=?)] *)
Definition counted_bytes (at_ : string) (i : item) : bool :=
  negb (it_encrypted_bytes i =? 0) && negb (_expired i at_).

(** The scope condition of [_scoped_pending_count]. *)
Definition in_scope (target : item) (i : item) : bool :=
  if decide (it_reason target = "unknown_writer") then bool_decide (it_reason i = "unknown_writer")
  else match it_writer_id target with
       | Some w => negb (bool_decide (it_reason i = "unknown_writer")) && bool_decide (it_writer_id i = Some w)
       | None => negb (bool_decide (it_reason i = "unknown_writer")) && bool_decide (it_writer_id i = None)
                 && bool_decide (it_kind i = it_kind target)
       end.

Definition _scoped_pending_count (t : list item) (i : item) (at_ : string) : Z :=
  count_where (fun r => live_pending at_ r && in_scope i r) t.

(** ** Capacity *)

Record Capacity := mkCapacity {
  max_pending_items : Z;
  max_pending_items_per_writer : Z;
  max_encrypted_bytes : Z;
  max_pending_items_per_bank : Z
}.

(** [_CAPACITY_TOTALS_SQL] *)
Definition pending_count (t : list item) (at_ : string) : Z := count_where (live_pending at_) t.
Definition total_bytes (t : list item) (at_ : string) : Z := sum_where it_encrypted_bytes (counted_bytes at_) t.
Definition security_event_count (t : list item) : Z :=
  count_where (fun i => bool_decide (it_kind i = "security_event")) t.

(** [len(json.dumps(item["encrypted"], ...).encode("utf-8"))] *)
Definition envelope_bytes (i : item) : Z := slen (json_dumps (default JNull (it_encrypted i))).

Definition _assert_security_event_capacity (i : item) (existing : option item) (t : list item) : result unit :=
  if bool_decide (it_kind i = "security_event") && bool_decide (existing = None)
     && (SECURITY_EVENT_IDENTITY_LIMIT <=? security_event_count t)
  then Err (raise_http 507 "quarantine_security_event_capacity_exceeded"
              "security event identity capacity is exhausted")
  else Ok ().

Definition _assert_bank_capacity (t : list item) (i : item) (existing_live : option item)
    (existing_pending : bool) (capacity : Capacity) (at_ : string) : result unit :=
  match it_bank_id i with
  | None => Ok ()
  | Some bank_id =>
      if max_pending_items_per_bank capacity <=? 0 then Ok ()
      else
        let bank_pending := count_where (fun r => live_pending at_ r && bool_decide (it_bank_id r = Some bank_id)) t in
        let bank_pending :=
          match existing_live with
          | Some e => if existing_pending && bool_decide (it_bank_id e = Some bank_id)
                      then bank_pending - 1 else bank_pending
          | None => bank_pending
          end in
        if max_pending_items_per_bank capacity <? bank_pending + 1
        then Err (raise_http 507 "quarantine_bank_capacity_exceeded" "bank quarantine capacity is exhausted")
        else Ok ()
  end.

Definition _assert_capacity (t : list item) (i : item) (existing : option item) (capacity : Capacity)
    (at_ : string) : result unit :=
  _ ← _assert_security_event_capacity i existing t;
  let existing_live := match existing with
                       | Some e => if _expired e at_ then None else Some e
                       | None => None
                       end in
  let existing_pending := _is_pending existing_live in
  let next_pending := pending_count t at_ - (if existing_pending then 1 else 0) + 1 in
  let existing_bytes := match existing_live with Some e => it_encrypted_bytes e | None => 0 end in
  let next_bytes := total_bytes t at_ - existing_bytes + envelope_bytes i in
  if (max_pending_items capacity <? next_pending) || (max_encrypted_bytes capacity <? next_bytes)
  then Err (raise_http 507 "quarantine_capacity_exceeded" "quarantine capacity is exhausted")
  else
    _ ← _assert_bank_capacity t i existing_live existing_pending capacity at_;
    if max_pending_items_per_writer capacity <=? 0 then Ok ()
    else
      let scoped := _scoped_pending_count t i at_ in
      let scoped := match existing_live with
                    | Some e => if existing_pending && _same_scope i e then scoped - 1 else scoped
                    | None => scoped
                    end in
      if max_pending_items_per_writer capacity <? scoped + 1
      then Err (raise_http 507 "quarantine_writer_capacity_exceeded" "writer quarantine capacity is exhausted")
      else Ok ().

(** ** Admission *)

Inductive store_mode := ModeId | ModeMemory | ModeRequest.

#[export] Instance store_mode_eq_dec : EqDecision store_mode.
Proof. solve_decision. Defined.

(** [_find_existing]: the row of the mode's key, locked for the transaction. *)
Definition existing_row (mode : store_mode) (i r : item) : bool :=
  match mode with
  | ModeMemory =>
      bool_decide (it_source_bank r = it_source_bank i /\ it_source_bank r <> None)
      && bool_decide (it_source_memory_id r = it_source_memory_id i /\ it_source_memory_id r <> None)
  | ModeRequest => bool_decide (it_dedupe_key r = it_dedupe_key i /\ it_dedupe_key r <> None)
  | ModeId => bool_decide (it_quarantine_id r = it_quarantine_id i)
  end.

Definition _find_existing (t : list item) (i : item) (mode : store_mode) : option item :=
  fetchone (existing_row mode i) t.

(** [_params]: the row inserted for an item. *)
Definition _params (i : item) : item :=
  mkItem (it_quarantine_id i) (it_created_at i) (it_updated_at i) (it_kind i) (it_reason i) (it_writer_id i)
    (it_source i) (it_source_bank i) (it_source_memory_id i) (it_source_content_sha256 i) (it_dedupe_key i)
    (it_sha256 i) (it_encrypted i) (envelope_bytes i) (it_status i) (it_postpone_count i)
    (it_requarantine_count i) (it_expires_at i) (it_bank_id i).

Definition insert_item (i : item) : eff qdb unit :=
  _ ← execute_items (fun t => t ++ [_params i]);
  insert_event (it_quarantine_id i) "quarantined" (it_created_at i)
    [("kind", JStr (it_kind i)); ("reason", JStr (it_reason i)); ("sha256", JStr (it_sha256 i))] None.

Definition refresh_row (i r : item) : item :=
  mkItem (it_quarantine_id r) (it_created_at r) (it_updated_at i) (it_kind i) (it_reason i) (it_writer_id i)
    (it_source i) (it_source_bank i) (it_source_memory_id i) (it_source_content_sha256 i) (it_dedupe_key i)
    (it_sha256 i) (it_encrypted i) (envelope_bytes i) (it_status r) (it_postpone_count r)
    (it_requarantine_count r + 1) (it_expires_at r) (it_bank_id i).

Definition _refresh (quarantine_id : string) (i : item) (count : Z) : eff qdb unit :=
  _ ← execute_items (update_where (has_key it_quarantine_id quarantine_id) (refresh_row i));
  if bool_decide (it_reason i = "auth_failed") then mret ()
  else insert_event quarantine_id "requarantined" (it_updated_at i)
         [("kind", JStr (it_kind i)); ("reason", JStr (it_reason i)); ("sha256", JStr (it_sha256 i));
          ("requarantine_count", JInt count)] None.

Definition reopen_expired_row (i r : item) : item :=
  mkItem (it_quarantine_id r) (it_created_at i) (it_updated_at i) (it_kind i) (it_reason i) (it_writer_id i)
    (it_source i) (it_source_bank i) (it_source_memory_id i) (it_source_content_sha256 i) (it_dedupe_key i)
    (it_sha256 i) (it_encrypted i) (envelope_bytes i) PENDING 0 (it_requarantine_count r + 1)
    (it_expires_at i) (it_bank_id i).

Definition _reopen_expired (quarantine_id : string) (i : item) : eff qdb unit :=
  _ ← execute_items (update_where (has_key it_quarantine_id quarantine_id) (reopen_expired_row i));
  insert_event quarantine_id "requarantined" (it_updated_at i)
    [("kind", JStr (it_kind i)); ("reason", JStr (it_reason i)); ("sha256", JStr (it_sha256 i));
     ("expired", JBool true)] None.

Definition reopen_reviewed_row (i r : item) : item :=
  mkItem (it_quarantine_id r) (it_created_at i) (it_updated_at i) (it_kind r) (it_reason i) (it_writer_id i)
    (it_source i) (it_source_bank r) (it_source_memory_id r) (it_source_content_sha256 i) (it_dedupe_key r)
    (it_sha256 i) (it_encrypted i) (envelope_bytes i) PENDING 0 (it_requarantine_count r + 1)
    (it_expires_at i) (it_bank_id r).

Definition _reopen_reviewed_memory (quarantine_id : string) (i : item) (content_changed : bool) : eff qdb unit :=
  _ ← execute_items (update_where (has_key it_quarantine_id quarantine_id) (reopen_reviewed_row i));
  insert_event quarantine_id (if content_changed then "content_changed" else "safety_reopened") (it_updated_at i)
    [("kind", JStr (it_kind i)); ("sha256", JStr (it_sha256 i))] None.

(** The write of [store] once everything is checked. *)
Definition write_item (i : item) (existing : option item) (mode : store_mode) (at_ : string) : eff qdb unit :=
  match existing with
  | None => insert_item i
  | Some e =>
      if _expired e at_ then _reopen_expired (it_quarantine_id e) i
      else if bool_decide (mode = ModeRequest) && negb (elem (it_status e) REVIEWABLE_STATUSES) then mret ()
      else if bool_decide (mode = ModeMemory) && bool_decide (it_status e = REVIEWED_ALLOWED) then
        _reopen_reviewed_memory (it_quarantine_id e) i
          (negb (bool_decide (it_source_content_sha256 e = it_source_content_sha256 i)))
      else _refresh (it_quarantine_id e) i (it_requarantine_count e + 1)
  end.

Section store.
Context `{Rfc8785}.
(** The state the [before_store] callback charges, and what a rollback leaves
    of it: the old one for tables in the same transaction, the new one for
    counters in memory. *)
Context {L : Type} (rolled_back : L -> L -> L).

(** Repository operations on the combined state. *)
Definition on_db {A} (m : eff qdb A) : eff (qdb * L) A := fun s =>
  let '(r, d) := m s.1 in (r, (d, s.2)).
Definition on_limiter {A} (m : eff L A) : eff (qdb * L) A := fun s =>
  let '(r, l) := m s.2 in (r, (s.1, l)).

Definition store_transaction {A} (m : eff (qdb * L) A) : eff (qdb * L) A := fun s =>
  match m s with
  | (Ok a, s') => (Ok a, s')
  | (Err e, s') => (Err e, (s.1, rolled_back s.2 s'.2))
  end.

(** The checks of [store] before the capacity is looked at. *)
Definition store_guard (i : item) (existing : option item) (mode : store_mode)
    (require_reviewable_request : bool) (expected_snapshot : option AdmissionSnapshot)
    (incoming_evidence : option AdmissionEvidence) : result unit :=
  match existing with
  | None => Ok ()
  | Some e =>
      if require_reviewable_request && bool_decide (mode = ModeRequest)
         && negb (elem (it_status e) REVIEWABLE_STATUSES)
      then Err (raise_http 409 "quarantine_request_in_review" "matching quarantine request is already being reviewed")
      else if elem (it_status e) IN_REVIEW_STATUSES
      then Err (raise_http 409 "quarantine_item_in_review" "matching quarantine item is already being reviewed")
      else
        match expected_snapshot with
        | None => Ok ()
        | Some s =>
            s' ← capture (Some e);
            if negb (bool_decide (s = s')) && negb (_same_evidence i e incoming_evidence)
            then Err (raise_http 409 "quarantine_write_stale"
                   "matching quarantine item changed during wrapping; retry from a fresh snapshot")
            else Ok ()
        end
  end.

(** [QuarantineRepository.store] *)
Definition store (i : item) (capacity : Capacity) (mode : store_mode) (at_ : string)
    (require_reviewable_request : bool) (expected_snapshot : option AdmissionSnapshot)
    (incoming_evidence : option AdmissionEvidence) (before_store : option (option item -> eff L unit))
    : eff (qdb * L) unit := store_transaction (
  d ← on_db get_state;
  let existing := _find_existing (q_items d) i mode in
  _ ← lift (store_guard i existing mode require_reviewable_request expected_snapshot incoming_evidence);
  _ ← lift (_assert_capacity (q_items d) i existing capacity at_);
  _ ← match before_store with Some f => on_limiter (f existing) | None => mret () end;
  on_db (write_item i existing mode at_)).
End store.

(** ** Lookups *)

(** [get], [find_memory_state], [find_request_state] *)
Definition get (t : list item) (quarantine_id : string) : option item :=
  fetchone (has_key it_quarantine_id quarantine_id) t.

Definition find_memory_state (t : list item) (bank_id memory_id : string) : option item :=
  fetchone (fun r => bool_decide (it_source_bank r = Some bank_id)
                     && bool_decide (it_source_memory_id r = Some memory_id)) t.

Definition find_request_state (t : list item) (key : string) : option item :=
  fetchone (fun r => bool_decide (it_dedupe_key r = Some key)) t.

Record MemoryReviewState := mkMemoryReviewState { mr_status : status; mr_source_content_sha256 : option string }.

(** One batch: [SELECT ... WHERE (source_bank=? AND source_memory_id=?) OR ...]. *)
Definition review_rows (t : list item) (batch : list (string * string))
    : list ((string * string) * MemoryReviewState) :=
  omap (fun r => match memory_key r with
                 | Some k => if elem k batch
                             then Some (k, mkMemoryReviewState (it_status r) (it_source_content_sha256 r))
                             else None
                 | None => None
                 end) t.

(** The batches of [range(0, len(keys), MEMORY_REVIEW_BATCH_SIZE)]. *)
Fixpoint batches {A} (fuel : nat) (size : nat) (keys : list A) : list (list A) :=
  match fuel, keys with
  | S f, _ :: _ => take size keys :: batches f size (drop size keys)
  | _, _ => []
  end.

Definition find_memory_review_states (t : list item) (identities : list (string * string))
    : list ((string * string) * MemoryReviewState) :=
  let keys := dict_fromkeys identities in
  fold_left (fun states batch => fold_left (fun st e => dict_set e.1 e.2 st) (review_rows t batch) states)
    (batches (length keys) MEMORY_REVIEW_BATCH_SIZE keys) [].

(** ** The review queue *)

Record QueueFilter := mkQueueFilter {
  qf_bank_id : option string;
  qf_bank_ids : option (list string);
  qf_writer_id : option string;
  qf_principal_id : option string;
  qf_kind : option string;
  qf_status : option string
}.

Definition no_filter : QueueFilter := mkQueueFilter None None None None None None.

Definition filter_active (f : QueueFilter) : bool :=
  bool_decide (qf_bank_id f <> None) || bool_decide (qf_bank_ids f <> None)
  || bool_decide (qf_writer_id f <> None) || bool_decide (qf_principal_id f <> None)
  || bool_decide (qf_kind f <> None) || bool_decide (qf_status f <> None).

Definition with_bank_scope (f : QueueFilter) (bank_ids : list string) : QueueFilter :=
  mkQueueFilter None (Some bank_ids) (qf_writer_id f) (qf_principal_id f) (qf_kind f) (qf_status f).

Definition QUEUE_KINDS : list string := ["retain_request"; "recall_request"; "recalled_memory"; "security_event"].
Definition QUEUE_STATUSES : list string :=
  map status_text [PENDING; POSTPONED; REVIEW_SIDE_EFFECT_STARTED; REVIEW_SIDE_EFFECT_COMPLETED;
                   REVIEWED_ALLOWED; REVIEWED_BLOCKED].

(** [params.getlist(name)], at most one entry. *)
Definition single_param (params : list (string * string)) (name : string) : result (option string) :=
  match map snd (List.filter (fun kv => bool_decide (kv.1 = name)) params) with
  | [] => Ok None
  | [v] => Ok (Some v)
  | _ => Err (raise_http 400 "invalid_query" (name +:+ " is invalid")%string)
  end.

Definition parse_queue_filter (params : list (string * string)) : result QueueFilter :=
  bank_id ← single_param params "bank_id";
  writer_id ← single_param params "writer_id";
  principal_id ← single_param params "principal_id";
  kind ← single_param params "kind";
  st ← single_param params "status";
  _ ← ensure (match kind with Some k => elem k QUEUE_KINDS | None => true end)
        (raise_http 400 "invalid_query" "kind is invalid");
  _ ← ensure (match st with Some s => elem s QUEUE_STATUSES | None => true end)
        (raise_http 400 "invalid_query" "status is invalid");
  Ok (mkQueueFilter bank_id None writer_id principal_id kind st).

(** [_filter_clause], as the condition its SQL states. *)
Definition _filter_clause (f : QueueFilter) (r : item) : bool :=
  match qf_bank_id f with Some b => bool_decide (it_bank_id r = Some b) | None => true end
  && match qf_bank_ids f with
     | Some bs => match it_bank_id r with Some b => elem b bs | None => false end
     | None => true
     end
  && match qf_writer_id f with Some w => bool_decide (it_writer_id r = Some w) | None => true end
  && match qf_principal_id f with Some w => bool_decide (it_writer_id r = Some w) | None => true end
  && match qf_kind f with Some k => bool_decide (it_kind r = k) | None => true end
  && match qf_status f with Some s => bool_decide (status_text (it_status r) = s) | None => true end.

(** The rows a reviewer may act on at [at_]. *)
Definition in_queue (at_ : string) (r : item) : bool :=
  elem (it_status r) [REVIEW_SIDE_EFFECT_STARTED; REVIEW_SIDE_EFFECT_COMPLETED]
  || (elem (it_status r) REVIEWABLE_STATUSES && negb (is_expired r at_)).

(** [ORDER BY created_at ASC, quarantine_id ASC] *)
Definition queue_le (a b : item) : bool :=
  if decide (it_created_at a = it_created_at b) then str_le (it_quarantine_id a) (it_quarantine_id b)
  else str_le (it_created_at a) (it_created_at b).

Fixpoint queue_insert (x : item) (l : list item) : list item :=
  match l with
  | [] => [x]
  | y :: l' => if queue_le x y then x :: y :: l' else y :: queue_insert x l'
  end.
Definition queue_sort (l : list item) : list item := foldr queue_insert [] l.

Definition list_reviewable (t : list item) (limit offset : nat) (at_ : string) (f : QueueFilter) : list item :=
  take limit (drop offset (queue_sort (select_where (fun r => in_queue at_ r && _filter_clause f r) t))).

Definition count_reviewable (t : list item) (at_ : string) (f : QueueFilter) : Z :=
  count_where (fun r => in_queue at_ r && _filter_clause f r) t.

(** ** Counters *)

Record stats := mkStats {
  st_total_items : Z; st_pending_items : Z; st_postponed_items : Z;
  st_review_side_effect_started_items : Z; st_review_side_effect_completed_items : Z;
  st_expired_items : Z; st_reviewed_allowed_items : Z; st_reviewed_blocked_items : Z;
  st_encrypted_bytes : Z; st_event_count : Z
}.

Definition has_status (s : status) (r : item) : bool := bool_decide (it_status r = s).
Definition live (at_ : string) (r : item) : bool := negb (is_expired r at_).

Definition repository_stats (d : qdb) (at_ : string) : stats :=
  let t := q_items d in
  mkStats (count_where (fun _ => true) t)
    (count_where (fun r => has_status PENDING r && live at_ r) t)
    (count_where (fun r => has_status POSTPONED r && live at_ r) t)
    (count_where (has_status REVIEW_SIDE_EFFECT_STARTED) t)
    (count_where (has_status REVIEW_SIDE_EFFECT_COMPLETED) t)
    (count_where (fun r => _expired r at_) t)
    (count_where (has_status REVIEWED_ALLOWED) t)
    (count_where (has_status REVIEWED_BLOCKED) t)
    (sum_where it_encrypted_bytes (fun r => negb (_expired r at_)) t)
    (count_where (fun _ => true) (q_events d)).

Record bank_stat := mkBankStat {
  bs_bank_id : string; bs_total_items : Z; bs_pending_items : Z; bs_postponed_items : Z; bs_encrypted_bytes : Z
}.

(** [GROUP BY bank_id ORDER BY bank_id]: one row per bank that has items. *)
Definition bank_stats (t : list item) (at_ : string) (bank_ids : option (list string)) : list bank_stat :=
  let selected := select_where (fun r =>
    match it_bank_id r with
    | Some b => match bank_ids with Some bs => elem b bs | None => true end
    | None => false
    end) t in
  let banks := str_sort (dict_fromkeys (omap it_bank_id selected)) in
  map (fun b =>
    let of_bank p := fun r => bool_decide (it_bank_id r = Some b) && p r in
    mkBankStat b
      (count_where (of_bank (fun _ => true)) selected)
      (count_where (of_bank (fun r => has_status PENDING r && live at_ r)) selected)
      (count_where (of_bank (fun r => has_status POSTPONED r && live at_ r)) selected)
      (sum_where it_encrypted_bytes (of_bank (fun r => negb (_expired r at_))) selected)) banks.
