(* ===== verification/RepositoryProps.v ===== *)
(** * Properties of the quarantine repository

    The invariant of the tables and that admission keeps it, the capacity
    bounds, the frame of a write, the exactness of the queue listing and of the
    batched review lookup, for the definitions of [Repository.v]. *)

From Stdlib Require Import ZArith Lia.
From stdpp Require Import base sets strings numbers list.
From S2P Require Import Prelude Errors Text Sha256 Json JsonParse Timestamps Repository.

Local Open Scope Z_scope.

(** ** The invariant of the tables *)

(** The byte count is that of the stored envelope, and counters are natural. *)
Definition row_ok (r : item) : Prop :=
  it_encrypted_bytes r = match it_encrypted r with Some j => slen (json_dumps j) | None => 0 end /\
  0 <= it_postpone_count r /\ 0 <= it_requarantine_count r.

Record db_ok (d : qdb) : Prop := {
  dok_unique : unique_ok (q_items d) = true;
  dok_rows : Forall row_ok (q_items d);
  dok_events : NoDup (map ev_id (q_events d));
  dok_fresh : Forall (fun e => ev_id e < q_next_event d) (q_events d)
}.

Lemma unique_keys t : unique_ok t = true -> keys_unique it_quarantine_id t.
Proof. unfold unique_ok. intros Hu. by split_bool. Qed.

Lemma unique_memory t : unique_ok t = true -> NoDup (omap memory_key t).
Proof. unfold unique_ok. intros Hu. by split_bool. Qed.

Lemma unique_dedupe t : unique_ok t = true -> NoDup (omap it_dedupe_key t).
Proof. unfold unique_ok. intros Hu. by split_bool. Qed.

(** ** Statements and events *)

Lemma execute_items_ok f d u d' :
  execute_items f d = (Ok u, d') -> d' = set_items (f (q_items d)) d /\ unique_ok (f (q_items d)) = true.
Proof.
  unfold execute_items, mbind, eff_bind, get_state, raise, put_state. cbn zeta. destruct (unique_ok _) eqn:E; [|done].
  by intros [= _ <-].
Qed.

Lemma insert_event_ok qid ty at_ details actor d r d' :
  insert_event qid ty at_ details actor d = (r, d') ->
  r = Ok () /\ q_items d' = q_items d /\
  exists e, ev_quarantine_id e = qid /\ ev_type e = ty /\ ev_occurred_at e = at_ /\ ev_id e = q_next_event d /\
    q_events d' = q_events d ++ [e] /\ q_next_event d' = q_next_event d + 1.
Proof.
  unfold insert_event, modify. intros [= <- <-]. split_and!; [done|done|]. eexists (mkEvent _ qid at_ ty _). by split_and!.
Qed.

Lemma insert_event_db_ok qid ty at_ details actor d r d' :
  insert_event qid ty at_ details actor d = (r, d') -> db_ok d -> db_ok d'.
Proof.
  intros (-> & Hi & e & _ & _ & _ & Hid & He & Hn)%insert_event_ok [Hu Hr Hnd Hf].
  split; rewrite ?Hi, ?He, ?Hn; try done.
  - rewrite map_app. apply NoDup_app. split; [done|]. split; [|apply NoDup_singleton].
    intros k Hk Hk'. apply list_elem_of_singleton in Hk' as ->.
    apply list_elem_of_In, List.in_map_iff in Hk as (e' & Heq & Hin).
    rewrite list.Forall_forall in Hf. apply list_elem_of_In, Hf in Hin. lia.
  - apply Forall_app. split; [|by constructor; [lia|]].
    eapply Forall_impl; [exact Hf|]. intros; simpl in *; lia.
Qed.

Lemma set_items_db_ok t d : db_ok d -> unique_ok t = true -> Forall row_ok t -> db_ok (set_items t d).
Proof. intros [_ _ Hnd Hf] Hu Hr. by split. Qed.

Lemma Forall_update_where (P : item -> Prop) p f t :
  Forall P t -> (forall r, r ∈ t -> p r = true -> P r -> P (f r)) -> Forall P (update_where p f t).
Proof.
  intros Ht Hf. apply list.Forall_forall. intros r (r' & Hin & ->)%update_where_elem.
  rewrite list.Forall_forall in Ht. destruct (p r') eqn:E; auto.
Qed.

(** ** Comparisons *)

Lemma str_lt_negb a b : str_lt a b = negb (str_le b a).
Proof.
  destruct (str_lt a b) eqn:E, (str_le b a) eqn:E2; simpl; try done.
  - apply str_lt_spec in E as [H1 H2]. by destruct H2; apply str_le_antisym.
  - exfalso. assert (str_lt a b = true); [|congruence]. apply str_lt_spec.
    apply str_le_false in E2 as [? Hne]. split; [done|]. congruence.
Qed.

Lemma live_pending_split at_ r :
  live_pending at_ r = elem (it_status r) REVIEWABLE_STATUSES && negb (_expired r at_).
Proof.
  unfold live_pending, _expired, is_expired. destruct (elem _ _); simpl; [|done].
  destruct (it_expires_at r); [apply str_lt_negb|done].
Qed.

(** The scope test in Python agrees with the scope condition in SQL. *)
Lemma same_scope_in_scope i e : _same_scope i e = in_scope i e.
Proof.
  unfold _same_scope, in_scope.
  destruct (decide (it_reason i = "unknown_writer")) as [Hi|Hi].
  - rewrite (bool_decide_true (it_reason i = _)) by done. simpl. rewrite Hi.
    destruct (decide (it_reason e = "unknown_writer")) as [->|He]; [done|].
    rewrite (bool_decide_false (it_reason e = _)) by done. apply andb_false_r.
  - rewrite (bool_decide_false (it_reason i = _)) by done. simpl.
    destruct (decide (it_reason e = "unknown_writer")) as [He|He].
    + rewrite (bool_decide_true (it_reason e = _)) by done. simpl.
      rewrite bool_decide_false by congruence. by destruct (it_writer_id i).
    + rewrite (bool_decide_false (it_reason e = _)) by done. simpl.
      destruct (it_writer_id i) as [w|], (it_writer_id e) as [w'|]; simpl;
        repeat case_bool_decide; simpl; try done; naive_solver.
Qed.

(** ** What a write does to the rows *)

(** The change of the found row, if any. *)
Definition row_write (i e : item) (mode : store_mode) (at_ : string) : option (item -> item) :=
  if _expired e at_ then Some (reopen_expired_row i)
  else if bool_decide (mode = ModeRequest) && negb (elem (it_status e) REVIEWABLE_STATUSES) then None
  else if bool_decide (mode = ModeMemory) && bool_decide (it_status e = REVIEWED_ALLOWED)
  then Some (reopen_reviewed_row i)
  else Some (refresh_row i).

Definition rows_after (t : list item) (i : item) (existing : option item) (mode : store_mode) (at_ : string)
    : list item :=
  match existing with
  | None => t ++ [_params i]
  | Some e => match row_write i e mode at_ with
              | Some f => update_where (has_key it_quarantine_id (it_quarantine_id e)) f t
              | None => t
              end
  end.

Lemma write_item_rows i existing mode at_ d u d' :
  write_item i existing mode at_ d = (Ok u, d') ->
  q_items d' = rows_after (q_items d) i existing mode at_ /\
  (unique_ok (q_items d) = true -> unique_ok (q_items d') = true).
Proof.
  intros Hw. unfold write_item, rows_after, row_write in *. destruct existing as [e|].
  - destruct (_expired e at_); [|destruct (_ && _); [|destruct (_ && _)]].
    + apply bind_ok_inv in Hw as (? & d1 & He%execute_items_ok & Hw). destruct He as [-> Hu].
      by apply insert_event_ok in Hw as (_ & -> & _).
    + by eff_inv.
    + apply bind_ok_inv in Hw as (? & d1 & He%execute_items_ok & Hw). destruct He as [-> Hu].
      by apply insert_event_ok in Hw as (_ & -> & _).
    + apply bind_ok_inv in Hw as (? & d1 & He%execute_items_ok & Hw). destruct He as [-> Hu].
      case_bool_decide; [by eff_inv|]. by apply insert_event_ok in Hw as (_ & -> & _).
  - apply bind_ok_inv in Hw as (? & d1 & He%execute_items_ok & Hw). destruct He as [-> Hu].
    by apply insert_event_ok in Hw as (_ & -> & _).
Qed.

Lemma row_write_fields i e mode at_ f r :
  row_write i e mode at_ = Some f ->
  it_quarantine_id (f r) = it_quarantine_id r /\ it_encrypted (f r) = it_encrypted i /\
  it_encrypted_bytes (f r) = envelope_bytes i /\ it_requarantine_count (f r) = it_requarantine_count r + 1 /\
  (it_postpone_count (f r) = 0 \/ it_postpone_count (f r) = it_postpone_count r) /\
  (it_status (f r) = PENDING \/ it_status (f r) = it_status r).
Proof. unfold row_write. intros Hw. repeat case_match; simplify_eq; simpl; auto 10. Qed.

Lemma find_existing_elem t i mode e :
  _find_existing t i mode = Some e -> e ∈ t /\ existing_row mode i e = true.
Proof. apply fetchone_Some. Qed.

(** Decompose a successful admission. *)
Lemma store_ok `{Rfc8785} {L} (rb : L -> L -> L) i cap mode at_ rr snap ev bs d l u d' l' :
  store rb i cap mode at_ rr snap ev bs (d, l) = (Ok u, (d', l')) ->
  let existing := _find_existing (q_items d) i mode in
  (exists v, store_guard i existing mode rr snap ev = Ok v) /\
  (exists v, _assert_capacity (q_items d) i existing cap at_ = Ok v) /\
  write_item i existing mode at_ d = (Ok u, d').
Proof.
  unfold store, store_transaction. intros Hs.
  match type of Hs with context [match ?m with _ => _ end] => destruct m as [[a|e] s1] eqn:E end; [|done].
  injection Hs as -> ->.
  apply bind_ok_inv in E as (d0 & s0 & Hg & E). unfold on_db, get_state in Hg. simpl in Hg.
  injection Hg as <- <-. cbn zeta in *.
  apply bind_ok_inv in E as (v1 & s2 & Hg & E). apply lift_ok in Hg as [Hg ->].
  apply bind_ok_inv in E as (v2 & s3 & Hc & E). apply lift_ok in Hc as [Hc ->].
  apply bind_ok_inv in E as (v3 & s4 & Hb & E).
  assert (Hs4 : s4.1 = d).
  { destruct bs as [f|]; [|by eff_inv]. unfold on_limiter in Hb. simpl in Hb.
    destruct (f _ l) as [[x|x] y]; by injection Hb as _ <-. }
  unfold on_db in E. destruct s4 as [d4 l4]. simpl in *. subst d4.
  destruct (write_item i (_find_existing (q_items d) i mode) mode at_ d) as [r d2] eqn:Ew.
  injection E as -> -> ->. split_and!; [by exists v1|by exists v2|done].
Qed.

(** ** Counting after a write *)

(** Rows matching [q] grow by at most one, and the found row makes room for
    itself when it matched. *)
Lemma count_rows_after q t i existing mode at_ :
  unique_ok t = true -> (forall e, existing = Some e -> e ∈ t) ->
  rows_after t i existing mode at_ = t \/
  count_where q (rows_after t i existing mode at_) <=
    count_where q t - match existing with Some e => if q e then 1 else 0 | None => 0 end + 1.
Proof.
  intros Hu He. unfold rows_after. destruct existing as [e|].
  - destruct (row_write i e mode at_) as [f|]; [right|by left].
    rewrite count_where_update_key; [|by apply unique_keys|by apply He]. case_match; case_match; lia.
  - right. rewrite count_where_app, count_where_cons. change (count_where q []) with 0. case_match; lia.
Qed.

Lemma envelope_bytes_nonneg i : 0 <= envelope_bytes i.
Proof. apply slen_nonneg. Qed.

Lemma bytes_rows_after t i existing mode at_ :
  unique_ok t = true -> (forall e, existing = Some e -> e ∈ t) ->
  rows_after t i existing mode at_ = t \/
  total_bytes (rows_after t i existing mode at_) at_ <=
    total_bytes t at_ - match existing with Some e => if counted_bytes at_ e then it_encrypted_bytes e else 0 | None => 0 end
    + envelope_bytes i.
Proof.
  intros Hu He. unfold rows_after, total_bytes. pose proof (envelope_bytes_nonneg i). destruct existing as [e|].
  - destruct (row_write i e mode at_) as [f|] eqn:Ef; [right|by left].
    rewrite sum_where_update_key; [|by apply unique_keys|by apply He].
    destruct (row_write_fields _ _ _ _ _ e Ef) as (_ & _ & -> & _). case_match; case_match; lia.
  - right. rewrite sum_where_app, sum_where_cons. change (sum_where _ _ []) with 0. simpl. case_match; lia.
Qed.

(** The live existing row, as [_assert_capacity] computes it. *)
Lemma existing_live_pending at_ e :
  _is_pending (if _expired e at_ then None else Some e) = live_pending at_ e.
Proof.
  rewrite live_pending_split. destruct (_expired e at_) eqn:E; simpl; [by rewrite andb_false_r|].
  by rewrite andb_true_r.
Qed.

Lemma existing_live_bytes at_ e :
  match (if _expired e at_ then None else Some e) with Some e => it_encrypted_bytes e | None => 0 end
  = if counted_bytes at_ e then it_encrypted_bytes e else 0.
Proof.
  unfold counted_bytes. destruct (_expired e at_); simpl; [by rewrite andb_false_r|]. rewrite andb_true_r.
  destruct (it_encrypted_bytes e =? 0) eqn:E; split_bool; simpl; lia.
Qed.

(** What [_assert_capacity] checked, in terms of the found row. *)
Lemma assert_capacity_ok t i existing cap at_ v :
  _assert_capacity t i existing cap at_ = Ok v ->
  let q p := match existing with Some e => if live_pending at_ e && p e then 1 else 0 | None => 0 end in
  pending_count t at_ - q (fun _ => true) + 1 <= max_pending_items cap /\
  total_bytes t at_
    - match existing with Some e => if counted_bytes at_ e then it_encrypted_bytes e else 0 | None => 0 end
    + envelope_bytes i <= max_encrypted_bytes cap /\
  (forall b, it_bank_id i = Some b -> 0 < max_pending_items_per_bank cap ->
     count_where (fun r => live_pending at_ r && bool_decide (it_bank_id r = Some b)) t
       - q (fun e => bool_decide (it_bank_id e = Some b)) + 1 <= max_pending_items_per_bank cap) /\
  (0 < max_pending_items_per_writer cap ->
     _scoped_pending_count t i at_ - q (in_scope i) + 1 <= max_pending_items_per_writer cap) /\
  (it_kind i = "security_event" -> existing = None -> security_event_count t < SECURITY_EVENT_IDENTITY_LIMIT).
Proof.
  unfold _assert_capacity. intros Ha. apply result_bind_ok in Ha as (v1 & Hsec & Ha). cbn zeta in *.
  destruct ((max_pending_items cap <? _) || _) eqn:Ecap; [done|]. split_bool.
  apply result_bind_ok in Ha as (v2 & Hbank & Hw).
  assert (Hsec' : it_kind i = "security_event" -> existing = None -> security_event_count t < SECURITY_EVENT_IDENTITY_LIMIT).
  { intros Hk ->. unfold _assert_security_event_capacity in Hsec.
    rewrite Hk, !bool_decide_true in Hsec by done. simpl in Hsec. unfold SECURITY_EVENT_IDENTITY_LIMIT in *.
    destruct (64 <=? _) eqn:El; [done|]. by apply Z.leb_gt in El. }
  unfold _assert_bank_capacity in Hbank. destruct existing as [e|].
  - rewrite existing_live_bytes in H0. rewrite existing_live_pending in H, Hbank, Hw. rewrite andb_true_r.
    split_and!; try done.
    + intros b Hb Hpos. rewrite Hb in Hbank. rewrite (proj2 (Z.leb_gt _ 0)) in Hbank by lia.
      rewrite live_pending_split in *. destruct (_expired e at_); simpl in *;
        rewrite ?andb_false_r, ?andb_true_r in *; simpl in *;
        try destruct (elem _ _ && bool_decide _); cases_in Hbank; split_bool; lia.
    + intros Hpos. rewrite (proj2 (Z.leb_gt _ 0)) in Hw by lia.
      rewrite live_pending_split in *. destruct (_expired e at_); simpl in *;
        rewrite ?andb_false_r, ?andb_true_r in *; simpl in *;
        rewrite ?same_scope_in_scope in Hw; try destruct (elem _ _ && in_scope _ _); cases_in Hw; split_bool; lia.
  - simpl in *. split_and!; try done.
    + intros b Hb Hpos. rewrite Hb in Hbank. rewrite (proj2 (Z.leb_gt _ 0)) in Hbank by lia.
      cases_in Hbank. split_bool. lia.
    + intros Hpos. rewrite (proj2 (Z.leb_gt _ 0)) in Hw by lia. cases_in Hw. split_bool. lia.
Qed.

Lemma row_write_kind i e mode at_ f r : row_write i e mode at_ = Some f -> it_kind (f r) = it_kind i \/ it_kind (f r) = it_kind r.
Proof. unfold row_write. intros Hw. repeat case_match; simplify_eq; simpl; auto. Qed.

(** Security events grow only by a new identity, unless a row of another kind is
    found under the key of the event. *)
Lemma security_rows_after t i existing mode at_ : unique_ok t = true -> (forall e, existing = Some e -> e ∈ t /\ it_kind e = it_kind i) ->
  (it_kind i = "security_event" -> existing = None -> security_event_count t < SECURITY_EVENT_IDENTITY_LIMIT) ->
  security_event_count (rows_after t i existing mode at_) <= Z.max SECURITY_EVENT_IDENTITY_LIMIT (security_event_count t).
Proof.
  intros Hu He Hsec. unfold security_event_count, rows_after in *. destruct existing as [e|].
  - destruct (He e eq_refl) as [Hin Hk]. destruct (row_write i e mode at_) as [f|] eqn:Ef; [|lia].
    rewrite count_where_update_key; [|by apply unique_keys|done].
    assert (Hfe : it_kind (f e) = it_kind e) by (destruct (row_write_kind _ _ _ _ _ e Ef); congruence). rewrite Hfe. case_match; lia.
  - rewrite count_where_app, count_where_cons. change (count_where _ []) with 0. simpl. case_bool_decide as Hk; [specialize (Hsec Hk eq_refl)|]; lia.
Qed.

(** ** Properties *)

(** C11: admission respects every capacity limit. After a successful [store]
    that changed the items, the live pending items and the counted encrypted
    bytes are within their limits, the pending items of the item's bank are
    within the per-bank limit when there is one, and those of the item's writer
    scope within the per-writer limit when there is one. An item already
    counted makes room for its own replacement. And the rows that are security
    events are no more than the 64 identities allowed or than there were, unless
    the row under the item's key was of another kind and becomes one. *)
Theorem store_capacity `{Rfc8785} {L} (rb : L -> L -> L) i cap mode at_ rr snap ev bs d l u d' l' :
  unique_ok (q_items d) = true ->
  store rb i cap mode at_ rr snap ev bs (d, l) = (Ok u, (d', l')) ->
  q_items d' = q_items d \/
  (pending_count (q_items d') at_ <= max_pending_items cap /\
   total_bytes (q_items d') at_ <= max_encrypted_bytes cap /\
   (forall b, it_bank_id i = Some b -> 0 < max_pending_items_per_bank cap ->
      count_where (fun r => live_pending at_ r && bool_decide (it_bank_id r = Some b)) (q_items d')
        <= max_pending_items_per_bank cap) /\
   (0 < max_pending_items_per_writer cap ->
      _scoped_pending_count (q_items d') i at_ <= max_pending_items_per_writer cap) /\
   (security_event_count (q_items d') <= Z.max SECURITY_EVENT_IDENTITY_LIMIT (security_event_count (q_items d)) \/
    exists e, _find_existing (q_items d) i mode = Some e /\ it_kind e <> it_kind i)).
Proof.
  intros Hu Hs. apply store_ok in Hs as (_ & [v Hcap] & Hw). cbn zeta in *.
  set (existing := _find_existing (q_items d) i mode) in *.
  assert (He : forall e, existing = Some e -> e ∈ q_items d) by (intros e E; by apply find_existing_elem in E as [? _]).
  apply write_item_rows in Hw as [-> _].
  destruct (decide (rows_after (q_items d) i existing mode at_ = q_items d)) as [->|Hne]; [by left|right].
  apply assert_capacity_ok in Hcap as (Hp & Hb & Hbank & Hwr & Hsec). cbn zeta in *.
  assert (Hcnt : forall q, count_where q (rows_after (q_items d) i existing mode at_) <=
    count_where q (q_items d) - match existing with Some e => if q e then 1 else 0 | None => 0 end + 1)
    by (intros q; by destruct (count_rows_after q (q_items d) i existing mode at_ Hu He)).
  split_and!.
  - unfold pending_count in *. specialize (Hcnt (live_pending at_)).
    destruct existing as [e|]; [rewrite andb_true_r in Hp|]; lia.
  - destruct (bytes_rows_after (q_items d) i existing mode at_ Hu He); [done|lia].
  - intros b Eb Hpos. specialize (Hbank b Eb Hpos). specialize (Hcnt (fun r => live_pending at_ r && bool_decide (it_bank_id r = Some b))).
    cbn beta in Hcnt. lia.
  - intros Hpos. specialize (Hwr Hpos). specialize (Hcnt (fun r => live_pending at_ r && in_scope i r)).
    unfold _scoped_pending_count in *. cbn beta in Hcnt. lia.
  - clear Hp Hb Hbank Hwr Hcnt Hne. destruct existing as [e|] eqn:Ee.
    + destruct (decide (it_kind e = it_kind i)) as [Hk|Hk]; [left|right; by exists e]. apply security_rows_after; [done| |done].
      intros e' [= <-]. split; [by apply He|done].
    + left. by apply security_rows_after.
Qed.

(** *** The invariant *)

(** An item as [QuarantineStore._build_item] makes it. *)
Definition item_fresh (i : item) : Prop :=
  is_Some (it_encrypted i) /\ 0 <= it_postpone_count i /\ 0 <= it_requarantine_count i.

Lemma execute_items_db_ok f d u d' :
  execute_items f d = (Ok u, d') -> db_ok d -> Forall row_ok (f (q_items d)) -> db_ok d'.
Proof. intros [-> Hu]%execute_items_ok Hd Hr. by apply set_items_db_ok. Qed.

Lemma row_ok_written i r : item_fresh i -> row_ok r ->
  row_ok (refresh_row i r) /\ row_ok (reopen_expired_row i r) /\ row_ok (reopen_reviewed_row i r).
Proof.
  intros [[j Ej] _] (_ & Hp & Hq). unfold row_ok.
  split_and!; cbn; unfold envelope_bytes; rewrite ?Ej; try done; lia.
Qed.

Lemma row_ok_params i : item_fresh i -> row_ok (_params i).
Proof.
  intros ([j Ej] & Hp & Hq). unfold row_ok. cbn. unfold envelope_bytes. rewrite Ej. done.
Qed.

Lemma write_item_db_ok i existing mode at_ d u d' :
  item_fresh i -> db_ok d -> write_item i existing mode at_ d = (Ok u, d') -> db_ok d'.
Proof.
  intros Hi Hd Hw. pose proof (dok_rows d Hd) as Hr.
  assert (Hup : forall p f, f = refresh_row i \/ f = reopen_expired_row i \/ f = reopen_reviewed_row i ->
    Forall row_ok (update_where p f (q_items d))).
  { intros p f Hf. apply Forall_update_where; [done|]. intros r _ _ Hok.
    destruct (row_ok_written i r Hi Hok) as (? & ? & ?). by destruct Hf as [->|[->| ->]]. }
  unfold write_item in Hw. destruct existing as [e|].
  - destruct (_expired e at_); [|destruct (_ && _); [by eff_inv|destruct (_ && _)]];
      apply bind_ok_inv in Hw as (? & d1 & He & Hw);
      apply execute_items_db_ok in He; try done; try (apply Hup; tauto).
    + by eapply insert_event_db_ok.
    + by eapply insert_event_db_ok.
    + case_bool_decide; [by eff_inv|by eapply insert_event_db_ok].
  - apply bind_ok_inv in Hw as (? & d1 & He & Hw). apply execute_items_db_ok in He; [|done|].
    + by eapply insert_event_db_ok.
    + apply Forall_app. split; [done|]. constructor; [by apply row_ok_params|done].
Qed.

(** C37: admission keeps the tables well formed, and is all or nothing. After
    a successful [store] the identities, memory keys and dedupe keys are still
    unique, every byte count is that of the stored envelope, counters are not
    negative and event identifiers are fresh; when [store] raises, the tables
    are exactly those it started from. *)
Theorem store_invariant `{Rfc8785} {L} (rb : L -> L -> L) i cap mode at_ rr snap ev bs d l r d' l' :
  db_ok d -> item_fresh i ->
  store rb i cap mode at_ rr snap ev bs (d, l) = (r, (d', l')) ->
  db_ok d' /\ (is_ok r = false -> d' = d).
Proof.
  intros Hd Hi Hs. destruct r as [u|e].
  - split; [|done]. apply store_ok in Hs as (_ & _ & Hw). by eapply write_item_db_ok.
  - unfold store, store_transaction in Hs.
    match type of Hs with context [match ?m with _ => _ end] => destruct m as [[a|e'] s1] end; [done|].
    injection Hs as _ <- _. done.
Qed.

(** *** The frame of a write *)

Lemma store_guard_ok `{Rfc8785} i e mode rr snap ev v :
  store_guard i (Some e) mode rr snap ev = Ok v -> it_status e ∉ IN_REVIEW_STATUSES.
Proof.
  unfold store_guard. intros Hg. destruct (rr && _ && _); [done|].
  destruct (elem _ IN_REVIEW_STATUSES) eqn:E; [done|]. by apply elem_false in E.
Qed.

Lemma update_key_frame t e f r :
  unique_ok t = true -> e ∈ t -> r ∈ t -> r <> e -> r ∈ update_where (has_key it_quarantine_id (it_quarantine_id e)) f t.
Proof.
  intros Hu He Hr Hne. apply update_where_elem. exists r. split; [done|].
  destruct (has_key _ _ r) eqn:E; [|done]. apply (proj1 (has_key_true _ _ _)) in E. exfalso. apply Hne.
  apply (keys_unique_inj it_quarantine_id t); [by apply unique_keys|done|done|done].
Qed.

(** Admission touches one row. A successful [store] leaves every row but
    the matching one as it was; in particular a row that is being reviewed is
    never changed. The matching row, if written, keeps its identity, gets the
    new envelope and one more requarantine, and is pending or keeps its status;
    with no matching row the item is added as it is. *)
Lemma store_frame `{Rfc8785} {L} (rb : L -> L -> L) i cap mode at_ rr snap ev bs d l u d' l' :
  unique_ok (q_items d) = true ->
  store rb i cap mode at_ rr snap ev bs (d, l) = (Ok u, (d', l')) ->
  (forall r, r ∈ q_items d -> it_status r ∈ IN_REVIEW_STATUSES -> r ∈ q_items d') /\
  match _find_existing (q_items d) i mode with
  | None => q_items d' = q_items d ++ [_params i]
  | Some e =>
      (forall r, r ∈ q_items d -> r <> e -> r ∈ q_items d') /\
      length (q_items d') = length (q_items d) /\
      (q_items d' = q_items d \/
       exists e', e' ∈ q_items d' /\ it_quarantine_id e' = it_quarantine_id e /\
         it_encrypted e' = it_encrypted i /\ it_requarantine_count e' = it_requarantine_count e + 1 /\
         (it_status e' = PENDING \/ it_status e' = it_status e))
  end.
Proof.
  intros Hu Hs. apply store_ok in Hs as ([v Hg] & _ & Hw). cbn zeta in *.
  apply write_item_rows in Hw as [-> _].
  destruct (_find_existing (q_items d) i mode) as [e|] eqn:Ee.
  - apply find_existing_elem in Ee as [Hin _]. apply store_guard_ok in Hg. unfold rows_after.
    destruct (row_write i e mode at_) as [f|] eqn:Ef.
    + split_and!.
      * intros r Hr Hst. apply update_key_frame; try done. by intros ->.
      * intros r Hr Hne. by apply update_key_frame.
      * apply List.length_map.
      * right. exists (f e). destruct (row_write_fields _ _ _ _ _ e Ef) as (H1 & H2 & _ & H4 & _ & H6).
        split_and!; try done. apply update_where_elem. exists e. split; [done|].
        by rewrite (proj2 (has_key_true _ _ _)).
    + split_and!; try done. by left.
  - split; [|done]. intros r Hr _. unfold rows_after. apply elem_of_app. by left.
Qed.

(** *** The queue *)

Lemma queue_insert_perm x l : queue_insert x l ≡ₚ x :: l.
Proof.
  induction l as [|y l IH]; simpl; [done|]. case_match; [done|]. rewrite IH. apply Permutation_swap.
Qed.

Lemma queue_sort_perm l : queue_sort l ≡ₚ l.
Proof. induction l as [|x l IH]; simpl; [done|]. by rewrite queue_insert_perm, IH. Qed.

Lemma queue_le_total a b : queue_le a b = false -> queue_le b a = true.
Proof.
  unfold queue_le. repeat case_decide; try congruence; intros Hf; by destruct (str_le_false _ _ Hf).
Qed.

Lemma queue_sort_sorted l : Sorted.Sorted (fun a b => queue_le a b = true) (queue_sort l).
Proof.
  induction l as [|x l IH]; simpl; [constructor|].
  induction IH as [|y l' Hs IH' Hd]; simpl; [by repeat constructor|].
  destruct (queue_le x y) eqn:E; [by repeat constructor|].
  constructor; [done|]. apply queue_le_total in E. destruct l' as [|z l']; simpl in *; [by constructor|].
  case_match; constructor; [done|]. by inversion Hd.
Qed.

(** The pages of [size] items of a queue. *)
Definition queue_page (t : list item) (at_ : string) (f : QueueFilter) (size : nat) (k : nat) : list item :=
  list_reviewable t size (k * size) at_ f.

Lemma pages_take (l : list item) size n :
  concat (map (fun k => take size (drop (k * size) l)) (seq 0 n)) = take (n * size) l.
Proof.
  induction n as [|n IH]; [by rewrite take_0|].
  rewrite seq_S, map_app, concat_app, IH. simpl. rewrite app_nil_r.
  rewrite take_take_drop. f_equal. lia.
Qed.

(** The review queue is exact. What a page lists is due for review and
    passes the filter, the pages in order are the whole queue sorted by
    creation time and identity with nothing lost or repeated, and the count
    endpoint agrees with it. With a bank scope every listed item belongs to one
    of the banks. *)
Lemma queue_listing_exact t at_ f size :
  let whole := queue_sort (select_where (fun r => in_queue at_ r && _filter_clause f r) t) in
  (forall n, (length whole <= n * size)%nat ->
     concat (map (queue_page t at_ f size) (seq 0 n)) = whole) /\
  Sorted.Sorted (fun a b => queue_le a b = true) whole /\
  (forall r, r ∈ whole <-> r ∈ t /\ in_queue at_ r = true /\ _filter_clause f r = true) /\
  count_reviewable t at_ f = Z.of_nat (length whole) /\
  (forall banks r k, r ∈ queue_page t at_ (with_bank_scope f banks) size k ->
     exists b, it_bank_id r = Some b /\ b ∈ banks).
Proof.
  cbn zeta. split_and!.
  - intros n Hn. unfold queue_page, list_reviewable. rewrite pages_take. by apply take_ge.
  - apply queue_sort_sorted.
  - intros r. rewrite queue_sort_perm, select_where_elem, andb_true_iff. done.
  - unfold count_reviewable, count_where. by rewrite (Permutation_length (queue_sort_perm _)).
  - intros banks r k Hr. unfold queue_page, list_reviewable in Hr.
    apply subseteq_take, subseteq_drop in Hr.
    rewrite queue_sort_perm, select_where_elem, andb_true_iff in Hr. destruct Hr as (_ & _ & Hf).
    unfold _filter_clause in Hf. simpl in Hf. split_bool.
    destruct (it_bank_id r) as [b|]; [|done]. exists b. split; [done|]. by apply elem_true.
Qed.

(** *** The batched review lookup *)

Lemma batches_concat {A} fuel size (keys : list A) :
  (0 < size)%nat -> (length keys <= fuel)%nat -> concat (batches fuel size keys) = keys.
Proof.
  intros Hs. revert keys. induction fuel as [|f IH]; intros keys Hl; simpl.
  - destruct keys; [done|simpl in Hl; lia].
  - destruct keys as [|k keys]; [done|]. simpl concat. rewrite IH; [apply take_drop|].
    rewrite length_drop. simpl in *. lia.
Qed.

Definition row_state (r : item) : MemoryReviewState :=
  mkMemoryReviewState (it_status r) (it_source_content_sha256 r).

Lemma review_rows_elem t batch k v :
  (k, v) ∈ review_rows t batch <-> exists r, r ∈ t /\ memory_key r = Some k /\ k ∈ batch /\ v = row_state r.
Proof.
  unfold review_rows. rewrite list_elem_of_omap. split.
  - intros (r & Hin & Hr). exists r. destruct (memory_key r) as [k'|]; [|done].
    destruct (elem k' batch) eqn:E; [|done]. apply elem_true in E. by simplify_eq.
  - intros (r & Hin & Hk & Hb & ->). exists r. split; [done|]. rewrite Hk.
    by rewrite (proj2 (elem_true k batch)).
Qed.

Lemma fold_batches_get {K V B} `{EqDecision K} (rows : B -> list (K * V)) bs d k :
  dict_get k (fold_left (fun st b => fold_left (fun st e => dict_set e.1 e.2 st) (rows b) st) bs d)
  = dict_get k (fold_left (fun st e => dict_set e.1 e.2 st) (concat (map rows bs)) d).
Proof.
  revert d. induction bs as [|b bs IH]; intros d; simpl; [done|]. rewrite IH. f_equal.
  by rewrite fold_left_app.
Qed.

(** Two rows with the same memory key are the same row. *)
Lemma memory_key_inj t r r' k :
  NoDup (omap memory_key t) -> r ∈ t -> r' ∈ t -> memory_key r = Some k -> memory_key r' = Some k -> r = r'.
Proof.
  induction t as [|x t IH]; intros Hnd Hr Hr' Hk Hk'; [by apply not_elem_of_nil in Hr|].
  simpl in Hnd. apply elem_of_cons in Hr as [->|Hr], Hr' as [->|Hr']; try done.
  - rewrite Hk in Hnd. apply NoDup_cons in Hnd as [Hn _]. destruct Hn. apply list_elem_of_omap. by exists r'.
  - rewrite Hk' in Hnd. apply NoDup_cons in Hnd as [Hn _]. destruct Hn. apply list_elem_of_omap. by exists r.
  - apply IH; try done. destruct (memory_key x); [by apply NoDup_cons in Hnd as [_ ?]|done].
Qed.

Lemma find_memory_state_spec t b m r :
  NoDup (omap memory_key t) ->
  find_memory_state t b m = Some r <-> r ∈ t /\ memory_key r = Some (b, m).
Proof.
  intros Hnd. unfold find_memory_state.
  assert (Hp : forall x, bool_decide (it_source_bank x = Some b) && bool_decide (it_source_memory_id x = Some m) = true
                         <-> memory_key x = Some (b, m)).
  { intros x. unfold memory_key. rewrite andb_true_iff, !bool_decide_eq_true.
    destruct (it_source_bank x), (it_source_memory_id x); naive_solver. }
  split.
  - intros [Hin Hk]%fetchone_Some. split; [done|]. by apply Hp.
  - intros [Hin Hk]. destruct (fetchone _ t) as [r'|] eqn:E.
    + apply fetchone_Some in E as [Hin' Hk']. apply Hp in Hk'. f_equal. by eapply memory_key_inj.
    + pose proof (fetchone_None _ _ _ E Hin) as Hf. apply Hp in Hk. simpl in Hf. congruence.
Qed.

(** The batched lookup of review states is the row-by-row one: for every
    list of identities, however long and with repetitions, the answer for a
    memory is the state of its row exactly when the memory was asked for. *)
Lemma review_states_batched t identities b m :
  unique_ok t = true ->
  dict_get (b, m) (find_memory_review_states t identities) =
  if elem (b, m) identities then row_state <$> find_memory_state t b m else None.
Proof.
  intros Hnd%unique_memory. unfold find_memory_review_states. rewrite fold_batches_get, dict_fold_get. simpl.
  set (keys := dict_fromkeys identities).
  set (es := concat (map (review_rows t) (batches (length keys) MEMORY_REVIEW_BATCH_SIZE keys))).
  assert (Hes : forall k v, (k, v) ∈ es <-> exists r, r ∈ t /\ memory_key r = Some k /\ k ∈ identities /\ v = row_state r).
  { intros k v. unfold es. rewrite list_elem_of_In, List.in_concat. split.
    - intros (l & Hl & Hv). apply List.in_map_iff in Hl as (batch & <- & Hb).
      apply list_elem_of_In, review_rows_elem in Hv as (r & Hr & Hk & Hkb & ->). exists r. split_and!; try done.
      apply dict_fromkeys_spec. fold keys. rewrite <- (batches_concat (length keys) MEMORY_REVIEW_BATCH_SIZE keys)
        by (unfold MEMORY_REVIEW_BATCH_SIZE; lia).
      apply list_elem_of_In, List.in_concat. exists batch. split; [done|by apply list_elem_of_In].
    - intros (r & Hr & Hk & Hid & ->).
      apply dict_fromkeys_spec in Hid. fold keys in Hid.
      rewrite <- (batches_concat (length keys) MEMORY_REVIEW_BATCH_SIZE keys) in Hid
        by (unfold MEMORY_REVIEW_BATCH_SIZE; lia).
      apply list_elem_of_In, List.in_concat in Hid as (batch & Hb & Hin).
      exists (review_rows t batch). split; [by apply List.in_map|].
      apply list_elem_of_In, review_rows_elem. exists r. split_and!; try done. by apply list_elem_of_In. }
  assert (Hrev : forall x, x ∈ rev es <-> x ∈ es) by (intros x; by rewrite !list_elem_of_In, <- List.in_rev).
  destruct (elem (b, m) identities) eqn:Eid.
  - apply elem_true in Eid. destruct (find_memory_state t b m) as [r|] eqn:Ef; simpl.
    + apply find_memory_state_spec in Ef as [Hr Hk]; [|done].
      destruct (dict_get (b, m) (rev es)) as [v|] eqn:Eg.
      * apply dict_get_elem, Hrev, Hes in Eg as (r' & Hr' & Hk' & _ & ->).
        by rewrite (memory_key_inj t r' r (b, m) Hnd Hr' Hr Hk' Hk).
      * apply dict_get_None in Eg. exfalso. apply Eg. apply list_elem_of_In, List.in_map_iff.
        exists ((b, m), row_state r). split; [done|]. apply list_elem_of_In, Hrev, Hes. by exists r.
    + destruct (dict_get (b, m) (rev es)) as [v|] eqn:Eg; [|done].
      apply dict_get_elem, Hrev, Hes in Eg as (r' & Hr' & Hk' & _ & ->).
      exfalso. assert (find_memory_state t b m = Some r') by (by apply find_memory_state_spec). congruence.
  - apply elem_false in Eid. destruct (dict_get (b, m) (rev es)) as [v|] eqn:Eg; [|done].
    by apply dict_get_elem, Hrev, Hes in Eg as (r' & _ & _ & Hid & _).
Qed.

(** *** Counters *)

(** Evaluate the status tests of known statuses. *)
Ltac eval_status :=
  repeat match goal with
  | |- context [@bool_decide (@eq status ?a ?b) ?i] =>
      let v := eval vm_compute in (@bool_decide (@eq status a b) i) in
      change (@bool_decide (@eq status a b) i) with v
  | |- context [elem ?a REVIEWABLE_STATUSES] =>
      let v := eval vm_compute in (elem a REVIEWABLE_STATUSES) in
      change (elem a REVIEWABLE_STATUSES) with v
  end.

#[local] Opaque count_where sum_where.

(** The counters account for every item: the total is the sum of the
    reported classes plus the items claimed by a review in progress, and the
    reported bytes are those the capacity check counts. *)
Lemma stats_account d at_ :
  let s := repository_stats d at_ in
  st_total_items s =
    st_pending_items s + st_postponed_items s + st_review_side_effect_started_items s
    + st_review_side_effect_completed_items s + st_expired_items s + st_reviewed_allowed_items s
    + st_reviewed_blocked_items s + count_where (has_status REVIEW_IN_PROGRESS) (q_items d) /\
  st_encrypted_bytes s = total_bytes (q_items d) at_ /\
  st_pending_items s + st_postponed_items s = pending_count (q_items d) at_.
Proof.
  cbn. unfold pending_count, total_bytes.
  induction (q_items d) as [|r t (IH1 & IH2 & IH3)]; [done|].
  rewrite !count_where_cons, !sum_where_cons. rewrite live_pending_split.
  unfold has_status, counted_bytes, live in *. unfold _expired in *.
  destruct (it_status r), (is_expired r at_); eval_status; cbn; rewrite ?andb_true_r, ?andb_false_r; cbn;
    (split_and!; [lia| |lia]); destruct (it_encrypted_bytes r =? 0) eqn:E; split_bool; cbn; lia.
Qed.

#[local] Transparent count_where sum_where.

(** ** Concrete instances *)

Module Example_repository.
(** A canonical form and a parser for the examples. *)
#[export] Instance dumps : Rfc8785 := {| rfc8785_dumps v := Some (json_dumps v) |}.

Definition envelope : json := JDict [("alg", JStr "x"); ("created_at", JStr "2024-01-01T00:00:00.000Z")].

Definition request (id writer created : string) : item :=
  mkItem id created created "retain_request" "suspicious_content" (Some writer) None None None None (Some id)
    "00" (Some envelope) 0 PENDING 0 0 (Some "2024-02-01T00:00:00.000Z") (Some "team").

Definition cap : Capacity := mkCapacity 2 1 1000 2.
Definition empty : qdb := mkQdb [] [] 0.
Definition keep (a b : unit) : unit := b.

(** One item stored, then the same one again. *)
Definition first : qdb :=
  (store keep (request "q_a" "alice" "2024-01-01T00:00:00.000Z") cap ModeRequest "2024-01-01T00:00:00.000Z"
     true None None None (empty, ())).2.1.

Definition again : result unit * (qdb * unit) :=
  store keep (request "q_a" "alice" "2024-01-02T00:00:00.000Z") cap ModeRequest "2024-01-02T00:00:00.000Z"
    true None None None (first, ()).

Lemma empty_ok : db_ok empty.
Proof. split; [reflexivity|constructor|apply NoDup_nil_2|constructor]. Qed.

Lemma request_fresh id w c : item_fresh (request id w c).
Proof. split; [by eexists|done]. Qed.

(** A second item of the same writer is refused by the per-writer limit. *)
Example writer_limit :
  (store keep (request "q_b" "alice" "2024-01-02T00:00:00.000Z") cap ModeRequest "2024-01-02T00:00:00.000Z"
     true None None None (first, ())).1 =
  Err (raise_http 507 "quarantine_writer_capacity_exceeded" "writer quarantine capacity is exhausted").
Proof. vm_compute. reflexivity. Qed.
End Example_repository.
Import Example_repository.

Lemma store_capacity_witness :
  exists d', (again.1, again.2.1) = (Ok (), d') /\ pending_count (q_items d') "2024-01-02T00:00:00.000Z" <= 2.
Proof.
  assert (E : again = (Ok (), (again.2.1, ()))) by (vm_compute; reflexivity).
  exists again.2.1. split; [by rewrite E at 1|].
  destruct (store_capacity keep (request "q_a" "alice" "2024-01-02T00:00:00.000Z") cap ModeRequest
    "2024-01-02T00:00:00.000Z" true None None None first () () again.2.1 () eq_refl E) as [Heq|[Hp _]];
    [vm_compute in Heq; discriminate|exact Hp].
Defined.

Lemma store_invariant_witness : db_ok first.
Proof.
  refine (proj1 (store_invariant keep (request "q_a" "alice" "2024-01-01T00:00:00.000Z") cap ModeRequest
    "2024-01-01T00:00:00.000Z" true None None None empty () (Ok ()) first () empty_ok (request_fresh _ _ _) _)).
  vm_compute. reflexivity.
Defined.

Lemma store_frame_witness : length (q_items again.2.1) = length (q_items first).
Proof.
  assert (E : again = (Ok (), (again.2.1, ()))) by (vm_compute; reflexivity).
  exact (proj1 (proj2 (proj2 (store_frame keep (request "q_a" "alice" "2024-01-02T00:00:00.000Z") cap ModeRequest
    "2024-01-02T00:00:00.000Z" true None None None first () () again.2.1 () eq_refl E)))).
Defined.
