(* ===== verification/Review.v ===== *)
(** * The review state machine

    Models [memory_router/review_repository.py]: postponing, claiming,
    completing, interrupting, finishing and reconciling reviews, and the
    recovery of stale claims. Every operation is a transaction on the tables of
    [Repository.v]; the claim time [at] is the token that later steps of the
    same review must present. *)

From Stdlib Require Import ZArith Lia.
From stdpp Require Import base sets strings numbers list.
From S2P Require Import Prelude Errors Text Json Timestamps Repository.

Local Open Scope Z_scope.

Definition REVIEW_STALE_SECONDS : Z := 60.

Definition expired_error : exn := raise_http 409 "quarantine_expired" "quarantine item has expired".
Definition not_found_error : exn := raise_http 404 "quarantine_not_found" "quarantine item not found".
Definition changed_before_claim : exn :=
  raise_http 409 "quarantine_review_changed" "quarantine item changed before review could be claimed".
Definition changed_in_review : exn :=
  raise_http 409 "quarantine_review_changed" "quarantine item changed while review was in progress".

(** [_stale]: false when a timestamp does not parse; mixing naive and aware
    times raises the [TypeError] of the subtraction. *)
Definition _stale (updated_at at_ : string) (stale_seconds : Z) : result bool :=
  match parse_iso updated_at, parse_iso at_ with
  | Some updated, Some current =>
      match dt_sub current updated with
      | Some us => Ok (stale_seconds * 1000000 <=? us)
      | None => Err (EOther "TypeError")
      end
  | _, _ => Ok false
  end.

Definition _assert_reviewable (i : item) (at_ : string) : result unit :=
  if negb (elem (it_status i) REVIEWABLE_STATUSES)
  then Err (raise_http 409 "quarantine_already_finalized" "quarantine item is not pending review")
  else if is_expired i at_ then Err expired_error
  else Ok ().

Definition _assert_snapshot (i : item) (expected_sha256 expected_updated_at : option string) : result unit :=
  if match expected_sha256 with Some s => negb (bool_decide (it_sha256 i = s)) | None => false end
  then Err changed_before_claim
  else if match expected_updated_at with Some s => negb (bool_decide (it_updated_at i = s)) | None => false end
  then Err changed_before_claim
  else Ok ().

(** ** Row updates *)

(** [SET status=?, updated_at=?] *)
Definition set_status (st : status) (at_ : string) (r : item) : item :=
  mkItem (it_quarantine_id r) (it_created_at r) at_ (it_kind r) (it_reason r) (it_writer_id r) (it_source r)
    (it_source_bank r) (it_source_memory_id r) (it_source_content_sha256 r) (it_dedupe_key r) (it_sha256 r)
    (it_encrypted r) (it_encrypted_bytes r) st (it_postpone_count r) (it_requarantine_count r)
    (it_expires_at r) (it_bank_id r).

(** [SET status=?, updated_at=?, bank_id=?] *)
Definition set_status_bank (st : status) (at_ bank : string) (r : item) : item :=
  mkItem (it_quarantine_id r) (it_created_at r) at_ (it_kind r) (it_reason r) (it_writer_id r) (it_source r)
    (it_source_bank r) (it_source_memory_id r) (it_source_content_sha256 r) (it_dedupe_key r) (it_sha256 r)
    (it_encrypted r) (it_encrypted_bytes r) st (it_postpone_count r) (it_requarantine_count r)
    (it_expires_at r) (Some bank).

(** [SET status='postponed', postpone_count=postpone_count+1, updated_at=?] *)
Definition set_postponed (at_ : string) (r : item) : item :=
  mkItem (it_quarantine_id r) (it_created_at r) at_ (it_kind r) (it_reason r) (it_writer_id r) (it_source r)
    (it_source_bank r) (it_source_memory_id r) (it_source_content_sha256 r) (it_dedupe_key r) (it_sha256 r)
    (it_encrypted r) (it_encrypted_bytes r) POSTPONED (it_postpone_count r + 1) (it_requarantine_count r)
    (it_expires_at r) (it_bank_id r).

(** [SET status=?, encrypted_envelope=NULL, encrypted_bytes=0, updated_at=?] *)
Definition set_reviewed (st : status) (at_ : string) (r : item) : item :=
  mkItem (it_quarantine_id r) (it_created_at r) at_ (it_kind r) (it_reason r) (it_writer_id r) (it_source r)
    (it_source_bank r) (it_source_memory_id r) (it_source_content_sha256 r) (it_dedupe_key r) (it_sha256 r)
    None 0 st (it_postpone_count r) (it_requarantine_count r) (it_expires_at r) (it_bank_id r).

Definition update_item (quarantine_id : string) (f : item -> item) : eff qdb unit :=
  execute_items (update_where (has_key it_quarantine_id quarantine_id) f).

Definition delete_item (quarantine_id : string) : eff qdb unit :=
  execute_items (delete_where (has_key it_quarantine_id quarantine_id)).

Definition fetch_item (quarantine_id : string) : eff qdb (option item) :=
  d ← get_state; mret (get (q_items d) quarantine_id).

(** ** Stale claims *)

(** The statement's condition [quarantine_id=? AND status='review_in_progress']. *)
Definition in_progress_row (quarantine_id : string) (r : item) : bool :=
  has_key it_quarantine_id quarantine_id r && bool_decide (it_status r = REVIEW_IN_PROGRESS).

Definition _expire_stale_claim (i : item) (at_ : string) : eff qdb unit :=
  _ ← execute_items (delete_where (in_progress_row (it_quarantine_id i)));
  insert_event (it_quarantine_id i) "expired" at_
    [("recovered", JBool true); ("previous_status", JStr (status_text REVIEW_IN_PROGRESS))] None.

Definition _restore_stale_claim (i : item) (at_ : string) : eff qdb unit :=
  _ ← execute_items (update_where (in_progress_row (it_quarantine_id i)) (set_status POSTPONED at_));
  insert_event (it_quarantine_id i) "review_interrupted" at_
    [("outcome", JStr (status_text POSTPONED)); ("recovered", JBool true)] None.

(** Returns the item to act on, or [None] when the claim had expired. *)
Definition _recover_stale_for_action (i : item) (at_ : string) (stale_seconds : option Z) : eff qdb (option item) :=
  stale ← lift (match stale_seconds with
                | None => Ok false
                | Some s => if bool_decide (it_status i = REVIEW_IN_PROGRESS)
                            then _stale (it_updated_at i) at_ s else Ok false
                end);
  if negb stale then mret (Some i)
  else if is_expired i at_ then _ ← _expire_stale_claim i at_; mret None
  else _ ← _restore_stale_claim i at_; mret (Some (set_status POSTPONED at_ i)).

Definition recover_interrupted (at_ : string) (stale_seconds : Z) : eff qdb unit := transaction (
  d ← get_state;
  for_each (fun row =>
    stale ← lift (_stale (it_updated_at row) at_ stale_seconds);
    if negb stale then mret ()
    else if is_expired row at_ then _expire_stale_claim row at_
    else _restore_stale_claim row at_)
    (select_where (fun r => bool_decide (it_status r = REVIEW_IN_PROGRESS)) (q_items d))).

(** ** Actions on a reviewable item *)

(** [_mutate_review]: an expired stale claim is removed and committed before
    the error is raised. *)
Definition _mutate_review {T} (quarantine_id at_ : string) (stale_seconds : option Z)
    (mutation : item -> eff qdb T) (expected_sha256 expected_updated_at : option string) : eff qdb T :=
  res ← transaction (
    found ← fetch_item quarantine_id;
    match found with
    | None => raise not_found_error
    | Some i =>
        _ ← lift (_assert_snapshot i expected_sha256 expected_updated_at);
        recovered ← _recover_stale_for_action i at_ stale_seconds;
        match recovered with
        | None => mret None
        | Some i =>
            _ ← lift (_assert_reviewable i at_);
            result ← mutation i;
            mret (Some result)
        end
    end);
  match res with
  | None => raise expired_error
  | Some result => mret result
  end.

Definition postpone (quarantine_id at_ : string) (stale_seconds max_postpones : option Z) (actor : option string)
    : eff qdb (option item) :=
  _mutate_review quarantine_id at_ stale_seconds (fun i =>
    let count := it_postpone_count i in
    if match max_postpones with Some m => m <=? count | None => false end
    then raise (raise_http 409 "postpone_limit_reached"
           "maximum postpone count reached; approve, reject, or wait for QUARANTINE_ITEM_TTL_DAYS expiry")
    else
      _ ← update_item quarantine_id (set_postponed at_);
      _ ← insert_event quarantine_id (status_text POSTPONED) at_ [("postpone_count", JInt (count + 1))] actor;
      fetch_item quarantine_id) None None.

Definition claim_review (quarantine_id kind at_ : string) (stale_seconds : option Z) (side_effect : bool)
    (expected_sha256 expected_updated_at target_bank : option string) : eff qdb item :=
  _mutate_review quarantine_id at_ stale_seconds (fun i =>
    if negb (bool_decide (it_kind i = kind))
    then raise (raise_http 409 "invalid_review_action" "invalid quarantine review action")
    else
      let st := if side_effect then REVIEW_SIDE_EFFECT_STARTED else REVIEW_IN_PROGRESS in
      _ ← match target_bank with
          | None => update_item quarantine_id (set_status st at_)
          | Some b => update_item quarantine_id (set_status_bank st at_ b)
          end;
      _ ← (if side_effect
           then insert_event quarantine_id (status_text REVIEW_SIDE_EFFECT_STARTED) at_
                  [("previous_status", JStr (status_text (it_status i)))] None
           else mret ());
      mret i) expected_sha256 expected_updated_at.

Definition remove (quarantine_id event_type at_ : string) (stale_seconds : option Z) (actor : option string)
    : eff qdb unit :=
  _mutate_review quarantine_id at_ stale_seconds (fun i =>
    _ ← delete_item (it_quarantine_id i);
    insert_event quarantine_id event_type at_ [] actor) None None.

(** ** Steps of a claimed review *)

Definition require_reviewable (quarantine_id at_ : string) : eff qdb item :=
  found ← fetch_item quarantine_id;
  match found with
  | None => raise not_found_error
  | Some i => _ ← lift (_assert_reviewable i at_); mret i
  end.

Definition _require_review_state (quarantine_id at_ : string) (st : status) (expected_sha256 : option string)
    : eff qdb item :=
  found ← fetch_item quarantine_id;
  match found with
  | None => raise changed_in_review
  | Some i =>
      if negb (bool_decide (it_status i = st)) || negb (bool_decide (it_updated_at i = at_))
      then raise changed_in_review
      else if match expected_sha256 with Some s => negb (bool_decide (it_sha256 i = s)) | None => false end
      then raise changed_in_review
      else mret i
  end.

Definition require_in_progress (quarantine_id at_ : string) (expected_sha256 : option string) : eff qdb item :=
  _require_review_state quarantine_id at_ REVIEW_IN_PROGRESS expected_sha256.

Definition require_side_effect_started (quarantine_id at_ : string) (expected_sha256 : option string)
    : eff qdb item :=
  _require_review_state quarantine_id at_ REVIEW_SIDE_EFFECT_STARTED expected_sha256.

Definition require_side_effect_completed (quarantine_id at_ : string) (expected_sha256 : option string)
    : eff qdb item :=
  _require_review_state quarantine_id at_ REVIEW_SIDE_EFFECT_COMPLETED expected_sha256.

Definition mark_recalled (i : item) (st : status) (at_ : string) (actor : option string) : eff qdb unit :=
  _ ← update_item (it_quarantine_id i) (set_reviewed st at_);
  insert_event (it_quarantine_id i)
    (status_text (if decide (st = REVIEWED_ALLOWED) then REVIEWED_ALLOWED else REVIEWED_BLOCKED)) at_
    [("source_bank", jopt (it_source_bank i)); ("source_memory_id", jopt (it_source_memory_id i));
     ("source_content_sha256", jopt (it_source_content_sha256 i))] actor.

Definition only_memories : exn :=
  raise_http 409 "invalid_review_action" "only recalled memories can be marked reviewed".

Definition mark_memory_reviewed (quarantine_id : string) (st : status) (at_ : string)
    (expected_sha256 expected_updated_at : option string) : eff qdb unit := transaction (
  i ← require_reviewable quarantine_id at_;
  _ ← lift (_assert_snapshot i expected_sha256 expected_updated_at);
  _ ← lift (ensure (bool_decide (it_kind i = "recalled_memory")) only_memories);
  mark_recalled i st at_ None).

Definition complete_side_effect (quarantine_id at_ : string) (expected_sha256 : option string) : eff qdb unit :=
  transaction (
    _ ← require_side_effect_started quarantine_id at_ expected_sha256;
    _ ← update_item quarantine_id (set_status REVIEW_SIDE_EFFECT_COMPLETED at_);
    insert_event quarantine_id (status_text REVIEW_SIDE_EFFECT_COMPLETED) at_ [] None).

(** [error.kind] of a gateway error, ["unknown"] otherwise. *)
Definition gateway_kind_text (k : gateway_kind) : string :=
  match k with
  | KTimeout => "timeout" | KHttp => "http" | KInvalidResponse => "invalid-response" | KNetwork => "network"
  | KResponseTooLarge => "response-too-large" | KUnsafeResponse => "unsafe-response"
  | KResponseScanUnavailable => "response-scan-unavailable"
  end.

Definition error_kind (error : exn) : string :=
  match error with EGateway g => gateway_kind_text (gw_kind g) | _ => "unknown" end.

Definition interrupt_review (claimed : item) (at_ : string) (error : exn) : eff qdb unit := transaction (
  current ← fetch_item (it_quarantine_id claimed);
  match current with
  | None => mret ()
  | Some c =>
      if negb (elem (it_status c) [REVIEW_IN_PROGRESS; REVIEW_SIDE_EFFECT_STARTED])
         || negb (bool_decide (it_updated_at c = at_))
      then mret ()
      else if negb (elem (it_status claimed) REVIEWABLE_STATUSES)
      then raise (ERuntimeError ("cannot restore review to " +:+ status_text (it_status claimed))%string)
      else
        _ ← update_item (it_quarantine_id claimed) (set_status (it_status claimed) at_);
        insert_event (it_quarantine_id claimed) "review_interrupted" at_
          [("outcome", JStr "restored"); ("status", JStr (status_text (it_status claimed)));
           ("error_kind", JStr (error_kind error))] None
  end).

Definition finish_approve_retain (quarantine_id at_ : string) (details : list (string * json))
    (expected_sha256 : option string) : eff qdb unit := transaction (
  i ← require_side_effect_completed quarantine_id at_ expected_sha256;
  _ ← delete_item (it_quarantine_id i);
  insert_event quarantine_id "approved" at_ details None).

Definition finish_approve_memory (quarantine_id at_ : string) (expected_sha256 actor : option string)
    : eff qdb unit := transaction (
  i ← require_in_progress quarantine_id at_ expected_sha256;
  _ ← lift (ensure (bool_decide (it_kind i = "recalled_memory")) only_memories);
  mark_recalled i REVIEWED_ALLOWED at_ actor).

Definition finish_reject_memory (quarantine_id at_ : string) (expected_sha256 actor : option string)
    : eff qdb unit := transaction (
  i ← require_side_effect_completed quarantine_id at_ expected_sha256;
  mark_recalled i REVIEWED_BLOCKED at_ actor).

(** ** Reconciliation by an operator *)

Definition _require_side_effect_started (quarantine_id expected_sha256 expected_updated_at : string)
    : eff qdb item :=
  found ← fetch_item quarantine_id;
  match found with
  | None => raise not_found_error
  | Some i =>
      if negb (bool_decide (it_status i = REVIEW_SIDE_EFFECT_STARTED))
      then raise (raise_http 409 "invalid_review_action" "quarantine item is not awaiting side-effect reconciliation")
      else _ ← lift (_assert_snapshot i (Some expected_sha256) (Some expected_updated_at)); mret i
  end.

Definition confirm_side_effect_applied (quarantine_id at_ expected_sha256 expected_updated_at : string)
    (actor : option string) : eff qdb unit := transaction (
  _ ← _require_side_effect_started quarantine_id expected_sha256 expected_updated_at;
  _ ← update_item quarantine_id (set_status REVIEW_SIDE_EFFECT_COMPLETED at_);
  insert_event quarantine_id "review_reconciled" at_
    [("action", JStr "confirmed_applied"); ("previous_status", JStr (status_text REVIEW_SIDE_EFFECT_STARTED))] actor).

Definition confirm_side_effect_not_applied (quarantine_id at_ expected_sha256 expected_updated_at : string)
    (actor : option string) : eff qdb unit := transaction (
  _ ← _require_side_effect_started quarantine_id expected_sha256 expected_updated_at;
  _ ← update_item quarantine_id (set_status POSTPONED at_);
  insert_event quarantine_id "review_reconciled" at_
    [("action", JStr "confirmed_not_applied"); ("previous_status", JStr (status_text REVIEW_SIDE_EFFECT_STARTED))] actor).
