(* ===== verification/ReviewProps.v ===== *)
(** * Properties of the review state machine

    The abstract machine on the status of an item ([review_step]) and that
    every operation of [Review.v] implements it and keeps the tables well
    formed; exclusive claims, complete review flows, recovery of stale claims. *)

From Stdlib Require Import ZArith Lia.
From stdpp Require Import base sets strings numbers list relations.
From S2P Require Import Prelude Errors Text Json Timestamps Repository RepositoryProps Review.

Local Open Scope Z_scope.

(** ** The abstract machine *)

(** The status of an item, [None] when there is no such item. *)
Definition status_of (d : qdb) (id : string) : option status := it_status <$> get (q_items d) id.

Inductive review_step : option status -> option status -> Prop :=
  | step_postpone s : s ∈ REVIEWABLE_STATUSES -> review_step (Some s) (Some POSTPONED)
  | step_claim s : s ∈ REVIEWABLE_STATUSES -> review_step (Some s) (Some REVIEW_IN_PROGRESS)
  | step_claim_side_effect s : s ∈ REVIEWABLE_STATUSES -> review_step (Some s) (Some REVIEW_SIDE_EFFECT_STARTED)
  | step_discard s : s ∈ REVIEWABLE_STATUSES -> review_step (Some s) None
  | step_decide s f : s ∈ REVIEWABLE_STATUSES -> f ∈ FINAL_STATUSES -> review_step (Some s) (Some f)
  | step_restore s s' :
      s ∈ [REVIEW_IN_PROGRESS; REVIEW_SIDE_EFFECT_STARTED] -> s' ∈ REVIEWABLE_STATUSES ->
      review_step (Some s) (Some s')
  | step_expire_claim : review_step (Some REVIEW_IN_PROGRESS) None
  | step_allow : review_step (Some REVIEW_IN_PROGRESS) (Some REVIEWED_ALLOWED)
  | step_complete : review_step (Some REVIEW_SIDE_EFFECT_STARTED) (Some REVIEW_SIDE_EFFECT_COMPLETED)
  | step_approve : review_step (Some REVIEW_SIDE_EFFECT_COMPLETED) None
  | step_block : review_step (Some REVIEW_SIDE_EFFECT_COMPLETED) (Some REVIEWED_BLOCKED).

(** Every item moved along the machine. *)
Definition follows (d d' : qdb) : Prop := forall id, rtc review_step (status_of d id) (status_of d' id).

Lemma follows_refl d : follows d d.
Proof. intros id. apply rtc_refl. Qed.

Lemma follows_trans d1 d2 d3 : follows d1 d2 -> follows d2 d3 -> follows d1 d3.
Proof. intros H1 H2 id. etrans; [apply H1|apply H2]. Qed.

Lemma follows_items d d' : q_items d' = q_items d -> follows d d'.
Proof. intros E id. unfold status_of. rewrite E. apply rtc_refl. Qed.

(** ** Lookups after statements *)

Lemma get_elem t id i : get t id = Some i -> i ∈ t /\ it_quarantine_id i = id.
Proof. intros [Hin Hk]%fetchone_Some. split; [done|]. by apply (proj1 (has_key_true _ _ _)) in Hk. Qed.

Lemma get_unique t i : unique_ok t = true -> i ∈ t -> get t (it_quarantine_id i) = Some i.
Proof. intros Hu Hin. apply fetch_key_elem; [by apply unique_keys|done]. Qed.

Lemma get_none t id r : get t id = None -> r ∈ t -> it_quarantine_id r <> id.
Proof. intros Hn Hr. pose proof (fetchone_None _ _ _ Hn Hr) as Hk. by apply (proj1 (has_key_false _ _ _)) in Hk. Qed.

(** Updating rows selected by [p], which at most selects rows of [id]. *)
Lemma get_update t p f id :
  (forall r, it_quarantine_id (f r) = it_quarantine_id r) ->
  get (update_where p f t) id = (fun r => if p r then f r else r) <$> get t id.
Proof.
  intros Hf. unfold get, fetchone, update_where. induction t as [|r t IH]; simpl; [done|].
  assert (Hk : has_key it_quarantine_id id (if p r then f r else r) = has_key it_quarantine_id id r)
    by (unfold has_key; destruct (p r); [by rewrite Hf|done]).
  rewrite Hk. destruct (has_key _ _ r); [done|apply IH].
Qed.

Lemma get_delete t p id :
  unique_ok t = true ->
  get (delete_where p t) id = match get t id with Some r => if p r then None else Some r | None => None end.
Proof.
  intros Hu%unique_keys. unfold get, fetchone, delete_where, keys_unique in *.
  induction t as [|r t IH]; simpl in *; [done|]. apply NoDup_cons in Hu as [Hx Hu].
  destruct (has_key it_quarantine_id id r) eqn:E.
  - destruct (p r) eqn:Ep; simpl; [|by rewrite E].
    apply (proj1 (has_key_true _ _ _)) in E. subst id.
    destruct (List.find _ (List.filter _ t)) as [r'|] eqn:Ef; [|done].
    apply List.find_some in Ef as [Hin Hk]. apply (proj1 (has_key_true _ _ _)) in Hk.
    apply List.filter_In in Hin as [Hin _]. exfalso. apply Hx. rewrite <- Hk.
    by apply list_elem_of_In, List.in_map.
  - destruct (p r); simpl; [by apply IH|]. rewrite E. by apply IH.
Qed.

Lemma execute_items_err f d e d' : execute_items f d = (Err e, d') -> d' = d.
Proof.
  unfold execute_items, mbind, eff_bind, get_state, put_state, raise. cbn zeta.
  destruct (unique_ok _); [done|]. by intros [= _ <-].
Qed.

(** The effect of [update_item] on every lookup. *)
Lemma update_item_ok id f d u d' :
  (forall r, it_quarantine_id (f r) = it_quarantine_id r) ->
  update_item id f d = (Ok u, d') ->
  q_events d' = q_events d /\ q_next_event d' = q_next_event d /\ unique_ok (q_items d') = true /\
  q_items d' = update_where (has_key it_quarantine_id id) f (q_items d) /\
  (forall id', get (q_items d') id' = if decide (id' = id) then f <$> get (q_items d) id' else get (q_items d) id').
Proof.
  intros Hf [-> Hu]%execute_items_ok. split_and!; try done. intros id'. simpl. rewrite get_update by done.
  destruct (get (q_items d) id') as [r|] eqn:E; simpl; [|by case_decide].
  apply get_elem in E as [_ <-]. unfold has_key. case_decide; case_bool_decide; congruence.
Qed.

Lemma delete_item_ok id d u d' :
  unique_ok (q_items d) = true ->
  delete_item id d = (Ok u, d') ->
  q_events d' = q_events d /\ q_next_event d' = q_next_event d /\ unique_ok (q_items d') = true /\
  q_items d' = delete_where (has_key it_quarantine_id id) (q_items d) /\
  (forall id', get (q_items d') id' = if decide (id' = id) then None else get (q_items d) id').
Proof.
  intros Hud [-> Hu]%execute_items_ok. split_and!; try done. intros id'. simpl. rewrite get_delete by done.
  destruct (get (q_items d) id') as [r|] eqn:E; simpl; [|by case_decide].
  apply get_elem in E as [_ <-]. unfold has_key. case_decide; case_bool_decide; congruence.
Qed.

Lemma fetch_item_ok id d r d' : fetch_item id d = (r, d') -> d' = d /\ r = Ok (get (q_items d) id).
Proof. unfold fetch_item, mbind, eff_bind, get_state, mret, eff_ret. by intros [= <- <-]. Qed.

(** ** Preservation, one lemma per kind of statement *)

Lemma row_ok_set_status st at_ r : row_ok r -> row_ok (set_status st at_ r).
Proof. done. Qed.
Lemma row_ok_set_status_bank st at_ b r : row_ok r -> row_ok (set_status_bank st at_ b r).
Proof. done. Qed.
Lemma row_ok_set_postponed at_ r : row_ok r -> row_ok (set_postponed at_ r).
Proof. intros (H1 & H2 & H3). unfold row_ok. simpl. split_and!; [done|lia|done]. Qed.
Lemma row_ok_set_reviewed st at_ r : row_ok r -> row_ok (set_reviewed st at_ r).
Proof. intros (H1 & H2 & H3). by split_and!. Qed.
#[export] Hint Resolve row_ok_set_status row_ok_set_status_bank row_ok_set_postponed row_ok_set_reviewed : table.

(** An update moves the status of one item, here to [st]. *)
Lemma update_item_follows id f d u d' i st :
  (forall r, it_quarantine_id (f r) = it_quarantine_id r) -> (forall r, row_ok r -> row_ok (f r)) ->
  it_status (f i) = st ->
  db_ok d -> get (q_items d) id = Some i -> rtc review_step (Some (it_status i)) (Some st) ->
  update_item id f d = (Ok u, d') -> db_ok d' /\ follows d d' /\ status_of d' id = Some st.
Proof.
  intros Hf Hr <- Hd Hg Hst Hu. apply update_item_ok in Hu as (He & Hn & Hu & Hi & Hget); [|done].
  split_and!.
  - destruct d' as [t' e' n']. simpl in *. subst. destruct Hd as [_ Hrows Hnd Hfresh]. split; try done.
    simpl. apply Forall_update_where; [done|]. auto.
  - intros id'. unfold status_of. rewrite Hget. case_decide; subst; [by rewrite Hg|apply rtc_refl].
  - unfold status_of. rewrite Hget, decide_True by done. by rewrite Hg.
Qed.

Lemma delete_item_follows id d u d' i :
  db_ok d -> get (q_items d) id = Some i -> rtc review_step (Some (it_status i)) None ->
  delete_item id d = (Ok u, d') -> db_ok d' /\ follows d d' /\ status_of d' id = None.
Proof.
  intros Hd Hg Hst Hu. apply delete_item_ok in Hu as (He & Hn & Hu & Hi & Hget); [|apply Hd].
  split_and!.
  - destruct d' as [t' e' n']. simpl in *. subst. destruct Hd as [_ Hrows Hnd Hfresh]. split; try done.
    simpl. rewrite list.Forall_forall in *. intros r [Hin _]%delete_where_elem. auto.
  - intros id'. unfold status_of. rewrite Hget. case_decide; subst; [by rewrite Hg|apply rtc_refl].
  - unfold status_of. by rewrite Hget, decide_True by done.
Qed.

Lemma insert_event_follows qid ty at_ details actor d r d' :
  db_ok d -> insert_event qid ty at_ details actor d = (r, d') ->
  r = Ok () /\ db_ok d' /\ follows d d' /\ q_items d' = q_items d.
Proof.
  intros Hd Hi. pose proof (insert_event_db_ok _ _ _ _ _ _ _ _ Hi Hd).
  apply insert_event_ok in Hi as (-> & Hit & _). split_and!; try done. by apply follows_items.
Qed.

(** A computation that keeps the tables well formed and follows the machine. *)
Definition reviews {A} (m : eff qdb A) : Prop :=
  forall d r d', db_ok d -> m d = (r, d') -> db_ok d' /\ follows d d'.

Lemma reviews_transaction {A} (m : eff qdb A) :
  (forall d a d', db_ok d -> m d = (Ok a, d') -> db_ok d' /\ follows d d') -> reviews (transaction m).
Proof.
  intros Hm d r d' Hd Ht. destruct r as [a|e].
  - apply transaction_ok_inv in Ht. by eapply Hm.
  - apply transaction_err in Ht as [-> _]. split; [done|apply follows_refl].
Qed.

(** Follow an insert_event that ends a successful transaction. *)
Ltac close_event Hd1 Hf1 :=
  match goal with
  | H : insert_event _ _ _ _ _ _ = _ |- _ =>
      let Hd2 := fresh in let Hf2 := fresh in
      apply insert_event_follows in H as (_ & Hd2 & Hf2 & _); [|exact Hd1];
      split; [exact Hd2|by eapply follows_trans]
  end.

(** ** Stale claims *)

Lemma in_progress_get d id p f i :
  get (q_items d) id = Some i -> it_status i = REVIEW_IN_PROGRESS ->
  p = in_progress_row id ->
  (forall r, it_quarantine_id (f r) = it_quarantine_id r) ->
  forall id', get (update_where p f (q_items d)) id' = if decide (id' = id) then Some (f i) else get (q_items d) id'.
Proof.
  intros Hg Hst -> Hf id'. rewrite get_update by done. unfold in_progress_row, has_key.
  destruct (decide (id' = id)) as [->|Hne].
  - rewrite Hg. simpl. apply get_elem in Hg as [_ Hid]. by rewrite Hst, !bool_decide_true.
  - destruct (get (q_items d) id') as [r|] eqn:E; [|done]. simpl. apply get_elem in E as [_ <-].
    by rewrite bool_decide_false.
Qed.

Lemma restore_claim_ok i at_ d u d' :
  db_ok d -> get (q_items d) (it_quarantine_id i) = Some i -> it_status i = REVIEW_IN_PROGRESS ->
  _restore_stale_claim i at_ d = (Ok u, d') ->
  db_ok d' /\ follows d d' /\
  (forall id', get (q_items d') id' =
     if decide (id' = it_quarantine_id i) then Some (set_status POSTPONED at_ i) else get (q_items d) id').
Proof.
  intros Hd Hg Hst Hr. apply bind_ok_inv in Hr as (? & d1 & He & Hr).
  pose proof (execute_items_db_ok _ _ _ _ He Hd) as Hd1.
  apply execute_items_ok in He as [-> Hu].
  assert (Hd1' : db_ok (set_items (update_where (in_progress_row (it_quarantine_id i)) (set_status POSTPONED at_) (q_items d)) d)).
  { apply Hd1. apply Forall_update_where; [apply Hd|]. auto with table. }
  apply insert_event_follows in Hr as (_ & Hd2 & _ & Hit); [|done].
  assert (Hget : forall id', get (q_items d') id' =
     if decide (id' = it_quarantine_id i) then Some (set_status POSTPONED at_ i) else get (q_items d) id').
  { intros id'. rewrite Hit. simpl. by apply in_progress_get. }
  split_and!; try done. intros id'. unfold status_of. rewrite Hget. case_decide; [subst|apply rtc_refl].
  rewrite Hg. simpl. rewrite Hst. apply rtc_once. apply step_restore; [by left|by right; left].
Qed.

Lemma expire_claim_ok i at_ d u d' :
  db_ok d -> get (q_items d) (it_quarantine_id i) = Some i -> it_status i = REVIEW_IN_PROGRESS ->
  _expire_stale_claim i at_ d = (Ok u, d') ->
  db_ok d' /\ follows d d' /\
  (forall id', get (q_items d') id' = if decide (id' = it_quarantine_id i) then None else get (q_items d) id').
Proof.
  intros Hd Hg Hst Hr. apply bind_ok_inv in Hr as (? & d1 & He & Hr).
  pose proof (execute_items_db_ok _ _ _ _ He Hd) as Hd1.
  apply execute_items_ok in He as [-> Hu].
  assert (Hd1' : db_ok (set_items (delete_where (in_progress_row (it_quarantine_id i)) (q_items d)) d)).
  { apply Hd1. pose proof (dok_rows d Hd) as Hrows. rewrite list.Forall_forall in *.
    intros r [Hin _]%delete_where_elem. auto. }
  apply insert_event_follows in Hr as (_ & Hd2 & _ & Hit); [|done].
  assert (Hget : forall id', get (q_items d') id' = if decide (id' = it_quarantine_id i) then None else get (q_items d) id').
  { intros id'. rewrite Hit. simpl. rewrite get_delete by apply Hd. unfold in_progress_row, has_key.
    destruct (decide (id' = it_quarantine_id i)) as [->|Hne].
    - rewrite Hg. by rewrite Hst, !bool_decide_true.
    - destruct (get (q_items d) id') as [r|] eqn:E; [|done]. apply get_elem in E as [_ <-].
      by rewrite bool_decide_false. }
  split_and!; try done. intros id'. unfold status_of. rewrite Hget. case_decide; [subst|apply rtc_refl].
  rewrite Hg. simpl. rewrite Hst. apply rtc_once, step_expire_claim.
Qed.

Lemma recover_stale_ok i at_ stale d r d' :
  db_ok d -> get (q_items d) (it_quarantine_id i) = Some i ->
  _recover_stale_for_action i at_ stale d = (Ok r, d') ->
  db_ok d' /\ follows d d' /\
  (forall i', r = Some i' -> get (q_items d') (it_quarantine_id i) = Some i' /\
     (d' = d /\ i' = i \/ it_status i = REVIEW_IN_PROGRESS /\ i' = set_status POSTPONED at_ i)).
Proof.
  intros Hd Hg Hr. unfold _recover_stale_for_action in Hr. apply bind_ok_inv in Hr as (st & d1 & Hs & Hr).
  apply lift_ok in Hs as [Hs ->].
  destruct st; simpl in Hr.
  - assert (Hst : it_status i = REVIEW_IN_PROGRESS).
    { destruct stale; [|done]. by case_bool_decide. }
    destruct (is_expired i at_); apply bind_ok_inv in Hr as (u & d2 & He & Hr);
      injection Hr as <- <-.
    + apply expire_claim_ok in He as (? & ? & _); try done.
    + apply restore_claim_ok in He as (? & ? & Hget); try done. split_and!; try done.
      intros i' [= <-]. rewrite Hget, decide_True by done. split; [done|]. by right.
  - injection Hr as <- <-. split_and!; [done|apply follows_refl|]. intros i' [= <-]. split; [done|]. by left.
Qed.

(** ** Actions *)

Lemma assert_reviewable_ok i at_ v :
  _assert_reviewable i at_ = Ok v -> it_status i ∈ REVIEWABLE_STATUSES /\ is_expired i at_ = false.
Proof.
  unfold _assert_reviewable. destruct (elem _ _) eqn:E; simpl; [|done]. apply elem_true in E.
  by destruct (is_expired i at_).
Qed.

Lemma mutate_review_ok {T} id at_ stale (mutation : item -> eff qdb T) sha upd d a d' :
  db_ok d -> _mutate_review id at_ stale mutation sha upd d = (Ok a, d') ->
  exists i i' d1, get (q_items d) id = Some i /\ db_ok d1 /\ follows d d1 /\ get (q_items d1) id = Some i' /\
    it_quarantine_id i' = id /\
    (d1 = d /\ i' = i \/ it_status i = REVIEW_IN_PROGRESS /\ i' = set_status POSTPONED at_ i) /\
    it_status i' ∈ REVIEWABLE_STATUSES /\ is_expired i' at_ = false /\ mutation i' d1 = (Ok a, d').
Proof.
  intros Hd Hm. apply bind_ok_inv in Hm as ([res|] & d2 & Ht & Hm); [|done].
  injection Hm as -> ->. apply transaction_ok_inv in Ht. apply bind_ok_inv in Ht as (found & d3 & Hf & Ht).
  apply fetch_item_ok in Hf as [-> [= ->]].
  destruct (get (q_items d) id) as [i|] eqn:Hg; [|done].
  apply bind_ok_inv in Ht as (? & d4 & Hs & Ht). apply lift_ok in Hs as [_ ->].
  apply bind_ok_inv in Ht as (rec & d5 & Hr & Ht).
  assert (Hid : it_quarantine_id i = id) by (by destruct (get_elem _ _ _ Hg)).
  rewrite <- Hid in Hg. apply recover_stale_ok in Hr as (Hd5 & Hf5 & Hget); [|done|done].
  destruct rec as [i'|]; [|done]. destruct (Hget i' eq_refl) as [Hg' Hcase].
  apply bind_ok_inv in Ht as (? & d6 & Hs & Ht). apply lift_ok in Hs as [Ha ->].
  apply assert_reviewable_ok in Ha as [Hst Hexp].
  apply bind_ok_inv in Ht as (b & d7 & Hmu & Ht). injection Ht as -> ->.
  exists i, i', d5. rewrite Hid in *. split_and!; try done. by destruct (get_elem _ _ _ Hg').
Qed.

Lemma mutate_review_reviews {T} id at_ stale (mutation : item -> eff qdb T) sha upd :
  (forall i d a d', db_ok d -> get (q_items d) id = Some i -> it_quarantine_id i = id ->
     it_status i ∈ REVIEWABLE_STATUSES -> mutation i d = (Ok a, d') -> db_ok d' /\ follows d d') ->
  reviews (_mutate_review id at_ stale mutation sha upd).
Proof.
  intros Hmut d r d' Hd Hm. unfold _mutate_review in Hm.
  match type of Hm with (transaction ?m ≫= _) _ = _ => set (body := m) in * end.
  assert (Hb : reviews (transaction body)).
  { apply reviews_transaction. clear d r d' Hd Hm. intros d a d' Hd Ht.
    apply bind_ok_inv in Ht as (found & d3 & Hf & Ht). apply fetch_item_ok in Hf as [-> [= ->]].
    destruct (get (q_items d) id) as [i|] eqn:Hg; [|done].
    apply bind_ok_inv in Ht as (? & d4 & Hs & Ht). apply lift_ok in Hs as [_ ->].
    apply bind_ok_inv in Ht as (rec & d5 & Hr & Ht).
    assert (Hid : it_quarantine_id i = id) by (by destruct (get_elem _ _ _ Hg)).
    rewrite <- Hid in Hg. apply recover_stale_ok in Hr as (Hd5 & Hf5 & Hget); [|done|done].
    destruct rec as [i'|]; [|by injection Ht as <- <-]. destruct (Hget i' eq_refl) as [Hg' _].
    apply bind_ok_inv in Ht as (? & d6 & Hs & Ht). apply lift_ok in Hs as [Ha ->].
    apply assert_reviewable_ok in Ha as [Hst Hexp].
    apply bind_ok_inv in Ht as (b & d7 & Hmu & Ht). injection Ht as <- <-. rewrite Hid in *.
    apply Hmut in Hmu as [? ?]; [|done|done|by destruct (get_elem _ _ _ Hg')|done].
    split; [done|by eapply follows_trans]. }
  unfold mbind, eff_bind in Hm. destruct (transaction body d) as [[[a|]|e] d1] eqn:E;
    apply Hb in E as [Hd1 Hf1]; try done; by injection Hm as _ <-.
Qed.

Lemma postpone_reviews id at_ stale maxp actor : reviews (postpone id at_ stale maxp actor).
Proof.
  apply mutate_review_reviews. intros i d a d' Hd Hg Hid Hst Hm. cbn zeta in Hm.
  destruct (match maxp with Some m => m <=? _ | None => _ end); [done|].
  apply bind_ok_inv in Hm as (? & d1 & Hu & Hm).
  apply (update_item_follows id _ d _ d1 i POSTPONED) in Hu as (Hd1 & Hf1 & _);
    [|done|auto with table|done|done|done|apply rtc_once; by constructor].
  apply bind_ok_inv in Hm as (? & d2 & He & Hm). apply fetch_item_ok in Hm as [-> _]. close_event Hd1 Hf1.
Qed.

Lemma claim_reviews id kind at_ stale se sha upd bank : reviews (claim_review id kind at_ stale se sha upd bank).
Proof.
  apply mutate_review_reviews. intros i d a d' Hd Hg Hid Hst Hm. cbn zeta in Hm.
  destruct (negb _); [done|].
  set (st := if se then REVIEW_SIDE_EFFECT_STARTED else REVIEW_IN_PROGRESS) in *.
  assert (Hstep : rtc review_step (Some (it_status i)) (Some st))
    by (apply rtc_once; unfold st; destruct se; by constructor).
  apply bind_ok_inv in Hm as (? & d1 & Hu & Hm).
  assert (db_ok d1 /\ follows d d1) as [Hd1 Hf1].
  { destruct bank as [b|].
    - apply (update_item_follows id _ d _ d1 i st) in Hu as (? & ? & _); auto with table.
    - apply (update_item_follows id _ d _ d1 i st) in Hu as (? & ? & _); auto with table. }
  apply bind_ok_inv in Hm as (? & d2 & He & Hm). injection Hm as <- <-.
  destruct se; [close_event Hd1 Hf1|]. by injection He as _ <-.
Qed.

Lemma remove_reviews id ty at_ stale actor : reviews (remove id ty at_ stale actor).
Proof.
  apply mutate_review_reviews. intros i d a d' Hd Hg Hid Hst Hm.
  apply bind_ok_inv in Hm as (? & d1 & Hu & Hm). rewrite Hid in Hu.
  apply (delete_item_follows id d _ d1 i) in Hu as (Hd1 & Hf1 & _); [|done|done|apply rtc_once; by constructor].
  close_event Hd1 Hf1.
Qed.

(** ** Steps of a claimed review *)

Lemma require_state_ok id at_ st sha d i d' :
  _require_review_state id at_ st sha d = (Ok i, d') ->
  d' = d /\ get (q_items d) id = Some i /\ it_quarantine_id i = id /\ it_status i = st /\ it_updated_at i = at_ /\
  (forall s, sha = Some s -> it_sha256 i = s).
Proof.
  unfold _require_review_state. intros Hr. apply bind_ok_inv in Hr as (found & d1 & Hf & Hr).
  apply fetch_item_ok in Hf as [-> [= ->]]. destruct (get (q_items d) id) as [i0|] eqn:Hg; [|done].
  destruct (_ || _) eqn:Ec; [done|]. split_bool. case_match eqn:Es; [done|]. injection Hr as <- <-.
  split_and!; try done; [by destruct (get_elem _ _ _ Hg)|]. intros s ->. by split_bool.
Qed.

Lemma require_reviewable_ok id at_ d i d' :
  require_reviewable id at_ d = (Ok i, d') ->
  d' = d /\ get (q_items d) id = Some i /\ it_quarantine_id i = id /\ it_status i ∈ REVIEWABLE_STATUSES.
Proof.
  unfold require_reviewable. intros Hr. apply bind_ok_inv in Hr as (found & d1 & Hf & Hr).
  apply fetch_item_ok in Hf as [-> [= ->]]. destruct (get (q_items d) id) as [i0|] eqn:Hg; [|done].
  apply bind_ok_inv in Hr as (? & d2 & Ha & Hr). apply lift_ok in Ha as [Ha ->].
  apply assert_reviewable_ok in Ha as [? _]. injection Hr as <- <-.
  split_and!; try done. by destruct (get_elem _ _ _ Hg).
Qed.

Lemma require_started_ok id sha upd d i d' :
  _require_side_effect_started id sha upd d = (Ok i, d') ->
  d' = d /\ get (q_items d) id = Some i /\ it_status i = REVIEW_SIDE_EFFECT_STARTED /\
  it_sha256 i = sha /\ it_updated_at i = upd.
Proof.
  unfold _require_side_effect_started. intros Hr. apply bind_ok_inv in Hr as (found & d1 & Hf & Hr).
  apply fetch_item_ok in Hf as [-> [= ->]]. destruct (get (q_items d) id) as [i0|] eqn:Hg; [|done].
  case_bool_decide; simpl in Hr; [|done].
  apply bind_ok_inv in Hr as (? & d2 & Ha & Hr). apply lift_ok in Ha as [Ha ->]. injection Hr as <- <-.
  unfold _assert_snapshot in Ha. do 2 (case_bool_decide; simpl in Ha; [|done]). done.
Qed.

Lemma mark_recalled_follows i st at_ actor d u d' :
  db_ok d -> get (q_items d) (it_quarantine_id i) = Some i -> rtc review_step (Some (it_status i)) (Some st) ->
  mark_recalled i st at_ actor d = (Ok u, d') -> db_ok d' /\ follows d d'.
Proof.
  intros Hd Hg Hst Hm. apply bind_ok_inv in Hm as (? & d1 & Hu & Hm).
  apply (update_item_follows _ _ d _ d1 i st) in Hu as (Hd1 & Hf1 & _); auto with table.
  close_event Hd1 Hf1.
Qed.

Lemma complete_reviews id at_ sha : reviews (complete_side_effect id at_ sha).
Proof.
  apply reviews_transaction. intros d a d' Hd Hm.
  apply bind_ok_inv in Hm as (i & d0 & Hr & Hm). apply require_state_ok in Hr as (-> & Hg & _ & Hst & _).
  apply bind_ok_inv in Hm as (? & d1 & Hu & Hm).
  apply (update_item_follows id _ d _ d1 i REVIEW_SIDE_EFFECT_COMPLETED) in Hu as (Hd1 & Hf1 & _); auto with table.
  - close_event Hd1 Hf1.
  - rewrite Hst. apply rtc_once, step_complete.
Qed.

Lemma interrupt_reviews claimed at_ error : reviews (interrupt_review claimed at_ error).
Proof.
  apply reviews_transaction. intros d a d' Hd Hm.
  apply bind_ok_inv in Hm as (found & d0 & Hf & Hm). apply fetch_item_ok in Hf as [-> [= ->]].
  destruct (get (q_items d) _) as [c|] eqn:Hg; [|injection Hm as _ <-; split; [done|apply follows_refl]].
  destruct (_ || _) eqn:Ec; [injection Hm as _ <-; split; [done|apply follows_refl]|]. split_bool.
  apply elem_true in H. destruct (elem (it_status claimed) _) eqn:Er; [|done]. apply elem_true in Er. simpl in Hm.
  apply bind_ok_inv in Hm as (? & d1 & Hu & Hm).
  apply (update_item_follows _ _ d _ d1 c (it_status claimed)) in Hu as (Hd1 & Hf1 & _); auto with table.
  - close_event Hd1 Hf1.
  - apply rtc_once. by apply step_restore.
Qed.

Lemma approve_retain_reviews id at_ details sha : reviews (finish_approve_retain id at_ details sha).
Proof.
  apply reviews_transaction. intros d a d' Hd Hm.
  apply bind_ok_inv in Hm as (i & d0 & Hr & Hm). apply require_state_ok in Hr as (-> & Hg & Hid & Hst & _).
  apply bind_ok_inv in Hm as (? & d1 & Hu & Hm). rewrite Hid in Hu.
  apply (delete_item_follows id d _ d1 i) in Hu as (Hd1 & Hf1 & _); [|done|done|].
  - close_event Hd1 Hf1.
  - rewrite Hst. apply rtc_once, step_approve.
Qed.

Lemma approve_memory_reviews id at_ sha actor : reviews (finish_approve_memory id at_ sha actor).
Proof.
  apply reviews_transaction. intros d a d' Hd Hm.
  apply bind_ok_inv in Hm as (i & d0 & Hr & Hm). apply require_state_ok in Hr as (-> & Hg & Hid & Hst & _).
  apply bind_ok_inv in Hm as (? & d1 & He & Hm). apply lift_ok in He as [_ ->]. rewrite <- Hid in Hg.
  eapply mark_recalled_follows; [done|done| |done]. rewrite Hst. apply rtc_once, step_allow.
Qed.

Lemma reject_memory_reviews id at_ sha actor : reviews (finish_reject_memory id at_ sha actor).
Proof.
  apply reviews_transaction. intros d a d' Hd Hm.
  apply bind_ok_inv in Hm as (i & d0 & Hr & Hm). apply require_state_ok in Hr as (-> & Hg & Hid & Hst & _).
  rewrite <- Hid in Hg. eapply mark_recalled_follows; [done|done| |done]. rewrite Hst. apply rtc_once, step_block.
Qed.

Lemma mark_memory_reviews id st at_ sha upd :
  st ∈ FINAL_STATUSES -> reviews (mark_memory_reviewed id st at_ sha upd).
Proof.
  intros Hfin. apply reviews_transaction. intros d a d' Hd Hm.
  apply bind_ok_inv in Hm as (i & d0 & Hr & Hm). apply require_reviewable_ok in Hr as (-> & Hg & Hid & Hst).
  apply bind_ok_inv in Hm as (? & d1 & He & Hm). apply lift_ok in He as [_ ->].
  apply bind_ok_inv in Hm as (? & d1 & He & Hm). apply lift_ok in He as [_ ->]. rewrite <- Hid in Hg.
  eapply mark_recalled_follows; [done|done| |done]. apply rtc_once. by apply step_decide.
Qed.

Lemma confirm_applied_reviews id at_ sha upd actor : reviews (confirm_side_effect_applied id at_ sha upd actor).
Proof.
  apply reviews_transaction. intros d a d' Hd Hm.
  apply bind_ok_inv in Hm as (i & d0 & Hr & Hm). apply require_started_ok in Hr as (-> & Hg & Hst & _).
  apply bind_ok_inv in Hm as (? & d1 & Hu & Hm).
  apply (update_item_follows id _ d _ d1 i REVIEW_SIDE_EFFECT_COMPLETED) in Hu as (Hd1 & Hf1 & _); auto with table.
  - close_event Hd1 Hf1.
  - rewrite Hst. apply rtc_once, step_complete.
Qed.

Lemma confirm_not_applied_reviews id at_ sha upd actor :
  reviews (confirm_side_effect_not_applied id at_ sha upd actor).
Proof.
  apply reviews_transaction. intros d a d' Hd Hm.
  apply bind_ok_inv in Hm as (i & d0 & Hr & Hm). apply require_started_ok in Hr as (-> & Hg & Hst & _).
  apply bind_ok_inv in Hm as (? & d1 & Hu & Hm).
  apply (update_item_follows id _ d _ d1 i POSTPONED) in Hu as (Hd1 & Hf1 & _); auto with table.
  - close_event Hd1 Hf1.
  - rewrite Hst. apply rtc_once, step_restore; [by right; left|by right; left].
Qed.

(** ** Recovery of all stale claims *)

(** Rows still to be recovered are in the tables as they were read. *)
Definition still_there (d : qdb) (rows : list item) : Prop :=
  forall r, r ∈ rows -> get (q_items d) (it_quarantine_id r) = Some r /\ it_status r = REVIEW_IN_PROGRESS.

(** What recovery makes of a row it read. *)
Definition recovered_row (at_ : string) (stale_seconds : Z) (r : item) : option item :=
  match _stale (it_updated_at r) at_ stale_seconds with
  | Ok true => if is_expired r at_ then None else Some (set_status POSTPONED at_ r)
  | _ => Some r
  end.

Lemma recover_loop_ok at_ secs rows d u d' :
  db_ok d -> NoDup (map it_quarantine_id rows) -> still_there d rows ->
  for_each (fun row =>
    stale ← lift (_stale (it_updated_at row) at_ secs);
    if negb stale then mret ()
    else if is_expired row at_ then _expire_stale_claim row at_
    else _restore_stale_claim row at_) rows d = (Ok u, d') ->
  db_ok d' /\ follows d d' /\
  (forall r, r ∈ rows -> get (q_items d') (it_quarantine_id r) = recovered_row at_ secs r) /\
  (forall id, id ∉ map it_quarantine_id rows -> get (q_items d') id = get (q_items d) id).
Proof.
  revert d. induction rows as [|r rows IH]; intros d Hd Hnd Hthere Hr.
  { injection Hr as _ <-. split_and!; [done|apply follows_refl|intros r Hr; by apply not_elem_of_nil in Hr|done]. }
  simpl in Hnd. apply NoDup_cons in Hnd as [Hx Hnd]. simpl in Hr.
  apply bind_ok_inv in Hr as (? & d1 & Hrow & Hr).
  destruct (Hthere r ltac:(left)) as [Hg Hst].
  assert (db_ok d1 /\ follows d d1 /\
    (forall id', get (q_items d1) id' =
       if decide (id' = it_quarantine_id r) then recovered_row at_ secs r else get (q_items d) id')) as (Hd1 & Hf1 & Hget1).
  { apply bind_ok_inv in Hrow as (st & d2 & Hs & Hrow). apply lift_ok in Hs as [Hs ->].
    unfold recovered_row. rewrite Hs. destruct st; simpl in Hrow.
    - destruct (is_expired r at_); [by apply expire_claim_ok in Hrow|by apply restore_claim_ok in Hrow].
    - injection Hrow as _ <-. split_and!; [done|apply follows_refl|]. intros id'. case_decide; by subst. }
  apply IH in Hr as (Hd' & Hf' & Hrec & Hrest); [|done|done|].
  - split_and!; [done|by eapply follows_trans| |].
    + intros r' [->|Hin]%elem_of_cons; [|by apply Hrec]. rewrite Hrest by done.
      by rewrite Hget1, decide_True.
    + intros id Hid. simpl in Hid. apply not_elem_of_cons in Hid as [Hne Hid].
      by rewrite Hrest, Hget1, decide_False.
  - intros r' Hin. destruct (Hthere r' ltac:(by right)) as [Hg' Hst']. split; [|done].
    rewrite Hget1, decide_False; [done|]. intros Heq. apply Hx. rewrite <- Heq.
    by apply list_elem_of_In, List.in_map, list_elem_of_In.
Qed.

Lemma NoDup_select t p : NoDup (map it_quarantine_id t) -> NoDup (map it_quarantine_id (select_where p t)).
Proof.
  intros Hnd. apply (keys_unique_delete it_quarantine_id t (fun r => negb (p r))) in Hnd.
  unfold keys_unique, delete_where, select_where in *.
  erewrite List.filter_ext; [exact Hnd|]. intros r. simpl. by rewrite negb_involutive.
Qed.

Lemma recover_ok at_ secs d u d' :
  db_ok d -> recover_interrupted at_ secs d = (Ok u, d') ->
  db_ok d' /\ follows d d' /\
  forall id, get (q_items d') id =
    match get (q_items d) id with
    | Some r => if decide (it_status r = REVIEW_IN_PROGRESS) then recovered_row at_ secs r else Some r
    | None => None
    end.
Proof.
  intros Hd Hr. apply transaction_ok_inv in Hr. apply bind_ok_inv in Hr as (d0 & d1 & Hg & Hr).
  injection Hg as <- <-.
  assert (Hsel : forall r, r ∈ select_where (fun r => bool_decide (it_status r = REVIEW_IN_PROGRESS)) (q_items d)
            <-> r ∈ q_items d /\ it_status r = REVIEW_IN_PROGRESS)
    by (intros r; by rewrite select_where_elem, bool_decide_eq_true).
  apply recover_loop_ok in Hr as (Hd' & Hf' & Hrec & Hrest); [|done|apply NoDup_select, unique_keys, Hd|].
  - split_and!; try done. intros id. destruct (get (q_items d) id) as [r|] eqn:E.
    + destruct (get_elem _ _ _ E) as [Hin <-]. case_decide as Hst.
      * apply Hrec. by apply Hsel.
      * rewrite Hrest, E; [done|]. intros Hin'. apply list_elem_of_In, List.in_map_iff in Hin' as (r' & Hid & Hr').
        apply list_elem_of_In, Hsel in Hr' as [Hin' Hst'].
        pose proof (get_unique _ _ (dok_unique d Hd) Hin') as Eg. rewrite Hid, E in Eg. by simplify_eq.
    + rewrite Hrest; [done|]. intros Hin'. apply list_elem_of_In, List.in_map_iff in Hin' as (r' & Hid & Hr').
      apply list_elem_of_In, Hsel in Hr' as [Hin' _]. by apply (get_none _ _ _ E) in Hin'.
  - intros r [Hin Hst]%Hsel. split; [|done]. apply get_unique; [apply Hd|done].
Qed.

Lemma recover_reviews at_ secs : reviews (recover_interrupted at_ secs).
Proof.
  intros d r d' Hd Hr. destruct r as [u|e].
  - by destruct (recover_ok _ _ _ _ _ Hd Hr) as (? & ? & _).
  - apply transaction_err in Hr as [-> _]. split; [done|apply follows_refl].
Qed.

(** ** Operations as data *)

Inductive review_op :=
  | OpPostpone (id at_ : string) (stale maxp : option Z) (actor : option string)
  | OpClaim (id kind at_ : string) (stale : option Z) (side_effect : bool) (sha upd bank : option string)
  | OpRemove (id event_type at_ : string) (stale : option Z) (actor : option string)
  | OpMarkReviewed (id : string) (allowed : bool) (at_ : string) (sha upd : option string)
  | OpComplete (id at_ : string) (sha : option string)
  | OpInterrupt (claimed : item) (at_ : string) (error : exn)
  | OpApproveRetain (id at_ : string) (details : list (string * json)) (sha : option string)
  | OpApproveMemory (id at_ : string) (sha actor : option string)
  | OpRejectMemory (id at_ : string) (sha actor : option string)
  | OpConfirmApplied (id at_ sha upd : string) (actor : option string)
  | OpConfirmNotApplied (id at_ sha upd : string) (actor : option string)
  | OpRecover (at_ : string) (stale_seconds : Z).

Definition ignore {A} (m : eff qdb A) : eff qdb unit := m ≫= fun _ => mret ().

Definition run_review (op : review_op) : eff qdb unit :=
  match op with
  | OpPostpone id at_ stale maxp actor => ignore (postpone id at_ stale maxp actor)
  | OpClaim id kind at_ stale se sha upd bank => ignore (claim_review id kind at_ stale se sha upd bank)
  | OpRemove id ty at_ stale actor => remove id ty at_ stale actor
  | OpMarkReviewed id allowed at_ sha upd =>
      mark_memory_reviewed id (if allowed then REVIEWED_ALLOWED else REVIEWED_BLOCKED) at_ sha upd
  | OpComplete id at_ sha => complete_side_effect id at_ sha
  | OpInterrupt claimed at_ error => interrupt_review claimed at_ error
  | OpApproveRetain id at_ details sha => finish_approve_retain id at_ details sha
  | OpApproveMemory id at_ sha actor => finish_approve_memory id at_ sha actor
  | OpRejectMemory id at_ sha actor => finish_reject_memory id at_ sha actor
  | OpConfirmApplied id at_ sha upd actor => confirm_side_effect_applied id at_ sha upd actor
  | OpConfirmNotApplied id at_ sha upd actor => confirm_side_effect_not_applied id at_ sha upd actor
  | OpRecover at_ secs => recover_interrupted at_ secs
  end.

Lemma reviews_ignore {A} (m : eff qdb A) : reviews m -> reviews (ignore m).
Proof.
  intros Hm d r d' Hd. unfold ignore, mbind, eff_bind. destruct (m d) as [[a|e] d1] eqn:E;
    intros [= <- <-]; by eapply Hm.
Qed.

Lemma run_review_reviews op : reviews (run_review op).
Proof.
  destruct op; simpl; try apply reviews_ignore;
    [apply postpone_reviews|apply claim_reviews|apply remove_reviews|apply mark_memory_reviews|apply complete_reviews
    |apply interrupt_reviews|apply approve_retain_reviews|apply approve_memory_reviews|apply reject_memory_reviews
    |apply confirm_applied_reviews|apply confirm_not_applied_reviews|apply recover_reviews].
  destruct allowed; [by left|by right; left].
Qed.

(** A sequence of operations, whatever their outcomes. *)
Fixpoint run_reviews (ops : list review_op) (d : qdb) : qdb :=
  match ops with
  | [] => d
  | op :: ops' => run_reviews ops' (run_review op d).2
  end.

(** Final decisions are final. *)
Lemma final_absorbing s s' : rtc review_step s s' -> (exists f, s = Some f /\ f ∈ FINAL_STATUSES) -> s' = s.
Proof.
  induction 1 as [|s s1 s2 Hs Hr IH]; [done|]. intros (f & -> & Hf). exfalso.
  unfold FINAL_STATUSES in Hf. set_unfold in Hf.
  inversion Hs; subst; unfold REVIEWABLE_STATUSES in *; set_unfold; naive_solver.
Qed.

(** Absent items are not created by reviews. *)
Lemma absent_absorbing s s' : rtc review_step s s' -> s = None -> s' = None.
Proof. induction 1 as [|s s1 s2 Hs Hr IH]; [done|]. intros ->. inversion Hs. Qed.

(** ** Properties *)

(** C7: the review operations implement the abstract review machine. Over any
    sequence of operations, successful or not, the tables stay well formed and
    the status of every item moves only along the machine's steps; so a
    reviewed item keeps its decision for ever, and reviewing never creates an
    item. *)
Theorem review_refines_machine ops d :
  db_ok d ->
  db_ok (run_reviews ops d) /\
  (forall id, rtc review_step (status_of d id) (status_of (run_reviews ops d) id)) /\
  (forall id f, status_of d id = Some f -> f ∈ FINAL_STATUSES -> status_of (run_reviews ops d) id = Some f) /\
  (forall id, status_of d id = None -> status_of (run_reviews ops d) id = None).
Proof.
  intros Hd.
  assert (Hrun : db_ok (run_reviews ops d) /\ follows d (run_reviews ops d)).
  { revert d Hd. induction ops as [|op ops IH]; intros d Hd; simpl; [split; [done|apply follows_refl]|].
    destruct (run_review op d) as [r d1] eqn:E. apply run_review_reviews in E as [Hd1 Hf1]; [|done].
    destruct (IH d1 Hd1). split; [done|by eapply follows_trans]. }
  destruct Hrun as [Hd' Hf]. split_and!; [done|done| |].
  - intros id f Hs Hfin. rewrite <- Hs. apply final_absorbing; [apply Hf|]. by exists f.
  - intros id Hs. eapply absent_absorbing; [apply Hf|done].
Qed.

(** *** Exclusive claims *)

(** The operations that act on [id] without holding its claim. *)
Definition foreign_action (id : string) (op : review_op) : Prop :=
  match op with
  | OpPostpone id' _ _ _ _ | OpClaim id' _ _ _ _ _ _ _ | OpRemove id' _ _ _ _ | OpMarkReviewed id' _ _ _ _
  | OpApproveRetain id' _ _ _ | OpApproveMemory id' _ _ _ | OpRejectMemory id' _ _ _ => id' = id
  | _ => False
  end.

(** The item an operation is on; the recovery is on all. *)
Definition subject_of (op : review_op) : option string :=
  match op with
  | OpPostpone x _ _ _ _ | OpClaim x _ _ _ _ _ _ _ | OpRemove x _ _ _ _ | OpMarkReviewed x _ _ _ _ | OpComplete x _ _
  | OpApproveRetain x _ _ _ | OpApproveMemory x _ _ _ | OpRejectMemory x _ _ _ | OpConfirmApplied x _ _ _ _ | OpConfirmNotApplied x _ _ _ _ => Some x
  | OpInterrupt claimed _ _ => Some (it_quarantine_id claimed)
  | OpRecover _ _ => None
  end.

Lemma mutate_started_err {T} id at_ stale (mutation : item -> eff qdb T) sha upd d i :
  get (q_items d) id = Some i -> it_status i = REVIEW_SIDE_EFFECT_STARTED ->
  exists e, _mutate_review id at_ stale mutation sha upd d = (Err e, d).
Proof.
  intros Hg Hst. unfold _mutate_review.
  match goal with |- context [transaction ?m] => set (body := m) end.
  assert (Hb : exists e d1, body d = (Err e, d1)).
  { unfold body, fetch_item, mbind, eff_bind, get_state, mret, eff_ret. rewrite Hg. unfold lift.
    destruct (_assert_snapshot i sha upd); [|by eexists _, _].
    unfold _recover_stale_for_action, mbind, eff_bind, lift. rewrite Hst.
    assert (Hns : (match stale with None => Ok false
      | Some s => if bool_decide (REVIEW_SIDE_EFFECT_STARTED = REVIEW_IN_PROGRESS) then _stale (it_updated_at i) at_ s
                  else Ok false end) = Ok false) by (by destruct stale).
    rewrite Hns. cbn [negb]. unfold mret, eff_ret, _assert_reviewable. rewrite Hst. by eexists _, _. }
  destruct Hb as (e & d1 & Hb). exists e. unfold mbind, eff_bind, transaction. by rewrite Hb.
Qed.

Lemma require_state_err id at_ st sha d i :
  get (q_items d) id = Some i -> it_status i <> st -> _require_review_state id at_ st sha d = (Err changed_in_review, d).
Proof.
  intros Hg Hne. unfold _require_review_state, fetch_item, mbind, eff_bind, get_state, mret, eff_ret. rewrite Hg.
  by rewrite bool_decide_false.
Qed.

Lemma ignore_err {A} (m : eff qdb A) d : (exists e, m d = (Err e, d)) -> exists e, ignore m d = (Err e, d).
Proof. intros [e He]. exists e. unfold ignore, mbind, eff_bind. by rewrite He. Qed.

Lemma foreign_action_refused id op d i :
  get (q_items d) id = Some i -> it_status i = REVIEW_SIDE_EFFECT_STARTED -> foreign_action id op ->
  exists e, run_review op d = (Err e, d).
Proof.
  intros Hg Hst Hf.
  assert (Hreq : forall st at_ sha, st <> REVIEW_SIDE_EFFECT_STARTED ->
    _require_review_state id at_ st sha d = (Err changed_in_review, d)) by (intros; eapply require_state_err; [exact Hg|congruence]).
  destruct op; simpl in Hf; try done; subst; simpl.
  - apply ignore_err. by eapply mutate_started_err.
  - apply ignore_err. by eapply mutate_started_err.
  - by eapply mutate_started_err.
  - unfold mark_memory_reviewed, transaction, require_reviewable, fetch_item, mbind, eff_bind, get_state, mret, eff_ret.
    rewrite Hg. unfold lift, _assert_reviewable. rewrite Hst. by eexists.
  - unfold finish_approve_retain, require_side_effect_completed, transaction, mbind, eff_bind. rewrite Hreq by done. by eexists.
  - unfold finish_approve_memory, require_in_progress, transaction, mbind, eff_bind. rewrite Hreq by done. by eexists.
  - unfold finish_reject_memory, require_side_effect_completed, transaction, mbind, eff_bind. rewrite Hreq by done. by eexists.
Qed.

Lemma claim_ok id kind at_ stale se sha upd bank d i d' :
  db_ok d -> claim_review id kind at_ stale se sha upd bank d = (Ok i, d') ->
  db_ok d' /\ it_kind i = kind /\ it_status i ∈ REVIEWABLE_STATUSES /\
  exists i', get (q_items d') id = Some i' /\ it_updated_at i' = at_ /\ it_sha256 i' = it_sha256 i /\
    it_status i' = if se then REVIEW_SIDE_EFFECT_STARTED else REVIEW_IN_PROGRESS.
Proof.
  intros Hd Hc. split; [by eapply claim_reviews|].
  apply mutate_review_ok in Hc as (i0 & i1 & d1 & _ & Hd1 & _ & Hg & Hid & _ & Hst & _ & Hm); [|done].
  cbn zeta in Hm. case_bool_decide as Hk; simpl in Hm; [|done].
  apply bind_ok_inv in Hm as (? & d2 & Hu & Hm). apply bind_ok_inv in Hm as (? & d3 & He & Hm).
  injection Hm as -> ->.
  assert (Hit : q_items d' = q_items d2) by (destruct se; [by apply insert_event_ok in He as (_ & ? & _)|by injection He as _ <-]).
  split_and!; [done|done|]. rewrite Hit.
  destruct bank as [b|]; apply update_item_ok in Hu as (_ & _ & _ & _ & Hget); try done;
    rewrite Hget, decide_True, Hg by done; eexists; (split; [done|]); by destruct se.
Qed.

(** The operations that hold a claim: those that name its time, as the reviewer who
    made it does, and an operator's reconciliation, which names its time and its
    digest. *)
Definition holds_claim (id at_ sha : string) (op : review_op) : Prop :=
  match op with
  | OpComplete id' at' _ => id' = id /\ at' = at_
  | OpInterrupt claimed at' _ => it_quarantine_id claimed = id /\ at' = at_
  | OpConfirmApplied id' _ sha' upd _ | OpConfirmNotApplied id' _ sha' upd _ => id' = id /\ upd = at_ /\ sha' = sha
  | _ => False
  end.

(** A computation that leaves the row of an item alone. *)
Section spares.
Context (id : string) (i : item).
Hypothesis started : it_status i = REVIEW_SIDE_EFFECT_STARTED.

Definition spares {A} (m : eff qdb A) : Prop :=
  forall d r d', get (q_items d) id = Some i -> m d = (r, d') -> get (q_items d') id = Some i.

Lemma spares_ret {A} (a : A) : spares (mret a).
Proof. by intros d r d' Hg [= _ <-]. Qed.

Lemma spares_raise {A} e : spares (raise e : eff qdb A).
Proof. by intros d r d' Hg [= _ <-]. Qed.

Lemma spares_lift {A} (x : result A) : spares (lift x).
Proof. by intros d r d' Hg [= _ <-]. Qed.

Lemma spares_fetch qid : spares (fetch_item qid).
Proof. intros d r d' Hg Hr. by apply fetch_item_ok in Hr as [-> _]. Qed.

Lemma spares_event qid ty at_ details actor : spares (insert_event qid ty at_ details actor).
Proof. intros d r d' Hg Hr. apply insert_event_ok in Hr as (_ & -> & _). done. Qed.

Lemma spares_bind {A B} (m : eff qdb A) (k : A -> eff qdb B) : spares m -> (forall d a d', m d = (Ok a, d') -> spares (k a)) -> spares (m ≫= k).
Proof.
  intros Hm Hk d r d' Hg Hr. unfold mbind, eff_bind in Hr. destruct (m d) as [[a|e] d1] eqn:E; [|injection Hr as _ <-; by eapply Hm].
  eapply (Hk _ _ _ E); [|exact Hr]. by eapply Hm.
Qed.

Lemma spares_transaction {A} (m : eff qdb A) : spares m -> spares (transaction m).
Proof.
  intros Hm d r d' Hg Ht. destruct r as [a|e]; [apply transaction_ok_inv in Ht; by eapply Hm|by apply transaction_err in Ht as [-> _]].
Qed.

Lemma spares_execute f : (forall t, get t id = Some i -> get (f t) id = Some i) -> spares (execute_items f).
Proof.
  intros Hf d r d' Hg Hr. destruct r as [u|e]; [|by apply execute_items_err in Hr as ->]. apply execute_items_ok in Hr as [-> _]. by apply Hf.
Qed.

Lemma get_id t : get t id = Some i -> it_quarantine_id i = id.
Proof. by intros [_ ?]%get_elem. Qed.

(** Statements on other rows. *)
Lemma spares_update p f : p i = false -> (forall r, it_quarantine_id (f r) = it_quarantine_id r) -> spares (execute_items (update_where p f)).
Proof. intros Hp Hf. apply spares_execute. intros t Hg. rewrite get_update, Hg by done. simpl. by rewrite Hp. Qed.

Lemma spares_delete p : p i = false -> spares (execute_items (delete_where p)).
Proof.
  intros Hp. apply spares_execute. intros t. unfold get, fetchone, delete_where. induction t as [|r t IH]; simpl; [done|].
  destruct (has_key it_quarantine_id id r) eqn:Ek; [intros [= ->]; rewrite Hp; simpl; by rewrite Ek|].
  intros Hg. destruct (p r); simpl; [by apply IH|]. rewrite Ek. by apply IH.
Qed.

Lemma started_not_in_progress qid : in_progress_row qid i = false.
Proof. unfold in_progress_row. rewrite started. by rewrite andb_false_r. Qed.

Lemma spares_recover_row row at_ : spares (_expire_stale_claim row at_) /\ spares (_restore_stale_claim row at_).
Proof.
  split; (apply spares_bind; [|intros; apply spares_event]).
  - apply spares_delete, started_not_in_progress.
  - apply spares_update; [apply started_not_in_progress|done].
Qed.

Lemma spares_recover at_ secs : spares (recover_interrupted at_ secs).
Proof.
  apply spares_transaction. apply spares_bind; [by intros d r d' Hg [= _ <-]|]. intros _ d0 _ _. generalize (select_where (fun r => bool_decide (it_status r = REVIEW_IN_PROGRESS)) (q_items d0)).
  intros rows. induction rows as [|row rows IH]; cbn [for_each]; [apply spares_ret|]. apply spares_bind; [|intros; exact IH].
  apply spares_bind; [apply spares_lift|]. intros _ stale _ _. destruct (negb stale); [apply spares_ret|]. destruct (is_expired row at_); apply spares_recover_row.
Qed.

(** Operations on another item. *)
Context (qid : string).
Hypothesis other : qid <> id.
Hypothesis own_id : it_quarantine_id i = id.

Lemma other_row : has_key it_quarantine_id qid i = false.
Proof. unfold has_key. rewrite own_id. by rewrite bool_decide_false. Qed.

Lemma spares_update_item f : (forall r, it_quarantine_id (f r) = it_quarantine_id r) -> spares (update_item qid f).
Proof. intros Hf. apply spares_update; [apply other_row|done]. Qed.

Lemma spares_delete_item : spares (delete_item qid).
Proof. apply spares_delete, other_row. Qed.

Lemma spares_mark row st at_ actor : it_quarantine_id row = qid -> spares (mark_recalled row st at_ actor).
Proof. intros Hrow. unfold mark_recalled. rewrite Hrow. apply spares_bind; [by apply spares_update_item|intros; apply spares_event]. Qed.

Lemma spares_mutate {T} at_ stale (mutation : item -> eff qdb T) sha upd :
  (forall row, it_quarantine_id row = qid -> spares (mutation row)) -> spares (_mutate_review qid at_ stale mutation sha upd).
Proof.
  intros Hm. unfold _mutate_review. apply spares_bind; [|intros _ [res|] _ _; [apply spares_ret|apply spares_raise]]. apply spares_transaction.
  apply spares_bind; [apply spares_fetch|]. intros d [row|] d' Hf; [|apply spares_raise]. apply fetch_item_ok in Hf as [_ [= Hf]].
  symmetry in Hf. apply get_elem in Hf as [_ Hid]. apply spares_bind; [apply spares_lift|intros _ _ _ _].
  apply spares_bind.
  - unfold _recover_stale_for_action. apply spares_bind; [apply spares_lift|]. intros _ st _ _. destruct (negb st); [apply spares_ret|].
    destruct (is_expired row at_); (apply spares_bind; [apply spares_recover_row|intros; apply spares_ret]).
  - intros d1 [row'|] d2 Hrec; [|apply spares_ret]. apply spares_bind; [apply spares_lift|intros _ _ _ _].
    apply spares_bind; [|intros; apply spares_ret]. apply Hm. revert Hrec. unfold _recover_stale_for_action. intros Hrec.
    apply bind_ok_inv in Hrec as (st & d3 & _ & Hrec). destruct (negb st); [by injection Hrec as <- _|].
    destruct (is_expired row at_); apply bind_ok_inv in Hrec as (? & d4 & _ & Hrec); [done|]. by injection Hrec as <- _.
Qed.

Lemma spares_require at_ st sha {A} (k : item -> eff qdb A) : (forall row, it_quarantine_id row = qid -> spares (k row)) ->
  spares (transaction (_require_review_state qid at_ st sha ≫= k)).
Proof.
  intros Hk. apply spares_transaction, spares_bind.
  - unfold _require_review_state. apply spares_bind; [apply spares_fetch|]. intros _ [row|] _ _; [|apply spares_raise].
    destruct (_ || _); [apply spares_raise|]. case_match; [apply spares_raise|apply spares_ret].
  - intros d row d' Hr. apply Hk. by apply require_state_ok in Hr as (_ & _ & ? & _).
Qed.

Lemma spares_confirm sha upd {A} (k : item -> eff qdb A) : (forall row, spares (k row)) -> spares (transaction (_require_side_effect_started qid sha upd ≫= k)).
Proof.
  intros Hk. apply spares_transaction, spares_bind; [|intros; apply Hk]. unfold _require_side_effect_started.
  apply spares_bind; [apply spares_fetch|]. intros _ [row|] _ _; [|apply spares_raise]. destruct (negb _); [apply spares_raise|].
  apply spares_bind; [apply spares_lift|intros; apply spares_ret].
Qed.
End spares.

Create HintDb spare.
#[local] Hint Resolve spares_ret spares_raise spares_lift spares_fetch spares_event spares_update_item spares_delete_item spares_mark : spare.

Ltac sparing := repeat first [solve [eauto with spare]|apply spares_bind; [|intros]].

(** An operation on another item leaves a started one alone. *)
Lemma spares_other id i op qid : it_status i = REVIEW_SIDE_EFFECT_STARTED -> it_quarantine_id i = id -> qid <> id ->
  match op with
  | OpPostpone x _ _ _ _ | OpClaim x _ _ _ _ _ _ _ | OpRemove x _ _ _ _ | OpMarkReviewed x _ _ _ _ | OpComplete x _ _
  | OpApproveRetain x _ _ _ | OpApproveMemory x _ _ _ | OpRejectMemory x _ _ _ | OpConfirmApplied x _ _ _ _ | OpConfirmNotApplied x _ _ _ _ => x = qid
  | OpInterrupt claimed _ _ => it_quarantine_id claimed = qid
  | OpRecover _ _ => True
  end -> spares id i (run_review op).
Proof.
  intros Hst Hid Hne Hop. destruct op; simpl in *; try subst qid.
  - apply spares_bind; [|intros; apply spares_ret]. apply spares_mutate; try done. intros row Hrow. cbv zeta. match goal with |- spares _ _ (if ?b then _ else _) => destruct b end; [apply spares_raise|]. sparing.
  - apply spares_bind; [|intros; apply spares_ret]. apply spares_mutate; try done. intros row Hrow. match goal with |- spares _ _ (if ?b then _ else _) => destruct b end; [apply spares_raise|].
    apply spares_bind; [case_match; by apply spares_update_item|intros ? ? ? _]. apply spares_bind; [|intros; apply spares_ret]. destruct side_effect; eauto with spare.
  - apply spares_mutate; try done. intros row ->. sparing.
  - apply spares_transaction, spares_bind.
    + unfold require_reviewable. apply spares_bind; [apply spares_fetch|]. intros _ [row|] _ _; [|apply spares_raise]. sparing.
    + intros d row d' Hr. apply require_reviewable_ok in Hr as (_ & _ & Hrow & _). sparing.
  - apply spares_require. intros row Hrow. sparing.
  - apply spares_transaction, spares_bind; [apply spares_fetch|]. intros _ [c|] _ _; [|apply spares_ret]. destruct (_ || _); [apply spares_ret|].
    destruct (negb _); [apply spares_raise|]. sparing.
  - apply spares_require. intros row ->. sparing.
  - apply spares_require. intros row Hrow. sparing.
  - apply spares_require. intros row Hrow. sparing.
  - apply spares_confirm. intros row. sparing.
  - apply spares_confirm. intros row. sparing.
  - by apply spares_recover.
Qed.

(** The claimant's operations with the time of another claim. *)
Lemma complete_wrong_time id at_ sha d i : get (q_items d) id = Some i -> it_updated_at i <> at_ -> exists e, complete_side_effect id at_ sha d = (Err e, d).
Proof.
  intros Hg Hne. exists changed_in_review. unfold complete_side_effect, require_side_effect_started, transaction, _require_review_state, fetch_item, mbind, eff_bind, get_state, mret, eff_ret.
  rewrite Hg. rewrite (bool_decide_false (it_updated_at i = at_)) by done. by rewrite orb_true_r.
Qed.

Lemma interrupt_wrong_time claimed at_ error d i : get (q_items d) (it_quarantine_id claimed) = Some i -> it_updated_at i <> at_ ->
  interrupt_review claimed at_ error d = (Ok (), d).
Proof.
  intros Hg Hne. unfold interrupt_review, transaction, fetch_item, mbind, eff_bind, get_state, mret, eff_ret.
  rewrite Hg. rewrite (bool_decide_false (it_updated_at i = at_)) by done. by rewrite orb_true_r.
Qed.

(** An operation on the item that does not hold its claim leaves it alone. *)
Lemma spares_unclaimed id i op d r d' : get (q_items d) id = Some i -> it_status i = REVIEW_SIDE_EFFECT_STARTED ->
  ~ holds_claim id (it_updated_at i) (it_sha256 i) op -> run_review op d = (r, d') -> get (q_items d') id = Some i.
Proof.
  intros Hg Hst Hop Hrun. pose proof (get_id _ _ _ Hg) as Hid.
  assert (Hforeign : foreign_action id op -> get (q_items d') id = Some i).
  { intros Hf. destruct (foreign_action_refused id op d i Hg Hst Hf) as [e He]. rewrite He in Hrun. by injection Hrun as _ <-. }
  assert (Hconfirm : forall A sha upd (k : item -> eff qdb A), ~ (upd = it_updated_at i /\ sha = it_sha256 i) ->
    exists e, transaction (_require_side_effect_started id sha upd ≫= k) d = (Err e, d)).
  { intros A sha upd k Hno. unfold transaction, _require_side_effect_started, fetch_item, mbind, eff_bind, get_state, mret, eff_ret. rewrite Hg.
    rewrite bool_decide_true by done. unfold lift, _assert_snapshot. simpl. do 2 (case_bool_decide; simpl; [|by eexists]). naive_solver. }
  destruct (decide (subject_of op = Some id)) as [Hown|Hother].
  - destruct op; simpl in *; try (by apply Hforeign; congruence).
    + injection Hown as ->. destruct (complete_wrong_time id at_ sha d i Hg ltac:(naive_solver)) as [e He]. rewrite He in Hrun. by injection Hrun as _ <-.
    + injection Hown as Hown. rewrite (interrupt_wrong_time claimed at_ error d i) in Hrun; [|by rewrite Hown|naive_solver]. by injection Hrun as _ <-.
    + injection Hown as ->. assert (Hno : ~ (upd = it_updated_at i /\ sha = it_sha256 i)) by naive_solver. unfold confirm_side_effect_applied in Hrun.
      match type of Hrun with transaction (_ ≫= ?k) d = _ => destruct (Hconfirm _ sha upd k Hno) as [e He] end. rewrite He in Hrun. by injection Hrun as _ <-.
    + injection Hown as ->. assert (Hno : ~ (upd = it_updated_at i /\ sha = it_sha256 i)) by naive_solver. unfold confirm_side_effect_not_applied in Hrun.
      match type of Hrun with transaction (_ ≫= ?k) d = _ => destruct (Hconfirm _ sha upd k Hno) as [e He] end. rewrite He in Hrun. by injection Hrun as _ <-.
  - destruct (subject_of op) as [qid|] eqn:Eq.
    + eapply (spares_other id i op qid); [done|done|congruence| |exact Hg|exact Hrun]. destruct op; simpl in *; congruence.
    + destruct op; try done. by eapply (spares_recover id i).
Qed.

Lemma unclaimed_kept id i ops : forall d, get (q_items d) id = Some i -> it_status i = REVIEW_SIDE_EFFECT_STARTED ->
  Forall (fun op => ~ holds_claim id (it_updated_at i) (it_sha256 i) op) ops -> get (q_items (run_reviews ops d)) id = Some i.
Proof.
  induction ops as [|op ops IH]; intros d Hg Hst Hops; [done|]. apply list.Forall_cons in Hops as [Hop Hops]. simpl. apply IH; [|done|done].
  destruct (run_review op d) as [r d'] eqn:E. by eapply spares_unclaimed.
Qed.

(** C8: a claim for a side effect is exclusive. Once [claim_review] with a side
    effect has succeeded, the item's row stays as the claim left it through any
    sequence of review operations, on this item or on others and the recovery of
    stale claims included, however old the claim gets, except for those that hold
    the claim: a completion or an interruption that names the claim's time, and an
    operator's reconciliation that names its time and digest. And a claim,
    postponement, removal, decision or finish for the item is refused and changes
    nothing at all. *)
Theorem claim_exclusive id kind at_ stale sha upd bank d i d' :
  db_ok d -> claim_review id kind at_ stale true sha upd bank d = (Ok i, d') ->
  exists row, get (q_items d') id = Some row /\ it_status row = REVIEW_SIDE_EFFECT_STARTED /\ it_updated_at row = at_ /\ it_sha256 row = it_sha256 i
  /\ (forall ops, Forall (fun op => ~ holds_claim id at_ (it_sha256 i) op) ops -> get (q_items (run_reviews ops d')) id = Some row)
  /\ forall ops, Forall (foreign_action id) ops -> run_reviews ops d' = d' /\ (forall op, op ∈ ops -> is_ok (run_review op d').1 = false).
Proof.
  intros Hd Hc. apply claim_ok in Hc as (_ & _ & _ & i' & Hg & Hat & Hsha & Hst); [|done]. exists i'. split_and!; try done.
  - intros ops Hops. apply unclaimed_kept; [done|done|]. by rewrite Hat, Hsha.
  - intros ops Hops. assert (Hone : forall op, op ∈ ops -> exists e, run_review op d' = (Err e, d')).
    { intros op Hin. rewrite list.Forall_forall in Hops. by eapply foreign_action_refused; [| |apply Hops]. }
    split.
    + clear Hops. induction ops as [|op ops IH]; [done|]. simpl.
      destruct (Hone op ltac:(left)) as [e ->]. simpl. apply IH. intros; apply Hone; by right.
    + intros op Hin. by destruct (Hone op Hin) as [e ->].
Qed.

(** *** Review statements never break an index *)

Lemma omap_update {B} (g : item -> option B) p f t :
  (forall r, g (f r) = g r) -> omap g (update_where p f t) = omap g t.
Proof.
  intros Hg. unfold update_where. induction t as [|r t IH]; csimpl; [done|].
  assert (Er : g (if p r then f r else r) = g r) by (by destruct (p r)). rewrite Er, IH. done.
Qed.

Lemma unique_update t p f :
  (forall r, it_quarantine_id (f r) = it_quarantine_id r /\ memory_key (f r) = memory_key r /\
             it_dedupe_key (f r) = it_dedupe_key r) ->
  unique_ok t = true -> unique_ok (update_where p f t) = true.
Proof.
  intros Hf. unfold unique_ok, update_where.
  assert (H1 : map it_quarantine_id (map (fun r => if p r then f r else r) t) = map it_quarantine_id t).
  { rewrite List.map_map. apply List.map_ext. intros r. destruct (p r); [apply Hf|done]. }
  fold (update_where p f t). rewrite !omap_update by apply Hf. unfold update_where. by rewrite H1.
Qed.

Lemma NoDup_omap_delete {B} (g : item -> option B) p t : NoDup (omap g t) -> NoDup (omap g (delete_where p t)).
Proof.
  unfold delete_where. induction t as [|r t IH]; simpl; [done|].
  destruct (g r) as [b|] eqn:Eg; destruct (p r); simpl; rewrite ?Eg; auto.
  - intros [_ Hnd]%NoDup_cons. auto.
  - intros [Hn Hnd]%NoDup_cons. apply NoDup_cons. split; [|auto]. intros Hin. apply Hn.
    apply list_elem_of_omap in Hin as (x & Hx & Hgx). apply list_elem_of_omap. exists x. split; [|done].
    apply list_elem_of_In, List.filter_In in Hx as [Hx _]. by apply list_elem_of_In.
Qed.

Lemma unique_delete t p : unique_ok t = true -> unique_ok (delete_where p t) = true.
Proof.
  intros Hu. unfold unique_ok. split_bool; apply bool_decide_eq_true.
  - by apply (keys_unique_delete it_quarantine_id), unique_keys.
  - by apply NoDup_omap_delete, unique_memory.
  - by apply NoDup_omap_delete, unique_dedupe.
Qed.

Lemma update_item_runs id f d :
  db_ok d ->
  (forall r, it_quarantine_id (f r) = it_quarantine_id r /\ memory_key (f r) = memory_key r /\
             it_dedupe_key (f r) = it_dedupe_key r) ->
  update_item id f d = (Ok (), set_items (update_where (has_key it_quarantine_id id) f (q_items d)) d).
Proof.
  intros Hd Hf. unfold update_item, execute_items, mbind, eff_bind, get_state. cbn zeta.
  by rewrite (unique_update _ _ _ Hf (dok_unique d Hd)).
Qed.

Lemma delete_item_runs id d :
  db_ok d -> delete_item id d = (Ok (), set_items (delete_where (has_key it_quarantine_id id) (q_items d)) d).
Proof.
  intros Hd. unfold delete_item, execute_items, mbind, eff_bind, get_state. cbn zeta.
  by rewrite (unique_delete _ _ (dok_unique d Hd)).
Qed.

(** One step of a claimed review, as a state transformer. *)
Lemma review_update_runs id f d ty at_ details actor :
  db_ok d ->
  (forall r, it_quarantine_id (f r) = it_quarantine_id r /\ memory_key (f r) = memory_key r /\
             it_dedupe_key (f r) = it_dedupe_key r) ->
  (forall r, row_ok r -> row_ok (f r)) ->
  exists d', (update_item id f ≫= fun _ => insert_event id ty at_ details actor) d = (Ok (), d') /\ db_ok d' /\
    (forall id', get (q_items d') id' = if decide (id' = id) then f <$> get (q_items d) id' else get (q_items d) id') /\
    map ev_type (q_events d') = map ev_type (q_events d) ++ [ty].
Proof.
  intros Hd Hf Hr. pose proof (update_item_runs id f d Hd Hf) as Hu.
  rewrite (bind_ok _ _ _ _ _ Hu). set (d1 := set_items _ d) in *.
  assert (Hd1 : db_ok d1).
  { apply set_items_db_ok; [done|apply (unique_update _ _ _ Hf), Hd|].
    apply Forall_update_where; [apply Hd|]. auto. }
  destruct (insert_event id ty at_ details actor d1) as [r d2] eqn:E.
  pose proof (insert_event_db_ok _ _ _ _ _ _ _ _ E Hd1) as Hd2.
  apply insert_event_ok in E as (-> & Hit & e & _ & Hty & _ & _ & Hev & _).
  exists d2. split_and!; try done.
  - intros id'. rewrite Hit. apply update_item_ok in Hu as (_ & _ & _ & _ & Hg); [apply Hg|apply Hf].
  - rewrite Hev, map_app. simpl. by rewrite Hty.
Qed.

Lemma mutate_review_runs {T} id at_ stale (mutation : item -> eff qdb T) sha upd d i a d' :
  get (q_items d) id = Some i -> it_status i ∈ REVIEWABLE_STATUSES -> is_expired i at_ = false ->
  _assert_snapshot i sha upd = Ok () ->
  mutation i d = (Ok a, d') -> _mutate_review id at_ stale mutation sha upd d = (Ok a, d').
Proof.
  intros Hg Hst Hexp Hsnap Hm.
  assert (Hre : _assert_reviewable i at_ = Ok ())
    by (unfold _assert_reviewable; by rewrite (proj2 (elem_true _ _) Hst), Hexp).
  assert (Hrec : _recover_stale_for_action i at_ stale d = (Ok (Some i), d)).
  { unfold _recover_stale_for_action. rewrite bool_decide_false; [by destruct stale|].
    intros Hp. rewrite Hp in Hst. unfold REVIEWABLE_STATUSES in Hst. set_unfold in Hst. naive_solver. }
  unfold _mutate_review. rewrite (bind_ok _ _ d (Some a) d'); [done|].
  apply transaction_ok. rewrite (bind_ok _ _ d (Some i) d) by (unfold fetch_item, mbind, eff_bind; simpl; by rewrite Hg).
  rewrite (bind_ok _ _ d () d), (bind_ok _ _ d (Some i) d), (bind_ok _ _ d () d)
    by (done || (unfold lift; by rewrite ?Hsnap, ?Hre)).
  by rewrite (bind_ok _ _ _ _ _ Hm).
Qed.

(** The row a claim leaves. *)
Definition claimed_row (at_ : string) (se : bool) (bank : option string) (i : item) : item :=
  let st := if se then REVIEW_SIDE_EFFECT_STARTED else REVIEW_IN_PROGRESS in
  match bank with None => set_status st at_ i | Some b => set_status_bank st at_ b i end.

Definition claim_events (se : bool) : list string := if se then [status_text REVIEW_SIDE_EFFECT_STARTED] else [].

Lemma claim_runs id at_ stale se sha upd bank d i :
  db_ok d -> get (q_items d) id = Some i -> it_status i ∈ REVIEWABLE_STATUSES -> is_expired i at_ = false ->
  _assert_snapshot i sha upd = Ok () ->
  exists d', claim_review id (it_kind i) at_ stale se sha upd bank d = (Ok i, d') /\ db_ok d' /\
    (forall id', get (q_items d') id' =
       if decide (id' = id) then Some (claimed_row at_ se bank i) else get (q_items d) id') /\
    map ev_type (q_events d') = map ev_type (q_events d) ++ claim_events se.
Proof.
  intros Hd Hg Hst Hexp Hsnap.
  assert (Hf : forall r, it_quarantine_id (claimed_row at_ se bank r) = it_quarantine_id r /\
    memory_key (claimed_row at_ se bank r) = memory_key r /\ it_dedupe_key (claimed_row at_ se bank r) = it_dedupe_key r)
    by (intros r; by destruct bank).
  assert (Hr : forall r, row_ok r -> row_ok (claimed_row at_ se bank r)) by (intros r; by destruct bank).
  pose proof (update_item_runs id _ d Hd Hf) as Hu.
  destruct (review_update_runs id _ d (status_text REVIEW_SIDE_EFFECT_STARTED)
    at_ [("previous_status", JStr (status_text (it_status i)))] None Hd Hf Hr) as (d' & Hrun & Hd' & Hget & Hev).
  assert (Hupd : match bank with
    | None => update_item id (set_status (if se then REVIEW_SIDE_EFFECT_STARTED else REVIEW_IN_PROGRESS) at_)
    | Some b => update_item id (set_status_bank (if se then REVIEW_SIDE_EFFECT_STARTED else REVIEW_IN_PROGRESS) at_ b)
    end = update_item id (claimed_row at_ se bank)) by (by destruct bank).
  assert (Hclaim : forall d1, (if se then insert_event id (status_text REVIEW_SIDE_EFFECT_STARTED) at_
                  [("previous_status", JStr (status_text (it_status i)))] None else mret ())
      (set_items (update_where (has_key it_quarantine_id id) (claimed_row at_ se bank) (q_items d)) d) = (Ok (), d1) ->
    claim_review id (it_kind i) at_ stale se sha upd bank d = (Ok i, d1)).
  { intros d1 H1. apply (mutate_review_runs id at_ stale _ sha upd d i); try done. cbn zeta.
    rewrite bool_decide_true by done. cbn [negb]. rewrite Hupd, (bind_ok _ _ _ _ _ Hu), (bind_ok _ _ _ _ _ H1). done. }
  apply bind_ok_inv in Hrun as ([] & d1 & Hu' & Hi). rewrite Hu in Hu'. injection Hu' as <-.
  destruct se.
  - exists d'. split_and!; [by apply Hclaim|done| |done]. intros id'. rewrite Hget. case_decide; [|done]. subst. by rewrite Hg.
  - eexists. split_and!; [by apply Hclaim| | |by rewrite app_nil_r].
    + apply set_items_db_ok; [done|apply (unique_update _ _ _ Hf), Hd|]. apply Forall_update_where; [apply Hd|]. auto.
    + intros id'. apply insert_event_ok in Hi as (_ & Hit & _). rewrite Hit in Hget. rewrite Hget.
      case_decide; [|done]. subst. by rewrite Hg.
Qed.

Lemma require_state_runs id at_ st sha d i :
  get (q_items d) id = Some i -> it_status i = st -> it_updated_at i = at_ ->
  (forall s, sha = Some s -> it_sha256 i = s) ->
  _require_review_state id at_ st sha d = (Ok i, d).
Proof.
  intros Hg Hst Hat Hsha. unfold _require_review_state, fetch_item, mbind, eff_bind, get_state, mret, eff_ret.
  rewrite Hg, !bool_decide_true by done. cbn [negb orb]. destruct sha as [s|]; [|done].
  by rewrite bool_decide_true by auto.
Qed.

Lemma review_delete_runs id d ty at_ details actor :
  db_ok d ->
  exists d', (delete_item id ≫= fun _ => insert_event id ty at_ details actor) d = (Ok (), d') /\ db_ok d' /\
    (forall id', get (q_items d') id' = if decide (id' = id) then None else get (q_items d) id') /\
    map ev_type (q_events d') = map ev_type (q_events d) ++ [ty].
Proof.
  intros Hd. pose proof (delete_item_runs id d Hd) as Hu. rewrite (bind_ok _ _ _ _ _ Hu). set (d1 := set_items _ d) in *.
  assert (Hd1 : db_ok d1).
  { apply set_items_db_ok; [done|apply unique_delete, Hd|]. pose proof (dok_rows d Hd) as Hrows.
    rewrite list.Forall_forall in *. intros r [Hin _]%delete_where_elem. auto. }
  destruct (insert_event id ty at_ details actor d1) as [r d2] eqn:E.
  pose proof (insert_event_db_ok _ _ _ _ _ _ _ _ E Hd1) as Hd2.
  apply insert_event_ok in E as (-> & Hit & e & _ & Hty & _ & _ & Hev & _).
  exists d2. split_and!; try done.
  - intros id'. rewrite Hit. apply delete_item_ok in Hu as (_ & _ & _ & _ & Hg); [apply Hg|apply Hd].
  - rewrite Hev, map_app. simpl. by rewrite Hty.
Qed.

Lemma complete_runs id at_ sha d i :
  db_ok d -> get (q_items d) id = Some i -> it_status i = REVIEW_SIDE_EFFECT_STARTED -> it_updated_at i = at_ ->
  (forall s, sha = Some s -> it_sha256 i = s) ->
  exists d', complete_side_effect id at_ sha d = (Ok (), d') /\ db_ok d' /\
    (forall id', get (q_items d') id' =
       if decide (id' = id) then Some (set_status REVIEW_SIDE_EFFECT_COMPLETED at_ i) else get (q_items d) id') /\
    map ev_type (q_events d') = map ev_type (q_events d) ++ [status_text REVIEW_SIDE_EFFECT_COMPLETED].
Proof.
  intros Hd Hg Hst Hat Hsha.
  destruct (review_update_runs id (set_status REVIEW_SIDE_EFFECT_COMPLETED at_) d
    (status_text REVIEW_SIDE_EFFECT_COMPLETED) at_ [] None Hd) as (d' & Hrun & Hd' & Hget & Hev); [done|auto with table|].
  exists d'. split_and!; try done.
  - apply transaction_ok. by rewrite (bind_ok _ _ _ _ _ (require_state_runs id at_ _ sha d i Hg Hst Hat Hsha)).
  - intros id'. rewrite Hget. case_decide; [|done]. subst. by rewrite Hg.
Qed.

Lemma approve_retain_runs id at_ details sha d i :
  db_ok d -> get (q_items d) id = Some i -> it_status i = REVIEW_SIDE_EFFECT_COMPLETED -> it_updated_at i = at_ ->
  (forall s, sha = Some s -> it_sha256 i = s) ->
  exists d', finish_approve_retain id at_ details sha d = (Ok (), d') /\ db_ok d' /\
    (forall id', get (q_items d') id' = if decide (id' = id) then None else get (q_items d) id') /\
    map ev_type (q_events d') = map ev_type (q_events d) ++ ["approved"].
Proof.
  intros Hd Hg Hst Hat Hsha.
  destruct (review_delete_runs id d "approved" at_ details None Hd) as (d' & Hrun & Hd' & Hget & Hev).
  exists d'. split_and!; try done.
  apply transaction_ok. rewrite (bind_ok _ _ _ _ _ (require_state_runs id at_ _ sha d i Hg Hst Hat Hsha)).
  by destruct (get_elem _ _ _ Hg) as [_ ->].
Qed.

Lemma mark_recalled_runs i st at_ actor d :
  db_ok d ->
  exists d', mark_recalled i st at_ actor d = (Ok (), d') /\ db_ok d' /\
    (forall id', get (q_items d') id' =
       if decide (id' = it_quarantine_id i) then set_reviewed st at_ <$> get (q_items d) id' else get (q_items d) id') /\
    map ev_type (q_events d') = map ev_type (q_events d) ++
      [status_text (if decide (st = REVIEWED_ALLOWED) then REVIEWED_ALLOWED else REVIEWED_BLOCKED)].
Proof.
  intros Hd. destruct (review_update_runs (it_quarantine_id i) (set_reviewed st at_) d
    (status_text (if decide (st = REVIEWED_ALLOWED) then REVIEWED_ALLOWED else REVIEWED_BLOCKED)) at_
    [("source_bank", jopt (it_source_bank i)); ("source_memory_id", jopt (it_source_memory_id i));
     ("source_content_sha256", jopt (it_source_content_sha256 i))] actor Hd) as (d' & ? & ? & ? & ?);
    [done|auto with table|]. by exists d'.
Qed.

(** *** Flows *)

(** The decision a recalled memory gets. *)
Lemma reject_memory_runs id at_ sha actor d i :
  db_ok d -> get (q_items d) id = Some i -> it_status i = REVIEW_SIDE_EFFECT_COMPLETED -> it_updated_at i = at_ ->
  (forall s, sha = Some s -> it_sha256 i = s) ->
  exists d', finish_reject_memory id at_ sha actor d = (Ok (), d') /\ db_ok d' /\
    (forall id', get (q_items d') id' =
       if decide (id' = id) then Some (set_reviewed REVIEWED_BLOCKED at_ i) else get (q_items d) id') /\
    map ev_type (q_events d') = map ev_type (q_events d) ++ [status_text REVIEWED_BLOCKED].
Proof.
  intros Hd Hg Hst Hat Hsha. destruct (get_elem _ _ _ Hg) as [_ Hid].
  destruct (mark_recalled_runs i REVIEWED_BLOCKED at_ actor d Hd) as (d' & Hrun & Hd' & Hget & Hev). rewrite Hid in Hget. simpl in Hev.
  exists d'. split_and!; try done.
  - apply transaction_ok. by rewrite (bind_ok _ _ _ _ _ (require_state_runs id at_ _ sha d i Hg Hst Hat Hsha)).
  - intros id'. rewrite Hget. case_decide; [|done]. subst id'. by rewrite Hg.
Qed.

Lemma approve_memory_runs id at_ sha actor d i :
  db_ok d -> get (q_items d) id = Some i -> it_status i = REVIEW_IN_PROGRESS -> it_updated_at i = at_ ->
  (forall s, sha = Some s -> it_sha256 i = s) -> it_kind i = "recalled_memory" ->
  exists d', finish_approve_memory id at_ sha actor d = (Ok (), d') /\ db_ok d' /\
    (forall id', get (q_items d') id' =
       if decide (id' = id) then Some (set_reviewed REVIEWED_ALLOWED at_ i) else get (q_items d) id') /\
    map ev_type (q_events d') = map ev_type (q_events d) ++ [status_text REVIEWED_ALLOWED].
Proof.
  intros Hd Hg Hst Hat Hsha Hk. destruct (get_elem _ _ _ Hg) as [_ Hid].
  destruct (mark_recalled_runs i REVIEWED_ALLOWED at_ actor d Hd) as (d' & Hrun & Hd' & Hget & Hev). rewrite Hid in Hget. simpl in Hev.
  exists d'. split_and!; try done.
  - apply transaction_ok. rewrite (bind_ok _ _ _ _ _ (require_state_runs id at_ _ sha d i Hg Hst Hat Hsha)).
    rewrite (bind_ok _ _ d () d); [done|]. unfold lift, ensure. by rewrite bool_decide_true.
  - intros id'. rewrite Hget. case_decide; [|done]. subst id'. by rewrite Hg.
Qed.

Lemma interrupt_runs claimed at_ error d c :
  db_ok d -> get (q_items d) (it_quarantine_id claimed) = Some c ->
  it_status c ∈ [REVIEW_IN_PROGRESS; REVIEW_SIDE_EFFECT_STARTED] -> it_updated_at c = at_ ->
  it_status claimed ∈ REVIEWABLE_STATUSES ->
  exists d', interrupt_review claimed at_ error d = (Ok (), d') /\ db_ok d' /\
    (forall id', get (q_items d') id' =
       if decide (id' = it_quarantine_id claimed) then Some (set_status (it_status claimed) at_ c)
       else get (q_items d) id') /\
    map ev_type (q_events d') = map ev_type (q_events d) ++ ["review_interrupted"].
Proof.
  intros Hd Hg Hc Hat Hst.
  destruct (review_update_runs (it_quarantine_id claimed) (set_status (it_status claimed) at_) d
    "review_interrupted" at_ [("outcome", JStr "restored"); ("status", JStr (status_text (it_status claimed)));
           ("error_kind", JStr (error_kind error))] None Hd) as (d' & Hrun & Hd' & Hget & Hev); [done|auto with table|].
  exists d'. split_and!; try done.
  - apply transaction_ok. rewrite (bind_ok _ _ d (Some c) d) by (unfold fetch_item, mbind, eff_bind; simpl; by rewrite Hg).
    rewrite (proj2 (elem_true _ _) Hc), bool_decide_true, (proj2 (elem_true _ _) Hst) by done. exact Hrun.
  - intros id'. rewrite Hget. case_decide; [|done]. subst id'. by rewrite Hg.
Qed.

(** The retain-approval flow runs to completion. From a reviewable,
    unexpired item whose snapshot the reviewer saw, claiming with the side
    effect, completing it and finishing the approval all succeed with the same
    claim time: the item is gone, every other item is untouched and the audit
    trail gains exactly the started, completed and approved events. If instead
    the side effect definitely failed, interrupting the claim restores the
    status the item had. *)
Lemma approve_flow id at_ stale bank details error d i :
  db_ok d -> get (q_items d) id = Some i -> it_status i ∈ REVIEWABLE_STATUSES -> is_expired i at_ = false ->
  exists d1 d2 d3 d4,
    claim_review id (it_kind i) at_ stale true (Some (it_sha256 i)) (Some (it_updated_at i)) bank d = (Ok i, d1) /\
    complete_side_effect id at_ (Some (it_sha256 i)) d1 = (Ok (), d2) /\
    finish_approve_retain id at_ details (Some (it_sha256 i)) d2 = (Ok (), d3) /\
    interrupt_review i at_ error d1 = (Ok (), d4) /\
    db_ok d3 /\ db_ok d4 /\
    (forall id', get (q_items d3) id' = if decide (id' = id) then None else get (q_items d) id') /\
    map ev_type (q_events d3) = map ev_type (q_events d) ++
      [status_text REVIEW_SIDE_EFFECT_STARTED; status_text REVIEW_SIDE_EFFECT_COMPLETED; "approved"] /\
    status_of d4 id = status_of d id /\
    (forall id', id' <> id -> get (q_items d4) id' = get (q_items d) id').
Proof.
  intros Hd Hg Hst Hexp.
  assert (Hsnap : _assert_snapshot i (Some (it_sha256 i)) (Some (it_updated_at i)) = Ok ())
    by (unfold _assert_snapshot; by rewrite !bool_decide_true).
  destruct (claim_runs id at_ stale true (Some (it_sha256 i)) (Some (it_updated_at i)) bank d i Hd Hg Hst Hexp Hsnap)
    as (d1 & Hc & Hd1 & Hg1 & He1).
  assert (Hrow : get (q_items d1) id = Some (claimed_row at_ true bank i)) by (by rewrite Hg1, decide_True).
  destruct (complete_runs id at_ (Some (it_sha256 i)) d1 (claimed_row at_ true bank i) Hd1 Hrow)
    as (d2 & Hco & Hd2 & Hg2 & He2); [by destruct bank|by destruct bank|intros s [= <-]; by destruct bank|].
  destruct (approve_retain_runs id at_ details (Some (it_sha256 i)) d2
    (set_status REVIEW_SIDE_EFFECT_COMPLETED at_ (claimed_row at_ true bank i)) Hd2) as (d3 & Hf & Hd3 & Hg3 & He3);
    [by rewrite Hg2, decide_True|done|done|intros s [= <-]; by destruct bank|].
  destruct (get_elem _ _ _ Hg) as [_ Hid]. rewrite <- Hid in Hrow.
  destruct (interrupt_runs i at_ error d1 (claimed_row at_ true bank i) Hd1 Hrow) as (d4 & Hi & Hd4 & Hg4 & _);
    [destruct bank; by right; left|by destruct bank|done|]. rewrite Hid in Hg4.
  exists d1, d2, d3, d4. split_and!; try done.
  - intros id'. rewrite Hg3, Hg2, Hg1. by repeat case_decide.
  - rewrite He3, He2, He1, <- !app_assoc. done.
  - unfold status_of. rewrite Hg4, decide_True, Hg by done. by destruct bank.
  - intros id' Hne. by rewrite Hg4, Hg1, !decide_False.
Qed.

(** Deciding a recalled memory. From a reviewable, unexpired recalled
    memory, both the approval (claim, finish) and the rejection (claim with a
    side effect, complete, finish) run to completion: the item stays, without
    its encrypted payload, under the final status, so that later recalls see
    the decision; every other item is untouched. *)
Lemma memory_decision_flow id at_ stale actor d i :
  db_ok d -> get (q_items d) id = Some i -> it_kind i = "recalled_memory" ->
  it_status i ∈ REVIEWABLE_STATUSES -> is_expired i at_ = false ->
  (exists d1 d2,
    claim_review id "recalled_memory" at_ stale false (Some (it_sha256 i)) (Some (it_updated_at i)) None d = (Ok i, d1) /\
    finish_approve_memory id at_ (Some (it_sha256 i)) actor d1 = (Ok (), d2) /\ db_ok d2 /\
    forall id', get (q_items d2) id' =
      if decide (id' = id) then Some (set_reviewed REVIEWED_ALLOWED at_ i) else get (q_items d) id') /\
  (exists d1 d2 d3,
    claim_review id "recalled_memory" at_ stale true (Some (it_sha256 i)) (Some (it_updated_at i)) None d = (Ok i, d1) /\
    complete_side_effect id at_ (Some (it_sha256 i)) d1 = (Ok (), d2) /\
    finish_reject_memory id at_ (Some (it_sha256 i)) actor d2 = (Ok (), d3) /\ db_ok d3 /\
    forall id', get (q_items d3) id' =
      if decide (id' = id) then Some (set_reviewed REVIEWED_BLOCKED at_ i) else get (q_items d) id').
Proof.
  intros Hd Hg Hk Hst Hexp.
  assert (Hsnap : _assert_snapshot i (Some (it_sha256 i)) (Some (it_updated_at i)) = Ok ())
    by (unfold _assert_snapshot; by rewrite !bool_decide_true).
  pose proof (fun se => claim_runs id at_ stale se (Some (it_sha256 i)) (Some (it_updated_at i)) None d i Hd Hg Hst Hexp Hsnap)
    as Hclaim. rewrite Hk in Hclaim. split.
  - destruct (Hclaim false) as (d1 & Hc & Hd1 & Hg1 & _).
    destruct (approve_memory_runs id at_ (Some (it_sha256 i)) actor d1 (claimed_row at_ false None i) Hd1)
      as (d2 & Hf & Hd2 & Hg2 & _); [by rewrite Hg1, decide_True|done|done|by intros s [= <-]|done|].
    exists d1, d2. split_and!; try done. intros id'. rewrite Hg2, Hg1. by case_decide.
  - destruct (Hclaim true) as (d1 & Hc & Hd1 & Hg1 & _).
    destruct (complete_runs id at_ (Some (it_sha256 i)) d1 (claimed_row at_ true None i) Hd1)
      as (d2 & Hco & Hd2 & Hg2 & _); [by rewrite Hg1, decide_True|done|done|by intros s [= <-]|].
    destruct (reject_memory_runs id at_ (Some (it_sha256 i)) actor d2
      (set_status REVIEW_SIDE_EFFECT_COMPLETED at_ (claimed_row at_ true None i)) Hd2) as (d3 & Hf & Hd3 & Hg3 & _);
      [by rewrite Hg2, decide_True|done|done|by intros s [= <-]|].
    exists d1, d2, d3. split_and!; try done. intros id'. rewrite Hg3, Hg2, Hg1. by repeat case_decide.
Qed.

(** Claims whose age is known: both timestamps parse alike or not at all. *)
Definition claim_stale (at_ : string) (secs : Z) (r : item) : bool :=
  match _stale (it_updated_at r) at_ secs with Ok b => b | Err _ => false end.

Lemma stale_claim_total i at_ d :
  db_ok d ->
  (exists d', _restore_stale_claim i at_ d = (Ok (), d') /\ db_ok d') /\
  (exists d', _expire_stale_claim i at_ d = (Ok (), d') /\ db_ok d').
Proof.
  intros Hd. split.
  - unfold _restore_stale_claim. 
    set (t := update_where (in_progress_row (it_quarantine_id i)) (set_status POSTPONED at_) (q_items d)).
    assert (Ht : unique_ok t = true) by (apply unique_update; [done|apply Hd]).
    rewrite (bind_ok _ _ d () (set_items t d)) by (unfold execute_items, mbind, eff_bind, get_state; cbn zeta; fold t; by rewrite Ht).
    destruct (insert_event _ _ _ _ _ (set_items t d)) as [r d'] eqn:E.
    apply insert_event_follows in E as (-> & Hd' & _); [by exists d'|].
    apply set_items_db_ok; [done|done|]. apply Forall_update_where; [apply Hd|]. auto with table.
  - unfold _expire_stale_claim. 
    set (t := delete_where (in_progress_row (it_quarantine_id i)) (q_items d)).
    assert (Ht : unique_ok t = true) by (apply unique_delete, Hd).
    rewrite (bind_ok _ _ d () (set_items t d)) by (unfold execute_items, mbind, eff_bind, get_state; cbn zeta; fold t; by rewrite Ht).
    destruct (insert_event _ _ _ _ _ (set_items t d)) as [r d'] eqn:E.
    apply insert_event_follows in E as (-> & Hd' & _); [by exists d'|].
    apply set_items_db_ok; [done|done|]. pose proof (dok_rows d Hd) as Hrows.
    rewrite list.Forall_forall in *. intros r0 [Hin _]%delete_where_elem. auto.
Qed.

Lemma recover_loop_total at_ secs rows d :
  db_ok d -> (forall r, r ∈ rows -> is_ok (_stale (it_updated_at r) at_ secs) = true) ->
  exists d', for_each (fun row =>
    stale ← lift (_stale (it_updated_at row) at_ secs);
    if negb stale then mret ()
    else if is_expired row at_ then _expire_stale_claim row at_
    else _restore_stale_claim row at_) rows d = (Ok (), d').
Proof.
  revert d. induction rows as [|r rows IH]; intros d Hd Hok; [by exists d|]. simpl.
  destruct (_stale (it_updated_at r) at_ secs) as [st|] eqn:E; [|specialize (Hok r ltac:(left)); by rewrite E in Hok].
  rewrite eff_assoc, (bind_ok _ _ d st d) by done.
  destruct (stale_claim_total r at_ d Hd) as [(d1 & H1 & Hd1) (d2 & H2 & Hd2)].
  assert (Hr : forall r0, r0 ∈ rows -> is_ok (_stale (it_updated_at r0) at_ secs) = true) by (intros; apply Hok; by right).
  destruct st; simpl; [destruct (is_expired r at_)|].
  - rewrite (bind_ok _ _ _ _ _ H2). by apply IH.
  - rewrite (bind_ok _ _ _ _ _ H1). by apply IH.
  - by apply IH.
Qed.

(** Recovery is total and exact. When the age of every in-progress claim
    is known, [recover_interrupted] succeeds; it postpones exactly the
    in-progress reviews whose claim is at least [stale_seconds] old, deletes
    those that have also expired, and leaves every other item, in particular
    every review with a side effect under way, as it was. *)
Lemma recover_exact at_ secs d :
  db_ok d ->
  (forall r, r ∈ q_items d -> it_status r = REVIEW_IN_PROGRESS -> is_ok (_stale (it_updated_at r) at_ secs) = true) ->
  exists d', recover_interrupted at_ secs d = (Ok (), d') /\ db_ok d' /\
  forall id, get (q_items d') id =
    match get (q_items d) id with
    | Some r =>
        if bool_decide (it_status r = REVIEW_IN_PROGRESS) && claim_stale at_ secs r
        then if is_expired r at_ then None else Some (set_status POSTPONED at_ r)
        else Some r
    | None => None
    end.
Proof.
  intros Hd Hages.
  destruct (recover_loop_total at_ secs
    (select_where (fun r => bool_decide (it_status r = REVIEW_IN_PROGRESS)) (q_items d)) d Hd) as [d' Hl].
  { intros r [Hin Hst]%select_where_elem. apply bool_decide_eq_true in Hst. auto. }
  assert (Hr : recover_interrupted at_ secs d = (Ok (), d')) by (apply transaction_ok; exact Hl).
  exists d'. split; [done|]. destruct (recover_ok at_ secs d () d' Hd Hr) as (Hd' & _ & Hget). split; [done|].
  intros id. rewrite Hget. destruct (get (q_items d) id) as [r|]; [|done]. unfold recovered_row, claim_stale.
  case_decide; [rewrite bool_decide_true by done|by rewrite bool_decide_false].
  by destruct (_stale (it_updated_at r) at_ secs) as [[|]|].
Qed.

(** Postponing counts and is bounded. A successful [postpone] with a
    limit of [m] leaves the item postponed with its count raised by one and at
    most [m], whatever state the claim was in before, and returns that row; at
    the limit it is refused and nothing changes. *)
Lemma postpone_bounded id at_ stale m actor d :
  db_ok d ->
  match postpone id at_ stale (Some m) actor d with
  | (Ok r, d') => exists i i', get (q_items d) id = Some i /\ r = Some i' /\ get (q_items d') id = Some i' /\
      it_status i' = POSTPONED /\ it_postpone_count i' = it_postpone_count i + 1 /\ it_postpone_count i' <= m /\
      it_encrypted i' = it_encrypted i
  | (Err e, d') => forall i, get (q_items d) id = Some i -> it_status i ∈ REVIEWABLE_STATUSES -> d' = d
  end.
Proof.
  intros Hd. destruct (postpone id at_ stale (Some m) actor d) as [[r|e] d'] eqn:E.
  - apply mutate_review_ok in E as (i0 & i1 & d1 & Hg0 & Hd1 & _ & Hg & Hid & Hi & Hst & _ & Hm); [|done].
    cbn zeta in Hm. destruct (m <=? it_postpone_count i1) eqn:El; [done|]. apply Z.leb_gt in El.
    apply bind_ok_inv in Hm as (? & d2 & Hu & Hm). apply bind_ok_inv in Hm as (? & d3 & He & Hm).
    apply fetch_item_ok in Hm as [-> [= ->]]. apply insert_event_ok in He as (_ & Hit & _).
    apply update_item_ok in Hu as (_ & _ & _ & _ & Hget); [|done].
    assert (Hrow : get (q_items d3) id = Some (set_postponed at_ i1)) by (rewrite Hit, Hget, decide_True, Hg; done).
    exists i0, (set_postponed at_ i1). split_and!; try done; simpl; try lia; by destruct Hi as [[_ ->]|[_ ->]].
  - intros i Hg Hst. unfold postpone, _mutate_review in E. apply bind_err_inv in E as [E|(r & d1 & Ht & E)].
    + by apply transaction_err in E as [-> _].
    + destruct r; [done|]. apply transaction_ok_inv in Ht. exfalso.
      apply bind_ok_inv in Ht as (f & d2 & Hf & Ht). apply fetch_item_ok in Hf as [-> [= ->]]. rewrite Hg in Ht.
      apply bind_ok_inv in Ht as (? & d2 & Hf & Ht). apply lift_ok in Hf as [_ ->].
      apply bind_ok_inv in Ht as (rec & d2 & Hf & Ht). destruct rec as [i1|].
      * apply bind_ok_inv in Ht as (? & d3 & _ & Ht). by apply bind_ok_inv in Ht as (? & d4 & _ & Ht).
      * unfold _recover_stale_for_action in Hf. apply bind_ok_inv in Hf as (st & d3 & Hs & Hf).
        apply lift_ok in Hs as [Hs ->]. rewrite bool_decide_false in Hs.
        -- destruct stale; simplify_eq; by simpl in Hf.
        -- intros Hp. rewrite Hp in Hst. unfold REVIEWABLE_STATUSES in Hst. set_unfold in Hst. naive_solver.
Qed.

(** ** Examples *)

Module Example_review.
Definition t1 : string := "2024-01-03T00:00:00.000Z".
Definition t2 : string := "2024-01-03T00:05:00.000Z".

Definition memory : item :=
  mkItem "q_m" "2024-01-01T00:00:00.000Z" "2024-01-01T00:00:00.000Z" "recalled_memory" "suspicious_content" None None
    (Some "team") (Some "m1") (Some "ab") None "cd" (Some Example_repository.envelope)
    (slen (json_dumps Example_repository.envelope)) PENDING 0 0
    (Some "2024-02-01T00:00:00.000Z") (Some "team").

Definition queue : qdb := mkQdb (memory :: q_items Example_repository.first) [] 0.

Lemma queue_ok : db_ok queue.
Proof.
  split; [reflexivity| |apply NoDup_nil_2|constructor].
  repeat constructor; vm_compute; congruence.
Qed.
End Example_review.
Import Example_review.

(** Claimed, completed and approved, then postponed in vain. *)
Lemma review_refines_machine_witness :
  status_of (run_reviews [OpClaim "q_a" "retain_request" t1 None true None None None; OpComplete "q_a" t1 None;
                          OpApproveRetain "q_a" t1 [] None; OpPostpone "q_a" t2 None None None] queue) "q_a" = None /\
  status_of queue "q_a" = Some PENDING /\
  status_of (run_reviews [OpClaim "q_z" "retain_request" t1 None true None None None] queue) "q_z" = None.
Proof.
  split; [vm_compute; reflexivity|]. split; [vm_compute; reflexivity|].
  apply (review_refines_machine [OpClaim "q_z" "retain_request" t1 None true None None None] queue queue_ok).
  vm_compute. reflexivity.
Defined.

Lemma claim_exclusive_witness :
  let d' := (claim_review "q_a" "retain_request" t1 None true None None None queue).2 in
  run_reviews [OpPostpone "q_a" t2 (Some 1) None None; OpClaim "q_a" "retain_request" t2 (Some 1) true None None None] d' = d'.
Proof.
  destruct (claim_review "q_a" "retain_request" t1 None true None None None queue) as [[i|e] d'] eqn:E;
    [|vm_compute in E; discriminate].
  destruct (claim_exclusive "q_a" "retain_request" t1 None None None None queue i d' queue_ok E) as (row & _ & _ & _ & _ & _ & Hrefused).
  refine (proj1 (Hrefused _ _)). repeat constructor.
Defined.

Lemma approve_flow_witness : exists d1 d2 d3, db_ok d3 /\
  complete_side_effect "q_m" t1 (Some "cd") d1 = (Ok (), d2) /\
  finish_approve_retain "q_m" t1 [] (Some "cd") d2 = (Ok (), d3).
Proof.
  destruct (approve_flow "q_m" t1 (Some 60) (Some "team") [] (EOther "x") queue memory queue_ok)
    as (d1 & d2 & d3 & _ & _ & Hco & Hf & _ & Hd3 & _); [reflexivity|by left|vm_compute; reflexivity|].
  by exists d1, d2, d3.
Defined.

Lemma memory_decision_flow_witness : exists d1 d2, db_ok d2 /\
  finish_approve_memory "q_m" t1 (Some "cd") (Some "ops") d1 = (Ok (), d2).
Proof.
  destruct (memory_decision_flow "q_m" t1 (Some 60) (Some "ops") queue memory queue_ok)
    as [(d1 & d2 & _ & Hf & Hd2 & _) _]; [reflexivity|reflexivity|by left|vm_compute; reflexivity|].
  by exists d1, d2.
Defined.

(** A claim of five minutes ago is recovered. *)
Definition claimed_queue : qdb := (claim_review "q_m" "recalled_memory" t1 None false None None None queue).2.

Lemma recover_exact_witness : exists d', recover_interrupted t2 60 claimed_queue = (Ok (), d') /\
  status_of d' "q_m" = Some POSTPONED /\ status_of d' "q_a" = Some PENDING.
Proof.
  destruct (recover_exact t2 60 claimed_queue) as (d' & Hr & _ & Hget).
  - by eapply (claim_reviews "q_m" "recalled_memory" t1 None false None None None queue), surjective_pairing; apply queue_ok.
  - intros r Hin _. assert (Hall : forallb (fun r => is_ok (_stale (it_updated_at r) t2 60)) (q_items claimed_queue) = true)
      by (vm_compute; reflexivity).
    rewrite List.forallb_forall in Hall. apply Hall. by apply list_elem_of_In.
  - exists d'. split; [done|]. unfold status_of. rewrite !Hget. split; vm_compute; reflexivity.
Defined.

Lemma postpone_bounded_witness :
  match postpone "q_m" t1 None (Some 0) None queue with (Ok _, _) => False | (Err e, d') => d' = queue end.
Proof.
  pose proof (postpone_bounded "q_m" t1 None 0 None queue queue_ok) as H.
  destruct (postpone "q_m" t1 None (Some 0) None queue) as [[r|e] d'] eqn:E; [vm_compute in E; discriminate|].
  apply (H memory); [reflexivity|by left].
Defined.
