(* ===== verification/Envelope.v ===== *)
(** * Quarantine envelopes

    Models [memory_router/envelope.py] and the provider interface of
    [memory_router/key_wrap.py]: validation of the decrypted object, the
    canonical plaintext, the envelope with its authenticated metadata, the size
    estimate made before encrypting, and parsing and opening an envelope.

    Bytes and text are both byte strings here. AES-GCM and the key-wrapping
    service are code outside the repository: [AESGCM] and the [wrap] operation
    of a provider are parameters; random keys and vectors are arguments. *)

From Stdlib Require Import ZArith Lia Ascii.
From stdpp Require Import base sets strings numbers list.
From S2P Require Import Prelude Errors Text Sha256 Json JsonParse Repository.

Local Open Scope Z_scope.

(** ** Base64 *)

Definition b64_alphabet : list ascii :=
  chars "ABCDEFGHIJKLMNOPQRSTUVWXYZabcdefghijklmnopqrstuvwxyz0123456789+/".

Definition b64_char (n : Z) : ascii := nth (Z.to_nat n) b64_alphabet "="%char.

Definition b64_value (c : ascii) : option Z :=
  if is_upper c then Some (code_of c - 65)
  else if is_lower c then Some (code_of c - 71)
  else if is_digit c then Some (code_of c + 4)
  else if code_of c =? 43 then Some 62
  else if code_of c =? 47 then Some 63
  else None.

Fixpoint b64_groups (l : list Z) : list ascii :=
  match l with
  | a :: b :: c :: l' =>
      b64_char (a / 4) :: b64_char (a mod 4 * 16 + b / 16) :: b64_char (b mod 16 * 4 + c / 64) :: b64_char (c mod 64)
        :: b64_groups l'
  | [a; b] => [b64_char (a / 4); b64_char (a mod 4 * 16 + b / 16); b64_char (b mod 16 * 4); "="%char]
  | [a] => [b64_char (a / 4); b64_char (a mod 4 * 16); "="%char; "="%char]
  | [] => []
  end.

(** [base64.b64encode(s).decode("ascii")] *)
Definition b64encode (s : string) : string := of_chars (b64_groups (map code_of (chars s))).

Fixpoint b64_ungroup (l : list ascii) : option (list Z) :=
  match l with
  | [] => Some []
  | c1 :: c2 :: c3 :: c4 :: l' =>
      match b64_value c1, b64_value c2, b64_value c3, b64_value c4 with
      | Some x1, Some x2, Some x3, Some x4 =>
          rest ← b64_ungroup l';
          Some (x1 * 4 + x2 / 16 :: x2 mod 16 * 16 + x3 / 4 :: x3 mod 4 * 64 + x4 :: rest)
      | Some x1, Some x2, Some x3, None =>
          if bool_decide (c4 = "="%char /\ l' = []) then Some [x1 * 4 + x2 / 16; x2 mod 16 * 16 + x3 / 4] else None
      | Some x1, Some x2, None, None =>
          if bool_decide (c3 = "="%char /\ c4 = "="%char /\ l' = []) then Some [x1 * 4 + x2 / 16] else None
      | _, _, _, _ => None
      end
  | _ => None
  end.

(** [base64.b64decode(s, validate=True)] *)
Definition b64decode (s : string) : option string :=
  (fun bs => of_chars (map chr bs)) <$> b64_ungroup (chars s).

(** ** The decrypted object *)

Definition AAD_FORMAT : string := "metadata-v1".
Definition DEFAULT_KEY_WRAP : string := "RSA-OAEP-SHA256".

(** [KEY_WRAP_TOKEN_RE.fullmatch] *)
Definition is_key_wrap_token (s : string) : bool :=
  class_match (fun c => is_alnum c || elem c ["."; "_"; "-"]%char) 1 64 s.

(** [QUARANTINE_ID_RE.fullmatch]: [q_[0-9A-Za-z]+_[0-9a-f]{16}]. *)
Definition is_quarantine_id (s : string) : bool :=
  starts_with "q_" s
  && match rpartition "_"%char (remove_prefix "q_" s) with
     | Some (body, tail) => bool_decide (body <> ""%string) && forallb is_alnum (chars body) && class_match is_hex 16 16 tail
     | None => false
     end.

Definition _REASONS : list string :=
  ["unknown_writer"; "suspicious_content"; "suspicious_query"; "recalled_suspicious_memory";
   "recalled_suspicious_supplemental"; "recalled_suspicious_aggregate"; "denied_endpoint"; "auth_failed";
   "openclaw_suspicious_request"; "openclaw_unknown_writer"; "openclaw_suspicious_provider_response"].

Definition value_error {A} (m : string) : result A := Err (EValueError m).

(** A non-empty string under a key. *)
Definition text_field (d : list (string * json)) (key : string) : result string :=
  match dict_get key d with
  | Some (JStr s) => if bool_decide (s = ""%string) then value_error (key +:+ " must be a non-empty string") else Ok s
  | _ => value_error (key +:+ " must be a non-empty string")
  end.

(** [validate_required_fields], the before-validator of [DecryptedQuarantine]. *)
Definition validate_required_fields (value : json) : result (list (string * json)) :=
  match value with
  | JDict d =>
      _ ← text_field d "quarantine_id";
      _ ← text_field d "created_at";
      reason ← text_field d "reason";
      _ ← ensure (elem reason _REASONS) (EValueError "invalid quarantine reason");
      _ ← ensure (bool_decide (is_Some (dict_get "payload" d))) (EValueError "decrypted quarantine payload is missing");
      Ok d
  | _ => value_error "decrypted quarantine object must be an object"
  end.

(** [optional_strings_are_non_empty] on a field that is set. *)
Definition optional_text (d : list (string * json)) (key : string) : result unit :=
  match dict_get key d with
  | None => Ok ()
  | Some _ => _ ← text_field d key; Ok ()
  end.

(** ** Envelopes *)

Record WrapProviderInfo := mkWrapProviderInfo { wp_name : string; wp_version : Z }.

(** The [WrapProvider] protocol; [wrap] is the provider's own service. *)
Record WrapProvider := mkWrapProvider {
  wp_key_wrap : string;
  wp_wrapped_key_bytes : Z;
  wp_envelope_provider : option WrapProviderInfo;
  wp_wrap : string -> result string
}.

Definition provider_envelope_metadata (info : option WrapProviderInfo) : option json :=
  match info with
  | None => None
  | Some i => Some (JDict [("name", JStr (wp_name i)); ("version", JInt (wp_version i))])
  end.

(** [AESGCM(key).encrypt(iv, data, aad)] and [.decrypt]: [None] for [InvalidTag]. *)
Class AESGCM := {
  aes_encrypt : string -> string -> string -> option string -> string;
  aes_decrypt : string -> string -> string -> option string -> option string
}.

Record _PreparedDecrypted := mkPrepared { pd_plaintext : string; pd_metadata : list (string * json) }.

(** [dict[key]]: raises [KeyError]. *)
Definition getitem (d : list (string * json)) (key : string) : result json :=
  match dict_get key d with Some v => Ok v | None => Err (EOther "KeyError") end.

(** [if key in d: result[key] = d[key]] *)
Definition copy_if_present (d : list (string * json)) (key : string) : list (string * json) :=
  match dict_get key d with Some v => [(key, v)] | None => [] end.

Definition _base64_length (byte_length : Z) : Z := 4 * ((byte_length + 2) / 3).

(** ["A" * n] *)
Definition repeat_char (c : ascii) (n : Z) : string := of_chars (replicate (Z.to_nat n) c).

Definition _envelope_metadata (parsed : list (string * json)) (digest wrapped_key_b64 iv_b64 key_wrap : string)
    (provider : option json) : result (list (string * json)) :=
  qid ← getitem parsed "quarantine_id";
  created ← getitem parsed "created_at";
  reason ← getitem parsed "reason";
  Ok ([("version", JInt 1); ("quarantine_id", qid); ("created_at", created); ("reason", reason)]
      ++ copy_if_present parsed "writer_id" ++ copy_if_present parsed "source"
      ++ [("sha256", JStr digest);
          ("encryption", JDict (
             [("algorithm", JStr "AES-256-GCM"); ("key_wrap", JStr key_wrap); ("aad", JStr AAD_FORMAT);
              ("wrapped_key_b64", JStr wrapped_key_b64); ("iv_b64", JStr iv_b64)]
             ++ match provider with Some p => [("provider", p)] | None => [] end))]).

(** [envelope["encryption"]["tag_b64"] = tag; envelope["ciphertext_b64"] = text] *)
Definition attach_ciphertext (envelope : list (string * json)) (tag text : string) : result (list (string * json)) :=
  encryption ← getitem envelope "encryption";
  Ok (dict_set "ciphertext_b64" (JStr text) (dict_set "encryption" (jset "tag_b64" (JStr tag) encryption) envelope)).

Section envelope.
Context `{Rfc8785, AESGCM}.

Definition parse_decrypted (value : json) : result (list (string * json)) :=
  d ← validate_required_fields value;
  _ ← optional_text d "writer_id";
  _ ← optional_text d "source";
  payload ← getitem d "payload";
  _ ← canonical_json payload;
  Ok d.

Definition _prepare_decrypted (value : json) : result _PreparedDecrypted :=
  value ← parse_decrypted value;
  qid ← getitem value "quarantine_id";
  created ← getitem value "created_at";
  reason ← getitem value "reason";
  let metadata := [("quarantine_id", qid); ("created_at", created); ("reason", reason)]
                  ++ copy_if_present value "writer_id" ++ copy_if_present value "source" in
  payload ← getitem value "payload";
  text ← canonical_json (JDict (metadata ++ [("payload", payload)]));
  Ok (mkPrepared text metadata).

Definition canonical_decrypted (value : json) : result string :=
  prepared ← _prepare_decrypted value; Ok (pd_plaintext prepared).

(** The additional authenticated data. *)
Definition _aad (envelope : list (string * json)) : result string :=
  encryption ← getitem envelope "encryption";
  let enc := match encryption with JDict e => e | _ => [] end in
  version ← getitem envelope "version";
  qid ← getitem envelope "quarantine_id";
  created ← getitem envelope "created_at";
  reason ← getitem envelope "reason";
  sha ← getitem envelope "sha256";
  algorithm ← getitem enc "algorithm";
  key_wrap ← getitem enc "key_wrap";
  wrapped ← getitem enc "wrapped_key_b64";
  iv ← getitem enc "iv_b64";
  canonical_json (JDict (
    [("version", version); ("quarantine_id", qid); ("created_at", created); ("reason", reason)]
    ++ copy_if_present envelope "writer_id" ++ copy_if_present envelope "source"
    ++ [("sha256", sha);
        ("encryption", JDict (
           [("algorithm", algorithm); ("key_wrap", key_wrap); ("aad", JStr AAD_FORMAT);
            ("wrapped_key_b64", wrapped); ("iv_b64", iv)] ++ copy_if_present enc "provider"))])).

Definition _estimate_prepared_envelope_size (prepared : _PreparedDecrypted) (wrapped_key_bytes : Z)
    (key_wrap : string) (provider : option json) : result Z :=
  _ ← ensure (0 <? wrapped_key_bytes) (EValueError "wrapped key size must be positive");
  let plaintext_bytes := slen (pd_plaintext prepared) in
  envelope ← _envelope_metadata (pd_metadata prepared) (repeat_char "0" 64)
               (repeat_char "A" (_base64_length wrapped_key_bytes)) (repeat_char "A" (_base64_length 12)) key_wrap provider;
  envelope ← attach_ciphertext envelope (repeat_char "A" (_base64_length 16))
               (repeat_char "A" (_base64_length plaintext_bytes));
  Ok (slen (json_dumps (JDict envelope))).

Definition estimate_envelope_size (value : json) (wrapped_key_bytes : Z) (key_wrap : string) (provider : option json)
    : result Z :=
  _ ← ensure (0 <? wrapped_key_bytes) (EValueError "wrapped key size must be positive");
  prepared ← _prepare_decrypted value;
  _estimate_prepared_envelope_size prepared wrapped_key_bytes key_wrap provider.

Definition _seal_envelope (envelope : list (string * json)) (key iv plaintext : string)
    : result (list (string * json)) :=
  aad ← _aad envelope;
  let ciphertext_tag := aes_encrypt key iv plaintext (Some aad) in
  let n := (String.length ciphertext_tag - 16)%nat in
  attach_ciphertext envelope (b64encode (str_drop n ciphertext_tag)) (b64encode (str_take n ciphertext_tag)).

(** The data key and the vector are drawn at random. *)
Definition _create_prepared_provider_envelope (prepared : _PreparedDecrypted) (provider : WrapProvider)
    (key iv : string) : result (list (string * json)) :=
  wrapped ← wp_wrap provider key;
  envelope ← _envelope_metadata (pd_metadata prepared) (sha256_hex (pd_plaintext prepared)) (b64encode wrapped)
               (b64encode iv) (wp_key_wrap provider) (provider_envelope_metadata (wp_envelope_provider provider));
  _seal_envelope envelope key iv (pd_plaintext prepared).

Definition create_provider_envelope (value : json) (provider : WrapProvider) (key iv : string)
    : result (list (string * json)) :=
  prepared ← _prepare_decrypted value; _create_prepared_provider_envelope prepared provider key iv.
(** *** Parsing *)

(** [actual != 1] in Python: [True] and [1.0] are equal to 1. *)
Definition equals_one (v : option json) : bool :=
  match v with
  | Some (JInt 1) | Some (JBool true) => true
  | Some (JFloat t) => bool_decide (t = "1.0"%string)
  | _ => false
  end.

Definition is_text (v : option json) (s : string) : bool := bool_decide (v = Some (JStr s)).

Definition _validate_wrap_provider (encryption : list (string * json)) : result unit :=
  _ ← ensure (match dict_get "key_wrap" encryption with Some (JStr s) => is_key_wrap_token s | _ => false end)
        (EValueError "unsupported quarantine key wrapping algorithm");
  match dict_get "provider" encryption with
  | Some (JDict provider) =>
      _ ← ensure (forallb (fun k => elem k ["name"; "version"]%string) (map fst provider)
                  && forallb (fun k => elem k (map fst provider)) ["name"; "version"]%string)
            (EValueError "invalid quarantine key wrap provider");
      _ ← ensure (match dict_get "name" provider with Some (JStr s) => is_key_wrap_token s | _ => false end)
            (EValueError "invalid quarantine key wrap provider");
      ensure (match dict_get "version" provider with Some (JInt v) => 1 <=? v | _ => false end)
        (EValueError "invalid quarantine key wrap provider")
  | _ => value_error "invalid quarantine key wrap provider"
  end.

Definition _validate_encryption_metadata (envelope encryption : list (string * json)) : result unit :=
  _ ← ensure (equals_one (dict_get "version" envelope)) (EValueError "unsupported quarantine envelope version");
  _ ← ensure (is_text (dict_get "algorithm" encryption) "AES-256-GCM")
        (EValueError "unsupported quarantine encryption algorithm");
  _ ← (if bool_decide (is_Some (dict_get "provider" encryption)) then _validate_wrap_provider encryption
       else ensure (is_text (dict_get "key_wrap" encryption) DEFAULT_KEY_WRAP)
              (EValueError "unsupported quarantine key wrapping algorithm"));
  ensure (match dict_get "aad" encryption with
          | None | Some JNull => true
          | Some v => bool_decide (v = JStr AAD_FORMAT)
          end) (EValueError "unsupported quarantine AAD format").

(** [base64.b64decode] raises [binascii.Error], a [ValueError]. *)
Definition b64_or_error (s : string) : result string :=
  match b64decode s with Some b => Ok b | None => value_error "binascii.Error" end.

Definition _validate_base64_field (encryption : list (string * json)) (field : string) : result string :=
  match dict_get field encryption with
  | Some (JStr s) => b64_or_error s
  | _ => value_error (field +:+ " must be valid base64")
  end.

(** [value not in _REASONS]: a container is not hashable. *)
Definition reason_known (v : option json) : result bool :=
  match v with
  | Some (JStr s) => Ok (elem s _REASONS)
  | Some (JList _) | Some (JDict _) => Err (EOther "TypeError")
  | _ => Ok false
  end.

Definition parse_envelope (value : json) : result (list (string * json)) :=
  match value with
  | JDict envelope =>
      match dict_get "encryption" envelope with
      | Some (JDict encryption) =>
          _ ← _validate_encryption_metadata envelope encryption;
          _ ← ensure (match dict_get "quarantine_id" envelope with Some (JStr s) => is_quarantine_id s | _ => false end)
                (EValueError "invalid quarantine_id");
          known ← reason_known (dict_get "reason" envelope);
          _ ← ensure known (EValueError "invalid quarantine reason");
          _ ← ensure (match dict_get "sha256" envelope with Some (JStr s) => class_match is_hex 64 64 s | _ => false end)
                (EValueError "invalid quarantine object digest");
          _ ← _validate_base64_field encryption "wrapped_key_b64";
          iv ← _validate_base64_field encryption "iv_b64";
          tag ← _validate_base64_field encryption "tag_b64";
          _ ← ensure (slen iv =? 12) (EValueError "invalid AES-GCM initialization vector length");
          _ ← ensure (slen tag =? 16) (EValueError "invalid AES-GCM authentication tag length");
          _ ← _validate_base64_field envelope "ciphertext_b64";
          Ok envelope
      | _ => value_error "encrypted quarantine envelope must be an object"
      end
  | _ => value_error "encrypted quarantine envelope must be an object"
  end.

(** [value.get(field)], [None] being JSON null. *)
Definition field_of (d : list (string * json)) (field : string) : json := default JNull (dict_get field d).

(** The base64 fields read here have passed the strict decoder. *)
Definition decrypt_unwrapped_envelope (value : json) (key : string) : result (list (string * json)) :=
  envelope ← parse_envelope value;
  encryption ← getitem envelope "encryption";
  let enc := match encryption with JDict e => e | _ => [] end in
  _ ← ensure (slen key =? 32) (EValueError "invalid decrypted quarantine key length");
  text ← _validate_base64_field envelope "ciphertext_b64";
  tag ← _validate_base64_field enc "tag_b64";
  iv ← _validate_base64_field enc "iv_b64";
  aad ← (if is_text (dict_get "aad" enc) AAD_FORMAT then a ← _aad envelope; Ok (Some a) else Ok None);
  plaintext ← match aes_decrypt key iv (text +:+ tag) aad with
              | Some p => Ok p
              | None => Err (EOther "InvalidTag")
              end;
  _ ← ensure (utf8_valid plaintext) (EValueError "invalid utf-8");
  _ ← ensure (is_text (dict_get "sha256" envelope) (sha256_hex plaintext)) (EValueError "quarantine object digest mismatch");
  loaded ← match json_loads plaintext with Some v => Ok v | None => value_error "JSONDecodeError" end;
  parsed ← parse_decrypted loaded;
  _ ← ensure (forallb (fun f => bool_decide (field_of parsed f = field_of envelope f))
                ["quarantine_id"; "created_at"; "reason"; "writer_id"; "source"]%string)
        (EValueError "quarantine envelope metadata mismatch");
  Ok parsed.

(** [rsa_decrypt] is the private key's OAEP decryption. *)
Definition decrypt_envelope (value : json) (rsa_decrypt : string -> result string) : result (list (string * json)) :=
  envelope ← parse_envelope value;
  encryption ← getitem envelope "encryption";
  let enc := match encryption with JDict e => e | _ => [] end in
  _ ← ensure (bool_decide (dict_get "provider" enc = None))
        (EValueError "unsupported quarantine key wrap provider: unwrap requires the matching review-tool provider");
  wrapped ← _validate_base64_field enc "wrapped_key_b64";
  key ← rsa_decrypt wrapped;
  decrypt_unwrapped_envelope (JDict envelope) key.
End envelope.
