(* ===== verification/Maintenance.v ===== *)
(** * Quarantine maintenance

    Models [memory_router/maintenance.py]: the preview and the confirmed
    cleanup of queued items, the sweep of expired items and the pruning of old
    audit events in batches, with their optional export. Rows that SQL orders
    by a column with ties are taken in table order. *)

From Stdlib Require Import ZArith Lia Ascii.
From stdpp Require Import base sets strings numbers list.
From S2P Require Import Prelude Errors Text Json Timestamps Repository RepositoryProps Review ReviewProps Envelope.

Local Open Scope Z_scope.

Definition BATCH_LIMIT : nat := 1000.

(** ** The cleanup filter *)

(** [value.upper()] of ASCII text. *)
Definition ascii_upper (c : ascii) : ascii := if is_lower c then chr (code_of c - 32) else c.
Definition str_upper (s : string) : string := of_chars (map ascii_upper (chars s)).

(** [[+-](?:[01]\d|2[0-3]):[0-5]\d] or [[Zz]], to the end of the text. *)
Definition zone_match (l : list ascii) : bool :=
  match l with
  | [z] => elem z ["Z"; "z"]%char
  | [s; h1; h2; c; m1; m2] =>
      elem s ["+"; "-"]%char
      && ((elem h1 ["0"; "1"]%char && is_digit h2) || (is_char "2" h1 && in_range 48 51 h2))
      && is_char ":" c && in_range 48 53 m1 && is_digit m2
  | _ => false
  end.

(** [_CLEANUP_TIME.fullmatch]: the fraction group, empty when there is none. *)
Definition cleanup_time_match (value : string) : option (list ascii) :=
  '(_, l1) ← read_digits 4 (chars value);
  '(_, l2) ← read_char (is_char "-") l1;
  '(_, l3) ← read_digits 2 l2;
  '(_, l4) ← read_char (is_char "-") l3;
  '(_, l5) ← read_digits 2 l4;
  '(_, l6) ← read_char (fun c => elem c ["T"; "t"]%char) l5;
  '(_, l7) ← read_digits 2 l6;
  '(_, l8) ← read_char (is_char ":") l7;
  '(_, l9) ← read_digits 2 l8;
  '(_, l10) ← read_char (is_char ":") l9;
  '(_, l11) ← read_digits 2 l10;
  match l11 with
  | c :: l' =>
      if is_char "." c then
        let (ds, rest) := span_digits l' in
        match ds with
        | [] => None
        | _ => if zone_match rest then Some ds else None
        end
      else if zone_match l11 then Some [] else None
  | [] => None
  end.

Definition invalid_cleanup_time : exn :=
  raise_http 400 "invalid_cleanup_time" "older_than must be an ISO timestamp with a timezone (Z or +/-HH:MM)".

(** [_cleanup_cutoff]: the cutoff at its millisecond, and whether digits of the
    fraction beyond it are lost. The zone is required, so the host's own zone
    does not matter. *)
Definition _cleanup_cutoff (value : json) : result (string * bool) :=
  match value with
  | JStr s =>
      match cleanup_time_match s with
      | None => Err invalid_cleanup_time
      | Some fraction =>
          match fromisoformat (str_upper s) with
          | None => Err invalid_cleanup_time
          | Some dt =>
              match iso_format 0 dt with
              | None => Err invalid_cleanup_time
              | Some cutoff => Ok (cutoff, existsb (fun c => negb (is_char "0" c)) (drop 3 fraction))
              end
          end
      end
  | _ => Err invalid_cleanup_time
  end.

Definition invalid_cleanup (m : string) : exn := raise_http 400 "invalid_cleanup" m.

(** [CLEANUP_FILTER_SQL] *)
Definition cleanup_filter (r : item) : bool := negb (elem (it_status r) (IN_REVIEW_STATUSES ++ FINAL_STATUSES)).
(** [REVIEWABLE_FILTER_SQL] *)
Definition reviewable_filter (r : item) : bool := elem (it_status r) REVIEWABLE_STATUSES.

(** The reasons of a request body: absent, or a list of text. *)
Definition cleanup_reasons (reasons : option json) : result (list string) :=
  match reasons with
  | None => Ok []
  | Some (JList l) =>
      if negb (forallb (fun v => match v with JStr _ => true | _ => false end) l)
      then Err (invalid_cleanup "cleanup reasons must contain strings")
      else
        let selected := omap (fun v => match v with JStr s => Some s | _ => None end) l in
        if negb (forallb (fun s => elem s _REASONS) selected)
        then Err (invalid_cleanup "cleanup reasons must be supported quarantine reasons")
        else Ok selected
  | Some _ => Err (invalid_cleanup "cleanup reasons must be an array")
  end.

(** [cleanup_params], as the condition its SQL states. *)
Definition cleanup_params (scope : string) (reasons older_than : option json) : result (item -> bool) :=
  if negb (elem scope ["pending"; "all"]%string)
  then Err (invalid_cleanup "cleanup scope must be pending or all")
  else
    selected ← cleanup_reasons reasons;
    let base := if decide (scope = "pending") then reviewable_filter else cleanup_filter in
    let by_reason r := match selected with [] => true | _ => elem (it_reason r) selected end in
    match older_than with
    | None => Ok (fun r => base r && by_reason r)
    | Some v =>
        '(cutoff, has_submillisecond) ← _cleanup_cutoff v;
        Ok (fun r => base r && by_reason r
                     && (if has_submillisecond : bool then str_le (it_created_at r) cutoff
                         else str_lt (it_created_at r) cutoff))
    end.

(** ** Cleanup *)

Definition preview_cleanup (scope : string) (reasons older_than : option json) : eff qdb (Z * Z) :=
  where_ ← lift (cleanup_params scope reasons older_than);
  d ← get_state;
  mret (count_where where_ (q_items d), sum_where it_encrypted_bytes where_ (q_items d)).

Definition cleanup_details (scope : string) (reasons older_than : option json) : list (string * json) :=
  [("filter", JDict ([("scope", JStr scope)]
     ++ match reasons with Some (JList (_ :: _) as l) => [("reasons", l)] | _ => [] end
     ++ match older_than with Some v => [("older_than", v)] | None => [] end))].

Definition cleanup (scope : string) (reasons older_than : option json) (expected_count : Z) (at_ : string)
    (actor : option string) : eff qdb (Z * Z) :=
  where_ ← lift (cleanup_params scope reasons older_than);
  transaction (
    d ← get_state;
    let rows := select_where where_ (q_items d) in
    _ ← lift (ensure (Z.of_nat (length rows) =? expected_count)
                (raise_http 409 "quarantine_cleanup_changed" "quarantine cleanup selection changed after preview"));
    _ ← for_each (fun row =>
          _ ← delete_item (it_quarantine_id row);
          insert_event (it_quarantine_id row) "cleanup" at_ (cleanup_details scope reasons older_than) actor) rows;
    mret (Z.of_nat (length rows), foldr Z.add 0 (map it_encrypted_bytes rows))).

(** ** The sweep of expired items *)

(** [ORDER BY key]: a stable sort. *)
Fixpoint insert_on {A} (key : A -> string) (x : A) (l : list A) : list A :=
  match l with
  | [] => [x]
  | y :: l' => if str_le (key x) (key y) then x :: y :: l' else y :: insert_on key x l'
  end.
Definition sort_on {A} (key : A -> string) (l : list A) : list A := foldr (insert_on key) [] l.

(** [_SWEEP_SQL] *)
Definition sweep_rows (t : list item) (at_ : string) : list item :=
  take BATCH_LIMIT (sort_on (fun r => default ""%string (it_expires_at r)) (select_where (fun r => _expired r at_) t)).

Definition sweep_expired (at_ : string) : eff qdb Z := transaction (
  d ← get_state;
  let rows := sweep_rows (q_items d) at_ in
  _ ← for_each (fun row =>
        _ ← delete_item (it_quarantine_id row);
        insert_event (it_quarantine_id row) "cleanup" at_
          [("reason", JStr "expired"); ("expires_at", jopt (it_expires_at row))] None) rows;
  mret (Z.of_nat (length rows))).

(** ** Pruning audit events *)

(** The tables and the rows appended to the export file. *)
Definition prune_state : Type := qdb * list event.

Definition on_tables {A} (m : eff qdb A) : eff prune_state A := fun s => let '(r, d) := m s.1 in (r, (d, s.2)).

(** [DELETE FROM quarantine_events WHERE event_id=?] *)
Definition delete_event (event_id : Z) : eff qdb unit :=
  modify (fun d => mkQdb (q_items d) (delete_where (has_key ev_id event_id) (q_events d)) (q_next_event d)).

(** The oldest events before the cutoff. *)
Definition prune_rows (events : list event) (cutoff : string) : list event :=
  take BATCH_LIMIT (sort_on ev_occurred_at (select_where (fun e => str_lt (ev_occurred_at e) cutoff) events)).

(** One batch; the export file is not part of the transaction. *)
Definition prune_batch (cutoff : string) (export : bool) : eff prune_state nat :=
  s ← get_state;
  let rows := prune_rows (q_events s.1) cutoff in
  _ ← (if export then modify (fun s => (s.1, s.2 ++ rows)) else mret ());
  _ ← on_tables (transaction (for_each (fun e => delete_event (ev_id e)) rows));
  mret (length rows).

Fixpoint prune_loop (fuel : nat) (cutoff : string) (export : bool) (total : Z) : eff prune_state Z :=
  match fuel with
  | O => raise (EOther "out of fuel")
  | S f =>
      n ← prune_batch cutoff export;
      let total := total + Z.of_nat n in
      if (n <? BATCH_LIMIT)%nat then mret total else prune_loop f cutoff export total
  end.

(** [prune_events_before]; the loop runs at most once more than there are
    events. *)
Definition prune_events_before (cutoff at_ : string) (export : bool) : eff prune_state Z :=
  s ← get_state;
  total ← prune_loop (S (length (q_events s.1))) cutoff export 0;
  _ ← (if total =? 0 then mret ()
       else on_tables (transaction (insert_event "quarantine_retention" "retention_pruned" at_
              [("pruned_events", JInt total); ("older_than", JStr cutoff)] None)));
  mret total.

(** A cutoff within a millisecond keeps its truncated boundary. *)
Example cutoff_fraction : _cleanup_cutoff (JStr "2024-01-01t01:00:00.0005+01:00") = Ok ("2024-01-01T00:00:00.000Z"%string, true).
Proof. vm_compute. reflexivity. Qed.
Example cutoff_zone_required : is_ok (_cleanup_cutoff (JStr "2024-01-01T01:00:00")) = false.
Proof. vm_compute. reflexivity. Qed.

(** ** Properties of quarantine maintenance

    Cleanup removes exactly the previewed rows, the sweep only expired ones,
    and pruning ends and removes, and exports, exactly the old events. *)

(** ** Deleting selected rows one by one *)

Definition key_in (ids : list string) (r : item) : bool := elem (it_quarantine_id r) ids.

Lemma delete_where_delete {A} (p q : A -> bool) t : delete_where p (delete_where q t) = delete_where (fun r => q r || p r) t.
Proof.
  unfold delete_where. induction t as [|r t IH]; [done|]. simpl. destruct (q r) eqn:Eq; simpl; [done|].
  destruct (p r); simpl; by rewrite IH.
Qed.

Lemma delete_where_ext {A} (p q : A -> bool) t : (forall r, r ∈ t -> p r = q r) -> delete_where p t = delete_where q t.
Proof.
  intros Hpq. unfold delete_where. apply List.filter_ext_in. intros r Hr. by rewrite Hpq by (by apply list_elem_of_In).
Qed.

Lemma elem_cons_or {A} `{EqDecision A} (x k : A) l : elem x (k :: l) = bool_decide (x = k) || elem x l.
Proof. apply eq_bool_prop_intro. unfold elem. rewrite !orb_True, !bool_decide_spec. set_solver. Qed.

(** The loop of cleanup and of the sweep. *)
Lemma delete_loop_runs (details : item -> list (string * json)) ty at_ actor rows d :
  db_ok d ->
  exists d', for_each (fun row =>
      _ ← delete_item (it_quarantine_id row);
      insert_event (it_quarantine_id row) ty at_ (details row) actor) rows d = (Ok (), d') /\ db_ok d' /\
    q_items d' = delete_where (key_in (map it_quarantine_id rows)) (q_items d) /\
    map (fun e => (ev_quarantine_id e, ev_type e)) (q_events d') =
      map (fun e => (ev_quarantine_id e, ev_type e)) (q_events d) ++ map (fun r => (it_quarantine_id r, ty)) rows.
Proof.
  revert d. induction rows as [|row rows IH]; intros d Hd.
  { exists d. split_and!; try done; [|by rewrite app_nil_r]. unfold delete_where.
    rewrite (List.filter_ext _ (fun _ => true)); [by rewrite List.filter_true|done]. }
  pose proof (delete_item_runs (it_quarantine_id row) d Hd) as Hdel. simpl. rewrite eff_assoc, (bind_ok _ _ _ _ _ Hdel).
  set (d1 := set_items _ d) in *.
  assert (Hd1 : db_ok d1).
  { apply set_items_db_ok; [done|apply unique_delete, Hd|]. pose proof (dok_rows d Hd) as Hrows.
    rewrite list.Forall_forall in *. intros r [Hin _]%delete_where_elem. auto. }
  destruct (insert_event (it_quarantine_id row) ty at_ (details row) actor d1) as [r d2] eqn:E. pose proof E as Erun.
  pose proof (insert_event_db_ok _ _ _ _ _ _ _ _ E Hd1) as Hd2.
  apply insert_event_ok in E as (-> & Hit & e & Hq & Hty & _ & _ & Hev & _).
  destruct (IH d2 Hd2) as (d3 & Hr & Hd3 & Hi3 & He3). exists d3. split_and!; [|done| |].
  - by rewrite (bind_ok _ _ _ _ _ Erun).
  - rewrite Hi3, Hit. unfold d1. simpl. rewrite delete_where_delete. apply delete_where_ext. intros r _.
    unfold key_in, has_key. simpl. by rewrite elem_cons_or.
  - rewrite He3, Hev, map_app, <- app_assoc. simpl. by rewrite Hq, Hty.
Qed.

Lemma keys_of_rows t rows r :
  unique_ok t = true -> (forall r', r' ∈ rows -> r' ∈ t) -> r ∈ t ->
  key_in (map it_quarantine_id rows) r = true <-> r ∈ rows.
Proof.
  intros Hu Hsub Hr. unfold key_in. rewrite elem_true. split.
  - intros Hin. apply list_elem_of_In, List.in_map_iff in Hin as (r' & Hid & Hin). apply list_elem_of_In in Hin.
    by rewrite (keys_unique_inj it_quarantine_id t r r' (unique_keys t Hu) Hr (Hsub r' Hin) (eq_sym Hid)).
  - intros Hin. by apply list_elem_of_In, List.in_map, list_elem_of_In.
Qed.

Lemma delete_selected t p : unique_ok t = true -> delete_where (key_in (map it_quarantine_id (select_where p t))) t = delete_where p t.
Proof.
  intros Hu. apply delete_where_ext. intros r Hr. apply eq_true_iff_eq.
  rewrite (keys_of_rows t) by (done || (intros r' Hr'; exact (proj1 (proj1 (select_where_elem _ _ _) Hr')))).
  rewrite select_where_elem. tauto.
Qed.

Lemma sum_where_select t p : foldr Z.add 0 (map it_encrypted_bytes (select_where p t)) = sum_where it_encrypted_bytes p t.
Proof. unfold sum_where, select_where. induction t as [|r t IH]; [done|]. simpl. destruct (p r); simpl; by rewrite ?IH. Qed.

(** ** Cleanup *)

Lemma cleanup_selects scope reasons older w r :
  cleanup_params scope reasons older = Ok w -> w r = true -> it_status r ∈ REVIEWABLE_STATUSES.
Proof.
  unfold cleanup_params. destruct (negb _); [done|]. intros Hw Hr. apply result_bind_ok in Hw as (sel & _ & Hw).
  assert (Hbase : (if decide (scope = "pending") then reviewable_filter else cleanup_filter) r = true).
  { destruct older as [v|]; [|injection Hw as <-; by split_bool].
    apply result_bind_ok in Hw as ([c b] & _ & Hw). injection Hw as <-. by split_bool. }
  case_decide; [by apply elem_true|]. unfold cleanup_filter in Hbase. apply negb_true_iff, elem_false in Hbase.
  revert Hbase. destruct (it_status r); unfold REVIEWABLE_STATUSES, IN_REVIEW_STATUSES, FINAL_STATUSES; set_solver.
Qed.

Definition cleanup_changed : exn :=
  raise_http 409 "quarantine_cleanup_changed" "quarantine cleanup selection changed after preview".

(** A confirmed cleanup removes exactly what the preview counted. For a
    valid filter, the preview reports the number and the bytes of the selected
    rows; cleanup with that number removes exactly those rows, reports the same
    figures and records one event per row, and with any other number it is
    refused and changes nothing. No filter ever selects a row that is being
    reviewed or has been decided. *)
Lemma cleanup_exact scope reasons older n at_ actor d :
  db_ok d ->
  match cleanup_params scope reasons older with
  | Err e => preview_cleanup scope reasons older d = (Err e, d) /\ cleanup scope reasons older n at_ actor d = (Err e, d)
  | Ok w =>
      let found := (count_where w (q_items d), sum_where it_encrypted_bytes w (q_items d)) in
      (forall r, w r = true -> it_status r ∈ REVIEWABLE_STATUSES) /\
      preview_cleanup scope reasons older d = (Ok found, d) /\
      (n <> found.1 -> cleanup scope reasons older n at_ actor d = (Err cleanup_changed, d)) /\
      (n = found.1 -> exists d', cleanup scope reasons older n at_ actor d = (Ok found, d') /\ db_ok d' /\
         q_items d' = delete_where w (q_items d) /\
         map (fun e => (ev_quarantine_id e, ev_type e)) (q_events d') =
           map (fun e => (ev_quarantine_id e, ev_type e)) (q_events d) ++
           map (fun r => (it_quarantine_id r, "cleanup"%string)) (select_where w (q_items d)))
  end.
Proof.
  intros Hd. unfold preview_cleanup, cleanup. destruct (cleanup_params scope reasons older) as [w|e] eqn:Ew; [|done].
  cbn zeta. split_and!; [intros r; by eapply cleanup_selects|done| |].
  - intros Hne. unfold count_where in Hne. cbn [fst] in Hne. rewrite (bind_ok _ _ d w d) by done.
    unfold transaction, mbind, eff_bind, get_state, lift, ensure. cbn zeta. unfold select_where.
    by rewrite (proj2 (Z.eqb_neq _ _)) by congruence.
  - intros Hn. rewrite (bind_ok _ _ d w d) by done. cbn [fst] in Hn. unfold count_where in Hn.
    destruct (delete_loop_runs (fun _ => cleanup_details scope reasons older) "cleanup" at_ actor (select_where w (q_items d))
      d Hd) as (d' & Hrun & Hd' & Hit & Hev). exists d'. split_and!; [|done|by rewrite Hit, delete_selected by apply Hd|done].
    apply transaction_ok. rewrite (bind_ok _ _ d d d) by done. cbn zeta.
    rewrite (bind_ok _ _ d () d) by (unfold lift, ensure, select_where; by rewrite (proj2 (Z.eqb_eq _ _)) by congruence).
    rewrite (bind_ok _ _ _ _ _ Hrun). by rewrite sum_where_select.
Qed.

(** ** The sweep *)

Lemma insert_on_perm {A} (key : A -> string) x l : insert_on key x l ≡ₚ x :: l.
Proof.
  induction l as [|y l IH]; [done|]. simpl. destruct (str_le _ _); [done|]. rewrite IH. constructor.
Qed.

Lemma sort_on_perm {A} (key : A -> string) l : sort_on key l ≡ₚ l.
Proof. induction l as [|x l IH]; [done|]. simpl. by rewrite insert_on_perm, IH. Qed.

Lemma take_sorted_elem {A} (key : A -> string) n l x : x ∈ take n (sort_on key l) -> x ∈ l.
Proof. intros Hx. rewrite <- (sort_on_perm key l). by eapply subseteq_take. Qed.

Lemma delete_where_length {A} (p : A -> bool) t : (length (delete_where p t) + length (select_where p t) = length t)%nat.
Proof. unfold delete_where, select_where. induction t as [|r t IH]; [done|]. simpl. destruct (p r); simpl; lia. Qed.

Lemma NoDup_items t : unique_ok t = true -> NoDup t.
Proof. intros Hu. by eapply NoDup_fmap_1, unique_keys. Qed.

(** The sweep is safe and complete. It always succeeds, removes only
    expired pending or postponed rows, at most a batch of them, counts them, and
    when it removes less than a full batch no expired row is left. *)
Lemma sweep_exact at_ d :
  db_ok d ->
  exists n d', sweep_expired at_ d = (Ok n, d') /\ db_ok d' /\
    (forall r, r ∈ q_items d' -> r ∈ q_items d) /\
    (forall r, r ∈ q_items d -> r ∈ q_items d' \/ _expired r at_ = true) /\
    Z.of_nat (length (q_items d')) + n = Z.of_nat (length (q_items d)) /\ n <= Z.of_nat BATCH_LIMIT /\
    (n < Z.of_nat BATCH_LIMIT -> forall r, r ∈ q_items d' -> _expired r at_ = false).
Proof.
  intros Hd. set (sel := select_where (fun r => _expired r at_) (q_items d)).
  set (sorted := sort_on (fun r => default ""%string (it_expires_at r)) sel).
  assert (Hperm : sorted ≡ₚ sel) by apply sort_on_perm.
  assert (Hsub : forall r, r ∈ take BATCH_LIMIT sorted -> r ∈ q_items d /\ _expired r at_ = true)
    by (intros r Hr%take_sorted_elem; exact (proj1 (select_where_elem _ _ _) Hr)).
  destruct (delete_loop_runs (fun row => [("reason", JStr "expired"); ("expires_at", jopt (it_expires_at row))]) "cleanup"
    at_ None (take BATCH_LIMIT sorted) d Hd) as (d' & Hrun & Hd' & Hit & _).
  pose proof (keys_of_rows (q_items d) (take BATCH_LIMIT sorted)) as Hkeys.
  assert (Hmem : forall r, r ∈ q_items d' <-> r ∈ q_items d /\ r ∉ take BATCH_LIMIT sorted).
  { intros r. rewrite Hit, delete_where_elem. split; intros [Hr Hk]; (split; [done|]).
    - intros Hin. apply (Hkeys r (dok_unique d Hd) (fun r' H' => proj1 (Hsub r' H')) Hr) in Hin. congruence.
    - apply not_true_iff_false. intros Hk'. by apply (Hkeys r (dok_unique d Hd) (fun r' H' => proj1 (Hsub r' H')) Hr) in Hk'. }
  assert (Hlen : (length (q_items d') + length (take BATCH_LIMIT sorted) = length (q_items d))%nat).
  { rewrite Hit, <- (delete_where_length (key_in (map it_quarantine_id (take BATCH_LIMIT sorted))) (q_items d)). f_equal.
    apply Permutation_length, NoDup_Permutation.
    - eapply sublist_NoDup; [|apply sublist_take]. rewrite Hperm. apply NoDup_ListNoDup, List.NoDup_filter, NoDup_ListNoDup.
      by apply NoDup_items, Hd.
    - apply NoDup_ListNoDup, List.NoDup_filter, NoDup_ListNoDup. by apply NoDup_items, Hd.
    - intros r. rewrite select_where_elem. split; [intros Hr; split; [by apply Hsub|]|intros [Hr Hk]].
      + apply (Hkeys r (dok_unique d Hd) (fun r' H' => proj1 (Hsub r' H'))); [by apply Hsub|done].
      + by apply (Hkeys r (dok_unique d Hd) (fun r' H' => proj1 (Hsub r' H')) Hr). }
  exists (Z.of_nat (length (take BATCH_LIMIT sorted))), d'. split_and!; try done.
  - apply transaction_ok. rewrite (bind_ok _ _ d d d) by done. cbn zeta. by rewrite (bind_ok _ _ _ _ _ Hrun).
  - intros r Hr. by apply Hmem.
  - intros r Hr. destruct (decide (r ∈ take BATCH_LIMIT sorted)); [right; by apply Hsub|left; by apply Hmem].
  - lia.
  - rewrite length_take. lia.
  - rewrite length_take. intros Hlt r Hr. apply Hmem in Hr as [Hr Hnot]. apply not_true_iff_false. intros Hexp. apply Hnot.
    rewrite take_ge by lia. rewrite Hperm. by apply select_where_elem.
Qed.

(** ** Pruning *)

Lemma delete_none {A} (p : A -> bool) l : select_where p l = [] -> delete_where p l = l.
Proof.
  unfold select_where, delete_where. induction l as [|x l IH]; [done|]. simpl. destruct (p x); [done|]. simpl.
  intros Hl. f_equal. auto.
Qed.

Section prune.
Context (cutoff : string) (export : bool).
Definition old (e : event) : bool := str_lt (ev_occurred_at e) cutoff.
Definition event_in (rows : list event) (e : event) : bool := elem (ev_id e) (map ev_id rows).

Lemma delete_events_loop rows d :
  for_each (fun e => delete_event (ev_id e)) rows d =
  (Ok (), mkQdb (q_items d) (delete_where (event_in rows) (q_events d)) (q_next_event d)).
Proof.
  revert d. induction rows as [|e rows IH]; intros d; simpl.
  - destruct d as [its evs n]. simpl. unfold mret, eff_ret. do 2 f_equal. unfold delete_where.
    rewrite (List.filter_ext _ (fun _ => true)); [by rewrite List.filter_true|done].
  - rewrite (bind_ok _ _ d () (mkQdb (q_items d) (delete_where (has_key ev_id (ev_id e)) (q_events d)) (q_next_event d))) by done.
    rewrite IH. simpl. rewrite delete_where_delete. do 2 f_equal. apply delete_where_ext. intros r _.
    unfold event_in, has_key. simpl. by rewrite elem_cons_or.
Qed.

Lemma event_in_rows evs rows e :
  NoDup (map ev_id evs) -> (forall e', e' ∈ rows -> e' ∈ evs) -> e ∈ evs -> event_in rows e = true <-> e ∈ rows.
Proof.
  intros Hnd Hsub He. unfold event_in. rewrite elem_true. split.
  - intros Hin. apply list_elem_of_In, List.in_map_iff in Hin as (e' & Hid & Hin). apply list_elem_of_In in Hin.
    by rewrite (keys_unique_inj ev_id evs e e' Hnd He (Hsub e' Hin) (eq_sym Hid)).
  - intros Hin. by apply list_elem_of_In, List.in_map, list_elem_of_In.
Qed.

Lemma prune_rows_sub evs e : e ∈ prune_rows evs cutoff -> e ∈ evs /\ old e = true.
Proof. intros He%take_sorted_elem. exact (proj1 (select_where_elem _ _ _) He). Qed.

(** What a batch leaves to prune. *)
Lemma prune_rows_split evs :
  NoDup (map ev_id evs) ->
  select_where old evs ≡ₚ prune_rows evs cutoff ++ select_where old (delete_where (event_in (prune_rows evs cutoff)) evs).
Proof.
  intros Hnd. assert (Hevs : NoDup evs) by (by eapply NoDup_fmap_1).
  assert (Hsel : forall p (l : list event), NoDup l -> NoDup (List.filter p l))
    by (intros p l; rewrite !NoDup_ListNoDup; apply List.NoDup_filter).
  pose proof (fun e => event_in_rows evs (prune_rows evs cutoff) e Hnd (fun e' H' => proj1 (prune_rows_sub evs e' H'))) as Hin.
  apply NoDup_Permutation; [by apply Hsel|apply NoDup_app; split_and!|].
  - eapply sublist_NoDup; [|apply sublist_take]. rewrite sort_on_perm. by apply Hsel.
  - intros e He He'. apply select_where_elem in He' as [[He' Hk]%delete_where_elem _].
    apply (Hin e He') in He. congruence.
  - by apply Hsel, Hsel.
  - intros e. rewrite elem_of_app, !select_where_elem, delete_where_elem. split.
    + intros [He Ho]. destruct (event_in (prune_rows evs cutoff) e) eqn:E; [left; by apply Hin|by right].
    + intros [He|[[He _] Ho]]; [by apply prune_rows_sub|done].
Qed.

Lemma prune_batch_runs d f :
  let rows := prune_rows (q_events d) cutoff in
  prune_batch cutoff export (d, f) =
    (Ok (length rows), (mkQdb (q_items d) (delete_where (event_in rows) (q_events d)) (q_next_event d),
                        f ++ (if export then rows else []))).
Proof.
  cbn zeta. unfold prune_batch, mbind, eff_bind, get_state. cbn [fst snd].
  destruct export; unfold modify, mret, eff_ret, on_tables, transaction; cbn [fst snd]; rewrite delete_events_loop; simpl;
    by rewrite ?app_nil_r.
Qed.

Lemma delete_old_rest evs rows :
  (forall e, e ∈ rows -> e ∈ evs /\ old e = true) -> NoDup (map ev_id evs) ->
  delete_where old (delete_where (event_in rows) evs) = delete_where old evs.
Proof.
  intros Hsub Hnd. rewrite delete_where_delete. apply delete_where_ext. intros e He.
  destruct (event_in rows e) eqn:E; [|done]. simpl. symmetry.
  apply (event_in_rows evs rows e Hnd (fun e' H' => proj1 (Hsub e' H')) He) in E. by apply Hsub.
Qed.

Lemma prune_loop_runs fuel total d f :
  NoDup (map ev_id (q_events d)) -> (length (select_where old (q_events d)) < fuel)%nat ->
  exists ex, prune_loop fuel cutoff export total (d, f) =
      (Ok (total + count_where old (q_events d)),
       (mkQdb (q_items d) (delete_where old (q_events d)) (q_next_event d), f ++ if export then ex else [])) /\
    ex ≡ₚ select_where old (q_events d).
Proof.
  revert total d f. induction fuel as [|fuel IH]; intros total d f Hnd Hfuel; [lia|]. cbn [prune_loop].
  rewrite (bind_ok _ _ _ _ _ (prune_batch_runs d f)). cbn zeta.
  set (rows := prune_rows (q_events d) cutoff). set (rest := delete_where (event_in rows) (q_events d)).
  pose proof (prune_rows_split (q_events d) Hnd) as Hsplit. fold rows rest in Hsplit.
  pose proof (delete_old_rest (q_events d) rows (prune_rows_sub _) Hnd) as Hdel. fold rest in Hdel.
  assert (Hcount : count_where old (q_events d) = Z.of_nat (length rows) + count_where old rest).
  { unfold count_where. change (List.filter old (q_events d)) with (select_where old (q_events d)).
    rewrite Hsplit, List.length_app. unfold select_where. lia. }
  assert (Hlen : length (select_where old (q_events d)) = (length rows + length (select_where old rest))%nat)
    by (by rewrite Hsplit, List.length_app).
  destruct (Nat.ltb_spec (length rows) BATCH_LIMIT) as [Hlt|Hge].
  - assert (Hrest : select_where old rest = []).
    { apply length_zero_iff_nil. assert (Hall : length rows = length (select_where old (q_events d))); [|lia].
      unfold rows, prune_rows in *. rewrite length_take in *.
      assert (length (sort_on ev_occurred_at (select_where old (q_events d))) = length (select_where old (q_events d)))
        by (by rewrite sort_on_perm). change (fun e => str_lt (ev_occurred_at e) cutoff) with old in *. lia. }
    exists rows. split; [|by rewrite Hsplit, Hrest, app_nil_r]. unfold mret, eff_ret. rewrite Hcount, <- Hdel.
    assert (Hc0 : count_where old rest = 0) by (unfold count_where; unfold select_where in Hrest; by rewrite Hrest).
    rewrite Hc0, Z.add_0_r. by rewrite (delete_none _ _ Hrest).
  - assert (Hpos : (1 <= length rows)%nat) by (unfold BATCH_LIMIT in Hge; lia).
    destruct (IH (total + Z.of_nat (length rows)) (mkQdb (q_items d) rest (q_next_event d)) (f ++ if export then rows else []))
      as (ex & Hr & Hex); simpl.
    + unfold rest. by apply (keys_unique_delete ev_id).
    + lia.
    + exists (rows ++ ex). rewrite Hr. simpl. split; [|by rewrite Hsplit, Hex].
      rewrite Hcount, Hdel, Z.add_assoc. destruct export; by rewrite <- ?app_assoc, ?app_nil_r.
Qed.
End prune.

(** Pruning ends and is exact. Over any number of batches it removes exactly
    the events before the cutoff and nothing else, reports how many, records one
    retention event when there were any, leaves the items alone, and with an
    export has written every removed event to the file exactly once. *)
Lemma prune_exact cutoff at_ export d f :
  db_ok d ->
  let n := count_where (old cutoff) (q_events d) in
  exists d' ex, prune_events_before cutoff at_ export (d, f) = (Ok n, (d', f ++ if export then ex else [])) /\
    ex ≡ₚ select_where (old cutoff) (q_events d) /\ q_items d' = q_items d /\ db_ok d' /\
    (n = 0 -> q_events d' = q_events d) /\
    (n <> 0 -> exists e, q_events d' = delete_where (old cutoff) (q_events d) ++ [e] /\ ev_type e = "retention_pruned"%string).
Proof.
  intros Hd. cbn zeta. unfold prune_events_before. rewrite (bind_ok _ _ (d, f) (d, f) (d, f)) by done. cbn [fst].
  destruct (prune_loop_runs cutoff export (S (length (q_events d))) 0 d f (dok_events d Hd)) as (ex & Hr & Hex).
  { pose proof (delete_where_length (old cutoff) (q_events d)). lia. }
  rewrite (bind_ok _ _ _ _ _ Hr), Z.add_0_l. set (n := count_where _ _). set (d1 := mkQdb _ _ _) in *.
  assert (Hd1 : db_ok d1).
  { destruct Hd as [H1 H2 H3 H4]. split; try done; simpl.
    - by apply (keys_unique_delete ev_id).
    - rewrite list.Forall_forall in *. intros e [He _]%delete_where_elem. auto. }
  destruct (Z.eqb_spec n 0) as [Hn|Hn].
  - exists d1, ex. split_and!; try done; simpl. intros _. apply delete_none, length_zero_iff_nil. unfold n, count_where in Hn. unfold select_where. lia.
  - destruct (insert_event "quarantine_retention" "retention_pruned" at_ [("pruned_events", JInt n); ("older_than", JStr cutoff)]
      None d1) as [r d2] eqn:E. pose proof (insert_event_db_ok _ _ _ _ _ _ _ _ E Hd1) as Hd2. pose proof E as E'.
    apply insert_event_ok in E as (-> & Hit & e & _ & Hty & _ & _ & Hev & _). exists d2, ex.
    split_and!; [|done|done|done|done|intros _; by exists e].
    rewrite (bind_ok _ _ _ () (d2, f ++ if export then ex else [])); [done|].
    unfold on_tables, transaction. cbn [fst snd]. by rewrite E'.
Qed.

(** ** Examples *)

Lemma cleanup_exact_witness : exists d', cleanup "all" None None 2 Example_review.t1 (Some "ops") Example_review.queue =
  (Ok (2, 2 * slen (json_dumps Example_repository.envelope)), d') /\ q_items d' = [].
Proof.
  pose proof (cleanup_exact "all" None None 2 Example_review.t1 (Some "ops") Example_review.queue Example_review.queue_ok) as H.
  destruct H as (_ & _ & _ & H). destruct H as (d' & Hc & _ & Hi & _); [vm_compute; reflexivity|].
  exists d'. rewrite Hc, Hi. split; vm_compute; reflexivity.
Defined.

(** Both items have expired by March. *)
Lemma sweep_exact_witness : exists n d', sweep_expired "2024-03-01T00:00:00.000Z" Example_review.queue = (Ok n, d') /\
  db_ok d' /\ n <= 1000.
Proof.
  destruct (sweep_exact "2024-03-01T00:00:00.000Z" Example_review.queue Example_review.queue_ok)
    as (n & d' & Hs & Hd & _ & _ & _ & Hn & _).
  exists n, d'. split; [exact Hs|]. split; [exact Hd|exact Hn].
Defined.

Lemma prune_exact_witness : exists d' ex,
  prune_events_before "2024-01-02T00:00:00.000Z" Example_review.t1 true (Example_repository.first, []) = (Ok 1, (d', ex)) /\
  ex = q_events Example_repository.first.
Proof.
  assert (Hd : db_ok Example_repository.first).
  { split; [vm_compute; reflexivity|repeat constructor; vm_compute; congruence| |].
    - vm_compute. apply NoDup_singleton.
    - repeat constructor. }
  destruct (prune_exact "2024-01-02T00:00:00.000Z" Example_review.t1 true Example_repository.first [] Hd)
    as (d' & ex & Hp & Hex & _).
  exists d', ex. split; [exact Hp|].
  assert (Hsel : select_where (old "2024-01-02T00:00:00.000Z") (q_events Example_repository.first)
    = q_events Example_repository.first) by (vm_compute; reflexivity).
  rewrite Hsel in Hex. apply Permutation_singleton_r in Hex. exact Hex.
Defined.
