(* ===== verification/EnvelopeProps.v ===== *)
(** * Properties of quarantine envelopes

    Base64 and the size estimate are exact, and sealing then opening an
    envelope gives back the quarantined object. *)

From Stdlib Require Import ZArith Lia Ascii.
From stdpp Require Import base sets strings numbers list.
From S2P Require Import Prelude Errors Text Sha256 Json JsonParse Repository Envelope.

Local Open Scope Z_scope.

(** ** Base64 *)

(** A property of the sextets, checked on all of them. *)
Lemma sextet_forall (P : Z -> Prop) `{forall n, Decision (P n)} n :
  forallb (fun n => bool_decide (P n)) (seqZ 0 64) = true -> 0 <= n < 64 -> P n.
Proof.
  intros Hall Hn. rewrite List.forallb_forall in Hall. specialize (Hall n). rewrite bool_decide_eq_true in Hall.
  apply Hall, list_elem_of_In, elem_of_seqZ. lia.
Qed.

Lemma b64_value_char n : 0 <= n < 64 -> b64_value (b64_char n) = Some n.
Proof.
  intros Hn. apply (sextet_forall (fun n => b64_value (b64_char n) = Some n)); [vm_compute; reflexivity|done].
Qed.

(** Characters JSON prints as they are. *)
Definition plain (c : ascii) : Prop := escape_char c = [c].

Lemma b64_char_plain n : 0 <= n < 64 -> plain (b64_char n).
Proof.
  intros Hn. apply (sextet_forall (fun n => escape_char (b64_char n) = [b64_char n])); [vm_compute; reflexivity|done].
Qed.

Definition is_byte (z : Z) : Prop := 0 <= z < 256.

Lemma code_of_byte c : is_byte (code_of c).
Proof. unfold is_byte, code_of. pose proof (N_ascii_bounded c). lia. Qed.

Lemma chr_code_of c : chr (code_of c) = c.
Proof. unfold chr, code_of. by rewrite N2Z.id, ascii_N_embedding. Qed.

Lemma codes_are_bytes l : Forall is_byte (map code_of l).
Proof. induction l; constructor; [apply code_of_byte|done]. Qed.

Ltac byte_div :=
  unfold is_byte in *;
  repeat match goal with
  | |- context [?a / ?b] => lazymatch goal with H : a = b * (a / b) + a mod b |- _ => fail | _ =>
      pose proof (Z.div_mod a b ltac:(lia)); pose proof (Z.mod_pos_bound a b ltac:(lia)) end
  | |- context [?a mod ?b] => lazymatch goal with H : a = b * (a / b) + a mod b |- _ => fail | _ =>
      pose proof (Z.div_mod a b ltac:(lia)); pose proof (Z.mod_pos_bound a b ltac:(lia)) end
  end; lia.

Lemma sextets_of_bytes a b c :
  is_byte a -> is_byte b -> is_byte c ->
  (0 <= a / 4 < 64) /\ (0 <= a mod 4 * 16 + b / 16 < 64) /\ (0 <= b mod 16 * 4 + c / 64 < 64) /\ (0 <= c mod 64 < 64).
Proof. intros Ha Hb Hc. split_and!; byte_div. Qed.

Lemma bytes_of_sextets a b c :
  is_byte a -> is_byte b -> is_byte c ->
  a / 4 * 4 + (a mod 4 * 16 + b / 16) / 16 = a /\
  (a mod 4 * 16 + b / 16) mod 16 * 16 + (b mod 16 * 4 + c / 64) / 4 = b /\
  (b mod 16 * 4 + c / 64) mod 4 * 64 + c mod 64 = c.
Proof.
  intros Ha Hb Hc. unfold is_byte in *.
  assert (0 <= b / 16 < 16) by byte_div. assert (0 <= c / 64 < 4) by byte_div.
  rewrite (Z.div_add_l (a mod 4) 16), (Z.add_comm (a mod 4 * 16)), Z_mod_plus_full by lia.
  rewrite (Z.div_add_l (b mod 16) 4), (Z.add_comm (b mod 16 * 4)), Z_mod_plus_full by lia.
  rewrite (Z.div_small (b / 16)), (Z.mod_small (b / 16)), (Z.div_small (c / 64)), (Z.mod_small (c / 64)) by lia.
  split_and!; byte_div.
Qed.

Lemma b64_ungroup_groups l : Forall is_byte l -> b64_ungroup (b64_groups l) = Some l.
Proof.
  induction l as [|a|a b|a b c l IH] using list_ind3; intros Hl; [done|..];
    repeat match goal with H : Forall _ (_ :: _) |- _ => apply Forall_cons in H as [? H] end.
  - destruct (sextets_of_bytes a 0 0) as (S1 & S2 & _); [done|split; lia..|].
    destruct (bytes_of_sextets a 0 0) as (E1 & _); [done|split; lia..|].
    change (0 / 16) with 0 in *. rewrite Z.add_0_r in *.
    cbn [b64_groups b64_ungroup]. rewrite !b64_value_char by done. cbn. by rewrite E1.
  - destruct (sextets_of_bytes a b 0) as (S1 & S2 & S3 & _); [done|done|split; lia|].
    destruct (bytes_of_sextets a b 0) as (E1 & E2 & _); [done|done|split; lia|].
    change (0 / 64) with 0 in *. rewrite Z.add_0_r in *.
    cbn [b64_groups b64_ungroup]. rewrite !b64_value_char by done.
    change (b64_value "=") with (@None Z). rewrite bool_decide_true by done. by rewrite E1, E2.
  - destruct (sextets_of_bytes a b c) as (S1 & S2 & S3 & S4); [done..|].
    destruct (bytes_of_sextets a b c) as (E1 & E2 & E3); [done..|].
    cbn [b64_groups b64_ungroup]. rewrite !b64_value_char by done. rewrite IH by done. simpl. by rewrite E1, E2, E3.
Qed.

Lemma b64_roundtrip s : b64decode (b64encode s) = Some s.
Proof.
  unfold b64decode, b64encode. rewrite chars_of_chars, b64_ungroup_groups by apply codes_are_bytes. simpl. f_equal.
  rewrite List.map_map, (List.map_ext _ (fun c => c)) by apply chr_code_of. by rewrite List.map_id, of_chars_chars.
Qed.

Lemma b64_groups_length l : Z.of_nat (length (b64_groups l)) = _base64_length (Z.of_nat (length l)).
Proof.
  unfold _base64_length. induction l as [|a|a b|a b c l IH] using list_ind3; [done..|].
  cbn [b64_groups length]. rewrite !Nat2Z.inj_succ.
  replace (Z.succ (Z.succ (Z.succ (Z.of_nat (length l)))) + 2) with (Z.of_nat (length l) + 2 + 1 * 3) by lia.
  rewrite Z.div_add by lia. lia.
Qed.

Lemma slen_chars s : slen s = Z.of_nat (length (chars s)).
Proof. unfold slen. by rewrite length_chars. Qed.

Lemma b64encode_length s : slen (b64encode s) = _base64_length (slen s).
Proof.
  rewrite slen_chars. unfold b64encode. rewrite chars_of_chars, b64_groups_length, List.length_map. by rewrite <- slen_chars.
Qed.

Lemma b64_groups_plain l : Forall is_byte l -> Forall plain (b64_groups l).
Proof.
  assert (plain "="%char) by done.
  induction l as [|a|a b|a b c l IH] using list_ind3; intros Hl; [constructor|..];
    repeat match goal with H : Forall _ (_ :: _) |- _ => apply Forall_cons in H as [? H] end.
  - destruct (sextets_of_bytes a 0 0) as (S1 & S2 & _); [done|split; lia..|].
    change (0 / 16) with 0 in *. rewrite Z.add_0_r in *.
    repeat constructor; auto using b64_char_plain.
  - destruct (sextets_of_bytes a b 0) as (S1 & S2 & S3 & _); [done|done|split; lia|].
    change (0 / 64) with 0 in *. rewrite Z.add_0_r in *.
    repeat constructor; auto using b64_char_plain.
  - destruct (sextets_of_bytes a b c) as (S1 & S2 & S3 & S4); [done..|].
    simpl. repeat constructor; auto using b64_char_plain.
Qed.

(** ** Lengths of JSON texts *)

(** [v] prints no longer than [v']. *)
Definition dle (v v' : json) : Prop := slen (json_dumps v) <= slen (json_dumps v').

Lemma concat_plain l : Forall plain l -> concat (map escape_char l) = l.
Proof. induction 1 as [|c l Hc _ IH]; [done|]. simpl. unfold plain in Hc. by rewrite Hc, IH. Qed.

Lemma json_string_plain s : Forall plain (chars s) -> slen (json_string s) = slen s + 2.
Proof.
  intros Hs. unfold json_string. rewrite concat_plain by done.
  rewrite !slen_chars, chars_of_chars. simpl. rewrite List.length_app. simpl. lia.
Qed.

Lemma dle_text s s' : Forall plain (chars s) -> Forall plain (chars s') -> slen s <= slen s' -> dle (JStr s) (JStr s').
Proof. intros H1 H2 Hle. unfold dle. simpl. rewrite !json_string_plain by done. lia. Qed.

Lemma join_le sep l l' : Forall2 (fun s s' => slen s <= slen s') l l' -> slen (str_join sep l) <= slen (str_join sep l').
Proof.
  induction 1 as [|s s' l l' Hs Hl IH]; [done|]. destruct Hl as [|t t' l l' Ht Hl]; [done|].
  cbn [str_join] in *. rewrite !slen_app in *. lia.
Qed.

Definition entry_le (kv kv' : string * json) : Prop := kv.1 = kv'.1 /\ dle kv.2 kv'.2.

Lemma dle_dict d d' : Forall2 entry_le d d' -> dle (JDict d) (JDict d').
Proof.
  intros Hd. unfold dle. simpl. rewrite !slen_app.
  assert (Hj : Forall2 (fun s s' => slen s <= slen s')
    (map (fun kv => (json_string kv.1 +:+ ":" +:+ json_dumps kv.2)%string) d)
    (map (fun kv => (json_string kv.1 +:+ ":" +:+ json_dumps kv.2)%string) d')).
  { induction Hd as [|kv kv' d d' [Hk Hv] _ IH]; [constructor|]. simpl. constructor; [|done].
    rewrite Hk, !slen_app. unfold dle in Hv. lia. }
  apply (join_le ",") in Hj. lia.
Qed.

Lemma entry_le_refl d : Forall2 entry_le d d.
Proof. induction d as [|kv d IH]; constructor; [split; [done|unfold dle; lia]|done]. Qed.

Lemma plain_repeat c n : plain c -> Forall plain (chars (repeat_char c n)).
Proof.
  intros Hc. unfold repeat_char. rewrite chars_of_chars. induction (Z.to_nat n); simpl; constructor; done.
Qed.

Lemma slen_repeat c n : 0 <= n -> slen (repeat_char c n) = n.
Proof. intros Hn. rewrite slen_chars. unfold repeat_char. rewrite chars_of_chars, length_replicate. lia. Qed.

Lemma b64encode_plain s : Forall plain (chars (b64encode s)).
Proof. unfold b64encode. rewrite chars_of_chars. apply b64_groups_plain, codes_are_bytes. Qed.

Lemma hex_plain c : is_hex c = true -> plain c.
Proof. destruct c as [[] [] [] [] [] [] [] []]; vm_compute; congruence. Qed.

Lemma sha256_plain s : Forall plain (chars (sha256_hex s)).
Proof.
  destruct (proj1 (class_match_spec _ _ _ _) (sha256_hex_shape s)) as [Hf _].
  eapply Forall_impl; [exact Hf|]. intros c. apply hex_plain.
Qed.

Lemma sha256_length s : slen (sha256_hex s) = 64.
Proof. destruct (proj1 (class_match_spec _ _ _ _) (sha256_hex_shape s)) as [_ Hl]. lia. Qed.

Lemma base64_length_mono n m : 0 <= n -> n <= m -> 0 <= _base64_length n <= _base64_length m.
Proof.
  intros Hn Hm. unfold _base64_length. assert ((n + 2) / 3 <= (m + 2) / 3) by (apply Z.div_le_mono; lia).
  assert (0 <= (n + 2) / 3) by (apply Z.div_pos; lia). lia.
Qed.

(** ** The finished envelope *)

(** What [attach_ciphertext] makes of [_envelope_metadata]. *)
Definition full_envelope (parsed : list (string * json)) (qid created reason : json)
    (digest wrapped iv key_wrap : string) (provider : option json) (tag text : string) : list (string * json) :=
  [("version", JInt 1); ("quarantine_id", qid); ("created_at", created); ("reason", reason)]
  ++ copy_if_present parsed "writer_id" ++ copy_if_present parsed "source"
  ++ [("sha256", JStr digest);
      ("encryption", JDict (
         [("algorithm", JStr "AES-256-GCM"); ("key_wrap", JStr key_wrap); ("aad", JStr AAD_FORMAT);
          ("wrapped_key_b64", JStr wrapped); ("iv_b64", JStr iv)]
         ++ match provider with Some p => [("provider", p)] | None => [] end ++ [("tag_b64", JStr tag)]))]
  ++ [("ciphertext_b64", JStr text)].

Lemma attach_metadata parsed digest wrapped iv key_wrap provider m tag text :
  _envelope_metadata parsed digest wrapped iv key_wrap provider = Ok m ->
  exists qid created reason,
    dict_get "quarantine_id" parsed = Some qid /\ dict_get "created_at" parsed = Some created /\
    dict_get "reason" parsed = Some reason /\
    attach_ciphertext m tag text =
      Ok (full_envelope parsed qid created reason digest wrapped iv key_wrap provider tag text).
Proof.
  unfold _envelope_metadata, getitem. intros Hm.
  destruct (dict_get "quarantine_id" parsed) as [qid|] eqn:E1; simpl in Hm; [|done].
  destruct (dict_get "created_at" parsed) as [created|] eqn:E2; simpl in Hm; [|done].
  destruct (dict_get "reason" parsed) as [reason|] eqn:E3; simpl in Hm; [|done].
  injection Hm as <-. exists qid, created, reason. split_and!; try done.
  unfold full_envelope, copy_if_present.
  destruct (dict_get "writer_id" parsed), (dict_get "source" parsed), provider; reflexivity.
Qed.

Lemma full_envelope_le parsed qid created reason digest digest' wrapped wrapped' iv iv' key_wrap provider tag tag' text text' :
  dle (JStr digest) (JStr digest') -> dle (JStr wrapped) (JStr wrapped') -> dle (JStr iv) (JStr iv') ->
  dle (JStr tag) (JStr tag') -> dle (JStr text) (JStr text') ->
  dle (JDict (full_envelope parsed qid created reason digest wrapped iv key_wrap provider tag text))
      (JDict (full_envelope parsed qid created reason digest' wrapped' iv' key_wrap provider tag' text')).
Proof.
  intros Hd Hw Hi Ht Hx.
  assert (Hsame : forall k v, entry_le (k, v) (k, v)) by (intros; split; [done|unfold dle; lia]).
  apply dle_dict. unfold full_envelope.
  apply Forall2_app; [apply entry_le_refl|]. apply Forall2_app; [apply entry_le_refl|].
  apply Forall2_app; [apply entry_le_refl|]. apply Forall2_app; [|constructor; [by split|constructor]].
  constructor; [by split|]. constructor; [|constructor]. split; [done|]. apply dle_dict.
  apply Forall2_app; [|apply Forall2_app; [apply entry_le_refl|constructor; [by split|constructor]]].
  do 3 (constructor; [apply Hsame|]). constructor; [by split|]. constructor; [by split|constructor].
Qed.

(** ** The decrypted object *)

(** The entries of a valid decrypted object. *)
Record decrypted := mkDecrypted {
  dq_id : string; dq_created : string; dq_reason : string;
  dq_writer : option string; dq_source : option string; dq_payload : json
}.

Definition optional_entry (key : string) (v : option string) : list (string * json) :=
  match v with Some s => [(key, JStr s)] | None => [] end.

Definition metadata_of (q : decrypted) : list (string * json) :=
  [("quarantine_id", JStr (dq_id q)); ("created_at", JStr (dq_created q)); ("reason", JStr (dq_reason q))]
  ++ optional_entry "writer_id" (dq_writer q) ++ optional_entry "source" (dq_source q).

(** [d] holds the object [q]. *)
Record holds (d : list (string * json)) (q : decrypted) : Prop := {
  h_id : dict_get "quarantine_id" d = Some (JStr (dq_id q));
  h_created : dict_get "created_at" d = Some (JStr (dq_created q));
  h_reason : dict_get "reason" d = Some (JStr (dq_reason q));
  h_writer : dict_get "writer_id" d = JStr <$> dq_writer q;
  h_source : dict_get "source" d = JStr <$> dq_source q;
  h_payload : dict_get "payload" d = Some (dq_payload q)
}.

Definition decrypted_valid (q : decrypted) : Prop :=
  dq_id q <> ""%string /\ dq_created q <> ""%string /\ dq_reason q <> ""%string /\ dq_reason q ∈ _REASONS /\
  dq_writer q <> Some ""%string /\ dq_source q <> Some ""%string.

Lemma text_field_ok d key s : text_field d key = Ok s <-> dict_get key d = Some (JStr s) /\ s <> ""%string.
Proof.
  unfold text_field, value_error. destruct (dict_get key d) as [[]|]; try naive_solver. case_bool_decide; naive_solver.
Qed.

Lemma optional_text_ok d key :
  optional_text d key = Ok () <-> exists v, dict_get key d = JStr <$> v /\ v <> Some ""%string.
Proof.
  unfold optional_text. destruct (dict_get key d) as [v|] eqn:E.
  - destruct (text_field d key) as [s|] eqn:Et; simpl.
    + apply text_field_ok in Et as [Es Hne]. split; [|done]. intros _. exists (Some s). split; [by rewrite <- E, Es|congruence].
    + split; [done|]. intros ([s|] & Hv & Hne); [|done]. exfalso. simplify_eq/=.
      assert (Hok : text_field d key = Ok s) by (apply text_field_ok; split; congruence). by rewrite Hok in Et.
  - split; [|done]. intros _. by exists None.
Qed.

Section decrypted_facts.
Context `{Rfc8785}.

Lemma parse_decrypted_ok v d :
  parse_decrypted v = Ok d <->
  v = JDict d /\ exists q, holds d q /\ decrypted_valid q /\ is_ok (canonical_json (dq_payload q)) = true.
Proof.
  unfold parse_decrypted. split.
  - intros Hp. apply result_bind_ok in Hp as (d0 & Hv & Hp). destruct v; try done. unfold validate_required_fields in Hv.
    apply result_bind_ok in Hv as (i & Hi & Hv). apply result_bind_ok in Hv as (c & Hc & Hv).
    apply result_bind_ok in Hv as (r & Hr & Hv). apply result_bind_ok in Hv as (? & Hin & Hv).
    apply result_bind_ok in Hv as (? & Hpay & Hv). injection Hv as <-.
    apply text_field_ok in Hi as [Hi ?]. apply text_field_ok in Hc as [Hc ?]. apply text_field_ok in Hr as [Hr ?].
    apply ensure_ok, elem_true in Hin. apply ensure_ok, bool_decide_eq_true in Hpay as [p Hpay].
    apply result_bind_ok in Hp as ([] & Hw & Hp). apply result_bind_ok in Hp as ([] & Hs & Hp).
    apply optional_text_ok in Hw as (w & Hw & ?). apply optional_text_ok in Hs as (s & Hs & ?).
    unfold getitem in Hp. rewrite Hpay in Hp. simpl in Hp. apply result_bind_ok in Hp as (t & Ht & Hp). injection Hp as <-.
    split; [done|]. exists (mkDecrypted i c r w s p). split; [by split|]. split; [by split_and!|]. simpl. by rewrite Ht.
  - intros (-> & q & [Hi Hc Hr Hw Hs Hp] & (Hni & Hnc & Hnr & Hin & Hnw & Hns) & Hok). unfold validate_required_fields.
    rewrite (proj2 (text_field_ok d "quarantine_id" _) (conj Hi Hni)), (proj2 (text_field_ok d "created_at" _) (conj Hc Hnc)),
      (proj2 (text_field_ok d "reason" _) (conj Hr Hnr)). simpl. unfold ensure.
    rewrite (proj2 (elem_true _ _) Hin), bool_decide_true by (rewrite Hp; by eexists). simpl.
    rewrite (proj2 (optional_text_ok d "writer_id")), (proj2 (optional_text_ok d "source")) by (by eexists). simpl.
    unfold getitem. rewrite Hp. simpl. by destruct (canonical_json (dq_payload q)).
Qed.

Lemma copy_optional d key v : dict_get key d = JStr <$> v -> copy_if_present d key = optional_entry key v.
Proof. unfold copy_if_present. intros ->. by destruct v. Qed.

Lemma prepare_of d q :
  holds d q -> decrypted_valid q -> is_ok (canonical_json (dq_payload q)) = true ->
  _prepare_decrypted (JDict d) =
    (text ← canonical_json (JDict (metadata_of q ++ [("payload", dq_payload q)])); Ok (mkPrepared text (metadata_of q))).
Proof.
  intros Hh Hv Hok. unfold _prepare_decrypted.
  assert (Hp : parse_decrypted (JDict d) = Ok d) by (apply parse_decrypted_ok; split; [done|by exists q]).
  rewrite Hp. simpl. destruct Hh as [Hi Hc Hr Hw Hs Hp']. unfold getitem. rewrite Hi, Hc, Hr, Hp'. simpl.
  by rewrite (copy_optional _ _ _ Hw), (copy_optional _ _ _ Hs).
Qed.

Lemma prepare_inv v p :
  _prepare_decrypted v = Ok p ->
  exists d q, v = JDict d /\ holds d q /\ decrypted_valid q /\ is_ok (canonical_json (dq_payload q)) = true /\
    pd_metadata p = metadata_of q /\
    canonical_json (JDict (metadata_of q ++ [("payload", dq_payload q)])) = Ok (pd_plaintext p).
Proof.
  intros Hp. pose proof Hp as Hp0. unfold _prepare_decrypted in Hp. apply result_bind_ok in Hp as (d & Hd & _).
  apply parse_decrypted_ok in Hd as (-> & q & Hh & Hv & Hok). rewrite (prepare_of d q Hh Hv Hok) in Hp0.
  apply result_bind_ok in Hp0 as (t & Ht & Hp). injection Hp as <-. exists d, q. split_and!; done.
Qed.
End decrypted_facts.

(** ** Sealing *)

(** The envelope of an object. *)
Definition sealed (q : decrypted) (digest wrapped iv key_wrap : string) (provider : option WrapProviderInfo)
    (tag text : string) : list (string * json) :=
  full_envelope (metadata_of q) (JStr (dq_id q)) (JStr (dq_created q)) (JStr (dq_reason q)) digest wrapped iv key_wrap
    (provider_envelope_metadata provider) tag text.

Lemma sealed_le q dg dg' wk wk' iv iv' kw pr tag tag' text text' :
  dle (JStr dg) (JStr dg') -> dle (JStr wk) (JStr wk') -> dle (JStr iv) (JStr iv') ->
  dle (JStr tag) (JStr tag') -> dle (JStr text) (JStr text') ->
  slen (json_dumps (JDict (sealed q dg wk iv kw pr tag text)))
  <= slen (json_dumps (JDict (sealed q dg' wk' iv' kw pr tag' text'))).
Proof. apply full_envelope_le. Qed.

(** Its encryption record. *)
Definition sealed_encryption (wrapped iv key_wrap : string) (provider : option WrapProviderInfo) (tag : string)
    : list (string * json) :=
  [("algorithm", JStr "AES-256-GCM"); ("key_wrap", JStr key_wrap); ("aad", JStr AAD_FORMAT);
   ("wrapped_key_b64", JStr wrapped); ("iv_b64", JStr iv)]
  ++ match provider_envelope_metadata provider with Some p => [("provider", p)] | None => [] end
  ++ [("tag_b64", JStr tag)].

(** Look up a key of a sealed envelope: the optional entries are cases. *)
Ltac sealed_lookup :=
  match goal with q : decrypted, pr : option WrapProviderInfo |- _ => destruct q as [? ? ? [] [] ?], pr; reflexivity end.

Section sealed_lookups.
Context (q : decrypted) (dg wk iv kw : string) (pr : option WrapProviderInfo) (tag text : string).
Abbreviation env := (sealed q dg wk iv kw pr tag text).
Abbreviation enc := (sealed_encryption wk iv kw pr tag).

Lemma sealed_version : dict_get "version" env = Some (JInt 1). Proof. sealed_lookup. Qed.
Lemma sealed_id : dict_get "quarantine_id" env = Some (JStr (dq_id q)). Proof. sealed_lookup. Qed.
Lemma sealed_created : dict_get "created_at" env = Some (JStr (dq_created q)). Proof. sealed_lookup. Qed.
Lemma sealed_reason : dict_get "reason" env = Some (JStr (dq_reason q)). Proof. sealed_lookup. Qed.
Lemma sealed_writer : dict_get "writer_id" env = JStr <$> dq_writer q. Proof. sealed_lookup. Qed.
Lemma sealed_source : dict_get "source" env = JStr <$> dq_source q. Proof. sealed_lookup. Qed.
Lemma sealed_sha : dict_get "sha256" env = Some (JStr dg). Proof. sealed_lookup. Qed.
Lemma sealed_enc : dict_get "encryption" env = Some (JDict enc). Proof. sealed_lookup. Qed.
Lemma sealed_text : dict_get "ciphertext_b64" env = Some (JStr text). Proof. sealed_lookup. Qed.
End sealed_lookups.

Section encryption_lookups.
Context (wk iv kw : string) (pr : option WrapProviderInfo) (tag : string).
Abbreviation enc := (sealed_encryption wk iv kw pr tag).

Lemma enc_algorithm : dict_get "algorithm" enc = Some (JStr "AES-256-GCM"). Proof. by destruct pr. Qed.
Lemma enc_key_wrap : dict_get "key_wrap" enc = Some (JStr kw). Proof. by destruct pr. Qed.
Lemma enc_aad : dict_get "aad" enc = Some (JStr AAD_FORMAT). Proof. by destruct pr. Qed.
Lemma enc_wrapped : dict_get "wrapped_key_b64" enc = Some (JStr wk). Proof. by destruct pr. Qed.
Lemma enc_iv : dict_get "iv_b64" enc = Some (JStr iv). Proof. by destruct pr. Qed.
Lemma enc_tag : dict_get "tag_b64" enc = Some (JStr tag). Proof. by destruct pr. Qed.
Lemma enc_provider : dict_get "provider" enc = provider_envelope_metadata pr. Proof. by destruct pr. Qed.
End encryption_lookups.
Ltac sealed_rw :=
  rewrite ?sealed_version, ?sealed_id, ?sealed_created, ?sealed_reason, ?sealed_writer, ?sealed_source, ?sealed_sha,
    ?sealed_enc, ?sealed_text, ?enc_algorithm, ?enc_key_wrap, ?enc_aad, ?enc_wrapped, ?enc_iv, ?enc_tag, ?enc_provider.

(** A provider whose envelopes the parser accepts. *)
Definition provider_ok (p : WrapProvider) : Prop :=
  match wp_envelope_provider p with
  | None => wp_key_wrap p = DEFAULT_KEY_WRAP
  | Some i => is_key_wrap_token (wp_key_wrap p) = true /\ is_key_wrap_token (wp_name i) = true /\
              1 <= wp_version i <= _MAX_SAFE_INTEGER
  end.

(** The metadata that is authenticated, whatever the ciphertext. *)
Definition aad_of (q : decrypted) (dg wk iv kw : string) (pr : option WrapProviderInfo) : json :=
  JDict ([("version", JInt 1); ("quarantine_id", JStr (dq_id q)); ("created_at", JStr (dq_created q));
          ("reason", JStr (dq_reason q))]
    ++ optional_entry "writer_id" (dq_writer q) ++ optional_entry "source" (dq_source q)
    ++ [("sha256", JStr dg);
        ("encryption", JDict (
           [("algorithm", JStr "AES-256-GCM"); ("key_wrap", JStr kw); ("aad", JStr AAD_FORMAT);
            ("wrapped_key_b64", JStr wk); ("iv_b64", JStr iv)]
           ++ match provider_envelope_metadata pr with Some p => [("provider", p)] | None => [] end))]).

Lemma aad_safe q dg wk iv p :
  provider_ok p -> _rfc8785_safe (aad_of q dg wk iv (wp_key_wrap p) (wp_envelope_provider p)) = true.
Proof.
  unfold provider_ok, aad_of. destruct (wp_envelope_provider p) as [i|]; simpl.
  - intros (_ & _ & Hv). destruct q as [? ? ? [] [] ?]; simpl; rewrite !andb_true_r;
      apply andb_true_iff; split; apply Z.leb_le; unfold _MAX_SAFE_INTEGER in *; simpl in *; lia.
  - by destruct q as [? ? ? [] [] ?].
Qed.

Section sealing.
Context `{Rfc8785}.

Lemma aad_sealed q dg wk iv kw pr tag text :
  _aad (sealed q dg wk iv kw pr tag text) = canonical_json (aad_of q dg wk iv kw pr).
Proof. destruct q as [? ? ? [] [] ?], pr; reflexivity. Qed.

Lemma metadata_sealed q dg wk iv kw pr :
  exists m, _envelope_metadata (metadata_of q) dg wk iv kw (provider_envelope_metadata pr) = Ok m /\
    _aad m = canonical_json (aad_of q dg wk iv kw pr) /\
    forall tag text, attach_ciphertext m tag text = Ok (sealed q dg wk iv kw pr tag text).
Proof. eexists. split; [reflexivity|]. destruct q as [? ? ? [] [] ?], pr; split; reflexivity. Qed.
End sealing.

Lemma ok_bind {A B} (a : A) (k : A -> result B) : (Ok a ≫= k) = k a.
Proof. done. Qed.

Lemma chars_take_drop n s : (str_take n s +:+ str_drop n s)%string = s.
Proof. unfold str_take, str_drop. rewrite <- of_chars_app, take_drop. apply of_chars_chars. Qed.

Lemma slen_take_drop s :
  16 <= slen s -> let n := (String.length s - 16)%nat in slen (str_take n s) = slen s - 16 /\ slen (str_drop n s) = 16.
Proof.
  intros Hs. cbn zeta. unfold slen in Hs. rewrite !slen_chars. unfold str_take, str_drop. rewrite !chars_of_chars.
  rewrite length_take, length_drop, length_chars. lia.
Qed.

Section envelope_laws.
Context `{Rfc8785, AESGCM}.
(** The tag AES-GCM appends has sixteen bytes. *)
Context (aes_length : forall key iv p aad, slen (aes_encrypt key iv p aad) = slen p + 16).

Lemma create_sealed p q provider key iv env :
  pd_metadata p = metadata_of q -> _create_prepared_provider_envelope p provider key iv = Ok env ->
  exists wrapped aad tag text, wp_wrap provider key = Ok wrapped /\
    canonical_json (aad_of q (sha256_hex (pd_plaintext p)) (b64encode wrapped) (b64encode iv) (wp_key_wrap provider)
      (wp_envelope_provider provider)) = Ok aad /\
    (text +:+ tag)%string = aes_encrypt key iv (pd_plaintext p) (Some aad) /\
    slen tag = 16 /\ slen text = slen (pd_plaintext p) /\
    env = sealed q (sha256_hex (pd_plaintext p)) (b64encode wrapped) (b64encode iv) (wp_key_wrap provider)
            (wp_envelope_provider provider) (b64encode tag) (b64encode text).
Proof.
  intros Hm Hc. unfold _create_prepared_provider_envelope in Hc.
  apply result_bind_ok in Hc as (wrapped & Hw & Hc). rewrite Hm in Hc.
  destruct (metadata_sealed q (sha256_hex (pd_plaintext p)) (b64encode wrapped) (b64encode iv) (wp_key_wrap provider)
    (wp_envelope_provider provider)) as (m & Hmeta & Haad & Hatt).
  rewrite Hmeta, ok_bind in Hc. unfold _seal_envelope in Hc. apply result_bind_ok in Hc as (aad & Ha & Hc).
  rewrite Haad in Ha. cbn zeta in Hc. rewrite Hatt in Hc. injection Hc as <-.
  set (ct := aes_encrypt key iv (pd_plaintext p) (Some aad)).
  assert (Hlen : slen ct = slen (pd_plaintext p) + 16) by apply aes_length.
  destruct (slen_take_drop ct) as [Ht Hd]; [pose proof (slen_nonneg (pd_plaintext p)); lia|].
  exists wrapped, aad, (str_drop (String.length ct - 16) ct), (str_take (String.length ct - 16) ct).
  split_and!; [exact Hw|exact Ha|apply chars_take_drop|exact Hd|lia|reflexivity].
Qed.

Lemma create_runs p q provider key iv wrapped :
  (forall v, _rfc8785_safe v = true -> is_Some (rfc8785_dumps v)) ->
  pd_metadata p = metadata_of q -> provider_ok provider -> wp_wrap provider key = Ok wrapped ->
  exists env, _create_prepared_provider_envelope p provider key iv = Ok env.
Proof.
  intros Htotal Hm Hp Hw. unfold _create_prepared_provider_envelope. rewrite Hw, Hm, ok_bind.
  destruct (metadata_sealed q (sha256_hex (pd_plaintext p)) (b64encode wrapped) (b64encode iv) (wp_key_wrap provider)
    (wp_envelope_provider provider)) as (m & Hmeta & Haad & Hatt).
  rewrite Hmeta, ok_bind. unfold _seal_envelope. rewrite Haad. unfold canonical_json.
  pose proof (aad_safe q (sha256_hex (pd_plaintext p)) (b64encode wrapped) (b64encode iv) provider Hp) as Hsafe.
  rewrite Hsafe. destruct (Htotal _ Hsafe) as [a Ha]. rewrite Ha, ok_bind. cbn zeta. rewrite Hatt. by eexists.
Qed.

Lemma envelope_size value p provider key iv wrapped estimate env :
  _prepare_decrypted value = Ok p ->
  wp_wrap provider key = Ok wrapped -> slen wrapped <= wp_wrapped_key_bytes provider -> slen iv = 12 ->
  _estimate_prepared_envelope_size p (wp_wrapped_key_bytes provider) (wp_key_wrap provider)
    (provider_envelope_metadata (wp_envelope_provider provider)) = Ok estimate ->
  _create_prepared_provider_envelope p provider key iv = Ok env ->
  slen (json_dumps (JDict env)) <= estimate /\
  (slen wrapped = wp_wrapped_key_bytes provider -> slen (json_dumps (JDict env)) = estimate).
Proof.
  intros Hp Hw Hlen Hiv Hest Hc. destruct (prepare_inv value p Hp) as (d & q & _ & _ & _ & _ & Hm & _).
  destruct (create_sealed p q provider key iv env Hm Hc) as (wrapped' & aad & tag & text & Hw' & _ & _ & Htag & Htext & ->).
  rewrite Hw in Hw'. injection Hw' as <-.
  unfold _estimate_prepared_envelope_size in Hest. apply result_bind_ok in Hest as (? & _ & Hest). cbn zeta in Hest.
  rewrite Hm in Hest. destruct (metadata_sealed q (repeat_char "0" 64)
    (repeat_char "A" (_base64_length (wp_wrapped_key_bytes provider))) (repeat_char "A" (_base64_length 12))
    (wp_key_wrap provider) (wp_envelope_provider provider)) as (m & Hmeta & _ & Hatt).
  rewrite Hmeta, ok_bind, Hatt, ok_bind in Hest. injection Hest as <-.
  pose proof (slen_nonneg wrapped). pose proof (slen_nonneg (pd_plaintext p)).
  pose proof (base64_length_mono (slen wrapped) (wp_wrapped_key_bytes provider) ltac:(lia) Hlen).
  pose proof (base64_length_mono (slen (pd_plaintext p)) (slen (pd_plaintext p)) ltac:(lia) ltac:(lia)).
  assert (plain "0"%char /\ plain "A"%char) as [P0 PA] by done.
  assert (_base64_length 12 = 16 /\ _base64_length 16 = 24) as [E12 E16] by done.
  assert (L1 : slen (sha256_hex (pd_plaintext p)) = slen (repeat_char "0" 64)) by (rewrite sha256_length, slen_repeat; lia).
  assert (L2 : slen (b64encode iv) = slen (repeat_char "A" (_base64_length 12)))
    by (rewrite b64encode_length, slen_repeat, Hiv; lia).
  assert (L3 : slen (b64encode tag) = slen (repeat_char "A" (_base64_length 16)))
    by (rewrite b64encode_length, slen_repeat, Htag; lia).
  assert (L4 : slen (b64encode text) = slen (repeat_char "A" (_base64_length (slen (pd_plaintext p)))))
    by (rewrite b64encode_length, slen_repeat, Htext; lia).
  assert (L5 : slen (b64encode wrapped) <= slen (repeat_char "A" (_base64_length (wp_wrapped_key_bytes provider))))
    by (rewrite b64encode_length, slen_repeat; lia).
  split; [|intros Heq; apply Z.le_antisymm].
  - apply sealed_le; (apply dle_text; [by auto using b64encode_plain, sha256_plain|by apply plain_repeat|lia]).
  - apply sealed_le; (apply dle_text; [by auto using b64encode_plain, sha256_plain|by apply plain_repeat|lia]).
  - rewrite b64encode_length, slen_repeat, Heq in L5 by lia.
    assert (L6 : slen (b64encode wrapped) = slen (repeat_char "A" (_base64_length (wp_wrapped_key_bytes provider))))
      by (rewrite b64encode_length, slen_repeat, Heq; lia).
    apply sealed_le; (apply dle_text; [by apply plain_repeat|by auto using b64encode_plain, sha256_plain|lia]).
Qed.

(** The size estimate is sound and tight. An envelope never serializes to
    more bytes than the estimate made from the plaintext alone, when the wrapped
    key is no longer than the provider declares, and to exactly as many when it
    has the declared length: the item-size limit checked before encryption is
    the limit on what is stored. *)
Lemma envelope_size_exact value p provider key iv wrapped estimate env :
  _prepare_decrypted value = Ok p ->
  wp_wrap provider key = Ok wrapped -> slen wrapped <= wp_wrapped_key_bytes provider -> slen iv = 12 ->
  _estimate_prepared_envelope_size p (wp_wrapped_key_bytes provider) (wp_key_wrap provider)
    (provider_envelope_metadata (wp_envelope_provider provider)) = Ok estimate ->
  _create_prepared_provider_envelope p provider key iv = Ok env ->
  slen (json_dumps (JDict env)) <= estimate /\
  (slen wrapped = wp_wrapped_key_bytes provider -> slen (json_dumps (JDict env)) = estimate).
Proof. apply envelope_size. Qed.
Lemma is_text_refl s : is_text (Some (JStr s)) s = true.
Proof. unfold is_text. by rewrite bool_decide_true. Qed.

Lemma sealed_b64 d field s : dict_get field d = Some (JStr (b64encode s)) -> _validate_base64_field d field = Ok s.
Proof. intros Hf. unfold _validate_base64_field, b64_or_error. by rewrite Hf, b64_roundtrip. Qed.

Lemma provider_metadata_ok wk iv p tag :
  provider_ok p ->
  (if bool_decide (is_Some (dict_get "provider" (sealed_encryption wk iv (wp_key_wrap p) (wp_envelope_provider p) tag)))
   then _validate_wrap_provider (sealed_encryption wk iv (wp_key_wrap p) (wp_envelope_provider p) tag)
   else ensure (is_text (dict_get "key_wrap" (sealed_encryption wk iv (wp_key_wrap p) (wp_envelope_provider p) tag))
          DEFAULT_KEY_WRAP) (EValueError "unsupported quarantine key wrapping algorithm")) = Ok ().
Proof.
  unfold provider_ok. intros Hp. sealed_rw. destruct (wp_envelope_provider p) as [i|] eqn:Ei.
  - destruct Hp as (Hk & Hn & Hv). rewrite bool_decide_true by (by eexists).
    unfold _validate_wrap_provider. sealed_rw. rewrite Hk. simpl. rewrite Hn. simpl.
    unfold ensure. by rewrite (proj2 (Z.leb_le _ _)) by lia.
  - rewrite bool_decide_false by (by intros [? ?]). unfold is_text. by rewrite bool_decide_true by (by rewrite Hp).
Qed.

Lemma parse_sealed q dg wrapped iv p tag text :
  provider_ok p -> is_quarantine_id (dq_id q) = true -> dq_reason q ∈ _REASONS -> class_match is_hex 64 64 dg = true ->
  slen iv = 12 -> slen tag = 16 ->
  let env := sealed q dg (b64encode wrapped) (b64encode iv) (wp_key_wrap p) (wp_envelope_provider p) (b64encode tag)
               (b64encode text) in
  parse_envelope (JDict env) = Ok env.
Proof.
  intros Hp Hid Hr Hdg Hiv Htag. cbn zeta. unfold parse_envelope. sealed_rw.
  unfold _validate_encryption_metadata. rewrite (provider_metadata_ok _ _ _ _ Hp). sealed_rw.
  unfold is_text. rewrite bool_decide_true by done. cbn [equals_one ensure]. rewrite !ok_bind, bool_decide_true by done.
  cbn [ensure]. rewrite !ok_bind, Hid. cbn [ensure reason_known]. rewrite !ok_bind, (proj2 (elem_true _ _) Hr). cbn [ensure].
  rewrite ok_bind, Hdg. cbn [ensure]. rewrite ok_bind.
  rewrite (sealed_b64 _ "wrapped_key_b64" wrapped), (sealed_b64 _ "iv_b64" iv), (sealed_b64 _ "tag_b64" tag)
    by (by sealed_rw).
  rewrite !ok_bind, Hiv, Htag. rewrite ?Z.eqb_refl. cbn [ensure]. rewrite !ok_bind.
  rewrite (sealed_b64 _ "ciphertext_b64" text) by (by sealed_rw). done.
Qed.

(** C10: what is quarantined can be recovered. For every valid decrypted object,
    an accepted provider and a 32-byte data key, sealing succeeds, the envelope
    passes its parser, and opening it with that key returns the object that was
    sealed, as the JSON parser reads it back; its canonical form, and so its
    digest, is the one that was quarantined. *)
Theorem envelope_roundtrip value p provider key iv wrapped d' :
  (forall v, _rfc8785_safe v = true -> is_Some (rfc8785_dumps v)) ->
  (forall k i t a, aes_decrypt k i (aes_encrypt k i t a) a = Some t) ->
  _prepare_decrypted value = Ok p -> provider_ok provider -> wp_wrap provider key = Ok wrapped ->
  slen key = 32 -> slen iv = 12 ->
  (forall s, dict_get "quarantine_id" (pd_metadata p) = Some (JStr s) -> is_quarantine_id s = true) ->
  utf8_valid (pd_plaintext p) = true -> json_loads (pd_plaintext p) = Some (JDict d') ->
  (forall f, f <> "payload"%string -> dict_get f d' = dict_get f (pd_metadata p)) ->
  (exists payload', dict_get "payload" d' = Some payload' /\ is_ok (canonical_json payload') = true /\
     canonical_json (JDict (pd_metadata p ++ [("payload", payload')])) = Ok (pd_plaintext p)) ->
  exists env, _create_prepared_provider_envelope p provider key iv = Ok env /\
    parse_envelope (JDict env) = Ok env /\
    decrypt_unwrapped_envelope (JDict env) key = Ok d' /\
    canonical_decrypted (JDict d') = Ok (pd_plaintext p).
Proof.
  intros Htotal Hdec Hp Hprov Hw Hkey Hiv Hqid Hutf Hload Hfields (payload' & Hpay & Hpayok & Hcanon).
  destruct (prepare_inv value p Hp) as (d & q & _ & _ & Hvalid & _ & Hm & _).
  destruct (create_runs p q provider key iv wrapped Htotal Hm Hprov Hw) as [env Henv]. exists env.
  destruct (create_sealed p q provider key iv env Hm Henv) as (wrapped' & aad & tag & text & Hw' & Haad & Hct & Htag & _ & ->).
  rewrite Hw in Hw'. injection Hw' as <-. rewrite Hm in *.
  assert (Hid : is_quarantine_id (dq_id q) = true) by (apply Hqid; by destruct q as [? ? ? [] [] ?]).
  pose proof (parse_sealed q (sha256_hex (pd_plaintext p)) wrapped iv provider tag text Hprov Hid
    ltac:(apply Hvalid) (sha256_hex_shape _) Hiv Htag) as Hparse. cbn zeta in Hparse.
  set (q' := mkDecrypted (dq_id q) (dq_created q) (dq_reason q) (dq_writer q) (dq_source q) payload').
  assert (Hholds : holds d' q').
  { split; rewrite ?Hfields by done; try done; by destruct q as [? ? ? [] [] ?]. }
  assert (Hd' : parse_decrypted (JDict d') = Ok d')
    by (apply parse_decrypted_ok; split; [done|exists q'; by split_and!]).
  split_and!; [done|exact Hparse| |].
  - unfold decrypt_unwrapped_envelope. rewrite Hparse, ok_bind. unfold getitem. sealed_rw. rewrite ok_bind. cbn zeta.
    rewrite Hkey. rewrite ?Z.eqb_refl. cbn [ensure]. rewrite ok_bind.
    rewrite (sealed_b64 _ "ciphertext_b64" text), (sealed_b64 _ "tag_b64" tag), (sealed_b64 _ "iv_b64" iv) by (by sealed_rw).
    rewrite !ok_bind. sealed_rw. rewrite is_text_refl.
    rewrite aad_sealed, Haad, !ok_bind, Hct, Hdec, ok_bind, Hutf. cbn [ensure]. rewrite ok_bind.
    sealed_rw. rewrite is_text_refl. cbn [ensure]. rewrite ok_bind, Hload, ok_bind, Hd', ok_bind.
    assert (Hall : forallb (fun f => bool_decide (field_of d' f = field_of (sealed q (sha256_hex (pd_plaintext p))
      (b64encode wrapped) (b64encode iv) (wp_key_wrap provider) (wp_envelope_provider provider) (b64encode tag)
      (b64encode text)) f)) ["quarantine_id"; "created_at"; "reason"; "writer_id"; "source"]%string = true).
    { destruct Hholds as [H1' H2' H3' H4' H5' _]. cbn [forallb]. unfold field_of. sealed_rw.
      rewrite H1', H2', H3', H4', H5'. unfold q'. simpl. by rewrite !bool_decide_true. }
    by rewrite Hall.
  - unfold canonical_decrypted. rewrite (prepare_of d' q' Hholds Hvalid Hpayok).
    change (metadata_of q') with (metadata_of q). change (dq_payload q') with payload'. by rewrite Hcanon.
Qed.
End envelope_laws.

(** ** Examples *)

Module Example_envelope.
(** A cipher without secrecy, with a constant tag. *)
#[export] Instance cipher : AESGCM := {|
  aes_encrypt _ _ p _ := (p +:+ repeat_char "t" 16)%string;
  aes_decrypt _ _ c _ := Some (str_take (String.length c - 16) c)
|}.

Lemma cipher_length key iv p aad : slen (aes_encrypt key iv p aad) = slen p + 16.
Proof. simpl. rewrite slen_app. done. Qed.

Lemma cipher_decrypt k i t a : aes_decrypt k i (aes_encrypt k i t a) a = Some t.
Proof.
  simpl. f_equal. rewrite <- length_chars, chars_app, List.length_app.
  replace (length (chars t) + length (chars (repeat_char "t" 16)) - 16)%nat with (length (chars t)) by (simpl; lia).
  unfold str_take. rewrite chars_app, take_app_length. apply of_chars_chars.
Qed.

Definition object : json :=
  JDict [("quarantine_id", JStr "q_request20240101_0123456789abcdef"); ("created_at", JStr "2024-01-01T00:00:00.000Z");
         ("reason", JStr "suspicious_content"); ("payload", JDict [("action", JStr "retain")]); ("writer_id", JStr "alice")].

(** The entries in the order of the canonical text used here. *)
Definition entries : list (string * json) :=
  [("quarantine_id", JStr "q_request20240101_0123456789abcdef"); ("created_at", JStr "2024-01-01T00:00:00.000Z");
   ("reason", JStr "suspicious_content"); ("writer_id", JStr "alice"); ("payload", JDict [("action", JStr "retain")])].

#[export] Instance dumps : Rfc8785 := {| rfc8785_dumps v := Some (json_dumps v) |}.

Definition provider : WrapProvider := mkWrapProvider "WRAP-SIDECAR" 40 (Some (mkWrapProviderInfo "https-sidecar" 1))
  (fun key => Ok (str_take 40 key)).
Definition data_key : string := repeat_char "k" 32.

Lemma wrapped_bounded k w : wp_wrap provider k = Ok w -> slen w <= wp_wrapped_key_bytes provider.
Proof.
  intros [= <-]. unfold str_take. rewrite slen_chars, chars_of_chars, length_take. cbn [wp_wrapped_key_bytes provider]. lia.
Qed.

Definition vector : string := repeat_char "i" 12.
Definition prepared : _PreparedDecrypted := mkPrepared (json_dumps (JDict entries)) (take 4 entries).

Lemma object_prepared : _prepare_decrypted object = Ok prepared.
Proof. vm_compute. reflexivity. Qed.

Example sealed_size : (fun env => slen (json_dumps (JDict env))) <$>
    match _create_prepared_provider_envelope prepared provider data_key vector with Ok e => Some e | Err _ => None end
  = Some 749.
Proof. vm_compute. reflexivity. Qed.
End Example_envelope.
Import Example_envelope.

Lemma envelope_size_exact_witness : exists env estimate,
  _create_prepared_provider_envelope prepared provider data_key vector = Ok env /\
  slen (json_dumps (JDict env)) <= estimate.
Proof.
  destruct (_create_prepared_provider_envelope prepared provider data_key vector) as [env|] eqn:Ec;
    [|vm_compute in Ec; discriminate].
  destruct (_estimate_prepared_envelope_size prepared 40 "WRAP-SIDECAR"
    (provider_envelope_metadata (wp_envelope_provider provider))) as [est|] eqn:Ee; [|vm_compute in Ee; discriminate].
  exists env, est. split; [reflexivity|].
  refine (proj1 (envelope_size_exact cipher_length object prepared provider data_key vector data_key est env
    object_prepared _ _ _ Ee Ec)); vm_compute; [reflexivity|congruence|reflexivity].
Defined.

Lemma envelope_roundtrip_witness : exists env,
  _create_prepared_provider_envelope prepared provider data_key vector = Ok env /\
  decrypt_unwrapped_envelope (JDict env) data_key = Ok entries.
Proof.
  destruct (envelope_roundtrip cipher_length object prepared provider data_key vector data_key entries)
    as (env & Hc & _ & Hd & _).
  - intros v _. by eexists.
  - apply cipher_decrypt.
  - apply object_prepared.
  - vm_compute. split; [done|]. split; [done|]. split; congruence.
  - reflexivity.
  - vm_compute; reflexivity.
  - vm_compute; reflexivity.
  - intros s [= <-]. vm_compute; reflexivity.
  - vm_compute; reflexivity.
  - vm_compute; reflexivity.
  - intros f Hf. simpl. repeat case_decide; congruence.
  - exists (JDict [("action", JStr "retain")]). split; [reflexivity|]. split; vm_compute; reflexivity.
  - by exists env.
Defined.
