(* ===== verification/Dedupe.v ===== *)
(** * Deduplication identities

    Models [memory_router/dedupe.py]: the digests under which repeated requests
    and security events are recognised, and the family of a request, which
    forgets case, spacing and the order of tags. Unicode normalisation and
    splitting on white space are operations of the class [UnicodeData]. *)

From Stdlib Require Import ZArith Lia Ascii.
From stdpp Require Import base sets strings numbers list.
From S2P Require Import Prelude Errors Text Sha256 Json.

Local Open Scope Z_scope.

(** [unicodedata.normalize("NFKC", s).strip().casefold()] and [s.split()]. *)
Class UnicodeData := { nfkc_fold : string -> string; py_split : string -> list string }.

Definition ORDER_INSENSITIVE_ARRAY_KEYS : list string := ["document_tags"; "tags"; "types"].

(** The number of code points of a UTF-8 string. *)
Definition code_points (s : string) : Z :=
  Z.of_nat (length (List.filter (fun c => negb (in_range 128 191 c)) (chars s))).

(** [sorted(result, key=canonical_json)]: stable, on keys computed first. *)
Fixpoint insert_keyed (x : string * json) (l : list (string * json)) : list (string * json) :=
  match l with
  | [] => [x]
  | y :: l' => if str_lt x.1 y.1 then x :: y :: l' else y :: insert_keyed x l'
  end.

Definition sort_keyed (l : list (string * json)) : list (string * json) := fold_left (fun acc x => insert_keyed x acc) l [].

(** [[f x for x in l]] where [f] may raise. *)
Fixpoint map_result {A B} (f : A -> result B) (l : list A) : result (list B) :=
  match l with
  | [] => Ok []
  | x :: l' => y ← f x; ys ← map_result f l'; Ok (y :: ys)
  end.

Section dedupe.
Context `{Rfc8785, UnicodeData}.

Definition request_dedupe_key (kind : string) (writer_id target : option string) (payload : json) : result string :=
  text ← canonical_json (JDict [("kind", JStr kind); ("writer_id", jopt writer_id); ("target", jopt target);
                                ("payload", payload)]);
  Ok (sha256_hex text).

Definition security_event_dedupe_key (method path : string) : result string :=
  canonical_json (JDict [("method", JStr method); ("path", JStr path)]).

Definition sort_by_canonical (l : list json) : result (list json) :=
  keyed ← map_result (fun v => k ← canonical_json v; Ok (k, v)) l;
  Ok (map snd (sort_keyed keyed)).

Definition order_insensitive (key : option string) : bool :=
  match key with Some k => elem k ORDER_INSENSITIVE_ARRAY_KEYS | None => false end.

Definition fold_text (s : string) : string := str_join " " (py_split (nfkc_fold s)).

(** [_normalize] *)
Fixpoint _normalize (value : json) (key : option string) : result json :=
  match value with
  | JStr s => Ok (JStr (fold_text s))
  | JList l =>
      r ← (fix go (l : list json) : result (list json) :=
             match l with [] => Ok [] | x :: l' => y ← _normalize x None; ys ← go l'; Ok (y :: ys) end) l;
      if order_insensitive key then s ← sort_by_canonical r; Ok (JList s) else Ok (JList r)
  | JDict d =>
      r ← (fix go (d : list (string * json)) : result (list (string * json)) :=
             match d with
             | [] => Ok []
             | (k, v) :: d' => y ← _normalize v (Some k); ys ← go d'; Ok ((k, y) :: ys)
             end) d;
      Ok (JDict r)
  | v => Ok v
  end.

(** [asdict(TextShape(len(normalized) // 32, tokens // 4))] *)
Definition text_shape (s : string) : json :=
  let normalized := fold_text s in
  let tokens := if bool_decide (normalized = ""%string) then 0 else Z.of_nat (length (py_split normalized)) in
  JDict [("text_length_bucket", JInt (code_points normalized / 32)); ("token_count_bucket", JInt (tokens / 4))].

(** [_shape] *)
Fixpoint _shape (value : json) (key : option string) : result json :=
  match value with
  | JStr s => Ok (text_shape s)
  | JList l =>
      r ← (fix go (l : list json) : result (list json) :=
             match l with [] => Ok [] | x :: l' => y ← _shape x None; ys ← go l'; Ok (y :: ys) end) l;
      if order_insensitive key then s ← sort_by_canonical r; Ok (JList s) else Ok (JList r)
  | JDict d =>
      r ← (fix go (d : list (string * json)) : result (list (string * json)) :=
             match d with
             | [] => Ok []
             | (k, v) :: d' => y ← _shape v (Some k); ys ← go d'; Ok ((k, y) :: ys)
             end) d;
      Ok (JDict r)
  | JNull => Ok (JStr "object")
  | JBool _ => Ok (JStr "boolean")
  | JInt _ | JFloat _ => Ok (JStr "number")
  end.

(** [request_family_identity]: the scope and identity of a request's family. *)
Definition request_family_identity (kind reason : string) (writer_id : option string) (payload : json)
    : result (option (string * string)) :=
  if negb (elem kind ["retain_request"; "recall_request"]%string) then Ok None
  else
    let scope_owner := if decide (reason = "unknown_writer") then "unknown-writer"%string
                       else py_or writer_id "anonymous" in
    norm ← _normalize payload None;
    text ← canonical_json (JDict [("kind", JStr kind); ("reason", JStr reason); ("payload", norm)]);
    shape ← _shape payload None;
    stext ← canonical_json (JDict [("kind", JStr kind); ("reason", JStr reason); ("payload", shape)]);
    Ok (Some ((kind +:+ ":" +:+ reason +:+ ":" +:+ scope_owner)%string,
              sha256_hex (sha256_hex text +:+ ":" +:+ sha256_hex stext)%string)).
End dedupe.
