(* ===== verification/Validation.v ===== *)
(** * Request validation

    Models [memory_router/validation.py] and the request models of
    [memory_router/models.py]: what a retain, recall or reflect body must look
    like, the first error a request gets, and that routing keys are refused.
    A parsed body is the same dictionary: extra keys are kept, unset fields are
    not added, and consumers only look keys up. *)

From Stdlib Require Import ZArith Lia Ascii.
From stdpp Require Import base sets strings numbers list.
From S2P Require Import Prelude Errors Text Json Dedupe.

Local Open Scope Z_scope.

Definition _ROUTING_KEYS : list string := ["bankId"; "bank_id"; "bank_ids"].

Definition _invalid_retain (m : string) : exn := raise_http 400 "invalid_retain_body" m.
Definition _invalid_recall (m : string) : exn := raise_http 400 "invalid_recall_body" m.
Definition _invalid_reflect (m : string) : exn := raise_http 400 "invalid_reflect_body" m.

Definition is_str (v : json) : bool := match v with JStr _ => true | _ => false end.
Definition is_null (v : json) : bool := match v with JNull => true | _ => false end.
Definition str_list (v : json) : bool := match v with JList l => forallb is_str l | _ => false end.
Definition str_map (v : json) : bool := match v with JDict d => forallb (fun kv => is_str kv.2) d | _ => false end.
Definition one_of (options : list string) (v : json) : bool := match v with JStr s => elem s options | _ => false end.

(** A field that is absent or null passes. *)
Definition optional (d : list (string * json)) (key : string) (p : json -> bool) : bool :=
  match dict_get key d with None => true | Some v => is_null v || p v end.

(** A field that may be absent but not null ([reject_explicit_null]). *)
Definition optional_not_null (d : list (string * json)) (key : string) (p : json -> bool) : bool :=
  match dict_get key d with None => true | Some v => p v end.

(** The first check that fails. *)
Fixpoint first_error (checks : list (bool * string)) : option string :=
  match checks with
  | [] => None
  | (ok, m) :: rest => if ok : bool then first_error rest else Some m
  end.

Definition _reject_routing_keys (value : list (string * json)) (label : string) (invalid : string -> exn) : result unit :=
  match str_sort (List.filter (fun k => elem k _ROUTING_KEYS) (map fst value)) with
  | [] => Ok ()
  | rejected =>
      Err (invalid (label +:+ " body must not include routing keys: " +:+ str_join ", " rejected)%string)
  end.

Section validation.
Context `{Rfc8785, UnicodeData}.

(** [bool(value.strip())]: some character is not white space. *)
Definition non_blank (v : json) : bool :=
  match v with JStr s => negb (bool_decide (py_split s = [])) | _ => false end.

(** The checks of [MemoryItem], in the order of its fields. *)
Definition memory_item_checks (index : nat) (d : list (string * json)) : list (bool * string) :=
  let n := str_of_Z (Z.of_nat index) in
  [(match dict_get "content" d with Some v => non_blank v | None => false end,
     ("memory item " +:+ n +:+ " content must be a non-empty string")%string);
   (optional d "context" is_str, "context must be a string or null"%string);
   (optional d "document_id" is_str, "document_id must be a string or null"%string);
   (optional d "metadata" str_map, "metadata must map strings to strings"%string);
   (optional d "tags" str_list, "tags must contain strings"%string);
   (optional d "timestamp" is_str, "timestamp must be a string or null"%string);
   (optional d "update_mode" (one_of ["replace"; "append"]), "update_mode must be replace or append"%string)].

Fixpoint items_error (index : nat) (items : list json) : option string :=
  match items with
  | [] => None
  | v :: rest =>
      match v with
      | JDict d =>
          match first_error (memory_item_checks index d) with
          | Some m => Some m
          | None => items_error (S index) rest
          end
      | _ => Some ("memory item " +:+ str_of_Z (Z.of_nat index) +:+ " must be an object")%string
      end
  end.

(** [RetainBody.model_validate] with [_retain_validation_message]: the message
    of the first error. *)
Definition retain_error (d : list (string * json)) : option string :=
  match dict_get "items" d with
  | Some (JList (v :: l)) =>
      match items_error 0 (v :: l) with
      | Some m => Some m
      | None =>
          first_error
            [(optional_not_null d "async" (fun v => match v with JBool _ => true | _ => false end),
              "async must be a boolean"%string);
             (optional_not_null d "document_tags" str_list, "document_tags must contain strings"%string)]
      end
  | _ => Some "retain body requires at least one memory item"%string
  end.

Definition parse_retain_body (value : json) : result (list (string * json)) :=
  match value with
  | JDict d =>
      _ ← _reject_routing_keys d "retain" _invalid_retain;
      _ ← match canonical_json value with
          | Ok _ => Ok ()
          | Err _ => Err (_invalid_retain "retain body contains an unsupported JSON value")
          end;
      match retain_error d with
      | Some m => Err (_invalid_retain m)
      | None => Ok d
      end
  | _ => Err (_invalid_retain "retain body must be an object")
  end.

(** The checks of [RecallBody], in the order of its fields. *)
Definition recall_checks (label : string) (d : list (string * json)) : list (bool * string) :=
  [(match dict_get "query" d with Some v => non_blank v | None => false end,
     (label +:+ " query must be a non-empty string")%string);
   (optional_not_null d "max_tokens" (fun v => match v with JInt n => 0 <? n | _ => false end),
     "max_tokens must be a positive integer"%string);
   (optional_not_null d "budget" (one_of ["low"; "mid"; "high"]), "budget must be low, mid, or high"%string);
   (optional d "types" str_list, "types must contain strings"%string);
   (optional d "tags" str_list, "tags must contain strings"%string);
   (optional_not_null d "tags_match" is_str, "tags_match must be a string"%string);
   (optional_not_null d "trace" (fun v => match v with JBool _ => true | _ => false end), "trace must be a boolean"%string)].

Definition _parse_recall_like (value : json) (label : string) (invalid : string -> exn) : result (list (string * json)) :=
  match value with
  | JDict d =>
      _ ← _reject_routing_keys d label invalid;
      _ ← match canonical_json value with
          | Ok _ => Ok ()
          | Err _ => Err (invalid (label +:+ " body contains an unsupported JSON value")%string)
          end;
      match first_error (recall_checks label d) with
      | Some m => Err (invalid m)
      | None => Ok d
      end
  | _ => Err (invalid (label +:+ " body must be an object")%string)
  end.

Definition parse_recall_body (value : json) : result (list (string * json)) := _parse_recall_like value "recall" _invalid_recall.
Definition parse_reflect_body (value : json) : result (list (string * json)) := _parse_recall_like value "reflect" _invalid_reflect.
End validation.

(** ** policy.py: the body that is sent upstream *)

Definition router_metadata (writer_id source decision target_bank : string) : list (string * json) :=
  [("router_writer_id", JStr writer_id); ("router_source", JStr source); ("router_decision", JStr decision);
   ("router_target_bank", JStr target_bank)].

(** [dict.update] *)
Definition dict_update (d entries : list (string * json)) : list (string * json) :=
  fold_left (fun acc kv => dict_set kv.1 kv.2 acc) entries d.

Definition prepare_item (writer_id source target_bank decision : string) (v : json) : json :=
  match v with
  | JDict item =>
      let metadata := match dict_get "metadata" item with Some (JDict m) => m | _ => [] end in
      JDict (dict_set "metadata" (JDict (dict_update metadata (router_metadata writer_id source decision target_bank))) item)
  | _ => v
  end.

Definition prepare_retain_body (body : list (string * json)) (writer_id source target_bank decision : string)
    : list (string * json) :=
  match dict_get "items" body with
  | Some (JList items) => dict_set "items" (JList (map (prepare_item writer_id source target_bank decision) items)) body
  | _ => body
  end.

(** ** Request validation: theorems

    The request models as schemas with a typing judgement. Parsing accepts
    exactly the well-typed bodies without routing keys that have a canonical
    form, and the body sent upstream is again well typed. *)

(** ** Schemas *)

(** A field that must be there, that may be absent or null, or that may be
    absent but not null. *)
Inductive presence := Required | Nullable | NotNull.

Inductive schema :=
  | SText
  | SNonBlank
  | SBool
  | SPositive
  | SOneOf (options : list string)
  | SList (s : schema)
  | SNonEmpty (s : schema)
  | SMap (s : schema)
  | SObject (fields : list (string * (presence * schema))).

Section typing.
Context `{Rfc8785, UnicodeData}.

(** Objects may have further fields. *)
Inductive has_type : schema -> json -> Prop :=
  | T_text s : has_type SText (JStr s)
  | T_non_blank s : py_split s <> [] -> has_type SNonBlank (JStr s)
  | T_bool b : has_type SBool (JBool b)
  | T_positive n : 0 < n -> has_type SPositive (JInt n)
  | T_one_of options s : s ∈ options -> has_type (SOneOf options) (JStr s)
  | T_list s l : (forall v, v ∈ l -> has_type s v) -> has_type (SList s) (JList l)
  | T_non_empty s l : l <> [] -> (forall v, v ∈ l -> has_type s v) -> has_type (SNonEmpty s) (JList l)
  | T_map s d : (forall k v, (k, v) ∈ d -> has_type s v) -> has_type (SMap s) (JDict d)
  | T_object fields d :
      (forall k p s, (k, (p, s)) ∈ fields -> dict_get k d = None -> p <> Required) ->
      (forall k p s v, (k, (p, s)) ∈ fields -> dict_get k d = Some v -> (p = Nullable /\ v = JNull) \/ has_type s v) ->
      has_type (SObject fields) (JDict d).

(** The models of [models.py]. *)
Definition MemoryItem : schema := SObject
  [("content", (Required, SNonBlank)); ("context", (Nullable, SText)); ("document_id", (Nullable, SText)); ("metadata", (Nullable, SMap SText));
   ("tags", (Nullable, SList SText)); ("timestamp", (Nullable, SText)); ("update_mode", (Nullable, SOneOf ["replace"; "append"]))]%string.

Definition RetainBody : schema := SObject
  [("items", (Required, SNonEmpty MemoryItem)); ("async", (NotNull, SBool)); ("document_tags", (NotNull, SList SText))]%string.

Definition RecallBody : schema := SObject
  [("query", (Required, SNonBlank)); ("max_tokens", (NotNull, SPositive)); ("budget", (NotNull, SOneOf ["low"; "mid"; "high"]));
   ("types", (Nullable, SList SText)); ("tags", (Nullable, SList SText)); ("tags_match", (NotNull, SText)); ("trace", (NotNull, SBool))]%string.

(** ** The checks decide the judgement *)

(** One field of an object. *)
Definition field_typed (d : list (string * json)) (f : string * (presence * schema)) : Prop :=
  match dict_get f.1 d with
  | None => f.2.1 <> Required
  | Some v => (f.2.1 = Nullable /\ v = JNull) \/ has_type f.2.2 v
  end.

Lemma object_typed fields d : has_type (SObject fields) (JDict d) <-> Forall (field_typed d) fields.
Proof.
  rewrite Forall_forall. split.
  - intros Ht [k [p s]] Hin. inversion Ht as [| | | | | | | |fs d' Hn Hs]; subst. unfold field_typed. simpl.
    destruct (dict_get k d) as [v|] eqn:E; [by eapply Hs|by eapply Hn].
  - intros Hf. constructor.
    + intros k p s Hin E. specialize (Hf _ Hin). unfold field_typed in Hf. simpl in Hf. by rewrite E in Hf.
    + intros k p s v Hin E. specialize (Hf _ Hin). unfold field_typed in Hf. simpl in Hf. by rewrite E in Hf.
Qed.

(** [p] decides the values of the schema [s]. *)
Definition decides (p : json -> bool) (s : schema) : Prop := forall v, p v = true <-> has_type s v.

Lemma decides_text : decides is_str SText.
Proof. intros v. split; [destruct v; try done; constructor|by inversion 1]. Qed.

Lemma decides_bool : decides (fun v => match v with JBool _ => true | _ => false end) SBool.
Proof. intros v. split; [destruct v; try done; constructor|by inversion 1]. Qed.

Lemma decides_positive : decides (fun v => match v with JInt n => 0 <? n | _ => false end) SPositive.
Proof.
  intros v. split.
  - destruct v; try done. intros Hn%Z.ltb_lt. by constructor.
  - inversion 1; subst. by apply Z.ltb_lt.
Qed.

Lemma decides_one_of options : decides (one_of options) (SOneOf options).
Proof.
  intros v. split.
  - destruct v; try done. intros Hs%elem_true. by constructor.
  - inversion 1; subst. by apply elem_true.
Qed.

Lemma decides_non_blank : decides non_blank SNonBlank.
Proof.
  intros v. split.
  - destruct v; try done. simpl. intros Hs%negb_true_iff%bool_decide_eq_false. by constructor.
  - inversion 1; subst. simpl. by apply negb_true_iff, bool_decide_eq_false.
Qed.

Lemma decides_texts : decides str_list (SList SText).
Proof.
  intros v. split.
  - destruct v as [| | | | |l|]; try done. simpl. rewrite List.forallb_forall. intros Hl. constructor.
    intros v Hv. apply decides_text, Hl. by apply list_elem_of_In.
  - inversion 1 as [| | | | |s l Hl| | |]; subst. simpl. apply List.forallb_forall. intros v Hv. apply decides_text, Hl. by apply list_elem_of_In.
Qed.

Lemma decides_map : decides str_map (SMap SText).
Proof.
  intros v. split.
  - destruct v as [| | | | | |d]; try done. simpl. rewrite List.forallb_forall. intros Hd. constructor.
    intros k v Hv. apply decides_text, (Hd (k, v)). by apply list_elem_of_In.
  - inversion 1 as [| | | | | | |s d Hd|]; subst. simpl. apply List.forallb_forall. intros [k v] Hv. apply decides_text, (Hd k).
    by apply list_elem_of_In.
Qed.

Lemma required_typed d k p s : decides p s ->
  (match dict_get k d with Some v => p v | None => false end) = true <-> field_typed d (k, (Required, s)).
Proof. intros Hp. unfold field_typed. simpl. destruct (dict_get k d) as [v|]; [|naive_solver]. rewrite (Hp v). naive_solver. Qed.

Lemma nullable_typed d k p s : decides p s -> optional d k p = true <-> field_typed d (k, (Nullable, s)).
Proof.
  intros Hp. unfold optional, field_typed. simpl. destruct (dict_get k d) as [v|]; [|naive_solver].
  rewrite orb_true_iff, (Hp v). destruct v; naive_solver.
Qed.

Lemma not_null_typed d k p s : decides p s -> optional_not_null d k p = true <-> field_typed d (k, (NotNull, s)).
Proof. intros Hp. unfold optional_not_null, field_typed. simpl. destruct (dict_get k d) as [v|]; [|naive_solver]. rewrite (Hp v). naive_solver. Qed.

Lemma first_error_none checks : first_error checks = None <-> Forall (fun c => c.1 = true) checks.
Proof.
  induction checks as [|[ok m] checks IH]; [split; [constructor|done]|]. simpl. rewrite Forall_cons. simpl.
  destruct ok; [naive_solver|]. split; [done|]. by intros [? _].
Qed.

Create HintDb typing.
Hint Resolve decides_text decides_bool decides_positive decides_one_of decides_non_blank decides_texts decides_map : typing.

Lemma memory_item_typed index d : first_error (memory_item_checks index d) = None <-> has_type MemoryItem (JDict d).
Proof.
  rewrite first_error_none. unfold MemoryItem. rewrite object_typed. unfold memory_item_checks. rewrite !Forall_cons, !Forall_nil. simpl.
  rewrite (required_typed d "content" _ SNonBlank), (nullable_typed d "context" _ SText), (nullable_typed d "document_id" _ SText),
    (nullable_typed d "metadata" _ (SMap SText)), (nullable_typed d "tags" _ (SList SText)), (nullable_typed d "timestamp" _ SText),
    (nullable_typed d "update_mode" _ (SOneOf ["replace"; "append"]%string)) by auto with typing.
  done.
Qed.

Lemma items_typed l : forall index, items_error index l = None <-> forall v, v ∈ l -> has_type MemoryItem v.
Proof.
  induction l as [|v l IH]; intros index; cbn [items_error].
  - split; [|done]. intros _ v Hv. by apply not_elem_of_nil in Hv.
  - assert (Hcons : (forall x, x ∈ v :: l -> has_type MemoryItem x) <-> has_type MemoryItem v /\ forall x, x ∈ l -> has_type MemoryItem x).
    { split; [intros Hx; split; [apply Hx; left|intros x ?; apply Hx; by right]|].
      intros [Hv Hl] x Hx. apply elem_of_cons in Hx as [->|Hx]; auto. }
    rewrite Hcons. destruct v as [| | | | | |d]; try (split; [done|intros [Ht _]; by inversion Ht]).
    destruct (first_error (memory_item_checks index d)) eqn:E.
    + split; [done|]. intros [Ht _]. apply (memory_item_typed index) in Ht. congruence.
    + apply memory_item_typed in E. rewrite (IH (S index)). naive_solver.
Qed.

Lemma retain_typed d : retain_error d = None <-> has_type RetainBody (JDict d).
Proof.
  unfold RetainBody. rewrite object_typed, !Forall_cons, Forall_nil. unfold retain_error.
  rewrite <- (not_null_typed d "async" _ SBool decides_bool), <- (not_null_typed d "document_tags" _ (SList SText) decides_texts).
  unfold field_typed at 1. cbn [fst snd].
  destruct (dict_get "items" d) as [v|]; [|naive_solver].
  assert (Hshape : forall l, v = JList l -> l <> [] -> (items_error 0 l = None <-> has_type (SNonEmpty MemoryItem) v)).
  { intros l -> Hl. rewrite items_typed. split; [by constructor|]. by inversion 1. }
  destruct v as [| | | | |l|]; try (split; [done|intros [[[? ?]|Ht] _]; [done|by inversion Ht]]).
  destruct l as [|x l]; [split; [done|intros [[[? ?]|Ht] _]; [done|by inversion Ht]]|].
  rewrite <- (Hshape (x :: l)) by done. destruct (items_error 0 (x :: l)) eqn:E; [split; [done|by intros [[[? _]|?] _]]|].
  destruct (optional_not_null d "async" _), (optional_not_null d "document_tags" _); naive_solver.
Qed.

Lemma recall_typed label d : first_error (recall_checks label d) = None <-> has_type RecallBody (JDict d).
Proof.
  rewrite first_error_none. unfold RecallBody. rewrite object_typed. unfold recall_checks. rewrite !Forall_cons, !Forall_nil. simpl.
  rewrite (required_typed d "query" _ SNonBlank), (not_null_typed d "max_tokens" _ SPositive),
    (not_null_typed d "budget" _ (SOneOf ["low"; "mid"; "high"]%string)), (nullable_typed d "types" _ (SList SText)),
    (nullable_typed d "tags" _ (SList SText)), (not_null_typed d "tags_match" _ SText), (not_null_typed d "trace" _ SBool) by auto with typing.
  done.
Qed.

(** ** Parsing *)

Definition no_routing_keys (d : list (string * json)) : Prop := forall k, k ∈ map fst d -> k ∉ _ROUTING_KEYS.

Lemma reject_routing_keys_ok d label invalid : is_ok (_reject_routing_keys d label invalid) = true <-> no_routing_keys d.
Proof.
  unfold _reject_routing_keys, no_routing_keys.
  assert (Hnil : str_sort (List.filter (fun k => elem k _ROUTING_KEYS) (map fst d)) = [] <-> forall k, k ∈ map fst d -> k ∉ _ROUTING_KEYS).
  { split.
    - intros Hs k Hk Hr. assert (Hin : k ∈ str_sort (List.filter (fun k => elem k _ROUTING_KEYS) (map fst d))).
      { apply str_sort_elem. apply list_elem_of_In, List.filter_In. split; [by apply list_elem_of_In|by apply elem_true]. }
      rewrite Hs in Hin. by apply not_elem_of_nil in Hin.
    - intros Hk. destruct (str_sort _) as [|k l] eqn:E; [done|]. exfalso. assert (Hin : k ∈ k :: l) by left.
      rewrite <- E in Hin. apply str_sort_elem, list_elem_of_In, List.filter_In in Hin as [Hin Hr].
      apply (Hk k); [by apply list_elem_of_In|by apply elem_true]. }
  rewrite <- Hnil. by destruct (str_sort _).
Qed.

(** The three checks in a row, and the dictionary as it came. *)
Lemma parse_checks (d d' : list (string * json)) (a : result unit) (b : result string) (bad : exn) (err : option string) (invalid : string -> exn) :
  (_ ← a; _ ← match b with Ok _ => Ok () | Err _ => Err bad end; match err with Some m => Err (invalid m) | None => Ok d end) = Ok d' <->
  d = d' /\ is_ok a = true /\ is_ok b = true /\ err = None.
Proof. destruct a as [[]|], b as [t|], err; simpl; naive_solver. Qed.

(** ** What is sent upstream *)

Lemma update_texts d entries :
  has_type (SMap SText) (JDict d) -> (forall k v, (k, v) ∈ entries -> has_type SText v) -> has_type (SMap SText) (JDict (dict_update d entries)).
Proof.
  unfold dict_update. revert d. induction entries as [|[k v] entries IH]; intros d Hd He; [done|]. simpl. apply IH; [|intros; eapply He; by right].
  inversion Hd as [| | | | | | |s d0 Hd'|]; subst. constructor. intros k' v' Hin.
  destruct (dict_set_elem _ _ _ _ _ Hin) as [[= -> ->]|Hin']; [eapply He; by left|by eapply Hd'].
Qed.

Lemma router_metadata_texts writer_id source decision bank k v : (k, v) ∈ router_metadata writer_id source decision bank -> has_type SText v.
Proof. unfold router_metadata. intros Hin. set_unfold in Hin. destruct Hin as [[= _ ->]|[[= _ ->]|[[= _ ->]|[[= _ ->]|[]]]]]; constructor. Qed.

(** A field that is set to a well-typed value keeps the object well typed. *)
Lemma set_field_typed fields d k p s v :
  (forall p' s', (k, (p', s')) ∈ fields -> s' = s) -> (k, (p, s)) ∈ fields -> has_type s v ->
  has_type (SObject fields) (JDict d) -> has_type (SObject fields) (JDict (dict_set k v d)).
Proof.
  intros Huniq Hin Hv Hd. rewrite object_typed, Forall_forall in *. intros [k' [p' s']] Hf. specialize (Hd _ Hf). unfold field_typed in *.
  simpl in *. rewrite dict_get_set. case_decide as Hk; [|done]. subst k'. right. by rewrite (Huniq _ _ Hf).
Qed.

Lemma prepare_item_typed writer_id source bank decision v :
  has_type MemoryItem v -> has_type MemoryItem (prepare_item writer_id source bank decision v).
Proof.
  intros Ht. destruct v as [| | | | | |d]; try (by inversion Ht). cbn [prepare_item]. cbv zeta.
  apply (set_field_typed _ d "metadata" Nullable (SMap SText)); [| | |done].
  - intros p' s' Hin. set_unfold in Hin. naive_solver.
  - set_unfold. naive_solver.
  - apply update_texts; [|apply router_metadata_texts].
    unfold MemoryItem in Ht. rewrite object_typed, Forall_forall in Ht.
    specialize (Ht ("metadata", (Nullable, SMap SText))%string ltac:(set_unfold; naive_solver)). unfold field_typed in Ht. simpl in Ht.
    destruct (dict_get "metadata" d) as [v|]; [|constructor; intros k v Hin; by apply not_elem_of_nil in Hin].
    destruct Ht as [[_ ->]|Ht]; [constructor; intros k v Hin; by apply not_elem_of_nil in Hin|].
    inversion Ht; subst. by constructor.
Qed.

(** The provenance an item carries. *)
Definition carries (writer_id source bank decision : string) (v : json) : Prop :=
  exists d m, v = JDict d /\ dict_get "metadata" d = Some (JDict m) /\ dict_get "router_writer_id" m = Some (JStr writer_id)
  /\ dict_get "router_source" m = Some (JStr source) /\ dict_get "router_decision" m = Some (JStr decision)
  /\ dict_get "router_target_bank" m = Some (JStr bank).

Lemma prepare_item_carries writer_id source bank decision v :
  has_type MemoryItem v -> carries writer_id source bank decision (prepare_item writer_id source bank decision v).
Proof.
  intros Ht. destruct v as [| | | | | |d]; try (by inversion Ht). eexists _, _. split; [reflexivity|].
  split; [by rewrite dict_get_set, decide_True|]. unfold dict_update, router_metadata. simpl. rewrite !dict_get_set.
  by repeat (rewrite decide_True by done || rewrite decide_False by done).
Qed.

(** A retain body is well typed from the request to the memory service.
    Parsing accepts exactly the objects that fit the schema of a retain body, name
    no bank and have a canonical form, and returns them as they are; the body
    prepared for the service fits the schema again, and each of its items, as
    many as before, carries the writer, the source, the decision and the bank the
    router chose, whatever the request claimed about them. *)
Lemma retain_body_typed v d writer_id source bank decision :
  (parse_retain_body v = Ok d <-> v = JDict d /\ has_type RetainBody v /\ no_routing_keys d /\ is_ok (canonical_json v) = true)
  /\ (parse_retain_body v = Ok d ->
      let body := prepare_retain_body d writer_id source bank decision in
      has_type RetainBody (JDict body)
      /\ exists before after, dict_get "items" d = Some (JList before) /\ dict_get "items" body = Some (JList after)
         /\ length after = length before /\ forall x, x ∈ after -> carries writer_id source bank decision x).
Proof.
  assert (Hparse : parse_retain_body v = Ok d <-> v = JDict d /\ has_type RetainBody v /\ no_routing_keys d /\ is_ok (canonical_json v) = true).
  { unfold parse_retain_body. destruct v as [| | | | | |d0]; try (split; [done|by intros [? _]]).
    rewrite parse_checks, reject_routing_keys_ok, retain_typed. naive_solver. }
  split; [exact Hparse|]. intros (-> & Ht & _)%Hparse. cbv zeta.
  pose proof Ht as Hitems. unfold RetainBody in Hitems. rewrite object_typed, Forall_forall in Hitems.
  specialize (Hitems ("items", (Required, SNonEmpty MemoryItem))%string ltac:(by left)). unfold field_typed in Hitems. simpl in Hitems.
  unfold prepare_retain_body. destruct (dict_get "items" d) as [items|] eqn:Ei; [|done]. destruct Hitems as [[? _]|Hitems]; [done|].
  inversion Hitems as [| | | | | |s l Hl Hall| |]; subst. split.
  - apply (set_field_typed _ d "items" Required (SNonEmpty MemoryItem)); [| | |done].
    + intros p' s' Hin. set_unfold in Hin. naive_solver.
    + by left.
    + constructor; [by destruct l|]. intros x Hx. apply list_elem_of_In, List.in_map_iff in Hx as (y & <- & Hy).
      apply prepare_item_typed, Hall. by apply list_elem_of_In.
  - exists l. eexists. split; [done|]. split; [by rewrite dict_get_set, decide_True|]. rewrite length_map. split; [done|].
    intros x Hx. apply list_elem_of_In, List.in_map_iff in Hx as (y & <- & Hy).
    apply prepare_item_carries, Hall. by apply list_elem_of_In.
Qed.
End typing.

(** ** A body *)

Module Example_body.
#[local] Instance dumps : Rfc8785 := {| rfc8785_dumps v := Some (json_dumps v) |}.
#[local] Instance words : UnicodeData := {| nfkc_fold s := s; py_split s := List.filter (fun w => negb (bool_decide (w = ""%string))) (str_split " " s) |}.

(** The second item claims a writer of its own. *)
Definition body : list (string * json) :=
  [("items", JList [JDict [("content", JStr "lunch at noon"); ("metadata", JNull)];
                    JDict [("content", JStr "x"); ("metadata", JDict [("router_writer_id", JStr "root")])]]); ("async", JBool true)].

Example body_parses : parse_retain_body (JDict body) = Ok body.
Proof. vm_compute. reflexivity. Qed.

Example bodies_refused :
  map (fun v => is_ok (parse_retain_body v))
    [JDict [("items", JList [])]; JDict [("items", JList [JDict [("content", JStr " ")]])]; JDict (("bank_id", JStr "b") :: body); JDict (("document_tags", JNull) :: body)]
  = replicate 4 false.
Proof. vm_compute. reflexivity. Qed.

Lemma retain_body_typed_witness :
  exists after, dict_get "items" (prepare_retain_body body "alice" "agent" "team" "allowed") = Some (JList after) /\ length after = 2%nat
  /\ forall x, x ∈ after -> carries "alice" "agent" "team" "allowed" x.
Proof.
  destruct (proj2 (retain_body_typed (JDict body) body "alice" "agent" "team" "allowed") body_parses) as (_ & before & after & Hb & Ha & Hl & Hc).
  injection Hb as <-. exists after. split_and!; [exact Ha|exact Hl|exact Hc].
Defined.
End Example_body.
