(* ===== verification/Limits.v ===== *)
(** * Hindsight request limits

    Models [memory_router/limits.py]: the bounds on retain and recall requests
    and the translation of a rejected rate charge. The limiter is an interface
    ([RateLimiter]) that both implementations of [memory_router/rate_limit.py]
    meet: a consumer, the consumer of a transaction, what entering an identity
    lock does to it and what a rolled-back transaction leaves of its state. *)

From Stdlib Require Import ZArith Lia Ascii.
From stdpp Require Import base sets strings numbers list.
From S2P Require Import Prelude Errors Text Json RateLimit PostgresRateLimit.

Local Open Scope Z_scope.

(** ** The limiter interface *)

Record RateLimitConsumer (L : Type) := mkRateLimitConsumer {
  rc_consume_many_distinct : list Bucket -> list Distinct -> eff L unit
}.
Arguments mkRateLimitConsumer {L}.
Arguments rc_consume_many_distinct {L}.

(** [consume_many(buckets)] is [consume_many_distinct(buckets, [])]. *)
Definition rc_consume_many {L} (c : RateLimitConsumer L) (buckets : list Bucket) : eff L unit :=
  rc_consume_many_distinct c buckets [].

Record RateLimiter (L : Type) := mkRateLimiter {
  rl_consumer : RateLimitConsumer L;
  rl_consumer_for_transaction : RateLimitConsumer L;
  rl_enter_lock : L -> L;
  rl_rolled_back : L -> L -> L
}.
Arguments mkRateLimiter {L}.
Arguments rl_consumer {L}.
Arguments rl_consumer_for_transaction {L}.
Arguments rl_enter_lock {L}.
Arguments rl_rolled_back {L}.

(** The in-memory limiter at a time: it is its own transaction consumer, and a
    database rollback does not touch it. *)
Definition in_memory_limiter (now : Z) : RateLimiter InMemoryRateLimiter :=
  let c := mkRateLimitConsumer (fun bs ds => consume_many_distinct bs ds now) in
  mkRateLimiter c c (fun l => l) (fun _ new => new).

(** The PostgreSQL limiter: in a transaction it charges the transaction's
    tables, and the rollback restores them. *)
Definition in_transaction (m : eff _PostgresSession unit) : eff PostgresRateLimiter unit := fun l =>
  let '(r, s) := m (consumer_for_transaction (pl_database l)) in
  (r, mkPostgresRateLimiter (ses_db s) (pl_consume_count l) (pl_max_window_cache l)).

Definition postgres_limiter (now : Z) : RateLimiter PostgresRateLimiter :=
  mkRateLimiter
    (mkRateLimitConsumer (fun bs ds => pg_consume_many_distinct bs ds now))
    (mkRateLimitConsumer (fun bs ds => in_transaction (session_consume_many_distinct bs ds now)))
    (fun l => mkPostgresRateLimiter (pl_database l) (_next_session l).2 (pl_max_window_cache l))
    (fun old new => mkPostgresRateLimiter (pl_database old) (pl_consume_count new) (pl_max_window_cache new)).

(** ** Bounds *)

Record HindsightLimitConfig := mkHindsightLimitConfig {
  retain_writer_max : Z;
  retain_global_max : Z;
  recall_writer_max : Z;
  recall_global_max : Z;
  rate_limit_window_ms : Z;
  max_retain_items : Z;
  max_retain_content_bytes : Z;
  max_recall_query_bytes : Z;
  max_recall_max_tokens : Z
}.

Definition default_limit_config : HindsightLimitConfig :=
  mkHindsightLimitConfig 30 300 120 1200 60000 100 524288 32768 8192.

(** A retain body as validation leaves it: a dictionary with a list of items. *)
Definition assert_retain_bounds (config : HindsightLimitConfig) (body : json) : result unit :=
  match jget "items" body with
  | Some (JList items) =>
      if max_retain_items config <? Z.of_nat (length items)
      then Err (raise_http 413 "retain_item_limit_exceeded" "retain request contains too many memory items")
      else match _string_value_bytes body with
           | Some n =>
               if max_retain_content_bytes config <? n
               then Err (raise_http 413 "retain_content_too_large" "retain content exceeds the configured byte limit")
               else Ok ()
           | None => Err (EOther "out of fuel")
           end
  | _ => Err (EOther "KeyError")
  end.

Definition assert_recall_bounds (config : HindsightLimitConfig) (body : json) : result unit :=
  match jget "query" body with
  | Some (JStr query) =>
      if max_recall_query_bytes config <? slen query
      then Err (raise_http 413 "recall_query_too_large" "recall query exceeds the configured byte limit")
      else match jget "max_tokens" body with
           | Some (JInt n) =>
               if max_recall_max_tokens config <? n
               then Err (raise_http 413 "recall_max_tokens_exceeded" "recall max_tokens exceeds the configured limit")
               else Ok ()
           | _ => Ok ()
           end
  | _ => Err (EOther "KeyError")
  end.

(** ** Rate charges *)

Section consume.
Context {L : Type} (limiter : RateLimiter L) (config : HindsightLimitConfig).

(** [max(1, (window_ms + 999) // 1000)] *)
Definition retry_after : Z := Z.max 1 ((rate_limit_window_ms config + 999) / 1000).

(** [_consume]: a 429 of the limiter becomes the caller's own 429. *)
Definition _consume (kind writer_id : string) (writer_max global_max : Z) : eff L unit :=
  try_except
    (rc_consume_many (rl_consumer limiter)
       [mkBucket ("hindsight:" +:+ kind +:+ ":writer:" +:+ writer_id)%string writer_max (rate_limit_window_ms config);
        mkBucket ("hindsight:" +:+ kind +:+ ":global")%string global_max (rate_limit_window_ms config)])
    (fun e =>
       match as_http e with
       | Some h =>
           if err_status h =? 429
           then raise (EHttp (rate_limit_error "hindsight_rate_limited" ("too many Hindsight " +:+ kind +:+ " requests")
                  (Some [("retry-after", str_of_Z retry_after)])))
           else raise e
       | None => raise e
       end).

Definition consume_retain (writer_id : string) : eff L unit :=
  _consume "retain" writer_id (retain_writer_max config) (retain_global_max config).

Definition consume_recall (writer_id : string) : eff L unit :=
  _consume "recall" writer_id (recall_writer_max config) (recall_global_max config).
End consume.
