(* ===== verification/QuarantineStore.v ===== *)
(** * Writing to the quarantine

    Models [memory_router/quarantine_store.py]: the identity an input is stored
    under, the size check, the rate charges, encryption, the item that is built
    and [put], which composes them with the repository's [store].

    [put] awaits between its lookup, its charge, the encryption and the locked
    store; other requests run there. What they do to the shared state is the
    argument [interfere], one function per point. Fresh randomness (the data
    key, the vector, the token of an unnamed item) is an argument. *)

From Stdlib Require Import ZArith Lia Ascii.
From stdpp Require Import base sets strings numbers list.
From S2P Require Import Prelude Errors Text Sha256 Json JsonParse Timestamps RateLimit Repository Envelope Dedupe Limits.

Local Open Scope Z_scope.

Definition _DEDUPE_DIGEST_PREFIX_LENGTH : nat := 48.

Definition _deduped_id (prefix key : string) : string :=
  let digest := sha256_hex key in
  ("q_" +:+ prefix +:+ str_take _DEDUPE_DIGEST_PREFIX_LENGTH digest +:+ "_"
   +:+ str_drop _DEDUPE_DIGEST_PREFIX_LENGTH digest)%string.

Record QuarantineLimits := mkQuarantineLimits {
  ql_max_item_bytes : Z;
  ql_max_pending_items : Z;
  ql_max_pending_items_per_writer : Z;
  ql_max_pending_items_per_bank : Z;
  ql_max_encrypted_bytes : Z;
  ql_rate_limit_max : Z;
  ql_rate_limit_window_ms : Z;
  ql_rate_limit_global_max : Z;
  ql_distinct_family_limit_max : Z;
  ql_requarantine_ops_max : Z;
  ql_item_ttl_days : Z
}.

Definition default_quarantine_limits : QuarantineLimits :=
  mkQuarantineLimits 1048576 1000 50 0 104857600 30 60000 300 10 1000 0.

(** The dictionary [put] is called with. *)
Record put_input := mkPutInput {
  in_kind : string;
  in_reason : string;
  in_timestamp : string;
  in_payload : json;
  in_writerId : option string;
  in_source : option string;
  in_sourceBank : option string;
  in_sourceMemoryId : option string;
  in_sourceContentSha256 : option string;
  in_dedupeKey : option string;
  in_bankId : option string
}.

(** [{**input_, "dedupeKey": key}] *)
Definition with_dedupe_key (i : put_input) (key : string) : put_input :=
  mkPutInput (in_kind i) (in_reason i) (in_timestamp i) (in_payload i) (in_writerId i) (in_source i) (in_sourceBank i)
    (in_sourceMemoryId i) (in_sourceContentSha256 i) (Some key) (in_bankId i).

Definition request_kind (kind : string) : bool := elem kind ["retain_request"; "recall_request"]%string.

Definition _effective_writer_limit (limits : QuarantineLimits) : Z :=
  if ql_max_pending_items_per_writer limits <=? 0 then 0
  else Z.min (Z.min (ql_max_pending_items_per_writer limits) (Z.max 0 (ql_max_pending_items limits - 1)))
         (Z.max 0 ((ql_max_encrypted_bytes limits - 1) / ql_max_item_bytes limits)).

(** The [capacity] attribute of a store. *)
Definition store_capacity_of (limits : QuarantineLimits) : Capacity :=
  mkCapacity (ql_max_pending_items limits) (_effective_writer_limit limits) (ql_max_encrypted_bytes limits)
    (ql_max_pending_items_per_bank limits).

Definition _anonymous_auth_failure (i : put_input) : bool :=
  bool_decide (in_kind i = "security_event") && bool_decide (in_reason i = "auth_failed")
  && bool_decide (in_writerId i = None) && bool_decide (in_bankId i = None).

(** [_known_identity] *)
Definition _known_identity (i : put_input) (item_exists : bool) : bool :=
  if truthy (in_dedupeKey i) && elem (in_kind i) ["security_event"; "retain_request"; "recall_request"]%string
  then item_exists
  else if bool_decide (in_kind i = "recalled_memory") && bool_decide (in_sourceBank i <> None)
          && bool_decide (in_sourceMemoryId i <> None)
  then item_exists
  else false.

Definition _assert_writable (i : put_input) (existing : option item) : result unit :=
  match existing with
  | None => Ok ()
  | Some e =>
      if request_kind (in_kind i) && truthy (in_dedupeKey i) && negb (elem (it_status e) REVIEWABLE_STATUSES)
      then Err (raise_http 409 "quarantine_request_in_review" "matching quarantine request is already being reviewed")
      else if bool_decide (it_status e = REVIEW_IN_PROGRESS)
      then Err (raise_http 409 "quarantine_item_in_review" "matching quarantine item is already being reviewed")
      else Ok ()
  end.

Definition _decrypted (i : put_input) (quarantine_id : string) : json :=
  JDict ([("quarantine_id", JStr quarantine_id); ("created_at", JStr (in_timestamp i)); ("reason", JStr (in_reason i));
          ("payload", in_payload i)]
         ++ match in_writerId i with Some w => [("writer_id", JStr w)] | None => [] end
         ++ match in_source i with Some s => [("source", JStr s)] | None => [] end).

(** [encrypted["sha256"]] *)
Definition envelope_sha (encrypted : list (string * json)) : result string :=
  match dict_get "sha256" encrypted with Some (JStr s) => Ok s | _ => Err (EOther "KeyError") end.

Section put.
Context `{Rfc8785, AESGCM, UnicodeData}.
Context (limits : QuarantineLimits) (provider : WrapProvider) (local_offset : Z).

Definition security_event_identity (i : put_input) : result string :=
  text ← canonical_json (JDict
    [("writer_id", jopt (in_writerId i)); ("bank_id", jopt (in_bankId i)); ("source", jopt (in_source i));
     ("reason", JStr (in_reason i)); ("identity", jopt (in_dedupeKey i));
     ("payload", if truthy (in_dedupeKey i) then JNull else in_payload i)]);
  Ok ("security-event:" +:+ sha256_hex text)%string.

(** [_resolve_id]; [token] is [secrets.token_hex(8)]. *)
Definition _resolve_id (i : put_input) (token : string) : result string :=
  let key := default ""%string (in_dedupeKey i) in
  if bool_decide (in_kind i = "security_event") && truthy (in_dedupeKey i) then Ok (_deduped_id "security" key)
  else if request_kind (in_kind i) && truthy (in_dedupeKey i) then Ok (_deduped_id "request" key)
  else
    match bool_decide (in_kind i = "recalled_memory"), in_sourceBank i, in_sourceMemoryId i with
    | true, Some bank, Some memory =>
        text ← canonical_json (JList [JStr bank; JStr memory]); Ok (_deduped_id "memoryv2" text)
    | _, _, _ =>
        let stamp := of_chars (List.filter is_alnum (chars (in_timestamp i))) in
        Ok ("q_" +:+ stamp +:+ "_" +:+ token)%string
    end.

Definition _assert_item_size (i : put_input) (quarantine_id : string) : result _PreparedDecrypted :=
  prepared ← _prepare_decrypted (_decrypted i quarantine_id);
  encrypted_bytes ← _estimate_prepared_envelope_size prepared (wp_wrapped_key_bytes provider) (wp_key_wrap provider)
                      (provider_envelope_metadata (wp_envelope_provider provider));
  if ql_max_item_bytes limits <? encrypted_bytes
  then Err (raise_http 413 "quarantine_item_too_large" "encrypted quarantine item exceeds configured size limit")
  else Ok prepared.

(** [_build_item]; a lifetime that leaves the calendar overflows. *)
Definition _build_item (i : put_input) (quarantine_id : string) (encrypted : list (string * json)) : result item :=
  sha ← envelope_sha encrypted;
  expires_at ←
    (if 0 <? ql_item_ttl_days limits then
       match parse_iso (in_timestamp i) with
       | None => Err (raise_http 400 "invalid_quarantine_timestamp" "quarantine timestamp must be an ISO timestamp")
       | Some created =>
           match iso_format local_offset
                   (mkDatetime (dt_instant created + ql_item_ttl_days limits * us_per_day) (dt_aware created)) with
           | Some s => Ok (Some s)
           | None => Err (EOther "OverflowError")
           end
       end
     else Ok None);
  Ok (mkItem quarantine_id (in_timestamp i) (in_timestamp i) (in_kind i) (in_reason i) (in_writerId i) (in_source i)
        (in_sourceBank i) (in_sourceMemoryId i) (in_sourceContentSha256 i) (in_dedupeKey i) sha
        (Some (JDict encrypted)) 0 PENDING 0 0 expires_at (in_bankId i)).

Context {L : Type} (limiter : RateLimiter L).

(** [_charge] against a consumer. *)
Definition _charge (i : put_input) (known : bool) (session : RateLimitConsumer L) (family : option (string * string))
    : eff L unit :=
  let window := ql_rate_limit_window_ms limits in
  let auth_audit := _anonymous_auth_failure i in
  if known then
    rc_consume_many session
      [mkBucket (if auth_audit then "quarantine-requarantine-ops:auth-audit" else "quarantine-requarantine-ops")
         (ql_requarantine_ops_max limits) window]
  else if ql_rate_limit_max limits <=? 0 then mret ()
  else if auth_audit then
    rc_consume_many session [mkBucket "quarantine-writes:auth-audit" (ql_rate_limit_global_max limits) window]
  else
    let writer := if decide (in_reason i = "unknown_writer") then "unknown-writer"%string
                  else py_or (in_writerId i) "unknown-writer" in
    family ← match family with
             | Some f => mret (Some f)
             | None => lift (request_family_identity (in_kind i) (in_reason i) (in_writerId i) (in_payload i))
             end;
    rc_consume_many_distinct session
      [mkBucket ("quarantine-writes:writer:" +:+ writer)%string (ql_rate_limit_max limits) window;
       mkBucket "quarantine-writes" (ql_rate_limit_global_max limits) window]
      match family with
      | Some f => [mkDistinct ("quarantine-request-family:" +:+ f.1)%string f.2 (ql_distinct_family_limit_max limits) window]
      | None => []
      end.

(** The lookup of [put] and the key it stores under. *)
Definition lookup_existing (t : list item) (i : put_input) (quarantine_id : string) : option item * store_mode :=
  if decide (in_kind i = "recalled_memory") then
    (match in_sourceBank i, in_sourceMemoryId i with
     | Some bank, Some memory => find_memory_state t bank memory
     | _, _ => None
     end, ModeMemory)
  else if request_kind (in_kind i) && truthy (in_dedupeKey i) then
    (match in_dedupeKey i with Some key => find_request_state t key | None => None end, ModeRequest)
  else (get t quarantine_id, ModeId).

Context (interfere : nat -> qdb * L -> qdb * L) (token key iv : string).

(** An await at which other requests run. *)
Definition await (n : nat) : eff (qdb * L) unit := modify (interfere n).

(** [with_identity_lock] *)
Definition identity_lock {A} (operation : eff (qdb * L) A) : eff (qdb * L) A :=
  _ ← on_limiter (modify (rl_enter_lock limiter)); operation.

(** [put] *)
Definition put (input_ : put_input) : eff (qdb * L) (string * string) :=
  i ← (if decide (in_kind input_ = "security_event")
       then key ← lift (security_event_identity input_); mret (with_dedupe_key input_ key) else mret input_);
  quarantine_id ← lift (_resolve_id i token);
  d ← on_db get_state;
  let '(existing_for_charge, mode) := lookup_existing (q_items d) i quarantine_id in
  snapshot ← lift (capture existing_for_charge);
  let quarantine_id := match existing_for_charge with Some e => it_quarantine_id e | None => quarantine_id end in
  prepared ← lift (_assert_item_size i quarantine_id);
  family ← lift (request_family_identity (in_kind i) (in_reason i) (in_writerId i) (in_payload i));
  let known := _known_identity i (bool_decide (is_Some existing_for_charge)) in
  _ ← await 0;
  _ ← on_limiter (_charge i known (rl_consumer limiter) family);
  _ ← lift (_assert_writable i existing_for_charge);
  _ ← await 1;
  encrypted ← lift (_create_prepared_provider_envelope prepared provider key iv);
  item ← lift (_build_item i quarantine_id encrypted);
  identity_lock (
    d ← on_db get_state;
    _ ← lift (_assert_writable i (get (q_items d) quarantine_id));
    let capacity := if _anonymous_auth_failure i
                    then mkCapacity (ql_max_pending_items limits) 0 (ql_max_encrypted_bytes limits) 0
                    else store_capacity_of limits in
    let charge_current_identity (current : option Repository.item) : eff L unit :=
      let current_known := _known_identity i (bool_decide (is_Some current)) in
      if negb (Bool.eqb current_known known)
      then _charge i current_known (rl_consumer_for_transaction limiter) family else mret () in
    _ ← await 2;
    _ ← store (rl_rolled_back limiter) item capacity mode (in_timestamp i) true (Some snapshot)
          (Some (mkAdmissionEvidence (pd_plaintext prepared))) (Some charge_current_identity);
    sha ← lift (envelope_sha encrypted);
    mret (quarantine_id, sha)).
End put.
