(* ===== verification/QuarantineStoreProps.v ===== *)
(** * Properties of quarantine writes

    Stored identities can be addressed by the review interface, a successful
    [put] stores exactly what it was given within the size limit whatever runs
    beside it, and the limit that keeps one writer from filling the queue. *)

From Stdlib Require Import ZArith Lia Ascii.
From stdpp Require Import base sets strings numbers list.
From S2P Require Import Prelude Errors Text Sha256 Json JsonParse Timestamps RateLimit Repository RepositoryProps Envelope EnvelopeProps Dedupe Limits QuarantineStore.

Local Open Scope Z_scope.

(** ** Identities *)

Lemma is_hex_alnum c : is_hex c = true -> is_alnum c = true.
Proof. destruct c as [[] [] [] [] [] [] [] []]; vm_compute; congruence. Qed.

Lemma is_hex_not_underscore l : Forall (fun c => is_hex c = true) l -> "_"%char ∉ l.
Proof. intros Hl Hin. rewrite list.Forall_forall in Hl. by specialize (Hl _ Hin). Qed.

(** The shape [QUARANTINE_ID_RE] accepts. *)
Lemma quarantine_id_of body tail :
  body <> ""%string -> Forall (fun c => is_alnum c = true) (chars body) -> class_match is_hex 16 16 tail = true ->
  is_quarantine_id ("q_" +:+ body +:+ "_" +:+ tail)%string = true.
Proof.
  intros Hne Hb Ht. unfold is_quarantine_id. rewrite starts_with_app, remove_prefix_app.
  destruct (proj1 (class_match_spec _ _ _ _) Ht) as [Hhex _].
  rewrite (proj2 (rpartition_some "_"%char _ body tail)) by (split; [done|by apply is_hex_not_underscore]).
  rewrite bool_decide_true, Ht, andb_true_r by done. simpl.
  rewrite List.forallb_forall. rewrite list.Forall_forall in Hb. intros c Hc. apply Hb. by apply list_elem_of_In.
Qed.

Lemma append_assoc a b c : (a +:+ (b +:+ c) = (a +:+ b) +:+ c)%string.
Proof. apply chars_inj. by rewrite !chars_app, app_assoc. Qed.

Lemma deduped_id_shape prefix key :
  prefix <> ""%string -> Forall (fun c => is_alnum c = true) (chars prefix) -> is_quarantine_id (_deduped_id prefix key) = true.
Proof.
  intros Hne Hp. unfold _deduped_id. destruct (proj1 (class_match_spec _ _ _ _) (sha256_hex_shape key)) as [Hhex Hlen].
  set (dg := sha256_hex key) in *. rewrite slen_chars in Hlen. cbn zeta.
  rewrite (append_assoc prefix). apply quarantine_id_of.
  - by destruct prefix.
  - rewrite chars_app. apply Forall_app. split; [done|]. unfold str_take. rewrite chars_of_chars.
    apply Forall_take. eapply Forall_impl; [exact Hhex|]. intros c. apply is_hex_alnum.
  - apply class_match_spec. unfold str_drop. rewrite slen_chars, chars_of_chars, length_drop. split; [by apply Forall_drop|].
    unfold _DEDUPE_DIGEST_PREFIX_LENGTH. lia.
Qed.

(** Every identity [put] chooses can be reviewed. Whatever the kind and the
    keys of an input, the identity derived for it has the form the review
    interface accepts, given sixteen hexadecimal digits of randomness and a
    timestamp with at least one letter or digit; identities derived from a key
    are the same for the same key. *)
Lemma resolved_id_reviewable `{Rfc8785} i token id :
  class_match is_hex 16 16 token = true -> existsb is_alnum (chars (in_timestamp i)) = true ->
  _resolve_id i token = Ok id ->
  is_quarantine_id id = true /\
  (request_kind (in_kind i) = true -> truthy (in_dedupeKey i) = true -> forall token', _resolve_id i token' = Ok id).
Proof.
  intros Ht Hs Hr. unfold _resolve_id in *. cbn zeta in *.
  assert (Hstamp : is_quarantine_id ("q_" +:+ of_chars (List.filter is_alnum (chars (in_timestamp i))) +:+ "_" +:+ token)%string = true).
  { apply quarantine_id_of; [|rewrite chars_of_chars|done].
    - intros He. apply (f_equal chars) in He. rewrite chars_of_chars in He. apply existsb_exists in Hs as (c & Hin & Hc).
      assert (Hf : In c (List.filter is_alnum (chars (in_timestamp i)))) by (by apply List.filter_In). by rewrite He in Hf.
    - rewrite list.Forall_forall. intros c Hc. apply list_elem_of_In, List.filter_In in Hc. tauto. }
  assert (Hd : forall p k, p ∈ ["security"; "request"; "memoryv2"]%string -> is_quarantine_id (_deduped_id p k) = true).
  { intros p k Hp. apply deduped_id_shape; set_unfold in Hp; destruct Hp as [->|[->|[->|[]]]]; try done;
      repeat constructor. }
  destruct (bool_decide (in_kind i = "security_event") && _) eqn:E1.
  { injection Hr as <-. split; [apply Hd; by left|]. split_bool. unfold request_kind. intros Hk.
    rewrite H0 in Hk. by vm_compute in Hk. }
  destruct (request_kind (in_kind i) && _) eqn:E2.
  { injection Hr as <-. split; [apply Hd; by right; left|]. done. }
  split.
  - destruct (bool_decide (in_kind i = "recalled_memory")); [|by injection Hr as <-]. destruct (in_sourceBank i); [|by injection Hr as <-].
    destruct (in_sourceMemoryId i); [|by injection Hr as <-]. apply result_bind_ok in Hr as (t & _ & Hr).
    injection Hr as <-. apply Hd. by right; right; left.
  - intros Hk Hkey. by rewrite Hk, Hkey in E2.
Qed.

(** ** What a successful write did *)

Lemma build_item_ok limits lo i qid envl it :
  _build_item limits lo i qid envl = Ok it ->
  it_quarantine_id it = qid /\ envelope_sha envl = Ok (it_sha256 it) /\ it_encrypted it = Some (JDict envl) /\
  item_fresh it /\ it_source_bank it = in_sourceBank i /\ it_source_memory_id it = in_sourceMemoryId i /\
  it_dedupe_key it = in_dedupeKey i.
Proof.
  unfold _build_item. intros Hb. apply result_bind_ok in Hb as (sha & Hs & Hb).
  apply result_bind_ok in Hb as (ex & _ & Hb). injection Hb as <-. simpl. split_and!; try done.
Qed.

(** The final status a request may be stored over is guarded. *)
Lemma guard_snapshot `{Rfc8785} it e mode snap ev v :
  store_guard it (Some e) mode true (Some snap) ev = Ok v ->
  capture (Some e) = Ok snap \/ it_quarantine_id it = it_quarantine_id e.
Proof.
  unfold store_guard. destruct (true && _ && _); [done|]. destruct (elem _ IN_REVIEW_STATUSES); [done|]. intros Hg.
  apply result_bind_ok in Hg as (s' & Hs & Hg). destruct (negb _ && negb _) eqn:E; [done|].
  apply andb_false_iff in E as [E|E]; apply negb_false_iff in E.
  - left. apply bool_decide_eq_true in E. by subst.
  - right. unfold _same_evidence in E. by split_bool.
Qed.

(** Rows of other identities are not touched. *)
Lemma rows_after_other t it existing mode at_ r :
  it_quarantine_id r <> match existing with Some e => it_quarantine_id e | None => it_quarantine_id it end -> r ∈ rows_after t it existing mode at_ <-> r ∈ t.
Proof.
  intros Hne. unfold rows_after. destruct existing as [e|].
  - destruct (row_write it e mode at_) as [f|] eqn:Ef; [|done]. rewrite update_where_elem. split.
    + intros (r0 & Hin & ->). destruct (has_key _ _ r0) eqn:Ek; [|done]. exfalso. apply Hne. apply (proj1 (has_key_true _ _ _)) in Ek.
      destruct (row_write_fields _ _ _ _ _ r0 Ef) as (Hid & _). congruence.
    + intros Hin. exists r. split; [done|]. by rewrite (proj2 (has_key_false _ _ _)).
  - rewrite elem_of_app, list_elem_of_singleton. split; [intros [?| ->]; [done|by destruct Hne]|by left].
Qed.

(** A successful write leaves the item's envelope in its row. *)
Lemma write_item_row it existing mode at_ d u d' :
  unique_ok (q_items d) = true -> (forall e, existing = Some e -> e ∈ q_items d) ->
  (forall e, existing = Some e -> mode = ModeRequest -> it_status e ∈ REVIEWABLE_STATUSES) ->
  write_item it existing mode at_ d = (Ok u, d') ->
  exists row, row ∈ q_items d' /\ it_encrypted row = it_encrypted it /\ it_sha256 row = it_sha256 it /\
    it_quarantine_id row = match existing with Some e => it_quarantine_id e | None => it_quarantine_id it end /\
    (forall r, it_quarantine_id r <> it_quarantine_id row -> r ∈ q_items d' <-> r ∈ q_items d).
Proof.
  intros Hu Hin Hreq Hw. apply write_item_rows in Hw as [Hrows _].
  enough (exists row, row ∈ q_items d' /\ it_encrypted row = it_encrypted it /\ it_sha256 row = it_sha256 it /\
    it_quarantine_id row = match existing with Some e => it_quarantine_id e | None => it_quarantine_id it end) as (row & Hrow & He & Hs & Hid).
  { exists row. split_and!; try done. intros r Hne. rewrite Hrows. apply rows_after_other. congruence. }
  destruct existing as [e|]; simpl in Hrows.
  - destruct (row_write it e mode at_) as [f|] eqn:Ef.
    + exists (f e). destruct (row_write_fields _ _ _ _ _ e Ef) as (H1 & H2 & _). split_and!; try done.
      * rewrite Hrows. apply update_where_elem. exists e. split; [by apply Hin|]. by rewrite (proj2 (has_key_true _ _ _)).
      * unfold row_write in Ef. repeat case_match; by simplify_eq.
    + exfalso. unfold row_write in Ef. destruct (_expired e at_); [done|]. destruct (_ && _) eqn:E.
      * split_bool. specialize (Hreq e eq_refl H). apply elem_true in Hreq. congruence.
      * by destruct (bool_decide (mode = ModeMemory) && _).
  - exists (_params it). split_and!; try done. rewrite Hrows. apply elem_of_app. right. by left.
Qed.

Section put_facts.
Context `{Rfc8785, AESGCM, UnicodeData}.
Context (limits : QuarantineLimits) (provider : WrapProvider) (lo : Z) {L : Type} (limiter : RateLimiter L).
Context (interfere : nat -> qdb * L -> qdb * L) (token key iv : string).
Context (keeps : forall n s, db_ok s.1 -> db_ok (interfere n s).1).

Lemma on_limiter_fst {A} (m : eff L A) s r s' : on_limiter m s = (r, s') -> s'.1 = s.1.
Proof. unfold on_limiter. destruct (m s.2). by intros [= _ <-]. Qed.

(** The parts of a successful [put]. *)
Record put_run (input_ : put_input) (d : qdb) (qid sha : string) (d' : qdb) : Type := {
  pr_i : put_input;
  pr_existing : option item;
  pr_mode : store_mode;
  pr_snapshot : AdmissionSnapshot;
  pr_prepared : _PreparedDecrypted;
  pr_envelope : list (string * json);
  pr_item : item;
  pr_ds : qdb;
  pr_decrypted : _decrypted pr_i qid = _decrypted input_ qid;
  pr_found : forall e, pr_existing = Some e -> e ∈ q_items d /\ qid = it_quarantine_id e;
  pr_captured : capture pr_existing = Ok pr_snapshot;
  pr_size : _assert_item_size limits provider pr_i qid = Ok pr_prepared;
  pr_create : _create_prepared_provider_envelope pr_prepared provider key iv = Ok pr_envelope;
  pr_build : _build_item limits lo pr_i qid pr_envelope = Ok pr_item;
  pr_sha : envelope_sha pr_envelope = Ok sha;
  pr_ok : db_ok d -> db_ok pr_ds;
  pr_at : exists s, pr_ds = (interfere 2%nat s).1;
  pr_guard : is_ok (store_guard pr_item (_find_existing (q_items pr_ds) pr_item pr_mode) pr_mode true (Some pr_snapshot)
               (Some (mkAdmissionEvidence (pd_plaintext pr_prepared)))) = true;
  pr_write : write_item pr_item (_find_existing (q_items pr_ds) pr_item pr_mode) pr_mode (in_timestamp pr_i) pr_ds
             = (Ok (), d')
}.

Lemma lookup_existing_elem t i qid e : (lookup_existing t i qid).1 = Some e -> e ∈ t.
Proof.
  unfold lookup_existing. case_decide; [|destruct (_ && _)]; simpl.
  - destruct (in_sourceBank i), (in_sourceMemoryId i); try done. by intros [? _]%fetchone_Some.
  - destruct (in_dedupeKey i); [|done]. by intros [? _]%fetchone_Some.
  - by intros [? _]%fetchone_Some.
Qed.

Lemma put_ok input_ d l qid sha d' l' :
  put limits provider lo limiter interfere token key iv input_ (d, l) = (Ok (qid, sha), (d', l')) ->
  inhabited (put_run input_ d qid sha d').
Proof.
  unfold put. intros Hp. apply bind_ok_inv in Hp as (i & s0 & Hi & Hp).
  assert (s0 = (d, l) /\ (i = input_ \/ exists k, i = with_dedupe_key input_ k)) as [-> Hi'].
  { case_decide; [|injection Hi as <- <-; split; [done|by left]]. apply bind_ok_inv in Hi as (k & s1 & Hk & Hi).
    apply lift_ok in Hk as [_ ->]. injection Hi as <- <-. split; [done|]. right. by exists k. }
  assert (Hdec : forall q, _decrypted i q = _decrypted input_ q) by (intros q; by destruct Hi' as [->|[k ->]]).
  apply bind_ok_inv in Hp as (rid & s1 & Hr & Hp). apply lift_ok in Hr as [Hr ->].
  apply bind_ok_inv in Hp as (d0 & s1 & Hg & Hp). injection Hg as <- <-.
  destruct (lookup_existing (q_items d) i rid) as [existing mode] eqn:El.
  apply bind_ok_inv in Hp as (snap & s1 & Hs & Hp). apply lift_ok in Hs as [Hs ->]. cbn zeta in Hp.
  set (q := match existing with Some e => it_quarantine_id e | None => rid end) in *.
  apply bind_ok_inv in Hp as (prep & s1 & Hz & Hp). apply lift_ok in Hz as [Hz ->].
  apply bind_ok_inv in Hp as (fam & s1 & Hf & Hp). apply lift_ok in Hf as [_ ->].
  apply bind_ok_inv in Hp as ([] & s1 & Ha & Hp). injection Ha as <-.
  apply bind_ok_inv in Hp as ([] & s2 & Hc & Hp). apply on_limiter_fst in Hc.
  apply bind_ok_inv in Hp as ([] & s3 & Hw & Hp). apply lift_ok in Hw as [_ ->].
  apply bind_ok_inv in Hp as ([] & s3 & Ha & Hp). injection Ha as <-.
  apply bind_ok_inv in Hp as (envl & s3 & He & Hp). apply lift_ok in He as [He ->].
  apply bind_ok_inv in Hp as (it & s3 & Hb & Hp). apply lift_ok in Hb as [Hb ->].
  unfold identity_lock in Hp. apply bind_ok_inv in Hp as ([] & s3 & Hlk & Hp). apply on_limiter_fst in Hlk.
  destruct s3 as [d3 l3]. cbn [fst] in Hlk.
  apply bind_ok_inv in Hp as (d0 & s4 & Hg & Hp). injection Hg as <- <-.
  apply bind_ok_inv in Hp as ([] & s4 & Hw & Hp). apply lift_ok in Hw as [_ ->].
  apply bind_ok_inv in Hp as ([] & s4 & Ha & Hp). injection Ha as <-.
  apply bind_ok_inv in Hp as ([] & s5 & Hst & Hp).
  apply bind_ok_inv in Hp as (sh & s6 & Hsh & Hp). apply lift_ok in Hsh as [Hsh ->]. injection Hp as <- <- ->.
  cbn [fst snd] in Hst. destruct (interfere 2 (d3, l3)) as [ds ls] eqn:E3. apply store_ok in Hst as ([v Hguard] & _ & Hwrite).
  constructor. refine {| pr_i := i; pr_existing := existing; pr_mode := mode; pr_snapshot := snap; pr_prepared := prep;
    pr_envelope := envl; pr_item := it; pr_ds := ds |}; try done.
  - intros e ->. split; [|done]. apply (lookup_existing_elem _ i rid). by rewrite El.
  - intros Hd. change ds with (ds, ls).1. rewrite <- E3. apply keeps. cbn [fst]. rewrite Hlk. apply keeps. rewrite Hc. by apply keeps.
  - exists (d3, l3). by rewrite E3.
  - by rewrite Hguard.
Qed.
End put_facts.

Lemma guard_request `{Rfc8785} it e mode snap ev :
  is_ok (store_guard it (Some e) mode true snap ev) = true -> mode = ModeRequest -> it_status e ∈ REVIEWABLE_STATUSES.
Proof.
  unfold store_guard. intros Hg ->. rewrite bool_decide_true in Hg by done. simpl in Hg.
  destruct (elem _ REVIEWABLE_STATUSES) eqn:E; [by apply elem_true|done].
Qed.

(** The object of an input under an identity. *)
Definition stored_object (input_ : put_input) (qid : string) : decrypted :=
  mkDecrypted qid (in_timestamp input_) (in_reason input_) (in_writerId input_) (in_source input_) (in_payload input_).

Lemma holds_stored input_ qid d q : _decrypted input_ qid = JDict d -> holds d q -> q = stored_object input_ qid.
Proof.
  unfold _decrypted, stored_object. intros [= <-] [Hi Hc Hr Hw Hs Hp]. destruct q as [qi qc qr qw qs qp]. simpl in *.
  destruct (in_writerId input_), (in_source input_), qw, qs; simpl in *; congruence.
Qed.

(** C17: a successful write stores what it was given. Whatever other requests do
    to the tables while [put] waits, as long as they keep them well formed, a
    [put] that returns has left well-formed tables in which a row holds the new
    envelope: the canonical form of the input's timestamp, reason, writer, source
    and payload under the returned identity, encrypted with the key and vector the
    call drew, the key wrapped by the provider; the digest it returns is the SHA-256
    of this plaintext and the row's, and the serialized size is within the item
    limit. Rows of other identities are as the other requests left them just before
    the write. The row is the one named by the returned identity, unless the row
    found before and another row found at the write had the same SHA-256
    fingerprint. *)
Theorem put_stores `{Rfc8785, AESGCM, UnicodeData} limits provider lo {L} (limiter : RateLimiter L)
    interfere token key iv input_ d l qid sha d' l' :
  (forall k i p a, slen (aes_encrypt k i p a) = slen p + 16) ->
  (forall n s, db_ok s.1 -> db_ok (interfere n s).1) ->
  (forall k w, wp_wrap provider k = Ok w -> slen w <= wp_wrapped_key_bytes provider) ->
  slen iv = 12 -> db_ok d ->
  put limits provider lo limiter interfere token key iv input_ (d, l) = (Ok (qid, sha), (d', l')) ->
  db_ok d' /\
  exists row ds plaintext wrapped aad tag text,
    let q := stored_object input_ qid in
    let envl := sealed q sha (b64encode wrapped) (b64encode iv) (wp_key_wrap provider) (wp_envelope_provider provider) (b64encode tag) (b64encode text) in
    canonical_json (JDict (metadata_of q ++ [("payload", in_payload input_)])) = Ok plaintext /\ sha = sha256_hex plaintext /\
    wp_wrap provider key = Ok wrapped /\ (text +:+ tag)%string = aes_encrypt key iv plaintext (Some aad) /\ slen tag = 16 /\
    row ∈ q_items d' /\ it_encrypted row = Some (JDict envl) /\ it_sha256 row = sha /\
    slen (json_dumps (JDict envl)) <= ql_max_item_bytes limits /\
    (exists s, ds = (interfere 2%nat s).1) /\ (forall r, it_quarantine_id r <> it_quarantine_id row -> r ∈ q_items d' <-> r ∈ q_items ds) /\
    (it_quarantine_id row = qid \/
     exists e e', e <> e' /\ e ∈ q_items d /\ it_quarantine_id e = qid /\ e' ∈ q_items ds /\ it_quarantine_id e' = it_quarantine_id row /\
       capture (Some e) = capture (Some e') /\ is_ok (capture (Some e)) = true).
Proof.
  intros Haes Hkeep Hwrap Hiv Hd Hp. apply put_ok in Hp as [r]; [|done].
  destruct r as [i existing mode snap prep envl it ds Hdec Hfound Hcap Hz Hc Hb Hsha' Hds Hat Hg Hw]. specialize (Hds Hd).
  destruct (build_item_ok _ _ _ _ _ _ Hb) as (Hid & Hsha & Henc & Hfresh & _).
  rewrite Hsha in Hsha'. injection Hsha' as Hsha'.
  split; [by eapply write_item_db_ok|].
  destruct (write_item_row it _ mode _ ds _ _ (dok_unique _ Hds) (fun e He => proj1 (find_existing_elem _ _ _ _ He))
    ltac:(intros e He; rewrite He in Hg; by eapply guard_request) Hw) as (row & Hin & Hre & Hrs & Hrid & Hother).
  unfold _assert_item_size in Hz. rewrite Hdec in Hz. apply result_bind_ok in Hz as (prep' & Hprep & Hz).
  apply result_bind_ok in Hz as (est & Hest & Hz). destruct (_ <? est) eqn:El; [done|]. apply Z.ltb_ge in El.
  injection Hz as ->. destruct (prepare_inv _ _ Hprep) as (dd & q & Hdd & Hh & _ & _ & Hm & Hplain).
  pose proof (holds_stored _ _ _ _ Hdd Hh) as Hq.
  destruct (create_sealed Haes prep q provider key iv envl Hm Hc) as (wrapped & aad & tag & text & Hwr & _ & Hct & Htag & _ & Henv).
  assert (Edg : sha = sha256_hex (pd_plaintext prep)).
  { unfold envelope_sha in Hsha. rewrite Henv, sealed_sha in Hsha. injection Hsha as Hsha. congruence. }
  exists row, ds, (pd_plaintext prep), wrapped, aad, tag, text. cbv zeta. rewrite <- Hq, Edg, <- Henv. rewrite Hq in Hplain.
  split_and!; [by rewrite Hq|done|done|done|done|done|congruence|congruence| |done|done|].
  - etrans; [|exact El].
    exact (proj1 (envelope_size Haes _ _ provider key iv wrapped est _ Hprep Hwr (Hwrap _ _ Hwr) Hiv Hest Hc)).
  - rewrite Hrid. destruct (_find_existing _ _ _) as [e'|] eqn:Ee; [|by left].
    destruct (store_guard _ _ _ _ _ _) as [v|] eqn:Eg; [|done]. apply guard_snapshot in Eg as [Hsnap|Heq]; [|left; congruence].
    destruct existing as [e|].
    + destruct (Hfound e eq_refl) as [He ->]. destruct (decide (it_quarantine_id e' = it_quarantine_id e)) as [|Hne]; [by left|].
      right. exists e, e'. apply find_existing_elem in Ee as [He' _].
      split_and!; [congruence|done|done|done|done|congruence|by rewrite Hcap].
    + exfalso. simpl in Hcap, Hsnap. apply result_bind_ok in Hsnap as (s & _ & Hsnap). congruence.
Qed.

(** ** The writer limit *)

Definition writer_capacity_error : exn :=
  raise_http 507 "quarantine_writer_capacity_exceeded" "writer quarantine capacity is exhausted".

(** While it is in force, the per-writer limit keeps one writer from
    exhausting the queue: it is below the item capacity, and that many items of
    the largest size stay below the byte capacity. It is in force exactly when
    the configured limit is positive, more than one item may be pending and more
    than one item of the largest size fits; otherwise the clamped limit is zero,
    which [_assert_capacity] reads as no limit, so the writer check never
    refuses anything. *)
Lemma writer_limit_reserve limits :
  0 < ql_max_item_bytes limits ->
  let w := _effective_writer_limit limits in
  (0 < w <-> 0 < ql_max_pending_items_per_writer limits /\ 1 < ql_max_pending_items limits /\
             ql_max_item_bytes limits < ql_max_encrypted_bytes limits) /\
  (0 < w -> w <= ql_max_pending_items_per_writer limits /\ w < ql_max_pending_items limits /\
            w * ql_max_item_bytes limits < ql_max_encrypted_bytes limits) /\
  (w <= 0 -> forall t i existing at_,
     _assert_capacity t i existing (store_capacity_of limits) at_ <> Err writer_capacity_error).
Proof.
  intros Hm. cbn zeta. set (b := (ql_max_encrypted_bytes limits - 1) / ql_max_item_bytes limits).
  assert (Hb : b * ql_max_item_bytes limits <= ql_max_encrypted_bytes limits - 1)
    by (pose proof (Z.mul_div_le (ql_max_encrypted_bytes limits - 1) (ql_max_item_bytes limits) Hm); fold b in H; lia).
  assert (Hb1 : 1 <= b <-> ql_max_item_bytes limits < ql_max_encrypted_bytes limits).
  { split; [nia|]. intros Hlt. apply Z.div_le_lower_bound; lia. }
  assert (Hw : _effective_writer_limit limits =
    if ql_max_pending_items_per_writer limits <=? 0 then 0
    else Z.min (Z.min (ql_max_pending_items_per_writer limits) (Z.max 0 (ql_max_pending_items limits - 1))) (Z.max 0 b))
    by done.
  split_and!.
  - rewrite Hw. destruct (Z.leb_spec (ql_max_pending_items_per_writer limits) 0); lia.
  - rewrite Hw. destruct (Z.leb_spec (ql_max_pending_items_per_writer limits) 0); [lia|]. intros Hpos.
    split_and!; [lia|lia|]. nia.
  - intros Hle t i existing at_ Hc. unfold _assert_capacity in Hc.
    assert (Hsec : forall u, _assert_security_event_capacity i existing t = Err u -> u <> writer_capacity_error)
      by (unfold _assert_security_event_capacity; intros u; destruct (_ && _); by intros [= <-]).
    destruct (_assert_security_event_capacity i existing t) as [[]|u]; simpl in Hc; [|naive_solver].
    destruct (_ || _); [done|].
    assert (Hbank : forall a b c u, _assert_bank_capacity t i a b c at_ = Err u -> u <> writer_capacity_error).
    { unfold _assert_bank_capacity. intros a c e u. repeat case_match; by intros [= <-]. }
    match type of Hc with context [_assert_bank_capacity ?t ?i ?a ?b ?c ?s] => specialize (Hbank a b c);
      destruct (_assert_bank_capacity t i a b c s) as [[]|u] end; simpl in Hc; [|naive_solver].
    by rewrite (proj2 (Z.leb_le _ _) Hle) in Hc.
Qed.

(** ** Examples *)

Module Example_put.
Import Example_envelope.
#[export] Instance unicode : UnicodeData := {| nfkc_fold s := s; py_split s := [s] |}.

Definition token : string := "0123456789abcdef".
Definition input : put_input :=
  mkPutInput "retain_request" "suspicious_content" "2024-01-01T00:00:00.000Z" (JDict [("action", JStr "retain")])
    (Some "alice") None None None None (Some "key-1") (Some "team").
Definition no_interference (n : nat) (s : qdb * InMemoryRateLimiter) : qdb * InMemoryRateLimiter := s.

Definition first_put : result (string * string) * (qdb * InMemoryRateLimiter) :=
  put default_quarantine_limits provider 0 (in_memory_limiter 0) no_interference token data_key vector input
    (Example_repository.empty, in_memory_rate_limiter).

(** The request is stored once and found again by its key. *)
Example first_put_stored :
  (length (q_items first_put.2.1), is_ok first_put.1) = (1%nat, true).
Proof. vm_compute. reflexivity. Qed.
End Example_put.
Import Example_envelope Example_put.

Lemma resolved_id_reviewable_witness : exists id, _resolve_id input token = Ok id /\ is_quarantine_id id = true.
Proof.
  destruct (_resolve_id input token) as [id|] eqn:E; [|vm_compute in E; discriminate].
  exists id. split; [reflexivity|].
  apply (resolved_id_reviewable input token id); [vm_compute; reflexivity|vm_compute; reflexivity|exact E].
Defined.

Lemma put_stores_witness : exists qid sha d' row plaintext, first_put.1 = Ok (qid, sha) /\ db_ok d' /\
  row ∈ q_items d' /\ it_sha256 row = sha /\ sha = sha256_hex plaintext
  /\ canonical_json (JDict (metadata_of (stored_object input qid) ++ [("payload", JDict [("action", JStr "retain")])])) = Ok plaintext.
Proof.
  destruct first_put as [[[qid sha]|e] [d' l']] eqn:E; [|vm_compute in E; discriminate].
  unfold first_put in E. destruct (put_stores default_quarantine_limits provider 0 (in_memory_limiter 0) no_interference token data_key vector
    input Example_repository.empty in_memory_rate_limiter qid sha d' l') as (Hd & row & ds & pt & wrapped & aad & tag & text & Hpt & Hsha & _ & _ & _ & Hin & _ & Hs & _).
  - apply cipher_length.
  - intros n s Hs. exact Hs.
  - apply wrapped_bounded.
  - vm_compute; reflexivity.
  - apply Example_repository.empty_ok.
  - exact E.
  - exists qid, sha, d', row, pt. split; [reflexivity|]. split; [exact Hd|]. split; [exact Hin|]. split; [exact Hs|]. split; [exact Hsha|exact Hpt].
Defined.

Lemma writer_limit_reserve_witness :
  _effective_writer_limit default_quarantine_limits = 50 /\
  50 * ql_max_item_bytes default_quarantine_limits < ql_max_encrypted_bytes default_quarantine_limits.
Proof.
  split; [vm_compute; reflexivity|].
  destruct (writer_limit_reserve default_quarantine_limits) as (_ & H & _); [vm_compute; reflexivity|].
  apply H. vm_compute. reflexivity.
Defined.
