(* ===== verification/Admin.v ===== *)
(** * The quarantine review service

    Models [memory_router/admin.py]: listing and reading the queue, approving,
    rejecting, postponing and reconciling items, statistics and cleanup. The
    state is the repository tables, the rate limiter and the calls the request
    made to the memory service, in order. What the service answers to a call ([outcome])
    and the verdict of the safety scanner ([scan_request]) are parameters; time
    is read once per call of [iso_now]; what other requests do to the shared
    state at an await is [interfere]. Log lines are not modelled. *)

From Stdlib Require Import ZArith Lia Ascii.
From stdpp Require Import base sets strings numbers list.
From S2P Require Import Prelude Errors Text Sha256 Json Timestamps Principals Repository Review Envelope Dedupe Validation Limits Maintenance.

Local Open Scope Z_scope.

Record AdminActor := mkAdminActor { aa_token_scope : option string; aa_principal : option string; aa_token_key_id : option string }.

(** [principal or token_scope or "unknown"] *)
Definition label (a : AdminActor) : string := py_or (aa_principal a) (py_or (aa_token_scope a) "unknown").

(** A call to the memory service. *)
Inductive upstream :=
  | CallRetain (bank : string) (body : list (string * json))
  | CallInvalidate (bank memory_id reason : string).

Record world (L : Type) := mkWorld { w_db : qdb; w_limiter : L; w_calls : list upstream }.
Arguments mkWorld {L}.
Arguments w_db {L}.
Arguments w_limiter {L}.
Arguments w_calls {L}.

(** A writer of the legacy registry; only its bank matters here. *)
Record AdminConfig := mkAdminConfig {
  ac_writers : list (string * string);
  ac_limits : HindsightLimitConfig;
  ac_max_postpones : Z;
  ac_review_stale_seconds : Z;
  ac_principal_resolver : option PrincipalResolver
}.

Definition _side_effect_definitely_failed (error : exn) : bool :=
  match error with
  | EGateway g => bool_decide (gw_kind g = KHttp) && client_error_status (gw_upstream_status g)
  | _ => true
  end.

(** ** Reading items *)

Definition get_required (d : qdb) (quarantine_id : string) : result item :=
  if negb (is_quarantine_id quarantine_id) then Err (raise_http 400 "invalid_quarantine_id" "invalid quarantine_id")
  else match get (q_items d) quarantine_id with
       | None => Err not_found_error
       | Some i => Ok i
       end.

Definition already_finalized : exn :=
  raise_http 409 "quarantine_already_finalized" "quarantine item is not pending review".

Definition _assert_not_expired (i : item) (now : string) : result unit := ensure (negb (is_expired i now)) expired_error.

Definition _require_claim_candidate (d : qdb) (quarantine_id now : string) : result item :=
  i ← get_required d quarantine_id;
  _ ← ensure (elem (it_status i) [PENDING; POSTPONED; REVIEW_IN_PROGRESS; REVIEW_SIDE_EFFECT_COMPLETED]) already_finalized;
  _ ← (if elem (it_status i) REVIEWABLE_STATUSES then _assert_not_expired i now else Ok ());
  Ok i.

Definition _require_reviewable (d : qdb) (quarantine_id now : string) : result item :=
  i ← get_required d quarantine_id;
  _ ← ensure (elem (it_status i) (REVIEWABLE_STATUSES ++ [REVIEW_SIDE_EFFECT_STARTED; REVIEW_SIDE_EFFECT_COMPLETED])) already_finalized;
  _ ← (if elem (it_status i) REVIEWABLE_STATUSES then _assert_not_expired i now else Ok ());
  Ok i.

Definition payload_unavailable : exn :=
  raise_http 409 "quarantine_payload_unavailable" "quarantine payload is no longer available".

(** [list_queue]: the page and the total it is part of. *)
Definition list_queue (d : qdb) (limit offset : nat) (now : string) (filter_ : option QueueFilter) : list item * Z :=
  let f := default no_filter filter_ in
  (list_reviewable (q_items d) limit offset now f,
   if match filter_ with Some f => filter_active f | None => false end
   then count_reviewable (q_items d) now f
   else let s := repository_stats d now in
        st_pending_items s + st_postponed_items s + st_review_side_effect_started_items s
        + st_review_side_effect_completed_items s).

Definition read_item (d : qdb) (quarantine_id now : string) : result (item * json) :=
  i ← _require_reviewable d quarantine_id now;
  match it_encrypted i with
  | None => Err payload_unavailable
  | Some e => Ok (i, e)
  end.

(** [stats] and [bank_stats] of the service: the counters of [repository_stats]
    but [expired_items], and the per-bank rows. *)
Definition service_stats (d : qdb) (at_ : string) (bank_ids : option (list string)) : list (string * Z) * list bank_stat :=
  let s := repository_stats d at_ in
  ([("total_items", st_total_items s); ("pending_items", st_pending_items s); ("postponed_items", st_postponed_items s);
    ("review_side_effect_started_items", st_review_side_effect_started_items s);
    ("review_side_effect_completed_items", st_review_side_effect_completed_items s);
    ("reviewed_allowed_items", st_reviewed_allowed_items s); ("reviewed_blocked_items", st_reviewed_blocked_items s);
    ("encrypted_bytes", st_encrypted_bytes s); ("event_count", st_event_count s)],
   bank_stats (q_items d) at_ bank_ids).

Definition service_bank_stats (d : qdb) (at_ : string) (bank_ids : list string) : list bank_stat :=
  bank_stats (q_items d) at_ (Some bank_ids).

(** ** Checking what the reviewer decrypted *)

Section service.
Context `{Rfc8785, UnicodeData}.
Context (config : AdminConfig).

Definition error_text (e : exn) : string := match e with EValueError m => m | _ => "" end.

Definition _verify_exact (i : item) (value : json) : result (list (string * json)) :=
  match it_encrypted i with
  | None => Err payload_unavailable
  | Some _ =>
      decrypted ← match parse_decrypted value with
                  | Ok d => Ok d
                  | Err (EValueError m) => Err (raise_http 400 "invalid_decrypted_quarantine" m)
                  | Err e => Err e
                  end;
      text ← canonical_decrypted (JDict decrypted);
      _ ← ensure (bool_decide (sha256_hex text = it_sha256 i))
            (raise_http 409 "quarantine_hash_mismatch" "decrypted quarantine content differs from the original item");
      _ ← ensure (bool_decide (field_of decrypted "quarantine_id" = JStr (it_quarantine_id i))
                  && bool_decide (field_of decrypted "reason" = JStr (it_reason i))
                  && bool_decide (field_of decrypted "writer_id" = jopt (it_writer_id i))
                  && bool_decide (field_of decrypted "source" = jopt (it_source i)))
            (raise_http 409 "quarantine_metadata_mismatch" "decrypted quarantine metadata differs from the stored item");
      Ok decrypted
  end.

(** ** The bank an approved request goes to *)

Definition _legacy_retain_bank (writer_id : string) : result string :=
  match dict_get writer_id (ac_writers config) with
  | Some bank => Ok bank
  | None => Err (raise_http 409 "writer_not_registered" "register the writer before approving its original retain request")
  end.

Definition _require_principal_retain_grant (principal_id target_bank : string) : result unit :=
  ensure (match ac_principal_resolver config with
          | Some r => authorize_current r principal_id SCOPE_MEMORY_RETAIN target_bank
          | None => false
          end)
    (raise_http 403 "authorization_denied" "original principal no longer has memory.retain for the quarantined bank").

Definition metadata_mismatch (m : string) : exn := raise_http 409 "quarantine_metadata_mismatch" m.
Definition invalid_payload (m : string) : exn := raise_http 409 "invalid_quarantine_payload" m.

(** [_retain_target] *)
Definition _retain_target (i : item) (payload : list (string * json)) (writer_id : string) : result string :=
  if negb (bool_decide (it_writer_id i = Some writer_id))
  then Err (metadata_mismatch "retain identity differs from stored metadata")
  else
    match bool_decide (it_status i = REVIEW_SIDE_EFFECT_COMPLETED), it_bank_id i with
    | true, Some completed_bank => Ok completed_bank
    | _, _ =>
        let mode := match field_of payload "identity_mode" with
                    | JNull => if bool_decide (it_reason i = "unknown_writer") then JStr "legacy" else JNull
                    | m => m
                    end in
        _ ← ensure (negb (is_null mode))
              (raise_http 409 "quarantine_provenance_missing"
                 "retain origin cannot be verified; reject and resubmit through the current router");
        _ ← ensure (one_of ["legacy"; "principal"] mode) (invalid_payload "invalid retain identity mode");
        let target := field_of payload "target_bank" in
        if bool_decide (mode = JStr "legacy") && bool_decide (it_reason i = "unknown_writer") && is_null target
        then _legacy_retain_bank writer_id
        else
          match target with
          | JStr bank =>
              _ ← ensure (negb (bool_decide (bank = ""%string))) (invalid_payload "retain target bank is required");
              _ ← ensure (bool_decide (it_bank_id i = Some bank)) (metadata_mismatch "retain bank differs from stored metadata");
              _ ← (if bool_decide (mode = JStr "principal") then _require_principal_retain_grant writer_id bank
                   else
                     current ← _legacy_retain_bank writer_id;
                     ensure (bool_decide (bank = current))
                       (raise_http 409 "quarantine_target_changed"
                          "writer bank changed; restore its original bank or reject and resubmit"));
              Ok bank
          | _ => Err (invalid_payload "retain target bank is required")
          end
    end.

(** ** Effects *)

Context {L : Type} (limiter : RateLimiter L).
Context (outcome : upstream -> option exn) (scan_request : list (string * json) -> string -> result bool).
Context (clock : nat -> string) (interfere : nat -> world L -> world L).

Definition db {A} (m : eff qdb A) : eff (world L) A := fun w =>
  let '(r, d) := m (w_db w) in (r, mkWorld d (w_limiter w) (w_calls w)).
Definition charge_limit {A} (m : eff L A) : eff (world L) A := fun w =>
  let '(r, l) := m (w_limiter w) in (r, mkWorld (w_db w) l (w_calls w)).

(** Other requests run. *)
Definition await_ (n : nat) : eff (world L) unit := modify (interfere n).

(** A call to the memory service: recorded, then answered while others run. *)
Definition call (n : nat) (c : upstream) : eff (world L) unit :=
  _ ← modify (fun w => mkWorld (w_db w) (w_limiter w) (w_calls w ++ [c]));
  _ ← await_ n;
  match outcome c with Some e => raise e | None => mret () end.

(** [try: call; except Exception: if definitely failed: interrupt; raise] *)
Definition guarded_call (n : nat) (c : upstream) (claimed : item) (at_ : string) : eff (world L) unit :=
  try_except (call n c) (fun e =>
    _ ← (if _side_effect_definitely_failed e then db (interrupt_review claimed at_ e) else mret ());
    raise e).

(** [_execute_retain_approval] *)
Definition _execute_retain_approval (quarantine_id : string) (i : item) (writer_id bank : string)
    (approved_body details : list (string * json)) : eff (world L) unit :=
  _ ← charge_limit (consume_retain limiter (ac_limits config) writer_id);
  _ ← await_ 1;
  let at_ := clock 1 in
  claimed ← db (claim_review quarantine_id "retain_request" at_ (Some (ac_review_stale_seconds config)) true
                  (Some (it_sha256 i)) (Some (it_updated_at i)) (Some bank));
  _ ← guarded_call 2 (CallRetain bank approved_body) claimed at_;
  _ ← db (complete_side_effect quarantine_id at_ (Some (it_sha256 i)));
  _ ← await_ 3;
  db (finish_approve_retain quarantine_id at_ details (Some (it_sha256 i))).

Definition invalid_writer : exn := raise_http 400 "invalid_request" "writer_id is required".
Definition review_required : exn :=
  raise_http 409 "quarantine_security_review_required"
    "unsafe retain cannot be approved from an unknown-writer review; resubmit after registering the writer so it is classified as suspicious_content".

(** [_approve_retain] *)
Definition _approve_retain (quarantine_id : string) (i : item) (decrypted : list (string * json)) (actor : string)
    : eff (world L) json :=
  match field_of decrypted "payload" with
  | JDict payload =>
      _ ← lift (ensure (bool_decide (field_of payload "action" = JStr "retain"))
                  (invalid_payload "retain approval requires a retain request"));
      writer_id ← lift (match field_of payload "writer_id" with
                        | JStr w => if bool_decide (w = ""%string) then Err invalid_writer else Ok w
                        | _ => Err invalid_writer
                        end);
      target_bank ← lift (_retain_target i payload writer_id);
      retain_body ← lift (parse_retain_body (field_of payload "body"));
      safe ← lift (scan_request retain_body writer_id);
      _ ← lift (ensure (safe || bool_decide (it_reason i = "suspicious_content")) review_required);
      _ ← lift (assert_retain_bounds (ac_limits config) (JDict retain_body));
      let approved_body := prepare_retain_body retain_body writer_id (py_or (it_source i) "quarantine_review") target_bank "approved" in
      let details := [("writer_id", JStr writer_id); ("target_bank", JStr target_bank); ("actor", JStr actor)] in
      _ ← await_ 0;
      _ ← (if bool_decide (it_status i = REVIEW_SIDE_EFFECT_COMPLETED)
           then db (finish_approve_retain quarantine_id (it_updated_at i) details (Some (it_sha256 i)))
           else _execute_retain_approval quarantine_id i writer_id target_bank approved_body details);
      mret (JDict [("approved", JBool true); ("quarantine_id", JStr quarantine_id); ("target_bank", JStr target_bank)])
  | _ => raise (invalid_payload "retain approval requires a retain request")
  end.

(** [_approve_recalled_memory] *)
Definition _approve_recalled_memory (quarantine_id : string) (i : item) (decrypted : list (string * json)) (actor : string)
    : eff (world L) json :=
  match field_of decrypted "payload", jget "result" (field_of decrypted "payload") with
  | JDict payload, Some (JDict result) =>
      _ ← lift (ensure (bool_decide (field_of payload "action" = JStr "recalled_memory"))
                  (invalid_payload "recalled memory approval requires a recalled memory payload"));
      _ ← lift (ensure (bool_decide (field_of payload "bank_id" = jopt (it_source_bank i))
                        && bool_decide (field_of result "id" = jopt (it_source_memory_id i)))
                  (raise_http 409 "quarantine_source_mismatch" "recalled memory source does not match quarantine metadata"));
      _ ← await_ 0;
      let at_ := clock 1 in
      claimed ← db (claim_review quarantine_id "recalled_memory" at_ (Some (ac_review_stale_seconds config)) false
                      (Some (it_sha256 i)) (Some (it_updated_at i)) None);
      _ ← try_except (db (finish_approve_memory quarantine_id at_ (Some (it_sha256 i)) (Some actor)))
            (fun e => _ ← db (interrupt_review claimed at_ e); raise e);
      memory_id ← lift (getitem result "id");
      mret (JDict [("reviewed", JBool true); ("allowed", JBool true); ("quarantine_id", JStr quarantine_id);
                   ("source_bank", field_of payload "bank_id"); ("source_memory_id", memory_id)])
  | _, _ => raise (invalid_payload "recalled memory approval requires a recalled memory payload")
  end.

(** [approve] *)
Definition approve (quarantine_id : string) (body : list (string * json)) (actor : AdminActor) : eff (world L) json :=
  w ← get_state;
  i ← lift (_require_claim_candidate (w_db w) quarantine_id (clock 0));
  decrypted ← lift (_verify_exact i (field_of body "decrypted"));
  if decide (it_kind i = "retain_request") then _approve_retain quarantine_id i decrypted (label actor)
  else if decide (it_kind i = "recalled_memory") then _approve_recalled_memory quarantine_id i decrypted (label actor)
  else raise (raise_http 409 "invalid_review_action" "this quarantine item cannot be approved into memory").

(** [reject] *)
Definition reject (quarantine_id : string) (actor : AdminActor) : eff (world L) json :=
  w ← get_state;
  i ← lift (_require_claim_candidate (w_db w) quarantine_id (clock 0));
  if decide (it_kind i = "recalled_memory") then
    match it_source_bank i, it_source_memory_id i with
    | Some bank_id, Some memory_id =>
        _ ← lift (ensure (truthy (it_source_bank i) && truthy (it_source_memory_id i))
                    (raise_http 409 "quarantine_source_missing" "recalled memory source metadata is missing"));
        _ ← await_ 0;
        _ ← (if bool_decide (it_status i = REVIEW_SIDE_EFFECT_COMPLETED)
             then db (finish_reject_memory quarantine_id (it_updated_at i) (Some (it_sha256 i)) (Some (label actor)))
             else
               let at_ := clock 1 in
               claimed ← db (claim_review quarantine_id "recalled_memory" at_ (Some (ac_review_stale_seconds config)) true
                               (Some (it_sha256 i)) (Some (it_updated_at i)) None);
               _ ← guarded_call 2 (CallInvalidate bank_id memory_id
                     ("Rejected by memory-router quarantine review " +:+ quarantine_id)%string) claimed at_;
               _ ← db (complete_side_effect quarantine_id at_ (Some (it_sha256 i)));
               _ ← await_ 3;
               db (finish_reject_memory quarantine_id at_ (Some (it_sha256 i)) (Some (label actor))));
        mret (JDict [("reviewed", JBool true); ("allowed", JBool false); ("quarantine_id", JStr quarantine_id);
                     ("source_bank", JStr bank_id); ("source_memory_id", JStr memory_id)])
    | _, _ => raise (raise_http 409 "quarantine_source_missing" "recalled memory source metadata is missing")
    end
  else
    _ ← await_ 0;
    _ ← db (remove quarantine_id "rejected" (clock 1) (Some (ac_review_stale_seconds config)) (Some (label actor)));
    mret (JDict [("rejected", JBool true); ("quarantine_id", JStr quarantine_id)]).

(** [postpone] *)
Definition postpone_item (quarantine_id : string) (actor : AdminActor) : eff (world L) json :=
  w ← get_state;
  _ ← lift (_require_claim_candidate (w_db w) quarantine_id (clock 0));
  _ ← await_ 0;
  next_item ← db (postpone quarantine_id (clock 1) (Some (ac_review_stale_seconds config)) (Some (ac_max_postpones config))
                    (Some (label actor)));
  match next_item with
  | Some i => mret (JDict [("postponed", JBool true); ("quarantine_id", JStr quarantine_id); ("count", JInt (it_postpone_count i))])
  | None => raise (EOther "TypeError")
  end.

(** ** Reconciliation *)

Definition invalid_review_action (m : string) : exn := raise_http 409 "invalid_review_action" m.

Definition _reconcile_applied (quarantine_id at_ : string) (i : item) (decision : json)
    (expected_sha256 expected_updated_at actor : string) : eff (world L) string :=
  if decide (it_kind i = "retain_request") then
    _ ← lift (ensure (is_null decision || bool_decide (decision = JStr "approve"))
                (invalid_review_action "only an approve side effect can be reconciled for a retain request"));
    _ ← db (confirm_side_effect_applied quarantine_id at_ expected_sha256 expected_updated_at (Some actor));
    _ ← await_ 1;
    let details := [("writer_id", jopt (it_writer_id i)); ("target_bank", jopt (it_bank_id i)); ("actor", JStr actor)] in
    _ ← db (finish_approve_retain quarantine_id at_ details (Some expected_sha256));
    mret "approved"%string
  else if decide (it_kind i = "recalled_memory") then
    _ ← lift (ensure (is_null decision || bool_decide (decision = JStr "reject"))
                (invalid_review_action "only a reject side effect can be reconciled for a recalled memory"));
    _ ← db (confirm_side_effect_applied quarantine_id at_ expected_sha256 expected_updated_at (Some actor));
    _ ← await_ 1;
    _ ← db (finish_reject_memory quarantine_id at_ (Some expected_sha256) (Some actor));
    mret (status_text REVIEWED_BLOCKED)
  else raise (invalid_review_action "this quarantine item cannot be reconciled").

(** A non-empty text of a body. *)
Definition body_text (body : list (string * json)) (key : string) : option string :=
  match field_of body key with JStr s => if bool_decide (s = ""%string) then None else Some s | _ => None end.

(** [reconcile] *)
Definition reconcile (quarantine_id : string) (body : list (string * json)) (actor : AdminActor) : eff (world L) json :=
  _ ← lift (ensure (one_of ["confirmed_applied"; "confirmed_not_applied"] (field_of body "action"))
              (raise_http 400 "invalid_request" "action must be confirmed_applied or confirmed_not_applied"));
  match body_text body "expected_sha256", body_text body "expected_updated_at" with
  | Some expected_sha256, Some expected_updated_at =>
      w ← get_state;
      i ← lift (get_required (w_db w) quarantine_id);
      _ ← lift (ensure (bool_decide (it_status i = REVIEW_SIDE_EFFECT_STARTED))
                  (invalid_review_action "quarantine item is not awaiting side-effect reconciliation"));
      _ ← await_ 0;
      let at_ := clock 0 in
      st ← (if bool_decide (field_of body "action" = JStr "confirmed_not_applied")
            then _ ← db (confirm_side_effect_not_applied quarantine_id at_ expected_sha256 expected_updated_at (Some (label actor)));
                 mret (status_text POSTPONED)
            else _reconcile_applied quarantine_id at_ i (field_of body "decision") expected_sha256 expected_updated_at (label actor));
      mret (JDict [("reconciled", JBool true); ("action", field_of body "action"); ("quarantine_id", JStr quarantine_id);
                   ("status", JStr st)])
  | _, _ => raise (raise_http 400 "invalid_request" "expected_sha256 and expected_updated_at are required")
  end.

(** ** Cleanup *)

(** [body.get("scope", PENDING)]; absent reasons or cutoff are [None]. *)
Definition cleanup_request (body : list (string * json)) (actor : AdminActor) : eff (world L) json :=
  let given key := match field_of body key with JNull => None | v => Some v end in
  scope ← lift (match dict_get "scope" body with
                | None => Ok "pending"%string
                | Some (JStr s) => if elem s ["pending"; "all"]%string then Ok s
                                   else Err (raise_http 400 "invalid_request" "scope must be pending or all")
                | Some _ => Err (raise_http 400 "invalid_request" "scope must be pending or all")
                end);
  preview ← db (preview_cleanup scope (given "reasons") (given "older_than"));
  if negb (bool_decide (dict_get "dry_run" body = Some (JBool false)))
  then mret (JDict [("dry_run", JBool true); ("count", JInt preview.1); ("encrypted_bytes", JInt preview.2)])
  else
    expected ← lift (match field_of body "expected_count" with
                     | JInt n => if n <? 0 then Err (raise_http 400 "expected_count_required" "expected_count from a dry run is required") else Ok n
                     | _ => Err (raise_http 400 "expected_count_required" "expected_count from a dry run is required")
                     end);
    _ ← await_ 0;
    done ← db (cleanup scope (given "reasons") (given "older_than") expected (clock 0) (Some (label actor)));
    mret (JDict [("dry_run", JBool false); ("count", JInt done.1); ("encrypted_bytes", JInt done.2)]).
End service.
