(* ===== verification/AdminProps.v ===== *)
(** * Properties of the review service

    What a review with a side effect does to the item and to the memory
    service, whatever the service answers and other requests do meanwhile, and
    what an approval may send. *)

From Stdlib Require Import ZArith Lia.
From stdpp Require Import base sets strings numbers list.
From S2P Require Import Prelude Errors Text Sha256 Json Timestamps Principals RateLimit Repository RepositoryProps Review ReviewProps Envelope EnvelopeProps Dedupe Validation Limits QuarantineStoreProps Maintenance Admin.

Local Open Scope Z_scope.

(** What a review relies on from the requests that run at its awaits: they keep
    the tables well formed, their calls are not its calls, and while its side
    effect runs (point 2) they leave its claimed item alone. *)
Class Quiet {L} (interfere : nat -> world L -> world L) (id : string) : Prop := {
  quiet_db n w : db_ok (w_db w) -> db_ok (w_db (interfere n w));
  quiet_calls n w : w_calls (interfere n w) = w_calls w;
  quiet_claimed w i : get (q_items (w_db w)) id = Some i -> it_status i = REVIEW_SIDE_EFFECT_STARTED ->
    get (q_items (w_db (interfere 2%nat w))) id = Some i
}.

(** Requests that run review operations. *)
Definition run_requests {L} (ops : nat -> list review_op) (n : nat) (w : world L) : world L :=
  mkWorld (run_reviews (ops n) (w_db w)) (w_limiter w) (w_calls w).

Lemma run_reviews_ok ops d : db_ok d -> db_ok (run_reviews ops d).
Proof.
  revert d. induction ops as [|op ops IH]; intros d Hd; simpl; [done|]. apply IH.
  destruct (run_review op d) as [r d'] eqn:E. by eapply run_review_reviews.
Qed.

(** Review operations on any items meet the contract, as long as those that run at
    point 2 do not complete, interrupt or reconcile this item. *)
#[export] Instance requests_quiet {L} ops id : Forall (fun op => forall at_ sha, ~ holds_claim id at_ sha op) (ops 2%nat) ->
  Quiet (L := L) (run_requests ops) id.
Proof.
  intros Hops. split; [intros; by apply run_reviews_ok|done|]. intros w i Hg Hst. apply unclaimed_kept; [done|done|].
  eapply Forall_impl; [exact Hops|]. by intros op Hop.
Qed.

(** ** The claim a side effect runs under *)

Lemma mutate_review_snapshot {T} id at_ stale (mutation : item -> eff qdb T) sha upd d a d' :
  _mutate_review id at_ stale mutation sha upd d = (Ok a, d') ->
  exists i, get (q_items d) id = Some i /\ _assert_snapshot i sha upd = Ok ().
Proof.
  intros Hm. apply bind_ok_inv in Hm as (res & d2 & Ht & _).
  apply transaction_ok_inv in Ht. apply bind_ok_inv in Ht as (found & d3 & Hf & Ht).
  apply fetch_item_ok in Hf as [-> [= ->]]. destruct (get (q_items d) id) as [i|] eqn:Hg; [|done].
  apply bind_ok_inv in Ht as ([] & d4 & Hs & _). apply lift_ok in Hs as [Hs _]. by exists i.
Qed.

Lemma assert_snapshot_sha i s upd : _assert_snapshot i (Some s) upd = Ok () -> it_sha256 i = s.
Proof. unfold _assert_snapshot. by case_bool_decide. Qed.

(** A claim with a side effect: the claimed item, and its row afterwards. *)
Lemma claim_started id kind at_ stale s upd bank d c d' :
  db_ok d -> claim_review id kind at_ stale true (Some s) upd bank d = (Ok c, d') ->
  db_ok d' /\ it_quarantine_id c = id /\ it_status c ∈ REVIEWABLE_STATUSES /\
  exists row, get (q_items d') id = Some row /\ it_status row = REVIEW_SIDE_EFFECT_STARTED /\
    it_updated_at row = at_ /\ it_sha256 row = s.
Proof.
  intros Hd Hc. destruct (claim_ok _ _ _ _ _ _ _ _ _ _ _ Hd Hc) as (Hd' & _ & Hst & row & Hg & Hat & Hsha & Hrow).
  destruct (mutate_review_snapshot _ _ _ _ _ _ _ _ _ Hc) as (i0 & Hg0 & Hs0%assert_snapshot_sha).
  apply mutate_review_ok in Hc as (i & i' & d1 & Hgi & _ & _ & _ & Hid & Hor & _ & _ & Hm); [|done].
  cbn zeta in Hm. destruct (negb _); [done|].
  apply bind_ok_inv in Hm as (? & ? & _ & Hm). apply bind_ok_inv in Hm as (? & ? & _ & Hm). injection Hm as -> _.
  rewrite Hg0 in Hgi. injection Hgi as ->.
  split_and!; try done. exists row. split_and!; try done. rewrite Hsha.
  by destruct Hor as [[_ ->]|[_ ->]].
Qed.

Section outcome.
Context {L : Type} (outcome : upstream -> option exn) (interfere : nat -> world L -> world L) (id : string).
Context `{!Quiet interfere id}.

(** A repository operation lifted to the world. *)
Lemma db_run {A} (m : eff qdb A) (w : world L) r d :
  m (w_db w) = (r, d) -> db m w = (r, mkWorld d (w_limiter w) (w_calls w)).
Proof. intros E. unfold db. by rewrite E. Qed.

Lemma call_run n c w : call outcome interfere n c w =
  (match outcome c with Some e => Err e | None => Ok () end,
   interfere n (mkWorld (w_db w) (w_limiter w) (w_calls w ++ [c]))).
Proof. unfold call, await_, modify, mbind, eff_bind, raise, mret, eff_ret. by destruct (outcome c). Qed.

(** The rest of a review once its claim is taken. *)
Definition after_claim {A} (c : upstream) (claimed : item) (at_ s : string) (finish : eff qdb A) : eff (world L) A :=
  _ ← guarded_call outcome interfere 2%nat c claimed at_;
  _ ← db (complete_side_effect id at_ (Some s));
  _ ← await_ interfere 3%nat;
  db finish.

Lemma after_claim_outcome {A} c claimed at_ s (finish : eff qdb A) w row :
  db_ok (w_db w) -> it_quarantine_id claimed = id -> it_status claimed ∈ REVIEWABLE_STATUSES ->
  get (q_items (w_db w)) id = Some row -> it_status row = REVIEW_SIDE_EFFECT_STARTED ->
  it_updated_at row = at_ -> it_sha256 row = s ->
  let '(r, w') := after_claim c claimed at_ s finish w in
  match outcome c with
  | Some e => r = Err e /\ db_ok (w_db w') /\ w_calls w' = w_calls w ++ [c] /\
      status_of (w_db w') id =
        Some (if _side_effect_definitely_failed e then it_status claimed else REVIEW_SIDE_EFFECT_STARTED)
  | None => exists w3, db_ok (w_db w3) /\ w_calls w3 = w_calls w ++ [c] /\
      get (q_items (w_db w3)) id = Some (set_status REVIEW_SIDE_EFFECT_COMPLETED at_ row) /\
      (r, w') = db finish (interfere 3%nat w3)
  end.
Proof.
  intros Hd Hid Hcl Hg Hst Hat Hsha.
  set (w1 := mkWorld (w_db w) (w_limiter w) (w_calls w ++ [c])).
  assert (Hd2 : db_ok (w_db (interfere 2%nat w1))) by (by apply quiet_db).
  assert (Hg2 : get (q_items (w_db (interfere 2%nat w1))) id = Some row) by (by apply quiet_claimed).
  assert (Hc2 : w_calls (interfere 2%nat w1) = w_calls w ++ [c]) by (by rewrite quiet_calls).
  unfold after_claim, guarded_call, mbind, eff_bind, try_except. rewrite call_run. fold w1.
  destruct (outcome c) as [e|].
  - destruct (_side_effect_definitely_failed e).
    + destruct (interrupt_runs claimed at_ e (w_db (interfere 2%nat w1)) row) as (d' & Hrun & Hd' & Hg' & _);
        [done|by rewrite Hid|rewrite Hst; by right; left|done|done|].
      rewrite (db_run _ _ _ _ Hrun). unfold raise. split_and!; try done.
      unfold status_of. simpl. by rewrite Hg', decide_True.
    + unfold mret, eff_ret, raise. split_and!; try done. unfold status_of. rewrite Hg2. simpl. by rewrite Hst.
  - destruct (complete_runs id at_ (Some s) (w_db (interfere 2%nat w1)) row) as (d' & Hrun & Hd' & Hg' & _);
      [done|done|done|done|by intros ? [= <-]|].
    rewrite (db_run _ _ _ _ Hrun). unfold await_, modify.
    destruct (db finish _) as [r w'] eqn:E. eexists. split_and!; [| | |by rewrite <- E]; [done|done|].
    simpl. by rewrite Hg', decide_True.
Qed.
End outcome.

(** ** Outcomes of a review with a side effect *)

(** The row the reviewer looked at can still be claimed. *)
Definition claimable (d : qdb) (id kind at_ : string) (i : item) : Prop :=
  get (q_items d) id = Some i /\ it_kind i = kind /\ it_status i ∈ REVIEWABLE_STATUSES /\ is_expired i at_ = false.

(** How a review of [id] that asks the service for [c] may end: refused before
    anything was asked, which does not happen when [ready]; or [c] asked for
    exactly once. When the service answers, the review ends with the item at
    [final], unless another request moved the completed item first; when it
    definitely refuses, the item can be reviewed again; when it is not known
    whether it acted, the item awaits reconciliation. *)
Definition side_effect_outcome {L A} (outcome : upstream -> option exn) (interfere : nat -> world L -> world L)
    (id : string) (c : upstream) (final : option status) (ready : Prop) (w : world L) (res : result A * world L) : Prop :=
  let '(r, w') := res in
  db_ok (w_db w') /\
  ((w_calls w' = w_calls w /\ is_ok r = false /\ ~ ready) \/
   w_calls w' = w_calls w ++ [c] /\
   match outcome c with
   | Some e => r = Err e /\ exists s, status_of (w_db w') id = Some s /\
       if _side_effect_definitely_failed e then s ∈ REVIEWABLE_STATUSES else s = REVIEW_SIDE_EFFECT_STARTED
   | None => is_ok r = true /\ status_of (w_db w') id = final \/
       r = Err changed_in_review /\ exists w3, status_of (w_db w3) id = Some REVIEW_SIDE_EFFECT_COMPLETED /\
         w' = interfere 3%nat w3 /\ get (q_items (w_db w')) id <> get (q_items (w_db w3)) id
   end).

(** A finishing step: it removes or decides the completed row, or refuses. *)
Definition finishes {A} (finish : eff qdb A) (id at_ s : string) (final : option status) : Prop :=
  (forall d row, db_ok d -> get (q_items d) id = Some row -> it_status row = REVIEW_SIDE_EFFECT_COMPLETED ->
     it_updated_at row = at_ -> it_sha256 row = s ->
     exists a d', finish d = (Ok a, d') /\ db_ok d' /\ status_of d' id = final) /\
  (forall d e d', finish d = (Err e, d') -> db_ok d -> d' = d /\ e = changed_in_review) /\
  (forall d a d', finish d = (Ok a, d') -> db_ok d -> db_ok d' /\ status_of d' id = final).

Lemma require_state_changed id at_ st sha d e d' :
  _require_review_state id at_ st sha d = (Err e, d') -> e = changed_in_review.
Proof.
  unfold _require_review_state, fetch_item, mbind, eff_bind, get_state, mret, eff_ret, raise.
  repeat case_match; by intros [= <- _].
Qed.

Lemma finishes_intro {A} (k : item -> eff qdb A) id at_ s final :
  let finish := transaction (require_side_effect_completed id at_ (Some s) ≫= k) in
  reviews finish ->
  (forall d row, db_ok d -> get (q_items d) id = Some row -> it_status row = REVIEW_SIDE_EFFECT_COMPLETED ->
     it_updated_at row = at_ -> it_sha256 row = s ->
     exists a d', finish d = (Ok a, d') /\ db_ok d' /\ status_of d' id = final) ->
  finishes finish id at_ s final.
Proof.
  intros finish Hrev Hrun. split_and!; [done| |].
  - intros d e d' He Hd. split; [by apply transaction_err in He as [-> _]|].
    destruct (_require_review_state id at_ REVIEW_SIDE_EFFECT_COMPLETED (Some s) d) as [[row|e1] d1] eqn:E.
    + apply require_state_ok in E as (_ & Hg & _ & Hst & Hat & Hs).
      destruct (Hrun d row Hd Hg Hst Hat (Hs s eq_refl)) as (a & d2 & Hf & _). congruence.
    + apply transaction_err in He as [_ (d2 & He)]. unfold require_side_effect_completed in He.
      rewrite (bind_err _ _ _ _ _ E) in He. injection He as <- _. by eapply require_state_changed.
  - intros d a d' He Hd. split; [by eapply Hrev|].
    pose proof He as He'. apply transaction_ok_inv in He'. apply bind_ok_inv in He' as (row & d1 & E & _).
    apply require_state_ok in E as (_ & Hg & _ & Hst & Hat & Hs).
    destruct (Hrun d row Hd Hg Hst Hat (Hs s eq_refl)) as (a' & d2 & Hf & Hd2 & Hfin). rewrite He in Hf. by injection Hf as _ ->.
Qed.

Lemma approve_retain_finishes id at_ details s : finishes (finish_approve_retain id at_ details (Some s)) id at_ s None.
Proof.
  apply finishes_intro; [apply approve_retain_reviews|]. intros d row Hd Hg Hst Hat Hs.
  destruct (approve_retain_runs id at_ details (Some s) d row Hd Hg Hst Hat) as (d' & Hf & Hd' & Hg' & _); [by intros ? [= <-]|].
  exists (), d'. split_and!; try done. unfold status_of. by rewrite Hg', decide_True.
Qed.

Lemma reject_memory_finishes id at_ s actor :
  finishes (finish_reject_memory id at_ (Some s) actor) id at_ s (Some REVIEWED_BLOCKED).
Proof.
  apply finishes_intro; [apply reject_memory_reviews|]. intros d row Hd Hg Hst Hat Hs.
  destruct (reject_memory_runs id at_ (Some s) actor d row Hd Hg Hst Hat) as (d' & Hf & Hd' & Hg' & _); [by intros ? [= <-]|].
  exists (), d'. split_and!; try done. unfold status_of. by rewrite Hg', decide_True.
Qed.

Section flows.
Context {L : Type} (outcome : upstream -> option exn) (interfere : nat -> world L -> world L) (id : string).
Context `{!Quiet interfere id}.

(** From the claim on. *)
Definition claim_and_ask {A} (i : item) (kind at_ : string) (stale : option Z) (bank : option string) (c : upstream)
    (finish : eff qdb A) : eff (world L) A :=
  claimed ← db (claim_review id kind at_ stale true (Some (it_sha256 i)) (Some (it_updated_at i)) bank);
  after_claim outcome interfere id c claimed at_ (it_sha256 i) finish.

Lemma claim_and_ask_outcome {A} i kind at_ stale bank c (finish : eff qdb A) final w :
  db_ok (w_db w) -> finishes finish id at_ (it_sha256 i) final ->
  side_effect_outcome outcome interfere id c final (claimable (w_db w) id kind at_ i) w
    (claim_and_ask i kind at_ stale bank c finish w).
Proof.
  intros Hd (Hrun & Herr & Hok). unfold claim_and_ask, mbind, eff_bind at 1, db at 1, side_effect_outcome.
  destruct (claim_review _ _ _ _ _ _ _ _ _) as [[claimed|e] d1] eqn:Hc.
  - apply claim_started in Hc as (Hd1 & Hid & Hcl & row & Hg & Hst & Hat & Hsha); [|done].
    set (w1 := mkWorld d1 (w_limiter w) (w_calls w)).
    pose proof (after_claim_outcome outcome interfere id c claimed at_ (it_sha256 i) finish w1 row Hd1 Hid Hcl Hg Hst Hat Hsha) as Hout.
    destruct (after_claim _ _ _ _ _ _ _ _ _) as [r w']. destruct (outcome c) as [e|].
    + destruct Hout as (-> & Hd' & Hcalls & Hs). split; [done|]. right. split; [done|]. split; [done|].
      eexists. split; [exact Hs|]. by destruct (_side_effect_definitely_failed e).
    + destruct Hout as (w3 & Hd3 & Hcalls & Hg3 & Hfin). rewrite <- (quiet_calls 3%nat w3) in Hcalls.
      pose proof (quiet_db 3%nat w3 Hd3) as Hd4. unfold db in Hfin.
      destruct (finish _) as [[a|e] d'] eqn:Hf; injection Hfin as -> ->; simpl.
      * apply Hok in Hf as [Hd' Hs]; [|done]. split; [done|]. right. split; [done|]. by left.
      * pose proof Hf as Hf'. apply Herr in Hf' as [-> ->]; [|done]. split; [done|]. right. split; [done|]. right. split; [done|].
        exists w3. split; [unfold status_of; by rewrite Hg3|]. split; [by destruct (interfere 3%nat w3)|].
        intros Hsame. rewrite Hg3 in Hsame.
        destruct (Hrun _ _ Hd4 Hsame) as (a & d2 & Hf2 & _); [done|done|done|]. congruence.
  - split; [by eapply claim_reviews|]. left. split_and!; try done. intros (Hg & <- & Hst & Hexp).
    destruct (claim_runs id at_ stale true (Some (it_sha256 i)) (Some (it_updated_at i)) bank (w_db w) i Hd Hg Hst Hexp)
      as (d' & Hc' & _); [unfold _assert_snapshot; by rewrite !bool_decide_true|]. congruence.
Qed.
End flows.

(** Answering the caller does not change how a review ended. *)
Lemma outcome_answer {L A B} outcome (interfere : nat -> world L -> world L) id c final ready w (m : eff (world L) A) (b : B) w0 :
  side_effect_outcome outcome interfere id c final ready w (m w0) ->
  side_effect_outcome outcome interfere id c final ready w ((m ≫= fun _ => mret b) w0).
Proof.
  unfold side_effect_outcome, mbind, eff_bind. destruct (m w0) as [[a|e] w']; simpl; [|by destruct (outcome c); naive_solver].
  intros [Hd [(_ & ? & _)|[Hc Ho]]]; [done|]. split; [done|]. right. split; [done|].
  destruct (outcome c) as [e|]; [by destruct Ho as [? _]|]. destruct Ho as [[_ Hs]|[? _]]; [by left|done].
Qed.

Lemma outcome_calls {L A} outcome (interfere : nat -> world L -> world L) id c final ready w0 w (res : result A * world L) :
  w_calls w0 = w_calls w ->
  side_effect_outcome outcome interfere id c final ready w0 res ->
  side_effect_outcome outcome interfere id c final ready w res.
Proof. unfold side_effect_outcome. intros ->. done. Qed.

Lemma outcome_ready {L A} outcome (interfere : nat -> world L -> world L) id c final (ready ready' : Prop) w (res : result A * world L) :
  (ready' -> ready) ->
  side_effect_outcome outcome interfere id c final ready w res ->
  side_effect_outcome outcome interfere id c final ready' w res.
Proof. unfold side_effect_outcome. destruct res. naive_solver. Qed.


(** ** What an approval sends *)

(** The caller of a quarantined request may still write to [bank]: the writer is
    registered for it, or the principal still holds the grant. *)
Definition may_retain (config : AdminConfig) (caller bank : string) : Prop :=
  dict_get caller (ac_writers config) = Some bank \/
  exists r, ac_principal_resolver config = Some r /\ authorize_current r caller SCOPE_MEMORY_RETAIN bank = true.

Lemma retain_target_ok config i payload writer_id bank :
  _retain_target config i payload writer_id = Ok bank -> it_status i <> REVIEW_SIDE_EFFECT_COMPLETED ->
  it_writer_id i = Some writer_id /\ may_retain config writer_id bank.
Proof.
  unfold _retain_target. intros H Hst. case_bool_decide as Hw; simpl in H; [|done]. split; [done|].
  rewrite bool_decide_false in H by done.
  assert (Hleg : forall b, _legacy_retain_bank config writer_id = Ok b -> may_retain config writer_id b).
  { intros b Hb. left. unfold _legacy_retain_bank in Hb. case_match; [by injection Hb as ->|done]. }
  apply result_bind_ok in H as (? & _ & H). apply result_bind_ok in H as (? & _ & H).
  case_match; [by apply Hleg|]. case_match; try done.
  apply result_bind_ok in H as (? & _ & H). apply result_bind_ok in H as (? & _ & H).
  apply result_bind_ok in H as (? & Hg & H). injection H as ->. case_match.
  - unfold _require_principal_retain_grant in Hg. destruct (ac_principal_resolver config) as [r|] eqn:Er; [|done].
    right. exists r. split; [done|]. by destruct (authorize_current _ _ _ _).
  - apply result_bind_ok in Hg as (cur & Hcur & Hg). apply ensure_ok, bool_decide_eq_true in Hg as ->. by apply Hleg.
Qed.

Section sends.
Context `{Rfc8785, UnicodeData}.
Context (config : AdminConfig) {L : Type} (limiter : RateLimiter L) (outcome : upstream -> option exn).
Context (scan_request : list (string * json) -> string -> result bool) (clock : nat -> string).
Context (interfere : nat -> world L -> world L) (id : string).
Context `{!Quiet interfere id}.

(** A run that asks for [c] at most once. *)
Definition asks {A} (m : eff (world L) A) (c : option upstream) : Prop :=
  forall w, w_calls (m w).2 = w_calls w \/ exists c', c = Some c' /\ w_calls (m w).2 = w_calls w ++ [c'].

Lemma asks_weaken {A} (m : eff (world L) A) c : asks m None -> asks m c.
Proof. intros Hm w. destruct (Hm w) as [?|(? & ? & _)]; [by left|done]. Qed.

Lemma asks_bind {A B} (m : eff (world L) A) (k : A -> eff (world L) B) c :
  asks m None -> (forall a, asks (k a) c) -> asks (m ≫= k) c.
Proof.
  intros Hm Hk w. unfold mbind, eff_bind. specialize (Hm w). destruct (m w) as [[a|e] w1]; simpl in *.
  - destruct Hm as [<-|(? & ? & _)]; [apply Hk|done].
  - destruct Hm as [?|(? & ? & _)]; [by left|done].
Qed.

Lemma asks_bind_then {A B} (m : eff (world L) A) (k : A -> eff (world L) B) c :
  asks m c -> (forall a, asks (k a) None) -> asks (m ≫= k) c.
Proof.
  intros Hm Hk w. unfold mbind, eff_bind. specialize (Hm w). destruct (m w) as [[a|e] w1]; simpl in *; [|done].
  destruct (Hk a w1) as [->|(? & ? & _)]; [done|done].
Qed.

Lemma asks_db {A} (m : eff qdb A) c : asks (db m) c.
Proof. intros w. unfold db. destruct (m (w_db w)). by left. Qed.
Lemma asks_charge {A} (m : eff L A) c : asks (charge_limit m) c.
Proof. intros w. unfold charge_limit. destruct (m (w_limiter w)). by left. Qed.
Lemma asks_lift {A} (r : result A) c : asks (lift r) c.
Proof. intros w. by left. Qed.
Lemma asks_raise {A} e c : asks (raise e : eff (world L) A) c.
Proof. intros w. by left. Qed.
Lemma asks_ret {A} (a : A) c : asks (mret a) c.
Proof. intros w. by left. Qed.
Lemma asks_await n c : asks (await_ interfere n) c.
Proof. intros w. left. exact (quiet_calls n w). Qed.

Lemma asks_guarded n c claimed at_ : asks (guarded_call outcome interfere n c claimed at_) (Some c).
Proof.
  intros w. right. exists c. split; [done|]. unfold guarded_call, try_except. rewrite call_run.
  pose proof (quiet_calls n (mkWorld (w_db w) (w_limiter w) (w_calls w ++ [c]))) as Hc.
  destruct (outcome c) as [e|]; [|done]. unfold mbind, eff_bind, raise, mret, eff_ret, db.
  destruct (_side_effect_definitely_failed e); [|done]. by destruct (interrupt_review _ _ _ _) as [[]].
Qed.

Lemma asks_execute i writer_id bank body details :
  asks (_execute_retain_approval config limiter outcome clock interfere id i writer_id bank body details)
    (Some (CallRetain bank body)).
Proof.
  apply asks_bind; [apply asks_charge|intros _]. apply asks_bind; [apply asks_await|intros _].
  apply asks_bind; [apply asks_db|intros claimed]. apply asks_bind_then; [apply asks_guarded|intros _].
  apply asks_bind; [apply asks_db|intros _]. apply asks_bind; [apply asks_await|intros _]. apply asks_db.
Qed.

Lemma asks_memory i decrypted actor :
  asks (_approve_recalled_memory config clock interfere id i decrypted actor) None.
Proof.
  unfold _approve_recalled_memory. repeat case_match; try apply asks_raise.
  repeat (apply asks_bind; [apply asks_lift || apply asks_await || apply asks_db|intros ?]).
  apply asks_bind; [|intros ?; apply asks_bind; [apply asks_lift|intros; apply asks_ret]].
  intros w. left. unfold try_except, mbind, eff_bind, raise, db.
  destruct (finish_approve_memory _ _ _ _ _) as [[]]; [done|]. by destruct (interrupt_review _ _ _ _) as [[]].
Qed.
(** A check failed: nothing was asked. *)
Ltac stop_at E := injection E as _ <-; left; reflexivity.

(** An approval that asked the service for something went through every check. *)
Lemma approve_retain_sends i decrypted actor w :
  w_calls (_approve_retain config limiter outcome scan_request clock interfere id i decrypted actor w).2 = w_calls w \/
  exists payload writer_id bank retain_body safe,
    field_of decrypted "payload" = JDict payload /\
    _retain_target config i payload writer_id = Ok bank /\ parse_retain_body (field_of payload "body") = Ok retain_body /\
    scan_request retain_body writer_id = Ok safe /\ (safe = true \/ it_reason i = "suspicious_content") /\
    assert_retain_bounds (ac_limits config) (JDict retain_body) = Ok () /\ it_status i <> REVIEW_SIDE_EFFECT_COMPLETED /\
    w_calls (_approve_retain config limiter outcome scan_request clock interfere id i decrypted actor w).2 = w_calls w ++
      [CallRetain bank (prepare_retain_body retain_body writer_id (py_or (it_source i) "quarantine_review") bank "approved")].
Proof.
  destruct (_approve_retain config limiter outcome scan_request clock interfere id i decrypted actor w) as [r w'] eqn:E.
  cbn [snd]. unfold _approve_retain in E.
  destruct (field_of decrypted "payload") as [| | | | | |payload]; try (stop_at E).
  unfold lift in E. unfold mbind, eff_bind at 1 in E. destruct (ensure _ _); [|stop_at E].
  unfold eff_bind at 1 in E.
  destruct (match field_of payload "writer_id" with JStr _ => _ | _ => _ end) as [writer_id|]; [|stop_at E].
  unfold eff_bind at 1 in E.
  destruct (_retain_target config i payload writer_id) as [bank|] eqn:Hbank; [|stop_at E].
  unfold eff_bind at 1 in E.
  destruct (parse_retain_body (field_of payload "body")) as [retain_body|] eqn:Hbody; [|stop_at E].
  unfold eff_bind at 1 in E.
  destruct (scan_request retain_body writer_id) as [safe|] eqn:Hscan; [|stop_at E].
  unfold eff_bind at 1 in E. destruct (ensure (safe || _) _) eqn:Hsafe; [|stop_at E].
  unfold eff_bind at 1 in E.
  destruct (assert_retain_bounds _ _) as [[]|] eqn:Hbounds; [|stop_at E].
  apply ensure_ok, orb_true_iff in Hsafe. cbn zeta in E.
  set (send := if bool_decide (it_status i = _) then _ else _) in E.
  assert (Hsend : asks send (if decide (it_status i = REVIEW_SIDE_EFFECT_COMPLETED) then None else
    Some (CallRetain bank (prepare_retain_body retain_body writer_id (py_or (it_source i) "quarantine_review") bank "approved")))).
  { unfold send. destruct (decide (it_status i = _)) as [Hst|Hst];
      [rewrite bool_decide_true by exact Hst; apply asks_db|rewrite bool_decide_false by exact Hst; apply asks_execute]. }
  pose proof (asks_bind_then _ _ _ Hsend (fun _ => asks_ret (JDict [("approved", JBool true); ("quarantine_id", JStr id); ("target_bank", JStr bank)]) None)) as Hall.
  pose proof (f_equal (fun p => w_calls p.2) E) as E'. cbn [snd] in E'. rewrite <- E'.
  destruct (asks_bind _ _ _ (asks_await 0%nat None) (fun _ => Hall) w) as [Hw|(c & Hc & Hw)]; [left; exact Hw|].
  case_decide; [done|]. injection Hc as <-. right. exists payload, writer_id, bank, retain_body, safe.
  split_and!; try done. destruct Hsafe as [?|Hs]; [by left|right]. by apply bool_decide_eq_true in Hs.
Qed.
Lemma verify_exact_ok i value decrypted :
  _verify_exact i value = Ok decrypted ->
  exists text, canonical_decrypted (JDict decrypted) = Ok text /\ sha256_hex text = it_sha256 i /\
    field_of decrypted "writer_id" = jopt (it_writer_id i) /\ field_of decrypted "quarantine_id" = JStr (it_quarantine_id i).
Proof.
  unfold _verify_exact. intros Hv. destruct (it_encrypted i); [|discriminate Hv].
  apply result_bind_ok in Hv as (d & _ & Hv). apply result_bind_ok in Hv as (text & Ht & Hv).
  apply result_bind_ok in Hv as (? & Hs & Hv). apply result_bind_ok in Hv as (? & Hm & Hv). injection Hv as ->.
  apply ensure_ok, bool_decide_eq_true in Hs. apply ensure_ok in Hm. exists text.
  do 3 apply andb_true_iff in Hm as [Hm ?]. split; [exact Ht|]. split; [exact Hs|].
  split; eapply bool_decide_eq_true; eassumption.
Qed.

Lemma claim_candidate_ok d now i :
  _require_claim_candidate d id now = Ok i -> get (q_items d) id = Some i.
Proof.
  unfold _require_claim_candidate, get_required. intros Hr. apply result_bind_ok in Hr as (i' & Hg & Hr).
  apply result_bind_ok in Hr as (? & _ & Hr). apply result_bind_ok in Hr as (? & _ & Hr). injection Hr as ->.
  destruct (negb _); [done|]. destruct (get _ id); [by injection Hg as ->|done].
Qed.

(** C1: an approval sends only what was reviewed. Whatever a reviewer posts
    and however the approval ends, it asks the memory service for nothing, or
    for exactly one retain. Then the item was a quarantined retain request in
    the table, the content the reviewer posted has the item's SHA-256 digest
    and writer, the request in it parses, is within bounds and was found safe
    (or was quarantined for its content), it goes to a bank the writer may
    still write to, and the request is that body with the router's provenance
    metadata for that writer, source and bank. *)
Theorem approve_sends_reviewed body actor w :
  let w' := (approve config limiter outcome scan_request clock interfere id body actor w).2 in
  w_calls w' = w_calls w \/
  exists i decrypted text payload writer_id bank retain_body safe,
    get (q_items (w_db w)) id = Some i /\ it_kind i = "retain_request" /\
    canonical_decrypted (JDict decrypted) = Ok text /\ sha256_hex text = it_sha256 i /\
    field_of decrypted "payload" = JDict payload /\ it_writer_id i = Some writer_id /\
    parse_retain_body (field_of payload "body") = Ok retain_body /\
    scan_request retain_body writer_id = Ok safe /\ (safe = true \/ it_reason i = "suspicious_content") /\
    assert_retain_bounds (ac_limits config) (JDict retain_body) = Ok () /\
    may_retain config writer_id bank /\
    w_calls w' = w_calls w ++
      [CallRetain bank (prepare_retain_body retain_body writer_id (py_or (it_source i) "quarantine_review") bank "approved")].
Proof.
  cbn zeta. destruct (approve config limiter outcome scan_request clock interfere id body actor w) as [r w'] eqn:E.
  cbn [snd]. unfold approve, get_state, lift in E. unfold mbind, eff_bind at 1 in E. unfold eff_bind at 1 in E.
  destruct (_require_claim_candidate _ _ _) as [i|] eqn:Hi; [|stop_at E]. apply claim_candidate_ok in Hi.
  unfold eff_bind at 1 in E. destruct (_verify_exact _ _) as [decrypted|] eqn:Hv; [|stop_at E].
  apply verify_exact_ok in Hv as (text & Ht & Hs & _).
  pose proof (f_equal (fun p => w_calls p.2) E) as E'. cbn [snd] in E'. rewrite <- E'.
  destruct (decide (it_kind i = "retain_request")) as [Hk|_].
  - destruct (approve_retain_sends i decrypted (label actor) w)
      as [?|(payload & writer_id & bank & retain_body & safe & Hp & Htar & Hb & Hsc & Hsafe & Hbd & Hst & Hw)]; [by left|right].
    apply retain_target_ok in Htar as [Hwr Hmay]; [|exact Hst].
    exists i, decrypted, text, payload, writer_id, bank, retain_body, safe.
    repeat (split; [assumption|]). assumption.
  - destruct (decide (it_kind i = "recalled_memory")); [|by left].
    destruct (asks_memory i decrypted (label actor) w) as [?|(? & ? & _)]; [by left|done].
Qed.
End sends.

(** ** Examples *)

Module Example_admin.
Import Example_envelope Example_put.
Definition qid : string := "q_request20240101_0123456789abcdef".
Definition created : string := "2024-01-01T00:00:00.000Z".
Definition now : string := "2024-01-03T00:00:00.000Z".

(** The quarantined request, as the reviewer decrypted it. *)
Definition decrypted : list (string * json) :=
  [("quarantine_id", JStr qid); ("created_at", JStr created); ("reason", JStr "suspicious_content");
   ("writer_id", JStr "alice");
   ("payload", JDict [("action", JStr "retain"); ("writer_id", JStr "alice"); ("identity_mode", JStr "legacy");
                      ("target_bank", JStr "team"); ("body", JDict [("items", JList [JDict [("content", JStr "hello")]])])])].

Definition digest : string := sha256_hex (default "" (rfc8785_dumps (JDict decrypted))).

Definition request : item :=
  mkItem qid created created "retain_request" "suspicious_content" (Some "alice") None None None None None digest
    (Some Example_repository.envelope) (slen (json_dumps Example_repository.envelope)) PENDING 0 0
    (Some "2024-02-01T00:00:00.000Z") (Some "team").

Definition memory_id : string := "q_memory20240101_0123456789abcdef".
Definition memory : item :=
  mkItem memory_id created created "recalled_memory" "recalled_suspicious_memory" None None
    (Some "team") (Some "m1") (Some "ab") None "cd" (Some Example_repository.envelope)
    (slen (json_dumps Example_repository.envelope)) PENDING 0 0 (Some "2024-02-01T00:00:00.000Z") (Some "team").

Definition queue : qdb := mkQdb [memory; request] [] 0.

Lemma admin_queue_ok : db_ok queue.
Proof. split; [reflexivity| |apply NoDup_nil_2|constructor]. repeat constructor; vm_compute; congruence. Qed.

Definition config : AdminConfig := mkAdminConfig [("alice", "team")] default_limit_config 3 60 None.
Definition start : world InMemoryRateLimiter := mkWorld queue in_memory_rate_limiter [].
Definition clock (n : nat) : string := now.
Definition safe_scan (body : list (string * json)) (writer_id : string) : result bool := Ok true.

(** While the service works, another reviewer tries to postpone the item, and stale
    claims are recovered. *)
Definition requests (id : string) (n : nat) : list review_op :=
  if decide (n = 2%nat) then [OpPostpone id now None None None; OpRecover now 0] else [].

#[export] Instance requests_ok id : Quiet (L := InMemoryRateLimiter) (run_requests (requests id)) id.
Proof. apply requests_quiet. simpl. repeat constructor; intros at_ sha []. Qed.

Definition approved (outcome : upstream -> option exn) : result json * world InMemoryRateLimiter :=
  approve config (in_memory_limiter 0) outcome safe_scan clock (run_requests (requests qid)) qid
    [("decrypted", JDict decrypted)] (mkAdminActor (Some "review") None None) start.

(** Approved: sent once, with provenance, and gone from the queue. *)
Example approved_sent :
  (w_calls (approved (fun _ => None)).2, map it_quarantine_id (q_items (w_db (approved (fun _ => None)).2))) =
  ([CallRetain "team" [("items", JList [JDict [("content", JStr "hello");
      ("metadata", JDict [("router_writer_id", JStr "alice"); ("router_source", JStr "quarantine_review");
                          ("router_decision", JStr "approved"); ("router_target_bank", JStr "team")])]])]], [memory_id]).
Proof. vm_compute. reflexivity. Qed.

(** The service timed out: the item waits for reconciliation. *)
Example approved_unknown :
  status_of (w_db (approved (fun _ => Some (EGateway (hindsight_gateway_error KTimeout None None None None None true)))).2) qid =
  Some REVIEW_SIDE_EFFECT_STARTED.
Proof. vm_compute. reflexivity. Qed.
End Example_admin.
Import Example_envelope Example_put Example_admin.


Lemma approve_sends_reviewed_witness : exists bank body,
  w_calls (approved (fun _ => None)).2 = [CallRetain bank body] /\ may_retain config "alice" bank.
Proof.
  destruct (approve_sends_reviewed config (in_memory_limiter 0) (fun _ => None) safe_scan clock (run_requests (requests qid))
    qid [("decrypted", JDict decrypted)] (mkAdminActor (Some "review") None None) start)
    as [Hno|(i & dec & text & payload & writer_id & bank & body & safe & Hg & _ & _ & _ & _ & Hwr & _ & _ & _ & _ & Hmay & Hc)].
  - exfalso. vm_compute in Hno. discriminate.
  - eexists bank, _. split; [exact Hc|]. vm_compute in Hg. injection Hg as <-. injection Hwr as <-. exact Hmay.
Defined.
