(* ===== verification/Paths.v ===== *)
(** * Request paths

    Models [memory_router/paths.py] and the memory route pattern of
    [memory_router/request_dispatch.py]: dot-segment normalisation of the raw
    path, its route class, and decoding of one path segment, which is refused
    when any number of further decodings could turn it into a separator or a
    dot segment. [unquote] is [urllib.parse.unquote] with strict UTF-8. *)

From Stdlib Require Import ZArith Lia Ascii.
From stdpp Require Import base sets strings numbers list.
From S2P Require Import Prelude Errors Text JsonParse FacadeRoutes.

Local Open Scope Z_scope.

(** ** Percent-decoding *)

(** [unquote_to_bytes] on ASCII text: an incomplete escape stays. *)
Fixpoint percent_decode (l : list ascii) : list ascii :=
  match l with
  | [] => []
  | c :: l1 =>
      match is_char_code 37 c, l1 with
      | true, h1 :: h2 :: l3 =>
          match hex_value h1, hex_value h2 with
          | Some a, Some b => chr (16 * a + b) :: percent_decode l3
          | _, _ => c :: percent_decode l1
          end
      | _, _ => c :: percent_decode l1
      end
  end.

Definition is_ascii (c : ascii) : bool := code_of c <? 128.

(** The runs of ASCII characters are decoded one by one, each to valid UTF-8. *)
Fixpoint unquote_runs (fuel : nat) (l : list ascii) : option (list ascii) :=
  match fuel, l with
  | _, [] => Some []
  | O, _ => None
  | S f, _ =>
      let '(run, l') := span is_ascii l in
      let '(rest, l'') := span (fun c => negb (is_ascii c)) l' in
      let decoded := percent_decode run in
      if utf8_chars decoded then tail ← unquote_runs f l''; Some (decoded ++ rest ++ tail) else None
  end.

(** [unquote(value, encoding="utf-8", errors="strict")] *)
Definition unquote (value : string) : option string :=
  if negb (has_char "%" value) then Some value
  else of_chars <$> unquote_runs (String.length value) (chars value).

(** [_INVALID_PERCENT.search]: an escape that is not two hexadecimal digits. *)
Fixpoint invalid_percent (l : list ascii) : bool :=
  match l with
  | [] => false
  | c :: l1 =>
      (is_char_code 37 c && match l1 with
                            | h1 :: h2 :: _ => negb (bool_decide (is_Some (hex_value h1)) && bool_decide (is_Some (hex_value h2)))
                            | _ => true
                            end)
      || invalid_percent l1
  end.

Definition dot_segments : list string := ["."; ".."].

Definition _MAX_PATH_PROBE_DECODES : nat := 8.

Definition invalid_path_encoding (m : string) : exn := raise_http 400 "invalid_path_encoding" m.
Definition invalid_path_segment (m : string) : exn := raise_http 400 "invalid_path_segment" m.

Definition separator_error : exn := invalid_path_segment "encoded path separators are not allowed".
Definition dot_error : exn := invalid_path_segment "dot path segments are not allowed".
Definition malformed_error : exn := invalid_path_encoding "path segment contains malformed percent-encoding".
Definition nested_error : exn := invalid_path_encoding "path segment has excessive nested encoding".

(** The probing loop of [_decode_path_segment] with its [else] clause. *)
Fixpoint probe_segment (n : nat) (probe : string) : result unit :=
  match n with
  | O => if elem probe dot_segments then Err dot_error else Err nested_error
  | S n' =>
      if has_char "/" probe then Err separator_error
      else if elem probe dot_segments then Err dot_error
      else match unquote probe with
           | None => Ok ()
           | Some next => if bool_decide (next = probe) then Ok () else probe_segment n' next
           end
  end.

Definition _decode_path_segment (value : string) : result string :=
  if invalid_percent (chars value) then Err malformed_error
  else match unquote value with
       | None => Err malformed_error
       | Some decoded => _ ← probe_segment _MAX_PATH_PROBE_DECODES decoded; Ok decoded
       end.

(** ** Dot segments *)

(** [_PERCENT_DOT.sub(".", segment)] *)
Fixpoint percent_dot (l : list ascii) : list ascii :=
  match l with
  | [] => []
  | c :: l1 =>
      match is_char_code 37 c, l1 with
      | true, h1 :: h2 :: l3 =>
          if is_char_code 50 h1 && (is_char_code 101 h2 || is_char_code 69 h2) then "."%char :: percent_dot l3
          else c :: percent_dot l1
      | _, _ => c :: percent_dot l1
      end
  end.

(** [dot_segment], when the segment is one. *)
Definition as_dot_segment (segment : string) : option string :=
  let d := of_chars (percent_dot (chars segment)) in
  if elem d dot_segments then Some d else None.

(** [output.pop()] of a list. *)
Definition pop_last {A} (l : list A) : list A := take (length l - 1) l.

Definition _apply_dot_segment (output : list string) (segment : string) (trailing : bool) : list string :=
  let output := if bool_decide (segment = "..") && negb (bool_decide (output = [])) && negb (bool_decide (output = [""]))
                then pop_last output else output in
  if trailing then output ++ [""] else output.

Fixpoint normalize_loop (output segments : list string) : list string :=
  match segments with
  | [] => output
  | s :: rest =>
      match as_dot_segment s with
      | Some d => normalize_loop (_apply_dot_segment output d (bool_decide (rest = []))) rest
      | None => normalize_loop (output ++ [s]) rest
      end
  end.

Definition _normalize_dot_segments (path : string) : string :=
  str_join "/" (normalize_loop [] (str_split "/" path)).

(** ** Route classes *)

(** [MEMORY_ROUTE.fullmatch]: the bank and whether the action is a recall. *)
Definition memory_route (pathname : string) : option (string * bool) :=
  match str_split "/" pathname with
  | [""; "v1"; "default"; "banks"; bank; "memories"] => if bool_decide (bank = "") then None else Some (bank, false)
  | [""; "v1"; "default"; "banks"; bank; "memories"; "recall"] => if bool_decide (bank = "") then None else Some (bank, true)
  | _ => None
  end.

Inductive route_class :=
  | ClassReadiness | ClassLiveness | ClassVersion | ClassMetrics | ClassAdmin | ClassMemory | ClassOpenclaw | ClassUnmatched.

(** [_route_class] of the normalised path. *)
Definition _route_class (raw_path : string) : route_class :=
  let path := _normalize_dot_segments raw_path in
  if elem path ["/health"; "/health/ready"; "/ready"] then ClassReadiness
  else if bool_decide (path = "/health/live") then ClassLiveness
  else if bool_decide (path = "/version") then ClassVersion
  else if bool_decide (path = "/metrics") then ClassMetrics
  else if starts_with "/admin/" path then ClassAdmin
  else if bool_decide (is_Some (memory_route path)) then ClassMemory
  else if starts_with "/v1/default/banks/" path then ClassOpenclaw
  else ClassUnmatched.

(** ** Decoding is safe *)

(** [k] further decodings; [None] when one of them is not UTF-8. *)
Fixpoint decoded_times (k : nat) (s : string) : option string :=
  match k with O => Some s | S k' => unquote s ≫= decoded_times k' end.

Definition safe_segment (s : string) : Prop := has_char "/" s = false /\ s ∉ dot_segments.

(** Further decoding fails or changes nothing. *)
Definition settled (s : string) : Prop := unquote s = None \/ unquote s = Some s.

Lemma decoded_fixed k s q : unquote s = Some s -> decoded_times k s = Some q -> q = s.
Proof. intros Hs. induction k as [|k IH]; simpl; [by intros [= <-]|]. by rewrite Hs. Qed.

Lemma settled_safe k s q : settled s -> safe_segment s -> decoded_times k s = Some q -> safe_segment q.
Proof.
  intros [Hn|Hs] Hsafe Hk; [|by rewrite (decoded_fixed _ _ _ Hs Hk)].
  destruct k as [|k]; simpl in Hk; [by injection Hk as <-|]. by rewrite Hn in Hk.
Qed.

Lemma probe_segment_ok n p :
  probe_segment n p = Ok () <->
  (forall k q, decoded_times k p = Some q -> safe_segment q) /\
  exists k q, (k < n)%nat /\ decoded_times k p = Some q /\ settled q.
Proof.
  revert p. induction n as [|n IH]; intros p; cbn [probe_segment].
  { split; [by destruct (elem p dot_segments)|]. intros [_ (k & q & ? & _)]. lia. }
  assert (Hnow : has_char "/" p = false -> elem p dot_segments = false -> safe_segment p)
    by (intros ? ?%elem_false; done).
  split.
  - destruct (has_char "/" p) eqn:E1; [done|]. destruct (elem p dot_segments) eqn:E2; [done|].
    specialize (Hnow eq_refl eq_refl). destruct (unquote p) as [next|] eqn:Eu.
    + case_bool_decide as Hnx.
      * intros _. subst next. split; [|exists 0%nat, p; split_and!; [lia|done|by right]].
        intros k q. apply settled_safe; [by right|done].
      * intros [Hall (k & q & Hk & Hq & Hset)]%IH. split.
        -- intros [|j] r Hr; simpl in Hr; [by injection Hr as <-|]. rewrite Eu in Hr. by eapply Hall.
        -- exists (S k), q. split_and!; [lia| |done]. simpl. by rewrite Eu.
    + intros _. split; [|exists 0%nat, p; split_and!; [lia|done|by left]]. intros k q. apply settled_safe; [by left|done].
  - intros [Hall (k & q & Hk & Hq & Hset)]. destruct (Hall 0%nat p eq_refl) as [-> Hd].
    rewrite (proj2 (elem_false _ _) Hd). destruct (unquote p) as [next|] eqn:Eu; [|done].
    case_bool_decide as Hnx; [done|]. apply IH. split.
    + intros j r Hr. apply (Hall (S j)). simpl. by rewrite Eu.
    + destruct k as [|k]; simpl in Hq.
      * injection Hq as <-. destruct Hset; congruence.
      * rewrite Eu in Hq. exists k, q. split_and!; [lia|done|done].
Qed.

(** ** Normalised paths *)

Lemma normalize_loop_clean output segments :
  (forall s, s ∈ output -> as_dot_segment s = None) ->
  forall s, s ∈ normalize_loop output segments -> as_dot_segment s = None.
Proof.
  revert output. induction segments as [|x segments IH]; intros output Ho s; [apply Ho|]. cbn [normalize_loop].
  destruct (as_dot_segment x) as [d|] eqn:E.
  - apply IH. intros r Hr. unfold _apply_dot_segment, pop_last in Hr.
    assert (Hsub : forall o, (forall s, s ∈ o -> as_dot_segment s = None) -> forall r, r ∈ take (length o - 1) o -> as_dot_segment r = None).
    { intros o Hall r' Hr'. apply Hall. rewrite <- (take_drop (length o - 1) o). apply elem_of_app. by left. }
    destruct (bool_decide (segments = [])); [apply elem_of_app in Hr as [Hr|Hr]|].
    2: by apply list_elem_of_singleton in Hr as ->.
    all: destruct (_ && _ && _); [by eapply Hsub|by apply Ho].
  - apply IH. intros r [Hr|Hr]%elem_of_app; [by apply Ho|]. by apply list_elem_of_singleton in Hr as ->.
Qed.

Lemma normalize_loop_id output segments :
  (forall s, s ∈ segments -> as_dot_segment s = None) -> normalize_loop output segments = output ++ segments.
Proof.
  revert output. induction segments as [|x segments IH]; intros output Hs; simpl; [by rewrite app_nil_r|].
  rewrite (Hs x) by (by left). rewrite IH by (intros; apply Hs; by right). by rewrite <- app_assoc.
Qed.

(** What is in the output came from the path, or is the empty text. *)
Lemma normalize_loop_from output segments s :
  s ∈ normalize_loop output segments -> s ∈ output \/ s ∈ segments \/ s = "".
Proof.
  revert output. induction segments as [|x segments IH]; intros output Hs; [by left|]. cbn [normalize_loop] in Hs.
  assert (Hpop : forall o : list string, s ∈ pop_last o -> s ∈ o)
    by (intros o Ho; rewrite <- (take_drop (length o - 1) o); apply elem_of_app; by left).
  destruct (as_dot_segment x) as [d|].
  - apply IH in Hs as [Hs|[?|?]]; [|right; left; by right|by right; right]. unfold _apply_dot_segment in Hs.
    destruct (bool_decide (segments = [])); [apply elem_of_app in Hs as [Hs|Hs]|];
      [|right; right; by apply list_elem_of_singleton in Hs|];
      left; destruct (_ && _ && _); auto.
  - apply IH in Hs as [Hs|[?|?]]; [|right; left; by right|by right; right].
    apply elem_of_app in Hs as [?|Hs]; [by left|]. apply list_elem_of_singleton in Hs as ->. right; left; by left.
Qed.

Lemma apply_dot_root o d trailing : exists o', _apply_dot_segment ("" :: o) d trailing = "" :: o' /\ (trailing = true -> o' <> []).
Proof.
  unfold _apply_dot_segment.
  assert (Hout : exists o1, (if bool_decide (d = "..") && negb (bool_decide ("" :: o = [])) && negb (bool_decide ("" :: o = [""]))
    then pop_last ("" :: o) else "" :: o) = "" :: o1).
  { destruct (_ && _ && _) eqn:E; [|by eexists]. split_bool. unfold pop_last. destruct o as [|y o]; [done|].
    simpl. by eexists. }
  destruct Hout as [o1 ->]. destruct trailing; [|by eexists]. simpl. eexists. split; [done|]. intros _. by destruct o1.
Qed.

Lemma normalize_loop_root o segments :
  segments <> [] -> exists o', normalize_loop ("" :: o) segments = "" :: o' /\ o' <> [].
Proof.
  revert o. induction segments as [|x segments IH]; intros o Hne; [done|]. cbn [normalize_loop].
  destruct (as_dot_segment x) as [d|].
  - destruct (apply_dot_root o d (bool_decide (segments = []))) as (o1 & -> & Ht). destruct segments as [|y l].
    + exists o1. split; [done|]. by apply Ht.
    + by apply IH.
  - simpl. destruct segments as [|y l]; [eexists; split; [done|]; by destruct o|]. by apply IH.
Qed.

Lemma split_chars_elem sep acc l x c :
  (forall c, c ∈ acc -> c <> sep) -> x ∈ split_chars sep acc l -> c ∈ x -> c <> sep.
Proof.
  revert acc. induction l as [|a l IH]; intros acc Hacc Hx Hc; simpl in Hx;
    assert (Hrev : forall b, b ∈ rev acc -> b ∈ acc) by (intros b; rewrite !list_elem_of_In; by rewrite <- List.in_rev).
  - apply list_elem_of_singleton in Hx as ->. by apply Hacc, Hrev.
  - destruct (ascii_dec a sep).
    + apply elem_of_cons in Hx as [->|Hx]; [by apply Hacc, Hrev|].
      eapply (IH []); [|done|done]. by intros ? ?%elem_of_nil.
    + eapply (IH (a :: acc)); [|done|done]. intros b [->|Hb]%elem_of_cons; [done|by apply Hacc].
Qed.

Lemma str_split_no_char sep s : Forall (no_char sep) (str_split sep s).
Proof.
  apply list.Forall_forall. intros x Hx c Hc. unfold str_split in Hx. apply list_elem_of_fmap in Hx as (y & -> & Hy).
  rewrite chars_of_chars in Hc. eapply split_chars_elem; [|done|done]. by intros ? ?%elem_of_nil.
Qed.

(** The segments of a normalised path. *)
Lemma normalize_segments path :
  str_split "/" (_normalize_dot_segments path) = normalize_loop [] (str_split "/" path).
Proof.
  unfold _normalize_dot_segments. change "/" with (String "/"%char "") at 1. apply str_split_join.
  - pose proof (str_split_nonempty "/" path) as Hne.
    assert (Hlast : forall output segments, segments <> [] -> normalize_loop output segments <> []).
    { intros output segments. revert output. induction segments as [|x l IH]; intros output Hl; [done|]. cbn [normalize_loop].
      destruct (as_dot_segment x) as [d|]; (destruct l as [|y l]; [|by apply IH]); cbn [normalize_loop].
      - unfold _apply_dot_segment. rewrite bool_decide_true by done. cbn zeta. intros Hnil. by apply app_eq_nil in Hnil as [_ ?].
      - by destruct output. }
    by apply Hlast.
  - apply list.Forall_forall. intros s [Hs|[Hs|Hs]]%normalize_loop_from.
    + by apply elem_of_nil in Hs.
    + pose proof (str_split_no_char "/" path) as Hall. rewrite list.Forall_forall in Hall. by apply Hall.
    + subst s. intros c Hc. by apply elem_of_nil in Hc.
Qed.

(** ** Properties *)

(** A decoded path segment cannot turn into a separator. [_decode_path_segment]
    accepts exactly the segments whose escapes are well formed and decode to
    UTF-8, that settle within the probing bound, and of which no number of
    further decodings, by whatever stands behind the router, contains a slash
    or is a dot segment; it returns the text decoded once. *)
Lemma decode_path_segment_exact value decoded :
  _decode_path_segment value = Ok decoded <->
  invalid_percent (chars value) = false /\ unquote value = Some decoded /\
  (forall k s, decoded_times k decoded = Some s -> has_char "/" s = false /\ s <> "." /\ s <> "..") /\
  (exists k s, (k < _MAX_PATH_PROBE_DECODES)%nat /\ decoded_times k decoded = Some s /\ settled s).
Proof.
  assert (Hdots : forall s, s ∉ dot_segments <-> s <> "." /\ s <> "..")
    by (intros s; unfold dot_segments; rewrite !not_elem_of_cons; split; [intros (? & ? & _)|intros [? ?]]; by repeat split; try apply not_elem_of_nil).
  unfold _decode_path_segment. destruct (invalid_percent (chars value)); [split; [done|by intros [? _]]|].
  destruct (unquote value) as [d|]; [|split; [done|by intros (_ & ? & _)]]. split.
  - intros ([] & Hp & [= ->])%result_bind_ok. apply probe_segment_ok in Hp as [Hall Hset]. split_and!; try done.
    intros k s Hk. destruct (Hall k s Hk) as [? ?%Hdots]. tauto.
  - intros (_ & [= ->] & Hall & Hset).
    assert (Hp : probe_segment _MAX_PATH_PROBE_DECODES decoded = Ok ()).
    { apply probe_segment_ok. split; [|done]. intros k s Hk. destruct (Hall k s Hk) as [? ?]. split; [done|by apply Hdots]. }
    by rewrite Hp.
Qed.

(** Normalisation removes every dot segment, plain or percent-encoded, for
    good: no segment of the result is one, normalising again changes nothing,
    and a path that starts at the root still does, so no request escapes the
    root. *)
Lemma normalize_clean path :
  (forall s, s ∈ str_split "/" (_normalize_dot_segments path) -> as_dot_segment s = None) /\
  _normalize_dot_segments (_normalize_dot_segments path) = _normalize_dot_segments path /\
  (starts_with "/" path = true -> starts_with "/" (_normalize_dot_segments path) = true).
Proof.
  assert (Hclean : forall s, s ∈ normalize_loop [] (str_split "/" path) -> as_dot_segment s = None)
    by (intros s; apply normalize_loop_clean; by intros ? ?%elem_of_nil).
  split_and!.
  - intros s. rewrite normalize_segments. apply Hclean.
  - unfold _normalize_dot_segments at 1. rewrite normalize_segments. by rewrite (normalize_loop_id []) by done.
  - intros [t ->]%starts_with_inv. unfold _normalize_dot_segments.
    assert (Hsp : exists l, str_split "/" ("/" +:+ t) = "" :: l /\ l <> []).
    { exists (str_split "/" t). split; [|apply str_split_nonempty]. done. }
    destruct Hsp as (l & -> & Hl). cbn [normalize_loop]. change (as_dot_segment "") with (@None string). cbn [app].
    destruct (normalize_loop_root [] l Hl) as (o & -> & Ho).
    destruct o as [|y o]; [done|]. exact (starts_with_app "/" (str_join "/" (y :: o))).
Qed.

(** ** Examples *)

Example segments_decoded : map (fun s => is_ok (_decode_path_segment s))
  ["a%20b"; "%c3%a9"; "%25ff"; "%2e"; "%252e%252E"; "a%252fb"; "%"; "%ff"; "%25252525252525252525"] =
  [true; true; true; false; false; false; false; false; false].
Proof. vm_compute. reflexivity. Qed.

Example paths_normalized : map _normalize_dot_segments ["/a/../b"; "/.."; "/%2e%2E/x/."; "a/.."; "/a/./b/"; "/../../etc"] =
  ["/b"; "/"; "/x/"; ""; "/a/b/"; "/etc"].
Proof. vm_compute. reflexivity. Qed.

Lemma decode_path_segment_exact_witness :
  _decode_path_segment "a%252520b" = Ok "a%2520b" /\ (forall s, decoded_times 5 "a%2520b" = Some s -> has_char "/" s = false).
Proof.
  assert (Hd : _decode_path_segment "a%252520b" = Ok "a%2520b") by (vm_compute; reflexivity). split; [exact Hd|]. intros s Hs.
  exact (proj1 (proj1 (proj2 (proj2 (proj1 (decode_path_segment_exact _ _) Hd))) 5%nat s Hs)).
Defined.

Lemma normalize_clean_witness : starts_with "/" (_normalize_dot_segments "/a/%2e%2e/../b") = true.
Proof. apply (proj2 (proj2 (normalize_clean "/a/%2e%2e/../b"))). reflexivity. Defined.
