(* ===== verification/Hindsight.v ===== *)
(** * The client of the memory service

    Models [memory_router/hindsight.py]: requests, reading and checking
    responses, and the operations of the gateway. The network is a parameter:
    [send] answers a request with a response (its status, headers and body in
    chunks, perhaps cut short), a timeout or a transport error, and may change
    an arbitrary state. [json.loads] here refuses [NaN] and [Infinity], which
    the check for finite numbers that follows does as well; bodies are UTF-8.
    The metric for degraded banks is not modelled. *)

From Stdlib Require Import ZArith Lia Ascii.
From stdpp Require Import base sets strings numbers list.
From S2P Require Import Prelude Errors Text Json JsonParse Envelope Validation Paths.

Local Open Scope Z_scope.

Definition DEFAULT_HINDSIGHT_MAX_RESPONSE_BYTES : Z := 4 * 1024 * 1024.
Definition MAX_FACADE_RESPONSE_BYTES : Z := 256 * 1024.
Definition MAX_HINDSIGHT_JSON_DEPTH : Z := 64.
Definition BANK_LIST_PAGE_LIMIT : Z := 500.
Definition MAX_BANK_LIST_PAGES : nat := 1000.

(** ** URLs *)

(** The characters [quote] never escapes. *)
Definition always_safe (c : ascii) : bool := is_alnum c || elem c ["_"; "."; "-"; "~"]%char.

Definition upper_hex (n : Z) : ascii := if n <? 10 then chr (48 + n) else chr (55 + n).
Definition percent_encode (c : ascii) : list ascii :=
  if always_safe c then [c] else ["%"%char; upper_hex (code_of c / 16); upper_hex (code_of c mod 16)].

(** [quote(value, safe="")] *)
Definition quote (value : string) : string := of_chars (concat (map percent_encode (chars value))).

(** [quote_plus] and [urlencode] of pairs. *)
Definition quote_plus (value : string) : string :=
  of_chars (concat (map (fun c => if bool_decide (c = " "%char) then ["+"%char] else percent_encode c) (chars value))).
Definition urlencode (query : list (string * string)) : string :=
  str_join "&" (map (fun kv => quote_plus kv.1 +:+ "=" +:+ quote_plus kv.2)%string query).

(** [value.rstrip("/")] *)
Definition rstrip_slash (value : string) : string := of_chars (rev ((span (is_char_code 47) (rev (chars value))).2)).

(** ** Checks on values *)

Definition _assert_response_depth (value : json) : result unit :=
  match assert_json_depth value MAX_HINDSIGHT_JSON_DEPTH with
  | Some (Ok _) => Ok ()
  | Some (Err _) => Err (EValueError "upstream JSON nesting depth exceeds limit")
  | None => Err (EOther "out of fuel")
  end.

(** [_assert_finite_numbers], one iteration of its loop per unit of fuel. *)
Fixpoint finite_loop (fuel : nat) (stack : list json) : option (result unit) :=
  match fuel with
  | O => None
  | S f =>
      match stack with
      | [] => Some (Ok ())
      | current :: stack' =>
          if match current with JFloat t => negb (isfinite t) | _ => false end
          then Some (Err (EValueError "upstream JSON contains a non-finite number"))
          else finite_loop f (push_all (children current) stack')
      end
  end.

Definition _assert_finite_numbers (value : json) : result unit :=
  default (Err (EOther "out of fuel")) (finite_loop (S (json_size value)) [value]).

(** [_validated_bank_page]; [isinstance(total, int)] holds of booleans. *)
Definition bank_entry_id (v : json) : option string :=
  match v with JDict d => match dict_get "bank_id" d with Some (JStr s) => Some s | _ => None end | _ => None end.

Definition _validated_bank_page (value : json) : result (list json * Z) :=
  match value with
  | JDict d =>
      match dict_get "banks" d, dict_get "total" d with
      | Some (JList banks), Some total =>
          n ← match total with
              | JInt n => Ok n
              | JBool b => Ok (if b then 1 else 0)
              | _ => Err (EValueError "invalid bank list")
              end;
          _ ← ensure (0 <=? n) (EValueError "invalid bank list");
          _ ← ensure (forallb (fun b => bool_decide (is_Some (bank_entry_id b))) banks) (EValueError "invalid bank entry");
          Ok (banks, n)
      | _, _ => Err (EValueError "invalid bank list")
      end
  | _ => Err (EValueError "invalid bank list")
  end.

(** *** Scores of recalled memories *)

(** The decimal [(-1)^neg * n * 10^e] of a finite float's text. *)
Definition float_decimal (t : string) : option (bool * Z * Z) :=
  match scan_integer (chars t) with
  | None => None
  | Some (sign, ds, l1) =>
      let '(frac, l2) := scan_fraction l1 in
      let '(ex, _) := scan_exponent l2 in
      Some (negb (bool_decide (sign = [])), digits_number (ds ++ frac), default 0 ex - Z.of_nat (length frac))
  end.

Definition decimal_above_one (n e : Z) : bool := let '(a, b) := decimal_fraction n e in b <? a.
Definition decimal_integer (n e : Z) : bool := let '(a, b) := decimal_fraction n e in a mod b =? 0.

(** A number that is finite and not negative; at most one when [capped]. *)
Definition valid_score (capped : bool) (score : json) : bool :=
  match score with
  | JInt n => (0 <=? n) && negb (capped && (1 <? n))
  | JFloat t =>
      match float_decimal t with
      | Some (neg, n, e) => isfinite t && negb (neg && negb (n =? 0)) && negb (capped && negb neg && decimal_above_one n e)
      | None => false
      end
  | _ => false
  end.

Definition _RECALL_SCORE_FIELDS : list string := ["final"; "reranker"; "semantic"; "keyword"].

Definition _valid_recall_scores (value : json) : bool :=
  match value with
  | JDict d =>
      bool_decide (is_Some (dict_get "final" d)) && forallb (fun kv => elem kv.1 _RECALL_SCORE_FIELDS) d
      && forallb (fun kv => (is_null kv.2 && negb (bool_decide (kv.1 = "final")))
                            || valid_score (elem kv.1 ["reranker"; "semantic"]) kv.2) d
  | _ => false
  end.

(** [_HindsightRecallResult], a dictionary with the scores it was built with;
    a plain dictionary has none. *)
Record recall_result := mkRecallResult { rr_value : list (string * json); rr_scores : option (list (string * json)) }.

Definition same_type (a b : json) : bool :=
  match a, b with
  | JNull, JNull | JBool _, JBool _ | JInt _, JInt _ | JFloat _, JFloat _ | JStr _, JStr _ | JList _, JList _ | JDict _, JDict _ => true
  | _, _ => false
  end.

Definition neutral_score (v : json) : json :=
  match v with
  | JFloat t =>
      match float_decimal t with
      | Some (_, n, e) => if decimal_integer n e then JList [JStr ""; JStr ""] else JStr ""
      | None => JStr ""
      end
  | JInt _ | JBool _ => JStr ""
  | _ => JNull
  end.

(** [None] when the result is scanned as it is. *)
Definition scan_view (r : recall_result) : option (list (string * json)) :=
  match rr_scores r, dict_get "scores" (rr_value r) with
  | Some snapshot, Some (JDict scores) =>
      if forallb (fun kv => match dict_get kv.1 scores with
                            | Some v => same_type v kv.2 && bool_decide (v = kv.2)
                            | None => false
                            end) snapshot
         && forallb (fun kv => bool_decide (is_Some (dict_get kv.1 snapshot))) scores
      then Some (dict_set "scores" (JDict (map (fun kv => (kv.1, neutral_score kv.2)) snapshot)) (rr_value r))
      else None
  | _, _ => None
  end.

Definition recall_score_certification (r : recall_result) : string :=
  match rr_scores r with
  | Some _ => if bool_decide (is_Some (scan_view r)) then "certified" else "snapshot_changed"
  | None => if _valid_recall_scores (default JNull (dict_get "scores" (rr_value r))) then "eligible_without_provenance"
            else "ineligible"
  end.

(** ** HTTP *)

Record http_request := mkHttpRequest {
  rq_method : string; rq_url : string; rq_headers : list (string * string); rq_json : option json
}.

(** How a streamed body ends. *)
Inductive stream_end := StreamDone | StreamTimeout | StreamFailed.

Record http_response := mkHttpResponse {
  rs_status : Z; rs_headers : list (string * string); rs_chunks : list string; rs_end : stream_end
}.

Inductive transport := SendTimeout | SendFailed | Received (r : http_response).

Definition is_success (status : Z) : bool := (200 <=? status) && (status <? 300).

Definition lower_char (c : ascii) : ascii := if is_upper c then chr (code_of c + 32) else c.
Definition lower (s : string) : string := of_chars (map lower_char (chars s)).
(** [value.strip()] on header text. *)
Definition strip (s : string) : string :=
  let blank c := elem (code_of c) [32; 9; 10; 11; 12; 13] in
  of_chars (rev ((span blank (rev ((span blank (chars s)).2))).2)).

(** [HindsightGatewayError(kind, operation=..., method=..., ...)] *)
Definition gateway_error (kind : gateway_kind) (status : option Z) (operation method : string) : exn :=
  EGateway (hindsight_gateway_error kind status (Some operation) (Some method) None None false).

Definition _raise_http_error {A} (r : http_response) (operation method : string) (preserve_status : bool) : result A :=
  let status := rs_status r in
  let client_status := if preserve_status && (400 <=? status) && (status <? 500) && negb (elem status [401; 403])
                       then Some status else None in
  Err (EGateway (hindsight_gateway_error KHttp (Some status) (Some operation) (Some method) None client_status false)).

Definition _response_too_large (r : http_response) (limit : Z) : bool :=
  match dict_get "content-length" (rs_headers r) with
  | Some s => class_match is_digit 1 (slen s) s && (limit <? digits_number (chars s))
  | None => false
  end.

(** Reading a body: the exceptions of the stream are kept apart from the
    limit. *)
Inductive body_read := BodyRead (raw : string) | BodyTooLarge | BodyTimeout | BodyFailed.

(** The chunks, read while their size is within the limit. *)
Fixpoint read_chunks (size limit : Z) (chunks : list string) (ending : stream_end) : body_read :=
  match chunks with
  | [] => match ending with StreamDone => BodyRead "" | StreamTimeout => BodyTimeout | StreamFailed => BodyFailed end
  | c :: rest =>
      let size := size + slen c in
      if limit <? size then BodyTooLarge
      else match read_chunks size limit rest ending with BodyRead tail => BodyRead (c +:+ tail) | other => other end
  end.

(** What is wrong with a body, as [_read_response] reports it. *)
Definition parse_body (raw : string) : result json :=
  match json_loads_bytes false true raw with
  | None => Err (EValueError "JSONDecodeError")
  | Some value => _ ← _assert_response_depth value; _ ← _assert_finite_numbers value; Ok value
  end.

Section gateway.
Context {H : Type} (send : http_request -> eff H transport).
Context (base_url : string) (api_key request_id : option string) (timeout_ms max_response_bytes : Z).

Definition timeout_error (operation method : string) : exn :=
  EGateway (hindsight_gateway_error KTimeout None (Some operation) (Some method) (Some timeout_ms) None false).
Definition network_error (operation method : string) : exn := gateway_error KNetwork None operation method.

(** [_read_response], with the exceptions of the stream already turned into
    gateway errors as the caller does. *)
Definition _read_response (r : http_response) (limit : Z) (operation method : string) (allow_empty : bool) : result json :=
  let status := Some (rs_status r) in
  if negb (bool_decide (lower (strip (default "identity" (dict_get "content-encoding" (rs_headers r)))) = "identity"))
  then Err (gateway_error KInvalidResponse status operation method)
  else
    match read_chunks 0 limit (rs_chunks r) (rs_end r) with
    | BodyTooLarge => Err (gateway_error KResponseTooLarge status operation method)
    | BodyTimeout => Err (timeout_error operation method)
    | BodyFailed => Err (network_error operation method)
    | BodyRead raw =>
        if bool_decide (raw = ""%string) then
          if allow_empty then Ok JNull else Err (gateway_error KInvalidResponse status operation method)
        else match parse_body raw with
             | Ok value => Ok value
             | Err _ => Err (gateway_error KInvalidResponse status operation method)
             end
    end.

Definition request_headers (body : option json) : list (string * string) :=
  [("accept-encoding", "identity")]
  ++ match body with Some _ => [("content-type", "application/json")] | None => [] end
  ++ (if truthy api_key then [("authorization", "Bearer " +:+ default "" api_key)] else [])
  ++ (if truthy request_id then [("x-request-id", default "" request_id)] else []).

Definition _request (operation method path : string) (body : option json) (preserve_http_status : bool)
    (response_limit expected_status : option Z) (allow_empty_response : bool) : eff H json :=
  let limit := default max_response_bytes response_limit in
  t ← send (mkHttpRequest method (rstrip_slash base_url +:+ path) (request_headers body) body);
  lift (match t with
        | SendTimeout => Err (timeout_error operation method)
        | SendFailed => Err (network_error operation method)
        | Received r =>
            let status := Some (rs_status r) in
            if negb (is_success (rs_status r)) then _raise_http_error r operation method preserve_http_status
            else if match expected_status with Some s => negb (rs_status r =? s) | None => false end
            then Err (gateway_error KInvalidResponse status operation method)
            else if _response_too_large r limit then Err (gateway_error KResponseTooLarge status operation method)
            else _read_response r limit operation method allow_empty_response
        end).

Definition plain_request (operation method path : string) (body : option json) : eff H json :=
  _request operation method path body false None None false.

(** ** Operations *)

Definition bank_path (bank_id : string) : string := ("/v1/default/banks/" +:+ quote bank_id)%string.

Definition retain (bank_id : string) (body : list (string * json)) : eff H (list (string * json)) :=
  value ← plain_request "retain" "POST" (bank_path bank_id +:+ "/memories")%string (Some (JDict body));
  match value with
  | JDict d => mret d
  | _ => raise (gateway_error KInvalidResponse None "retain" "POST")
  end.

(** [RecallResponse.model_validate] and the results it holds. *)
Definition opt_map (d : list (string * json)) (key : string) : bool :=
  match dict_get key d with None | Some JNull | Some (JDict _) => true | _ => false end.
Definition valid_recall_result (v : json) : bool :=
  match v with
  | JDict d => match dict_get "id" d, dict_get "text" d with Some (JStr _), Some (JStr _) => true | _, _ => false end
  | _ => false
  end.
Definition validate_recall_response (value : json) : result (list (string * json) * list json) :=
  match value with
  | JDict d =>
      match dict_get "results" d with
      | Some (JList results) =>
          _ ← ensure (forallb valid_recall_result results && opt_map d "chunks" && opt_map d "entities"
                      && opt_map d "source_facts" && opt_map d "trace") (EValueError "ValidationError");
          Ok (d, results)
      | _ => Err (EValueError "ValidationError")
      end
  | _ => Err (EValueError "ValidationError")
  end.

Definition certified_result (v : json) : recall_result :=
  match v with
  | JDict d =>
      match dict_get "scores" d with
      | Some (JDict s) => mkRecallResult d (if _valid_recall_scores (JDict s) then Some s else None)
      | _ => mkRecallResult d None
      end
  | _ => mkRecallResult [] None
  end.

(** A recall response: its fields, and its results in place of the list. *)
Record recall_response := mkRecallResponse { rc_fields : list (string * json); rc_results : list recall_result }.

Definition check_recall `{Rfc8785} (value : json) : result recall_response :=
  _ ← _assert_response_depth value;
  '(d, results) ← validate_recall_response value;
  _ ← (if forallb (fun v => match v with
                            | JDict r => is_ok (canonical_json (JDict [("id", field_of r "id"); ("text", field_of r "text")]))
                            | _ => true
                            end) results
       then Ok () else Err (EValueError "canonical"));
  Ok (mkRecallResponse d (map certified_result results)).

Definition recall `{Rfc8785} (bank_id : string) (body : list (string * json)) : eff H recall_response :=
  value ← plain_request "recall" "POST" (bank_path bank_id +:+ "/memories/recall")%string (Some (JDict body));
  match check_recall value with
  | Ok r => mret r
  | Err _ => raise (gateway_error KInvalidResponse None "recall" "POST")
  end.

(** [_list_visible_banks]; [expired n] says that the deadline of the whole
    listing passes while page [n] is fetched. *)
Definition bank_query (q : option string) (offset : Z) : list (string * string) :=
  [("limit", str_of_Z BANK_LIST_PAGE_LIMIT); ("offset", str_of_Z offset)]
  ++ match q with Some q => [("q", q)] | None => [] end.

Definition visible_in (allowed : list string) (b : json) : bool :=
  match bank_entry_id b with Some id => elem id allowed | None => false end.

Fixpoint list_pages (pages : nat) (expired : nat -> bool) (allowed : list string) (q : option string)
    (visible : list json) (upstream_offset : Z) : eff H (list json) :=
  match pages with
  | O => raise (gateway_error KInvalidResponse None "list_banks" "GET")
  | S pages' =>
      if expired pages' then raise (timeout_error "list_banks" "GET")
      else
        value ← plain_request "list_banks" "GET" ("/v1/default/banks?" +:+ urlencode (bank_query q upstream_offset))%string None;
        match _validated_bank_page value with
        | Err _ => raise (gateway_error KInvalidResponse None "list_banks" "GET")
        | Ok (banks, total) =>
            let visible := visible ++ List.filter (visible_in allowed) banks in
            let upstream_offset := upstream_offset + Z.of_nat (length banks) in
            if bool_decide (banks = []) || (total <=? upstream_offset) || bool_decide (length visible = length allowed)
            then mret visible
            else list_pages pages' expired allowed q visible upstream_offset
        end
  end.

Record bank_listing := mkBankListing { bl_banks : list json; bl_total : Z; bl_limit : Z; bl_offset : Z }.

(** [allowed] is a set: duplicates of the list do not count. *)
Definition list_banks (expired : nat -> bool) (allowed_banks : list string) (q : option string) (limit offset : Z)
    : eff H bank_listing :=
  visible ← list_pages MAX_BANK_LIST_PAGES expired (dict_fromkeys allowed_banks) q [] 0;
  mret (mkBankListing (take (Z.to_nat limit) (drop (Z.to_nat offset) visible)) (Z.of_nat (length visible)) limit offset).

Definition openclaw_request (operation method path : string) (body : option json) (expected_status : Z)
    (allow_empty_response : bool) : eff H json :=
  _request operation method path body true (Some (Z.min max_response_bytes MAX_FACADE_RESPONSE_BYTES))
    (Some expected_status) allow_empty_response.

Definition invalidate_memory (bank_id memory_id reason : string) : eff H unit :=
  _ ← plain_request "invalidate_memory" "PATCH" (bank_path bank_id +:+ "/memories/" +:+ quote memory_id)%string
        (Some (JDict [("state", JStr "invalidated"); ("reason", JStr reason)]));
  mret ().

(** *** Health and version *)

Definition invalid_response {A} (operation : string) : eff H A := raise (gateway_error KInvalidResponse None operation "GET").

(** A number where a float is expected, as the model dumps it. *)
Definition as_float (v : json) : option json :=
  match v with
  | JFloat _ => Some v
  | JInt n => Some (JFloat (float_repr (n <? 0) (Z.abs n) 0))
  | _ => None
  end.

Definition health_fields (d : list (string * json)) : option (list (string * json)) :=
  acquire ← match field_of d "db_acquire_ms" with
            | JNull => Some []
            | v => v' ← as_float v; Some [("db_acquire_ms", v')]
            end;
  waiting ← match field_of d "db_pool_waiting" with
            | JNull => Some []
            | JInt n => Some [("db_pool_waiting", JInt n)]
            | _ => None
            end;
  if bool_decide (dict_get "status" d = Some (JStr "healthy")) && bool_decide (dict_get "database" d = Some (JStr "connected"))
  then Some ([("status", JStr "healthy"); ("database", JStr "connected")] ++ acquire ++ waiting)
  else None.

Definition health : eff H (list (string * json)) :=
  value ← plain_request "health" "GET" "/health" None;
  match value with
  | JDict d => match health_fields d with Some h => mret h | None => invalid_response "health" end
  | _ => invalid_response "health"
  end.

Definition FEATURES : list string :=
  ["observations"; "mcp"; "worker"; "bank_config_api"; "bank_llm_health"; "file_upload_api"; "document_export_api";
   "document_import_api"; "audit_log"; "llm_trace"; "store_document_text"].
Definition _UNSUPPORTED_FACADE_FEATURES : list string :=
  ["mcp"; "bank_llm_health"; "file_upload_api"; "document_export_api"; "document_import_api"].

(** The features as the model dumps them, the unsupported ones off. *)
Fixpoint facade_features (names : list string) (d : list (string * json)) : option (list (string * json)) :=
  match names with
  | [] => Some []
  | n :: rest =>
      match dict_get n d with
      | Some (JBool b) =>
          fs ← facade_features rest d; Some ((n, JBool (if elem n _UNSUPPORTED_FACADE_FEATURES then false else b)) :: fs)
      | _ => None
      end
  end.

Definition version : eff H (list (string * json)) :=
  value ← plain_request "version" "GET" "/version" None;
  match value with
  | JDict d =>
      match dict_get "api_version" d, dict_get "features" d with
      | Some (JStr v), Some (JDict features) =>
          match facade_features FEATURES features with
          | Some fs => mret [("api_version", JStr v); ("features", JDict fs)]
          | None => invalid_response "version"
          end
      | _, _ => invalid_response "version"
      end
  | _ => invalid_response "version"
  end.
End gateway.

(** [HindsightGateway.__init__]: the limits it refuses. *)
Definition gateway_init (timeout_ms max_response_bytes : Z) : result unit :=
  _ ← ensure (0 <? timeout_ms) (ERuntimeError "Hindsight timeout must be a positive integer");
  ensure (0 <? max_response_bytes) (ERuntimeError "Hindsight response size limit must be a positive integer").
