(* ===== verification/HindsightProps.v ===== *)
(** * Properties of the memory service client

    Quoting is undone by decoding; a request ends in a checked value or in a
    gateway error of a known shape; a listing shows exactly the allowed banks. *)

From Stdlib Require Import ZArith Lia Ascii.
From stdpp Require Import base sets strings numbers list.
From S2P Require Import Prelude Errors Text Json JsonParse FacadeRoutes Envelope Validation Paths Hindsight.

Local Open Scope Z_scope.

(** ** Quoting *)

(** Every character, by cases on its bits. *)
Ltac each_char c := destruct c as [[] [] [] [] [] [] [] []].

Lemma percent_decode_encode c tail : percent_decode (percent_encode c ++ tail) = c :: percent_decode tail.
Proof. each_char c; reflexivity. Qed.

Lemma percent_encode_ascii c : forallb (fun d => is_ascii d && (always_safe d || bool_decide (d = "%"%char))) (percent_encode c) = true.
Proof. each_char c; reflexivity. Qed.

Lemma percent_decode_quoted l : percent_decode (concat (map percent_encode l)) = l.
Proof. induction l as [|c l IH]; [done|]. simpl. by rewrite percent_decode_encode, IH. Qed.

Lemma quoted_chars l d : d ∈ concat (map percent_encode l) -> is_ascii d = true /\ (always_safe d = true \/ d = "%"%char).
Proof.
  induction l as [|c l IH]; simpl; [by intros ?%elem_of_nil|]. intros [Hd|Hd]%elem_of_app; [|by apply IH].
  pose proof (percent_encode_ascii c) as Hall. rewrite List.forallb_forall in Hall.
  specialize (Hall d (proj1 (list_elem_of_In _ _) Hd)). apply andb_true_iff in Hall as [? Hs]. split; [done|].
  apply orb_true_iff in Hs as [?|Hs]; [by left|right]. by apply bool_decide_eq_true in Hs.
Qed.

Lemma unquote_ascii l : forallb is_ascii l = true -> l <> [] -> utf8_chars (percent_decode l) = true ->
  forall fuel, (0 < fuel)%nat -> unquote_runs fuel l = Some (percent_decode l).
Proof.
  intros Ha Hne Hu fuel Hf. destruct fuel as [|f]; [lia|]. destruct l as [|c l]; [done|]. cbn [unquote_runs].
  pose proof (span_app is_ascii (c :: l) [] Ha I) as Hs. rewrite app_nil_r in Hs. rewrite Hs. cbn [span]. rewrite Hu.
  destruct f; simpl; by rewrite app_nil_r.
Qed.

Lemma percent_decode_plain l : (forall c, c ∈ l -> c <> "%"%char) -> percent_decode l = l.
Proof.
  induction l as [|c l IH]; [done|]. intros Hl. cbn [percent_decode].
  assert (Hc : is_char_code 37 c = false).
  { destruct (is_char_code 37 c) eqn:E; [|done]. exfalso. apply (Hl c); [by left|].
    apply Z.eqb_eq in E. rewrite <- (ascii_N_embedding c). unfold code_of in E. by replace (N_of_ascii c) with 37%N by lia. }
  rewrite Hc, IH; [by destruct l as [|? [|? ?]]|]. intros d Hd. apply Hl. by right.
Qed.

Lemma has_char_false c s : has_char c s = false <-> forall d, d ∈ chars s -> d <> c.
Proof.
  unfold has_char. rewrite <- not_true_iff_false, List.existsb_exists. split.
  - intros Hn d Hd ->. apply Hn. exists c. split; [by apply list_elem_of_In|by apply bool_decide_eq_true].
  - intros Hall (d & Hd & E). apply bool_decide_eq_true in E. apply (Hall d); [by apply list_elem_of_In|done].
Qed.

Lemma unquote_quote s : utf8_valid s = true -> unquote (quote s) = Some s.
Proof.
  intros Hu. unfold unquote, quote. rewrite chars_of_chars.
  destruct (has_char "%" (of_chars (concat (map percent_encode (chars s))))) eqn:E; cbn [negb].
  - set (l := concat (map percent_encode (chars s))) in *.
    assert (Hl : forallb is_ascii l = true).
    { apply List.forallb_forall. intros d Hd%list_elem_of_In. by apply quoted_chars in Hd as [? _]. }
    assert (Hne : l <> []) by (intros En; rewrite En in E; done).
    rewrite (unquote_ascii l Hl Hne).
    + simpl. unfold l. by rewrite percent_decode_quoted, of_chars_chars.
    + unfold l. by rewrite percent_decode_quoted.
    + rewrite <- length_chars, chars_of_chars. destruct l; [done|simpl; lia].
  - f_equal. apply chars_inj. rewrite chars_of_chars.
    rewrite <- (percent_decode_quoted (chars s)) at 2. symmetry. apply percent_decode_plain.
    pose proof (proj1 (has_char_false _ _) E) as E'. rewrite chars_of_chars in E'. exact E'.
Qed.

(** ** Checks on values *)

(** No float of the value is infinite or not a number. *)
Fixpoint all_finite (v : json) : bool :=
  match v with
  | JFloat t => isfinite t
  | JList l => forallb all_finite l
  | JDict d => forallb (fun kv => all_finite kv.2) d
  | _ => true
  end.

Definition finite_here (v : json) : bool := match v with JFloat t => isfinite t | _ => true end.

Lemma all_finite_children v : all_finite v = finite_here v && forallb all_finite (children v).
Proof.
  destruct v; simpl; try done; [by rewrite andb_true_r|]. induction d as [|[k v] d IH]; simpl; [done|]. by rewrite IH.
Qed.

Lemma finite_loop_spec fuel stack : (stack_size stack < fuel)%nat ->
  finite_loop fuel stack = Some (if forallb all_finite stack then Ok () else Err (EValueError "upstream JSON contains a non-finite number")).
Proof.
  revert stack. induction fuel as [|f IH]; intros stack Hf; [lia|]. destruct stack as [|v stack]; [done|]. cbn [finite_loop forallb].
  unfold stack_size in Hf. simpl in Hf. rewrite json_size_children in Hf. fold (stack_size stack) in Hf.
  rewrite all_finite_children.
  assert (Hh : (match v with JFloat t => negb (isfinite t) | _ => false end) = negb (finite_here v)) by (by destruct v).
  rewrite Hh. destruct (finite_here v); cbn [negb andb]; [|done].
  rewrite IH, forallb_push; [done|]. rewrite stack_size_push. lia.
Qed.

Lemma assert_finite_exact v : _assert_finite_numbers v = Ok () <-> all_finite v = true.
Proof.
  unfold _assert_finite_numbers. rewrite finite_loop_spec by (unfold stack_size; simpl; lia). simpl.
  rewrite andb_true_r. by destruct (all_finite v).
Qed.

Lemma assert_depth_exact v : _assert_response_depth v = Ok () <-> json_depth v <= MAX_HINDSIGHT_JSON_DEPTH.
Proof.
  unfold _assert_response_depth, assert_json_depth. rewrite depth_loop_spec by (unfold stack_size; simpl; lia).
  cbn [forallb]. rewrite andb_true_r. unfold fits. cbn [fst snd].
  replace (1 + json_depth v - 1) with (json_depth v) by lia.
  destruct (Z.leb_spec (json_depth v) MAX_HINDSIGHT_JSON_DEPTH); split; try done; lia.
Qed.

(** ** Reading bodies *)

Lemma read_chunks_ok size limit chunks ending raw :
  0 <= size -> read_chunks size limit chunks ending = BodyRead raw ->
  raw = foldr (fun c t => c +:+ t)%string ""%string chunks /\ ending = StreamDone /\
  (chunks <> [] -> size + slen raw <= limit).
Proof.
  revert size raw. induction chunks as [|c chunks IH]; intros size raw Hs Hr; cbn [read_chunks] in Hr.
  - destruct ending; try done. by injection Hr as <-.
  - destruct (Z.ltb_spec limit (size + slen c)); [done|]. pose proof (slen_nonneg c).
    destruct (read_chunks _ _ _ _) as [tail| | |] eqn:Ht; try done. injection Hr as <-. apply IH in Ht as (-> & -> & Hl); [|lia].
    split_and!; [done|done|]. intros _. rewrite slen_app. destruct chunks as [|c' chunks]; [simpl; unfold slen at 2; simpl; lia|].
    specialize (Hl ltac:(done)). lia.
Qed.

(** The chunks put together. *)
Definition whole_body (r : http_response) : string := foldr (fun c t => c +:+ t)%string ""%string (rs_chunks r).

Lemma parse_body_ok raw v : parse_body raw = Ok v ->
  json_loads_bytes false true raw = Some v /\ json_depth v <= MAX_HINDSIGHT_JSON_DEPTH /\ all_finite v = true.
Proof.
  unfold parse_body. destruct (json_loads_bytes false true raw) as [v'|]; [|done].
  intros Hb. apply result_bind_ok in Hb as ([] & Hd & Hb). apply result_bind_ok in Hb as ([] & Hf & Hb). injection Hb as <-.
  apply assert_depth_exact in Hd. apply assert_finite_exact in Hf. done.
Qed.

(** ** Requests *)

(** The error a failed request raises: a gateway error that names the operation,
    with the code of its kind and status 502, or 504 exactly for a timeout; an
    upstream status reaches the caller only when asked for, for a refused
    request that is not about the router's own credentials. *)
Definition request_failure (operation method : string) (preserve : bool) (e : exn) : Prop :=
  match e with
  | EGateway g =>
      gw_operation g = Some operation /\ gw_method g = Some method /\
      err_code (gw_http g) = gateway_code (gw_kind g) /\
      (gw_kind g = KTimeout <-> err_status (gw_http g) = 504) /\
      (err_status (gw_http g) ∈ [502; 504] \/
       preserve = true /\ gw_kind g = KHttp /\ gw_upstream_status g = Some (err_status (gw_http g)) /\
       400 <= err_status (gw_http g) < 500 /\ err_status (gw_http g) ∉ [401; 403])
  | _ => False
  end.

Lemma gateway_error_failure kind status operation method preserve :
  kind <> KTimeout -> request_failure operation method preserve (gateway_error kind status operation method).
Proof. intros Hk. destruct kind; try done; split_and!; try done; left; by left. Qed.

Lemma timeout_failure timeout_ms operation method preserve :
  request_failure operation method preserve (timeout_error timeout_ms operation method).
Proof. split_and!; try done. left. right. by left. Qed.

Lemma raise_http_failure {A} r operation method preserve :
  exists e, _raise_http_error (A := A) r operation method preserve = Err e /\ request_failure operation method preserve e.
Proof.
  eexists. split; [reflexivity|]. unfold request_failure. cbn [gw_operation gw_method gw_http gw_kind hindsight_gateway_error gw_upstream_status].
  destruct (preserve && (400 <=? rs_status r) && (rs_status r <? 500) && negb (elem (rs_status r) [401; 403])) eqn:Ec.
  - split_bool. apply elem_false in H0. cbn [err_status http_error default id err_code].
    split_and!; try done; [split; [done|intros Hs; exfalso; lia]|]. right. split_and!; try done; lia.
  - split_and!; try done. left. by left.
Qed.

Section requests.
Context {H : Type} (send : http_request -> eff H transport).
Context (base_url : string) (api_key request_id : option string) (timeout_ms max_response_bytes : Z).
Abbreviation request := (_request send base_url api_key request_id timeout_ms max_response_bytes).

(** A value that passed the checks on a response within [limit] bytes. *)
Definition checked_value (r : http_response) (limit : Z) (allow_empty : bool) (v : json) : Prop :=
  rs_end r = StreamDone /\
  (whole_body r = ""%string /\ allow_empty = true /\ v = JNull \/
   slen (whole_body r) <= limit /\ json_loads_bytes false true (whole_body r) = Some v /\
   json_depth v <= MAX_HINDSIGHT_JSON_DEPTH /\ all_finite v = true).

Lemma read_response_outcome r limit operation method allow_empty preserve :
  match _read_response timeout_ms r limit operation method allow_empty with
  | Ok v => checked_value r limit allow_empty v
  | Err e => request_failure operation method preserve e
  end.
Proof.
  unfold _read_response. destruct (negb _); [by apply gateway_error_failure|].
  destruct (read_chunks 0 limit (rs_chunks r) (rs_end r)) as [raw| | |] eqn:E.
  - apply read_chunks_ok in E as (-> & Hend & Hl); [|lia]. fold (whole_body r).
    case_bool_decide as Hraw.
    + destruct allow_empty; [|by apply gateway_error_failure]. split; [done|]. left. done.
    + destruct (parse_body (whole_body r)) as [v|e] eqn:Ep; [|by apply gateway_error_failure].
      apply parse_body_ok in Ep as (Hj & Hd & Hf). split; [done|]. right. split_and!; try done.
      apply Hl. intros Hnil. apply Hraw. unfold whole_body. by rewrite Hnil.
  - by apply gateway_error_failure.
  - apply timeout_failure.
  - by apply gateway_error_failure.
Qed.
(** A request ends in a checked value or a gateway error. Whatever the
    memory service or the network does, one message is sent; a value is returned
    only from a complete 2xx response with the expected status, a body within
    the size limit that is JSON of bounded depth with finite numbers (or is
    empty where that is allowed); everything else is a gateway error of the
    operation, a timeout exactly with status 504. *)
Lemma request_outcome operation method path body preserve response_limit expected allow_empty h t h' :
  send (mkHttpRequest method (rstrip_slash base_url +:+ path) (request_headers api_key request_id body) body) h = (Ok t, h') ->
  let '(res, h'') := request operation method path body preserve response_limit expected allow_empty h in
  h'' = h' /\
  match res with
  | Err e => request_failure operation method preserve e
  | Ok v => exists r, t = Received r /\ is_success (rs_status r) = true /\
      (forall s, expected = Some s -> rs_status r = s) /\
      checked_value r (default max_response_bytes response_limit) allow_empty v
  end.
Proof.
  intros Hs. unfold _request. unfold mbind, eff_bind. rewrite Hs. unfold lift. split; [done|].
  destruct t as [| |r]; [apply timeout_failure|by apply gateway_error_failure|].
  destruct (is_success (rs_status r)) eqn:Eok; cbn [negb];
    [|by destruct (raise_http_failure (A := json) r operation method preserve) as (e & -> & He)].
  destruct (match expected with Some s => _ | None => _ end) eqn:Ee; [by apply gateway_error_failure|].
  destruct (_response_too_large _ _); [by apply gateway_error_failure|].
  pose proof (read_response_outcome r (default max_response_bytes response_limit) operation method allow_empty preserve) as Hr.
  destruct (_read_response _ _ _ _ _ _) as [v|e]; [|exact Hr]. exists r. split_and!; try done.
  intros s ->. split_bool. done.
Qed.
End requests.

(** ** Listing banks *)

Section listing.
Context {H : Type} (send : http_request -> eff H transport).
Context (base_url : string) (api_key request_id : option string) (timeout_ms max_response_bytes : Z).
Abbreviation pages_of := (list_pages send base_url api_key request_id timeout_ms max_response_bytes).
Abbreviation banks_of := (list_banks send base_url api_key request_id timeout_ms max_response_bytes).

Lemma list_pages_allowed pages expired allowed q visible offset h v h' :
  forallb (visible_in allowed) visible = true ->
  pages_of pages expired allowed q visible offset h = (Ok v, h') -> forallb (visible_in allowed) v = true.
Proof.
  revert visible offset h. induction pages as [|n IH]; intros visible offset h Hv Hp; cbn [list_pages] in Hp; [done|].
  destruct (expired n); [done|]. apply bind_ok_inv in Hp as (value & h1 & _ & Hp).
  destruct (_validated_bank_page value) as [[banks total]|]; [|done]. cbn zeta in Hp.
  assert (Hv' : forallb (visible_in allowed) (visible ++ List.filter (visible_in allowed) banks) = true).
  { rewrite forallb_app, Hv. simpl. apply List.forallb_forall. intros x Hx. by apply List.filter_In in Hx as [_ ?]. }
  destruct (_ || _); [|by eapply IH]. by injection Hp as <- _.
Qed.

(** The page the service serves at an offset. *)
Definition page_at (all : list json) (offset : nat) : json :=
  JDict [("banks", JList (take (Z.to_nat BANK_LIST_PAGE_LIMIT) (drop offset all))); ("total", JInt (Z.of_nat (length all)))].

(** A service that serves [all] in pages. *)
Definition serves (all : list json) (q : option string) : Prop :=
  forall k h, (500 * k < length all)%nat \/ k = 0%nat ->
  plain_request send base_url api_key request_id timeout_ms max_response_bytes "list_banks" "GET"
    ("/v1/default/banks?" +:+ urlencode (bank_query q (Z.of_nat (500 * k)))) None h = (Ok (page_at all (500 * k)), h).

Lemma visible_ids allowed l : NoDup (omap bank_entry_id l) -> NoDup allowed ->
  (length (List.filter (visible_in allowed) l) <= length allowed)%nat.
Proof.
  intros Hnd Hal.
  assert (Hids : length (List.filter (visible_in allowed) l) = length (omap bank_entry_id (List.filter (visible_in allowed) l))).
  { clear. induction l as [|b l IH]; simpl; [done|]. destruct (visible_in allowed b) eqn:Ev; [|done].
    unfold visible_in in Ev. destruct (bank_entry_id b) as [i|] eqn:E; [|done]. simpl. rewrite E. simpl. by f_equal. }
  rewrite Hids. apply submseteq_length, NoDup_submseteq.
  - clear Hids. induction l as [|b l IH]; simpl; [apply NoDup_nil_2|]. simpl in Hnd.
    destruct (visible_in allowed b) eqn:Ev; [|apply IH; by destruct (bank_entry_id b); [apply NoDup_cons in Hnd as [_ ?]|]].
    simpl. destruct (bank_entry_id b) as [i|] eqn:E; [|by apply IH].
    apply NoDup_cons in Hnd as [Hx Hnd]. specialize (IH Hnd).
    apply NoDup_cons. split; [|done]. intros Hin. apply Hx. apply list_elem_of_omap in Hin as (y & Hy & Ey).
    apply list_elem_of_omap. exists y. split; [|done]. apply list_elem_of_In in Hy. apply List.filter_In in Hy as [Hy _].
    by apply list_elem_of_In.
  - intros i Hi. apply list_elem_of_omap in Hi as (y & Hy & Ey). apply list_elem_of_In in Hy.
    apply List.filter_In in Hy as [_ Hv]. unfold visible_in in Hv. rewrite Ey in Hv. by apply elem_true.
Qed.

Lemma filter_rest allowed all n :
  NoDup (omap bank_entry_id all) -> NoDup allowed ->
  length (List.filter (visible_in allowed) (take n all)) = length allowed ->
  List.filter (visible_in allowed) all = List.filter (visible_in allowed) (take n all).
Proof.
  intros Hnd Hal Hlen. pose proof (visible_ids allowed all Hnd Hal) as Hle.
  rewrite <- (take_drop n all) in Hle at 1. rewrite <- (take_drop n all) at 1. rewrite List.filter_app in *.
  rewrite length_app in Hle. destruct (List.filter _ (drop n all)) as [|b l] eqn:E; [by rewrite app_nil_r|]. simpl in Hle. lia.
Qed.

Lemma list_pages_exact all q expired allowed : 
  serves all q -> (forall n, expired n = false) -> NoDup (omap bank_entry_id all) -> NoDup allowed ->
  forallb (fun b => bool_decide (is_Some (bank_entry_id b))) all = true ->
  forall pages k h, (length all <= 500 * (k + pages))%nat -> (0 < pages)%nat -> (500 * k < length all)%nat \/ k = 0%nat ->
  pages_of pages expired allowed q (List.filter (visible_in allowed) (take (500 * k) all)) (Z.of_nat (500 * k)) h =
    (Ok (List.filter (visible_in allowed) all), h).
Proof.
  intros Hserve Hexp Hnd Hal Hids. induction pages as [|n IH]; intros k h Hlen Hpos Hk; [lia|]. cbn [list_pages].
  rewrite Hexp. unfold mbind, eff_bind. rewrite Hserve by done.
  assert (Hpage : _validated_bank_page (page_at all (500 * k)) = Ok (take 500 (drop (500 * k) all), Z.of_nat (length all))).
  { assert (Hn : (0 <=? Z.of_nat (length all)) = true) by (apply Z.leb_le; lia).
    assert (Hb : forallb (fun b => bool_decide (is_Some (bank_entry_id b))) (take 500 (drop (500 * k) all)) = true).
    { rewrite List.forallb_forall in *. intros x Hx. apply Hids.
      apply list_elem_of_In. apply list_elem_of_In in Hx. rewrite <- (take_drop (500 * k) all). apply elem_of_app. right.
      rewrite <- (take_drop 500 (drop (500 * k) all)). apply elem_of_app. by left. }
    change (_validated_bank_page (page_at all (500 * k))) with
      (_ ← ensure (0 <=? Z.of_nat (length all)) (EValueError "invalid bank list");
       _ ← ensure (forallb (fun b => bool_decide (is_Some (bank_entry_id b))) (take 500 (drop (500 * k) all)))
             (EValueError "invalid bank entry");
       Ok (take 500 (drop (500 * k) all), Z.of_nat (length all))).
    by rewrite Hn, Hb. }
  rewrite Hpage. cbn zeta.
  assert (Hvis : List.filter (visible_in allowed) (take (500 * k) all) ++ List.filter (visible_in allowed) (take 500 (drop (500 * k) all))
    = List.filter (visible_in allowed) (take (500 * S k) all)).
  { rewrite <- List.filter_app. f_equal. replace (500 * S k)%nat with (500 * k + 500)%nat by lia. by rewrite take_take_drop. }
  rewrite Hvis.
  set (got := length (take 500 (drop (500 * k) all))).
  assert (Hgot : got = Nat.min 500 (length all - 500 * k)) by (unfold got; by rewrite length_take, length_drop).
  destruct (decide (length all <= 500 * S k)%nat) as [Hend|Hmore].
  - rewrite (take_ge all (500 * S k)) by lia.
    assert (Hstop : (Z.of_nat (length all) <=? Z.of_nat (500 * k) + Z.of_nat got) = true) by (apply Z.leb_le; lia).
    rewrite Hstop, orb_true_r. done.
  - assert (Hstop : (Z.of_nat (length all) <=? Z.of_nat (500 * k) + Z.of_nat got) = false) by (apply Z.leb_gt; lia).
    rewrite Hstop, orb_false_r.
    rewrite bool_decide_false by (intros En; apply (f_equal length) in En; change (got = 0%nat) in En; lia).
    cbn [orb]. case_bool_decide as Hfull.
    + by rewrite (filter_rest allowed all (500 * S k) Hnd Hal Hfull).
    + replace (Z.of_nat (500 * k) + Z.of_nat got) with (Z.of_nat (500 * S k)) by lia. apply IH; lia.
Qed.
(** A bank listing shows exactly the allowed banks. Whatever the service
    answers, every bank shown is allowed and the page has at most [limit]
    entries. From a service that serves its banks, with distinct identities, in
    pages, the listing ends without an error and is the requested slice of the
    allowed banks in the service's order, with their number as the total, also
    when paging stops early. *)
Lemma list_banks_exact expired allowed q limit offset h :
  match (banks_of expired allowed q limit offset h).1 with
  | Ok l => (forall b, b ∈ bl_banks l -> exists i, bank_entry_id b = Some i /\ i ∈ allowed) /\
            Z.of_nat (length (bl_banks l)) <= Z.max 0 limit
  | Err _ => True
  end /\
  (forall all, serves all q -> (forall n, expired n = false) -> NoDup (omap bank_entry_id all) ->
     forallb (fun b => bool_decide (is_Some (bank_entry_id b))) all = true -> Z.of_nat (length all) <= 500000 ->
     let visible := List.filter (visible_in allowed) all in
     banks_of expired allowed q limit offset h =
       (Ok (mkBankListing (take (Z.to_nat limit) (drop (Z.to_nat offset) visible)) (Z.of_nat (length visible)) limit offset), h)).
Proof.
  split.
  - destruct (banks_of expired allowed q limit offset h) as [[l|e] h'] eqn:E; [|done]. cbn [fst].
    unfold list_banks in E. apply bind_ok_inv in E as (v & h1 & Hp & E). apply list_pages_allowed in Hp; [|done]. injection E as <- <-. cbn [bl_banks]. split.
    + intros b Hb. rewrite List.forallb_forall in Hp.
      assert (Hv : b ∈ v).
      { rewrite <- (take_drop (Z.to_nat offset) v). apply elem_of_app. right.
        rewrite <- (take_drop (Z.to_nat limit) (drop (Z.to_nat offset) v)). apply elem_of_app. by left. }
      specialize (Hp b (proj1 (list_elem_of_In _ _) Hv)). unfold visible_in in Hp. destruct (bank_entry_id b) as [i|]; [|done].
      exists i. split; [done|]. apply elem_true in Hp. exact (proj1 (dict_fromkeys_spec _ _) Hp).
    + rewrite length_take. lia.
  - intros all Hserve Hexp Hnd Hids Hlen. cbn zeta. unfold list_banks.
    pose proof (list_pages_exact all q expired (dict_fromkeys allowed) Hserve Hexp Hnd (dict_fromkeys_nodup allowed) Hids
      MAX_BANK_LIST_PAGES 0 h ltac:(unfold MAX_BANK_LIST_PAGES; lia) ltac:(unfold MAX_BANK_LIST_PAGES; lia) ltac:(by right)) as Hp.
    assert (Hext : forall l, List.filter (visible_in (dict_fromkeys allowed)) l = List.filter (visible_in allowed) l).
    { intros l. apply List.filter_ext. intros b. unfold visible_in. destruct (bank_entry_id b) as [i|]; [|done].
      apply Bool.eq_true_iff_eq. rewrite !elem_true. apply dict_fromkeys_spec. }
    rewrite Hext in Hp. change (List.filter (visible_in allowed) (take (500 * 0) all)) with (@nil json) in Hp. change (Z.of_nat (500 * 0)) with 0 in Hp.
    rewrite (bind_ok _ _ _ _ _ Hp), Hext. reflexivity.
Qed.
End listing.

(** ** Witnesses *)

Module Example_hindsight.
(** Two banks, on one page. *)
Definition two_banks : list json := [JDict [("bank_id", JStr "alpha")]; JDict [("bank_id", JStr "beta")]].
Definition listing_body : string := json_dumps (page_at two_banks 0).

(** A service with these banks, and one whose answer to anything is a timeout. *)
Definition answering (rq : http_request) : eff unit transport :=
  mret (Received (mkHttpResponse 200 [] [listing_body] StreamDone)).
Definition silent (rq : http_request) : eff unit transport := mret SendTimeout.
End Example_hindsight.

Lemma request_outcome_witness :
  _request Example_hindsight.silent "http://h/" None None 100 1000 "retain" "POST" "/x" None false None None false () =
    (Err (timeout_error 100 "retain" "POST"), ()) /\
  request_failure "retain" "POST" false (timeout_error 100 "retain" "POST").
Proof.
  split; [vm_compute; reflexivity|].
  exact (proj2 (request_outcome Example_hindsight.silent "http://h/" None None 100 1000
    "retain" "POST" "/x" None false None None false () SendTimeout () eq_refl)).
Defined.

Lemma list_banks_exact_witness :
  list_banks Example_hindsight.answering "http://h/" None None 100 4096 (fun _ => false) ["beta"; "gamma"] None 10 0 () =
    (Ok (mkBankListing [JDict [("bank_id", JStr "beta")]] 1 10 0), ()).
Proof.
  refine (proj2 (list_banks_exact Example_hindsight.answering "http://h/" None None 100 4096 (fun _ => false)
    ["beta"; "gamma"] None 10 0 ()) Example_hindsight.two_banks _ (fun _ => eq_refl) _ eq_refl _).
  - intros k [] [Hk| ->]; [change (length Example_hindsight.two_banks) with 2%nat in Hk; assert (k = 0%nat) as -> by lia|];
      vm_compute; reflexivity.
  - change (omap bank_entry_id Example_hindsight.two_banks) with ["alpha"; "beta"]%string.
    repeat (apply NoDup_cons; split; [set_solver|]). apply NoDup_nil_2.
  - vm_compute. discriminate.
Defined.
