(* ===== verification/Urls.v ===== *)
(** * URLs and network addresses

    [urllib.parse.urlsplit] with the host and port of its result, and
    [ipaddress.ip_address] of an IPv4 text, as [human_auth_config.py],
    [key_wrap.py] and [config.py] use them; the host rules of [config.py] and
    [key_wrap.py]. What needs the Unicode database or the grammar of IPv6 is an
    operation of [UrlSyntax]. *)

From Stdlib Require Import ZArith Lia Ascii.
From stdpp Require Import base sets strings numbers list.
From S2P Require Import Prelude Errors Text Json JsonParse Paths Hindsight.

Local Open Scope Z_scope.

(** ** URLs *)

(** [_check_bracketed_netloc]; for a text that is not ASCII, [_checknetloc] and
    [str.lower]; and of an IPv6 address whether it is a loopback and a private
    one ([None] when the text is not an address). *)
Class UrlSyntax := {
  bracketed_ok : string -> bool; netloc_ok : string -> bool; unicode_lower : string -> string; ipv6_flags : string -> option (bool * bool)
}.

Record split_url := mkSplitUrl { u_scheme : string; u_netloc : string; u_path : string; u_query : string; u_fragment : string }.

(** The text before the first character in [p], and from there. *)
Definition until (p : ascii -> bool) (l : list ascii) : list ascii * list ascii := span (fun c => negb (p c)) l.

(** [s.split(c, 1)], the second part empty without a separator. *)
Definition split_once (c : ascii) (l : list ascii) : list ascii * list ascii :=
  let '(a, b) := until (fun x => bool_decide (x = c)) l in (a, drop 1 b).

Definition is_alpha (c : ascii) : bool := in_range 65 90 c || in_range 97 122 c.
Definition is_scheme_char (c : ascii) : bool := is_alpha c || is_digit c || elem (code_of c) [43; 45; 46].

(** Leading blanks and control characters, and tabs and line ends anywhere, are dropped. *)
Definition clean_url (value : string) : list ascii :=
  List.filter (fun c => negb (elem (code_of c) [9; 10; 13])) (span (fun c => code_of c <=? 32) (chars value)).2.

(** [urlsplit]; [None] is its [ValueError]. *)
Definition urlsplit `{UrlSyntax} (value : string) : option split_url :=
  let l := clean_url value in
  let '(head, rest) := until (fun c => bool_decide (c = ":"%char)) l in
  let '(scheme, l) :=
    match head, rest with
    | c :: _, _ :: rest' => if is_alpha c && forallb is_scheme_char head then (lower (of_chars head), rest') else (""%string, l)
    | _, _ => (""%string, l)
    end in
  let '(netloc, l) :=
    match l with
    | a :: b :: l' => if bool_decide (a = "/"%char) && bool_decide (b = "/"%char) then until (fun c => elem c ["/"; "?"; "#"]%char) l' else ([], l)
    | _ => ([], l)
    end in
  let opened := elem "["%char netloc in
  let closed := elem "]"%char netloc in
  if negb (Bool.eqb opened closed) then None
  else if opened && negb (bracketed_ok (of_chars netloc)) then None
  else
    let '(l, fragment) := split_once "#" l in
    let '(path, query) := split_once "?" l in
    if forallb is_ascii netloc || netloc_ok (of_chars netloc)
    then Some (mkSplitUrl scheme (of_chars netloc) (of_chars path) (of_chars query) (of_chars fragment)) else None.

(** [_hostinfo]: the host and the port of a network location. *)
Definition hostinfo (u : split_url) : string * option string :=
  let info := match rpartition "@" (u_netloc u) with Some (_, h) => chars h | None => chars (u_netloc u) end in
  let '(host, port) :=
    match until (fun c => bool_decide (c = "["%char)) info with
    | (_, _ :: bracketed) => let '(h, p) := split_once "]" bracketed in (h, (split_once ":" p).2)
    | _ => split_once ":" info
    end in
  (of_chars host, if bool_decide (port = []) then None else Some (of_chars port)).

(** [str.lower], of ASCII and of other texts. *)
Definition lowered `{UrlSyntax} (s : string) : string := if forallb is_ascii (chars s) then lower s else unicode_lower s.

(** [parsed.hostname]: in lower case up to a zone, [None] when empty. *)
Definition hostname `{UrlSyntax} (u : split_url) : option string :=
  let '(host, zone) := until (fun c => bool_decide (c = "%"%char)) (chars (hostinfo u).1) in
  if bool_decide ((hostinfo u).1 = ""%string) then None else Some (lowered (of_chars host) +:+ of_chars zone)%string.

(** [parsed.port]; [None] is its [ValueError]. *)
Definition url_port (u : split_url) : option (option Z) :=
  match (hostinfo u).2 with
  | None => Some None
  | Some p =>
      if class_match is_digit 1 INT_MAX_STR_DIGITS p && (digits_number (chars p) <=? 65535) then Some (Some (digits_number (chars p))) else None
  end.

(** ** Addresses *)

Definition octet (s : string) : option Z :=
  if class_match is_digit 1 3 s && ((slen s =? 1) || negb (starts_with "0" s)) && (digits_number (chars s) <=? 255)
  then Some (digits_number (chars s)) else None.

(** [IPv4Address(s)] as its number. *)
Definition ipv4 (s : string) : option Z :=
  match map octet (str_split "." s) with
  | [Some a; Some b; Some c; Some d] => Some (16777216 * a + 65536 * b + 256 * c + d)
  | _ => None
  end.

(** The network of a prefix length contains the address. *)
Definition in_network (net : Z * Z) (ip : Z) : bool := Z.shiftr ip (32 - net.2) =? Z.shiftr net.1 (32 - net.2).

Definition quad (a b c d : Z) : Z := 16777216 * a + 65536 * b + 256 * c + d.

Definition private_networks : list (Z * Z) :=
  [(quad 0 0 0 0, 8); (quad 10 0 0 0, 8); (quad 127 0 0 0, 8); (quad 169 254 0 0, 16); (quad 172 16 0 0, 12); (quad 192 0 0 0, 24);
   (quad 192 0 0 170, 31); (quad 192 0 2 0, 24); (quad 192 168 0 0, 16); (quad 198 18 0 0, 15); (quad 198 51 100 0, 24);
   (quad 203 0 113 0, 24); (quad 240 0 0 0, 4); (quad 255 255 255 255, 32)].
Definition private_exceptions : list (Z * Z) := [(quad 192 0 0 9, 32); (quad 192 0 0 10, 32)].

(** [ip_address(s)]: whether it is a loopback and a private address; [None] is
    its [ValueError]. *)
Definition ip_address `{UrlSyntax} (s : string) : option (bool * bool) :=
  match ipv4 s with
  | Some ip => Some (in_network (quad 127 0 0 0, 8) ip,
                     existsb (fun n => in_network n ip) private_networks && negb (existsb (fun n => in_network n ip) private_exceptions))
  | None => ipv6_flags s
  end.

(** ** Host rules *)

Definition is_loopback_host `{UrlSyntax} (host : option string) : bool :=
  bool_decide (host = Some "localhost"%string) || match ip_address (default ""%string host) with Some (loopback, _) => loopback | None => false end.

Definition ends_with (suffix s : string) : bool := starts_with (of_chars (rev (chars suffix))) (of_chars (rev (chars s))).

(** [_OBFUSCATED_IPV4_HOST_RE.fullmatch]: a number instead of an address. *)
Definition obfuscated_host (host : string) : bool :=
  class_match is_digit 1 (slen host) host
  || (starts_with "0x" host || starts_with "0X" host)
     && class_match (fun c => is_digit c || in_range 97 102 c || in_range 65 70 c) 1 (slen host) (remove_prefix "0x" host).

Definition is_private_upstream_host `{UrlSyntax} (host : option string) : bool :=
  is_loopback_host host ||
  match host with
  | None => false
  | Some h =>
      if bool_decide (h = ""%string) then false
      else match ip_address h with
           | Some (_, private) => private
           | None => if obfuscated_host h then false else ends_with ".internal" h || negb (has_char "." h)
           end
  end.

(** [assert_sidecar_url] of [key_wrap.py]. *)
Definition assert_sidecar_url `{UrlSyntax} (base_url : string) : result unit :=
  match urlsplit base_url with
  | None => Err (EValueError "Invalid IPv6 URL")
  | Some u =>
      let host := default ""%string (hostname u) in
      if bool_decide (u_scheme u = "https"%string) && negb (bool_decide (host = ""%string)) then Ok ()
      else if bool_decide (u_scheme u = "http"%string) && is_loopback_host (Some host) then Ok ()
      else Err (ERuntimeError "QUARANTINE_WRAP_SIDECAR_URL must use https (http allowed for loopback only)")
  end.

(** ** Lemmas *)

Lemma until_split p l a b : until p l = (a, b) -> l = a ++ b.
Proof. unfold until. intros E. by apply span_split in E as [-> _]. Qed.

(** A text without blanks and control characters is not changed. *)
Lemma clean_url_id value : existsb (fun c => (code_of c <=? 32) || (code_of c =? 127)) (chars value) = false -> clean_url value = chars value.
Proof.
  unfold clean_url. intros Hc.
  assert (Hall : forall c, In c (chars value) -> 32 < code_of c).
  { intros c Hin. destruct (Z.leb_spec (code_of c) 32) as [Hle|]; [|done]. exfalso.
    assert (Ht : existsb (fun c => (code_of c <=? 32) || (code_of c =? 127)) (chars value) = true); [|congruence].
    apply List.existsb_exists. exists c. split; [done|]. by rewrite (proj2 (Z.leb_le _ _) Hle). }
  replace (span (fun c => code_of c <=? 32) (chars value)).2 with (chars value).
  - apply List.forallb_filter_id, List.forallb_forall. intros c Hin. apply negb_true_iff, elem_false. specialize (Hall c Hin).
    set_unfold. lia.
  - destruct (chars value) as [|c l]; [done|]. simpl. specialize (Hall c ltac:(by left)). by rewrite (proj2 (Z.leb_gt _ _) Hall).
Qed.

(** A text with a scheme and a network location starts with both. *)
Lemma urlsplit_shape `{UrlSyntax} value u :
  urlsplit value = Some u -> u_scheme u <> ""%string -> u_netloc u <> ""%string ->
  exists scheme rest, of_chars (clean_url value) = (scheme +:+ "://" +:+ rest)%string /\ lower scheme = u_scheme u.
Proof.
  unfold urlsplit. destruct (until (fun c => bool_decide (c = ":"%char)) (clean_url value)) as [head rest] eqn:Eh.
  intros Hu Hs Hn.
  set (first := match head with [] => (""%string, clean_url value) | _ => _ end) in Hu.
  destruct first as [scheme l] eqn:Ef. subst first.
  set (second := match l with [] => ([], l) | _ => _ end) in Hu. destruct second as [netloc l2] eqn:Es. subst second.
  destruct (negb _) in Hu; [done|]. destruct (elem "["%char netloc && _); [done|].
  destruct (split_once "#" l2) as [l3 fr]. destruct (split_once "?" l3) as [pa qu]. destruct (forallb _ _ || _); [|done].
  injection Hu as <-. simpl in *.
  destruct head as [|c head]; [by injection Ef as <- <-|]. destruct rest as [|colon rest]; [by injection Ef as <- <-|].
  destruct (is_alpha c && _); [|by injection Ef as <- <-]. injection Ef as <- <-.
  destruct rest as [|a [|b rest]]; [by injection Es as <- <-|by injection Es as <- <-|].
  destruct (bool_decide (a = "/"%char) && bool_decide (b = "/"%char)) eqn:Esl; [|by injection Es as <- <-].
  apply andb_true_iff in Esl as [Ha Hb]. apply bool_decide_eq_true in Ha as ->, Hb as ->.
  pose proof (span_split _ _ _ _ Eh) as (Hv & _ & Hc). simpl in Hc. rewrite negb_false_iff, bool_decide_eq_true in Hc. subst colon.
  exists (of_chars (c :: head)), (of_chars rest). split; [|done].
  apply chars_inj. rewrite Hv, !chars_app, !chars_of_chars. done.
Qed.
