(* ===== verification/KeyWrap.v ===== *)
(** * The key-wrapping sidecar

    Models the [SidecarWrapProvider] of [memory_router/key_wrap.py]: the checks
    of its constructor, the request that wraps a data key, and the reading of
    the answer. The network is the parameter [send]. The provider it builds is
    shown to meet what envelopes ask of a provider. *)

From Stdlib Require Import ZArith Lia Ascii.
From stdpp Require Import base sets strings numbers list.
From S2P Require Import Prelude Errors Text Json JsonParse Repository Envelope EnvelopeProps Paths Hindsight HindsightProps Urls.

Local Open Scope Z_scope.

Definition SIDECAR_KEY_WRAP : string := "WRAP-SIDECAR".
Definition MAX_SIDECAR_TIMEOUT_MS : Z := 60000.
Definition MAX_WRAP_RESPONSE_BYTES : Z := 65536.
Definition MAX_WRAPPED_KEY_BYTES : Z := 65536.

Inductive sidecar_kind := WTimeout | WHttp | WInvalidResponse | WNetwork.

(** [WrapSidecarError] *)
Definition wrap_sidecar_error (kind : sidecar_kind) : exn :=
  raise_http (match kind with WTimeout => 504 | _ => 502 end)
    (match kind with
     | WTimeout => "quarantine_wrap_sidecar_timeout"
     | WHttp => "quarantine_wrap_sidecar_http_error"
     | WInvalidResponse => "quarantine_wrap_sidecar_invalid_response"
     | WNetwork => "quarantine_wrap_sidecar_unavailable"
     end)
    (match kind with
     | WTimeout => "Quarantine wrap sidecar timed out"
     | WHttp => "Quarantine wrap sidecar request failed"
     | WInvalidResponse => "Quarantine wrap sidecar returned an invalid response"
     | WNetwork => "Quarantine wrap sidecar is unavailable"
     end).

Definition _read_bounded (r : http_response) : result string :=
  if negb (bool_decide (lower (strip (default "identity" (dict_get "content-encoding" (rs_headers r)))) = "identity"%string))
  then Err (wrap_sidecar_error WInvalidResponse)
  else match read_chunks 0 MAX_WRAP_RESPONSE_BYTES (rs_chunks r) (rs_end r) with
       | BodyRead raw => Ok raw
       | BodyTooLarge => Err (wrap_sidecar_error WInvalidResponse)
       | BodyTimeout => Err (wrap_sidecar_error WTimeout)
       | BodyFailed => Err (wrap_sidecar_error WNetwork)
       end.

(** [_parse_wrapped]; the model has exactly one text field. *)
Definition _parse_wrapped (wrapped_key_bytes : Z) (raw : string) : result string :=
  match json_loads_bytes false false raw with
  | Some (JDict [(field, JStr text)]) =>
      match (if bool_decide (field = "wrapped_key_b64"%string) then b64decode text else None) with
      | Some wrapped =>
          if bool_decide (wrapped = ""%string) || (wrapped_key_bytes <? slen wrapped) then Err (wrap_sidecar_error WInvalidResponse) else Ok wrapped
      | None => Err (wrap_sidecar_error WInvalidResponse)
      end
  | _ => Err (wrap_sidecar_error WInvalidResponse)
  end.

(** The request that carries the data key. *)
Definition wrap_request (base_url : string) (token : option string) (dek : string) : http_request :=
  mkHttpRequest "POST" (base_url +:+ "/wrap")%string
    ([("content-type", "application/json"); ("accept-encoding", "identity")]
     ++ match token with Some t => if bool_decide (t = ""%string) then [] else [("authorization", ("Bearer " +:+ t)%string)] | None => [] end)
    (Some (JDict [("dek_b64", JStr (b64encode dek))])).

Definition sidecar_wrap (send : http_request -> transport) (base_url : string) (token : option string) (wrapped_key_bytes : Z) (dek : string)
    : result string :=
  match send (wrap_request base_url token dek) with
  | SendTimeout => Err (wrap_sidecar_error WTimeout)
  | SendFailed => Err (wrap_sidecar_error WNetwork)
  | Received r =>
      if negb (is_success (rs_status r)) then Err (wrap_sidecar_error WHttp)
      else raw ← _read_bounded r; _parse_wrapped wrapped_key_bytes raw
  end.

(** [SidecarWrapProvider.__init__] *)
Definition SidecarWrapProvider `{UrlSyntax} (send : http_request -> transport) (base_url : string) (token : option string)
    (timeout_ms : Z) (name : string) (version wrapped_key_bytes : Z) : result WrapProvider :=
  _ ← ensure (is_key_wrap_token name) (ERuntimeError "QUARANTINE_WRAP_SIDECAR_NAME must match [A-Za-z0-9._-]{1,64}");
  _ ← ensure (1 <=? version) (ERuntimeError "QUARANTINE_WRAP_SIDECAR_VERSION must be >= 1");
  _ ← ensure ((0 <? timeout_ms) && (timeout_ms <=? MAX_SIDECAR_TIMEOUT_MS))
        (ERuntimeError "QUARANTINE_WRAP_SIDECAR_TIMEOUT_MS must be between 1 and 60000");
  _ ← ensure ((0 <? wrapped_key_bytes) && (wrapped_key_bytes <=? MAX_WRAPPED_KEY_BYTES))
        (ERuntimeError "QUARANTINE_WRAP_SIDECAR_WRAPPED_KEY_BYTES is out of range");
  _ ← assert_sidecar_url base_url;
  Ok (mkWrapProvider SIDECAR_KEY_WRAP wrapped_key_bytes (Some (mkWrapProviderInfo name version))
        (sidecar_wrap send (rstrip_slash base_url) token wrapped_key_bytes)).

(** ** Theorems *)

Lemma parse_wrapped_outcome n raw :
  match _parse_wrapped n raw with
  | Ok wrapped => wrapped <> ""%string /\ slen wrapped <= n
  | Err e => e = wrap_sidecar_error WInvalidResponse
  end.
Proof.
  unfold _parse_wrapped. destruct (json_loads_bytes false false raw) as [[| | | | | |[|[field [| | | |text| |]] [|? ?]]]|]; try done.
  destruct (if bool_decide _ then _ else _) as [wrapped|]; [|done]. destruct (_ || _) eqn:E; [done|].
  rewrite orb_false_iff, bool_decide_eq_false, Z.ltb_ge in E. tauto.
Qed.

Lemma read_bounded_outcome r :
  match _read_bounded r with Ok _ => True | Err e => exists kind, e = wrap_sidecar_error kind end.
Proof. unfold _read_bounded. repeat case_match; simplify_eq; eauto. Qed.

(** A key-wrapping sidecar keeps its side of the envelope contract. A provider
    that was accepted has a URL over HTTPS or to the local host; each wrapping
    sends one request, with the data key, to its [/wrap] endpoint, and ends in a
    non-empty key of at most the declared length, as the size estimate of an
    envelope assumes, or in one of four errors, a timeout exactly with status
    504; and as long as its version is a safe integer its envelopes are accepted
    when they are opened. *)
Lemma sidecar_meets_contract `{UrlSyntax} send base_url token timeout_ms name version wrapped_key_bytes p :
  SidecarWrapProvider send base_url token timeout_ms name version wrapped_key_bytes = Ok p ->
  (exists u, urlsplit base_url = Some u
     /\ (u_scheme u = "https"%string \/ u_scheme u = "http"%string /\ is_loopback_host (Some (default "" (hostname u))) = true))
  /\ wp_wrapped_key_bytes p = wrapped_key_bytes
  /\ (version <= _MAX_SAFE_INTEGER -> provider_ok p)
  /\ forall dek,
       let answer := send (wrap_request (rstrip_slash base_url) token dek) in
       match wp_wrap p dek with
       | Ok wrapped => wrapped <> ""%string /\ slen wrapped <= wp_wrapped_key_bytes p /\ exists r, answer = Received r /\ is_success (rs_status r) = true
       | Err e => exists kind, e = wrap_sidecar_error kind /\ (kind = WTimeout <-> exists h, as_http e = Some h /\ err_status h = 504)
       end.
Proof.
  unfold SidecarWrapProvider. intros Hp.
  repeat (apply result_bind_ok in Hp as ([] & ? & Hp)). rewrite !ensure_ok in *. injection Hp as <-. split_and!.
  - unfold assert_sidecar_url in *. destruct (urlsplit base_url) as [u|]; [|done]. exists u. split; [done|].
    destruct (bool_decide (u_scheme u = "https"%string) && _) eqn:E1; [left|].
    { apply andb_true_iff in E1 as [E1 _]. by apply bool_decide_eq_true in E1. }
    destruct (bool_decide (u_scheme u = "http"%string) && _) eqn:E2; [right|done].
    apply andb_true_iff in E2 as [E2 E3]. by apply bool_decide_eq_true in E2.
  - done.
  - intros Hv. unfold provider_ok. simpl. split_and!; [done|done|by apply Z.leb_le|done].
  - intros dek. cbn [wp_wrap wp_wrapped_key_bytes]. unfold sidecar_wrap.
    assert (Hkind : forall kind, kind = WTimeout <-> exists h, as_http (wrap_sidecar_error kind) = Some h /\ err_status h = 504).
    { intros kind. split; [intros ->; eexists; done|]. intros (h & [= <-] & Hs). by destruct kind. }
    destruct (send _) as [| |r]; [by exists WTimeout|by exists WNetwork|].
    destruct (is_success (rs_status r)) eqn:Es; simpl; [|by exists WHttp].
    pose proof (read_bounded_outcome r) as Hr. destruct (_read_bounded r) as [raw|e]; simpl; [|destruct Hr as [kind ->]; by exists kind].
    pose proof (parse_wrapped_outcome wrapped_key_bytes raw) as Hw. destruct (_parse_wrapped wrapped_key_bytes raw) as [w|e].
    + destruct Hw. split_and!; try done. by exists r.
    + rewrite Hw. by exists WInvalidResponse.
Qed.

(** ** A sidecar *)

Module Example_sidecar.
Import Example_envelope.
#[local] Instance plain_urls : UrlSyntax :=
  {| bracketed_ok := fun _ => false; netloc_ok := fun _ => false; unicode_lower := fun s => s; ipv6_flags := fun _ => None |}.

Definition wrapped : string := of_chars (replicate 40 "w"%char).
Definition send (rq : http_request) : transport :=
  Received (mkHttpResponse 200 [] [json_dumps (JDict [("wrapped_key_b64", JStr (b64encode wrapped))])] StreamDone).

Definition sidecar (version : Z) : result WrapProvider := SidecarWrapProvider send "http://127.0.0.1:7000/" None 5000 "https-sidecar" version 40.

Lemma accepted version : 1 <= version -> exists p, sidecar version = Ok p.
Proof. intros Hv. unfold sidecar, SidecarWrapProvider. rewrite (proj2 (Z.leb_le _ _) Hv). eexists. reflexivity. Qed.

Lemma sidecar_meets_contract_witness :
  exists p, sidecar 3 = Ok p /\ provider_ok p /\ exists w, wp_wrap p "key" = Ok w /\ slen w <= 40.
Proof.
  destruct (accepted 3 ltac:(lia)) as [p Hp]. exists p. split; [exact Hp|].
  destruct (sidecar_meets_contract send "http://127.0.0.1:7000/" None 5000 "https-sidecar" 3 40 p Hp) as (_ & Hbytes & Hok & Hwrap).
  split; [apply Hok; vm_compute; congruence|]. specialize (Hwrap "key"%string). cbv zeta in Hwrap.
  injection Hp as <-. exists wrapped. split; [vm_compute; reflexivity|]. vm_compute. congruence.
Defined.

(** A version beyond the safe integers passes the constructor, and then no object
    can be sealed: the authenticated metadata has no canonical form. *)
Example unsafe_version_accepted :
  exists p, sidecar (2 ^ 53) = Ok p
  /\ _create_prepared_provider_envelope Example_envelope.prepared p Example_envelope.data_key Example_envelope.vector =
     Err (EValueError "value must contain JSON values only").
Proof. eexists. split; [vm_compute; reflexivity|]. vm_compute. reflexivity. Qed.
End Example_sidecar.
