(* ===== verification/Policy.v ===== *)
(** * The memory policy

    Models [memory_router/policy.py], the result type of
    [memory_router/security_models.py] and [recall_response_scan_input] of
    [memory_router/scan_executor.py]: the retain and recall flows, which charge
    limits, screen content, call the memory service and quarantine.

    The components the policy calls are the record [Services]: effects on a
    state [W], of which [QuarantineStore.put], the repository's lookups, the
    charges of [Limits.v] and the gateway of [Hindsight.v] are instances, and the
    content scanner, whose verdict is any function. Recalled results are
    dictionaries with a text [id], as the gateway checks. The banks of a recall
    are asked one after the other ([asyncio.gather] starts them in this order);
    the dictionary of review states and the set of identities to look up again,
    which the recall shares between its results, are part of the state
    ([recall_cache]). Log lines are not modelled. *)

From Stdlib Require Import ZArith Lia Ascii.
From stdpp Require Import base sets strings numbers list.
From S2P Require Import Prelude Errors Text Sha256 Json Repository Envelope Dedupe Validation QuarantineStore Hindsight.

Local Open Scope Z_scope.

(** ** Verdicts of the scanner *)

Record SafetyFinding := mkSafetyFinding {
  sf_matched : string; sf_reason : string; sf_detector : option string; sf_severity : option string
}.

#[export] Instance finding_eq_dec : EqDecision SafetyFinding.
Proof. solve_decision. Defined.

Definition public (f : SafetyFinding) : json := JDict [("matched", JStr (sf_matched f)); ("reason", JStr (sf_reason f))].

Record SafetyResult := mkSafetyResult { findings : list SafetyFinding; transformations : list string }.

Definition safe (r : SafetyResult) : bool := bool_decide (findings r = []).

Definition add (f : SafetyFinding) (r : SafetyResult) : SafetyResult :=
  if elem f (findings r) then r else mkSafetyResult (findings r ++ [f]) (transformations r).

Definition extend (other r : SafetyResult) : SafetyResult :=
  let r' := fold_left (fun r f => add f r) (findings other) r in
  mkSafetyResult (findings r') (dict_fromkeys (transformations r' ++ transformations other)).

(** ** What the policy calls *)

Record Services (W : Type) := mkServices {
  sv_consume_retain : string -> eff W unit;
  sv_consume_recall : string -> eff W unit;
  sv_scan_request : list (string * json) -> string -> option (list (string * string)) -> eff W SafetyResult;
  sv_scan_facade_response : json -> bool -> bool -> bool -> eff W SafetyResult;
  sv_scan_recalled : json -> bool -> option (list nat) -> eff W SafetyResult;
  sv_retain : string -> list (string * json) -> eff W (list (string * json));
  sv_recall : string -> list (string * json) -> eff W recall_response;
  sv_openclaw_request : string -> string -> string -> option json -> Z -> bool -> eff W json;
  sv_find_memory_state : string -> string -> eff W (option item);
  sv_find_memory_review_states : list (string * string) -> eff W (list ((string * string) * MemoryReviewState));
  sv_put : put_input -> eff W (string * string);
  sv_iso_now : eff W string
}.
Arguments sv_consume_retain {W}.
Arguments sv_consume_recall {W}.
Arguments sv_scan_request {W}.
Arguments sv_scan_facade_response {W}.
Arguments sv_scan_recalled {W}.
Arguments sv_retain {W}.
Arguments sv_recall {W}.
Arguments sv_openclaw_request {W}.
Arguments sv_find_memory_state {W}.
Arguments sv_find_memory_review_states {W}.
Arguments sv_put {W}.
Arguments sv_iso_now {W}.

(** [repr(value)], needed only for values without a canonical form. *)
Class PyRepr := { py_repr : json -> string }.

(** A writer of the legacy registry. *)
Record WriterRule := mkWriterRule { wr_source : string; wr_write_bank : string; wr_read_banks : list string }.

(** ** Digests *)

Definition _RECALL_RESPONSE_MAP_FIELDS : list string := ["chunks"; "entities"; "source_facts"; "trace"].

Definition _QUARANTINE_ERRORS : list (string * Z) :=
  [("quarantine_capacity_exceeded", 507); ("quarantine_writer_capacity_exceeded", 507);
   ("quarantine_security_event_capacity_exceeded", 507); ("quarantine_rate_limited", 429);
   ("quarantine_item_too_large", 413); ("quarantine_request_in_review", 409); ("quarantine_item_in_review", 409);
   ("quarantine_write_stale", 409)].

Fixpoint _string_projection (value : json) : json :=
  match value with
  | JStr s => JStr s
  | JList l => JList (map _string_projection l)
  | JDict d => JDict (map (fun kv => (kv.1, _string_projection kv.2)) d)
  | _ => JNull
  end.

Definition recalled_content_digest `{Rfc8785} (r : list (string * json)) : result string :=
  text ← canonical_json (JDict [("id", _string_projection (field_of r "id")); ("text", _string_projection (field_of r "text"))]);
  Ok (sha256_hex text).

Definition _audit_digest `{Rfc8785, PyRepr} (value : json) : string :=
  match canonical_json value with Ok text => sha256_hex text | Err _ => sha256_hex (py_repr value) end.

Definition _recalled_audit_digest `{Rfc8785, PyRepr} (r : list (string * json)) : string :=
  match canonical_json (_string_projection (JDict r)) with
  | Ok text => sha256_hex text
  | Err _ => sha256_hex (py_repr (JDict r))
  end.

(** [str(result["id"])] *)
Definition result_id (r : recall_result) : result string :=
  match dict_get "id" (rr_value r) with Some (JStr s) => Ok s | _ => Err (EOther "KeyError") end.

Definition _with_transformations (payload : list (string * json)) (scan : option SafetyResult) : list (string * json) :=
  match scan with
  | Some s =>
      if bool_decide (transformations s = []) then payload
      else dict_set "safety" (JDict [("transformations", JList (map JStr (str_sort (transformations s))))]) payload
  | None => payload
  end.

Definition _quarantine_unavailable (error : HttpError) : bool :=
  elem (err_status error) [507; 429]
  || match dict_get (err_code error) _QUARANTINE_ERRORS with Some s => err_status error =? s | None => false end.

Definition item_too_large (e : HttpError) : bool :=
  (err_status e =? 413) && bool_decide (err_code e = "quarantine_item_too_large").

(** [{"timestamp": iso_now(), **values}] for an event without a source. *)
Definition security_event (now reason : string) (writer bank : option string) (source dedupe : string) (payload : json) : put_input :=
  mkPutInput "security_event" reason now payload writer (Some source) None None None (Some dedupe) bank.

(** [Counter(...)] as a dictionary, in the order of first occurrence. *)
Definition counter (keys : list string) : list (string * json) :=
  map (fun k => (k, JInt (count_where (fun x => bool_decide (x = k)) keys))) (dict_fromkeys keys).

(** The dictionary a recall returns. *)
Record recall_answer := mkRecallAnswer {
  an_results : list recall_result; an_fields : list (string * json); an_failed_banks : Z
}.

Definition partial_fields (failed : Z) : list (string * json) :=
  if failed =? 0 then [] else [("partial", JBool true); ("failed_banks", JInt failed)].

Definition answer_with (results : list json) (a : recall_answer) : json :=
  JDict (("results", JList results) :: an_fields a ++ partial_fields (an_failed_banks a)).
Definition answer_json (a : recall_answer) : json := answer_with (map (fun r => JDict (rr_value r)) (an_results a)) a.

(** [recall_response_scan_input] *)
Definition recall_response_scan_input (a : recall_answer) : json :=
  answer_with (map (fun r => JDict (default (rr_value r) (scan_view r))) (an_results a)) a.

(** The objects the results of one recall share; [None] where the caller passes none. *)
Record recall_cache := mkRecallCache {
  c_states : option (list ((string * string) * MemoryReviewState)); c_dirty : option (list (string * string))
}.

Definition set_add (k : string * string) (l : list (string * string)) : list (string * string) :=
  if elem k l then l else k :: l.

Section policy.
Context `{Rfc8785, PyRepr} {W : Type} (sv : Services W) (writers : list (string * WriterRule)).

(** ** Quarantining *)

Definition quarantine_security_event (values : string -> put_input) : eff W (string * string) :=
  now ← sv_iso_now sv; sv_put sv (values now).

Definition retain_payload (writer_id identity_mode : string) (body : list (string * json)) (target_bank : option string)
    : list (string * json) :=
  [("action", JStr "retain"); ("writer_id", JStr writer_id); ("body", JDict body); ("identity_mode", JStr identity_mode);
   ("target_bank", jopt target_bank)].

Definition _quarantine_retain (writer_id source reason : string) (body : list (string * json)) (target_bank : option string)
    (scan : option SafetyResult) (identity_mode : string) : eff W (list (string * json)) :=
  let payload := retain_payload writer_id identity_mode body target_bank in
  dedupe_key ← lift (request_dedupe_key "retain_request" (Some writer_id) target_bank (JDict payload));
  '(quarantine_id, _) ← quarantine_security_event (fun now =>
    mkPutInput "retain_request" reason now (JDict (_with_transformations payload scan)) (Some writer_id) (Some source)
      None None None (Some dedupe_key) target_bank);
  mret ([("queued", JBool true); ("reason", JStr reason); ("quarantine_id", JStr quarantine_id)]
        ++ match scan with Some s => [("findings", JList (map public (findings s)))] | None => [] end).

Definition _quarantine_oversized_recall_request (writer_id source reason : string) (body : list (string * json))
    (scan : option SafetyResult) (bank_id : option string) : eff W unit :=
  let digest := _audit_digest (JDict body) in
  let found := match scan with Some s => map public (findings s) | None => [] end in
  _ ← quarantine_security_event (fun now =>
    security_event now reason (Some writer_id) bank_id source
      ("oversized-recall:" +:+ writer_id +:+ ":" +:+ reason +:+ ":" +:+ digest)%string
      (JDict [("action", JStr "recall_request_too_large"); ("writer_id", JStr writer_id); ("content_sha256", JStr digest);
              ("findings", JList found)]));
  mret ().

(** [except HttpError as exc: if not unavailable(exc): raise], and log. *)
Definition or_degrade (m : eff W unit) : eff W unit :=
  try_except m (fun e => match as_http e with
                         | Some h => if _quarantine_unavailable h then mret () else raise e
                         | None => raise e
                         end).

(** [banks[0] if banks and len(banks) == 1 else None] *)
Definition single_bank (banks : option (list string)) : option string :=
  match banks with Some [b] => Some b | _ => None end.

Definition _quarantine_oversized_recall_or_degrade (writer_id source reason : string) (body : list (string * json))
    (target_banks : option (list string)) (scan : option SafetyResult) : eff W unit :=
  or_degrade (_quarantine_oversized_recall_request writer_id source reason body scan (single_bank target_banks)).

Definition recall_payload (writer_id : string) (body : list (string * json)) : list (string * json) :=
  [("action", JStr "recall"); ("writer_id", JStr writer_id); ("body", JDict body)].

Definition recall_target (banks : option (list string)) : option string :=
  match banks with Some (b :: l) => Some (str_join "," (str_sort (b :: l))) | _ => None end.

(** The body of the [try] of [_quarantine_recall_or_degrade]. *)
Definition quarantine_recall (writer_id source reason : string) (body : list (string * json))
    (target_banks : option (list string)) (scan : option SafetyResult) : eff W unit :=
  key ← lift (request_dedupe_key "recall_request" (Some writer_id) (recall_target target_banks) (JDict (recall_payload writer_id body)));
  _ ← quarantine_security_event (fun now =>
    mkPutInput "recall_request" reason now (JDict (_with_transformations (recall_payload writer_id body) scan))
      (Some writer_id) (Some source) None None None (Some key) (single_bank target_banks));
  mret ().

Definition _quarantine_recall_or_degrade (writer_id source reason : string) (body : list (string * json))
    (target_banks : option (list string)) (scan : option SafetyResult) : eff W unit :=
  try_except (quarantine_recall writer_id source reason body target_banks scan) (fun e =>
    match as_http e with
    | Some h =>
        if item_too_large h then _quarantine_oversized_recall_or_degrade writer_id source reason body target_banks scan
        else if _quarantine_unavailable h then mret () else raise e
    | None => raise e
    end).

Definition deny_endpoint (method path : string) (writer_id bank_id : option string) : eff W (list (string * json)) :=
  dedupe ← lift (security_event_dedupe_key method path);
  _ ← quarantine_security_event (fun now =>
    security_event now "denied_endpoint" writer_id bank_id "http" dedupe
      (JDict [("action", JStr "denied_endpoint"); ("method", JStr method); ("path", JStr path)]));
  mret [("error", JStr "endpoint denied by memory-router policy")].

(** ** Retaining *)

Definition retain_gateway_error (kind : gateway_kind) : exn :=
  EGateway (hindsight_gateway_error kind None (Some "retain") (Some "POST") None None false).

(** A scan that found nothing but its own limits. *)
Definition _only_scan_limit_findings (scan : SafetyResult) : bool :=
  negb (bool_decide (findings scan = []))
  && forallb (fun f => elem (sf_matched f) ["facade_field_limit"; "facade_time_limit"]%string) (findings scan).

Definition _retain_to_bank (identity target_bank : string) (body : list (string * json)) (source identity_mode : string)
    : eff W (list (string * json)) :=
  _ ← sv_consume_retain sv identity;
  scan ← sv_scan_request sv body "retain" None;
  if negb (safe scan)
  then _quarantine_retain identity source "suspicious_content" body (Some target_bank) (Some scan) identity_mode
  else
    value ← sv_retain sv target_bank (prepare_retain_body body identity source target_bank "allowed");
    response_scan ← try_except (sv_scan_facade_response sv (JDict value) false true true)
      (fun e => if bool_decide (is_Some (as_http e)) then raise (retain_gateway_error KResponseScanUnavailable) else raise e);
    if negb (safe response_scan)
    then raise (retain_gateway_error (if _only_scan_limit_findings response_scan then KResponseScanUnavailable else KUnsafeResponse))
    else mret value.

Definition retain (writer_id : string) (body : list (string * json)) (source : option string) : eff W (list (string * json)) :=
  match dict_get writer_id writers with
  | None => _quarantine_retain writer_id (default "openclaw"%string source) "unknown_writer" body None None "legacy"
  | Some writer => _retain_to_bank writer_id (wr_write_bank writer) body (default (wr_source writer) source) "legacy"
  end.

Definition retain_bank (principal_id bank : string) (body : list (string * json)) (source : string) : eff W (list (string * json)) :=
  _retain_to_bank principal_id bank body source "principal".

(** ** Recalled results *)

(** An operation of the services beside the objects of the recall. *)
Definition on_services {A} (m : eff W A) : eff (W * recall_cache) A := fun s =>
  let '(r, w) := m s.1 in (r, (w, s.2)).

(** [if invalidated is not None: invalidated.add(identity)] *)
Definition invalidate (identity : string * string) : eff (W * recall_cache) unit :=
  modify (fun s => (s.1, mkRecallCache (c_states s.2) (set_add identity <$> c_dirty s.2))).

Definition _quarantine_recalled (writer_id source bank_id : string) (r : recall_result) (digest : string) (scan : SafetyResult)
    : eff (W * recall_cache) unit :=
  id ← lift (result_id r);
  _ ← invalidate (bank_id, id);
  let payload := [("action", JStr "recalled_memory"); ("bank_id", JStr bank_id); ("result", JDict (rr_value r))] in
  _ ← on_services (quarantine_security_event (fun now =>
        mkPutInput "recalled_memory" "recalled_suspicious_memory" now (JDict (_with_transformations payload (Some scan)))
          (Some writer_id) (Some source) (Some bank_id) (Some id) (Some digest) None (Some bank_id)));
  mret ().

Definition _allow_reviewed_recalled (writer_id source bank_id : string) (r : recall_result) (digest : string)
    (state : MemoryReviewState) : eff (W * recall_cache) bool :=
  if bool_decide (mr_source_content_sha256 state = Some digest) then
    scan ← on_services (sv_scan_recalled sv (JDict (rr_value r)) true None);
    if safe scan then mret true
    else _ ← _quarantine_recalled writer_id source bank_id r digest scan; mret false
  else
    scan ← on_services (sv_scan_recalled sv (JDict (rr_value r)) false None);
    _ ← _quarantine_recalled writer_id source bank_id r digest scan; mret false.

(** The state a result is judged by. *)
Definition review_state_of (bank_id id : string) : eff (W * recall_cache) (option MemoryReviewState) :=
  s ← get_state;
  match c_states s.2 with
  | None =>
      row ← on_services (sv_find_memory_state sv bank_id id);
      mret ((fun i => mkMemoryReviewState (it_status i) (it_source_content_sha256 i)) <$> row)
  | Some states => mret (dict_get (bank_id, id) states)
  end.

Definition _allow_recalled (writer_id source bank_id : string) (r : recall_result) : eff (W * recall_cache) bool :=
  id ← lift (result_id r);
  state ← review_state_of bank_id id;
  digest ← lift (recalled_content_digest (rr_value r));
  let scan_and_judge (pending : option MemoryReviewState) : eff (W * recall_cache) bool :=
    scan ← on_services (sv_scan_recalled sv (JDict (rr_value r)) false None);
    match pending with
    | Some st =>
        if bool_decide (mr_source_content_sha256 st = Some digest) then mret false
        else _ ← _quarantine_recalled writer_id source bank_id r digest scan; mret false
    | None =>
        if safe scan then mret true
        else _ ← _quarantine_recalled writer_id source bank_id r digest scan; mret false
    end in
  match state with
  | None => scan_and_judge None
  | Some st =>
      if elem (mr_status st) [REVIEWED_BLOCKED; REVIEW_IN_PROGRESS; REVIEW_SIDE_EFFECT_STARTED; REVIEW_SIDE_EFFECT_COMPLETED]
      then mret false
      else if bool_decide (mr_status st = REVIEWED_ALLOWED)
      then _allow_reviewed_recalled writer_id source bank_id r digest st
      else scan_and_judge (if elem (mr_status st) REVIEWABLE_STATUSES then Some st else None)
  end.

Definition _quarantine_oversized_recalled (writer_id source bank_id : string) (r : recall_result) : eff W unit :=
  let digest := _recalled_audit_digest (rr_value r) in
  scan ← sv_scan_recalled sv (JDict (rr_value r)) false None;
  let memory_id := match dict_get "id" (rr_value r) with Some (JStr s) => s | _ => "unknown"%string end in
  _ ← quarantine_security_event (fun now =>
    security_event now "recalled_suspicious_memory" (Some writer_id) (Some bank_id) source
      ("oversized-recalled:" +:+ bank_id +:+ ":" +:+ memory_id +:+ ":" +:+ digest)%string
      (JDict [("action", JStr "recalled_memory_too_large"); ("bank_id", JStr bank_id); ("memory_id", JStr memory_id);
              ("content_sha256", JStr digest); ("findings", JList (map public (findings scan)))]));
  mret ().

Definition _quarantine_placeholder_or_degrade (writer_id source bank_id : string) (r : recall_result) : eff W unit :=
  or_degrade (_quarantine_oversized_recalled writer_id source bank_id r).

Definition _allow_recalled_or_degrade (writer_id source bank_id : string) (r : recall_result) : eff (W * recall_cache) bool :=
  let placeholder := _ ← on_services (_quarantine_placeholder_or_degrade writer_id source bank_id r); mret false in
  try_except (_allow_recalled writer_id source bank_id r) (fun e =>
    match e with
    | EValueError _ => placeholder
    | _ =>
        match as_http e with
        | Some h => if item_too_large h then placeholder else if _quarantine_unavailable h then mret false else raise e
        | None => raise e
        end
    end).

Definition _refresh_dirty_review_state (identity : string * string) : eff (W * recall_cache) unit :=
  s ← get_state;
  if elem identity (default [] (c_dirty s.2)) then
    refreshed ← on_services (sv_find_memory_review_states sv [identity]);
    modify (fun s => (s.1, mkRecallCache
      ((fun st => fold_left (fun acc e => dict_set e.1 e.2 acc) refreshed (dict_pop identity st)) <$> c_states s.2)
      (List.filter (fun k => negb (bool_decide (k = identity))) <$> c_dirty s.2)))
  else mret ().

(** The test that puts an allowed result among the reviewed positions. *)
Definition reviewed_result (state : option MemoryReviewState) (r : recall_result) : result bool :=
  match state with
  | Some st =>
      if bool_decide (mr_status st = REVIEWED_ALLOWED)
      then d ← recalled_content_digest (rr_value r); Ok (bool_decide (mr_source_content_sha256 st = Some d))
      else Ok false
  | None => Ok false
  end.

(** The loop over the results of all banks. *)
Fixpoint allowed_loop (writer_id source : string) (entries : list (string * recall_result)) (results : list recall_result)
    (positions : list nat) : eff (W * recall_cache) (list recall_result * list nat) :=
  match entries with
  | [] => mret (results, positions)
  | (bank_id, r) :: rest =>
      id ← lift (result_id r);
      _ ← _refresh_dirty_review_state (bank_id, id);
      allowed ← _allow_recalled_or_degrade writer_id source bank_id r;
      if allowed : bool then
        s ← get_state;
        reviewed ← lift (reviewed_result (dict_get (bank_id, id) (default [] (c_states s.2))) r);
        allowed_loop writer_id source rest (results ++ [r])
          (if reviewed : bool then positions ++ [length results] else positions)
      else allowed_loop writer_id source rest results positions
  end.

Definition bank_entries (responses : list (string * recall_response)) : list (string * recall_result) :=
  concat (map (fun br => map (fun r => (br.1, r)) (rc_results br.2)) responses).

(** [(bank_id, str(result["id"]))] of the results that have an id. *)
Definition entry_identities (entries : list (string * recall_result)) : list (string * string) :=
  omap (fun e => match result_id e.2 with Ok id => Some (e.1, id) | Err _ => None end) entries.

Definition _allowed_recall_results (writer_id source : string) (responses : list (string * recall_response))
    : eff W (list recall_result * list nat) := fun w =>
  let entries := bank_entries responses in
  let identities := entry_identities entries in
  match (if bool_decide (identities = []) then (Ok [], w) else sv_find_memory_review_states sv identities w) with
  | (Err e, w1) => (Err e, w1)
  | (Ok states, w1) =>
      let '(r, s) := allowed_loop writer_id source entries [] [] (w1, mkRecallCache (Some states) (Some [])) in (r, s.1)
  end.

(** ** Supplemental fields *)

Definition supplemental_evidence (field : string) (key : option string) (value : json) : json :=
  JDict [(field, match key with Some k => JDict [(k, value)] | None => value end)].

Definition _allow_recall_supplemental_or_degrade (writer_id source bank_id field : string) (key : option string) (value : json)
    : eff W bool :=
  let evidence := supplemental_evidence field key value in
  scan ← sv_scan_recalled sv evidence false None;
  if safe scan then mret true
  else
    let digest := _audit_digest evidence in
    except_Exception
      (_ ← quarantine_security_event (fun now =>
         security_event now "recalled_suspicious_supplemental" (Some writer_id) (Some bank_id) source
           ("recalled-supplemental:" +:+ bank_id +:+ ":" +:+ field +:+ ":" +:+ py_or key "-" +:+ ":" +:+ digest)%string
           (JDict [("action", JStr "recalled_supplemental_blocked"); ("bank_id", JStr bank_id); ("field", JStr field);
                   ("entry_key_sha256", jopt (sha256_hex <$> key)); ("content_sha256", JStr digest);
                   ("findings", JList (map public (findings scan)))]));
       mret false)
      (fun _ => mret false).

Fixpoint merge_entries (writer_id source bank_id field : string) (value merged : list (string * json)) : eff W (list (string * json)) :=
  match value with
  | [] => mret merged
  | (key, entry) :: rest =>
      allowed ← _allow_recall_supplemental_or_degrade writer_id source bank_id field (Some key) entry;
      merge_entries writer_id source bank_id field rest (if allowed : bool then dict_set key entry merged else merged)
  end.

Definition _merge_recall_map (writer_id source bank_id field : string) (value merged : list (string * json)) : eff W (list (string * json)) :=
  if decide (field = "trace"%string) then
    allowed ← _allow_recall_supplemental_or_degrade writer_id source bank_id field None (JDict value);
    mret (if allowed : bool then dict_update merged value else merged)
  else merge_entries writer_id source bank_id field value merged.

(** [_merged_recall_field]: [None] when the field is absent everywhere. *)
Fixpoint merged_loop (writer_id source field : string) (responses : list (string * recall_response)) (present : bool)
    (merged : option (list (string * json))) : eff W (option json) :=
  match responses with
  | [] => mret (if present then Some (match merged with Some m => JDict m | None => JNull end) else None)
  | (bank_id, response) :: rest =>
      match dict_get field (rc_fields response) with
      | None => merged_loop writer_id source field rest present merged
      | Some (JDict value) =>
          m ← _merge_recall_map writer_id source bank_id field value (default [] merged);
          merged_loop writer_id source field rest true (Some m)
      | Some _ => merged_loop writer_id source field rest true merged
      end
  end.

Definition _merged_recall_field (writer_id source : string) (responses : list (string * recall_response)) (field : string)
    : eff W (option json) := merged_loop writer_id source field responses false None.

Fixpoint merged_fields (writer_id source : string) (responses : list (string * recall_response)) (fields : list string)
    : eff W (list (string * json)) :=
  match fields with
  | [] => mret []
  | field :: rest =>
      value ← _merged_recall_field writer_id source responses field;
      others ← merged_fields writer_id source responses rest;
      mret (match value with Some v => (field, v) :: others | None => others end)
  end.

(** ** Recalling *)

(** [gather(..., return_exceptions=True)]: every bank is asked. *)
Fixpoint gather_recall (banks : list string) (body : list (string * json)) : eff W (list (result recall_response)) :=
  match banks with
  | [] => mret []
  | b :: rest => fun w =>
      let '(r, w1) := sv_recall sv b body w in (rs ← gather_recall rest body; mret (r :: rs)) w1
  end.

(** The outcomes sorted out: the responses, and how many banks failed. *)
Fixpoint sort_outcomes (outcomes : list (string * result recall_response)) : result (list (string * recall_response) * Z) :=
  match outcomes with
  | [] => Ok ([], 0)
  | (bank, Ok response) :: rest => '(rs, n) ← sort_outcomes rest; Ok ((bank, response) :: rs, n)
  | (_, Err (EGateway _)) :: rest => '(rs, n) ← sort_outcomes rest; Ok (rs, n + 1)
  | (_, Err e) :: _ => Err e
  end.

Definition _recall_from_banks (banks : list string) (body : list (string * json)) : eff W (list (string * recall_response) * Z) :=
  outcomes ← gather_recall banks body;
  lift (sort_outcomes (zip banks outcomes)).

Definition _allow_recall_aggregate (writer_id source : string) (response : recall_answer) (reviewed_positions : list nat)
    (bank_id : option string) : eff W bool :=
  scan ← sv_scan_recalled sv (recall_response_scan_input response) false (Some reviewed_positions);
  if safe scan then mret true
  else
    let digest := _audit_digest (answer_json response) in
    let finding f := JDict (("reason", JStr (sf_reason f)) ::
                            (if truthy (sf_detector f) then [("detector", jopt (sf_detector f))] else [])) in
    except_Exception
      (_ ← quarantine_security_event (fun now =>
         security_event now "recalled_suspicious_aggregate" (Some writer_id) bank_id source
           ("recalled-aggregate:" +:+ writer_id +:+ ":" +:+ digest)%string
           (JDict [("action", JStr "recalled_aggregate_blocked"); ("content_sha256", JStr digest);
                   ("score_certification", JDict (counter (map recall_score_certification (an_results response))));
                   ("findings", JList (map finding (findings scan)))]));
       mret false)
      (fun _ => mret false).

Definition _recall_from_read_banks (writer_id : string) (read_banks : list string) (body : list (string * json)) (source : string)
    : eff W recall_answer :=
  _ ← sv_consume_recall sv writer_id;
  scan ← sv_scan_request sv body "recall" None;
  if negb (safe scan) then
    _ ← _quarantine_recall_or_degrade writer_id source "suspicious_query" body (Some read_banks) (Some scan);
    mret (mkRecallAnswer [] [] 0)
  else
    '(responses, failed_banks) ← _recall_from_banks read_banks body;
    '(results, reviewed_positions) ← _allowed_recall_results writer_id source responses;
    fields ← merged_fields writer_id source responses _RECALL_RESPONSE_MAP_FIELDS;
    let combined := mkRecallAnswer results fields failed_banks in
    allowed ← _allow_recall_aggregate writer_id source combined reviewed_positions (single_bank (Some read_banks));
    mret (if allowed : bool then combined else mkRecallAnswer [] [] failed_banks).

Definition recall (writer_id : string) (body : list (string * json)) (source : option string) : eff W recall_answer :=
  match dict_get writer_id writers with
  | None =>
      _ ← _quarantine_recall_or_degrade writer_id (default "openclaw"%string source) "unknown_writer" body None None;
      mret (mkRecallAnswer [] [] 0)
  | Some writer => _recall_from_read_banks writer_id (wr_read_banks writer) body (default (wr_source writer) source)
  end.

Definition recall_bank (principal_id bank : string) (body : list (string * json)) (source : string) : eff W recall_answer :=
  _recall_from_read_banks principal_id [bank] body source.
End policy.
