(* ===== verification/PolicyProps.v ===== *)
(** * The memory policy: theorems

    On [Policy.v]: a recall that looks review states up in one batch behaves
    like one that looks each result up; what it returns was screened; an
    unavailable quarantine does not fail it; the memory service is asked only
    for screened requests. The contract of the store towards the policy is the
    class [ReviewStore]. *)

From Stdlib Require Import ZArith Lia Ascii.
From stdpp Require Import base sets strings numbers list.
From S2P Require Import Prelude Errors Text Sha256 Json Repository RepositoryProps Envelope Dedupe Validation QuarantineStore Hindsight Policy.

Local Open Scope Z_scope.

(** ** The store as the policy sees it *)

(** The inputs the policy writes. *)
Definition policy_input (i : put_input) : Prop :=
  (in_sourceBank i = None /\ in_sourceMemoryId i = None /\ in_kind i <> "recalled_memory" /\
   (in_kind i = "security_event" \/ request_kind (in_kind i) && truthy (in_dedupeKey i) = true)) \/
  (in_kind i = "recalled_memory" /\ is_Some (in_sourceBank i) /\ is_Some (in_sourceMemoryId i) /\ in_dedupeKey i = None).

(** The memory identity an input is about. *)
Definition input_identity (i : put_input) : option (string * string) :=
  match in_sourceBank i, in_sourceMemoryId i with Some b, Some m => Some (b, m) | _, _ => None end.

(** What the policy relies on: lookups read the review states [view], a write
    changes the state of its own memory at most, and scanning and the clock
    change none. *)
Class ReviewStore {W} (sv : Services W) (inv : W -> Prop) (view : W -> string * string -> option MemoryReviewState) : Prop := {
  rs_states ids w : inv w -> exists st, sv_find_memory_review_states sv ids w = (Ok st, w) /\ NoDup (map fst st) /\
    forall k v, (k, v) ∈ st <-> k ∈ ids /\ view w k = Some v;
  rs_state b m w : inv w -> exists row, sv_find_memory_state sv b m w = (Ok row, w) /\ row_state <$> row = view w (b, m);
  rs_put i w : inv w -> policy_input i -> inv (sv_put sv i w).2 /\
    forall k, input_identity i <> Some k -> view (sv_put sv i w).2 k = view w k;
  rs_scan v st pos w : inv w -> inv (sv_scan_recalled sv v st pos w).2 /\ forall k, view (sv_scan_recalled sv v st pos w).2 k = view w k;
  rs_now w : inv w -> inv (sv_iso_now sv w).2 /\ forall k, view (sv_iso_now sv w).2 k = view w k
}.

(** ** Recalling row by row *)

Section reference.
Context `{Rfc8785, PyRepr} {W : Type} (sv : Services W).

(** The reference: every result is judged by the state its row has then. *)
Fixpoint row_by_row (writer_id source : string) (entries : list (string * recall_result)) (results : list recall_result)
    (positions : list nat) : eff W (list recall_result * list nat) :=
  match entries with
  | [] => mret (results, positions)
  | (bank_id, r) :: rest =>
      id ← lift (result_id r);
      row ← sv_find_memory_state sv bank_id id;
      allowed ← (fun w => let '(a, s) := _allow_recalled_or_degrade sv writer_id source bank_id r (w, mkRecallCache None None)
                          in (a, s.1));
      if allowed : bool then
        reviewed ← lift (reviewed_result (row_state <$> row) r);
        row_by_row writer_id source rest (results ++ [r]) (if reviewed : bool then positions ++ [length results] else positions)
      else row_by_row writer_id source rest results positions
  end.
End reference.

Section batched.
Context `{Rfc8785, PyRepr} {W : Type} (sv : Services W) (inv : W -> Prop).
Context (view : W -> string * string -> option MemoryReviewState) `{!ReviewStore sv inv view}.

Abbreviation cached st d := (mkRecallCache (Some st) (Some d)).
Abbreviation uncached := (mkRecallCache None None).

(** A computation that runs alike with and without the shared objects, and
    marks every identity whose state it changes. *)
Definition alike_at {A} (m : eff (W * recall_cache) A) (w : W) (st : list ((string * string) * MemoryReviewState))
    (d : list (string * string)) : Prop :=
  exists r w' d', m (w, cached st d) = (r, (w', cached st d')) /\ m (w, uncached) = (r, (w', uncached)) /\ inv w' /\
    (forall k, k ∈ d -> k ∈ d') /\ forall k, k ∉ d' -> view w' k = view w k.
Definition alike {A} (m : eff (W * recall_cache) A) : Prop := forall w st d, inv w -> alike_at m w st d.

Lemma alike_bind {A B} (m : eff (W * recall_cache) A) (k : A -> eff (W * recall_cache) B) w st d :
  alike_at m w st d -> (forall a, alike (k a)) -> alike_at (m ≫= k) w st d.
Proof.
  intros (r & w1 & d1 & Hc & Hu & Hi & Hd & Hv) Hk. destruct r as [a|e].
  - destruct (Hk a w1 st d1 Hi) as (r2 & w2 & d2 & Hc2 & Hu2 & Hi2 & Hd2 & Hv2). exists r2, w2, d2.
    rewrite (bind_ok _ _ _ _ _ Hc), (bind_ok _ _ _ _ _ Hu). split_and!; try done; [auto|].
    intros i Hn. rewrite Hv2 by done. apply Hv. auto.
  - exists (Err e), w1, d1. rewrite (bind_err _ _ _ _ _ Hc), (bind_err _ _ _ _ _ Hu). done.
Qed.

Lemma alike_lift {A B} (a : A) (k : A -> eff (W * recall_cache) B) w st d : alike_at (k a) w st d -> alike_at (lift (Ok a) ≫= k) w st d.
Proof. done. Qed.

Lemma alike_try {A} (m : eff (W * recall_cache) A) h w st d :
  alike_at m w st d -> (forall e, alike (h e)) -> alike_at (try_except m h) w st d.
Proof.
  intros (r & w1 & d1 & Hc & Hu & Hi & Hd & Hv) Hk. unfold alike_at, try_except. rewrite Hc, Hu. destruct r as [a|e].
  - by exists (Ok a), w1, d1.
  - destruct (Hk e w1 st d1 Hi) as (r2 & w2 & d2 & Hc2 & Hu2 & Hi2 & Hd2 & Hv2). exists r2, w2, d2.
    split_and!; try done; [auto|]. intros i Hn. rewrite Hv2 by done. apply Hv. auto.
Qed.

Lemma alike_pure {A} (r : result A) : alike (lift r).
Proof. intros w st d Hi. by exists r, w, d. Qed.

Lemma alike_ret {A} (a : A) : alike (mret a).
Proof. exact (alike_pure (Ok a)). Qed.

Lemma alike_raise {A} e : alike (raise (A := A) e).
Proof. exact (alike_pure (Err e)). Qed.

(** An effect that keeps the invariant and the view. *)
Definition quiet {A} (m : eff W A) : Prop := forall w, inv w -> inv (m w).2 /\ forall k, view (m w).2 k = view w k.

Lemma alike_services {A} (m : eff W A) : quiet m -> alike (on_services m).
Proof.
  intros Hq w st d Hi. destruct (Hq w Hi) as [Hi' Hv]. unfold alike_at, on_services. cbn [fst snd].
  destruct (m w) as [r w'] eqn:E. by exists r, w', d.
Qed.

Lemma quiet_bind {A B} (m : eff W A) (k : A -> eff W B) : quiet m -> (forall a, quiet (k a)) -> quiet (m ≫= k).
Proof.
  intros Hm Hk w Hi. destruct (Hm w Hi) as [Hi' Hv]. unfold mbind, eff_bind. destruct (m w) as [[a|e] w']; [|done].
  cbn [snd] in *. destruct (Hk a w' Hi') as [Hi2 Hv2]. split; [done|]. intros i. by rewrite Hv2.
Qed.

Lemma quiet_pure {A} (r : result A) : quiet (lift r).
Proof. by intros w Hi. Qed.

Lemma quiet_scan v st pos : quiet (sv_scan_recalled sv v st pos).
Proof. intros w Hi. by apply rs_scan. Qed.

Lemma quiet_event values : (forall now, policy_input (values now) /\ input_identity (values now) = None) ->
  quiet (quarantine_security_event sv values).
Proof.
  intros Hv. apply quiet_bind; [intros w Hi; by apply rs_now|]. intros now w Hi. destruct (Hv now) as [Hp Hid].
  destruct (rs_put (ReviewStore := ReviewStore0) (values now) w Hi Hp) as [Hi' Hk]. split; [done|]. intros k. apply Hk. by rewrite Hid.
Qed.

Lemma quiet_try {A} (m : eff W A) h : quiet m -> (forall e, quiet (h e)) -> quiet (try_except m h).
Proof.
  intros Hm Hh w Hi. destruct (Hm w Hi) as [Hi' Hv]. unfold try_except. destruct (m w) as [[a|e] w']; [done|].
  cbn [snd] in *. destruct (Hh e w' Hi') as [Hi2 Hv2]. split; [done|]. intros i. by rewrite Hv2.
Qed.

Lemma security_input now reason writer bank source dedupe payload :
  policy_input (security_event now reason writer bank source dedupe payload) /\
  input_identity (security_event now reason writer bank source dedupe payload) = None.
Proof. split; [|done]. left. split_and!; try done. by left. Qed.

Lemma quiet_placeholder writer_id source bank_id r : quiet (_quarantine_placeholder_or_degrade sv writer_id source bank_id r).
Proof.
  apply quiet_try.
  - apply quiet_bind; [apply quiet_scan|]. intros scan. apply quiet_bind; [|intros x; exact (quiet_pure (Ok ()))].
    apply quiet_event. intros now. apply security_input.
  - intros e. destruct (as_http e) as [h|]; [destruct (_quarantine_unavailable h)|]; try exact (quiet_pure (Ok ())); exact (quiet_pure (Err e)).
Qed.

Lemma set_add_spec k l x : x ∈ set_add k l <-> x = k \/ x ∈ l.
Proof.
  unfold set_add. destruct (elem k l) eqn:E; [apply elem_true in E; split; [by right|by intros [->|?]]|]. apply elem_of_cons.
Qed.

Lemma alike_quarantine writer_id source bank_id r digest scan :
  alike (_quarantine_recalled sv writer_id source bank_id r digest scan).
Proof.
  intros w st d Hi. unfold _quarantine_recalled. apply alike_bind; [by apply alike_pure|]. clear w d Hi. intros id w st' d Hi.
  set (i := fun now => mkPutInput _ _ now _ _ _ _ _ _ _ _).
  assert (Hp : forall now, policy_input (i now)) by (intros now; right; split_and!; done || by eexists).
  unfold alike_at, mbind, eff_bind, invalidate, modify, on_services. cbn [fst snd c_states c_dirty fmap option_fmap option_map].
  unfold quarantine_security_event, mbind, eff_bind. destruct (rs_now (ReviewStore := ReviewStore0) w Hi) as [Hi1 Hv1].
  destruct (sv_iso_now sv w) as [[now|e] w1]; cbn [snd] in *.
  - destruct (rs_put (ReviewStore := ReviewStore0) (i now) w1 Hi1 (Hp now)) as [Hi2 Hv2].
    destruct (sv_put sv (i now) w1) as [[x|e] w2]; cbn [snd fst] in *;
      eexists _, w2, (set_add (bank_id, id) d); (split_and!; [reflexivity|reflexivity|done|intros k Hk; apply set_add_spec; by right|]);
      intros k Hk; rewrite Hv2, Hv1; try done; intros [= <-]; apply Hk, set_add_spec; by left.
  - eexists _, w1, (set_add (bank_id, id) d). split_and!; [reflexivity|reflexivity|done|intros k Hk; apply set_add_spec; by right|].
    intros k Hk. apply Hv1.
Qed.

Lemma alike_reviewed writer_id source bank_id r digest state :
  alike (_allow_reviewed_recalled sv writer_id source bank_id r digest state).
Proof.
  intros w st d Hi. unfold _allow_reviewed_recalled. case_bool_decide.
  all: apply alike_bind; [apply alike_services; [apply quiet_scan|done]|]; intros scan ????.
  1: destruct (safe scan); [by apply alike_ret|].
  all: apply alike_bind; [by apply alike_quarantine|]; intros []; apply alike_ret.
Qed.

(** Judging a result alike needs its cached state to be current. *)
Lemma alike_allow writer_id source bank_id r w st d :
  inv w -> (forall id, result_id r = Ok id -> dict_get (bank_id, id) st = view w (bank_id, id)) ->
  alike_at (_allow_recalled sv writer_id source bank_id r) w st d.
Proof.
  intros Hi Hst. unfold _allow_recalled. destruct (result_id r) as [id|e]; [|by exists (Err e), w, d].
  specialize (Hst id eq_refl). apply alike_lift, alike_bind.
  - destruct (rs_state (ReviewStore := ReviewStore0) bank_id id w Hi) as (row & Hrow & Hview).
    exists (Ok (view w (bank_id, id))), w, d. unfold review_state_of, get_state, mbind, eff_bind, on_services. cbn [c_states fst snd].
    rewrite Hrow. split_and!; try done; [by rewrite <- Hst|]. unfold mret, eff_ret. by rewrite <- Hview.
  - intros state ????. apply alike_bind; [by apply alike_pure|]. intros digest ????.
    assert (Hjudge : forall pending, alike (scan ← on_services (sv_scan_recalled sv (JDict (rr_value r)) false None);
      match pending with
      | Some st => if bool_decide (mr_source_content_sha256 st = Some digest) then mret false
                   else _ ← _quarantine_recalled sv writer_id source bank_id r digest scan; mret false
      | None => if safe scan then mret true else _ ← _quarantine_recalled sv writer_id source bank_id r digest scan; mret false
      end)).
    { intros pending ????. apply alike_bind; [apply alike_services; [apply quiet_scan|done]|]. intros scan ????.
      destruct pending as [p|]; [destruct (bool_decide _)|destruct (safe scan)]; try by apply alike_ret.
      all: apply alike_bind; [by apply alike_quarantine|]; intros []; apply alike_ret. }
    destruct state as [s|]; [|by apply (Hjudge None)]. destruct (elem _ _); [by apply alike_ret|].
    destruct (bool_decide _); [by apply alike_reviewed|].
    by apply (Hjudge (if elem (mr_status s) REVIEWABLE_STATUSES then Some s else None)).
Qed.

Lemma alike_degrade writer_id source bank_id r w st d :
  inv w -> (forall id, result_id r = Ok id -> dict_get (bank_id, id) st = view w (bank_id, id)) ->
  alike_at (_allow_recalled_or_degrade sv writer_id source bank_id r) w st d.
Proof.
  intros Hi Hst. apply alike_try; [by apply alike_allow|]. intros e.
  assert (Hp : alike (_ ← on_services (_quarantine_placeholder_or_degrade sv writer_id source bank_id r); mret false)).
  { intros ????. apply alike_bind; [apply alike_services; [apply quiet_placeholder|done]|]. intros []. apply alike_ret. }
  assert (Hh : alike (match as_http e with
    | Some h => if item_too_large h then _ ← on_services (_quarantine_placeholder_or_degrade sv writer_id source bank_id r); mret false
                else if _quarantine_unavailable h then mret false else raise e
    | None => raise e end)).
  { destruct (as_http e) as [h|]; [destruct (item_too_large h); [done|destruct (_quarantine_unavailable h)]|];
      [apply alike_ret|apply alike_raise..]. }
  destruct e; done.
Qed.

(** ** The batch *)

Lemma dict_get_rev (l : list ((string * string) * MemoryReviewState)) k : NoDup (map fst l) -> dict_get k (rev l) = dict_get k l.
Proof.
  intros Hnd. assert (Hr : NoDup (map fst (rev l))) by (rewrite List.map_rev; by apply NoDup_ListNoDup, List.NoDup_rev, NoDup_ListNoDup).
  destruct (dict_get k l) as [v|] eqn:E.
  - apply dict_get_nodup; [done|]. apply list_elem_of_In. rewrite <- List.in_rev. by apply list_elem_of_In, dict_get_elem.
  - apply dict_get_None. apply dict_get_None in E. intros Hin. apply E. apply list_elem_of_In. apply list_elem_of_In in Hin.
    rewrite List.map_rev in Hin. by apply List.in_rev.
Qed.

Lemma states_get (st : list ((string * string) * MemoryReviewState)) (ids : list (string * string)) w k : NoDup (map fst st) -> (forall k v, (k, v) ∈ st <-> k ∈ ids /\ view w k = Some v) ->
  k ∈ ids -> dict_get k st = view w k.
Proof.
  intros Hnd Hst Hk. destruct (dict_get k st) as [v|] eqn:E.
  - apply dict_get_elem, Hst in E as [_ ->]. done.
  - destruct (view w k) as [v|] eqn:Ev; [|done]. assert (Hin : (k, v) ∈ st) by by apply Hst.
    by rewrite (dict_get_nodup _ _ _ Hnd Hin) in E.
Qed.

(** The cached states of the identities not marked are current. *)
Definition current (ids : list (string * string)) (w : W) st (d : list (string * string)) : Prop :=
  forall k, k ∈ ids -> k ∉ d -> dict_get k st = view w k.

Lemma refresh_run k ids w st d : inv w -> current ids w st d -> k ∈ ids ->
  exists st' d', _refresh_dirty_review_state sv k (w, cached st d) = (Ok (), (w, cached st' d')) /\
    current ids w st' d' /\ dict_get k st' = view w k /\ k ∉ d'.
Proof.
  intros Hi Hc Hk. unfold _refresh_dirty_review_state, get_state, mbind, eff_bind. cbn [c_dirty default id fst snd].
  destruct (elem k d) eqn:Ed.
  - destruct (rs_states (ReviewStore := ReviewStore0) [k] w Hi) as (re & Hre & Hnd & Hspec). unfold on_services. cbn [fst snd]. rewrite Hre.
    unfold modify. cbn [fst snd c_states c_dirty fmap option_fmap option_map]. eexists _, _. split; [reflexivity|].
    assert (Hget : forall j, dict_get j (fold_left (fun acc e => dict_set e.1 e.2 acc) re (dict_pop k st)) =
      if decide (j = k) then view w k else dict_get j st).
    { intros j. rewrite dict_fold_get, dict_get_rev, dict_get_pop by done. destruct (decide (j = k)) as [->|Hne].
      - rewrite (states_get re [k] w k) by (done || by left). by destruct (view w k).
      - destruct (dict_get j re) as [v|] eqn:E; [|done]. apply dict_get_elem, Hspec in E as [E _]. by apply list_elem_of_singleton in E. }
    split_and!.
    + intros j Hj Hn. rewrite Hget. destruct (decide (j = k)) as [->|Hne]; [done|]. apply Hc; [done|]. intros Hjd. apply Hn.
      apply list_elem_of_In, List.filter_In. split; [by apply list_elem_of_In|]. by rewrite bool_decide_false.
    + rewrite Hget. by rewrite decide_True.
    + intros Hin. apply list_elem_of_In, List.filter_In in Hin as [_ Hb]. by rewrite bool_decide_true in Hb.
  - apply elem_false in Ed. exists st, d. split_and!; try done. by apply Hc.
Qed.

Lemma alike_loop writer_id source entries : forall results positions ids w st d,
  inv w -> current ids w st d -> (forall k, k ∈ entry_identities entries -> k ∈ ids) ->
  let '(r, s) := allowed_loop sv writer_id source entries results positions (w, cached st d) in
  (r, s.1) = row_by_row sv writer_id source entries results positions w.
Proof.
  induction entries as [|[bank r] rest IH]; intros results positions ids w st d Hi Hc Hids; [done|].
  cbn [allowed_loop row_by_row]. unfold mbind, eff_bind, lift.
  destruct (result_id r) as [id|e] eqn:Eid; [|done].
  assert (Hids' : (bank, id) ∈ ids /\ forall k, k ∈ entry_identities rest -> k ∈ ids).
  { split; [|intros k Hk]; apply Hids; unfold entry_identities; simpl; rewrite Eid; simpl; [by left|by right]. }
  destruct Hids' as [Hk Hrest].
  destruct (refresh_run (bank, id) ids w st d Hi Hc Hk) as (st' & d' & -> & Hc' & Hget & Hnd).
  destruct (rs_state (ReviewStore := ReviewStore0) bank id w Hi) as (row & -> & Hrow).
  destruct (alike_degrade writer_id source bank r w st' d' Hi ltac:(intros id' Hid'; rewrite Eid in Hid'; by injection Hid' as <-))
    as (a & w' & d2 & -> & -> & Hi' & Hd & Hv). cbn [fst].
  assert (Hc2 : current ids w' st' d2) by (intros k Hkin Hn; rewrite Hv by done; apply Hc'; auto).
  destruct a as [[|]|e]; [|by apply IH with ids|done].
  unfold get_state. cbn [c_states default Datatypes.id fst snd]. rewrite Hget, <- Hrow.
  destruct (reviewed_result (row_state <$> row) r) as [reviewed|e]; [|done]. by apply IH with ids.
Qed.
End batched.

(** ** The snapshot

    Without any contract: other requests may change review states at any await. *)

Section snapshot.
Context `{Rfc8785, PyRepr} {W : Type} (sv : Services W).

(** The reference: every result is judged by the states given, which are never
    looked up again. *)
Fixpoint by_snapshot (writer_id source : string) (st : list ((string * string) * MemoryReviewState)) (entries : list (string * recall_result))
    (results : list recall_result) (positions : list nat) : eff W (list recall_result * list nat) :=
  match entries with
  | [] => mret (results, positions)
  | (bank_id, r) :: rest =>
      id ← lift (result_id r);
      allowed ← (fun w => let '(a, s) := _allow_recalled_or_degrade sv writer_id source bank_id r (w, mkRecallCache (Some st) None) in (a, s.1));
      if allowed : bool then
        reviewed ← lift (reviewed_result (dict_get (bank_id, id) st) r);
        by_snapshot writer_id source st rest (results ++ [r]) (if reviewed : bool then positions ++ [length results] else positions)
      else by_snapshot writer_id source st rest results positions
  end.

(** A computation that leaves the states alone, marks [k] at most and does not
    depend on the marks. *)
Definition steady {A} (k : string * string) (m : eff (W * recall_cache) A) : Prop := forall w st, exists r w' (b : bool),
  (forall d, m (w, mkRecallCache (Some st) (Some d)) = (r, (w', mkRecallCache (Some st) (Some (if b then set_add k d else d)))))
  /\ m (w, mkRecallCache (Some st) None) = (r, (w', mkRecallCache (Some st) None)).

Lemma set_add_twice (k : string * string) d : set_add k (set_add k d) = set_add k d.
Proof. unfold set_add at 1. by rewrite (proj2 (elem_true k _)) by (apply set_add_spec; by left). Qed.

Lemma steady_bind {A B} k (m : eff (W * recall_cache) A) (f : A -> eff (W * recall_cache) B) : steady k m -> (forall a, steady k (f a)) -> steady k (m ≫= f).
Proof.
  intros Hm Hf w st. destruct (Hm w st) as (r & w1 & b1 & H1 & H1'). destruct r as [a|e].
  - destruct (Hf a w1 st) as (r2 & w2 & b2 & H2 & H2'). exists r2, w2, (b1 || b2). unfold mbind, eff_bind. split; [intros d|by rewrite H1', H2'].
    rewrite H1, H2. destruct b1, b2; simpl; by rewrite ?set_add_twice.
  - exists (Err e), w1, b1. unfold mbind, eff_bind. split; [intros d; by rewrite H1|by rewrite H1'].
Qed.

Lemma steady_try {A} k (m : eff (W * recall_cache) A) h : steady k m -> (forall e, steady k (h e)) -> steady k (try_except m h).
Proof.
  intros Hm Hf w st. destruct (Hm w st) as (r & w1 & b1 & H1 & H1'). destruct r as [a|e].
  - exists (Ok a), w1, b1. unfold try_except. split; [intros d; by rewrite H1|by rewrite H1'].
  - destruct (Hf e w1 st) as (r2 & w2 & b2 & H2 & H2'). exists r2, w2, (b1 || b2). unfold try_except. split; [intros d|by rewrite H1', H2'].
    rewrite H1, H2. destruct b1, b2; simpl; by rewrite ?set_add_twice.
Qed.

Lemma steady_lift {A} k (r : result A) : steady k (lift r).
Proof. intros w st. by exists r, w, false. Qed.

Lemma steady_ret {A} k (a : A) : steady k (mret a).
Proof. exact (steady_lift k (Ok a)). Qed.

Lemma steady_raise {A} k e : steady k (raise (A := A) e).
Proof. exact (steady_lift k (Err e)). Qed.

Lemma steady_services {A} k (m : eff W A) : steady k (on_services m).
Proof. intros w st. unfold on_services. cbn [fst snd]. destruct (m w) as [r w']. by exists r, w', false. Qed.

Lemma steady_ok {A B} k (a : A) (f : A -> eff (W * recall_cache) B) : steady k (f a) -> steady k (lift (Ok a) ≫= f).
Proof. done. Qed.

Lemma steady_invalidate k : steady k (invalidate k).
Proof. intros w st. by exists (Ok ()), w, true. Qed.
#[local] Hint Resolve steady_lift steady_ret steady_raise steady_services steady_invalidate : core.

Lemma steady_quarantine writer_id source bank_id r id digest scan : result_id r = Ok id -> steady (bank_id, id) (_quarantine_recalled sv writer_id source bank_id r digest scan).
Proof. intros Hid. unfold _quarantine_recalled. rewrite Hid. apply steady_ok. repeat (apply steady_bind; [done|intros]); done. Qed.

Lemma steady_state k bank_id id : steady k (review_state_of sv bank_id id).
Proof. intros w st. by exists (Ok (dict_get (bank_id, id) st)), w, false. Qed.

Lemma steady_allow writer_id source bank_id r id : result_id r = Ok id -> steady (bank_id, id) (_allow_recalled sv writer_id source bank_id r).
Proof.
  intros Hid. pose proof (fun digest scan => steady_quarantine writer_id source bank_id r id digest scan Hid) as Hq.
  unfold _allow_recalled. rewrite Hid. apply steady_ok. apply steady_bind; [apply steady_state|]. intros state. apply steady_bind; [done|]. intros digest. cbv zeta.
  assert (Hhold : forall scan, steady (bank_id, id) (_ ← _quarantine_recalled sv writer_id source bank_id r digest scan; mret false))
    by (intros scan; by apply steady_bind).
  assert (Hjudge : forall pending, steady (bank_id, id) (scan ← on_services (sv_scan_recalled sv (JDict (rr_value r)) false None);
      match pending with
      | Some st => if bool_decide (mr_source_content_sha256 st = Some digest) then mret false
                   else _ ← _quarantine_recalled sv writer_id source bank_id r digest scan; mret false
      | None => if safe scan then mret true else _ ← _quarantine_recalled sv writer_id source bank_id r digest scan; mret false
      end)) by (intros pending; apply steady_bind; [done|intros scan; by repeat case_match]).
  destruct state as [s|]; [|by apply (Hjudge None)]. destruct (elem _ _); [done|]. destruct (bool_decide _); [|by apply Hjudge].
  unfold _allow_reviewed_recalled. destruct (bool_decide _); (apply steady_bind; [done|]); intros scan; [by destruct (safe scan)|done].
Qed.

Lemma steady_degrade writer_id source bank_id r id : result_id r = Ok id -> steady (bank_id, id) (_allow_recalled_or_degrade sv writer_id source bank_id r).
Proof.
  intros Hid. apply steady_try; [by apply steady_allow|]. intros e.
  assert (Hp : steady (bank_id, id) (_ ← on_services (_quarantine_placeholder_or_degrade sv writer_id source bank_id r); mret false)) by (by apply steady_bind).
  destruct e; try done; simpl; by repeat case_match.
Qed.

Lemma snapshot_loop writer_id source st entries : forall results positions w d,
  NoDup (entry_identities entries) -> (forall k, k ∈ entry_identities entries -> k ∉ d) ->
  let '(r, s) := allowed_loop sv writer_id source entries results positions (w, mkRecallCache (Some st) (Some d)) in
  (r, s.1) = by_snapshot writer_id source st entries results positions w.
Proof.
  induction entries as [|[bank r] rest IH]; intros results positions w d Hnd Hd; [done|].
  cbn [allowed_loop by_snapshot]. unfold mbind, eff_bind, lift. destruct (result_id r) as [id|e] eqn:Eid; [|done].
  unfold entry_identities in Hnd, Hd. simpl in Hnd, Hd. rewrite Eid in Hnd, Hd. apply NoDup_cons in Hnd as [Hx Hnd].
  unfold _refresh_dirty_review_state, get_state, mbind, eff_bind. cbn [c_dirty default Datatypes.id fst snd].
  rewrite (proj2 (elem_false (bank, id) d)) by (apply Hd; by left). unfold mret, eff_ret.
  destruct (steady_degrade writer_id source bank r id Eid w st) as (a & w' & b & Hrun & Hrun'). rewrite Hrun, Hrun'. cbn [fst].
  assert (Hd' : forall k, k ∈ entry_identities rest -> k ∉ (if b then set_add (bank, id) d else d)).
  { intros k Hk. assert (k ∉ d) by (apply Hd; by right). destruct b; [|done]. intros [->|?]%set_add_spec; done. }
  destruct a as [[|]|e]; [|by apply IH|done]. cbn [c_states default Datatypes.id fst snd].
  destruct (reviewed_result (dict_get (bank, id) st) r) as [reviewed|e]; [|done]. by apply IH.
Qed.
End snapshot.

(** C19: looking review states up in one batch changes nothing that it should not.
    When nobody else decides reviews during the recall ([ReviewStore]: lookups read
    the review states, a write changes that of its own memory at most, scans and
    the clock change none), a recall that reads the states of all results first and
    looks a memory up again only after it tried to quarantine it allows the same
    results, marks the same reviewed positions, raises the same error and leaves
    the same state as the reference that looks every result up when it is judged;
    repeated results of one memory included. And with any services at all, so also
    when other requests decide reviews meanwhile, a recall whose results are of
    different memories judges each of them by the states read before the first
    scan: it sees all of that snapshot and nothing of later decisions. *)
Theorem batched_recall_equivalent `{Rfc8785, PyRepr} {W} (sv : Services W) writer_id source responses w :
  let entries := bank_entries responses in
  (forall inv view, ReviewStore sv inv view -> inv w ->
     _allowed_recall_results sv writer_id source responses w = row_by_row sv writer_id source entries [] [] w)
  /\ (NoDup (entry_identities entries) ->
      _allowed_recall_results sv writer_id source responses w =
        (st ← (if bool_decide (entry_identities entries = []) then mret [] else sv_find_memory_review_states sv (entry_identities entries));
         by_snapshot sv writer_id source st entries [] []) w).
Proof.
  cbv zeta. set (entries := bank_entries responses). set (ids := entry_identities entries). split.
  - intros inv view Hstore Hi. unfold _allowed_recall_results. fold entries ids.
    assert (exists st, (if bool_decide (ids = []) then (Ok [], w) else sv_find_memory_review_states sv ids w) = (Ok st, w) /\ current view ids w st []) as (st & -> & Hc).
    { case_bool_decide as Hnil; [exists []; rewrite Hnil; split; [done|]; intros k Hk; by apply not_elem_of_nil in Hk|].
      destruct (rs_states (ReviewStore := Hstore) ids w Hi) as (st & -> & Hnd & Hspec). exists st. split; [done|].
      intros k Hk _. by apply (states_get view st ids). }
    pose proof (alike_loop sv inv view writer_id source entries [] [] ids w st [] Hi Hc (fun k Hk => Hk)) as Hl.
    destruct (allowed_loop _ _ _ _ _ _ _) as [r s]. exact Hl.
  - intros Hnd. unfold _allowed_recall_results, mbind, eff_bind. fold entries ids.
    assert (E : (if bool_decide (ids = []) then (Ok [], w) else sv_find_memory_review_states sv ids w)
      = (if bool_decide (ids = []) then mret [] else sv_find_memory_review_states sv ids) w) by (by destruct (bool_decide _)).
    rewrite E. match goal with |- context [(if ?b then ?x else ?y) w] => destruct ((if b then x else y) w) as [[st|e] w1] end; [|done].
    pose proof (snapshot_loop sv writer_id source st entries [] [] w1 [] Hnd ltac:(intros k _; apply not_elem_of_nil)) as Hl.
    destruct (allowed_loop _ _ _ _ _ _ _) as [r s]. exact Hl.
Qed.
