(* ===== verification/OpenClaw.v ===== *)
(** * The OpenClaw facade

    Models [memory_router/openclaw.py], [memory_router/openclaw_contracts.py] and
    [scan_unavailable] of [memory_router/scan_executor.py]: a request on a
    facade route is bounded, charged, scanned and forwarded, and the answer of
    the memory service is scanned and checked against its contract. The services
    are those of [Policy.v]. A model of [pydantic] is the check that its fields
    have their types; extra fields pass. Log lines are not modelled. *)

From Stdlib Require Import ZArith Lia Ascii.
From stdpp Require Import base sets strings numbers list.
From S2P Require Import Prelude Errors Text Sha256 Json FacadeRoutes Envelope Validation Limits QuarantineStore Paths Hindsight HindsightProps Policy.

Local Open Scope Z_scope.

(** ** Contracts of responses *)

(** [_generated_uuid]: a version 4 identifier in its canonical form. *)
Definition uuid_groups (prefix : string) : list nat := if bool_decide (prefix = ""%string) then [8; 4; 4; 4; 12]%nat else [32]%nat.

Definition uuid_hex (identifier : string) (groups : list nat) : option (list ascii) :=
  let parts := str_split "-" identifier in
  if bool_decide (map String.length parts = groups) && forallb (fun p => forallb is_hex (chars p)) parts
  then Some (concat (map chars parts)) else None.

Definition _generated_uuid (value : json) (prefix : string) : bool :=
  match value with
  | JStr s =>
      starts_with prefix s &&
      match uuid_hex (remove_prefix prefix s) (uuid_groups prefix) with
      | Some h => bool_decide (h !! 12%nat = Some "4"%char)
                  && match h !! 16%nat with Some c => elem c ["8"; "9"; "a"; "b"]%char | None => false end
      | None => false
      end
  | _ => false
  end.

Definition page_ids : list string := ["page_id"; "mental_model_id"; "operation_id"].

(** A dictionary with exactly the keys of an acknowledgement. *)
Definition ack_keys (d : list (string * json)) : bool :=
  forallb (fun kv => elem kv.1 page_ids) d && forallb (fun k => bool_decide (is_Some (dict_get k d))) page_ids.

Definition dots (v : json) : json := match v with JStr s => JStr (of_chars (repeat "."%char (String.length s))) | _ => v end.

Definition facade_response_scan_input (route : option FacadeRoute) (value : json) : json :=
  match route, value with
  | Some r, JDict d =>
      if bool_decide (fr_method r = "POST"%string) && bool_decide (fr_template r = "knowledge-base/pages"%string) && ack_keys d
         && _generated_uuid (field_of d "page_id") "kp-" && _generated_uuid (field_of d "mental_model_id") "mm-"
         && (is_null (field_of d "operation_id") || _generated_uuid (field_of d "operation_id") "")
      then JDict (fold_left (fun acc k => if is_null (field_of d k) then acc else dict_set k (dots (field_of d k)) acc) page_ids d)
      else value
  | _, _ => value
  end.

Definition validate_facade_response (value : json) (response : ResponseMode) (allow_empty : bool) : result unit :=
  let expected := match value, response with JDict _, RespObject | JList _, RespArray => true | _, _ => false end in
  ensure ((allow_empty && is_null value) || expected) (EValueError "facade response must be a JSON value of its kind").

(** The models of the strict contracts. *)
Definition has_field (d : list (string * json)) (key : string) (p : json -> bool) : bool :=
  match dict_get key d with Some v => p v | None => false end.
Definition is_dict (v : json) : bool := match v with JDict _ => true | _ => false end.
Definition model := list (string * json) -> bool.

Definition BankProfileResponse : model := fun d =>
  has_field d "bank_id" is_str && has_field d "name" is_str && has_field d "disposition" is_dict && has_field d "mission" is_str.
Definition BankConfigResponse : model := fun d =>
  has_field d "bank_id" is_str && has_field d "config" is_dict && has_field d "overrides" is_dict.
Definition MentalModelResponse : model := fun d => has_field d "id" is_str && has_field d "bank_id" is_str && has_field d "name" is_str.
Definition MentalModelListResponse : model := fun d =>
  has_field d "items" (fun v => match v with
                                | JList l => forallb (fun x => match x with JDict m => MentalModelResponse m | _ => false end) l
                                | _ => false
                                end).
Definition CreateMentalModelResponse : model := fun d =>
  has_field d "operation_id" is_str && optional d "mental_model_id" is_str.
Definition ReflectResponse : model := fun d => has_field d "text" is_str.

Definition _response_model (method resource : string) (mental_model_id : option string) : option model :=
  let other := dict_get (method, resource)
    [(("PUT", ""), BankProfileResponse); (("PATCH", "config"), BankConfigResponse); (("POST", "reflect"), ReflectResponse)]%string in
  if bool_decide (resource = "mental-models"%string) then
    match mental_model_id with
    | Some _ => if elem method ["GET"; "PATCH"]%string then Some MentalModelResponse else other
    | None => dict_get method [("GET", MentalModelListResponse); ("POST", CreateMentalModelResponse)]%string
    end
  else other.

Definition validate_openclaw_response (method resource : string) (mental_model_id : option string) (value : json) : result unit :=
  if bool_decide (method = "DELETE"%string) && bool_decide (resource = "mental-models"%string) && bool_decide (is_Some mental_model_id)
  then ensure (is_null value || is_dict value) (EValueError "mental model delete response must be empty or an object")
  else match _response_model method resource mental_model_id with
       | None => Err (EValueError "unsupported OpenClaw response contract")
       | Some m => ensure (match value with JDict d => m d | _ => false end) (EValueError "invalid Hindsight OpenClaw response")
       end.

(** ** Paths *)

(** [text.replace(old, new)], [old] not empty: the characters of a match are skipped. *)
Fixpoint replace_from (old new : list ascii) (skip : nat) (l : list ascii) : list ascii :=
  match l with
  | [] => []
  | c :: l' =>
      match skip with
      | S k => replace_from old new k l'
      | O => if bool_decide (take (length old) l = old) then new ++ replace_from old new (length old - 1) l'
             else c :: replace_from old new 0 l'
      end
  end.
Definition str_replace (old new s : string) : string := of_chars (replace_from (chars old) (chars new) 0 (chars s)).

Definition facade_suffix (route : FacadeRoute) (params : list (string * string)) : string :=
  fold_left (fun suffix name => str_replace ("{" +:+ name +:+ "}") (quote (default "" (dict_get name params))) suffix)
    (fr_params route) (fr_template route).

Definition _facade_path (route : FacadeRoute) (bank_id : string) (params query : list (string * string)) : string :=
  let suffix := facade_suffix route params in
  (bank_path bank_id
   +:+ (if bool_decide (suffix = "") then "" else "/" +:+ suffix)
   +:+ (if bool_decide (query = []) then "" else "?" +:+ urlencode query))%string.

Definition _validate_required_query (route : FacadeRoute) (query : list (string * string)) : result unit :=
  match List.filter (fun name => negb (elem name (map fst query))) (fr_required_query_params route) with
  | [] => Ok ()
  | name :: _ => Err (raise_http 400 "invalid_request" ("missing required query parameter: " +:+ name)%string)
  end.

(** ** The facade *)

Definition scan_unavailable (operation message : string) : exn :=
  EHttp (mkHttpError 503 (operation +:+ "_unavailable")%string message [("Retry-After", "1")]).

Section facade.
Context `{Rfc8785, PyRepr} {W : Type} (sv : Services W) (config : HindsightLimitConfig) (writers : list (string * WriterRule)).

(** [_audit]: no failure of the audit is passed on, except a cancellation. *)
Definition _audit (writer_id reason : string) (value : json) (scan : option SafetyResult) (source : string) (bank_id : option string)
    : eff W unit :=
  let digest := match canonical_json value with Ok text => sha256_hex text | Err _ => sha256_hex "<class 'dict'>" end in
  let found := match scan with Some s => map public (findings s) | None => [] end in
  except_Exception
    (_ ← quarantine_security_event sv (fun now =>
       security_event now reason (Some writer_id) bank_id source (reason +:+ ":" +:+ writer_id +:+ ":" +:+ digest)%string
         (JDict [("action", JStr reason); ("content_sha256", JStr digest); ("findings", JList found)]));
     mret ())
    (fun _ => mret ()).

Definition _target_bank (route : FacadeRoute) (writer_id : string) (override : option string) (source : string) : eff W string :=
  match override with
  | Some bank => mret bank
  | None =>
      match dict_get writer_id writers with
      | Some writer => mret (wr_write_bank writer)
      | None =>
          _ ← _audit writer_id "openclaw_unknown_writer"
                (JDict [("method", JStr (fr_method route)); ("resource", JStr (fr_resource route))]) None source None;
          raise (raise_http 404 "unknown_writer" "writer is not registered")
      end
  end.

Definition _validate_request_bounds (route : FacadeRoute) (body : option (list (string * json))) : result unit :=
  match body with
  | None => Ok ()
  | Some b =>
      _ ← (if bool_decide (fr_resource route = "reflect"%string) then assert_recall_bounds config (JDict b) else Ok ());
      if negb (bool_decide (fr_template route = "memories/dry-run-extract"%string)) then Ok ()
      else match dict_get "items" b with
           | Some (JList _) => assert_retain_bounds config (JDict b)
           | _ => Err (raise_http 400 "invalid_request" "items must be an array")
           end
  end.

(** [request_evidence]; the route's parameters are in [params]. *)
Definition request_evidence (route : FacadeRoute) (writer_id : string) (params query : list (string * string))
    (body : option (list (string * json))) : list (string * json) :=
  let base := [("bank_id", JStr writer_id); ("resource", JStr (fr_resource route));
               ("query", JList (map (fun kv => JDict [("key", JStr kv.1); ("value", JStr kv.2)]) query))] in
  let named := fold_left (fun acc name => dict_set name (JStr (default ""%string (dict_get name params))) acc) (fr_params route) base in
  match body with Some b => dict_set "body" (JDict b) named | None => named end.

Definition scanned_evidence (evidence : list (string * json)) : list (string * json) :=
  List.filter (fun kv => negb (elem kv.1 ["resource"; "query"]%string)) evidence.

Definition scan_operation (route : FacadeRoute) : string :=
  match fr_request_scan route with ScanRecall => "recall" | ScanRetain => "retain" end.

Definition _validate_safe_request (route : FacadeRoute) (writer_id source : string) (evidence : list (string * json))
    (query : list (string * string)) (bank_id : option string) : eff W unit :=
  scan ← sv_scan_request sv (scanned_evidence evidence) (scan_operation route) (Some query);
  if safe scan then mret ()
  else
    _ ← _audit writer_id "openclaw_suspicious_request" (JDict evidence) (Some scan) source bank_id;
    raise (raise_http 422 "suspicious_content" "request blocked by memory-router policy").

Definition validate_safe_response (resource writer_id source : string) (value : json) (bank_id : option string)
    (route : option FacadeRoute) : eff W unit :=
  let separate_page_ids := match route with
                           | Some r => bool_decide (fr_method r = "POST"%string) && bool_decide (fr_template r = "knowledge-base/pages"%string)
                           | None => false
                           end in
  response_scan ← sv_scan_facade_response sv value separate_page_ids false false;
  if _only_scan_limit_findings response_scan
  then raise (scan_unavailable "facade_scan" "response exceeded safety scan limits")
  else if safe response_scan then mret ()
  else
    _ ← _audit writer_id "openclaw_suspicious_provider_response" (JDict [("resource", JStr resource); ("response", value)])
          (Some response_scan) source bank_id;
    raise (raise_http 502 "hindsight_unsafe_response" "upstream memory service returned unsafe content").

Definition facade_error (kind : gateway_kind) (route : FacadeRoute) (write_uncertain : bool) : exn :=
  EGateway (hindsight_gateway_error kind None (Some ("openclaw_" +:+ fr_operation route)%string) (Some (fr_method route)) None None
    write_uncertain).

(** The scan of a response, and what a scanner failure after a write becomes. *)
Definition check_response (route : FacadeRoute) (writer_id source : string) (value : json) (bank_id : option string) : eff W unit :=
  if is_null value then mret ()
  else try_except (validate_safe_response (fr_resource route) writer_id source value bank_id (Some route)) (fun e =>
    match as_http e with
    | Some h => if fr_read route || negb (bool_decide (err_code h = "facade_scan_unavailable"%string)) then raise e
                else raise (facade_error KResponseScanUnavailable route true)
    | None => raise e
    end).

Definition check_contract (route : FacadeRoute) (params : list (string * string)) (value : json) : result unit :=
  match (if fr_strict_contract route
         then validate_openclaw_response (fr_method route) (fr_resource route) (dict_get "mental_model_id" params) value
         else validate_facade_response value (fr_response route) (fr_allow_empty_response route)) with
  | Err (EValueError _) => Err (facade_error KInvalidResponse route false)
  | r => r
  end.

Definition forward (route : FacadeRoute) (writer_id : string) (params : list (string * string)) (body : option (list (string * json)))
    (query : list (string * string)) (bank_override : option string) (source : string) : eff W json :=
  target_bank ← _target_bank route writer_id bank_override source;
  let forwarded_query := List.filter (fun kv => elem kv.1 (fr_query_params route)) query in
  _ ← lift (_validate_required_query route forwarded_query);
  let evidence := request_evidence route writer_id params forwarded_query body in
  _ ← lift (_validate_request_bounds route body);
  _ ← (if fr_read route then sv_consume_recall sv writer_id else sv_consume_retain sv writer_id);
  _ ← _validate_safe_request route writer_id source evidence forwarded_query bank_override;
  value ← sv_openclaw_request sv ("openclaw_" +:+ fr_operation route)%string (fr_method route)
            (_facade_path route target_bank params forwarded_query) (JDict <$> body) (fr_success_status route)
            (fr_allow_empty_response route);
  _ ← check_response route writer_id source value bank_override;
  _ ← lift (check_contract route params value);
  mret value.
End facade.
