(* ===== verification/OpenClawProps.v ===== *)
(** * The OpenClaw facade: theorems

    On [OpenClaw.v]: the path of a forwarded request names exactly its bank and
    parameters, and a request is forwarded once, after its checks. *)

From Stdlib Require Import ZArith Lia Ascii.
From stdpp Require Import base sets strings numbers list.
From S2P Require Import Prelude Errors Text Sha256 Json FacadeRoutes Envelope EnvelopeProps Validation Limits QuarantineStore Paths Hindsight HindsightProps Policy PolicyFlow OpenClaw.

Local Open Scope Z_scope.

(** ** Paths *)

Lemma quote_no_char c s : always_safe c = false -> c <> "%"%char -> no_char c (quote s).
Proof.
  intros Hs Hp d Hd ->. unfold quote in Hd. rewrite chars_of_chars in Hd. apply quoted_chars in Hd as [_ [Hd|Hd]]; congruence.
Qed.

(** A template with holes where a text is replaced. *)
Fixpoint holes (old : list ascii) (skip : nat) (l : list ascii) : list (option ascii) :=
  match l with
  | [] => []
  | c :: l' =>
      match skip with
      | S k => holes old k l'
      | O => if bool_decide (take (length old) l = old) then None :: holes old (length old - 1) l' else Some c :: holes old 0 l'
      end
  end.

Definition fill_hole (new : list ascii) (o : option ascii) : list ascii := match o with Some c => [c] | None => new end.

Lemma replace_holes old new l : forall skip, replace_from old new skip l = concat (map (fill_hole new) (holes old skip l)).
Proof.
  induction l as [|c l IH]; intros skip; [done|]. cbn [replace_from holes]. destruct skip as [|k]; [|apply IH].
  case_bool_decide; simpl; by rewrite IH.
Qed.

(** The holes of a pattern. *)
Fixpoint pattern_holes (p : list segment) : list (option ascii) :=
  let seg s := match s with SLit t => map Some (chars t) | SParam _ => [None] end in
  match p with
  | [] => []
  | [s] => seg s
  | s :: rest => seg s ++ Some "/"%char :: pattern_holes rest
  end.

(** The segments of a pattern with one value in its holes. *)
Definition fill_one (value : string) (p : list segment) : list string := map (fun s => match s with SLit t => t | SParam _ => value end) p.

Lemma pattern_holes_join value p : concat (map (fill_hole (chars value)) (pattern_holes p)) = chars (str_join "/" (fill_one value p)).
Proof.
  assert (Hseg : forall s, concat (map (fill_hole (chars value)) (match s with SLit t => map Some (chars t) | SParam _ => [None] end)) =
    chars (match s with SLit t => t | SParam _ => value end)).
  { intros [t|n]; simpl; [|apply app_nil_r]. induction (chars t) as [|c l IH]; [done|]. simpl. by rewrite IH. }
  induction p as [|s p IH]; [done|]. destruct p as [|s' p]; [apply Hseg|].
  change (pattern_holes (s :: s' :: p)) with
    ((match s with SLit t => map Some (chars t) | SParam _ => [None] end) ++ Some "/"%char :: pattern_holes (s' :: p)).
  change (str_join "/" (fill_one value (s :: s' :: p))) with
    ((match s with SLit t => t | SParam _ => value end) +:+ "/" +:+ str_join "/" (fill_one value (s' :: p)))%string.
  rewrite !chars_app, <- IH, map_app, concat_app, Hseg. done.
Qed.

(** Every template is its pattern, with at most one parameter. *)
Definition template_fits (r : FacadeRoute) : bool :=
  match fr_params r with
  | [] => forallb (fun s => match s with SLit _ => true | SParam _ => false end) (fr_pattern r)
          && bool_decide (fr_template r = str_join "/" (fill_one "" (fr_pattern r)))
  | [n] => bool_decide (holes (chars ("{" +:+ n +:+ "}")) 0 (chars (fr_template r)) = pattern_holes (fr_pattern r))
           && bool_decide (omap (fun s => match s with SParam n => Some n | SLit _ => None end) (fr_pattern r) = [n])
  | _ => false
  end.

Lemma templates_fit : forallb template_fits FACADE_ROUTES = true.
Proof. vm_compute. reflexivity. Qed.

(** The literals of the table are not encoded text. *)
Definition plain_literal (t : string) : bool :=
  negb (has_char "%" t) && negb (has_char "?" t) && negb (has_char "/" t) && negb (bool_decide (t = "")).

Lemma literals_plain : forallb (fun r => forallb (fun s => match s with SLit t => plain_literal t | SParam _ => true end) (fr_pattern r))
  FACADE_ROUTES = true.
Proof. vm_compute. reflexivity. Qed.

Lemma fill_literals p vs value : omap (fun s => match s with SParam n => Some n | SLit _ => None end) p = [] ->
  fill p vs = fill_one value p.
Proof. induction p as [|[t|n] p IH]; [done| |done]. simpl. intros Hp. by rewrite IH. Qed.

Lemma suffix_join r values : r ∈ FACADE_ROUTES -> length values = length (fr_params r) ->
  facade_suffix r (zip (fr_params r) values) = str_join "/" (fill_one (quote (default "" (head values))) (fr_pattern r)) /\
  fill (fr_pattern r) values = fill_one (default "" (head values)) (fr_pattern r).
Proof.
  intros Hr Hl. pose proof templates_fit as Ht. rewrite forallb_forall in Ht. specialize (Ht r (proj1 (list_elem_of_In _ _) Hr)).
  unfold template_fits in Ht. unfold facade_suffix. destruct (fr_params r) as [|n [|]]; [| |done].
  - destruct values; [|done]. apply andb_true_iff in Ht as [Hlit Ht]. apply bool_decide_eq_true in Ht. split; [exact Ht|].
    apply fill_literals. clear Ht. induction (fr_pattern r) as [|[t|] p IH]; [done| |done]. by apply IH.
  - destruct values as [|v [|]]; try done. apply andb_true_iff in Ht as [Ht Hp]. apply bool_decide_eq_true in Ht, Hp. split.
    + assert (Hg : dict_get n (zip [n] [v]) = Some v) by (simpl; by rewrite decide_True).
      cbn [fold_left]. rewrite Hg. cbn [default id head]. unfold str_replace. rewrite replace_holes, Ht, pattern_holes_join. apply of_chars_chars.
    + clear Ht. cbn [head default id]. induction (fr_pattern r) as [|[t|m] p IH]; [done| |]; simpl in *; f_equal; [by apply IH|].
      injection Hp as _ Hp. by apply fill_literals.
Qed.

(** The encoded segments of a route are plain, and decode to the segments. *)
Lemma segments_encoded r value : r ∈ FACADE_ROUTES ->
  Forall (fun t => no_char "/" t /\ no_char "?" t) (fill_one (quote value) (fr_pattern r)) /\
  (utf8_valid value = true -> map unquote (fill_one (quote value) (fr_pattern r)) = map Some (fill_one value (fr_pattern r))).
Proof.
  intros Hr. pose proof literals_plain as Hl. rewrite forallb_forall in Hl. specialize (Hl r (proj1 (list_elem_of_In _ _) Hr)).
  rewrite forallb_forall in Hl.
  assert (Hplain : forall t, SLit t ∈ fr_pattern r -> no_char "/" t /\ no_char "?" t /\ unquote t = Some t).
  { intros t Hin. specialize (Hl (SLit t) (proj1 (list_elem_of_In _ _) Hin)). cbn in Hl. unfold plain_literal in Hl. split_bool.
    split_and!; [intros c Hc ->; by apply (proj1 (has_char_false _ _) H1 "/"%char)|
                 intros c Hc ->; by apply (proj1 (has_char_false _ _) H2 "?"%char)|].
    unfold unquote. by rewrite H. }
  clear Hl. split.
  - apply List.Forall_forall. intros t Ht. apply List.in_map_iff in Ht as ([u|n] & <- & Hin).
    + destruct (Hplain u) as (H1 & H2 & _); [by apply list_elem_of_In|done].
    + split; by apply quote_no_char.
  - intros Hu. unfold fill_one. rewrite !List.map_map. apply List.map_ext_in. intros [u|n] Hin.
    + destruct (Hplain u) as (_ & _ & ->); [by apply list_elem_of_In|done].
    + by apply unquote_quote.
Qed.

Lemma no_char_app c a b : no_char c a -> no_char c b -> no_char c (a +:+ b).
Proof. intros Ha Hb d. rewrite chars_app. intros [Hd|Hd]%elem_of_app; [by apply Ha|by apply Hb]. Qed.

Lemma no_char_join c l : c <> "/"%char -> Forall (no_char c) l -> no_char c (str_join "/" l).
Proof.
  intros Hc Hl. induction Hl as [|x l Hx Hl IH]; [intros d Hd; by apply not_elem_of_nil in Hd|]. destruct l as [|y l]; [done|].
  change (str_join "/" (x :: y :: l)) with (x +:+ ("/" +:+ str_join "/" (y :: l)))%string.
  apply no_char_app; [done|]. apply no_char_app; [|done]. intros d Hd. apply list_elem_of_singleton in Hd as ->. done.
Qed.

Lemma path_join_cons x l : l <> [] -> str_join "/" (x :: l) = (x +:+ ("/" +:+ str_join "/" l))%string.
Proof. by destruct l. Qed.

(** A template that is not empty begins with a literal. *)
Lemma first_literal : forallb (fun r => match fr_pattern r with SParam _ :: _ => false | _ => true end) FACADE_ROUTES = true.
Proof. vm_compute. reflexivity. Qed.

Lemma suffix_empty r value : r ∈ FACADE_ROUTES -> str_join "/" (fill_one value (fr_pattern r)) = ""%string -> fr_pattern r = [].
Proof.
  intros Hr. pose proof literals_plain as Hl. rewrite forallb_forall in Hl. specialize (Hl r (proj1 (list_elem_of_In _ _) Hr)).
  pose proof first_literal as Hf. rewrite forallb_forall in Hf. specialize (Hf r (proj1 (list_elem_of_In _ _) Hr)).
  destruct (fr_pattern r) as [|[t|n] p]; [done| |done]. simpl in Hl. apply andb_true_iff in Hl as [Ht _]. unfold plain_literal in Ht.
  apply andb_true_iff in Ht as [_ Ht]. apply negb_true_iff, bool_decide_eq_false in Ht. intros E. exfalso. apply Ht.
  simpl in E. destruct (fill_one value p); [done|]. by destruct t.
Qed.

Lemma facade_path_join r bank values query : r ∈ FACADE_ROUTES -> length values = length (fr_params r) ->
  _facade_path r bank (zip (fr_params r) values) query =
  (str_join "/" ("" :: "v1" :: "default" :: "banks" :: quote bank :: fill_one (quote (default "" (head values))) (fr_pattern r))
   +:+ (if bool_decide (query = []) then "" else "?" +:+ urlencode query))%string.
Proof.
  intros Hr Hl. unfold _facade_path. rewrite (proj1 (suffix_join r values Hr Hl)). set (v := quote (default "" (head values))).
  rewrite !path_join_cons by done. unfold bank_path. case_bool_decide as Hnil.
  - rewrite (suffix_empty r v Hr Hnil). apply chars_inj. rewrite !chars_app. simpl. done.
  - rewrite (path_join_cons (quote bank)) by (intros En; apply Hnil; by rewrite En). apply chars_inj. rewrite !chars_app.
    change (chars "/") with ["/"%char]. simpl. by rewrite <- ?app_assoc.
Qed.

(** A forwarded path means what it was built from. For every route of the
    table, the path before the query has exactly the segments of the route: with
    each decoded, they are the prefix of the service's API, the bank and the
    template with its parameters filled in, whatever text the bank and the
    parameters are, slashes and question marks included. *)
Lemma facade_path_faithful r bank values query :
  r ∈ FACADE_ROUTES -> length values = length (fr_params r) -> utf8_valid bank = true -> Forall (fun v => utf8_valid v = true) values ->
  exists path rest, _facade_path r bank (zip (fr_params r) values) query = (path +:+ rest)%string /\
    no_char "?" path /\ (rest = ""%string \/ starts_with "?" rest = true) /\ (query = [] -> rest = ""%string) /\
    map unquote (str_split "/" path) = map Some ("" :: "v1" :: "default" :: "banks" :: bank :: fill (fr_pattern r) values)%string.
Proof.
  intros Hr Hl Hb Hv. rewrite (facade_path_join r bank values query Hr Hl). set (value := default "" (head values)).
  assert (Hval : utf8_valid value = true) by (destruct Hv; done).
  destruct (segments_encoded r value Hr) as [Hplain Hdec]. specialize (Hdec Hval).
  assert (Hall : forall c, c = "/"%char \/ c = "?"%char ->
    Forall (no_char c) ("" :: "v1" :: "default" :: "banks" :: quote bank :: fill_one (quote value) (fr_pattern r))%string).
  { intros c Hc. do 4 (apply List.Forall_cons; [destruct Hc as [->| ->]; apply (bool_decide_unpack _); vm_compute; exact Logic.I|]).
    apply List.Forall_cons; [destruct Hc as [->| ->]; by apply quote_no_char|].
    eapply List.Forall_impl; [|exact Hplain]. intros t [H1 H2]. by destruct Hc as [->| ->]. }
  eexists _, _. split; [reflexivity|]. split; [apply no_char_join; [done|apply Hall; by right]|].
  split; [case_bool_decide; [by left|right; apply (starts_with_app "?")]|]. split; [intros ->; done|].
  rewrite (str_split_join "/") by (done || (apply Hall; by left)). cbn [map]. rewrite Hdec, (unquote_quote bank Hb), (proj2 (suffix_join r values Hr Hl)).
  reflexivity.
Qed.

(** ** Forwarding *)

Section forwarding.
Context `{Rfc8785, PyRepr} {W : Type} (sv : Services W) (config : HindsightLimitConfig) (writers : list (string * WriterRule)).

Definition forwarded (route : FacadeRoute) (query : list (string * string)) : list (string * string) :=
  List.filter (fun kv => elem kv.1 (fr_query_params route)) query.

(** The bank of a request and the state in which it passed its checks. *)
Definition forward_ready (route : FacadeRoute) (writer_id : string) (params : list (string * string)) (body : option (list (string * json)))
    (query : list (string * string)) (bank_override : option string) (w : W) : option (string * W) :=
  match match bank_override with Some b => Some b | None => wr_write_bank <$> dict_get writer_id writers end with
  | None => None
  | Some bank =>
      if is_ok (_validate_required_query route (forwarded route query)) && is_ok (_validate_request_bounds config route body) then
        match (if fr_read route then sv_consume_recall sv writer_id else sv_consume_retain sv writer_id) w with
        | (Ok _, w1) =>
            match sv_scan_request sv (scanned_evidence (request_evidence route writer_id params (forwarded route query) body))
                    (scan_operation route) (Some (forwarded route query)) w1 with
            | (Ok r, w2) => if safe r then Some (bank, w2) else None
            | _ => None
            end
        | _ => None
        end
      else None
  end.

Lemma audit_log writer_id reason value scan source bank_id w log :
  exists r w', _audit (logged sv) writer_id reason value scan source bank_id (w, log) = (r, (w', log)).
Proof.
  unfold _audit, except_Exception, try_except, mbind, eff_bind.
  match goal with |- context [quarantine_security_event ?s ?v ?x] =>
    destruct (event_holds _ _ _ _ _ _ (logged_rules sv log) v x eq_refl) as [Hl _]; destruct (quarantine_security_event s v x) as [[a|e] [w' l']]
  end; unfold log_is in Hl; cbn [fst snd] in Hl; subst l'; [by exists (Ok ()), w'|]. destruct (is_cancelled e); [by exists (Err e), w'|by exists (Ok ()), w'].
Qed.

(** Whether the page identifiers of a response are scanned apart. *)
Definition page_route (route : FacadeRoute) : bool :=
  bool_decide (fr_method route = "POST"%string) && bool_decide (fr_template route = "knowledge-base/pages"%string).

Lemma only_limits_unsafe r : _only_scan_limit_findings r = true -> safe r = false.
Proof. unfold _only_scan_limit_findings, safe. by destruct (bool_decide _). Qed.

Lemma check_response_log route writer_id source value bank_id w log :
  let run := check_response (logged sv) route writer_id source value bank_id (w, log) in
  run.2.2 = log /\
  (is_ok run.1 = true -> value = JNull \/
     exists r w', sv_scan_facade_response sv value (page_route route) false false w = (Ok r, w') /\ safe r = true).
Proof.
  cbn zeta. unfold check_response. destruct (is_null value) eqn:En; [split; [done|]; left; by destruct value|].
  unfold try_except, validate_safe_response, mbind, eff_bind. cbn [logged sv_scan_facade_response]. unfold beside. cbn [fst snd].
  fold (page_route route). destruct (sv_scan_facade_response sv value (page_route route) false false w) as [[r|e] w'] eqn:Es; cbn [fst snd].
  - destruct (_only_scan_limit_findings r) eqn:El; [cbn; destruct (fr_read route || _); done|].
    destruct (safe r) eqn:Esafe; [split; [done|]; right; by exists r, w'|].
    match goal with |- context [_audit (logged sv) ?a ?b ?c ?d ?e ?f (w', log)] =>
      destruct (audit_log a b c d e f w' log) as ([u|x] & w2 & ->) end; [cbn; destruct (fr_read route || _); done|].
    destruct (as_http x) as [h|]; [|done]. destruct (fr_read route || _); done.
  - destruct (as_http e) as [h|]; [|done]. destruct (fr_read route || _); done.
Qed.
End forwarding.

(** C24: a facade request is forwarded once, and only after its checks. When the
    target bank is known (the granted bank of a principal, or the bank of the
    registered writer), required parameters are present, the bounds and the
    charge pass and the scan of body, parameters and query is safe, the service
    is asked exactly once, with the route's method, the path of the bank and
    only the query parameters of the route; what is returned is the service's
    answer, which passed its scan and its contract. Otherwise nothing is sent
    and the request fails. *)
Theorem forward_asks_once `{Rfc8785, PyRepr} {W} (sv : Services W) config writers route writer_id params body query bank_override source w log :
  let run := forward (logged sv) config writers route writer_id params body query bank_override source (w, log) in
  match forward_ready sv config writers route writer_id params body query bank_override w with
  | Some (bank, w1) =>
      let path := _facade_path route bank params (forwarded route query) in
      run.2.2 = log ++ [AskFacade (fr_method route) path (JDict <$> body)] /\
      forall v, run.1 = Ok v -> exists w2,
        sv_openclaw_request sv ("openclaw_" +:+ fr_operation route) (fr_method route) path (JDict <$> body) (fr_success_status route)
          (fr_allow_empty_response route) w1 = (Ok v, w2) /\
        is_ok (check_contract route params v) = true /\
        (v = JNull \/ exists r w3, sv_scan_facade_response sv v (page_route route) false false w2 = (Ok r, w3) /\ safe r = true)
  | None => run.2.2 = log /\ is_ok run.1 = false
  end.
Proof.
  cbn zeta. destruct (forward (logged sv) config writers route writer_id params body query bank_override source (w, log)) as [res s'] eqn:Hrun.
  cbn [fst snd]. unfold forward in Hrun. fold (forwarded route query) in Hrun. cbn zeta in Hrun. unfold forward_ready, _target_bank in *.
  destruct (match bank_override with Some b => Some b | None => _ end) as [bank|] eqn:Eb.
  2: { destruct bank_override; [done|]. destruct (dict_get writer_id writers); [done|]. unfold mbind, eff_bind in Hrun.
       match type of Hrun with context [_audit (logged sv) ?a ?b ?c ?d ?e ?f (w, log)] =>
         destruct (audit_log sv a b c d e f w log) as ([u|x] & w2 & E); rewrite E in Hrun end; by injection Hrun as <- <-. }
  assert (Hbank : (match bank_override with
    | Some b => mret b
    | None => match dict_get writer_id writers with
              | Some wr => mret (wr_write_bank wr)
              | None => _ ← _audit (logged sv) writer_id "openclaw_unknown_writer" (JDict [("method", JStr (fr_method route)); ("resource", JStr (fr_resource route))]) None source None;
                        raise (raise_http 404 "unknown_writer" "writer is not registered")
              end
    end : eff (W * list asked) string) (w, log) = (Ok bank, (w, log))).
  { destruct bank_override; [by injection Eb as ->|]. destruct (dict_get writer_id writers); [|done]. by injection Eb as <-. }
  rewrite (bind_ok _ _ _ _ _ Hbank) in Hrun. clear Hbank Eb.
  destruct (_validate_required_query route (forwarded route query)) as [[]|e]; [|by injection Hrun as <- <-].
  destruct (_validate_request_bounds config route body) as [[]|e]; [|by injection Hrun as <- <-]. cbn [is_ok andb].
  assert (Hcharge : forall s, (if fr_read route then sv_consume_recall (logged sv) writer_id else sv_consume_retain (logged sv) writer_id) s =
    beside (if fr_read route then sv_consume_recall sv writer_id else sv_consume_retain sv writer_id) s) by (intros s; by destruct (fr_read route)).
  unfold mbind at 1, eff_bind at 1, lift at 1 in Hrun. unfold mbind at 1, eff_bind at 1, lift at 1 in Hrun.
  unfold mbind at 1, eff_bind at 1 in Hrun. rewrite Hcharge in Hrun. unfold beside in Hrun. cbn [fst snd] in Hrun. clear Hcharge.
  destruct ((if fr_read route then sv_consume_recall sv writer_id else sv_consume_retain sv writer_id) w) as [[u|e] w1];
    [|by injection Hrun as <- <-].
  unfold mbind at 1, eff_bind at 1, _validate_safe_request in Hrun. unfold mbind at 1, eff_bind at 1 in Hrun.
  cbn [logged sv_scan_request] in Hrun. unfold beside at 1 in Hrun. cbn [fst snd] in Hrun.
  destruct (sv_scan_request sv _ _ _ w1) as [[r|e] w2]; [|by injection Hrun as <- <-].
  destruct (safe r).
  2: { unfold mbind at 1, eff_bind at 1 in Hrun.
       match type of Hrun with context [_audit ?l ?a ?b ?c ?d ?e ?f (w2, log)] =>
         destruct (audit_log sv a b c d e f w2 log) as ([u'|x] & w3 & E); change l with (logged sv) in Hrun; rewrite E in Hrun end;
       by injection Hrun as <- <-. }
  unfold mret at 1, eff_ret at 1 in Hrun. unfold mbind at 1, eff_bind at 1 in Hrun. cbn [logged sv_openclaw_request] in Hrun. unfold noting at 1 in Hrun.
  cbn [fst snd] in Hrun. destruct (sv_openclaw_request sv _ _ _ _ _ _ w2) as [[value|e] w3]; [|by injection Hrun as <- <-].
  pose proof (check_response_log sv route writer_id source value bank_override w3
    (log ++ [AskFacade (fr_method route) (_facade_path route bank params (forwarded route query)) (JDict <$> body)])) as [Hlog Hsafe].
  unfold mbind at 1, eff_bind at 1 in Hrun.
  destruct (check_response _ _ _ _ _ _ _) as [[[]|e] [w4 l4]]; cbn [fst snd] in *; subst l4; [|by injection Hrun as <- <-].
  unfold mbind, eff_bind, lift in Hrun. destruct (check_contract route params value) as [[]|e] eqn:Ec; injection Hrun as <- <-; [|done].
  split; [done|]. intros v [= <-]. exists w3. rewrite Ec. split_and!; try done. by apply Hsafe.
Qed.

(** ** Witnesses *)

Module Example_facade.
Definition history : FacadeRoute := Eval vm_compute in default (mkFacadeRoute "" "" true ScanRecall BodyNone true 0 "" "" "" [] [] [] RespObject true [])
  (facade_route "GET" "memories/{memory_id}/history").

(** A service whose memory has a history, and a scanner that finds nothing. *)
Definition sv : Services unit :=
  mkServices unit (fun _ => mret ()) (fun _ => mret ()) (fun _ _ _ => mret (mkSafetyResult [] []))
    (fun _ _ _ _ => mret (mkSafetyResult [] [])) (fun _ _ _ => mret (mkSafetyResult [] [])) (fun _ _ => mret [])
    (fun _ _ => mret (mkRecallResponse [] [])) (fun _ _ _ _ _ _ => mret (JList [])) (fun _ _ => mret None) (fun _ => mret [])
    (fun _ => raise (EOther "unused")) (mret "2024-01-01T00:00:00.000Z"%string).
End Example_facade.
Import Example_envelope Example_flow Example_facade.

Lemma history_route : history ∈ FACADE_ROUTES.
Proof.
  assert (Hf : facade_route "GET" "memories/{memory_id}/history" = Some history) by (vm_compute; reflexivity).
  apply List.find_some in Hf as [Hin _]. by apply list_elem_of_In.
Qed.

Lemma facade_path_faithful_witness :
  exists path rest, _facade_path history "my/bank" [("memory_id", "a?b")] [("limit", "1")] = (path +:+ rest)%string /\
    map unquote (str_split "/" path) = map Some ["" ; "v1"; "default"; "banks"; "my/bank"; "memories"; "a?b"; "history"]%string.
Proof.
  destruct (facade_path_faithful history "my/bank" ["a?b"%string] [("limit", "1")]%string history_route eq_refl eq_refl)
    as (path & rest & Hp & _ & _ & _ & Hs); [by repeat constructor|]. exists path, rest. split; [exact Hp|exact Hs].
Defined.

Lemma forward_asks_once_witness :
  (forward (logged Example_facade.sv) default_limit_config [("alice", mkWriterRule "chat" "team" ["team"])]
     history "alice" [("memory_id", "m1")] None [("x", "1")] None "openclaw" ((), [])).2.2 =
  [AskFacade "GET" "/v1/default/banks/team/memories/m1/history" None].
Proof.
  exact (proj1 (forward_asks_once Example_facade.sv default_limit_config [("alice", mkWriterRule "chat" "team" ["team"])]%string
     history "alice" [("memory_id", "m1")]%string None [("x", "1")]%string None "openclaw" () [])).
Defined.
