(* ===== verification/Dispatch.v ===== *)
(** * Dispatching authenticated requests

    Models [memory_router/request_dispatch.py]: the order in which an
    authenticated request is matched (bank list, memories, facade, denied), what
    it must be granted, how its body is read and bounded, and what it runs. The
    dependencies of the dispatcher are the record [Dispatch_deps]; a request is
    its query pairs, and its body is what [dd_json_body] reads. [int] of a query
    value accepts ASCII digits with white space, a sign and underscores. The log
    of authorization decisions is not modelled. *)

From Stdlib Require Import ZArith Lia Ascii.
From stdpp Require Import base sets strings numbers list.
From S2P Require Import Prelude Errors Text Sha256 Json JsonParse FacadeRoutes Principals PrincipalGate Envelope EnvelopeProps Dedupe Validation Limits QuarantineStore QuarantineStoreProps Paths Hindsight Policy PolicyFlow OpenClaw OpenClawProps.

Local Open Scope Z_scope.

(** [EMPTY_BODY] or a parsed value. *)
Inductive raw_body := EMPTY_BODY | RawJson (value : json).

Record Dispatch_deps (W : Type) := mkDispatchDeps {
  dd_resolver : option PrincipalResolver;
  dd_hindsight_list_banks : option (list string -> option string -> Z -> Z -> eff W json);
  dd_json_body : bool -> option Z -> eff W raw_body;
  dd_principal_rate : PrincipalSession -> string -> eff W unit;
  dd_concurrency : PrincipalSession -> string -> eff W json -> eff W json
}.
Arguments dd_resolver {W}.
Arguments dd_hindsight_list_banks {W}.
Arguments dd_json_body {W}.
Arguments dd_principal_rate {W}.
Arguments dd_concurrency {W}.

Record response := mkResponse { rp_payload : json; rp_status : Z }.

Definition _require {A} (value : option A) (component : string) : result A :=
  match value with
  | Some v => Ok v
  | None => Err (ERuntimeError ("memory-router runtime " +:+ component +:+ " is not initialized")%string)
  end.

(** ** Integers of a query *)

Fixpoint digit_groups (l : list ascii) (after_digit : bool) : option (list ascii) :=
  match l with
  | [] => if after_digit then Some [] else None
  | c :: l' =>
      if is_digit c then ds ← digit_groups l' true; Some (c :: ds)
      else if is_char_code 95 c && after_digit then
        match l' with d :: _ => if is_digit d then digit_groups l' false else None | [] => None end
      else None
  end.

(** [int(text, 10)] of a text whose digits are ASCII. *)
Definition py_int (text : string) : option Z :=
  let number l := ds ← digit_groups l false; if Z.of_nat (length ds) <=? INT_MAX_STR_DIGITS then Some (digits_number ds) else None in
  match chars (strip text) with
  | c :: l =>
      if is_char_code 45 c then n ← number l; Some (- n)
      else if is_char_code 43 c then number l
      else number (c :: l)
  | [] => None
  end.

(** [query_params.get(name, default)] when the name is not repeated. *)
Definition query_get (query : list (string * string)) (name : string) : option string := dict_get name query.

Definition invalid_query (m : string) : exn := raise_http 400 "invalid_query" m.

Definition _bank_list_query (query : list (string * string)) : result (option string * Z * Z) :=
  let names := ["q"; "limit"; "offset"]%string in
  _ ← ensure (forallb (fun kv => elem kv.1 names) query) (invalid_query "unsupported bank-list query parameter");
  _ ← ensure (forallb (fun n => count_where (fun kv => bool_decide (kv.1 = n)) query <=? 1) names)
        (invalid_query "duplicate bank-list query parameter");
  match py_int (default "100"%string (query_get query "limit")), py_int (default "0"%string (query_get query "offset")) with
  | Some limit, Some offset =>
      _ ← ensure ((0 <=? limit) && (limit <=? 500) && (0 <=? offset)) (invalid_query "integer query parameter out of range");
      Ok (query_get query "q", limit, offset)
  | _, _ => Err (invalid_query "invalid integer query parameter")
  end.

(** ** The dispatcher *)

Section dispatcher.
Context `{Rfc8785, PyRepr, UnicodeData} {W : Type} (sv : Services W) (config : HindsightLimitConfig).
Context (writers : list (string * WriterRule)) (deps : Dispatch_deps W) (bool_of : string -> option bool).

Definition lack_of_grant : exn := raise_http 403 "authorization_denied" "principal lacks the required grant".

(** [principal.limits[operation].max_body_bytes] *)
Definition body_limit (principal : PrincipalSession) (scope : string) : result Z :=
  match dict_get (scope_limit_operation scope) (ps_limits principal) with
  | Some l => Ok (rl_max_body_bytes l)
  | None => Err (EOther "KeyError")
  end.

(** [require_grant] with the resolver of the dependencies. *)
Definition granted (principal : PrincipalSession) (scope bank : string) : eff W unit :=
  resolver ← lift (_require (dd_resolver deps) "principal resolver");
  require_grant resolver principal scope bank.

(** [_dispatch_bank_list] *)
Definition _dispatch_bank_list (query : list (string * string)) (pathname method : string) (principal : option PrincipalSession)
    : eff W (option response) :=
  match principal with
  | Some p =>
      if bool_decide (method = "GET"%string) && bool_decide (pathname = "/v1/default/banks"%string) then
        resolver ← lift (_require (dd_resolver deps) "principal resolver");
        _ ← dd_principal_rate deps p SCOPE_BANK_LIST;
        let banks := Principals.list_banks resolver p in
        if bool_decide (banks = []) then raise lack_of_grant
        else
          '(q, limit, offset) ← lift (_bank_list_query query);
          hindsight_list_banks ← lift (_require (dd_hindsight_list_banks deps) "hindsight gateway");
          payload ← dd_concurrency deps p SCOPE_BANK_LIST (
            payload ← hindsight_list_banks banks q limit offset;
            _ ← validate_safe_response sv "banks" (ps_principal_id p) (ps_source p) payload None None;
            mret payload);
          mret (Some (mkResponse payload 200))
      else mret None
  | None => mret None
  end.

(** A body as a JSON value: an absent one is the empty object. *)
Definition body_value (raw : raw_body) : json := match raw with EMPTY_BODY => JDict [] | RawJson v => v end.

Definition _dispatch_legacy_memory (writer_id : string) (recalls : bool) : eff W response :=
  raw ← dd_json_body deps false None;
  if recalls then
    body ← lift (parse_recall_body (body_value raw));
    _ ← lift (assert_recall_bounds config (JDict body));
    a ← Policy.recall sv writers writer_id body None;
    mret (mkResponse (answer_json a) 200)
  else
    body ← lift (parse_retain_body (body_value raw));
    _ ← lift (assert_retain_bounds config (JDict body));
    v ← Policy.retain sv writers writer_id body None;
    mret (mkResponse (JDict v) 200).

Definition _dispatch_memory (pathname method : string) (principal : option PrincipalSession) : eff W (option response) :=
  match bool_decide (method = "POST"%string), memory_route pathname with
  | true, Some (segment, recalls) =>
      writer_id ← lift (_decode_path_segment segment);
      match principal with
      | None => r ← _dispatch_legacy_memory writer_id recalls; mret (Some r)
      | Some p =>
          let scope := if recalls then SCOPE_MEMORY_RECALL else SCOPE_MEMORY_RETAIN in
          _ ← dd_principal_rate deps p scope;
          _ ← granted p scope writer_id;
          limit ← lift (body_limit p scope);
          raw ← dd_json_body deps false (Some limit);
          payload ←
            (if recalls then
               body ← lift (parse_recall_body (body_value raw));
               _ ← lift (assert_recall_bounds config (JDict body));
               dd_concurrency deps p scope (a ← recall_bank sv (ps_principal_id p) writer_id body (ps_source p); mret (answer_json a))
             else
               body ← lift (parse_retain_body (body_value raw));
               _ ← lift (assert_retain_bounds config (JDict body));
               dd_concurrency deps p scope (v ← retain_bank sv (ps_principal_id p) writer_id body (ps_source p); mret (JDict v)));
          mret (Some (mkResponse payload 200))
      end
  | _, _ => mret None
  end.

(** The segments of a path, decoded; the first error wins. *)
Definition decode_segments (pathname : string) : result (list string) := map_result _decode_path_segment (str_split "/" pathname).

Definition _match_facade (method pathname : string) : result (option (FacadeRoute * string * list string)) :=
  if negb (starts_with "/v1/default/banks/" pathname) then Ok (match_facade_route method pathname)
  else match decode_segments pathname with
       | Ok parts => Ok (match_facade_route method (str_join "/" parts))
       | Err e =>
           match as_http e with
           | Some h =>
               if bool_decide (err_code h = "invalid_path_segment"%string) then Err e
               else if bool_decide (is_Some (match_facade_route method pathname)) then Err e else Ok None
           | None => Err e
           end
       end.

Definition invalid_request (m : string) : exn := raise_http 400 "invalid_request" m.

Definition _facade_body (requirement : BodyMode) (label : string) (principal : option PrincipalSession) (scope : string)
    : eff W (option (list (string * json))) :=
  if bool_decide (requirement = BodyNone) then mret None
  else
    max_bytes ← match principal with Some p => l ← lift (body_limit p scope); mret (Some l) | None => mret None end;
    raw ← dd_json_body deps true max_bytes;
    match raw with
    | EMPTY_BODY =>
        if bool_decide (requirement = BodyRequired) then raise (invalid_request (label +:+ " body is required")%string) else mret None
    | RawJson JNull =>
        if bool_decide (requirement = BodyOptional) then mret None else raise (invalid_request (label +:+ " body must be an object")%string)
    | RawJson (JDict d) => mret (Some d)
    | RawJson _ => raise (invalid_request (label +:+ " body must be an object")%string)
    end.

Definition _dispatch_facade (query : list (string * string)) (pathname method : string) (principal : option PrincipalSession)
    : eff W (option response) :=
  matched ← lift (_match_facade method pathname);
  match matched with
  | None => mret None
  | Some (route, bank, values) =>
      scope ← lift (facade_scope bool_of route (match principal with Some _ => query | None => [] end));
      _ ← match principal with
          | Some p => _ ← dd_principal_rate deps p scope; granted p scope bank
          | None => mret ()
          end;
      raw ← _facade_body (fr_body route) (fr_body_label route) principal scope;
      body ← (match raw with
              | Some b => if bool_decide (fr_template route = "reflect"%string)
                          then b' ← lift (parse_reflect_body (JDict b)); mret (Some b') else mret (Some b)
              | None => mret None
              end);
      let params := zip (fr_params route) values in
      payload ← match principal with
                | Some p => dd_concurrency deps p scope
                              (forward sv config writers route (ps_principal_id p) params body query (Some bank) (ps_source p))
                | None => forward sv config writers route bank params body query None "openclaw"
                end;
      mret (Some (mkResponse payload (fr_success_status route)))
  end.

(** ** Denied requests *)

Definition _bank_path_segment (pathname : string) : option string :=
  match str_split "/" pathname with
  | ""%string :: "v1"%string :: "default"%string :: "banks"%string :: bank :: _ =>
      if bool_decide (bank = ""%string) then None else ok_value (_decode_path_segment bank)
  | _ => None
  end.

Definition _granted_denied_bank (pathname : string) (principal : PrincipalSession) : option string :=
  match _bank_path_segment pathname with
  | Some b => if existsb (fun g => bool_decide (pg_bank g = b)) (ps_grants principal) then Some b else None
  | None => None
  end.

Definition _known_denied_bank (pathname : string) : option (string * WriterRule) :=
  b ← _bank_path_segment pathname; w ← dict_get b writers; Some (b, w).

Definition _dispatch_denied (pathname method : string) (principal : option PrincipalSession) : eff W response :=
  denied ← match principal with
           | Some p =>
               _ ← dd_principal_rate deps p SCOPE_BANK_ADMIN;
               deny_endpoint sv method pathname (Some (ps_principal_id p)) (_granted_denied_bank pathname p)
           | None =>
               match _known_denied_bank pathname with
               | None => deny_endpoint sv method pathname None None
               | Some (b, w) => deny_endpoint sv method pathname (Some b) (Some (wr_write_bank w))
               end
           end;
  mret (mkResponse (JDict denied) 404).

(** [dispatch]: the first handler that answers. *)
Definition dispatch (query : list (string * string)) (pathname method : string) (principal : option PrincipalSession) : eff W response :=
  r1 ← _dispatch_bank_list query pathname method principal;
  match r1 with
  | Some r => mret r
  | None =>
      r2 ← _dispatch_memory pathname method principal;
      match r2 with
      | Some r => mret r
      | None =>
          r3 ← _dispatch_facade query pathname method principal;
          match r3 with
          | Some r => mret r
          | None => _dispatch_denied pathname method principal
          end
      end
  end.
End dispatcher.

(** ** Dispatching authenticated requests: theorems

    On [Dispatch.v]: the memory service is asked only what the principal of the
    request is granted. *)

(** What a principal may cause the memory service to be asked. *)
Definition permitted (resolver : PrincipalResolver) (p : PrincipalSession) (bool_of : string -> option bool)
    (query : list (string * string)) (x : asked) : Prop :=
  match x with
  | AskRetain bank _ => authorize resolver p SCOPE_MEMORY_RETAIN bank = true
  | AskRecall bank _ => authorize resolver p SCOPE_MEMORY_RECALL bank = true
  | AskBanks banks => forall b, b ∈ banks -> authorize resolver p SCOPE_BANK_LIST b = true
  | AskFacade method path _ => exists route bank params q scope, route ∈ FACADE_ROUTES /\ method = fr_method route /\
      facade_scope bool_of route query = Ok scope /\ authorize resolver p scope bank = true /\ path = _facade_path route bank params q
  end.

(** The services and dependencies write a log of what the service is asked, and
    limiting concurrency runs an operation at most once. *)
Record writes_log {W} (sv : Services W) (deps : Dispatch_deps W) (log : W -> list asked) : Prop := {
  wl_consume_retain i w : log (sv_consume_retain sv i w).2 = log w;
  wl_consume_recall i w : log (sv_consume_recall sv i w).2 = log w;
  wl_scan_request b o q w : log (sv_scan_request sv b o q w).2 = log w;
  wl_scan_facade v x y z w : log (sv_scan_facade_response sv v x y z w).2 = log w;
  wl_scan_recalled v st pos w : log (sv_scan_recalled sv v st pos w).2 = log w;
  wl_find ids w : log (sv_find_memory_review_states sv ids w).2 = log w;
  wl_put i w : log (sv_put sv i w).2 = log w;
  wl_now w : log (sv_iso_now sv w).2 = log w;
  wl_body e m w : log (dd_json_body deps e m w).2 = log w;
  wl_rate p s w : log (dd_principal_rate deps p s w).2 = log w;
  wl_retain b body w : log (sv_retain sv b body w).2 = log w ++ [AskRetain b body];
  wl_recall b body w : log (sv_recall sv b body w).2 = log w ++ [AskRecall b body];
  wl_facade o m path b s e w : log (sv_openclaw_request sv o m path b s e w).2 = log w ++ [AskFacade m path b];
  wl_banks f bs q l o w : dd_hindsight_list_banks deps = Some f -> log (f bs q l o w).2 = log w ++ [AskBanks bs];
  wl_concurrency p s m w : log (dd_concurrency deps p s m w).2 = log w \/
    exists w', log w' = log w /\ log (dd_concurrency deps p s m w).2 = log (m w').2
}.

Section authorized.
Context `{Rfc8785, PyRepr, UnicodeData} {W : Type} (sv : Services W) (config : HindsightLimitConfig).
Context (writers : list (string * WriterRule)) (deps : Dispatch_deps W) (bool_of : string -> option bool).
Context (log : W -> list asked) (laws : writes_log sv deps log).
Context (resolver : PrincipalResolver) (p : PrincipalSession) (query : list (string * string)) (old : list asked).
Context (resolved : dd_resolver deps = Some resolver).

Abbreviation ok x := (permitted resolver p bool_of query x).

(** Everything asked so far was asked before or is permitted. *)
Definition granted_log (w : W) : Prop := forall x, x ∈ log w -> x ∈ old \/ ok x.

Lemma silent_holds {A} (m : eff W A) : (forall w, log (m w).2 = log w) -> holds granted_log any any m.
Proof. intros Hm w Hw. split; [intros x; rewrite Hm; apply Hw|]. by destruct (m w).1. Qed.

Lemma ask_holds {A} x (m : eff W A) : ok x -> (forall w, log (m w).2 = log w ++ [x]) -> holds granted_log any any m.
Proof.
  intros Hx Hm w Hw. split; [|by destruct (m w).1]. intros y. rewrite Hm. intros [Hy|Hy]%elem_of_app; [by apply Hw|].
  apply list_elem_of_singleton in Hy as ->. by right.
Qed.

Lemma concurrency_holds scope (m : eff W json) : holds granted_log any any m -> holds granted_log any any (dd_concurrency deps p scope m).
Proof.
  intros Hm w Hw. split; [|by destruct (dd_concurrency deps p scope m w).1]. unfold granted_log.
  destruct (wl_concurrency _ _ _ laws p scope m w) as [->|(w' & Hl & ->)]; [done|]. apply (Hm w'). intros x. rewrite Hl. apply Hw.
Qed.

Lemma log_rules : flow_rules sv granted_log any (fun _ _ _ => True) (fun _ _ => True) (fun _ _ => True).
Proof.
  split; intros; [..|by right].
  - eapply holds_weaken; [apply silent_holds; intros w; apply (wl_scan_recalled _ _ _ laws)|done|done].
  - eapply holds_weaken; [apply silent_holds; intros w; apply (wl_find _ _ _ laws)|done|done].
  - eapply holds_weaken; [apply silent_holds; intros w; apply (wl_put _ _ _ laws)|by right|done].
  - apply silent_holds, (wl_now _ _ _ laws).
Qed.

Lemma event_silent values : holds granted_log any any (quarantine_security_event sv values).
Proof. eapply holds_weaken; [exact (event_holds _ _ _ _ _ _ log_rules values)|done|done]. Qed.

Lemma lift_any {A} (r : result A) : holds granted_log any any (lift r).
Proof. apply holds_lift. by destruct r. Qed.

Ltac step tac := apply (holds_bind _ _ any); [tac|intros ? _].
Ltac finish := first [by apply holds_ret | by apply holds_raise | apply lift_any].

(** *** The flows *)

Lemma recall_bank_holds bank body : ok (AskRecall bank body) -> holds granted_log any any (recall_bank sv (ps_principal_id p) bank body (ps_source p)).
Proof.
  intros Hok. eapply holds_weaken; [apply (recall_holds _ _ _ _ _ _ log_rules)|done|done].
  - apply silent_holds, (wl_consume_recall _ _ _ laws).
  - apply silent_holds, (wl_scan_request _ _ _ laws).
  - intros b Hb. apply list_elem_of_singleton in Hb as ->.
    eapply holds_weaken; [apply (ask_holds (AskRecall bank body) _ Hok), (wl_recall _ _ _ laws)| |].
    + by intros [].
    + intros resp _. by apply List.Forall_forall.
  - done.
Qed.

Lemma retain_bank_holds bank body :
  (forall b, ok (AskRetain bank b)) -> holds granted_log any any (retain_bank sv (ps_principal_id p) bank body (ps_source p)).
Proof.
  intros Hok. unfold retain_bank, _retain_to_bank. step ltac:(apply silent_holds, (wl_consume_retain _ _ _ laws)).
  step ltac:(apply silent_holds, (wl_scan_request _ _ _ laws)). destruct (negb (safe _)).
  - unfold _quarantine_retain. step finish. apply (holds_bind _ _ any); [apply event_silent|]. intros [q sha] _. finish.
  - step ltac:(eapply ask_holds; [apply Hok|apply (wl_retain _ _ _ laws)]).
    step ltac:(eapply holds_try; [apply silent_holds, (wl_scan_facade _ _ _ laws)|intros e _; destruct (bool_decide _); finish]).
    destruct (negb (safe _)); finish.
Qed.

Lemma audit_holds writer reason value scan source bank : holds granted_log any any (_audit sv writer reason value scan source bank).
Proof. eapply holds_try; [step ltac:(apply event_silent); finish|intros e _; destruct (is_cancelled e); finish]. Qed.

Lemma safe_response_holds resource writer source value bank route :
  holds granted_log any any (validate_safe_response sv resource writer source value bank route).
Proof.
  unfold validate_safe_response. step ltac:(apply silent_holds, (wl_scan_facade _ _ _ laws)).
  destruct (_only_scan_limit_findings _); [finish|]. destruct (safe _); [finish|]. step ltac:(apply audit_holds). finish.
Qed.

Lemma forward_holds route bank params body scope : route ∈ FACADE_ROUTES -> facade_scope bool_of route query = Ok scope ->
  authorize resolver p scope bank = true ->
  holds granted_log any any (forward sv config writers route (ps_principal_id p) params body query (Some bank) (ps_source p)).
Proof.
  intros Hr Hs Ha. unfold forward. apply (holds_bind _ _ (fun b => b = bank)); [by apply holds_ret|]. intros _ ->.
  step finish. step finish.
  step ltac:(destruct (fr_read route); apply silent_holds; [apply (wl_consume_recall _ _ _ laws)|apply (wl_consume_retain _ _ _ laws)]).
  step ltac:(unfold _validate_safe_request; step ltac:(apply silent_holds, (wl_scan_request _ _ _ laws));
    destruct (safe _); [finish|step ltac:(apply audit_holds); finish]).
  step ltac:(eapply ask_holds; [|apply (wl_facade _ _ _ laws)]; by eexists route, bank, _, _, scope).
  step ltac:(unfold check_response; destruct (is_null _); [finish|]; eapply holds_try; [apply safe_response_holds|]; intros e _;
    destruct (as_http e) as [h|]; [destruct (fr_read route || _)|]; finish).
  step finish. finish.
Qed.

Lemma deny_holds method path writer bank : holds granted_log any any (deny_endpoint sv method path writer bank).
Proof. unfold deny_endpoint. step finish. step ltac:(apply event_silent). finish. Qed.

(** A grant that is required holds afterwards. *)
Lemma granted_holds scope bank : holds granted_log any (fun _ => authorize resolver p scope bank = true) (granted deps p scope bank).
Proof.
  unfold granted. rewrite resolved. apply (holds_bind _ _ (fun r => r = resolver)); [by apply holds_lift|]. intros _ ->.
  unfold require_grant. apply holds_lift. by destruct (authorize resolver p scope bank).
Qed.

Lemma body_holds e m : holds granted_log any any (dd_json_body deps e m).
Proof. apply silent_holds, (wl_body _ _ _ laws). Qed.

Lemma rate_holds scope : holds granted_log any any (dd_principal_rate deps p scope).
Proof. apply silent_holds, (wl_rate _ _ _ laws). Qed.

(** *** The handlers *)

Lemma bank_list_holds pathname method : holds granted_log any any (_dispatch_bank_list sv deps query pathname method (Some p)).
Proof.
  unfold _dispatch_bank_list. destruct (_ && _); [|finish]. rewrite resolved.
  apply (holds_bind _ _ (fun r => r = resolver)); [by apply holds_lift|]. intros _ ->. step ltac:(apply rate_holds). cbn zeta.
  case_bool_decide; [finish|]. apply (holds_bind _ _ any); [finish|]. intros [[q limit] offset] _.
  apply (holds_bind _ _ (fun f => dd_hindsight_list_banks deps = Some f)).
  { apply holds_lift. by destruct (dd_hindsight_list_banks deps). }
  intros f Hf. apply (holds_bind _ _ any); [|intros payload _; finish]. apply concurrency_holds.
  apply (holds_bind _ _ any); [|intros payload _; step ltac:(apply safe_response_holds); finish].
  eapply ask_holds; [|intros w; by apply (wl_banks _ _ _ laws)]. cbn. intros b Hb. by apply banks_with_scope_elem.
Qed.

Lemma memory_holds pathname method : holds granted_log any any (_dispatch_memory sv config writers deps pathname method (Some p)).
Proof.
  unfold _dispatch_memory. destruct (bool_decide _); [|finish]. destruct (memory_route pathname) as [[segment recalls]|]; [|finish].
  step finish. rename a into bank. step ltac:(apply rate_holds). eapply holds_bind; [apply granted_holds|]. intros [] Ha. cbn beta in Ha.
  step finish. step ltac:(apply body_holds). apply (holds_bind _ _ any); [|intros payload _; finish]. destruct recalls.
  - step finish. step finish. apply concurrency_holds. step ltac:(apply recall_bank_holds; exact Ha). finish.
  - step finish. step finish. apply concurrency_holds. step ltac:(apply retain_bank_holds; intros b; exact Ha). finish.
Qed.

Lemma match_facade_elem method pathname r bank vs : _match_facade method pathname = Ok (Some (r, bank, vs)) -> r ∈ FACADE_ROUTES.
Proof.
  assert (Hm : forall routes m path x, match_routes routes m path = Some x -> x.1.1 ∈ routes).
  { induction routes as [|x routes IH]; intros m path y; simpl; [done|]. case_decide; [intros Hy; right; by eapply IH|].
    destruct (fullmatch_route x path) as [[b v]|]; [intros [= <-]; by left|intros Hy; right; by eapply IH]. }
  unfold _match_facade, match_facade_route. generalize FACADE_ROUTES. intros routes. destruct (negb _); [intros [= Hx]; exact (Hm _ _ _ _ Hx)|].
  destruct (decode_segments pathname) as [parts|e]; [intros [= Hx]; exact (Hm _ _ _ _ Hx)|].
  destruct (as_http e) as [h|]; [|done]. destruct (bool_decide _); [done|]. by destruct (bool_decide _).
Qed.

Lemma facade_holds pathname method : holds granted_log any any (_dispatch_facade sv config writers deps bool_of query pathname method (Some p)).
Proof.
  unfold _dispatch_facade. destruct (_match_facade method pathname) as [[[[route bank] values]|]|e] eqn:Em.
  2-3: apply (holds_bind _ _ (fun m => m = None)); [by apply holds_lift|]; intros _ ->; finish.
  apply match_facade_elem in Em. apply (holds_bind _ _ (fun m => m = Some (route, bank, values))); [by apply holds_lift|]. intros _ ->.
  destruct (facade_scope bool_of route query) as [scope|e] eqn:Es.
  2: apply (holds_bind _ _ (fun _ => False)); [by apply holds_lift|done].
  apply (holds_bind _ _ (fun s => s = scope)); [by apply holds_lift|]. intros _ ->.
  apply (holds_bind _ _ (fun _ => authorize resolver p scope bank = true)); [step ltac:(apply rate_holds); apply granted_holds|]. intros [] Ha. cbn beta in Ha.
  apply (holds_bind _ _ any).
  { unfold _facade_body. destruct (bool_decide _); [finish|]. step ltac:(step finish; finish). step ltac:(apply body_holds).
    destruct a0 as [|[]]; first [finish|destruct (bool_decide _); finish]. }
  intros raw _. step ltac:(destruct raw; [destruct (bool_decide _); [step finish; finish|finish]|finish]).
  apply (holds_bind _ _ any); [|intros payload _; finish]. by apply concurrency_holds, (forward_holds route bank _ _ scope).
Qed.

Lemma denied_holds pathname method : holds granted_log any any (_dispatch_denied sv writers deps pathname method (Some p)).
Proof.
  unfold _dispatch_denied. apply (holds_bind _ _ any); [|intros d _; finish]. step ltac:(apply rate_holds). apply deny_holds.
Qed.

Lemma dispatch_holds pathname method : holds granted_log any any (dispatch sv config writers deps bool_of query pathname method (Some p)).
Proof.
  unfold dispatch. apply (holds_bind _ _ any); [apply bank_list_holds|]. intros [r|] _; [finish|].
  apply (holds_bind _ _ any); [apply memory_holds|]. intros [r|] _; [finish|].
  apply (holds_bind _ _ any); [apply facade_holds|]. intros [r|] _; [finish|]. apply denied_holds.
Qed.
End authorized.

(** C13: an authenticated principal reaches only what it is granted. Whatever the
    path, method, query and body of its request and whatever the services do,
    everything the memory service is asked while the request is dispatched,
    also when it ends in an error, is within the grants of the principal at the
    moment: a retain or a recall on a bank with that scope, a facade request on
    a route of the table with the scope the route requires and the bank of the
    path, or a listing restricted to the banks it may list. *)
Theorem dispatch_authorized `{Rfc8785, PyRepr, UnicodeData} {W} (sv : Services W) config writers deps bool_of (log : W -> list asked)
    resolver p query pathname method w :
  writes_log sv deps log -> dd_resolver deps = Some resolver ->
  forall x, x ∈ log (dispatch sv config writers deps bool_of query pathname method (Some p) w).2 ->
  x ∈ log w \/ permitted resolver p bool_of query x.
Proof.
  intros laws Hres. apply (dispatch_holds sv config writers deps bool_of log laws resolver p query (log w) Hres pathname method w).
  intros x Hx. by left.
Qed.

(** ** Witness *)

Module Example_dispatch.
Import Example_envelope Example_put Example_flow.

(** A principal recalls from its bank; the request body is small. *)
Definition resolver : PrincipalResolver := principal_resolver Example_registry.registry.
Definition deps : Dispatch_deps (unit * list asked) :=
  mkDispatchDeps _ (Some resolver) (Some (fun bs _ _ _ => noting (AskBanks bs) (mret (JDict []))))
    (fun _ _ => mret (RawJson (JDict [("query", JStr "lunch")]))) (fun _ _ => mret ()) (fun _ _ m => m).

Definition run : result response * (unit * list asked) :=
  dispatch (logged sv) default_limit_config [] deps (fun _ => None) [] "/v1/default/banks/team/memories/recall" "POST"
    (Some Example_registry.session) ((), []).

Example recall_dispatched : run.2.2 = [AskRecall "team" [("query", JStr "lunch")]].
Proof. vm_compute. reflexivity. Qed.
End Example_dispatch.
Import Example_envelope Example_put Example_flow Example_dispatch.

Lemma dispatch_authorized_witness :
  authorize resolver Example_registry.session SCOPE_MEMORY_RECALL "team" = true.
Proof.
  destruct (dispatch_authorized (logged sv) default_limit_config [] deps (fun _ => None) snd resolver Example_registry.session []
    "/v1/default/banks/team/memories/recall" "POST" ((), []))
    with (x := AskRecall "team" [("query", JStr "lunch")]) as [Hold|Hok].
  - split; intros; try reflexivity; try (unfold logged; cbn; unfold beside, noting; by repeat case_match).
    + cbn in H. by injection H as <-.
    + cbn. right. by exists w.
  - reflexivity.
  - fold run. rewrite recall_dispatched. by left.
  - by apply not_elem_of_nil in Hold.
  - exact Hok.
Defined.
