(* ===== verification/App.v ===== *)
(** * The HTTP application

    Models [memory_router/app.py] (request bodies, failure and principal rates,
    concurrency, the admin surface, the top-level dispatch and one round of the
    maintenance loop), the auditor of [memory_router/auth.py], and
    [memory_router/metrics_http.py]. A request is the record [request]; bodies
    are UTF-8 without a byte order mark and header digits are ASCII. A body too
    deeply nested for Python's parser is refused like one over the depth limit,
    with another code. The limiters, the admin service, the human login, the
    version probe and the rendering of metrics are the record [Runtime]. Log
    lines and counters are not modelled. *)

From Stdlib Require Import ZArith Lia Ascii.
From stdpp Require Import base sets strings numbers list.
From S2P Require Import Prelude Errors Text Sha256 Json JsonParse Auth FacadeRoutes Principals PrincipalGate RateLimit Repository Dedupe Validation Limits QuarantineStore Admin Paths Hindsight Policy OpenClaw Dispatch.

Local Open Scope Z_scope.

Definition _MAX_JSON_DEPTH : Z := 64.

Record request := mkRequest {
  req_method : string; req_pathname : string; req_authorization : option string; req_claimed_agent : option string;
  req_query : list (string * string); req_content_length : option string; req_chunks : list string
}.

Record app_response := mkAppResponse { ap_payload : json; ap_status : Z; ap_deprecation : bool }.

Definition json_response (payload : json) (status : Z) : app_response := mkAppResponse payload status false.
Definition with_deprecation (deprecated : bool) (r : app_response) : app_response :=
  mkAppResponse (ap_payload r) (ap_status r) (deprecated || ap_deprecation r).

Definition _AUTHENTICATION_REQUIRED : json :=
  JDict [("error", JStr "unauthorized"); ("message", JStr "authentication required")].
Definition unauthorized : app_response := json_response _AUTHENTICATION_REQUIRED 401.

Definition _scope (method path : string) : string :=
  if bool_decide (method = "GET"%string) then "read"
  else if bool_decide (method = "POST"%string) && bool_decide (path = "/admin/quarantine/cleanup"%string) then "cleanup"
  else "review".

(** ** Request bodies *)

Definition _assert_json_depth (value : json) : result unit :=
  match assert_json_depth value _MAX_JSON_DEPTH with
  | Some (Ok _) => Ok ()
  | Some (Err _) => Err (raise_http 400 "json_too_deep" "JSON nesting depth exceeds limit")
  | None => Err (EOther "out of fuel")
  end.

Definition payload_too_large : exn := raise_http 413 "payload_too_large" "payload too large".
Definition invalid_json : exn := raise_http 400 "invalid_json" "invalid JSON body".

(** [str.isdigit] of a header, whose characters are those of Latin-1, and
    [int] of it, which refuses the superscripts and very long numbers. *)
Definition latin1_digit (c : ascii) : bool := is_digit c || elem (code_of c) [178; 179; 185].

Definition declared_size (content_length : option string) : result (option Z) :=
  match content_length with
  | None => Ok None
  | Some s =>
      if negb (class_match latin1_digit 1 (slen s) s) then Ok None
      else if class_match is_digit 1 INT_MAX_STR_DIGITS s then Ok (Some (digits_number (chars s)))
      else Err (EValueError "invalid literal for int()")
  end.

Definition _json_body (max_body_bytes : Z) (rq : request) (empty_as_none : bool) (max_bytes : option Z) : result raw_body :=
  let limit := match max_bytes with None => max_body_bytes | Some m => Z.min max_body_bytes m end in
  declared ← declared_size (req_content_length rq);
  if match declared with Some n => limit <? n | None => false end then Err payload_too_large
  else match read_chunks 0 limit (req_chunks rq) StreamDone with
       | BodyRead body =>
           if bool_decide (body = ""%string) then Ok (if empty_as_none then EMPTY_BODY else RawJson (JDict []))
           else match json_loads_bytes false true body with
                | None => Err invalid_json
                | Some value => _ ← _assert_json_depth value; Ok (RawJson value)
                end
       | _ => Err payload_too_large
       end.

(** ** The runtime *)

Record AdminService (W : Type) := mkAdminService {
  as_list_queue : Z -> Z -> option QueueFilter -> eff W json;
  as_stats : eff W json;
  as_bank_stats : list string -> eff W json;
  as_cleanup : list (string * json) -> AdminActor -> eff W json;
  as_read_item : string -> eff W json;
  as_approve : string -> list (string * json) -> AdminActor -> eff W json;
  as_reject : string -> AdminActor -> eff W json;
  as_postpone : string -> AdminActor -> eff W json;
  as_reconcile : string -> list (string * json) -> AdminActor -> eff W json
}.
Arguments as_list_queue {W}.
Arguments as_stats {W}.
Arguments as_bank_stats {W}.
Arguments as_cleanup {W}.
Arguments as_read_item {W}.
Arguments as_approve {W}.
Arguments as_reject {W}.
Arguments as_postpone {W}.
Arguments as_reconcile {W}.

Record Runtime (W : Type) := mkRuntime {
  rt_max_body_bytes : Z;
  rt_router_token : option string;
  rt_allow_anonymous : bool;
  rt_metrics_enabled : bool;
  rt_principal_resolver : option PrincipalResolver;
  rt_human_authenticate : option (string -> result Authentication);
  rt_admin_tokens : admin_tokens;
  rt_admin_read_max : Z; rt_admin_write_max : Z; rt_admin_window : Z;
  rt_auth_failure_max : Z; rt_auth_failure_window : Z;
  rt_auth_prefilter : list Bucket -> eff W unit;
  rt_auth_limiter : list Bucket -> eff W unit;
  rt_admin_limiter : list Bucket -> eff W unit;
  rt_principal_limiter : list Bucket -> eff W unit;
  rt_concurrency_run : string -> Z -> eff W json -> eff W json;
  rt_admin : AdminService W;
  rt_human_dispatch : option (string -> request -> eff W app_response);
  rt_version : eff W app_response;
  rt_render_metrics : eff W json;
  rt_hindsight_list_banks : option (list string -> option string -> Z -> Z -> eff W json)
}.
Arguments rt_max_body_bytes {W}.
Arguments rt_router_token {W}.
Arguments rt_allow_anonymous {W}.
Arguments rt_metrics_enabled {W}.
Arguments rt_principal_resolver {W}.
Arguments rt_human_authenticate {W}.
Arguments rt_admin_tokens {W}.
Arguments rt_admin_read_max {W}.
Arguments rt_admin_write_max {W}.
Arguments rt_admin_window {W}.
Arguments rt_auth_failure_max {W}.
Arguments rt_auth_failure_window {W}.
Arguments rt_auth_prefilter {W}.
Arguments rt_auth_limiter {W}.
Arguments rt_admin_limiter {W}.
Arguments rt_principal_limiter {W}.
Arguments rt_concurrency_run {W}.
Arguments rt_admin {W}.
Arguments rt_human_dispatch {W}.
Arguments rt_version {W}.
Arguments rt_render_metrics {W}.
Arguments rt_hindsight_list_banks {W}.

(** The exception of a concurrency lease that is lost or cannot be taken. *)
Definition lease_unavailable : exn := ERuntimeError "ConcurrencyLeaseUnavailable".
Definition is_lease_unavailable (e : exn) : bool :=
  match e with ERuntimeError m => bool_decide (m = "ConcurrencyLeaseUnavailable"%string) | _ => false end.

Definition limit_operation_text (op : LimitOperation) : string :=
  match op with OpRecall => "recall" | OpRetain => "retain" | OpReflect => "reflect" | OpConfig => "config" | OpAdmin => "admin" end.

Definition _rate_storage_unavailable (scope : string) : exn :=
  EHttp (mkHttpError 503 (scope +:+ "_rate_unavailable") (scope +:+ " rate control is temporarily unavailable") [("retry-after", "1")])%string.

Section app.
Context `{Rfc8785, PyRepr, UnicodeData} {W : Type} (sv : Services W) (rt : Runtime W) (now : Z).

(** [except HttpError as exc: if exc.status != 429: raise; raise limited;
    except Exception: raise unavailable] *)
Definition translate_rate (m : eff W unit) (limited : exn) (unavailable : exn) : eff W unit :=
  try_except m (fun e =>
    match as_http e with
    | Some h => if err_status h =? 429 then raise limited else raise e
    | None => if is_cancelled e then raise e else raise unavailable
    end).

Definition _auth_failure_rate (route_group : string) : eff W unit :=
  let bucket := mkBucket ("auth-failure:" +:+ route_group)%string (rt_auth_failure_max rt) (rt_auth_failure_window rt) in
  translate_rate (_ ← rt_auth_prefilter rt [bucket]; rt_auth_limiter rt [bucket])
    (EHttp (rate_limit_error "auth_rate_limited" "too many authentication failures" None))
    (_rate_storage_unavailable "auth").

(** [AuthFailureAuditor.persist] *)
Definition persist (route_group : string) : eff W unit :=
  except_Exception
    (now ← sv_iso_now sv;
     _ ← sv_put sv (mkPutInput "security_event" "auth_failed" now
           (JDict [("action", JStr "auth_failed"); ("route_group", JStr route_group)]) None (Some "http") None None None
           (Some ("auth_failed:" +:+ route_group)) None)%string;
     mret ())
    (fun _ => mret ()).

Definition session_limit (session : PrincipalSession) (scope : string) : result ResolvedPrincipalLimit :=
  match dict_get (scope_limit_operation scope) (ps_limits session) with
  | Some l => Ok l
  | None => Err (EOther "KeyError")
  end.

Definition _principal_rate (session : PrincipalSession) (scope : string) : eff W unit :=
  limit ← lift (session_limit session scope);
  translate_rate
    (rt_principal_limiter rt
       [mkBucket ("principal:" +:+ ps_principal_id session +:+ ":" +:+ limit_operation_text (scope_limit_operation scope))%string
          (rl_rate_limit_max limit) (rl_rate_limit_window_ms limit)])
    (EHttp (rate_limit_error "principal_rate_limited" "too many requests for principal"
       (Some [("retry-after", str_of_Z (Z.max 1 ((rl_rate_limit_window_ms limit + 999) / 1000)))])))
    (EHttp (mkHttpError 503 "principal_rate_unavailable" "principal rate control is temporarily unavailable" [("retry-after", "1")])).

Definition _with_principal_concurrency (session : PrincipalSession) (scope : string) (operation : eff W json) : eff W json :=
  limit ← lift (session_limit session scope);
  try_except
    (rt_concurrency_run rt (ps_principal_id session +:+ ":" +:+ limit_operation_text (scope_limit_operation scope))%string
       (rl_concurrency_max limit) operation)
    (fun e =>
       match as_http e with
       | Some h =>
           if bool_decide (err_code h = "principal_concurrency_limited"%string)
           then raise (EHttp (rate_limit_error "principal_concurrency_limited" "too many concurrent requests for principal" (Some (err_headers h))))
           else raise e
       | None =>
           if is_lease_unavailable e
           then raise (EHttp (mkHttpError 503 "principal_concurrency_unavailable"
                  "principal concurrency control is temporarily unavailable" [("retry-after", "1")]))
           else raise e
       end).

Definition _router_auth (rq : request) : eff W bool :=
  if router_authorized (req_authorization rq) (rt_router_token rt) (rt_allow_anonymous rt) then mret true
  else _ ← _auth_failure_rate "router"; _ ← persist "router"; mret false.

Definition _admin_auth (rq : request) (scope : string) : eff W bool :=
  if admin_authorized (req_authorization rq) scope (rt_admin_tokens rt) then mret true
  else
    _ ← _auth_failure_rate "admin";
    _ ← (if admin_token_recognized (req_authorization rq) (rt_admin_tokens rt) then mret () else persist "admin");
    mret false.

Definition _admin_rate (method : string) : eff W unit :=
  let reads := elem method ["GET"; "HEAD"]%string in
  let request_class := if reads then "read"%string else "write"%string in
  translate_rate
    (rt_admin_limiter rt [mkBucket ("admin:" +:+ request_class)%string (if reads then rt_admin_read_max rt else rt_admin_write_max rt) (rt_admin_window rt)])
    (EHttp (rate_limit_error "admin_rate_limited" ("too many admin " +:+ request_class +:+ " requests")%string None))
    (_rate_storage_unavailable "admin").

(** ** The admin surface *)

Definition repeated (query : list (string * string)) (name : string) : bool := 1 <? count_where (fun kv => bool_decide (kv.1 = name)) query.

Definition _admin_queue_response (rq : request) (scoped_banks : option (list string)) : eff W app_response :=
  let params := req_query rq in
  _ ← lift (ensure (negb (repeated params "limit" || repeated params "offset")) (invalid_query "limit or offset is invalid"));
  match py_int (default "100"%string (dict_get "limit" params)), py_int (default "0"%string (dict_get "offset" params)) with
  | Some limit, Some offset =>
      _ ← lift (ensure ((1 <=? limit) && (limit <=? 500) && (0 <=? offset)) (invalid_query "integer query parameter out of range"));
      filter_ ← lift (parse_queue_filter params);
      let filter_ := match scoped_banks with Some banks => with_bank_scope filter_ banks | None => filter_ end in
      payload ← as_list_queue (rt_admin rt) limit offset (if filter_active filter_ then Some filter_ else None);
      mret (json_response payload 200)
  | _, _ => raise (invalid_query "invalid integer query parameter")
  end.

Definition _admin_body (rq : request) (action : string) : result (list (string * json)) :=
  raw ← _json_body (rt_max_body_bytes rt) rq false None;
  match raw with
  | RawJson (JDict d) => Ok d
  | _ => Err (raise_http 400 "invalid_request" (action +:+ " body must be an object")%string)
  end.

Inductive item_action := Approve | Reject | Postpone | Reconcile.

(** The match of the item path: the identity and the action. *)
Definition item_route (pathname : string) : option (string * option item_action) :=
  match str_split "/" pathname with
  | [""; "admin"; "quarantine"; "items"; item_id]%string => if bool_decide (item_id = ""%string) then None else Some (item_id, None)
  | [""; "admin"; "quarantine"; "items"; item_id; action]%string =>
      if bool_decide (item_id = ""%string) then None
      else a ← dict_get action [("approve", Approve); ("reject", Reject); ("postpone", Postpone); ("reconcile", Reconcile)]%string;
           Some (item_id, Some a)
  | _ => None
  end.

Definition _admin_item_action (rq : request) (action : item_action) (item_id : string) (actor : AdminActor) : eff W json :=
  match action with
  | Approve => body ← lift (_admin_body rq "approve"); as_approve (rt_admin rt) item_id body actor
  | Reject => as_reject (rt_admin rt) item_id actor
  | Postpone => as_postpone (rt_admin rt) item_id actor
  | Reconcile => body ← lift (_admin_body rq "reconcile"); as_reconcile (rt_admin rt) item_id body actor
  end.

Definition _admin_item_response (rq : request) (segment : string) (action : option item_action) (actor : AdminActor)
    : eff W (option app_response) :=
  item_id ← lift (_decode_path_segment segment);
  match action with
  | None => if bool_decide (req_method rq = "GET"%string)
            then v ← as_read_item (rt_admin rt) item_id; mret (Some (json_response v 200)) else mret None
  | Some a => if bool_decide (req_method rq = "POST"%string)
              then v ← _admin_item_action rq a item_id actor; mret (Some (json_response v 200)) else mret None
  end.

Definition _authorized_admin_response (rq : request) (actor : AdminActor) : eff W app_response :=
  let is_get := bool_decide (req_method rq = "GET"%string) in
  let not_found := json_response (JDict [("error", JStr "admin_endpoint_not_found")]) 404 in
  if is_get && bool_decide (req_pathname rq = "/admin/quarantine/queue"%string) then _admin_queue_response rq None
  else if is_get && bool_decide (req_pathname rq = "/admin/quarantine/stats"%string)
  then v ← as_stats (rt_admin rt); mret (json_response v 200)
  else if bool_decide (req_method rq = "POST"%string) && bool_decide (req_pathname rq = "/admin/quarantine/cleanup"%string)
  then body ← lift (_admin_body rq "cleanup"); v ← as_cleanup (rt_admin rt) body actor; mret (json_response v 200)
  else match item_route (req_pathname rq) with
       | Some (segment, action) =>
           r ← _admin_item_response rq segment action actor;
           mret (default not_found r)
       | None => mret not_found
       end.

(** [authenticate_principal] with the runtime's resolver and auditor. *)
Definition runtime_authenticate (rq : request) (resolver : PrincipalResolver) (failures audit : string) : eff W (option PrincipalSession) :=
  authenticate_principal resolver (rt_human_authenticate rt) now (_auth_failure_rate failures) (fun group _ => persist group)
    (req_authorization rq) (req_claimed_agent rq) audit.

Definition _principal_admin_response (rq : request) (resolver : PrincipalResolver) : eff W app_response :=
  principal_admin_metadata_response resolver (rt_human_authenticate rt) now (_auth_failure_rate "admin") (fun group _ => persist group)
    unauthorized (fun p scope _ => _principal_rate p scope)
    (fun banks => v ← as_bank_stats (rt_admin rt) banks; mret (json_response v 200))
    (fun banks => _admin_queue_response rq (Some banks))
    (req_authorization rq) (req_claimed_agent rq) (dict_get "bank_id" (rev (req_query rq))) (req_pathname rq) (req_method rq).

(** The admin request once a token is accepted. *)
Definition admin_granted (rq : request) (scope : string) : eff W app_response :=
  match admin_token_scope (req_authorization rq) scope (rt_admin_tokens rt) with
  | None => raise (ERuntimeError "admin request authorized without a matching admin token slot")
  | Some token_scope =>
      _ ← _admin_rate (req_method rq);
      r ← _authorized_admin_response rq (mkAdminActor (Some token_scope) None None);
      mret (with_deprecation (bool_decide (token_scope = "legacy"%string)) r)
  end.

Definition _dispatch_admin (rq : request) : eff W (option app_response) :=
  if negb (starts_with "/admin/" (req_pathname rq)) then mret None
  else
    let scope := _scope (req_method rq) (req_pathname rq) in
    if admin_authorized (req_authorization rq) scope (rt_admin_tokens rt) then r ← admin_granted rq scope; mret (Some r)
    else match rt_principal_resolver rt, principal_token_present (req_authorization rq) with
         | Some resolver, true => r ← _principal_admin_response rq resolver; mret (Some r)
         | _, _ =>
             ok ← _admin_auth rq scope;
             if ok : bool then r ← admin_granted rq scope; mret (Some r) else mret (Some unauthorized)
         end.

(** ** Metrics *)

Definition metrics_route_enabled (pathname method : string) (enabled : bool) : bool :=
  bool_decide (pathname = "/metrics"%string) && bool_decide (method = "GET"%string) && enabled.

Definition _metrics_response : eff W app_response := v ← rt_render_metrics rt; mret (json_response v 200).

Definition _principal_metrics_response (rq : request) (resolver : PrincipalResolver) : eff W app_response :=
  principal ← runtime_authenticate rq resolver "admin" "metrics";
  match principal with
  | None => mret unauthorized
  | Some p =>
      _ ← (if bool_decide (quarantine_review_banks resolver p = []) then require_grant resolver p SCOPE_QUARANTINE_REVIEW "-" else mret ());
      _ ← _principal_rate p SCOPE_QUARANTINE_REVIEW;
      _metrics_response
  end.

Definition metrics_endpoint_response (rq : request) : eff W app_response :=
  let authorized : eff W app_response :=
    _ ← _admin_rate "GET";
    r ← _metrics_response;
    mret (with_deprecation (bool_decide (admin_token_scope (req_authorization rq) "read" (rt_admin_tokens rt) = Some "legacy"%string)) r) in
  if admin_authorized (req_authorization rq) "read" (rt_admin_tokens rt) then authorized
  else match rt_principal_resolver rt, principal_token_present (req_authorization rq) with
       | Some resolver, true => _principal_metrics_response rq resolver
       | _, _ => ok ← _admin_auth rq "read"; if ok : bool then authorized else mret unauthorized
       end.

Definition _dispatch_metrics (rq : request) : eff W (option app_response) :=
  if metrics_route_enabled (req_pathname rq) (req_method rq) (rt_metrics_enabled rt)
  then r ← metrics_endpoint_response rq; mret (Some r) else mret None.

(** ** Dispatch *)

Context (config : HindsightLimitConfig) (writers : list (string * WriterRule)) (bool_of : string -> option bool).

Definition dispatch_dependencies (rq : request) : Dispatch_deps W :=
  mkDispatchDeps W (rt_principal_resolver rt) (rt_hindsight_list_banks rt)
    (fun empty_as_none max_bytes => lift (_json_body (rt_max_body_bytes rt) rq empty_as_none max_bytes))
    _principal_rate _with_principal_concurrency.

(** What an authenticated request runs; [principal] is [None] for the router token. *)
Definition authenticated (rq : request) (principal : option PrincipalSession) : eff W app_response :=
  r ← (if bool_decide (req_method rq = "GET"%string) && bool_decide (req_pathname rq = "/version"%string) then rt_version rt
       else r ← Dispatch.dispatch sv config writers (dispatch_dependencies rq) bool_of (req_query rq) (req_pathname rq) (req_method rq) principal;
            mret (json_response (rp_payload r) (rp_status r)));
  mret (with_deprecation (bool_decide (principal = None) && bool_decide (is_Some (rt_router_token rt))) r).

Definition human_prefix : string := "/auth/human/".

Definition app_dispatch (rq : request) : eff W app_response :=
  if starts_with human_prefix (req_pathname rq) then
    match rt_human_dispatch rt with
    | None => mret (json_response (JDict [("error", JStr "not_found")]) 404)
    | Some f => f (remove_prefix human_prefix (req_pathname rq)) rq
    end
  else
    admin_response ← _dispatch_admin rq;
    match admin_response with
    | Some r => mret r
    | None =>
        metrics_response ← _dispatch_metrics rq;
        match metrics_response with
        | Some r => mret r
        | None =>
            match rt_principal_resolver rt with
            | Some resolver =>
                principal ← runtime_authenticate rq resolver "router" "request";
                match principal with
                | None => mret unauthorized
                | Some p => authenticated rq (Some p)
                end
            | None => ok ← _router_auth rq; if ok : bool then authenticated rq None else mret unauthorized
            end
        end
    end.
End app.

(** ** One round of maintenance *)

(** The phases of [_sweep_loop], each failure reported and the rest run. *)
Section maintenance.
Context {W : Type} (prune_sessions recover sweep prune_events : eff W unit) (retention_days : Z).

Inductive maintenance_phase := SessionPrune | ReviewRecovery | Expiry | EventRetention.

(** [try: m; except Exception: report_failure(phase)] *)
Definition phase_run (phase : maintenance_phase) (m : eff W unit) (failed : list maintenance_phase) : eff W (list maintenance_phase) :=
  except_Exception (_ ← m; mret failed) (fun _ => mret (failed ++ [phase])).

Definition recovery_and_expiry (failed : list maintenance_phase) : eff W (list maintenance_phase) := fun w =>
  match recover w with
  | (Err e, w1) => if is_cancelled e then (Err e, w1) else (Ok (failed ++ [ReviewRecovery]), w1)
  | (Ok _, w1) => phase_run Expiry sweep failed w1
  end.

Definition sweep_round (human_auth : bool) : eff W (list maintenance_phase) :=
  failed ← (if human_auth then phase_run SessionPrune prune_sessions [] else mret []);
  failed ← recovery_and_expiry failed;
  if 0 <? retention_days then phase_run EventRetention prune_events failed else mret failed.
End maintenance.
