(* ===== verification/AppProps.v ===== *)
(** * The HTTP application: theorems

    On [App.v]: a request without credentials changes nothing but failure
    counters and the audit, bodies are bounded and parsed, and the phases of a
    maintenance round are isolated from each other. *)

From Stdlib Require Import ZArith Lia Ascii.
From stdpp Require Import base sets strings numbers list.
From S2P Require Import Prelude Errors Text Sha256 Json JsonParse Auth FacadeRoutes Principals PrincipalGate RateLimit Repository Envelope EnvelopeProps Dedupe Validation Limits QuarantineStore QuarantineStoreProps Admin Paths Hindsight HindsightProps Policy PolicyFlow OpenClaw Dispatch App.

Local Open Scope Z_scope.

(** ** Requests without credentials *)

(** No admin token, principal key or router token accepts the request. *)
Definition no_credentials {W} (rt : Runtime W) (rq : request) (now : Z) : Prop :=
  (forall scope, admin_authorized (req_authorization rq) scope (rt_admin_tokens rt) = false) /\
  match rt_principal_resolver rt with
  | Some resolver => forall p, authenticate_request resolver (rt_human_authenticate rt) (req_authorization rq) now <> Ok (AuthOk p)
  | None => router_authorized (req_authorization rq) (rt_router_token rt) (rt_allow_anonymous rt) = false
  end.

(** What counts and audits failures. *)
Record failure_path {W} (sv : Services W) (rt : Runtime W) (I : W -> Prop) : Prop := {
  fp_prefilter bs : holds I any any (rt_auth_prefilter rt bs);
  fp_limiter bs : holds I any any (rt_auth_limiter rt bs);
  fp_put group now : holds I any any (sv_put sv (mkPutInput "security_event" "auth_failed" now
    (JDict [("action", JStr "auth_failed"); ("route_group", JStr group)]) None (Some "http") None None None
    (Some ("auth_failed:" +:+ group)) None)%string);
  fp_now : holds I any any (sv_iso_now sv)
}.

Section unauthenticated.
Context `{Rfc8785, PyRepr, UnicodeData} {W : Type} (sv : Services W) (rt : Runtime W) (now : Z) (I : W -> Prop).
Context (path : failure_path sv rt I) (rq : request) (none : no_credentials rt rq now).

Lemma failure_rate_holds group : holds I any any (_auth_failure_rate rt group).
Proof.
  eapply holds_try; [apply (holds_bind _ _ any); [apply (fp_prefilter _ _ _ path)|intros _ _; apply (fp_limiter _ _ _ path)]|].
  intros e _. destruct (as_http e) as [h|]; [destruct (err_status h =? 429)|destruct (is_cancelled e)]; by apply holds_raise.
Qed.

Lemma persist_holds group : holds I any any (persist sv group).
Proof.
  eapply holds_try; [|intros e _; destruct (is_cancelled e); [by apply holds_raise|by apply holds_ret]]. apply (holds_bind _ _ any); [apply (fp_now _ _ _ path)|]. intros t _.
  apply (holds_bind _ _ any); [apply (fp_put _ _ _ path)|]. intros _ _. by apply holds_ret.
Qed.

Lemma authenticate_holds resolver failures audit : rt_principal_resolver rt = Some resolver ->
  holds I any (fun p => p = None) (runtime_authenticate sv rt now rq resolver failures audit).
Proof.
  intros Hr. unfold runtime_authenticate, authenticate_principal. destruct none as [_ Hn]. rewrite Hr in Hn.
  destruct (authenticate_request resolver (rt_human_authenticate rt) (req_authorization rq) now) as [a|e].
  2: apply (holds_bind _ _ (fun _ => False)); [by apply holds_lift|done].
  apply (holds_bind _ _ (fun r => r = a)); [by apply holds_lift|]. intros _ ->. destruct a; [by destruct (Hn session)|..];
    (apply (holds_bind _ _ any); [apply failure_rate_holds|]; intros _ _; apply (holds_bind _ _ any); [apply persist_holds|]; intros _ _; by apply holds_ret).
Qed.

Lemma admin_auth_holds scope : holds I any (fun ok => ok = false) (_admin_auth sv rt rq scope).
Proof.
  unfold _admin_auth. rewrite (proj1 none scope). apply (holds_bind _ _ any); [apply failure_rate_holds|]. intros _ _.
  apply (holds_bind _ _ any); [destruct (admin_token_recognized _ _); [by apply holds_ret|apply persist_holds]|]. intros _ _. by apply holds_ret.
Qed.

Lemma admin_refused : holds I any (fun r => r = None \/ r = Some unauthorized) (_dispatch_admin sv rt now rq).
Proof.
  unfold _dispatch_admin. destruct (negb _); [apply holds_ret; by left|]. cbn zeta. rewrite (proj1 none).
  assert (Ha : forall scope, holds I any (fun r => r = None \/ r = Some unauthorized)
    (ok ← _admin_auth sv rt rq scope; if ok : bool then r ← admin_granted rt rq scope; mret (Some r) else mret (Some unauthorized))).
  { intros scope. eapply holds_bind; [apply admin_auth_holds|]. intros _ ->. apply holds_ret. by right. }
  destruct (rt_principal_resolver rt) as [resolver|] eqn:Er; [|apply Ha]. destruct (principal_token_present _); [|apply Ha].
  apply (holds_bind _ _ (fun r => r = unauthorized)); [|intros _ ->; apply holds_ret; by right].
  unfold _principal_admin_response, principal_admin_metadata_response.
  eapply holds_bind; [exact (authenticate_holds resolver "admin" "admin" Er)|]. intros _ ->. by apply holds_ret.
Qed.

Lemma metrics_refused : holds I any (fun r => r = None \/ r = Some unauthorized) (_dispatch_metrics sv rt now rq).
Proof.
  unfold _dispatch_metrics. destruct (metrics_route_enabled _ _ _); [|apply holds_ret; by left].
  apply (holds_bind _ _ (fun r => r = unauthorized)); [|intros _ ->; apply holds_ret; by right].
  unfold metrics_endpoint_response. cbn zeta. rewrite (proj1 none "read").
  assert (Ha : forall m, holds I any (fun r => r = unauthorized) (ok ← _admin_auth sv rt rq "read"; if ok : bool then m else mret unauthorized)).
  { intros m. eapply holds_bind; [apply admin_auth_holds|]. intros _ ->. by apply holds_ret. }
  destruct (rt_principal_resolver rt) as [resolver|] eqn:Er; [|apply Ha]. destruct (principal_token_present _); [|apply Ha].
  unfold _principal_metrics_response. eapply holds_bind; [by apply authenticate_holds|]. intros _ ->. by apply holds_ret.
Qed.
End unauthenticated.

(** C25: outside the login paths, a request without credentials only counts and is
    audited. If no admin token, principal key or router token accepts it and its
    path is not under [/auth/human/], then whatever property of the state the
    failure counters and the record of the failure keep, [app_dispatch] of the
    request keeps: no quarantine item is read or decided, no memory is retained or
    recalled and nothing is forwarded, whatever its method. It is answered with
    401, or fails with an error. Two groups of routes are outside the statement:
    the login of a human under [/auth/human/], which is open before the caller has
    a token and consumes its limiter and writes its tables (see HumanAuthStore and
    HumanAuth), and the health and readiness routes, which are answered before
    [app_dispatch] (see Probes). *)
Theorem unauthenticated_harmless `{Rfc8785, PyRepr, UnicodeData} {W} (sv : Services W) (rt : Runtime W) now config writers bool_of
    (I : W -> Prop) rq w :
  failure_path sv rt I -> no_credentials rt rq now -> starts_with human_prefix (req_pathname rq) = false -> I w ->
  I (app_dispatch sv rt now config writers bool_of rq w).2 /\
  forall r, (app_dispatch sv rt now config writers bool_of rq w).1 = Ok r -> r = unauthorized.
Proof.
  intros Hpath Hnone Hhuman Hw.
  assert (Hh : holds I any (fun r => r = unauthorized) (app_dispatch sv rt now config writers bool_of rq)).
  { unfold app_dispatch. rewrite Hhuman. eapply holds_bind; [by apply admin_refused|]. intros x [->| ->]; [|by apply holds_ret].
    eapply holds_bind; [by apply metrics_refused|]. intros x [->| ->]; [|by apply holds_ret].
    destruct (rt_principal_resolver rt) as [resolver|] eqn:Er.
    - eapply holds_bind; [by apply authenticate_holds|]. intros _ ->. by apply holds_ret.
    - apply (holds_bind _ _ (fun ok => ok = false)); [|intros _ ->; by apply holds_ret]. destruct Hnone as [_ Hn]. rewrite Er in Hn.
      unfold _router_auth. rewrite Hn. apply (holds_bind _ _ any); [by eapply failure_rate_holds|]. intros _ _.
      apply (holds_bind _ _ any); [by eapply persist_holds|]. intros _ _. by apply holds_ret. }
  destruct (Hh w Hw) as [Hi Hq]. split; [done|]. intros r Hr. by rewrite Hr in Hq.
Qed.

(** ** Bodies *)

Definition effective_limit (max_body_bytes : Z) (max_bytes : option Z) : Z :=
  match max_bytes with None => max_body_bytes | Some m => Z.min max_body_bytes m end.

Definition request_body (rq : request) : string := foldr (fun c t => (c +:+ t)%string) ""%string (req_chunks rq).

Lemma read_chunks_whole limit chunks : forall size, 0 <= size <= limit ->
  read_chunks size limit chunks StreamDone =
  let body := foldr (fun c t => (c +:+ t)%string) ""%string chunks in
  if limit <? size + slen body then BodyTooLarge else BodyRead body.
Proof.
  induction chunks as [|c chunks IH]; intros size Hs; cbn [read_chunks foldr].
  - change (slen "") with 0. by rewrite (proj2 (Z.ltb_ge limit (size + 0))) by lia.
  - cbn zeta. rewrite slen_app. pose proof (slen_nonneg c). pose proof (slen_nonneg (foldr (fun c t => (c +:+ t)%string) ""%string chunks)).
    destruct (Z.ltb_spec limit (size + slen c)).
    + by rewrite (proj2 (Z.ltb_lt _ _)) by lia.
    + rewrite IH by lia. cbn zeta. replace (size + (slen c + _)) with (size + slen c + slen (foldr (fun c t => (c +:+ t)%string) ""%string chunks)) by lia.
      by destruct (limit <? _).
Qed.

(** What a body is read as, from all of it at once. *)
Definition body_spec (limit : Z) (declared : option string) (body : string) (empty_as_none : bool) : result raw_body :=
  declared ← declared_size declared;
  if match declared with Some n => limit <? n | None => false end || (limit <? slen body) then Err payload_too_large
  else if bool_decide (body = ""%string) then Ok (if empty_as_none then EMPTY_BODY else RawJson (JDict []))
  else match json_loads_bytes false true body with
       | None => Err invalid_json
       | Some v => if json_depth v <=? _MAX_JSON_DEPTH then Ok (RawJson v)
                   else Err (raise_http 400 "json_too_deep" "JSON nesting depth exceeds limit")
       end.

(** Reading a body in chunks is reading it whole. However the body is cut
    into chunks, the value or the error of [_json_body] is that of the whole: a
    declared or actual size over the smaller of the two limits is refused, an
    empty body is absent or the empty object, and any other body is a JSON value
    of bounded depth or refused. *)
Lemma json_body_exact max_body_bytes rq empty_as_none max_bytes :
  0 <= effective_limit max_body_bytes max_bytes ->
  _json_body max_body_bytes rq empty_as_none max_bytes =
  body_spec (effective_limit max_body_bytes max_bytes) (req_content_length rq) (request_body rq) empty_as_none.
Proof.
  intros Hl. unfold _json_body, body_spec. fold (effective_limit max_body_bytes max_bytes). set (limit := effective_limit _ _) in *.
  destruct (declared_size (req_content_length rq)) as [declared|e]; [|done]. cbn [mbind result_bind].
  destruct (match declared with Some n => _ | None => false end); [done|]. cbn [orb].
  rewrite read_chunks_whole by lia. cbn zeta. rewrite Z.add_0_l. fold (request_body rq). destruct (limit <? slen (request_body rq)); [done|].
  case_bool_decide; [done|]. destruct (json_loads_bytes false true _) as [v|]; [|done].
  unfold _assert_json_depth, assert_json_depth. rewrite depth_loop_spec by (unfold stack_size; simpl; lia).
  cbn [forallb]. rewrite andb_true_r. unfold fits. cbn [fst snd]. replace (1 + json_depth v - 1) with (json_depth v) by lia.
  by destruct (json_depth v <=? _MAX_JSON_DEPTH).
Qed.

(** ** Maintenance *)

(** The loop is not being stopped: no phase ends in a cancellation. *)
Definition undisturbed {W} (m : eff W unit) : Prop := forall w e, (m w).1 = Err e -> is_cancelled e = false.

Lemma phase_runs {W} phase (m : eff W unit) failed w : undisturbed m ->
  phase_run phase m failed w = (Ok (if is_ok (m w).1 then failed else failed ++ [phase]), (m w).2).
Proof.
  intros Hm. unfold phase_run, except_Exception, try_except, mbind, eff_bind. specialize (Hm w). destruct (m w) as [[?|e] ?]; [done|].
  by rewrite (Hm e eq_refl).
Qed.

(** Events are pruned whether or not an earlier phase failed, and items expire
    only after interrupted reviews were recovered. *)
Lemma sweep_round_isolated {W} (prune_sessions recover sweep prune_events : eff W unit) days human w : 0 < days ->
  undisturbed prune_sessions -> undisturbed recover -> undisturbed sweep -> undisturbed prune_events ->
  let w1 := if human : bool then (prune_sessions w).2 else w in
  let w2 := (recover w1).2 in
  let w3 := if is_ok (recover w1).1 then (sweep w2).2 else w2 in
  exists failed, sweep_round prune_sessions recover sweep prune_events days human w = (Ok failed, (prune_events w3).2) /\
    (EventRetention ∈ failed <-> is_ok (prune_events w3).1 = false).
Proof.
  intros Hd Hu1 Hu2 Hu3 Hu4. cbn zeta. unfold sweep_round. set (w1 := if human then (prune_sessions w).2 else w).
  assert (Hfirst : exists f1, (if human then phase_run SessionPrune prune_sessions [] else mret []) w = (Ok f1, w1) /\ EventRetention ∉ f1).
  { unfold w1. destruct human; [|exists []; split; [done|apply not_elem_of_nil]]. rewrite phase_runs by done. eexists. split; [reflexivity|].
    destruct (is_ok _); [apply not_elem_of_nil|]. by intros Hx%list_elem_of_singleton. }
  destruct Hfirst as (f1 & E1 & Hf1). rewrite (bind_ok _ _ _ _ _ E1).
  assert (Hsecond : exists f2, recovery_and_expiry recover sweep f1 w1 =
    (Ok f2, if is_ok (recover w1).1 then (sweep (recover w1).2).2 else (recover w1).2) /\ EventRetention ∉ f2).
  { unfold recovery_and_expiry. specialize (Hu2 w1). destruct (recover w1) as [[u|e] w2]; cbn [fst snd is_ok]; [rewrite phase_runs by done|rewrite (Hu2 e eq_refl)]; eexists; (split; [reflexivity|]);
      [destruct (is_ok _); [done|]|]; rewrite elem_of_app, list_elem_of_singleton; naive_solver. }
  destruct Hsecond as (f2 & E2 & Hf2). rewrite (bind_ok _ _ _ _ _ E2). clear E1 E2. set (w3 := if is_ok (recover w1).1 then (sweep (recover w1).2).2 else (recover w1).2).
  rewrite (proj2 (Z.ltb_lt _ _) Hd), phase_runs by done. eexists. split; [reflexivity|]. destruct (is_ok (prune_events w3).1); [naive_solver|].
  rewrite elem_of_app, list_elem_of_singleton. naive_solver.
Qed.

(** ** Witnesses *)

Module Example_app.
Import Example_envelope Example_put Example_flow.

(** The state counts failures; every protected operation would mark it. *)
Definition St : Type := nat * bool.
Definition mark {A} (a : A) : eff St A := fun s => (Ok a, (s.1, true)).
Definition count : eff St unit := fun s => (Ok (), (S s.1, s.2)).

Definition services : Services St :=
  mkServices St (fun _ => mark ()) (fun _ => mark ()) (fun _ _ _ => mark (mkSafetyResult [] []))
    (fun _ _ _ _ => mark (mkSafetyResult [] [])) (fun _ _ _ => mark (mkSafetyResult [] [])) (fun _ _ => mark [])
    (fun _ _ => mark (mkRecallResponse [] [])) (fun _ _ _ _ _ _ => mark JNull) (fun _ _ => mark None) (fun _ => mark [])
    (fun _ => mret ("q_1", "0")%string) (mret "2024-01-01T00:00:00.000Z"%string).
Definition admin_service : AdminService St :=
  mkAdminService St (fun _ _ _ => mark JNull) (mark JNull) (fun _ => mark JNull) (fun _ _ => mark JNull) (fun _ => mark JNull)
    (fun _ _ _ => mark JNull) (fun _ _ => mark JNull) (fun _ _ => mark JNull) (fun _ _ _ => mark JNull).
Definition rt : Runtime St :=
  mkRuntime St 1000 (Some "secret"%string) false true None None [("legacy", Some "admin-secret")]%string 10 10 1000 10 1000
    (fun _ => count) (fun _ => count) (fun _ => mark ()) (fun _ => mark ()) (fun _ _ m => m) admin_service None (mark unauthorized)
    (mark JNull) None.
Definition rq (path : string) : request := mkRequest "POST" path (Some "Bearer guess") None [] None ["{}"%string].
End Example_app.
Import Example_envelope Example_put Example_flow Example_app.

Lemma unauthenticated_harmless_witness :
  (app_dispatch services rt 0 default_limit_config [] (fun _ => None) (Example_app.rq "/v1/default/banks/team/memories") (0%nat, false)).2.2 = false.
Proof.
  refine (proj1 (unauthenticated_harmless services rt 0 default_limit_config [] (fun _ => None) (fun s => s.2 = false)
    (Example_app.rq "/v1/default/banks/team/memories") (0%nat, false) _ _ eq_refl eq_refl)).
  - split; intros; by intros s Hs.
  - split; [|vm_compute; reflexivity]. intros scope. unfold admin_authorized, _admin_slot_candidates.
    repeat case_decide; vm_compute; reflexivity.
Defined.

Lemma json_body_exact_witness :
  _json_body 10 (mkRequest "POST" "/" None None [] None ["{"; "}"]%string) false (Some 5) = Ok (RawJson (JDict [])).
Proof.
  rewrite (json_body_exact 10 (mkRequest "POST" "/" None None [] None ["{"; "}"]%string) false (Some 5)); [vm_compute; reflexivity|].
  vm_compute. discriminate.
Defined.
