(* ===== verification/Config.v ===== *)
(** * Configuration

    Models [memory_router/config.py]: the settings as a table of fields with
    their aliases, types, bounds and defaults, in the order the checks run;
    loading from the environment, checking again, the checks across fields, the
    writer registry, and the checks of the environment at startup with the
    warnings they log. The environment is a function, files are read by a
    parameter, and [httpx.URL] is the parameter [httpx_url]. *)

From Stdlib Require Import ZArith Lia Ascii.
From stdpp Require Import base sets strings numbers list.
From S2P Require Import Prelude Errors Text Json JsonParse Repository Envelope Dedupe Validation Paths Hindsight Urls KeyWrap Policy OpenClaw Dispatch.

Local Open Scope Z_scope.

(** ** Fields *)

Inductive value := VNone | VInt (n : Z) | VBool (b : bool) | VText (s : string) | VSecret (s : string).

#[export] Instance value_eq_dec : EqDecision value.
Proof. solve_decision. Defined.

Inductive field_kind :=
  | FInt (lo : Z) (hi : option Z)
  | FBool
  | FHost
  | FText
  | FOptText
  | FSecret
  | FSecretAny
  | FLiteral (options : list string).

Record field := mkField { f_alias : string; f_kind : field_kind; f_default : value }.

Definition DEFAULT_SIDECAR_TIMEOUT_MS : Z := 5000.
Definition DEFAULT_SIDECAR_NAME : string := "https-sidecar".
Definition DEFAULT_SIDECAR_WRAPPED_KEY_BYTES : Z := 512.

(** The fields of [RouterSettings]; a [FSecret] is one of the tokens whose
    length is checked. *)
Definition RouterSettings : list field :=
  [mkField "MEMORY_ROUTER_HOST" FHost (VText "127.0.0.1");
   mkField "MEMORY_ROUTER_PORT" (FInt 1 None) (VInt 8890);
   mkField "MEMORY_ROUTER_MAX_BODY_BYTES" (FInt 1 None) (VInt 1048576);
   mkField "MEMORY_ROUTER_TOKEN" FSecret VNone;
   mkField "MEMORY_ROUTER_ALLOW_ANONYMOUS" FBool (VBool false);
   mkField "MEMORY_ROUTER_ADMIN_TOKEN" FSecret VNone;
   mkField "MEMORY_ROUTER_ADMIN_READ_TOKEN" FSecret VNone;
   mkField "MEMORY_ROUTER_ADMIN_REVIEW_TOKEN" FSecret VNone;
   mkField "MEMORY_ROUTER_ADMIN_CLEANUP_TOKEN" FSecret VNone;
   mkField "MEMORY_ROUTER_ADMIN_RATE_LIMIT_READ_MAX" (FInt 1 None) (VInt 120);
   mkField "MEMORY_ROUTER_ADMIN_RATE_LIMIT_WRITE_MAX" (FInt 1 None) (VInt 30);
   mkField "MEMORY_ROUTER_ADMIN_RATE_LIMIT_WINDOW_MS" (FInt 1 None) (VInt 60000);
   mkField "MEMORY_ROUTER_AUTH_FAILURE_RATE_LIMIT_MAX" (FInt 1 None) (VInt 120);
   mkField "MEMORY_ROUTER_AUTH_FAILURE_RATE_LIMIT_WINDOW_MS" (FInt 1 None) (VInt 60000);
   mkField "MEMORY_ROUTER_REGISTRY" FOptText VNone;
   mkField "MEMORY_ROUTER_PRINCIPALS" FOptText VNone;
   mkField "MEMORY_ROUTER_HUMAN_AUTH" FOptText VNone;
   mkField "MEMORY_ROUTER_DEPLOYMENT_MODE" (FLiteral ["single"; "cluster"]) (VText "single");
   mkField "MEMORY_ROUTER_EXTERNAL_ADMIN_RATE_LIMIT" FBool (VBool false);
   mkField "MEMORY_ROUTER_METRICS_ENABLED" FBool (VBool false);
   mkField "QUARANTINE_DATABASE_URL" FText (VText "sqlite:./data/quarantine.db");
   mkField "QUARANTINE_PUBLIC_KEY" FText (VText "");
   mkField "QUARANTINE_MAX_ITEM_BYTES" (FInt 1 None) (VInt 1048576);
   mkField "QUARANTINE_MAX_PENDING_ITEMS" (FInt 0 None) (VInt 1000);
   mkField "QUARANTINE_MAX_PENDING_ITEMS_PER_WRITER" (FInt 0 None) (VInt 50);
   mkField "QUARANTINE_MAX_PENDING_ITEMS_PER_BANK" (FInt 0 None) (VInt 0);
   mkField "QUARANTINE_MAX_ENCRYPTED_BYTES" (FInt 0 None) (VInt 104857600);
   mkField "QUARANTINE_RATE_LIMIT_MAX" (FInt 0 None) (VInt 30);
   mkField "QUARANTINE_RATE_LIMIT_WINDOW_MS" (FInt 0 None) (VInt 60000);
   mkField "QUARANTINE_RATE_LIMIT_GLOBAL_MAX" (FInt 0 None) (VInt 300);
   mkField "QUARANTINE_DISTINCT_FAMILY_LIMIT_MAX" (FInt 0 None) (VInt 10);
   mkField "QUARANTINE_REQUARANTINE_OPS_MAX" (FInt 0 None) (VInt 1000);
   mkField "QUARANTINE_ITEM_TTL_DAYS" (FInt 0 None) (VInt 30);
   mkField "QUARANTINE_MAX_POSTPONES" (FInt 0 None) (VInt 3);
   mkField "QUARANTINE_SWEEP_INTERVAL_SECONDS" (FInt 0 None) (VInt 3600);
   mkField "QUARANTINE_EVENT_RETENTION_DAYS" (FInt 0 None) (VInt 90);
   mkField "QUARANTINE_EVENT_EXPORT_PATH" FText (VText "");
   mkField "QUARANTINE_WRAP_PROVIDER" (FLiteral ["rsa-oaep"; "https-sidecar"]) (VText "rsa-oaep");
   mkField "QUARANTINE_WRAP_SIDECAR_URL" FText (VText "");
   mkField "QUARANTINE_WRAP_SIDECAR_TOKEN" FSecretAny VNone;
   mkField "QUARANTINE_WRAP_SIDECAR_TIMEOUT_MS" (FInt 1 (Some MAX_SIDECAR_TIMEOUT_MS)) (VInt 5000);
   mkField "QUARANTINE_WRAP_SIDECAR_NAME" FText (VText "https-sidecar");
   mkField "QUARANTINE_WRAP_SIDECAR_VERSION" (FInt 1 None) (VInt 1);
   mkField "QUARANTINE_WRAP_SIDECAR_WRAPPED_KEY_BYTES" (FInt 1 None) (VInt 512);
   mkField "HINDSIGHT_BASE_URL" FText (VText "http://hindsight:8888");
   mkField "HINDSIGHT_API_KEY" FSecretAny VNone;
   mkField "HINDSIGHT_REQUIRE_SECURE_TRANSPORT" FBool (VBool false);
   mkField "HINDSIGHT_TIMEOUT_MS" (FInt 1 None) (VInt 10000);
   mkField "HINDSIGHT_MAX_RESPONSE_BYTES" (FInt 1 None) (VInt 4194304);
   mkField "HINDSIGHT_RETAIN_RATE_LIMIT_WRITER_MAX" (FInt 1 None) (VInt 30);
   mkField "HINDSIGHT_RETAIN_RATE_LIMIT_GLOBAL_MAX" (FInt 1 None) (VInt 300);
   mkField "HINDSIGHT_RECALL_RATE_LIMIT_WRITER_MAX" (FInt 1 None) (VInt 120);
   mkField "HINDSIGHT_RECALL_RATE_LIMIT_GLOBAL_MAX" (FInt 1 None) (VInt 1200);
   mkField "HINDSIGHT_RATE_LIMIT_WINDOW_MS" (FInt 1 None) (VInt 60000);
   mkField "HINDSIGHT_RETAIN_MAX_ITEMS" (FInt 1 None) (VInt 100);
   mkField "HINDSIGHT_RETAIN_MAX_CONTENT_BYTES" (FInt 1 None) (VInt 524288);
   mkField "HINDSIGHT_RECALL_MAX_QUERY_BYTES" (FInt 1 None) (VInt 32768);
   mkField "HINDSIGHT_RECALL_MAX_TOKENS" (FInt 1 None) (VInt 8192)].

(** ** One field *)

(** What is wrong with a value: too small, not one of the options, the message
    of a validator, or something else. *)
Inductive field_error := TooSmall (lo : Z) | NotAnOption | Detail (m : string) | Other.

Definition _exact_integer (raw : value) : Z + field_error :=
  match raw with
  | VInt n => inl n
  | VText s => match py_int s with Some n => inl n | None => inr (Detail "must be an integer") end
  | _ => inr (Detail "must be an integer")
  end.

Definition _exact_boolean (raw : value) : bool + field_error :=
  match raw with
  | VBool b => inl b
  | VText s => if bool_decide (s = "true"%string) then inl true else if bool_decide (s = "false"%string) then inl false
               else inr (Detail "must be true or false")
  | _ => inr (Detail "must be true or false")
  end.

Definition validate_token_length (s : string) : bool := negb ((0 <? code_points s) && (code_points s <? 32)).

Definition check_secret (raw : value) (long : bool) : value + field_error :=
  match raw with
  | VText s | VSecret s => if long && negb (validate_token_length s) then inr (Detail "must contain at least 32 characters") else inl (VSecret s)
  | VNone => inl VNone
  | _ => inr Other
  end.

(** The validation of a given value; an empty text asks three kinds of field for
    their default. *)
Definition check_value (f : field) (raw : value) : value + field_error :=
  let empty := bool_decide (raw = VText "") in
  match f_kind f with
  | FInt lo hi =>
      if empty then inl (f_default f)
      else match _exact_integer raw with
           | inl n => if n <? lo then inr (TooSmall lo)
                      else if match hi with Some h => h <? n | None => false end then inr Other else inl (VInt n)
           | inr e => inr e
           end
  | FBool => if empty then inl (f_default f) else match _exact_boolean raw with inl b => inl (VBool b) | inr e => inr e end
  | FHost => if empty then inl (f_default f) else match raw with VText s => inl (VText s) | _ => inr (Detail "must be a string") end
  | FText => match raw with VText s => inl (VText s) | _ => inr Other end
  | FOptText => match raw with VText s => inl (VText s) | VNone => inl VNone | _ => inr Other end
  | FSecret => check_secret raw true
  | FSecretAny => check_secret raw false
  | FLiteral options => match raw with VText s => if elem s options then inl (VText s) else inr NotAnOption | _ => inr NotAnOption end
  end.

(** [_settings_error_message] of the error of a field. *)
Definition _settings_error_message (alias : string) (e : field_error) : string :=
  match e with
  | TooSmall lo => (alias +:+ " must be >= " +:+ str_of_Z lo)%string
  | NotAnOption => if bool_decide (alias = "MEMORY_ROUTER_DEPLOYMENT_MODE"%string) then "MEMORY_ROUTER_DEPLOYMENT_MODE must be single or cluster"%string
                   else ("invalid " +:+ alias)%string
  | Detail m => (alias +:+ " " +:+ m)%string
  | Other => ("invalid " +:+ alias)%string
  end.

(** ** The settings *)

Abbreviation settings := (list (string * value)).

(** The fields in order, up to the first error. *)
Fixpoint check_fields (fields : list field) (source : string -> option value) : result settings :=
  match fields with
  | [] => Ok []
  | f :: rest =>
      match (match source (f_alias f) with Some raw => check_value f raw | None => inl (f_default f) end) with
      | inl v => s ← check_fields rest source; Ok ((f_alias f, v) :: s)
      | inr e => Err (ERuntimeError (_settings_error_message (f_alias f) e))
      end
  end.

Definition get_text (s : settings) (alias : string) : string := match dict_get alias s with Some (VText t) => t | _ => "" end.
Definition get_bool (s : settings) (alias : string) : bool := match dict_get alias s with Some (VBool b) => b | _ => false end.
Definition get_int (s : settings) (alias : string) : Z := match dict_get alias s with Some (VInt n) => n | _ => 0 end.
(** [secret_value], and whether it is a non-empty one. *)
Definition secret_value (s : settings) (alias : string) : option string := match dict_get alias s with Some (VSecret t) => Some t | _ => None end.
Definition has_secret (s : settings) (alias : string) : bool := truthy (secret_value s alias).
Definition has_text (s : settings) (alias : string) : bool := negb (bool_decide (get_text s alias = ""%string)).

(** [needle in s] *)
Definition contains_text (needle s : string) : bool :=
  existsb (fun i => starts_with needle (of_chars (drop i (chars s)))) (seq 0 (S (String.length s))).

(** [any(c.isspace() or ord(c) < 32 for c in s)]: the white space outside ASCII by
    its code points. *)
Definition unicode_spaces : list Z :=
  [133; 160; 5760; 8192; 8193; 8194; 8195; 8196; 8197; 8198; 8199; 8200; 8201; 8202; 8232; 8233; 8239; 8287; 12288].
Definition has_blank (s : string) : bool :=
  existsb (fun c => code_of c <=? 32) (chars s) || existsb (fun n => contains_text (of_chars (utf8_encode n)) s) unicode_spaces.

Section config.
Context `{UrlSyntax}.

Definition exn_message (e : exn) : string := match e with EValueError m | ERuntimeError m => m | _ => "" end.

Definition _validate_sidecar_settings (s : settings) : result unit :=
  if negb (has_text s "QUARANTINE_WRAP_SIDECAR_URL")
  then Err (EValueError "QUARANTINE_WRAP_SIDECAR_URL is required when QUARANTINE_WRAP_PROVIDER=https-sidecar")
  else match assert_sidecar_url (get_text s "QUARANTINE_WRAP_SIDECAR_URL") with
       | Err e => Err (EValueError (exn_message e))
       | Ok _ => if is_key_wrap_token (get_text s "QUARANTINE_WRAP_SIDECAR_NAME") then Ok ()
                 else Err (EValueError "QUARANTINE_WRAP_SIDECAR_NAME must match [A-Za-z0-9._-]{1,64}")
       end.

(** The settings of the sidecar that are not at their default. *)
Definition sidecar_overrides (s : settings) : list string :=
  let name := get_text s "QUARANTINE_WRAP_SIDECAR_NAME" in
  map fst (List.filter snd
    [("QUARANTINE_WRAP_SIDECAR_URL", has_text s "QUARANTINE_WRAP_SIDECAR_URL");
     ("QUARANTINE_WRAP_SIDECAR_TOKEN", has_secret s "QUARANTINE_WRAP_SIDECAR_TOKEN");
     ("QUARANTINE_WRAP_SIDECAR_TIMEOUT_MS", negb (get_int s "QUARANTINE_WRAP_SIDECAR_TIMEOUT_MS" =? DEFAULT_SIDECAR_TIMEOUT_MS));
     ("QUARANTINE_WRAP_SIDECAR_NAME", negb (bool_decide (name = DEFAULT_SIDECAR_NAME)) && negb (bool_decide (name = ""%string)));
     ("QUARANTINE_WRAP_SIDECAR_VERSION", negb (get_int s "QUARANTINE_WRAP_SIDECAR_VERSION" =? 1));
     ("QUARANTINE_WRAP_SIDECAR_WRAPPED_KEY_BYTES", negb (get_int s "QUARANTINE_WRAP_SIDECAR_WRAPPED_KEY_BYTES" =? DEFAULT_SIDECAR_WRAPPED_KEY_BYTES))]).

Definition validate_deployment (s : settings) : result unit :=
  let cluster := bool_decide (get_text s "MEMORY_ROUTER_DEPLOYMENT_MODE" = "cluster"%string) in
  let url := get_text s "QUARANTINE_DATABASE_URL" in
  if get_bool s "MEMORY_ROUTER_ALLOW_ANONYMOUS" && negb (is_loopback_host (Some (get_text s "MEMORY_ROUTER_HOST")))
  then Err (EValueError "MEMORY_ROUTER_ALLOW_ANONYMOUS=true requires a loopback MEMORY_ROUTER_HOST")
  else if cluster && negb (starts_with "postgres://" url || starts_with "postgresql://" url)
  then Err (EValueError "cluster deployment requires PostgreSQL quarantine storage")
  else if cluster && negb (get_bool s "MEMORY_ROUTER_EXTERNAL_ADMIN_RATE_LIMIT")
  then Err (EValueError "cluster deployment requires MEMORY_ROUTER_EXTERNAL_ADMIN_RATE_LIMIT=true")
  else if bool_decide (get_text s "QUARANTINE_WRAP_PROVIDER" = "https-sidecar"%string) then _validate_sidecar_settings s
  else match sidecar_overrides s with
       | injected :: _ => Err (EValueError (injected +:+ " requires QUARANTINE_WRAP_PROVIDER=https-sidecar")%string)
       | [] => Ok ()
       end.

Definition _validated_settings (source : string -> option value) : result settings :=
  s ← check_fields RouterSettings source;
  match validate_deployment s with
  | Ok _ => Ok s
  | Err e => Err (ERuntimeError (exn_message e))
  end.

Definition load_settings (env : string -> option string) (quarantine_database_url : option string) : result settings :=
  _validated_settings (fun alias =>
    if bool_decide (alias = "QUARANTINE_DATABASE_URL"%string) && bool_decide (is_Some quarantine_database_url)
    then VText <$> quarantine_database_url else VText <$> env alias).

Definition validate_settings (s : settings) : result settings := _validated_settings (fun alias => dict_get alias s).

(** ** The writer registry *)

Definition WRITER_ID_PATTERN (s : string) : bool := class_match (fun c => is_alnum c || elem (code_of c) [46; 95; 58; 45]) 1 128 s.

Definition DEFAULT_REGISTRY : list (string * WriterRule) := [("main"%string, mkWriterRule "application" "main" ["main"%string])].

Definition registry_text (v : option json) : option string :=
  match v with Some (JStr s) => if utf8_valid s && negb (bool_decide (s = ""%string)) then Some s else None | _ => None end.

Definition registry_texts (v : option json) : option (list string) :=
  match v with Some (JList l) => mapM (fun x => match x with JStr s => if utf8_valid s then Some s else None | _ => None end) l | _ => None end.

(** [WriterRule.model_validate]: the role is checked and not used. *)
Definition parse_writer `{UnicodeData} (v : json) : option WriterRule :=
  match v with
  | JDict d =>
      _ ← registry_text (dict_get "role" d);
      source ← registry_text (dict_get "source" d);
      write_bank ← registry_text (dict_get "write_bank" d);
      read_banks ← registry_texts (dict_get "read_banks" d);
      if forallb (fun bank => non_blank (JStr bank)) read_banks && non_blank (JStr write_bank) && elem write_bank read_banks
      then Some (mkWriterRule source write_bank read_banks) else None
  | _ => None
  end.

Definition parse_registry `{UnicodeData} (v : json) : option (list (string * WriterRule)) :=
  match v with
  | JDict d =>
      match dict_get "writers" d, dict_get "defaults" d with
      | Some (JDict ws), Some (JDict defaults) =>
          writers ← mapM (fun kv => if utf8_valid kv.1 then r ← parse_writer kv.2; Some (kv.1, r) else None) ws;
          if forallb (fun k => bool_decide (dict_get k defaults = Some (JStr "review_queue"))) ["unknown_writer_action"; "suspicious_content_action"]%string
          then Some writers else None
      | _, _ => None
      end
  | _ => None
  end.

(** [read] is [Path(path).read_text()]. *)
Definition load_registry `{UnicodeData} (read : string -> result string) (path : option string) : result (list (string * WriterRule)) :=
  if negb (truthy path) then Ok DEFAULT_REGISTRY
  else
    text ← read (default ""%string path);
    loaded ← match json_loads text with Some v => Ok v | None => Err (EValueError "JSONDecodeError") end;
    match parse_registry loaded with
    | None => Err (ERuntimeError "invalid writer registry")
    | Some writers =>
        if forallb (fun w => negb (elem w.1 ["."; ".."]%string) && WRITER_ID_PATTERN w.1) writers then Ok writers
        else Err (ERuntimeError "writer id must match [A-Za-z0-9._:-]{1,128} and cannot be . or ..")
    end.

(** ** The environment at startup *)

Definition _forbidden_quarantine_variable (name : string) : bool :=
  starts_with "QUARANTINE_PRIVATE_KEY" name
  || starts_with "QUARANTINE" name && contains_text "UNWRAP" name.

Definition assert_no_private_key_environment (names : list string) : result unit :=
  match List.find _forbidden_quarantine_variable names with
  | Some injected => Err (ERuntimeError (injected +:+ " must not be available to the memory-router process")%string)
  | None => Ok ()
  end.

Context (httpx_url : string -> bool).

(** The URL of the memory service, when it is acceptable. *)
Definition hindsight_url (base_url : string) : option split_url :=
  if negb (httpx_url base_url) then None
  else match urlsplit base_url with
       | None => None
       | Some u =>
           if elem (u_scheme u) ["http"; "https"]%string && bool_decide (is_Some (hostname u))
              && match url_port u with Some p => negb (bool_decide (p = Some 0)) | None => false end
              && negb (has_char "@" (u_netloc u)) && negb (has_blank base_url)
              && negb (has_char "?" base_url || has_char "#" base_url || has_char "\" base_url)
           then Some u else None
       end.

(** [_assert_hindsight_transport], with the warnings it logs. *)
Definition _assert_hindsight_transport (s : settings) : result (list string) :=
  match hindsight_url (get_text s "HINDSIGHT_BASE_URL") with
  | None => Err (ERuntimeError "HINDSIGHT_BASE_URL must be an absolute http(s) URL without credentials, query, or fragment")
  | Some u =>
      let plain := bool_decide (u_scheme u = "http"%string) in
      if plain && get_bool s "HINDSIGHT_REQUIRE_SECURE_TRANSPORT"
      then Err (ERuntimeError "HINDSIGHT_REQUIRE_SECURE_TRANSPORT=true requires an https HINDSIGHT_BASE_URL")
      else if plain && negb (is_private_upstream_host (hostname u))
      then Err (ERuntimeError "HINDSIGHT_BASE_URL must use https outside private networks and docker service names")
      else Ok (if plain && negb (is_loopback_host (hostname u)) then ["insecure-hindsight-transport"]%string else [])
  end.

Definition assert_auth_environment (s : settings) : result (list string) :=
  if has_text s "MEMORY_ROUTER_HUMAN_AUTH" && negb (has_text s "MEMORY_ROUTER_PRINCIPALS")
  then Err (ERuntimeError "MEMORY_ROUTER_HUMAN_AUTH requires MEMORY_ROUTER_PRINCIPALS")
  else
    transport ← _assert_hindsight_transport s;
    let principals := has_text s "MEMORY_ROUTER_PRINCIPALS" in
    let token := has_secret s "MEMORY_ROUTER_TOKEN" in
    let anonymous := get_bool s "MEMORY_ROUTER_ALLOW_ANONYMOUS" in
    if principals && token then Err (ERuntimeError "MEMORY_ROUTER_TOKEN must be unset when MEMORY_ROUTER_PRINCIPALS is configured")
    else if principals && anonymous
    then Err (ERuntimeError "MEMORY_ROUTER_ALLOW_ANONYMOUS must be false when MEMORY_ROUTER_PRINCIPALS is configured")
    else
      let missing := negb principals && negb token in
      let legacy := has_secret s "MEMORY_ROUTER_ADMIN_TOKEN" in
      let read := has_secret s "MEMORY_ROUTER_ADMIN_READ_TOKEN" in
      let review := has_secret s "MEMORY_ROUTER_ADMIN_REVIEW_TOKEN" in
      let cleanup := has_secret s "MEMORY_ROUTER_ADMIN_CLEANUP_TOKEN" in
      Ok (transport ++ map fst (List.filter snd
        [("anonymous-mode", missing && anonymous); ("router-token-missing", missing && negb anonymous); ("legacy-router-token", token);
         ("legacy-admin-token", legacy); ("admin-read-token-missing", negb legacy && negb (read || review));
         ("admin-review-token-missing", negb legacy && negb review); ("admin-cleanup-token-missing", negb legacy && negb cleanup)]%string)).
End config.

(** ** Configuration: theorems

    What settings that load have in common: every field is typed and within its
    bounds, the checks across fields hold, checking them again changes nothing,
    and a router that starts with them neither speaks plain HTTP outside private
    networks nor mixes ways to authenticate. *)

(** ** Fields *)

Definition value_ok (kind : field_kind) (v : value) : Prop :=
  match kind, v with
  | FInt lo hi, VInt n => lo <= n /\ (forall h, hi = Some h -> n <= h)
  | FBool, VBool _ => True
  | FHost, VText s => s <> ""%string
  | FText, VText _ => True
  | FOptText, VText _ | FOptText, VNone => True
  | FSecret, VSecret s => code_points s = 0 \/ 32 <= code_points s
  | FSecretAny, VSecret _ => True
  | FSecret, VNone | FSecretAny, VNone => True
  | FLiteral options, VText s => s ∈ options
  | _, _ => False
  end.

Lemma token_length_ok s : validate_token_length s = true <-> code_points s = 0 \/ 32 <= code_points s.
Proof.
  unfold validate_token_length. assert (0 <= code_points s) by (unfold code_points; lia).
  destruct (Z.ltb_spec 0 (code_points s)), (Z.ltb_spec (code_points s) 32); simpl; split; try done; lia.
Qed.

Lemma check_value_ok f raw v : value_ok (f_kind f) (f_default f) -> check_value f raw = inl v -> value_ok (f_kind f) v.
Proof.
  unfold check_value. intros Hd. destruct (f_kind f) as [lo hi| | | | | | |options] eqn:Ek; intros Hc.
  - case_bool_decide; [by injection Hc as <-|]. destruct (_exact_integer raw) as [n|]; [|done].
    destruct (Z.ltb_spec n lo); [done|]. destruct hi as [h|]; [destruct (Z.ltb_spec h n); [done|]|]; injection Hc as <-; simpl;
      (split; [lia|first [done|intros ? [= <-]; lia]]).
  - case_bool_decide; [by injection Hc as <-|]. destruct (_exact_boolean raw); [|done]. by injection Hc as <-.
  - case_bool_decide as He; [by injection Hc as <-|]. destruct raw; try done. injection Hc as <-. simpl. congruence.
  - destruct raw; try done. by injection Hc as <-.
  - destruct raw; try done; by injection Hc as <-.
  - unfold check_secret in Hc. simpl in Hc.
    destruct raw as [| | |s|s]; try done; [by injection Hc as <-| |];
      (destruct (validate_token_length s) eqn:Et; [|done]; injection Hc as <-; by apply token_length_ok).
  - unfold check_secret in Hc. simpl in Hc. destruct raw; try done; by injection Hc as <-.
  - destruct raw as [| | |s|]; try done. destruct (elem s options) eqn:Ee; [|done]. injection Hc as <-. by apply elem_true.
Qed.

(** A value that passed passes again, unchanged. *)
Lemma check_value_again f v : value_ok (f_kind f) v -> check_value f v = inl v.
Proof.
  unfold check_value. destruct (f_kind f) as [lo hi| | | | | | |options], v as [|n|b|s|s]; simpl; try done.
  - intros [Hlo Hhi]. destruct (Z.ltb_spec n lo); [lia|]. destruct hi as [h|]; [|done].
    destruct (Z.ltb_spec h n); [|done]. specialize (Hhi h eq_refl). lia.
  - intros Hs. rewrite bool_decide_false by congruence. done.
  - intros Hs. by rewrite (proj2 (token_length_ok s) Hs).
  - intros Hs. by rewrite (proj2 (elem_true s options) Hs).
Qed.

(** Every default fits its field. *)
Lemma defaults_ok : Forall (fun f => value_ok (f_kind f) (f_default f)) RouterSettings.
Proof.
  unfold RouterSettings. repeat apply List.Forall_cons; try apply List.Forall_nil; simpl; try done;
    try (split; [lia|intros h [= <-]; unfold MAX_SIDECAR_TIMEOUT_MS; lia]); try (split; [lia|done]); by (left || (right; left)).
Qed.

Lemma aliases_distinct : NoDup (map f_alias RouterSettings).
Proof. apply (bool_decide_unpack _). vm_compute. exact Logic.I. Qed.

(** ** All fields *)

Definition typed (f : field) (e : string * value) : Prop := e.1 = f_alias f /\ value_ok (f_kind f) e.2.

Lemma check_fields_typed fields source s :
  Forall (fun f => value_ok (f_kind f) (f_default f)) fields -> check_fields fields source = Ok s -> Forall2 typed fields s.
Proof.
  revert s. induction fields as [|f fields IH]; intros s Hd Hc; simpl in Hc; [injection Hc as <-; constructor|].
  apply Forall_cons in Hd as [Hf Hd].
  destruct (match source (f_alias f) with Some raw => check_value f raw | None => inl (f_default f) end) as [v|e] eqn:Ev; [|done].
  apply result_bind_ok in Hc as (s' & Hs & Hc). injection Hc as <-. constructor; [|by apply IH].
  split; [done|]. simpl. destruct (source (f_alias f)) as [raw|]; [by eapply check_value_ok|]. by injection Ev as <-.
Qed.

Lemma check_fields_again fields source s :
  Forall2 (fun f e => typed f e /\ source e.1 = Some e.2) fields s -> check_fields fields source = Ok s.
Proof.
  induction 1 as [|f [alias v] fields s [[Ha Hv] Hs] Hrest IH]; [done|]. simpl in *. subst alias. rewrite Hs.
  rewrite check_value_again by done. by rewrite IH.
Qed.

Lemma typed_keys fields s : Forall2 typed fields s -> map fst s = map f_alias fields.
Proof. induction 1 as [|f e fields s [Ha _] _ IH]; simpl; [done|]. by rewrite Ha, IH. Qed.

Lemma typed_lookup fields s f : Forall2 typed fields s -> NoDup (map f_alias fields) -> f ∈ fields ->
  exists v, dict_get (f_alias f) s = Some v /\ value_ok (f_kind f) v.
Proof.
  intros Ht Hnd Hf. pose proof (typed_keys _ _ Ht) as Hk. apply list_elem_of_lookup in Hf as [i Hi].
  destruct (Forall2_lookup_l _ _ _ _ _ Ht Hi) as ([alias v] & He & Ha & Hv). simpl in *. subst alias. exists v. split; [|done].
  apply dict_get_nodup; [by rewrite Hk|]. by eapply list_elem_of_lookup_2.
Qed.

Section config_props.
Context `{UrlSyntax}.

(** The checks across fields, as conditions. *)
Definition deployment_ok (s : settings) : Prop :=
  (get_bool s "MEMORY_ROUTER_ALLOW_ANONYMOUS" = true -> is_loopback_host (Some (get_text s "MEMORY_ROUTER_HOST")) = true)
  /\ (get_text s "MEMORY_ROUTER_DEPLOYMENT_MODE" = "cluster"%string ->
      (starts_with "postgres://" (get_text s "QUARANTINE_DATABASE_URL") = true \/ starts_with "postgresql://" (get_text s "QUARANTINE_DATABASE_URL") = true)
      /\ get_bool s "MEMORY_ROUTER_EXTERNAL_ADMIN_RATE_LIMIT" = true)
  /\ (if bool_decide (get_text s "QUARANTINE_WRAP_PROVIDER" = "https-sidecar"%string)
      then assert_sidecar_url (get_text s "QUARANTINE_WRAP_SIDECAR_URL") = Ok () /\ is_key_wrap_token (get_text s "QUARANTINE_WRAP_SIDECAR_NAME") = true
      else sidecar_overrides s = []).

Lemma validate_deployment_ok s : validate_deployment s = Ok () -> deployment_ok s.
Proof.
  unfold validate_deployment, deployment_ok. set (cluster := bool_decide (get_text s "MEMORY_ROUTER_DEPLOYMENT_MODE" = "cluster"%string)).
  destruct (get_bool s "MEMORY_ROUTER_ALLOW_ANONYMOUS" && _) eqn:E1; [done|].
  destruct (cluster && negb (_ || _)) eqn:E2; [done|]. destruct (cluster && negb (get_bool _ _)) eqn:E3; [done|]. intros Hrest. split_and!.
  - intros Ha. rewrite Ha in E1. by apply negb_false_iff in E1.
  - intros Hc. assert (Hcl : cluster = true) by (by apply bool_decide_eq_true). rewrite Hcl in E2, E3. simpl in E2, E3.
    apply negb_false_iff in E2, E3. by apply orb_true_iff in E2.
  - revert Hrest. destruct (bool_decide (get_text s "QUARANTINE_WRAP_PROVIDER" = _)).
    + unfold _validate_sidecar_settings. destruct (has_text s "QUARANTINE_WRAP_SIDECAR_URL"); cbn [negb]; [|done]. destruct (assert_sidecar_url _) as [[]|]; [|done].
      by destruct (is_key_wrap_token _).
    + by destruct (sidecar_overrides s).
Qed.

Lemma validated_again source s : _validated_settings source = Ok s -> validate_settings s = Ok s.
Proof.
  unfold validate_settings, _validated_settings. intros Hs. apply result_bind_ok in Hs as (s' & Hf & Hs).
  destruct (validate_deployment s') as [[]|] eqn:Ed; [|done]. injection Hs as ->.
  pose proof (check_fields_typed _ _ _ defaults_ok Hf) as Ht. pose proof (typed_keys _ _ Ht) as Hk.
  rewrite (check_fields_again RouterSettings _ s); [by simpl; rewrite Ed|].
  apply Forall2_same_length_lookup_2; [by apply Forall2_length in Ht|]. intros i f [alias v] Hi He.
  pose proof (Forall2_lookup_lr _ _ _ _ _ _ Ht Hi He) as Hty. split; [done|]. simpl.
  apply dict_get_nodup; [rewrite Hk; apply aliases_distinct|]. by eapply list_elem_of_lookup_2.
Qed.

Context (httpx_url : string -> bool).

(** What a started router may rely on. *)
Definition startup_safe (s : settings) (warnings : list string) : Prop :=
  (exists u, hindsight_url httpx_url (get_text s "HINDSIGHT_BASE_URL") = Some u
     /\ (u_scheme u = "https"%string
         \/ u_scheme u = "http"%string /\ get_bool s "HINDSIGHT_REQUIRE_SECURE_TRANSPORT" = false /\ is_private_upstream_host (hostname u) = true
            /\ (is_loopback_host (hostname u) = true \/ "insecure-hindsight-transport"%string ∈ warnings)))
  /\ (has_text s "MEMORY_ROUTER_PRINCIPALS" = true -> has_secret s "MEMORY_ROUTER_TOKEN" = false /\ get_bool s "MEMORY_ROUTER_ALLOW_ANONYMOUS" = false)
  /\ (has_text s "MEMORY_ROUTER_HUMAN_AUTH" = true -> has_text s "MEMORY_ROUTER_PRINCIPALS" = true)
  /\ (has_text s "MEMORY_ROUTER_PRINCIPALS" = false -> has_secret s "MEMORY_ROUTER_TOKEN" = false ->
      get_bool s "MEMORY_ROUTER_ALLOW_ANONYMOUS" = true -> "anonymous-mode"%string ∈ warnings).

Lemma hindsight_url_scheme url u : hindsight_url httpx_url url = Some u -> u_scheme u = "http"%string \/ u_scheme u = "https"%string.
Proof.
  unfold hindsight_url. destruct (negb _); [done|]. destruct (urlsplit url) as [u'|]; [|done]. destruct (_ && _) eqn:E; [|done].
  intros [= <-]. rewrite !andb_true_iff in E. destruct E as (((((E & _) & _) & _) & _) & _). apply elem_true in E. set_unfold in E. naive_solver.
Qed.

Lemma transport_ok s ws : _assert_hindsight_transport httpx_url s = Ok ws ->
  exists u, hindsight_url httpx_url (get_text s "HINDSIGHT_BASE_URL") = Some u
  /\ (u_scheme u = "https"%string
      \/ u_scheme u = "http"%string /\ get_bool s "HINDSIGHT_REQUIRE_SECURE_TRANSPORT" = false /\ is_private_upstream_host (hostname u) = true
         /\ (is_loopback_host (hostname u) = true \/ "insecure-hindsight-transport"%string ∈ ws)).
Proof.
  unfold _assert_hindsight_transport. destruct (hindsight_url _ _) as [u|] eqn:Eu; [|done]. intros Hs. exists u. split; [done|].
  destruct (hindsight_url_scheme _ _ Eu) as [Hp|Hp]; [right|by left]. rewrite Hp in *. rewrite bool_decide_eq_true_2 in Hs by done. simpl in Hs.
  destruct (get_bool s _); [done|]. destruct (is_private_upstream_host _); [|done]. split_and!; try done.
  destruct (is_loopback_host _); [by left|]. right. injection Hs as <-. by left.
Qed.

Lemma auth_environment_safe s ws : assert_auth_environment httpx_url s = Ok ws -> startup_safe s ws.
Proof.
  unfold assert_auth_environment. destruct (has_text s "MEMORY_ROUTER_HUMAN_AUTH" && _) eqn:E1; [done|]. intros Hs.
  apply result_bind_ok in Hs as (tw & Ht & Hs). cbv zeta in Hs.
  destruct (has_text s "MEMORY_ROUTER_PRINCIPALS" && has_secret s "MEMORY_ROUTER_TOKEN") eqn:E2; [done|].
  destruct (has_text s "MEMORY_ROUTER_PRINCIPALS" && get_bool s "MEMORY_ROUTER_ALLOW_ANONYMOUS") eqn:E3; [done|].
  injection Hs as <-. destruct (transport_ok s tw Ht) as (u & Hu & Hsec). split_and!.
  - exists u. split; [done|]. destruct Hsec as [?|(? & ? & ? & [?|?])]; [by left|right; split_and!; auto..]. right. apply elem_of_app. by left.
  - intros Hp. rewrite Hp in *. done.
  - intros Hh. rewrite Hh in E1. by apply negb_false_iff in E1.
  - intros Hp Hk Ha. apply elem_of_app. right. rewrite Hp, Hk, Ha. by left.
Qed.

(** Every field of loaded settings has a value of its type. *)
Lemma loaded_typed env url s f : load_settings env url = Ok s -> f ∈ RouterSettings -> exists v, dict_get (f_alias f) s = Some v /\ value_ok (f_kind f) v.
Proof.
  unfold load_settings, _validated_settings. intros Hs Hin. apply result_bind_ok in Hs as (s' & Hf & Hs). destruct (validate_deployment s') as [[]|]; [|done]. injection Hs as ->.
  eapply typed_lookup; [by eapply check_fields_typed, Hf; apply defaults_ok|apply aliases_distinct|done].
Qed.

(** Settings that load are consistent, and stay so. Every field has a value of
    its type within its bounds (a token is empty or at least 32 characters), with
    the default for what the environment leaves out; anonymous access is bound to
    a loopback host, a cluster to PostgreSQL and an external limit, the settings
    of the sidecar to the sidecar. Checking the loaded settings again accepts them
    unchanged. If the startup checks pass as well, the memory service is reached
    over HTTPS or in a private network, principals exclude the shared token and
    anonymous access, and anonymous access is announced. *)
Lemma settings_sound env url s :
  load_settings env url = Ok s ->
  (forall f, f ∈ RouterSettings -> exists v, dict_get (f_alias f) s = Some v /\ value_ok (f_kind f) v)
  /\ deployment_ok s /\ validate_settings s = Ok s
  /\ forall warnings, assert_auth_environment httpx_url s = Ok warnings -> startup_safe s warnings.
Proof.
  intros Hs. pose proof (fun f => loaded_typed _ _ _ f Hs) as Htyped. unfold load_settings in Hs. pose proof (validated_again _ _ Hs) as Hagain. unfold _validated_settings in Hs.
  apply result_bind_ok in Hs as (s' & Hf & Hs). destruct (validate_deployment s') as [[]|] eqn:Ed; [|done]. injection Hs as ->.
  split_and!.
  - exact Htyped.
  - by apply validate_deployment_ok.
  - done.
  - intros ws. apply auth_environment_safe.
Qed.
End config_props.

(** ** The writer registry *)

(** A loaded registry: every identifier is one plain path segment, and every
    writer reads the bank it writes, which is not blank. *)
Lemma load_writers_ok `{UnicodeData} read path writers w rule :
  load_registry read path = Ok writers -> truthy path = true -> (w, rule) ∈ writers ->
  WRITER_ID_PATTERN w = true /\ w <> "."%string /\ w <> ".."%string /\ wr_write_bank rule ∈ wr_read_banks rule
  /\ non_blank (JStr (wr_write_bank rule)) = true.
Proof.
  unfold load_registry. intros Hl Hp Hw. rewrite Hp in Hl. simpl in Hl. apply result_bind_ok in Hl as (text & _ & Hl).
  apply result_bind_ok in Hl as (v & _ & Hl). destruct (parse_registry v) as [ws|] eqn:Ev; [|done].
  destruct (forallb _ ws) eqn:Ef; [|done]. injection Hl as ->. rewrite List.forallb_forall in Ef.
  specialize (Ef (w, rule) (proj1 (list_elem_of_In _ _) Hw)). rewrite andb_true_iff, negb_true_iff, elem_false in Ef. simpl in Ef.
  destruct Ef as [Hdots Hpat]. split; [done|]. split; [set_solver|]. split; [set_solver|].
  unfold parse_registry in Ev. destruct v as [| | | | | |d]; try done. destruct (dict_get "writers" d) as [[| | | | | |entries]|]; try done.
  destruct (dict_get "defaults" d) as [[| | | | | |defaults]|]; try done.
  destruct (mapM _ entries) as [parsed|] eqn:Em; [|done]. cbn [mbind option_bind] in Ev. destruct (forallb _ _); [|done]. injection Ev as ->.
  apply mapM_Some in Em. apply list_elem_of_lookup in Hw as [i Hi].
  destruct (Forall2_lookup_r _ _ _ _ _ Em Hi) as ([k e] & _ & He). simpl in He. destruct (utf8_valid k); [|done].
  destruct (parse_writer e) as [r|] eqn:Er; [|done]. injection He as -> ->. unfold parse_writer in Er.
  destruct e as [| | | | | |fields]; try done. destruct (registry_text (dict_get "role" fields)); [|done].
  destruct (registry_text (dict_get "source" fields)) as [src|]; [|done].
  destruct (registry_text (dict_get "write_bank" fields)) as [wb|]; [|done].
  destruct (registry_texts (dict_get "read_banks" fields)) as [rbs|]; [|done]. cbn [mbind option_bind] in Er.
  destruct (_ && _ && _) eqn:Ec; [|done]. injection Er as <-. simpl. rewrite !andb_true_iff, elem_true in Ec. tauto.
Qed.

(** ** An environment *)

Module Example_config.
#[local] Instance plain_urls : UrlSyntax :=
  {| bracketed_ok := fun _ => false; netloc_ok := fun _ => false; unicode_lower := fun s => s; ipv6_flags := fun _ => None |}.

Definition env (alias : string) : option string :=
  dict_get alias
    [("MEMORY_ROUTER_PORT", " 9_000 "); ("MEMORY_ROUTER_TOKEN", "0123456789abcdef0123456789abcdef"); ("MEMORY_ROUTER_METRICS_ENABLED", "true");
     ("QUARANTINE_RATE_LIMIT_MAX", ""); ("QUARANTINE_WRAP_PROVIDER", "https-sidecar"); ("QUARANTINE_WRAP_SIDECAR_URL", "http://127.0.0.1:7000");
     ("HINDSIGHT_BASE_URL", "http://10.1.2.3:8888")]%string.

Definition loaded : settings := Eval vm_compute in match load_settings env None with Ok s => s | Err _ => [] end.

Lemma env_loads : load_settings env None = Ok loaded.
Proof. vm_compute. reflexivity. Qed.

Definition with_variable (k v : string) (alias : string) : option string := if bool_decide (alias = k) then Some v else env alias.
Definition failure (r : result settings) : string := match r with Err e => exn_message e | Ok _ => "" end.

(** The first error is reported. *)
Example refused_settings :
  map (fun kv => failure (load_settings (with_variable kv.1 kv.2) None))
    [("MEMORY_ROUTER_PORT", "0"); ("MEMORY_ROUTER_PORT", "x"); ("MEMORY_ROUTER_TOKEN", "short"); ("MEMORY_ROUTER_DEPLOYMENT_MODE", "both");
     ("QUARANTINE_WRAP_SIDECAR_URL", "http://10.0.0.1"); ("QUARANTINE_WRAP_PROVIDER", "rsa-oaep")]%string
  = ["MEMORY_ROUTER_PORT must be >= 1"; "MEMORY_ROUTER_PORT must be an integer"; "MEMORY_ROUTER_TOKEN must contain at least 32 characters";
     "MEMORY_ROUTER_DEPLOYMENT_MODE must be single or cluster"; "QUARANTINE_WRAP_SIDECAR_URL must use https (http allowed for loopback only)";
     "QUARANTINE_WRAP_SIDECAR_URL requires QUARANTINE_WRAP_PROVIDER=https-sidecar"]%string.
Proof. vm_compute. reflexivity. Qed.

Lemma env_starts : assert_auth_environment (fun _ => true) loaded =
  Ok ["insecure-hindsight-transport"; "legacy-router-token"; "admin-read-token-missing"; "admin-review-token-missing"; "admin-cleanup-token-missing"]%string.
Proof. vm_compute. reflexivity. Qed.

Lemma settings_sound_witness :
  load_settings env None = Ok loaded /\ get_int loaded "MEMORY_ROUTER_PORT" = 9000 /\ deployment_ok loaded /\ validate_settings loaded = Ok loaded
  /\ exists warnings, startup_safe (fun _ => true) loaded warnings.
Proof.
  split; [exact env_loads|]. split; [reflexivity|].
  destruct (settings_sound (fun _ => true) env None loaded env_loads) as (_ & Hd & Hv & Hs).
  split; [exact Hd|]. split; [exact Hv|]. eexists. exact (Hs _ env_starts).
Defined.
End Example_config.
