(* ===== verification/HumanAuthStore.v ===== *)
(** * The store of human logins and sessions

    Models [memory_router/human_auth_store.py]: the policy row with its
    activation epoch, pending logins and issued sessions. Every operation is a
    transaction at a time [now]; random identifiers and secrets are arguments.
    The grants column holds the grants (their JSON text is read back as they
    are); an insertion that repeats a primary key raises. *)

From Stdlib Require Import ZArith Lia Ascii.
From stdpp Require Import base sets strings numbers list.
From S2P Require Import Prelude Errors Text Sha256 Principals.

Local Open Scope Z_scope.

Definition _LOGIN_TTL_MS : Z := 300000.
Definition _SESSION_TTL_MS : Z := 3600000.
Definition MAX_LOGINS : Z := 1000.
Definition MAX_SESSIONS : Z := 10000.
Definition MAX_PERSONAL_SESSIONS : Z := 20.
Definition human_dummy_digest : string := sha256_hex "human-session:unknown".

Record login := mkLogin {
  lg_transaction_id : string; lg_generation : string; lg_activation_epoch : Z; lg_state : string; lg_challenge : string;
  lg_redirect_uri : string; lg_nonce : string; lg_expires_at_ms : Z
}.

Record session := mkSession {
  hs_key_id : string; hs_generation : string; hs_principal_id : string; hs_secret_digest : string;
  hs_grants : list PrincipalGrant; hs_expires_at_ms : Z; hs_revoked : bool
}.

(** The tables; the policy row is absent before [initialize]. *)
Record hdb := mkHdb { h_policy : option (string * Z); h_logins : list login; h_sessions : list session }.

Record LoginTransaction := mkLoginTransaction { lt_activation_epoch : Z; lt_redirect_uri : string; lt_nonce : string }.
Record IssuedSession := mkIssuedSession { is_token : string; is_key_id : string; is_expires_at : Z }.
Record StoredSession := mkStoredSession { ss_principal_id : string; ss_key_id : string; ss_grants : list PrincipalGrant }.

Definition _unavailable : exn := raise_http 503 "human_auth_policy_inactive" "human login policy is not active".
Definition _invalid_login : exn := raise_http 401 "human_login_required" "interactive login is required".
Definition _capacity : exn := EHttp (mkHttpError 429 "human_auth_capacity" "human login capacity exhausted" [("retry-after", "60")]).

Section store.
Context (generation : string).

(** A statement that inserts, refused when it repeats a key. *)
Definition insert_login (l : login) : eff hdb unit := fun d =>
  if existsb (fun r => bool_decide (lg_transaction_id r = lg_transaction_id l)) (h_logins d)
  then (Err (EDatabase "UNIQUE constraint failed"), d)
  else (Ok (), mkHdb (h_policy d) (h_logins d ++ [l]) (h_sessions d)).

Definition insert_session (s : session) : eff hdb unit := fun d =>
  if existsb (fun r => bool_decide (hs_key_id r = hs_key_id s)) (h_sessions d)
  then (Err (EDatabase "UNIQUE constraint failed"), d)
  else (Ok (), mkHdb (h_policy d) (h_logins d) (h_sessions d ++ [s])).

Definition delete_logins (p : login -> bool) : eff hdb unit :=
  modify (fun d => mkHdb (h_policy d) (delete_where p (h_logins d)) (h_sessions d)).

Definition revoke_row (s : session) : session :=
  mkSession (hs_key_id s) (hs_generation s) (hs_principal_id s) (hs_secret_digest s) (hs_grants s) (hs_expires_at_ms s) true.

Definition revoke_where (p : session -> bool) : eff hdb unit :=
  modify (fun d => mkHdb (h_policy d) (h_logins d) (update_where p revoke_row (h_sessions d))).

Definition _require_generation : eff hdb Z :=
  d ← get_state;
  match h_policy d with
  | Some (g, epoch) => if bool_decide (g = generation) then mret epoch else raise _unavailable
  | None => raise _unavailable
  end.

Definition require_generation : eff hdb Z := transaction _require_generation.

Definition initialize (check_generation : bool) : eff hdb unit := transaction (
  _ ← modify (fun d => mkHdb (Some (default (generation, 1) (h_policy d))) (h_logins d) (h_sessions d));
  if check_generation then _ ← _require_generation; mret () else mret ()).

Definition _prune (now : Z) : eff hdb unit :=
  modify (fun d => mkHdb (h_policy d) (delete_where (fun l => lg_expires_at_ms l <=? now) (h_logins d))
                     (delete_where (fun s => hs_expires_at_ms s <=? now) (h_sessions d))).

Definition prune (now : Z) : eff hdb unit := transaction (_prune now).

Definition activate (now : Z) : eff hdb unit := transaction (
  _ ← modify (fun d => mkHdb ((fun ge => (generation, ge.2 + 1)) <$> h_policy d) (h_logins d) (h_sessions d));
  _ ← delete_logins (fun _ => true);
  _ ← revoke_where (fun _ => true);
  _prune now).

Definition _require_session_capacity (now : Z) : eff hdb unit :=
  d ← get_state;
  lift (ensure (count_where (fun s => now <? hs_expires_at_ms s) (h_sessions d) <? MAX_SESSIONS) _capacity).

(** [transaction_id] is [secrets.token_urlsafe(32)]. *)
Definition create_login (transaction_id state challenge redirect_uri nonce : string) (now : Z) : eff hdb string := transaction (
  activation_epoch ← _require_generation;
  _ ← _prune now;
  _ ← _require_session_capacity now;
  d ← get_state;
  _ ← lift (ensure (Z.of_nat (length (h_logins d)) <? MAX_LOGINS) _capacity);
  _ ← insert_login (mkLogin transaction_id generation activation_epoch state challenge redirect_uri nonce (now + _LOGIN_TTL_MS));
  mret transaction_id).

(** [compare_digest] of two texts. *)
Definition digest_equal (a b : string) : bool := bool_decide (a = b).

Definition claim_login (transaction_id state challenge : string) (now : Z) : eff hdb LoginTransaction := transaction (
  activation_epoch ← _require_generation;
  _ ← _require_session_capacity now;
  d ← get_state;
  match fetchone (fun l => bool_decide (lg_transaction_id l = transaction_id) && bool_decide (lg_generation l = generation)
                           && (lg_activation_epoch l =? activation_epoch) && (now <? lg_expires_at_ms l)) (h_logins d) with
  | None => raise _invalid_login
  | Some row =>
      if negb (digest_equal (lg_state row) state && digest_equal (lg_challenge row) challenge) then raise _invalid_login
      else
        _ ← delete_logins (fun l => bool_decide (lg_transaction_id l = transaction_id));
        mret (mkLoginTransaction activation_epoch (lg_redirect_uri row) (lg_nonce row))
  end).

Definition cancel_login (transaction_id : string) : eff hdb unit := transaction (
  delete_logins (fun l => bool_decide (lg_transaction_id l = transaction_id) && bool_decide (lg_generation l = generation))).

(** [key_id] and [secret] are [secrets.token_hex(16)] and [token_hex(32)]. *)
Definition issue (key_id secret : string) (activation_epoch : Z) (principal_id : string) (grants : list PrincipalGrant) (now : Z)
    : eff hdb IssuedSession := transaction (
  epoch ← _require_generation;
  _ ← lift (ensure (epoch =? activation_epoch) _invalid_login);
  _ ← _prune now;
  d ← get_state;
  let total := Z.of_nat (length (h_sessions d)) in
  let personal := count_where (fun s => bool_decide (hs_principal_id s = principal_id)) (h_sessions d) in
  _ ← lift (ensure (negb ((MAX_SESSIONS <=? total) || (MAX_PERSONAL_SESSIONS <=? personal))) _capacity);
  let expires_at_ms := now + _SESSION_TTL_MS in
  _ ← insert_session (mkSession key_id generation principal_id (sha256_hex secret) grants expires_at_ms false);
  mret (mkIssuedSession ("mrh_" +:+ key_id +:+ "_" +:+ secret)%string key_id (expires_at_ms / 1000))).

Definition store_authenticate (key_id secret : string) (now : Z) : eff hdb (option StoredSession) := transaction (
  let digest := sha256_hex secret in
  _ ← _require_generation;
  d ← get_state;
  let row := fetchone (fun s => bool_decide (hs_key_id s = key_id) && bool_decide (hs_generation s = generation)
                                && (now <? hs_expires_at_ms s) && negb (hs_revoked s)) (h_sessions d) in
  let expected := match row with Some r => hs_secret_digest r | None => human_dummy_digest end in
  match row with
  | Some r => if digest_equal digest expected then mret (Some (mkStoredSession (hs_principal_id r) (hs_key_id r) (hs_grants r))) else mret None
  | None => mret None
  end).

Definition revoke (key_id : string) : eff hdb unit := transaction (revoke_where (fun s => bool_decide (hs_key_id s = key_id))).
End store.

(** ** Human logins and sessions: theorems

    The operations that change the tables as the steps of a transition system,
    any number of stores (one per policy generation) taking steps on the same
    tables in any order. Capacity and keys are an invariant of every reachable
    state; a session lives exactly from its issue to its expiry, its
    revocation or the next activation; a login is claimed at most once. *)

(** ** Steps *)

Inductive hop :=
  | HInitialize (check_generation : bool)
  | HActivate (now : Z)
  | HCreate (transaction_id state challenge redirect_uri nonce : string) (now : Z)
  | HClaim (transaction_id state challenge : string) (now : Z)
  | HCancel (transaction_id : string)
  | HIssue (key_id secret : string) (activation_epoch : Z) (principal_id : string) (grants : list PrincipalGrant) (now : Z)
  | HRevoke (key_id : string)
  | HPrune (now : Z).

(** The tables after the store of a generation has run an operation. *)
Definition hexec (g : string) (op : hop) (d : hdb) : hdb :=
  match op with
  | HInitialize check => (initialize g check d).2
  | HActivate now => (activate g now d).2
  | HCreate t s c u n now => (create_login g t s c u n now d).2
  | HClaim t s c now => (claim_login g t s c now d).2
  | HCancel t => (cancel_login g t d).2
  | HIssue k s e p gr now => (issue g k s e p gr now d).2
  | HRevoke k => (revoke k d).2
  | HPrune now => (prune now d).2
  end.

Definition hexecs (ops : list (string * hop)) (d : hdb) : hdb := fold_left (fun d go => hexec go.1 go.2 d) ops d.

Definition empty_hdb : hdb := mkHdb None [] [].

(** The time an operation reads off the clock, if it does. *)
Definition hop_time (op : hop) : option Z :=
  match op with
  | HActivate now | HCreate _ _ _ _ _ now | HClaim _ _ _ now | HIssue _ _ _ _ _ now | HPrune now => Some now
  | _ => None
  end.

Definition live (now : Z) (l : list session) : list session := delete_where (fun s => hs_expires_at_ms s <=? now) l.
Definition pending (now : Z) (l : list login) : list login := delete_where (fun l => lg_expires_at_ms l <=? now) l.

(** ** What each operation does to the tables *)

Lemma transaction_snd {S A} (m : eff S A) s : (transaction m s).2 = match m s with (Ok _, s') => s' | (Err _, _) => s end.
Proof. unfold transaction. by destruct (m s) as [[?|?] ?]. Qed.

Lemma require_generation_run g d :
  _require_generation g d =
  (match h_policy d with Some (g', e) => if bool_decide (g' = g) then Ok e else Err _unavailable | None => Err _unavailable end, d).
Proof.
  unfold _require_generation, mbind, eff_bind, get_state. destruct (h_policy d) as [[g' e]|]; [|done].
  by destruct (bool_decide (g' = g)).
Qed.

Lemma require_generation_ok g d e d' : _require_generation g d = (Ok e, d') -> h_policy d = Some (g, e) /\ d' = d.
Proof. rewrite require_generation_run. intros H. cases_in H. split_bool. by subst. Qed.

Lemma existsb_key_false {R K} `{EqDecision K} (key : R -> K) k t :
  existsb (fun r => bool_decide (key r = k)) t = false -> forall x, x ∈ t -> key x <> k.
Proof.
  intros H x Hx Hk. assert (Ht : existsb (fun r => bool_decide (key r = k)) t = true); [|congruence].
  apply List.existsb_exists. exists x. split; [by apply list_elem_of_In|]. by apply bool_decide_eq_true.
Qed.

Lemma insert_login_ok l d u d' :
  insert_login l d = (Ok u, d') ->
  (forall x, x ∈ h_logins d -> lg_transaction_id x <> lg_transaction_id l) /\ d' = mkHdb (h_policy d) (h_logins d ++ [l]) (h_sessions d).
Proof.
  unfold insert_login. destruct (existsb _ _) eqn:E; [done|]. intros [= _ <-]. split; [|done]. by apply existsb_key_false.
Qed.

Lemma insert_session_ok s d u d' :
  insert_session s d = (Ok u, d') ->
  (forall x, x ∈ h_sessions d -> hs_key_id x <> hs_key_id s) /\ d' = mkHdb (h_policy d) (h_logins d) (h_sessions d ++ [s]).
Proof.
  unfold insert_session. destruct (existsb _ _) eqn:E; [done|]. intros [= _ <-]. split; [|done]. by apply existsb_key_false.
Qed.

Lemma initialize_run g check d :
  hexec g (HInitialize check) d = d \/ hexec g (HInitialize check) d = mkHdb (Some (default (g, 1) (h_policy d))) (h_logins d) (h_sessions d).
Proof.
  simpl. unfold initialize. rewrite transaction_snd. unfold mbind, eff_bind, modify. destruct check; [|by right].
  rewrite require_generation_run. simpl. destruct (default (g, 1) (h_policy d)) as [g1 e1]. destruct (bool_decide (g1 = g)); [by right|by left].
Qed.

Lemma create_login_ok g t s c u n now d r d' :
  create_login g t s c u n now d = (Ok r, d') ->
  exists e, h_policy d = Some (g, e) /\ Z.of_nat (length (pending now (h_logins d))) < MAX_LOGINS
    /\ (forall l, l ∈ pending now (h_logins d) -> lg_transaction_id l <> t)
    /\ r = t /\ d' = mkHdb (h_policy d) (pending now (h_logins d) ++ [mkLogin t g e s c u n (now + _LOGIN_TTL_MS)]) (live now (h_sessions d)).
Proof.
  unfold create_login, _prune, _require_session_capacity. intros H. eff_inv. apply require_generation_ok in H0 as [Hp ->].
  apply insert_login_ok in H5 as [Hf ->]. apply Z.ltb_lt in H4. by exists r0.
Qed.

Lemma claim_login_ok g t s c now d tx d' :
  claim_login g t s c now d = (Ok tx, d') ->
  exists row, row ∈ h_logins d /\ h_policy d = Some (g, lg_activation_epoch row) /\ lg_transaction_id row = t /\ lg_generation row = g
    /\ lg_state row = s /\ lg_challenge row = c /\ now < lg_expires_at_ms row
    /\ tx = mkLoginTransaction (lg_activation_epoch row) (lg_redirect_uri row) (lg_nonce row)
    /\ d' = mkHdb (h_policy d) (delete_where (fun l => bool_decide (lg_transaction_id l = t)) (h_logins d)) (h_sessions d).
Proof.
  unfold claim_login, _require_session_capacity, delete_logins, digest_equal. intros H. eff_inv.
  apply require_generation_ok in H0 as [Hp ->]. destruct (fetchone _ _) as [row|] eqn:Hf; [|done].
  apply fetchone_Some in Hf as [Hin Hrow]. rewrite !andb_true_iff, !bool_decide_eq_true, Z.eqb_eq, Z.ltb_lt in Hrow.
  destruct Hrow as (((Ht & Hg) & He) & Hx). destruct (negb _) eqn:Hd in H; [done|].
  apply negb_false_iff, andb_true_iff in Hd as [Hs Hc]. apply bool_decide_eq_true in Hs, Hc.
  eff_inv. exists row. by split_and!.
Qed.

Lemma issue_ok g k sec e p gr now d r d' :
  issue g k sec e p gr now d = (Ok r, d') ->
  h_policy d = Some (g, e) /\ Z.of_nat (length (live now (h_sessions d))) < MAX_SESSIONS
  /\ count_where (fun s => bool_decide (hs_principal_id s = p)) (live now (h_sessions d)) < MAX_PERSONAL_SESSIONS
  /\ (forall s, s ∈ live now (h_sessions d) -> hs_key_id s <> k)
  /\ r = mkIssuedSession ("mrh_" +:+ k +:+ "_" +:+ sec)%string k ((now + _SESSION_TTL_MS) / 1000)
  /\ d' = mkHdb (h_policy d) (pending now (h_logins d))
             (live now (h_sessions d) ++ [mkSession k g p (sha256_hex sec) gr (now + _SESSION_TTL_MS) false]).
Proof.
  unfold issue, _prune. intros H. eff_inv. apply require_generation_ok in H0 as [Hp ->].
  apply Z.eqb_eq in H1 as ->. apply negb_true_iff, orb_false_iff in H4 as [H4 H4']. apply Z.leb_gt in H4, H4'.
  apply insert_session_ok in H5 as [Hf ->]. by split_and!.
Qed.

(** The steps in normal form: an operation that raises changes nothing. *)
Inductive hchange (g : string) : hop -> hdb -> hdb -> Prop :=
  | ch_initialize check d :
      hchange g (HInitialize check) d (mkHdb (Some (default (g, 1) (h_policy d))) (h_logins d) (h_sessions d))
  | ch_initialize_err check d : hchange g (HInitialize check) d d
  | ch_activate now d :
      hchange g (HActivate now) d (mkHdb ((fun ge => (g, ge.2 + 1)) <$> h_policy d)
        (pending now (delete_where (fun _ => true) (h_logins d))) (live now (update_where (fun _ => true) revoke_row (h_sessions d))))
  | ch_create t s c u n now e d :
      h_policy d = Some (g, e) -> Z.of_nat (length (pending now (h_logins d))) < MAX_LOGINS ->
      (forall l, l ∈ pending now (h_logins d) -> lg_transaction_id l <> t) ->
      hchange g (HCreate t s c u n now) d
        (mkHdb (h_policy d) (pending now (h_logins d) ++ [mkLogin t g e s c u n (now + _LOGIN_TTL_MS)]) (live now (h_sessions d)))
  | ch_create_err t s c u n now d : hchange g (HCreate t s c u n now) d d
  | ch_claim t s c now d :
      hchange g (HClaim t s c now) d
        (mkHdb (h_policy d) (delete_where (fun l => bool_decide (lg_transaction_id l = t)) (h_logins d)) (h_sessions d))
  | ch_claim_err t s c now d : hchange g (HClaim t s c now) d d
  | ch_cancel t d :
      hchange g (HCancel t) d
        (mkHdb (h_policy d) (delete_where (fun l => bool_decide (lg_transaction_id l = t) && bool_decide (lg_generation l = g)) (h_logins d))
           (h_sessions d))
  | ch_issue k sec e p gr now d :
      Z.of_nat (length (live now (h_sessions d))) < MAX_SESSIONS ->
      count_where (fun s => bool_decide (hs_principal_id s = p)) (live now (h_sessions d)) < MAX_PERSONAL_SESSIONS ->
      (forall s, s ∈ live now (h_sessions d) -> hs_key_id s <> k) ->
      hchange g (HIssue k sec e p gr now) d
        (mkHdb (h_policy d) (pending now (h_logins d))
           (live now (h_sessions d) ++ [mkSession k g p (sha256_hex sec) gr (now + _SESSION_TTL_MS) false]))
  | ch_issue_err k sec e p gr now d : hchange g (HIssue k sec e p gr now) d d
  | ch_revoke k d :
      hchange g (HRevoke k) d
        (mkHdb (h_policy d) (h_logins d) (update_where (fun s => bool_decide (hs_key_id s = k)) revoke_row (h_sessions d)))
  | ch_prune now d : hchange g (HPrune now) d (mkHdb (h_policy d) (pending now (h_logins d)) (live now (h_sessions d))).

Lemma transaction_err_snd {S A} (m : eff S A) s e s' : transaction m s = (Err e, s') -> s' = s.
Proof. intros H. by apply transaction_err in H as [-> _]. Qed.

Lemma hexec_change g op d : hchange g op d (hexec g op d).
Proof.
  destruct op as [check|now|t s c u n now|t s c now|t|k sec e p gr now|k|now]; simpl; try constructor.
  - destruct (initialize_run g check d) as [E|E]; simpl in E; rewrite E; constructor.
  - destruct (create_login _ _ _ _ _ _ _ _) as [[r|x] d'] eqn:E.
    + apply create_login_ok in E as (e & Hp & Hl & Hf & -> & ->). by apply ch_create.
    + apply transaction_err_snd in E as ->. constructor.
  - destruct (claim_login _ _ _ _ _ _) as [[r|x] d'] eqn:E.
    + apply claim_login_ok in E as (row & _ & _ & _ & _ & _ & _ & _ & _ & ->). constructor.
    + apply transaction_err_snd in E as ->. constructor.
  - destruct (issue _ _ _ _ _ _ _ _) as [[r|x] d'] eqn:E.
    + apply issue_ok in E as (_ & Ht & Hp & Hf & _ & ->). by constructor.
    + apply transaction_err_snd in E as ->. constructor.
Qed.

(** ** The capacity invariant *)

Record hinv (d : hdb) : Prop := mkHinv {
  hi_logins : Z.of_nat (length (h_logins d)) <= MAX_LOGINS;
  hi_sessions : Z.of_nat (length (h_sessions d)) <= MAX_SESSIONS;
  hi_personal p : count_where (fun s => bool_decide (hs_principal_id s = p)) (h_sessions d) <= MAX_PERSONAL_SESSIONS;
  hi_login_keys : keys_unique lg_transaction_id (h_logins d);
  hi_session_keys : keys_unique hs_key_id (h_sessions d)
}.

Lemma delete_where_shorter {R} (p : R -> bool) t : (length (delete_where p t) <= length t)%nat.
Proof. apply List.filter_length_le. Qed.

Definition logins_ok (l : list login) : Prop := Z.of_nat (length l) <= MAX_LOGINS /\ keys_unique lg_transaction_id l.
Definition sessions_ok (l : list session) : Prop :=
  Z.of_nat (length l) <= MAX_SESSIONS /\ keys_unique hs_key_id l
  /\ forall p, count_where (fun s => bool_decide (hs_principal_id s = p)) l <= MAX_PERSONAL_SESSIONS.

Lemma hinv_split d : hinv d <-> logins_ok (h_logins d) /\ sessions_ok (h_sessions d).
Proof.
  split; [by intros []|]. intros ([? ?] & ? & ? & ?). by constructor.
Qed.

Lemma logins_ok_delete p l : logins_ok l -> logins_ok (delete_where p l).
Proof. intros [Hl Hk]. pose proof (delete_where_shorter p l). split; [lia|auto with table]. Qed.

Lemma sessions_ok_delete p l : sessions_ok l -> sessions_ok (delete_where p l).
Proof.
  intros (Hl & Hk & Hp). pose proof (delete_where_shorter p l). split_and!; [lia|auto with table|].
  intros q. etrans; [apply count_where_delete_le|done].
Qed.

Lemma count_where_update p q (f : session -> session) l :
  (forall s, q (f s) = q s) -> count_where q (update_where p f l) = count_where q l.
Proof.
  intros Hf. induction l as [|s l IH]; [done|]. unfold update_where in *. simpl. rewrite !count_where_cons, IH.
  destruct (p s); by rewrite ?Hf.
Qed.

Lemma sessions_ok_revoke p l : sessions_ok l -> sessions_ok (update_where p revoke_row l).
Proof.
  intros (Hl & Hk & Hp). split_and!.
  - unfold update_where. by rewrite length_map.
  - by apply keys_unique_update.
  - intros q. by rewrite count_where_update.
Qed.

Lemma logins_ok_snoc l x :
  Z.of_nat (length l) < MAX_LOGINS -> (forall y, y ∈ l -> lg_transaction_id y <> lg_transaction_id x) -> logins_ok l -> logins_ok (l ++ [x]).
Proof. intros Hc Hf [_ Hk]. split; [rewrite length_app; simpl; lia|auto with table]. Qed.

Lemma sessions_ok_snoc l x :
  Z.of_nat (length l) < MAX_SESSIONS ->
  count_where (fun s => bool_decide (hs_principal_id s = hs_principal_id x)) l < MAX_PERSONAL_SESSIONS ->
  (forall y, y ∈ l -> hs_key_id y <> hs_key_id x) -> sessions_ok l -> sessions_ok (l ++ [x]).
Proof.
  intros Hc Hq Hf (_ & Hk & Hp). split_and!; [rewrite length_app; simpl; lia|auto with table|].
  intros p. rewrite count_where_app, count_where_cons. change (count_where _ []) with 0. specialize (Hp p).
  case_bool_decide as Hx; [subst p; lia|lia].
Qed.

Create HintDb human.
#[export] Hint Resolve logins_ok_delete sessions_ok_delete sessions_ok_revoke logins_ok_snoc sessions_ok_snoc : human.

Lemma hexec_inv g op d : hinv d -> hinv (hexec g op d).
Proof.
  rewrite !hinv_split. intros [Hl Hs]. destruct (hexec_change g op d); unfold pending, live in *; simpl; auto 7 with human.
Qed.

(** In every state the stores reach from empty tables, in any order of
    their operations and whatever the clock reads, at most 1000 logins are
    pending, at most 10000 sessions are kept, at most 20 of one principal, and
    no transaction or key identifier is stored twice. *)
Lemma human_capacity (ops : list (string * hop)) : hinv (hexecs ops empty_hdb).
Proof.
  unfold hexecs. assert (H0 : hinv empty_hdb).
  { constructor; simpl; try apply NoDup_nil_2; unfold MAX_LOGINS, MAX_SESSIONS, MAX_PERSONAL_SESSIONS; try lia.
    intros p. change (count_where _ []) with 0. lia. }
  revert H0. generalize empty_hdb. induction ops as [|[g op] ops IH]; intros d Hd; simpl; [done|].
  by apply IH, hexec_inv.
Qed.

(** ** The life of a session *)

Definition issues (k : string) (op : hop) : bool := match op with HIssue k' _ _ _ _ _ => bool_decide (k' = k) | _ => false end.
Definition revokes (k : string) (op : hop) : bool := match op with HActivate _ => true | HRevoke k' => bool_decide (k' = k) | _ => false end.

(** The clock read by the operation is at or before [now]. *)
Definition by_time (now : Z) (op : hop) : bool := match hop_time op with Some t => t <=? now | None => true end.

Definition with_revoked (s : session) (b : bool) : session :=
  mkSession (hs_key_id s) (hs_generation s) (hs_principal_id s) (hs_secret_digest s) (hs_grants s) (hs_expires_at_ms s) b.

(** [row], with the flag [b], is the only row of its key, and it is there
    unless it has expired by [now]. *)
Definition tracked (row : session) (now : Z) (b : bool) (l : list session) : Prop :=
  (forall s, s ∈ l -> hs_key_id s = hs_key_id row -> s = with_revoked row b)
  /\ (with_revoked row b ∈ l \/ hs_expires_at_ms row <= now).

Lemma tracked_live row now b t l : t <= now -> tracked row now b l -> tracked row now b (live t l).
Proof.
  intros Ht [Hu Hin]. split.
  - intros s Hs. apply Hu. by apply delete_where_elem in Hs as [? _].
  - destruct Hin as [Hin|Hx]; [|by right]. destruct (decide (hs_expires_at_ms row <= now)); [by right|left].
    apply delete_where_elem. split; [done|]. simpl. apply Z.leb_gt. lia.
Qed.

Lemma tracked_snoc row now b x l : hs_key_id x <> hs_key_id row -> tracked row now b l -> tracked row now b (l ++ [x]).
Proof.
  intros Hx [Hu Hin]. split.
  - intros s [Hs|Hs%list_elem_of_singleton]%elem_of_app Hk; [by apply Hu|congruence].
  - destruct Hin; [left|by right]. apply elem_of_app. by left.
Qed.

Lemma tracked_revoke row now b (p : session -> bool) l :
  (forall s s', hs_key_id s = hs_key_id s' -> p s = p s') ->
  tracked row now b l -> tracked row now (b || p row) (update_where p revoke_row l).
Proof.
  intros Hp [Hu Hin].
  assert (E : (if p (with_revoked row b) then revoke_row (with_revoked row b) else with_revoked row b) = with_revoked row (b || p row)).
  { rewrite (Hp _ row) by done. by destruct (p row), b. }
  split.
  - intros s (s' & Hs' & ->)%update_where_elem Hk.
    assert (Hk' : hs_key_id s' = hs_key_id row) by (by destruct (p s')).
    by rewrite (Hu s' Hs' Hk').
  - destruct Hin as [Hin|?]; [left|by right]. apply update_where_elem. by exists (with_revoked row b).
Qed.

Lemma tracked_step row now b g op d :
  issues (hs_key_id row) op = false -> by_time now op = true -> tracked row now b (h_sessions d) ->
  tracked row now (b || revokes (hs_key_id row) op) (h_sessions (hexec g op d)).
Proof.
  intros Hi Ht Hd. destruct (hexec_change g op d); simpl in *; rewrite ?orb_false_r; try done.
  - apply Z.leb_le in Ht. apply tracked_live; [done|].
    apply (tracked_revoke row now b (fun _ => true)); done.
  - apply Z.leb_le in Ht. by apply tracked_live.
  - apply bool_decide_eq_false in Hi. apply Z.leb_le in Ht. apply tracked_snoc; [done|]. by apply tracked_live.
  - replace (bool_decide (k = hs_key_id row)) with (bool_decide (hs_key_id row = k)) by (apply bool_decide_ext; naive_solver).
    apply (tracked_revoke row now b (fun s => bool_decide (hs_key_id s = k))); [|done]. by intros s s' ->.
  - apply Z.leb_le in Ht. by apply tracked_live.
Qed.

Lemma tracked_steps row now ops : forall b d,
  forallb (fun go => negb (issues (hs_key_id row) go.2) && by_time now go.2) ops = true ->
  tracked row now b (h_sessions d) ->
  tracked row now (b || existsb (fun go => revokes (hs_key_id row) go.2) ops) (h_sessions (hexecs ops d)).
Proof.
  induction ops as [|[g op] ops IH]; intros b d Hops Hd; simpl in *; [by rewrite orb_false_r|].
  rewrite !andb_true_iff, negb_true_iff in Hops. destruct Hops as [[Hi Ht] Hops].
  rewrite orb_assoc. apply IH; [done|]. by apply tracked_step.
Qed.

(** What [authenticate] answers when the row of the key is tracked. *)
Lemma authenticate_tracked row now b g sec d :
  hs_generation row = g -> tracked row now b (h_sessions d) ->
  store_authenticate g (hs_key_id row) sec now d =
  (match h_policy d with
   | Some (g', _) =>
       if bool_decide (g' = g) then
         Ok (if negb b && (now <? hs_expires_at_ms row) && bool_decide (sha256_hex sec = hs_secret_digest row)
             then Some (mkStoredSession (hs_principal_id row) (hs_key_id row) (hs_grants row)) else None)
       else Err _unavailable
   | None => Err _unavailable
   end, d).
Proof.
  intros Hg [Hu Hin]. unfold store_authenticate, transaction. cbv zeta.
  unfold mbind at 1, eff_bind at 1. rewrite require_generation_run. destruct (h_policy d) as [[g' e]|]; [|done].
  destruct (bool_decide (g' = g)); [|done]. unfold mbind, eff_bind, get_state. unfold digest_equal.
  match goal with |- context [fetchone ?p ?t] => destruct (fetchone p t) as [r|] eqn:Hf end.
  - apply fetchone_Some in Hf as [Hr Hp]. rewrite !andb_true_iff, !bool_decide_eq_true, Z.ltb_lt, negb_true_iff in Hp.
    destruct Hp as (((Hk & Hgr) & Hx) & Hrv). pose proof (Hu r Hr Hk) as ->. simpl in *. subst b.
    rewrite (proj2 (Z.ltb_lt _ _) Hx). simpl. by destruct (bool_decide _).
  - destruct Hin as [Hin|Hx].
    + apply (fetchone_None _ _ _ Hf) in Hin. simpl in Hin.
      rewrite !bool_decide_eq_true_2 in Hin by done. simpl in Hin.
      replace (negb b && (now <? hs_expires_at_ms row)) with false; [done|]. destruct b, (now <? _); done.
    + rewrite (proj2 (Z.ltb_ge _ _) Hx), andb_false_r. done.
Qed.

(** Issuing starts the life of a session. *)
Lemma issue_tracked g k sec e p gr t0 d iss d0 :
  issue g k sec e p gr t0 d = (Ok iss, d0) ->
  forall now, tracked (mkSession k g p (sha256_hex sec) gr (t0 + _SESSION_TTL_MS) false) now false (h_sessions d0).
Proof.
  intros H now. apply issue_ok in H as (_ & _ & _ & Hf & _ & ->). split; simpl.
  - intros s [Hs|Hs%list_elem_of_singleton]%elem_of_app Hk; [by apply Hf in Hs|done].
  - left. apply elem_of_app. right. by apply list_elem_of_singleton.
Qed.

(** A session issued at [t0] authenticates, to the principal and the
    grants it was issued with, by its own secret (up to the digest), exactly
    while it has not expired and neither its revocation nor an activation of
    any policy has happened since, whatever the stores did in between; the
    answer is an error exactly when another generation is active. *)
Lemma session_lifetime g k sec e p gr t0 d iss d0 ops sec' now :
  issue g k sec e p gr t0 d = (Ok iss, d0) ->
  forallb (fun go => negb (issues k go.2) && by_time now go.2) ops = true ->
  let d1 := hexecs ops d0 in
  store_authenticate g k sec' now d1 =
  (match h_policy d1 with
   | Some (g', _) =>
       if bool_decide (g' = g) then
         Ok (if negb (existsb (fun go => revokes k go.2) ops) && (now <? t0 + _SESSION_TTL_MS) && bool_decide (sha256_hex sec' = sha256_hex sec)
             then Some (mkStoredSession p k gr) else None)
       else Err _unavailable
   | None => Err _unavailable
   end, d1).
Proof.
  intros H Hops d1. pose proof (issue_tracked _ _ _ _ _ _ _ _ _ _ H now) as Htr.
  apply (authenticate_tracked (mkSession k g p (sha256_hex sec) gr (t0 + _SESSION_TTL_MS) false)); [done|].
  by apply (tracked_steps (mkSession k g p (sha256_hex sec) gr (t0 + _SESSION_TTL_MS) false) now ops false).
Qed.

(** ** Revoked keys *)

Definition all_revoked (k : string) (l : list session) : Prop := forall s, s ∈ l -> hs_key_id s = k -> hs_revoked s = true.

Lemma all_revoked_live k t l : all_revoked k l -> all_revoked k (live t l).
Proof. intros H s Hs. apply H. by apply delete_where_elem in Hs as [? _]. Qed.

Lemma all_revoked_update k p l : all_revoked k l -> all_revoked k (update_where p revoke_row l).
Proof. intros H s (s' & Hs & ->)%update_where_elem. destruct (p s'); [done|]. by apply H. Qed.

Lemma revoked_steps k ops : forall d,
  forallb (fun go => negb (issues k go.2)) ops = true -> all_revoked k (h_sessions d) -> all_revoked k (h_sessions (hexecs ops d)).
Proof.
  induction ops as [|[g op] ops IH]; intros d Ho Hd; simpl in *; [done|].
  rewrite andb_true_iff, negb_true_iff in Ho. destruct Ho as [Hi Ho]. apply IH; [done|].
  destruct (hexec_change g op d); simpl in *; auto using all_revoked_live, all_revoked_update.
  intros s [Hs|Hs%list_elem_of_singleton]%elem_of_app Hk; [by eapply all_revoked_live|].
  subst s. by apply bool_decide_eq_false in Hi.
Qed.

Lemma revoke_all k d : all_revoked k (h_sessions (revoke k d).2).
Proof.
  intros s Hs Hk. simpl in Hs. apply update_where_elem in Hs as (s' & _ & ->).
  destruct (bool_decide (hs_key_id s' = k)) eqn:E; [done|]. by apply bool_decide_eq_false in E.
Qed.

(** A session that authenticates is stored under the key, live and not revoked. *)
Lemma store_authenticate_ok g k sec now d st d' :
  store_authenticate g k sec now d = (Ok (Some st), d') ->
  ss_key_id st = k /\ exists s, s ∈ h_sessions d /\ hs_key_id s = k /\ hs_revoked s = false /\ now < hs_expires_at_ms s.
Proof.
  unfold store_authenticate. intros H. eff_inv. apply require_generation_ok in H0 as [_ ->].
  destruct (fetchone _ _) as [row|] eqn:Hf; [|done]. apply fetchone_Some in Hf as [Hin Hr].
  rewrite !andb_true_iff, !bool_decide_eq_true, Z.ltb_lt, negb_true_iff in Hr. destruct Hr as (((Hk & _) & Hx) & Hv).
  destruct (digest_equal _ _); [|done]. eff_inv. split; [done|]. by exists row.
Qed.

Lemma store_authenticate_key g k sec now d st d' : store_authenticate g k sec now d = (Ok (Some st), d') -> ss_key_id st = k.
Proof. intros H. by apply store_authenticate_ok in H as [-> _]. Qed.

Lemma revoked_refused g k sec now d st d' : all_revoked k (h_sessions d) -> store_authenticate g k sec now d = (Ok (Some st), d') -> False.
Proof. intros Ha (_ & s & Hs & Hk & Hv & _)%store_authenticate_ok. rewrite (Ha s Hs Hk) in Hv. done. Qed.

(** ** The life of a login *)

Definition creates (t : string) (op : hop) : bool := match op with HCreate t' _ _ _ _ _ => bool_decide (t' = t) | _ => false end.
Definition activates (op : hop) : bool := match op with HActivate _ => true | _ => false end.

Definition no_login (t : string) (d : hdb) : Prop := forall l, l ∈ h_logins d -> lg_transaction_id l <> t.

Lemma no_login_delete t p l :
  (forall x, x ∈ l -> lg_transaction_id x <> t) -> forall x, x ∈ delete_where p l -> lg_transaction_id x <> t.
Proof. intros H x Hx. apply H. by apply delete_where_elem in Hx as [? _]. Qed.

Lemma no_login_step t g op d : creates t op = false -> no_login t d -> no_login t (hexec g op d).
Proof.
  unfold no_login. intros Hc Hd. destruct (hexec_change g op d); unfold pending in *; simpl in *; try done; eauto using no_login_delete.
  intros l [Hl|Hl%list_elem_of_singleton]%elem_of_app; [by eapply no_login_delete|].
  subst l. by apply bool_decide_eq_false in Hc.
Qed.

Lemma no_login_steps t ops : forall d,
  forallb (fun go => negb (creates t go.2)) ops = true -> no_login t d -> no_login t (hexecs ops d).
Proof.
  induction ops as [|[g op] ops IH]; intros d Ho Hd; simpl in *; [done|].
  rewrite andb_true_iff, negb_true_iff in Ho. destruct Ho as [Hc Ho]. by apply IH, no_login_step.
Qed.

(** The epoch of the policy row, which only an activation moves. *)
Definition epoch_of (d : hdb) : option Z := snd <$> h_policy d.

Lemma epoch_step g op d e :
  epoch_of d = Some e -> epoch_of (hexec g op d) = Some (e + if activates op then 1 else 0).
Proof.
  unfold epoch_of. intros He. destruct (hexec_change g op d); simpl; rewrite ?Z.add_0_r; try done;
    destruct (h_policy d) as [[g' e']|]; naive_solver.
Qed.

Lemma epoch_steps ops : forall d e,
  epoch_of d = Some e -> epoch_of (hexecs ops d) = Some (e + count_where (fun go : string * hop => activates go.2) ops).
Proof.
  induction ops as [|[g op] ops IH]; intros d e He; simpl; [by rewrite Z.add_0_r|].
  rewrite (IH _ _ (epoch_step g op d e He)), count_where_cons. simpl. f_equal. lia.
Qed.

Lemma count_where_existsb {R} (p : R -> bool) t : existsb p t = true -> 1 <= count_where p t.
Proof.
  induction t as [|r t IH]; simpl; [done|]. rewrite count_where_cons. pose proof (count_where_nonneg p t).
  destruct (p r); [lia|]. intros Ht. apply IH in Ht. lia.
Qed.

(** C33: a login that was claimed was pending, unexpired, of the active policy,
    and created with the state and the challenge the claim presents; whatever
    the stores do next (short of drawing the same random identifier again) no
    claim of it succeeds, so it is exchanged at most once; and a session is
    issued for it only if no policy has been activated since. *)
Theorem login_single_use g t s c now d tx d0 ops :
  claim_login g t s c now d = (Ok tx, d0) ->
  forallb (fun go => negb (creates t go.2)) ops = true ->
  let d1 := hexecs ops d0 in
  (exists row, row ∈ h_logins d /\ lg_transaction_id row = t /\ lg_state row = s /\ lg_challenge row = c /\ now < lg_expires_at_ms row
     /\ h_policy d = Some (g, lg_activation_epoch row)
     /\ tx = mkLoginTransaction (lg_activation_epoch row) (lg_redirect_uri row) (lg_nonce row))
  /\ (forall g' s' c' now', is_ok (claim_login g' t s' c' now' d1).1 = false)
  /\ (existsb (fun go => activates go.2) ops = true ->
      forall g' k sec p gr now', is_ok (issue g' k sec (lt_activation_epoch tx) p gr now' d1).1 = false).
Proof.
  intros H Hops d1. apply claim_login_ok in H as (row & Hin & Hp & Ht & Hg & Hs & Hc & Hx & -> & ->).
  split; [by exists row|]. split.
  - intros g' s' c' now'. destruct (claim_login g' t s' c' now' d1) as [[tx'|x] d2] eqn:E; [|done].
    apply claim_login_ok in E as (row' & Hin' & _ & Ht' & _). exfalso. revert Hin' Ht'. apply no_login_steps; [done|].
    intros l [_ Hl]%delete_where_elem. by apply bool_decide_eq_false in Hl.
  - intros Ha g' k sec p gr now'. destruct (issue g' k sec _ p gr now' d1) as [[i|x] d2] eqn:E; [|done].
    apply issue_ok in E as (Hp' & _). exfalso. simpl in Hp'.
    pose proof (epoch_steps ops (mkHdb (h_policy d) (delete_where (fun l => bool_decide (lg_transaction_id l = t)) (h_logins d)) (h_sessions d))
      (lg_activation_epoch row)) as He. unfold epoch_of in He. simpl in He. rewrite Hp in He. specialize (He eq_refl).
    subst d1. rewrite Hp in Hp'. rewrite Hp' in He. simpl in He. injection He as He.
    pose proof (count_where_existsb _ _ Ha). lia.
Qed.

(** ** A login, its session and an activation *)

Module Example_human.
Definition active : hdb := hexecs [("g1", HInitialize true)] empty_hdb.
Definition opened : hdb := hexecs [("g1", HCreate "t1" "state" "challenge" "http://127.0.0.1:9000/callback" "nonce" 1000)] active.
Definition claimed : result LoginTransaction * hdb := claim_login "g1" "t1" "state" "challenge" 2000 opened.
Definition later : list (string * hop) := [("g1", HPrune 3000); ("g1", HRevoke "other")].
Definition activated : list (string * hop) := [("g2", HActivate 3000)].
End Example_human.

Lemma session_lifetime_witness :
  exists iss d0, issue "g1" "key" "secret" 1 "human:alice" [] 2000 Example_human.active = (Ok iss, d0)
  /\ (store_authenticate "g1" "key" "secret" 3600000 (hexecs Example_human.later d0)).1 = Ok (Some (mkStoredSession "human:alice" "key" []))
  /\ (store_authenticate "g1" "key" "secret" 3602000 (hexecs Example_human.later d0)).1 = Ok None.
Proof.
  eexists _, _. split; [vm_compute; reflexivity|].
  split; (erewrite (session_lifetime "g1" "key" "secret" 1 "human:alice" [] 2000 Example_human.active);
    [vm_compute; reflexivity|vm_compute; reflexivity|vm_compute; reflexivity]).
Defined.

Lemma login_single_use_witness :
  exists tx d0, claim_login "g1" "t1" "state" "challenge" 2000 Example_human.opened = (Ok tx, d0)
  /\ is_ok (claim_login "g1" "t1" "state" "challenge" 2500 (hexecs Example_human.activated d0)).1 = false
  /\ is_ok (issue "g2" "key" "secret" (lt_activation_epoch tx) "human:alice" [] 4000 (hexecs Example_human.activated d0)).1 = false.
Proof.
  eexists _, _. split; [vm_compute; reflexivity|].
  destruct (login_single_use "g1" "t1" "state" "challenge" 2000 Example_human.opened _ _ Example_human.activated
    ltac:(vm_compute; reflexivity) ltac:(vm_compute; reflexivity)) as (_ & Hc & Hi).
  split; [apply Hc|]. apply Hi. vm_compute. reflexivity.
Defined.
