(* ===== verification/HumanAuth.v ===== *)
(** * Interactive login of human reviewers

    Models [memory_router/human_auth.py]: the token format, the bodies of a
    start and an exchange, and the start, exchange and sign-out of a session
    over the store of [HumanAuthStore]. The world [W] holds the tables and
    whatever else changes while a call waits; the identity provider, the rate
    and concurrency limiters, the clock and the random source are operations on
    it. Log lines are not modelled. *)

From Stdlib Require Import ZArith Lia Ascii.
From stdpp Require Import base sets strings numbers list.
From S2P Require Import Prelude Errors Text Sha256 Json JsonParse Principals RateLimit Envelope Dedupe Hindsight App HumanAuthStore.

Local Open Scope Z_scope.

(** ** The world of a login *)

Class HumanWorld (W : Type) := {
  db_of : W -> hdb;
  set_db : hdb -> W -> W;
  now_ms : W -> Z;
  token_hex : Z -> eff W string;
  token_urlsafe : Z -> eff W string
}.

(** What a login relies on: a table write is read back and changes the tables only,
    not the clock, and [secrets.token_hex(n)] is [2n] lower-case hexadecimal digits
    and touches no table. *)
Class HumanWorldLaws (W : Type) `{HumanWorld W} := {
  db_set d w : db_of (set_db d w) = d;
  db_set_now d w : now_ms (set_db d w) = now_ms w;
  token_hex_text n w s w' : token_hex n w = (Ok s, w') -> class_match is_hex (2 * n) (2 * n) s = true /\ db_of w' = db_of w
}.

Record HumanServices (W : Type) := mkHumanServices {
  hv_consume_many : list Bucket -> eff W unit;
  hv_concurrency_run : forall A : Type, string -> Z -> eff W A -> eff W A;
  hv_timeout : forall A : Type, Z -> eff W A -> eff W A;
  hv_authorization_url : string -> string -> string -> string -> eff W string;
  hv_identity : string -> string -> string -> string -> eff W string
}.
Arguments hv_consume_many {W}.
Arguments hv_concurrency_run {W}.
Arguments hv_timeout {W}.
Arguments hv_authorization_url {W}.
Arguments hv_identity {W}.

(** ** Formats *)

(** [HUMAN_TOKEN.fullmatch]: the key and the secret. *)
Definition HUMAN_TOKEN (authorization : string) : option (string * string) :=
  if starts_with "Bearer mrh_" authorization then
    let rest := chars (remove_prefix "Bearer mrh_" authorization) in
    let key := of_chars (take 32 rest) in
    let secret := of_chars (drop 33 rest) in
    if class_match is_hex 32 32 key && bool_decide (rest !! 32%nat = Some "_"%char) && class_match is_hex 64 64 secret
    then Some (key, secret) else None
  else None.

Definition is_urlsafe (c : ascii) : bool := is_digit c || in_range 65 90 c || in_range 97 122 c || elem (code_of c) [45; 95].
Definition _RANDOM_VALUE (s : string) : bool := class_match is_urlsafe 43 43 s.

(** [_REDIRECT.fullmatch] and the port within range. *)
Definition valid_redirect (uri : string) : bool :=
  let prefix := "http://127.0.0.1:"%string in
  starts_with prefix uri &&
  (let '(digits, rest) := span is_digit (chars (remove_prefix prefix uri)) in
   bool_decide (of_chars rest = "/callback"%string) && class_match is_digit 1 5 (of_chars digits)
   && match digits with c :: _ => negb (code_of c =? 48) | [] => false end
   && (digits_number digits <=? 65535)).

Record StartLogin := mkStartLogin { sl_redirect_uri : string; sl_state : string; sl_code_challenge : string }.
Record ExchangeLogin := mkExchangeLogin { xl_transaction_id : string; xl_code : string; xl_state : string; xl_code_verifier : string }.

Definition invalid_human_login : exn := raise_http 400 "invalid_human_login" "invalid human login request".
Definition invalid_identity : exn := raise_http 401 "human_login_failed" "human authentication failed; sign in again".
Definition unavailable : exn := raise_http 503 "human_auth_unavailable" "human authentication unavailable".

(** A strict text field: a text without lone surrogates that passes [ok]. *)
Definition text_field (d : list (string * json)) (k : string) (ok : string -> bool) : option string :=
  match dict_get k d with
  | Some (JStr s) => if utf8_valid s && ok s then Some s else None
  | _ => None
  end.

(** A strict model that forbids other fields. *)
Definition model_fields (fields : list string) (v : json) : option (list (string * json)) :=
  match v with
  | JDict d => if forallb (fun kv => elem kv.1 fields) d then Some d else None
  | _ => None
  end.

Definition parse_start (v : json) : option StartLogin :=
  d ← model_fields ["redirect_uri"; "state"; "code_challenge"] v;
  redirect_uri ← text_field d "redirect_uri" (fun s => code_points s <=? 128);
  state ← text_field d "state" _RANDOM_VALUE;
  code_challenge ← text_field d "code_challenge" _RANDOM_VALUE;
  Some (mkStartLogin redirect_uri state code_challenge).

Definition parse_exchange (v : json) : option ExchangeLogin :=
  d ← model_fields ["transaction_id"; "code"; "state"; "code_verifier"] v;
  transaction_id ← text_field d "transaction_id" _RANDOM_VALUE;
  code ← text_field d "code" (fun s => (1 <=? code_points s) && (code_points s <=? 4096));
  state ← text_field d "state" _RANDOM_VALUE;
  code_verifier ← text_field d "code_verifier" _RANDOM_VALUE;
  Some (mkExchangeLogin transaction_id code state code_verifier).

Definition _body (rq : request) : result json :=
  match read_chunks 0 8192 (req_chunks rq) StreamDone with
  | BodyRead body => match json_loads_bytes true false body with Some v => Ok v | None => Err invalid_human_login end
  | _ => Err (raise_http 413 "payload_too_large" "human login body exceeds 8 KiB")
  end.

(** The challenge of a verifier: [urlsafe_b64encode(sha256(v).digest()).rstrip("=")]. *)
Definition urlsafe_char (c : ascii) : ascii :=
  if bool_decide (c = "+"%char) then "-"%char else if bool_decide (c = "/"%char) then "_"%char else c.

Fixpoint strip_end (c : ascii) (l : list ascii) : list ascii :=
  match l with
  | [] => []
  | x :: l' => match strip_end c l' with [] => if bool_decide (x = c) then [] else [x] | l'' => x :: l'' end
  end.

Definition code_challenge_of (verifier : string) : string :=
  of_chars (strip_end "="%char (map urlsafe_char (b64_groups (sha256_digest verifier)))).

(** ** The service *)

Section human_auth.
Context {W : Type} `{HumanWorld W} (sv : HumanServices W).
Context (generation : string) (subjects : list (string * string)) (resolver : PrincipalResolver).

(** A transaction of the store, at the time it reads off the clock. *)
Definition on_db {A} (m : Z -> eff hdb A) : eff W A := fun w =>
  let '(r, d) := m (now_ms w) (db_of w) in (r, set_db d w).

Definition _bounded {A} (operation : eff W A) : eff W A :=
  hv_concurrency_run sv A "human-auth:provider" 8 (hv_timeout sv A 30 operation).

(** What is left of the stored grants under the current ones. *)
Definition current_grants (stored current : list PrincipalGrant) : list PrincipalGrant :=
  let pairs := concat (map (fun g => map (fun scope => (pg_bank g, scope)) (pg_scopes g)) current) in
  omap (fun g => match List.filter (fun scope => elem (pg_bank g, scope) pairs) (pg_scopes g) with
                 | [] => None
                 | scopes => Some (mkPrincipalGrant (pg_bank g) scopes)
                 end) stored.

Definition human_authenticate (authorization : string) : eff W Authentication :=
  match HUMAN_TOKEN authorization with
  | None => mret AuthInvalidFormat
  | Some (key_id, secret) =>
      stored ← try_except (on_db (fun now => store_authenticate generation key_id secret now))
                 (fun e => match as_http e with Some _ => raise e | None => raise unavailable end);
      match stored with
      | None => mret AuthUnknownKey
      | Some s =>
          match dict_get (ss_principal_id s) (reg_principals (res_registry resolver)) with
          | Some principal =>
              if bool_decide (pr_source principal = "human"%string) then
                mret (AuthOk (mkPrincipalSession (ss_principal_id s) (ss_key_id s) (current_grants (ss_grants s) (pr_grants principal))
                        (_limits_for (res_registry resolver) principal) "human"))
              else mret AuthRevoked
          | None => mret AuthRevoked
          end
      end
  end.

(** [cleanup_result]: the operation runs and its exception is not raised. *)
Definition cleanup_result (m : eff W unit) : eff W unit := fun w => (Ok (), (m w).2).

(** The [begin] of [start]. *)
Definition begin_login (login : StartLogin) : eff W (list (string * json)) :=
  nonce ← token_urlsafe 32;
  transaction_id ← (drawn ← token_urlsafe 32;
                    on_db (fun now => create_login generation drawn (sl_state login) (sl_code_challenge login) (sl_redirect_uri login) nonce now));
  url ← try_except (hv_authorization_url sv (sl_redirect_uri login) (sl_state login) (sl_code_challenge login) nonce)
          (fun e => _ ← cleanup_result (on_db (fun _ => cancel_login generation transaction_id)); raise e);
  mret [("transaction_id", JStr transaction_id); ("authorization_url", JStr url)].

Definition start (login : StartLogin) : eff W (list (string * json)) :=
  if negb (valid_redirect (sl_redirect_uri login)) then raise (raise_http 400 "invalid_human_login" "invalid loopback redirect")
  else _bounded (begin_login login).

Definition grant_json (g : PrincipalGrant) : json := JDict [("bank", JStr (pg_bank g)); ("scopes", JList (map JStr (pg_scopes g)))].

Definition exchange (login : ExchangeLogin) : eff W (list (string * json)) :=
  let challenge := code_challenge_of (xl_code_verifier login) in
  transaction ← on_db (fun now => claim_login generation (xl_transaction_id login) (xl_state login) challenge now);
  subject ← _bounded (hv_identity sv (xl_code login) (xl_code_verifier login) (lt_redirect_uri transaction) (lt_nonce transaction));
  match dict_get subject subjects with
  | None => raise invalid_identity
  | Some principal_id =>
      match dict_get principal_id (reg_principals (res_registry resolver)) with
      | None => raise (EOther "KeyError")
      | Some principal =>
          key_id ← token_hex 16;
          secret ← token_hex 32;
          issued ← on_db (fun now => issue generation key_id secret (lt_activation_epoch transaction) principal_id (pr_grants principal) now);
          mret [("token", JStr (is_token issued)); ("token_type", JStr "Bearer"); ("principal_id", JStr principal_id);
                ("grants", JList (map grant_json (pr_grants principal))); ("expires_at", JInt (is_expires_at issued))]
      end
  end.

Record human_response := mkHumanResponse { hr_payload : json; hr_status : Z; hr_headers : list (string * string) }.

Definition _NO_STORE : list (string * string) := [("Cache-Control", "no-store"); ("Pragma", "no-cache")].

Definition human_ok (payload : list (string * json)) : human_response := mkHumanResponse (JDict payload) 200 _NO_STORE.

Definition human_error (e : exn) : human_response :=
  let error := match as_http e with Some h => h | None => http_error 503 "human_auth_unavailable" "human authentication unavailable" end in
  mkHumanResponse (JDict (map (fun kv => (kv.1, JStr kv.2)) (err_body error))) (err_status error)
    (foldl (fun d kv => dict_set kv.1 kv.2 d) (err_headers error) _NO_STORE).

(** The body of the [try] of [dispatch]. *)
Definition handle (rq : request) (operation : string) : eff W human_response :=
  if negb (bool_decide (req_method rq = "POST"%string)) || negb (elem operation ["start"; "exchange"; "sign-out"])
  then raise (raise_http 404 "not_found" "not found")
  else
    _ ← hv_consume_many sv [mkBucket ("human-auth:" +:+ operation)%string (if bool_decide (operation = "start"%string) then 20 else 60) 60000];
    if bool_decide (operation = "sign-out"%string) then
      result ← human_authenticate (default "" (req_authorization rq));
      match result with
      | AuthOk session =>
          _ ← on_db (fun _ => revoke (ps_key_id session));
          mret (human_ok [("signed_out", JBool true)])
      | _ => raise invalid_identity
      end
    else
      value ← lift (_body rq);
      if bool_decide (operation = "start"%string) then
        match parse_start value with
        | None => raise invalid_human_login
        | Some login => r ← start login; mret (human_ok r)
        end
      else
        match parse_exchange value with
        | None => raise invalid_human_login
        | Some login => r ← exchange login; mret (human_ok r)
        end.

Definition human_dispatch (rq : request) (operation : string) : eff W human_response :=
  except_Exception (handle rq operation) (fun e => mret (human_error e)).
End human_auth.

(** ** Interactive login of human reviewers: theorems

    What a human session may do is what it was issued with and what the
    registry still grants; a completed exchange yields a token that
    authenticates for exactly the life of its session; a sign-out ends it for
    good; and every request gets an answer. *)

(** ** Grants *)

Lemma grants_scope_true gs scope bank :
  grants_scope gs scope bank = true <-> exists g, g ∈ gs /\ pg_bank g = bank /\ scope ∈ pg_scopes g.
Proof.
  unfold grants_scope. rewrite List.existsb_exists. split.
  - intros (g & Hg & Hb). rewrite andb_true_iff, bool_decide_eq_true, elem_true in Hb. exists g. by rewrite list_elem_of_In.
  - intros (g & Hg & Hb & Hs). exists g. rewrite andb_true_iff, bool_decide_eq_true, elem_true. by rewrite <- list_elem_of_In.
Qed.

Lemma granted_pairs gs bank scope :
  (bank, scope) ∈ concat (map (fun g => map (fun s => (pg_bank g, s)) (pg_scopes g)) gs) <-> grants_scope gs scope bank = true.
Proof.
  rewrite grants_scope_true, list_elem_of_In, List.in_concat. split.
  - intros (l & Hl & Hin). apply List.in_map_iff in Hl as (g & <- & Hg). apply List.in_map_iff in Hin as (s & [= <- <-] & Hs).
    exists g. by rewrite !list_elem_of_In.
  - intros (g & Hg & <- & Hs). exists (map (fun s => (pg_bank g, s)) (pg_scopes g)). split.
    + apply List.in_map_iff. exists g. by rewrite <- list_elem_of_In.
    + apply List.in_map_iff. exists scope. by rewrite <- list_elem_of_In.
Qed.

(** The grants that are left are the intersection of the two. *)
Lemma current_grants_scope stored current scope bank :
  grants_scope (current_grants stored current) scope bank = grants_scope stored scope bank && grants_scope current scope bank.
Proof.
  apply eq_true_iff_eq. rewrite andb_true_iff, !grants_scope_true. unfold current_grants.
  set (pairs := concat _). assert (Hpairs : forall b s, elem (b, s) pairs = true <-> grants_scope current s b = true)
    by (intros; rewrite elem_true; apply granted_pairs).
  split.
  - intros (g & Hg & <- & Hs). apply list_elem_of_omap in Hg as (g0 & Hg0 & Hf).
    destruct (List.filter _ (pg_scopes g0)) as [|s0 l] eqn:El; [done|]. injection Hf as <-. simpl in *.
    assert (Hin : In scope (List.filter (fun s => elem (pg_bank g0, s) pairs) (pg_scopes g0))) by (rewrite El; by apply list_elem_of_In).
    apply List.filter_In in Hin as [Hin Hp]. apply Hpairs, grants_scope_true in Hp. split; [|done].
    exists g0. by rewrite (list_elem_of_In _ scope).
  - intros [(g & Hg & <- & Hs) Hc]. apply grants_scope_true, Hpairs in Hc.
    assert (Hin : In scope (List.filter (fun s => elem (pg_bank g, s) pairs) (pg_scopes g)))
      by (apply List.filter_In; rewrite <- list_elem_of_In; done).
    destruct (List.filter _ (pg_scopes g)) as [|s0 l] eqn:El; [done|].
    exists (mkPrincipalGrant (pg_bank g) (s0 :: l)). split; [|split; [done|by apply list_elem_of_In]].
    apply list_elem_of_omap. exists g. split; [done|]. by rewrite El.
Qed.

(** ** Tokens *)

(** The parser inverts the printer of [issue]. *)
Lemma human_token_issued k s :
  class_match is_hex 32 32 k = true -> class_match is_hex 64 64 s = true ->
  HUMAN_TOKEN ("Bearer " +:+ ("mrh_" +:+ k +:+ "_" +:+ s))%string = Some (k, s).
Proof.
  intros Hk Hs. unfold HUMAN_TOKEN.
  change ("Bearer " +:+ ("mrh_" +:+ k +:+ "_" +:+ s))%string with ("Bearer mrh_" +:+ (k +:+ "_" +:+ s))%string.
  rewrite starts_with_app, remove_prefix_app. cbv zeta. rewrite !chars_app.
  assert (Hl : length (chars k) = 32%nat).
  { apply class_match_spec in Hk as [_ Hk]. unfold slen in Hk. rewrite length_chars. lia. }
  rewrite take_app_length' by done. rewrite of_chars_chars, Hk.
  rewrite lookup_app_r by lia. rewrite Hl. simpl.
  replace (drop 33 (chars k ++ "_"%char :: chars s)) with (chars s).
  - by rewrite of_chars_chars, Hs.
  - rewrite drop_app_ge by lia. by rewrite Hl.
Qed.

Section props.
Context {W : Type} `{HumanWorldLaws W} (sv : HumanServices W).
Context (generation : string) (subjects : list (string * string)) (resolver : PrincipalResolver).

(** ** Authentication *)

Lemma on_db_run {A} (m : Z -> eff hdb A) (w : W) :
  on_db m w = ((m (now_ms w) (db_of w)).1, set_db (m (now_ms w) (db_of w)).2 w).
Proof. unfold on_db. by destruct (m (now_ms w) (db_of w)). Qed.

(** What the answer of the store becomes. *)
Definition session_of (stored : StoredSession) : Authentication :=
  match dict_get (ss_principal_id stored) (reg_principals (res_registry resolver)) with
  | Some principal =>
      if bool_decide (pr_source principal = "human"%string) then
        AuthOk (mkPrincipalSession (ss_principal_id stored) (ss_key_id stored) (current_grants (ss_grants stored) (pr_grants principal))
                  (_limits_for (res_registry resolver) principal) "human")
      else AuthRevoked
  | None => AuthRevoked
  end.

Lemma human_authenticate_run a (w : W) :
  (human_authenticate generation resolver a w).1 =
  match HUMAN_TOKEN a with
  | None => Ok AuthInvalidFormat
  | Some (k, s) =>
      match (store_authenticate generation k s (now_ms w) (db_of w)).1 with
      | Ok None => Ok AuthUnknownKey
      | Ok (Some stored) => Ok (session_of stored)
      | Err e => Err (match as_http e with Some _ => e | None => unavailable end)
      end
  end.
Proof.
  unfold human_authenticate. destruct (HUMAN_TOKEN a) as [[k s]|]; [|done].
  unfold mbind, eff_bind, try_except. rewrite on_db_run.
  destruct (store_authenticate generation k s (now_ms w) (db_of w)) as [[[st|]|e] d]; simpl; [|done|by destruct (as_http e)].
  unfold session_of. destruct (dict_get _ _) as [p|]; [|done]. by destruct (bool_decide _).
Qed.

(** A human session never exceeds what it was issued with nor what the
    registry grants now. A token authenticates only if the store holds its
    session and the registry still lists the principal as a human one, and then
    the session authorizes a scope on a bank exactly when both the stored and
    the current grants do. *)
Lemma human_session_exact a (w : W) s :
  (human_authenticate generation resolver a w).1 = Ok (AuthOk s) ->
  exists k secret stored p,
    HUMAN_TOKEN a = Some (k, secret)
    /\ (store_authenticate generation k secret (now_ms w) (db_of w)).1 = Ok (Some stored)
    /\ dict_get (ss_principal_id stored) (reg_principals (res_registry resolver)) = Some p /\ pr_source p = "human"%string
    /\ ps_principal_id s = ss_principal_id stored /\ ps_key_id s = ss_key_id stored /\ ps_source s = "human"%string
    /\ forall scope bank, authorize resolver s scope bank =
         grants_scope (ss_grants stored) scope bank && grants_scope (pr_grants p) scope bank
         && _policy_allows resolver (ss_principal_id stored) "human" bank.
Proof.
  rewrite human_authenticate_run. destruct (HUMAN_TOKEN a) as [[k secret]|]; [|done].
  destruct (store_authenticate _ _ _ _ _).1 as [[stored|]|e] eqn:Es; [|done|done]. unfold session_of.
  destruct (dict_get _ _) as [p|] eqn:Ep; [|done]. case_bool_decide as Hh; [|done]. intros [= <-].
  exists k, secret, stored, p. split_and!; try done. intros scope bank. unfold authorize. simpl. by rewrite current_grants_scope.
Qed.

(** ** From the exchange to the session *)

(** What a successful exchange did: it issued a session. *)
Lemma exchange_issues login (w : W) r w' :
  exchange sv generation subjects resolver login w = (Ok r, w') ->
  exists w1 k secret epoch pid p iss d',
    class_match is_hex 32 32 k = true /\ class_match is_hex 64 64 secret = true
    /\ pid ∈ map snd subjects /\ dict_get pid (reg_principals (res_registry resolver)) = Some p
    /\ issue generation k secret epoch pid (pr_grants p) (now_ms w1) (db_of w1) = (Ok iss, d') /\ db_of w' = d' /\ now_ms w' = now_ms w1
    /\ dict_get "token"%string r = Some (JStr (is_token iss)) /\ dict_get "expires_at"%string r = Some (JInt (is_expires_at iss)).
Proof.
  unfold exchange. intros Hx. eff_inv. destruct (dict_get r1 subjects) as [pid|] eqn:Esub; [|done].
  destruct (dict_get pid _) as [p|] eqn:Ep; [|done]. eff_inv.
  rename r2 into k, r3 into secret. match goal with Hi : on_db _ ?w1 = (Ok ?i, _) |- _ => rename Hi into Hissue; rename i into iss; set (w1' := w1) in * end.
  rewrite on_db_run in Hissue.
  destruct (issue generation k secret (lt_activation_epoch r0) pid (pr_grants p) (now_ms w1') (db_of w1')) as [res d'] eqn:Ei.
  simpl in Hissue. injection Hissue as -> <-.
  repeat match goal with Ht : token_hex _ _ = _ |- _ => apply token_hex_text in Ht as [? ?] end.
  exists w1', k, secret, (lt_activation_epoch r0), pid, p, iss, d'. split_and!; try done.
  - apply dict_get_elem in Esub. apply list_elem_of_In, List.in_map_iff. exists (r1, pid). by rewrite <- list_elem_of_In.
  - apply db_set.
  - apply db_set_now.
Qed.

(** C32: a login that completes yields a working session, and for exactly as long
    as it should. The token a successful exchange answers with authenticates,
    through the registry's current grants, to a principal the identity mapping
    names; it does so at every later moment, whatever the stores did in between
    short of drawing its random key again, until an hour after the moment of the
    exchange's answer, which is the expiry the answer tells in seconds, or until
    the session is revoked or a policy is activated, and never after. *)
Theorem exchange_token_lives login (w : W) r w' :
  exchange sv generation subjects resolver login w = (Ok r, w') ->
  exists k secret pid p,
    let token := ("mrh_" +:+ k +:+ "_" +:+ secret)%string in
    dict_get "token"%string r = Some (JStr token) /\ dict_get "expires_at"%string r = Some (JInt ((now_ms w' + 3600000) / 1000))
    /\ pid ∈ map snd subjects /\ dict_get pid (reg_principals (res_registry resolver)) = Some p
    /\ forall ops (w2 : W),
         db_of w2 = hexecs ops (db_of w') ->
         forallb (fun go => negb (issues k go.2) && by_time (now_ms w2) go.2) ops = true ->
         (human_authenticate generation resolver ("Bearer " +:+ token)%string w2).1 =
         match h_policy (db_of w2) with
         | Some (g, _) =>
             if bool_decide (g = generation) then
               Ok (if negb (existsb (fun go => revokes k go.2) ops) && (now_ms w2 <? now_ms w' + 3600000)
                   then session_of (mkStoredSession pid k (pr_grants p)) else AuthUnknownKey)
             else Err _unavailable
         | None => Err _unavailable
         end.
Proof.
  intros Hx. destruct (exchange_issues _ _ _ _ Hx) as (w1 & k & secret & epoch & pid & p & iss & d' & Hk & Hs & Hsub & Hp & Hi & Hd & Hnow & Ht & Hexp).
  pose proof (issue_tracked _ _ _ _ _ _ _ _ _ _ Hi) as Htr. apply issue_ok in Hi as (_ & _ & _ & _ & -> & _).
  exists k, secret, pid, p. cbv zeta. rewrite Hnow. split; [done|]. split; [done|]. split; [done|]. split; [done|].
  intros ops w2 Hw2 Hops. rewrite human_authenticate_run, human_token_issued by done.
  set (row := mkSession k generation pid (sha256_hex secret) (pr_grants p) (now_ms w1 + _SESSION_TTL_MS) false) in *.
  rewrite (authenticate_tracked row (now_ms w2) (existsb (fun go => revokes k go.2) ops)); [|done|].
  - unfold row. cbn [fst hs_expires_at_ms hs_secret_digest hs_principal_id hs_key_id hs_grants].
    destruct (h_policy (db_of w2)) as [[g e]|]; [|reflexivity]. destruct (bool_decide (g = generation)); [|reflexivity].
    rewrite (bool_decide_eq_true_2 (sha256_hex secret = sha256_hex secret)), andb_true_r by reflexivity.
    by destruct (negb _ && _).
  - rewrite Hw2, Hd. apply (tracked_steps row (now_ms w2) ops false); [done|]. apply Htr.
Qed.

(** ** Sign-out *)

Lemma human_authenticate_ok a (w : W) s w' :
  human_authenticate generation resolver a w = (Ok (AuthOk s), w') -> exists secret, HUMAN_TOKEN a = Some (ps_key_id s, secret).
Proof.
  intros Ha. pose proof (human_authenticate_run a w) as Hrun. rewrite Ha in Hrun. simpl in Hrun.
  destruct (HUMAN_TOKEN a) as [[k secret]|]; [|done].
  destruct (store_authenticate generation k secret (now_ms w) (db_of w)) as [[[st|]|e] d] eqn:Es; simpl in Hrun; [|done|done].
  exists secret. injection Hrun as Hrun. apply store_authenticate_key in Es. unfold session_of in Hrun.
  destruct (dict_get _ _) as [p|]; [|done]. case_bool_decide; [|done]. injection Hrun as ->. simpl. congruence.
Qed.

(** A sign-out is final. When it answers that it signed out, the bearer's token was a live
    one, and no token with its key, whatever the secret, authenticates at any
    later moment, whatever the stores do next short of drawing the same random
    key again. *)
Lemma sign_out_final rq (w : W) resp w' :
  human_dispatch sv generation subjects resolver rq "sign-out" w = (Ok resp, w') -> hr_payload resp = JDict [("signed_out", JBool true)] ->
  exists k secret, HUMAN_TOKEN (default "" (req_authorization rq)) = Some (k, secret)
  /\ forall ops (w2 : W), db_of w2 = hexecs ops (db_of w') -> forallb (fun go => negb (issues k go.2)) ops = true ->
     forall a secret' s, HUMAN_TOKEN a = Some (k, secret') -> (human_authenticate generation resolver a w2).1 <> Ok (AuthOk s).
Proof.
  unfold human_dispatch, except_Exception, try_except. intros Hd Hst.
  destruct (handle sv generation subjects resolver rq "sign-out" w) as [[resp'|e] w0] eqn:Eh.
  - injection Hd as -> ->. unfold handle in Eh. destruct (negb _ || _); [done|].
    eff_inv. rewrite bool_decide_eq_true_2 in Eh by done. eff_inv. destruct r0 as [sess| | | | |]; try done. eff_inv.
    destruct (human_authenticate_ok _ _ _ _ H2) as [secret Ht]. exists (ps_key_id sess), secret. split; [done|].
    rewrite on_db_run in H3. injection H3 as _ <-. intros ops w2 Hw2 Hops a secret' s' Ha Hok.
    rewrite human_authenticate_run, Ha in Hok. rewrite Hw2, db_set in Hok.
    destruct (store_authenticate _ _ _ _ _) as [[[st|]|e] d2] eqn:Es; simpl in Hok; try done.
    eapply revoked_refused; [|exact Es]. apply revoked_steps; [done|]. apply revoke_all.
  - destruct (is_cancelled e); [done|]. by injection Hd as <- <-.
Qed.
End props.

(** ** A login on a small world *)

Module Example_login.
(** The tables and the clock; every drawn secret is a run of [a]s. *)
Definition world : Type := hdb * Z.

#[export] Instance world_ops : HumanWorld world := {|
  db_of w := w.1;
  set_db d w := (d, w.2);
  now_ms w := w.2;
  token_hex n := if n <? 0 then raise (EValueError "negative argument not allowed") else mret (of_chars (replicate (Z.to_nat (2 * n)) "a"%char));
  token_urlsafe n := mret (of_chars (replicate 43 "A"%char))
|}.

Lemma replicate_hex m : class_match is_hex (Z.of_nat m) (Z.of_nat m) (of_chars (replicate m "a"%char)) = true.
Proof.
  apply class_match_spec. rewrite chars_of_chars. split; [by apply Forall_replicate|].
  unfold slen. rewrite <- length_chars, chars_of_chars, length_replicate. lia.
Qed.

#[export] Instance world_laws : HumanWorldLaws world.
Proof.
  constructor; [done|done|]. intros n w s w'. simpl. destruct (Z.ltb_spec n 0); [done|]. intros [= <- <-]. split; [|done].
  pose proof (replicate_hex (Z.to_nat (2 * n))) as Hr. by rewrite Z2Nat.id in Hr by lia.
Qed.

Definition services : HumanServices world :=
  mkHumanServices world (fun _ => mret ()) (fun A _ _ m => m) (fun A _ m => m)
    (fun _ _ _ _ => mret "https://id.example/authorize"%string) (fun _ _ _ _ => mret "subject-1"%string).

Definition alice : Principal :=
  mkPrincipal [] [mkPrincipalGrant "team" [SCOPE_MEMORY_RECALL; SCOPE_QUARANTINE_REVIEW]] Example_registry.no_limits "human".
Definition resolver : PrincipalResolver :=
  mkPrincipalResolver (mkPrincipalRegistry [("human:alice", alice)] Example_registry.no_limits []) [].
Definition subjects : list (string * string) := [("subject-1", "human:alice")]%string.

Definition verifier : string := of_chars (replicate 43 "v"%char).
Definition login : ExchangeLogin := mkExchangeLogin "t1" "code" "state" verifier.
Definition opened : world :=
  (hexecs [("g1", HInitialize true); ("g1", HCreate "t1" "state" (code_challenge_of verifier) "http://127.0.0.1:9000/callback" "nonce" 1000)]%string empty_hdb, 2000).

Definition bearer : string := ("Bearer mrh_" +:+ of_chars (replicate 32 "a"%char) +:+ "_" +:+ of_chars (replicate 64 "a"%char))%string.
Definition answer : list (string * json) :=
  Eval vm_compute in match (exchange services "g1" subjects resolver login opened).1 with Ok r => r | Err _ => [] end.
Definition signed_in : world := Eval vm_compute in (exchange services "g1" subjects resolver login opened).2.
Definition request_out : request := mkRequest "POST" "/auth/human/sign-out" (Some bearer) None [] None [].
Definition signed_out : world := Eval vm_compute in (human_dispatch services "g1" subjects resolver request_out "sign-out" signed_in).2.
Definition alice_session : PrincipalSession :=
  mkPrincipalSession "human:alice" (of_chars (replicate 32 "a"%char)) (pr_grants alice) (_limits_for (res_registry resolver) alice) "human".

Lemma exchanged : exchange services "g1" subjects resolver login opened = (Ok answer, signed_in).
Proof. vm_compute. reflexivity. Qed.

Lemma alice_signs_in : (human_authenticate "g1" resolver bearer signed_in).1 = Ok (AuthOk alice_session).
Proof. vm_compute. reflexivity. Qed.

Lemma signs_out :
  human_dispatch services "g1" subjects resolver request_out "sign-out" signed_in = (Ok (human_ok [("signed_out", JBool true)]), signed_out).
Proof. vm_compute. reflexivity. Qed.
End Example_login.
Import Example_login.

Lemma exchange_token_lives_witness :
  exchange services "g1" subjects resolver login opened = (Ok answer, signed_in)
  /\ exists tok, dict_get "token"%string answer = Some (JStr tok)
  /\ (human_authenticate "g1" resolver ("Bearer " +:+ tok)%string signed_in).1 = Ok (AuthOk alice_session).
Proof.
  split; [exact exchanged|].
  destruct (exchange_token_lives services "g1" subjects resolver login opened answer signed_in exchanged) as (k & secret & pid & p & Htok & _).
  exists ("mrh_" +:+ k +:+ "_" +:+ secret)%string. split; [exact Htok|]. cbv zeta in Htok.
  revert Htok. generalize ("mrh_" +:+ k +:+ "_" +:+ secret)%string. intros tok [= <-]. exact alice_signs_in.
Defined.

Lemma human_session_exact_witness :
  (human_authenticate "g1" resolver bearer signed_in).1 = Ok (AuthOk alice_session)
  /\ exists st, ss_principal_id st = "human:alice"%string
     /\ authorize resolver alice_session SCOPE_QUARANTINE_REVIEW "team" =
         grants_scope (ss_grants st) SCOPE_QUARANTINE_REVIEW "team" && grants_scope (pr_grants alice) SCOPE_QUARANTINE_REVIEW "team" && true.
Proof.
  split; [exact alice_signs_in|].
  destruct (human_session_exact "g1" resolver bearer signed_in alice_session alice_signs_in)
    as (k & sec & st & p & _ & _ & Hp & _ & Hid & _ & _ & Hauth).
  exists st. split; [by rewrite <- Hid|]. rewrite Hauth. rewrite <- Hid in *. injection Hp as <-. reflexivity.
Defined.

Lemma sign_out_final_witness :
  human_dispatch services "g1" subjects resolver request_out "sign-out" signed_in = (Ok (human_ok [("signed_out", JBool true)]), signed_out)
  /\ forall s, (human_authenticate "g1" resolver bearer signed_out).1 <> Ok (AuthOk s).
Proof.
  split; [exact signs_out|]. intros s.
  destruct (sign_out_final services "g1" subjects resolver request_out signed_in _ signed_out signs_out eq_refl) as (k & sec & Ht & Hf).
  exact (Hf [] signed_out eq_refl eq_refl bearer sec s Ht).
Defined.
