(* ===== verification/HumanOidc.v ===== *)
(** * The OpenID Connect client of the human login

    Models [memory_router/human_oidc.py] and the URL check of
    [human_auth_config.py]: provider metadata, the authorization URL, the
    exchange of a code and the checks of the identity claims. Sending a request,
    the JSON reader of the model library, the key and signature checks of the token
    library, and which texts are nested too deeply for [json.loads] are parameters;
    sending and the token library may raise anything. *)

From Stdlib Require Import ZArith Lia Ascii.
From stdpp Require Import base sets strings numbers list.
From S2P Require Import Prelude Errors Text Json JsonParse Principals Dedupe Paths Hindsight Urls App HumanAuthStore HumanAuth.

Local Open Scope Z_scope.

(** ** URLs *)

Definition url_error : exn := EValueError "expected an HTTPS URL without credentials, query, or fragment".

(** [parsed.port] within the range the check asks for. *)
Definition port_ok (port : option string) : bool :=
  match port with
  | None => true
  | Some p => class_match is_digit 1 INT_MAX_STR_DIGITS p && (1 <=? digits_number (chars p)) && (digits_number (chars p) <=? 65535)
  end.

Definition https_url `{UrlSyntax} (value : string) : result string :=
  if existsb (fun c => (code_of c <=? 32) || (code_of c =? 127)) (chars value) then Err url_error
  else match urlsplit value with
       | None => Err url_error
       | Some u =>
           let '(host, port) := hostinfo u in
           if negb (bool_decide (u_scheme u = "https"%string)) || bool_decide (host = ""%string) || has_char "@" (u_netloc u)
              || negb (bool_decide (u_query u = ""%string)) || negb (bool_decide (u_fragment u = ""%string)) || has_char "\" value
              || has_char "%" (u_path u) || existsb (fun part => elem part ["."; ".."]%string) (str_split "/" (u_path u))
              || match rev (chars (u_path u)) with a :: b :: _ => bool_decide (a = "/"%char) && bool_decide (b = "/"%char) | _ => false end
           then Err url_error
           else if port_ok port then Ok value else Err (EValueError "invalid HTTPS port")
       end.

(** ** Configuration *)

Record HumanAuthConfig := mkHumanAuthConfig { hc_router_url : string; hc_issuer : string; hc_client_id : string; hc_subjects : list (string * string) }.

(** [canonical_router_url], on a URL that passed [https_url]. *)
Definition canonical_router_url `{UrlSyntax} (value : string) : bool :=
  match urlsplit value with
  | None => false
  | Some u =>
      let folded := lowered (u_netloc u) in
      negb (match rev (chars value) with c :: _ => bool_decide (c = "/"%char) | [] => false end)
      && bool_decide (u_netloc u = folded)
      && match (hostinfo u).2 with Some p => negb (digits_number (chars p) =? 443) | None => true end
  end.

(** [dict[str, str]] with its bounds on the number of entries. *)
Definition subjects_of (v : option json) : option (list (string * string)) :=
  match v with
  | Some (JDict d) =>
      if (1 <=? Z.of_nat (length d)) && (Z.of_nat (length d) <=? 10000)
      then mapM (fun kv => match kv.2 with JStr s => if utf8_valid kv.1 && utf8_valid s then Some (kv.1, s) else None | _ => None end) d
      else None
  | _ => None
  end.

Definition parse_human_config `{UrlSyntax} (v : json) : option HumanAuthConfig :=
  d ← model_fields ["router_url"; "issuer"; "client_id"; "subjects"] v;
  router_url ← text_field d "router_url" (fun s => (code_points s <=? 2048) && is_ok (https_url s) && canonical_router_url s);
  issuer ← text_field d "issuer" (fun s => (code_points s <=? 2048) && is_ok (https_url s));
  client_id ← text_field d "client_id" (fun s => (1 <=? code_points s) && (code_points s <=? 256));
  subjects ← subjects_of (dict_get "subjects" d);
  Some (mkHumanAuthConfig router_url issuer client_id subjects).

(** The check of one entry of the identity mapping. *)
Definition valid_subject (registry : PrincipalRegistry) (entry : string * string) : bool :=
  let '(subject, principal_id) := entry in
  negb (bool_decide (subject = ""%string)) && (code_points subject <=? 255)
  && match dict_get principal_id (reg_principals registry) with Some p => bool_decide (pr_source p = "human"%string) | None => false end
  && negb (bool_decide (principal_id = "control-plane"%string)).

(** [read] gives the contents of a file, [from_json] their JSON value. *)
Definition load_human_config `{UrlSyntax} (read : string -> option string) (from_json : string -> option json) (path : string)
    (registry : PrincipalRegistry) : result HumanAuthConfig :=
  match (raw ← read path; v ← from_json raw; parse_human_config v) with
  | Some config => if forallb (valid_subject registry) (hc_subjects config) then Ok config
                   else Err (ERuntimeError "invalid human authentication configuration")
  | None => Err (ERuntimeError "invalid human authentication configuration")
  end.

(** ** Models *)

Record ProviderMetadata := mkProviderMetadata {
  pm_issuer : string; pm_authorization_endpoint : string; pm_token_endpoint : string; pm_jwks_uri : string;
  pm_code_challenge_methods : list string; pm_response_types : list string; pm_signing_algs : list string
}.

Inductive audience := AudOne (a : string) | AudMany (l : list string).

#[export] Instance audience_eq_dec : EqDecision audience.
Proof. solve_decision. Defined.

Record IdentityClaims := mkIdentityClaims {
  ic_iss : string; ic_sub : string; ic_aud : audience; ic_exp : Z; ic_iat : Z; ic_nbf : option Z; ic_azp : option string; ic_nonce : string
}.

Definition text_of (v : option json) : option string := match v with Some (JStr s) => if utf8_valid s then Some s else None | _ => None end.

Definition texts_of (v : option json) : option (list string) :=
  match v with Some (JList l) => mapM (fun x => text_of (Some x)) l | _ => None end.

Definition endpoint_of `{UrlSyntax} (v : option json) : option string :=
  s ← text_of v; match https_url s with Ok u => Some u | Err _ => None end.

(** [ProviderMetadata.model_validate_json] of the value that was read. *)
Definition parse_metadata `{UrlSyntax} (v : json) : option ProviderMetadata :=
  match v with
  | JDict d =>
      issuer ← text_of (dict_get "issuer" d);
      authorization_endpoint ← endpoint_of (dict_get "authorization_endpoint" d);
      token_endpoint ← endpoint_of (dict_get "token_endpoint" d);
      jwks_uri ← endpoint_of (dict_get "jwks_uri" d);
      methods ← texts_of (dict_get "code_challenge_methods_supported" d);
      types ← texts_of (dict_get "response_types_supported" d);
      algs ← texts_of (dict_get "id_token_signing_alg_values_supported" d);
      Some (mkProviderMetadata issuer authorization_endpoint token_endpoint jwks_uri methods types algs)
  | _ => None
  end.

(** [TokenResponse]: the identity token. *)
Definition parse_token_response (v : json) : option string :=
  match v with
  | JDict d => s ← text_of (dict_get "id_token" d); if (1 <=? code_points s) && (code_points s <=? 32768) then Some s else None
  | _ => None
  end.

Definition int_of (v : option json) : option Z := match v with Some (JInt n) => Some n | _ => None end.

(** A field with the default [None]. *)
Definition optional_of {A} (f : option json -> option A) (v : option json) : option (option A) :=
  match v with None | Some JNull => Some None | _ => x ← f v; Some (Some x) end.

Definition audience_of (v : option json) : option audience :=
  match text_of v with
  | Some s => Some (AudOne s)
  | None => l ← texts_of v; Some (AudMany l)
  end.

(** [IdentityClaims.model_validate]; a boolean is not an integer of a strict model. *)
Definition parse_claims (v : json) : option IdentityClaims :=
  match v with
  | JDict d =>
      iss ← text_of (dict_get "iss" d);
      sub ← text_of (dict_get "sub" d);
      if negb ((1 <=? code_points sub) && (code_points sub <=? 255)) then None else
      aud ← audience_of (dict_get "aud" d);
      exp ← int_of (dict_get "exp" d);
      iat ← int_of (dict_get "iat" d);
      nbf ← optional_of int_of (dict_get "nbf" d);
      azp ← optional_of text_of (dict_get "azp" d);
      nonce ← text_of (dict_get "nonce" d);
      Some (mkIdentityClaims iss sub aud exp iat nbf azp nonce)
  | _ => None
  end.

(** ** The client *)

(** A request: a form makes it a POST. *)
Record oidc_request := mkOidcRequest { oq_url : string; oq_data : option (list (string * string)) }.

Definition identity_unavailable : exn := raise_http 503 "human_identity_unavailable" "identity provider unavailable".

(** The key set of the token library. *)
Section oidc.
Context `{UrlSyntax} {W K : Type}.
Context (send : oidc_request -> eff W transport) (from_json : string -> option json).
Context (too_deep : string -> bool) (import_key_set : json -> result K) (jwt_decode : string -> K -> result json) (now_s : W -> Z).
Context (issuer client_id : string).

(** What a response is read as. *)
Definition read_oidc (t : transport) (maximum : Z) : result string :=
  match t with
  | SendTimeout | SendFailed => Err identity_unavailable
  | Received r =>
      if (rs_status r =? 429) || (500 <=? rs_status r) then Err identity_unavailable
      else if negb (rs_status r =? 200) then Err invalid_identity
      else if negb (bool_decide (lower (strip (default "identity" (dict_get "content-encoding" (rs_headers r)))) = "identity"%string))
      then Err invalid_identity
      else match read_chunks 0 maximum (rs_chunks r) (rs_end r) with
           | BodyRead body => Ok body
           | BodyTooLarge => Err invalid_identity
           | BodyTimeout | BodyFailed => Err identity_unavailable
           end
  end.

Definition _fetch (url : string) (data : option (list (string * string))) (maximum : Z) : eff W string :=
  _ ← lift (https_url url);
  t ← send (mkOidcRequest url data);
  lift (read_oidc t maximum).

Definition is_value_error (e : exn) : bool := match e with EValueError _ => true | _ => false end.

(** What the handler of [identity] catches: [JoseError], [ValueError], [TypeError]
    and [KeyError]. *)
Definition identity_caught (e : exn) : bool :=
  match e with EValueError _ => true | EOther m => elem m ["JoseError"; "TypeError"; "KeyError"]%string | _ => false end.

(** [except ...: raise invalid_identity()] *)
Definition catching {A} (caught : exn -> bool) (m : eff W A) : eff W A :=
  try_except m (fun e => if caught e then raise invalid_identity else raise e).

Definition discovery_url : string := (rstrip_slash issuer +:+ "/.well-known/openid-configuration")%string.

Definition supported (m : ProviderMetadata) : bool :=
  bool_decide (pm_issuer m = issuer) && elem "S256"%string (pm_code_challenge_methods m)
  && elem "code"%string (pm_response_types m) && elem "RS256"%string (pm_signing_algs m).

Definition of_option {A} (m : option A) : result A := match m with Some a => Ok a | None => Err (EValueError "ValidationError") end.

Definition metadata : eff W ProviderMetadata := catching is_value_error (
  raw ← _fetch discovery_url None 65536;
  m ← lift (of_option (from_json raw ≫= parse_metadata));
  if supported m then mret m else raise invalid_identity).

Definition authorization_url (redirect_uri state challenge nonce : string) : eff W string :=
  m ← metadata;
  mret (pm_authorization_endpoint m +:+ "?" +:+ urlencode
    [("response_type", "code"); ("client_id", client_id); ("redirect_uri", redirect_uri); ("scope", "openid"); ("state", state);
     ("nonce", nonce); ("code_challenge", challenge); ("code_challenge_method", "S256")])%string.

(** The condition under which the claims are accepted. *)
Definition claims_ok (c : IdentityClaims) (nonce : string) (now : Z) : bool :=
  bool_decide (ic_iss c = issuer)
  && elem (ic_aud c) [AudOne client_id; AudMany [client_id]]
  && match ic_azp c with Some azp => bool_decide (azp = client_id) | None => true end
  && bool_decide (ic_nonce c = nonce) && (now <? ic_exp c) && (ic_iat c <=? now) && (ic_iat c <? ic_exp c)
  && match ic_nbf c with Some nbf => nbf <=? now | None => true end.

Definition keys_of (v : json) : result K :=
  match v with
  | JDict d => match dict_get "keys" d with Some (JList _) => import_key_set v | _ => Err invalid_identity end
  | _ => Err invalid_identity
  end.

Definition RecursionError : exn := EOther "RecursionError".

(** [json.loads(raw_keys)] *)
Definition loads_keys (raw_keys : string) : result json :=
  if too_deep raw_keys then Err RecursionError else of_option (json_loads_bytes false false raw_keys).

Definition identity (code verifier redirect_uri nonce : string) : eff W string :=
  m ← metadata;
  catching identity_caught (
    raw ← _fetch (pm_token_endpoint m)
            (Some [("grant_type", "authorization_code"); ("client_id", client_id); ("redirect_uri", redirect_uri); ("code", code);
                   ("code_verifier", verifier)]%string) 65536;
    id_token ← lift (of_option (from_json raw ≫= parse_token_response));
    raw_keys ← _fetch (pm_jwks_uri m) None 262144;
    keys_value ← lift (loads_keys raw_keys);
    keys ← lift (keys_of keys_value);
    claims_value ← lift (jwt_decode id_token keys);
    claims ← lift (of_option (parse_claims claims_value));
    w ← get_state;
    if claims_ok claims nonce (now_s w) then mret (ic_sub claims) else raise invalid_identity).
End oidc.

(** ** The OpenID Connect client: theorems

    An identity is accepted only from a provider that is the configured one,
    over HTTPS, by a token whose signature and claims were checked; every other
    outcome is one of two errors or an exception the code does not catch. *)

(** ** URLs *)

(** A URL whose scheme is HTTPS, with a network location. *)
Definition secure (url : string) : Prop :=
  exists scheme rest, url = (scheme +:+ "://" +:+ rest)%string /\ lower scheme = "https"%string.

Section urls.
Context `{UrlSyntax}.

Lemma https_url_ok value v : https_url value = Ok v -> v = value /\ secure value.
Proof.
  unfold https_url. destruct (existsb _ _) eqn:Eclean; [done|]. destruct (urlsplit value) as [u|] eqn:Eu; [|done].
  destruct (hostinfo u) as [host port] eqn:Eh. destruct (_ || _) eqn:Ec; [done|]. rewrite !orb_false_iff in Ec.
  destruct Ec as ((((((((Hs & Hh) & _) & _) & _) & _) & _) & _) & _). destruct (port_ok port); [|done]. intros [= <-]. split; [done|].
  apply negb_false_iff, bool_decide_eq_true in Hs. apply bool_decide_eq_false in Hh.
  destruct (urlsplit_shape value u Eu) as (scheme & rest & Hv & Hl); [by rewrite Hs| |].
  - intros Hn. apply Hh. unfold hostinfo in Eh. rewrite Hn in Eh. simpl in Eh. by injection Eh as <- _.
  - rewrite clean_url_id, of_chars_chars in Hv by done. exists scheme, rest. by rewrite Hl.
Qed.
End urls.

(** A loaded mapping leads every subject to a human principal, so that the
    session of an exchange is never refused as revoked. *)
Lemma loaded_subjects_human `{UrlSyntax} read from_json path resolver config pid k gs :
  load_human_config read from_json path (res_registry resolver) = Ok config -> pid ∈ map snd (hc_subjects config) ->
  exists s, session_of resolver (mkStoredSession pid k gs) = AuthOk s /\ ps_principal_id s = pid /\ ps_key_id s = k.
Proof.
  unfold load_human_config. destruct (_ ≫= _) as [c|]; [|done]. destruct (forallb _ _) eqn:Ef; [|done]. intros [= <-] Hin.
  apply list_elem_of_In, List.in_map_iff in Hin as ([subject pid'] & Hp & Hin). simpl in Hp. subst pid'.
  rewrite List.forallb_forall in Ef. specialize (Ef _ Hin). unfold valid_subject in Ef.
  rewrite !andb_true_iff in Ef. destruct Ef as (((_ & _) & Hh) & _). unfold session_of. cbn [ss_principal_id ss_key_id ss_grants].
  destruct (dict_get pid _) as [p|]; [|done]. rewrite Hh. eexists. done.
Qed.

(** ** The client *)

Section client.
Context `{UrlSyntax} {W K : Type}.
Context (send : oidc_request -> eff W transport) (from_json : string -> option json).
Context (too_deep : string -> bool) (import_key_set : json -> result K) (jwt_decode : string -> K -> result json) (now_s : W -> Z).
Context (issuer client_id : string).

(** The errors of the client. *)
Definition oidc_error (e : exn) : Prop := e = invalid_identity \/ e = identity_unavailable.

(** A request over HTTPS that was answered in full with status 200, within the
    limit and not encoded. *)
Definition fetched (url : string) (data : option (list (string * string))) (maximum : Z) (raw : string) (w w' : W) : Prop :=
  secure url /\ exists r, send (mkOidcRequest url data) w = (Ok (Received r), w')
  /\ rs_status r = 200 /\ rs_end r = StreamDone /\ read_chunks 0 maximum (rs_chunks r) StreamDone = BodyRead raw.

Lemma read_oidc_ok t maximum raw : read_oidc t maximum = Ok raw ->
  exists r, t = Received r /\ rs_status r = 200 /\ rs_end r = StreamDone /\ read_chunks 0 maximum (rs_chunks r) StreamDone = BodyRead raw.
Proof.
  unfold read_oidc. destruct t as [| |r]; try done. destruct (_ || _); [done|]. destruct (negb (rs_status r =? 200)) eqn:E; [done|].
  apply negb_false_iff, Z.eqb_eq in E. destruct (negb _); [done|].
  destruct (read_chunks 0 maximum (rs_chunks r) (rs_end r)) as [body| | |] eqn:Eb; try done. intros [= <-]. exists r.
  assert (Hend : rs_end r = StreamDone); [|by rewrite Hend in Eb].
  clear E. revert body Eb. generalize 0 at 1. induction (rs_chunks r) as [|c l IH]; intros size body Eb; cbn [read_chunks] in Eb.
  - by destruct (rs_end r).
  - destruct (maximum <? _); [done|]. destruct (read_chunks _ _ l (rs_end r)) as [tail| | |] eqn:Et; try done. by eapply IH.
Qed.

Lemma read_oidc_err t maximum e : read_oidc t maximum = Err e -> oidc_error e.
Proof.
  unfold read_oidc. destruct t as [| |r]; [intros [= <-]; by right..|]. destruct (_ || _); [intros [= <-]; by right|].
  destruct (negb _); [intros [= <-]; by left|]. destruct (negb _); [intros [= <-]; by left|].
  destruct (read_chunks _ _ _ _); intros [= <-]; [by left|by right|by right].
Qed.

Lemma fetch_ok url data maximum w raw w' :
  _fetch send url data maximum w = (Ok raw, w') -> fetched url data maximum raw w w'.
Proof.
  unfold _fetch. intros Hf. eff_inv. apply https_url_ok in H0 as [_ Hsec]. split; [done|].
  apply read_oidc_ok in Hf as (resp & -> & Hr). by exists resp.
Qed.

(** What is called raised it: sending a request, reading the keys, or the token
    library. *)
Definition raised_outside (e : exn) : Prop :=
  (exists rq w w', send rq w = (Err e, w')) \/ (e = RecursionError /\ exists raw, too_deep raw = true)
  \/ (exists v, import_key_set v = Err e) \/ exists token keys, jwt_decode token keys = Err e.

(** What [m] may raise, and what of it [catching] lets through. *)
Definition fails_safely {A} (m : eff W A) : Prop := forall w e w', m w = (Err e, w') -> oidc_error e \/ is_value_error e = true \/ raised_outside e.

Lemma fetch_err url data maximum : fails_safely (_fetch send url data maximum).
Proof.
  intros w e w' Hf. unfold _fetch in Hf. apply bind_err_inv in Hf as [Hf|(v & w1 & _ & Hf)].
  - right; left. unfold lift in Hf. injection Hf as Hf _. unfold https_url in Hf. destruct (existsb _ _); [by injection Hf as <-|].
    destruct (urlsplit url); [|by injection Hf as <-]. destruct (hostinfo _) as [host port].
    destruct (_ || _); [by injection Hf as <-|]. destruct (port_ok port); [done|by injection Hf as <-].
  - apply bind_err_inv in Hf as [Hf|(t & w2 & _ & Hf)]; [right; right; left; by eexists _, _, _|].
    left. unfold lift in Hf. injection Hf as Hf _. by eapply read_oidc_err.
Qed.

Lemma fails_bind {A B} (m : eff W A) (k : A -> eff W B) : fails_safely m -> (forall a, fails_safely (k a)) -> fails_safely (m ≫= k).
Proof. intros Hm Hk w e w' [Hf|(a & w1 & _ & Hf)]%bind_err_inv; [by eapply Hm|by eapply Hk]. Qed.

Lemma fails_lift {A} (r : result A) : (forall e, r = Err e -> oidc_error e \/ is_value_error e = true \/ raised_outside e) -> fails_safely (lift r).
Proof. intros Hr w e w' [= Hf _]. by apply Hr. Qed.

Lemma fails_option {A} (o : option A) : fails_safely (lift (of_option o)).
Proof. apply fails_lift. intros e Hf. destruct o; [done|]. injection Hf as <-. by right; left. Qed.

Lemma fails_if (b : bool) {A} (a : A) : fails_safely (if b then mret a else raise invalid_identity).
Proof. intros w e w' Hf. destruct b; [done|]. injection Hf as <- _. left. by left. Qed.

Lemma catching_err {A} caught (m : eff W A) w e w' : (forall e, is_value_error e = true -> caught e = true) -> fails_safely m ->
  catching caught m w = (Err e, w') -> oidc_error e \/ is_value_error e = false /\ raised_outside e.
Proof.
  intros Hc Hm. unfold catching, try_except. destruct (m w) as [[a|x] w1] eqn:E; [done|]. apply Hm in E.
  destruct (caught x) eqn:Ev; intros [= <- _]; [by left; left|]. destruct E as [E|[E|E]]; [by left|by rewrite Hc in Ev|].
  right. split; [|done]. destruct (is_value_error x) eqn:Ex; [by rewrite Hc in Ev|done].
Qed.

Lemma catching_ok {A} caught (m : eff W A) w a w' : catching caught m w = (Ok a, w') -> m w = (Ok a, w').
Proof.
  unfold catching, try_except. destruct (m w) as [[x|x] w1]; [done|]. by destruct (caught x).
Qed.

Lemma metadata_ok w m w' :
  metadata send from_json issuer w = (Ok m, w') ->
  exists raw v, fetched (discovery_url issuer) None 65536 raw w w' /\ from_json raw = Some v /\ parse_metadata v = Some m /\ supported issuer m = true.
Proof.
  unfold metadata. intros Hm. apply catching_ok in Hm. eff_inv. apply fetch_ok in H0.
  destruct (from_json r) as [v|] eqn:Ej; [|done]. unfold of_option in H1. cbn [mbind option_bind] in H1.
  destruct (parse_metadata v) as [m'|] eqn:Ep; [|done]. injection H1 as <-.
  destruct (supported issuer m') eqn:Es; [|done]. eff_inv. exists r, v. done.
Qed.

Lemma metadata_err w e w' : metadata send from_json issuer w = (Err e, w') -> oidc_error e \/ is_value_error e = false /\ raised_outside e.
Proof.
  unfold metadata. apply catching_err; [done|]. apply fails_bind; [exact (fetch_err _ _ _)|intros raw].
  apply fails_bind; [apply fails_option|intros m]. apply fails_if.
Qed.

Lemma fails_keys v : fails_safely (lift (keys_of import_key_set v)).
Proof.
  apply fails_lift. intros e Hk. unfold keys_of in Hk. destruct v as [| | | | | |d]; try (injection Hk as <-; left; by left).
  destruct (dict_get _ d) as [[| | | | |l|]|]; try (injection Hk as <-; left; by left). right; right; right; right; left. by eexists.
Qed.

Lemma fails_loads raw : fails_safely (lift (loads_keys too_deep raw)).
Proof.
  unfold loads_keys. destruct (too_deep raw) eqn:Ed; [|apply fails_option]. apply fails_lift. intros e [= <-]. right; right; right; left. split; [done|by exists raw].
Qed.

Lemma fails_decode token keys : fails_safely (lift (jwt_decode token keys)).
Proof. apply fails_lift. intros e He. right; right; right; right; right. by eexists _, _. Qed.

(** The claims the router asks for, at the time [now]. *)
Definition trusted (c : IdentityClaims) (nonce : string) (now : Z) : Prop :=
  ic_iss c = issuer /\ (ic_aud c = AudOne client_id \/ ic_aud c = AudMany [client_id])
  /\ (forall azp, ic_azp c = Some azp -> azp = client_id) /\ ic_nonce c = nonce
  /\ ic_iat c <= now < ic_exp c /\ (forall nbf, ic_nbf c = Some nbf -> nbf <= now).

Lemma claims_ok_trusted c nonce now : claims_ok issuer client_id c nonce now = true -> trusted c nonce now.
Proof.
  unfold claims_ok. rewrite !andb_true_iff, !bool_decide_eq_true, elem_true, !Z.ltb_lt, Z.leb_le.
  intros (((((((Hi & Ha) & Hz) & Hn) & Hx) & Ht) & _) & Hb). split_and!; try done.
  - set_unfold in Ha. naive_solver.
  - intros azp E. rewrite E in Hz. by apply bool_decide_eq_true in Hz.
  - intros nbf E. rewrite E in Hb. by apply Z.leb_le in Hb.
Qed.

(** The form of the token request. *)
Definition token_form (code verifier redirect_uri : string) : list (string * string) :=
  [("grant_type", "authorization_code"); ("client_id", client_id); ("redirect_uri", redirect_uri); ("code", code); ("code_verifier", verifier)]%string.

(** C34: an identity is believed only after every check. The client returns a
    subject only when the configured provider, asked over HTTPS, described itself
    with the router's issuer and the required methods; the code and its verifier
    were sent to that provider's token endpoint and nowhere else; the keys came
    from its key set; the token's signature was verified with them; and its
    claims name the issuer, this client and the nonce of the login and are valid
    now. Otherwise it raises one of two errors, 401 or 503, or an exception that is
    not a [ValueError] and that sending a request (httpx's [InvalidURL], a
    cancellation), reading key sets nested too deeply ([RecursionError]) or the
    token library raised. *)
Theorem identity_checked code verifier redirect_uri nonce w :
  match identity send from_json too_deep import_key_set jwt_decode now_s issuer client_id code verifier redirect_uri nonce w with
  | (Ok sub, w') =>
      exists raw1 v1 m w1 raw2 v2 token w2 raw3 v3 keys v4 claims,
        fetched (discovery_url issuer) None 65536 raw1 w w1 /\ from_json raw1 = Some v1 /\ parse_metadata v1 = Some m /\ supported issuer m = true
        /\ fetched (pm_token_endpoint m) (Some (token_form code verifier redirect_uri)) 65536 raw2 w1 w2
        /\ from_json raw2 = Some v2 /\ parse_token_response v2 = Some token
        /\ fetched (pm_jwks_uri m) None 262144 raw3 w2 w' /\ json_loads_bytes false false raw3 = Some v3 /\ import_key_set v3 = Ok keys
        /\ jwt_decode token keys = Ok v4 /\ parse_claims v4 = Some claims /\ trusted claims nonce (now_s w') /\ sub = ic_sub claims
  | (Err e, _) => oidc_error e \/ is_value_error e = false /\ raised_outside e
  end.
Proof.
  destruct (identity _ _ _ _ _ _ _ _ _ _ _ _ w) as [[sub|e] w'] eqn:E; unfold identity in E.
  - eff_inv. rename r into m, s into w1. apply metadata_ok in H0 as (raw1 & v1 & Hf1 & Hj1 & Hp1 & Hsup).
    apply catching_ok in E. eff_inv. apply fetch_ok in H0, H2. unfold of_option, loads_keys in *.
    destruct (from_json r) as [v2|] eqn:Ej2; [|done]. cbn [mbind option_bind] in *.
    destruct (parse_token_response v2) as [token|] eqn:Et; [|done]. injection H1 as <-. destruct (too_deep r1); [done|]. unfold of_option in *.
    destruct (json_loads_bytes false false r1) as [v3|] eqn:Ej3; [|done]. injection H3 as <-.
    unfold keys_of in H4. destruct v3 as [| | | | | |d]; try done. destruct (dict_get _ d) as [[| | | | |l|]|]; try done.
    destruct (parse_claims r4) as [claims|] eqn:Ec; [|done]. injection H6 as <-.
    destruct (claims_ok _ _ _ _ _) eqn:Eok; [|done]. eff_inv. apply claims_ok_trusted in Eok.
    eexists raw1, v1, m, w1, r, v2, token, _, r1, (JDict d), r3, r4, claims. split_and!; done.
  - apply bind_err_inv in E as [E|(m & w1 & _ & E)]; [by eapply metadata_err|]. revert E. apply catching_err; [by intros []|].
    apply fails_bind; [exact (fetch_err _ _ _)|intros raw]. apply fails_bind; [apply fails_option|intros token].
    apply fails_bind; [exact (fetch_err _ _ _)|intros raw_keys]. apply fails_bind; [apply fails_loads|intros keys_value].
    apply fails_bind; [apply fails_keys|intros keys]. apply fails_bind; [apply fails_decode|intros claims_value].
    apply fails_bind; [apply fails_option|intros claims]. apply fails_bind; [done|intros w0]. apply fails_if.
Qed.
End client.

(** ** A provider *)

Module Example_provider.
#[local] Instance plain_urls : UrlSyntax := {| bracketed_ok := fun _ => false; netloc_ok := fun _ => false; unicode_lower := fun s => s; ipv6_flags := fun _ => None |}.

Definition issuer : string := "https://id.example/tenant/".
Definition texts (l : list string) : json := JList (map JStr l).
Definition description : json :=
  JDict [("issuer", JStr issuer); ("authorization_endpoint", JStr "https://id.example/authorize"); ("token_endpoint", JStr "HTTPS://id.example:8443/token");
         ("jwks_uri", JStr "https://id.example/keys"); ("code_challenge_methods_supported", texts ["plain"; "S256"]);
         ("response_types_supported", texts ["code"]); ("id_token_signing_alg_values_supported", texts ["RS256"])].
Definition claims : json :=
  JDict [("iss", JStr issuer); ("sub", JStr "subject-1"); ("aud", texts ["router"]); ("exp", JInt 2000); ("iat", JInt 1000); ("nonce", JStr "nonce")].

Definition answer (body : json) : transport := Received (mkHttpResponse 200 [("content-encoding", " Identity ")] [json_dumps body] StreamDone).

(** The state is the log of the URLs that were asked. *)
Definition send (rq : oidc_request) : eff (list string) transport := fun log =>
  (Ok (if bool_decide (oq_url rq = "https://id.example/tenant/.well-known/openid-configuration"%string) then answer description
       else if bool_decide (oq_url rq = "HTTPS://id.example:8443/token"%string) then answer (JDict [("id_token", JStr "signed")])
       else answer (JDict [("keys", JList [])])), log ++ [oq_url rq]).

Definition decode (token : string) (keys : json) : result json := if bool_decide (token = "signed"%string) then Ok claims else Err (EOther "JoseError").
Definition asked : list string :=
  ["https://id.example/tenant/.well-known/openid-configuration"; "HTTPS://id.example:8443/token"; "https://id.example/keys"].

Definition ask (nonce : string) : result string * list string :=
  identity send json_loads (fun raw => 100000 <? slen raw) Ok decode (fun _ => 1500) issuer "router" "code" "verifier" "http://127.0.0.1:9000/callback" nonce [].

Example identified : ask "nonce" = (Ok "subject-1", asked).
Proof. vm_compute. reflexivity. Qed.

Example replayed : ask "other" = (Err invalid_identity, asked).
Proof. vm_compute. reflexivity. Qed.

(** URLs the check refuses. *)
Example refused_urls :
  map (fun u => is_ok (https_url u)) ["http://id.example/"; "https://u@id.example/"; "https://id.example/a?b"; "https://id.example/a/../b";
    "https://id.example:0/"; "https:///x"; "https://id.example/%2e"; "https://id.example//"] = replicate 8 false.
Proof. vm_compute. reflexivity. Qed.

Lemma identity_checked_witness :
  exists raw3 w2, fetched send "https://id.example/keys" None 262144 raw3 w2 asked
  /\ exists c, parse_claims claims = Some c /\ trusted issuer "router" c "nonce" 1500 /\ ic_sub c = "subject-1"%string.
Proof.
  pose proof (identity_checked send json_loads (fun raw => 100000 <? slen raw) Ok decode (fun _ => 1500) issuer "router" "code" "verifier"
    "http://127.0.0.1:9000/callback" "nonce" []) as Ht.
  change (identity _ _ _ _ _ _ _ _ _ _ _ _ _) with (ask "nonce") in Ht. rewrite identified in Ht.
  destruct Ht as (raw1 & v1 & m & w1 & raw2 & v2 & token & w2 & raw3 & v3 & keys & v4 & c & H1 & Hj1 & Hm & _ & _ & _ & _ & Hk & _ & _ & Hd & Hc & Ht & Hs).
  exists raw3, w2. split.
  - destruct H1 as (_ & r & Hr & _ & _ & Hb). vm_compute in Hr. injection Hr as <- _. vm_compute in Hb. injection Hb as <-.
    vm_compute in Hj1. injection Hj1 as <-. vm_compute in Hm. injection Hm as <-. exact Hk.
  - exists c. split_and!; [|exact Ht|by rewrite Hs].
    unfold decode in Hd. destruct (bool_decide _); [|done]. injection Hd as <-. exact Hc.
Defined.
End Example_provider.
