(* ===== verification/Chars.v ===== *)
(** * Texts of the content scanner

    The scanner looks at single characters, so here a Python [str] is the list of
    its code points ([text]). This file has the UTF-8 codec of the interpreter
    (strict, incremental and with replacement), the character predicates, and the
    string operations the scanner uses. What the Unicode database says about
    characters outside ASCII is the class [UnicodeDb]; ASCII is written out.

    A text with a lone surrogate has no encoding: [encodable] is the check, which
    the scanner makes on every field before anything else looks at it. [encode] is
    total, and is [str.encode] on encodable texts. *)

From Stdlib Require Import ZArith Lia Ascii.
From stdpp Require Import base sets strings numbers list.
From S2P Require Import Prelude Text.

Local Open Scope Z_scope.

Abbreviation text := (list Z).

(** A literal of the sources. *)
Definition u (s : string) : text := map code_of (chars s).

Definition tlen (t : text) : Z := Z.of_nat (length t).

(** ** Characters *)

Class UnicodeDb := {
  db_printable : Z -> bool;
  db_space : Z -> bool;
  db_alnum : Z -> bool;
  db_alpha : Z -> bool;
  db_digit : Z -> bool;
  db_decimal : Z -> bool;
  db_decimal_value : Z -> Z;
  db_category : Z -> string;
  db_name : Z -> string;
  db_casefold : Z -> text;
  normalize_nfkc : text -> text;
  normalize_nfd : text -> text
}.

Definition between (lo hi c : Z) : bool := (lo <=? c) && (c <=? hi).

(** [char.isascii()] *)
Definition isascii (c : Z) : bool := c <? 128.
Definition ascii_digit : Z -> bool := between 48 57.
Definition ascii_upper : Z -> bool := between 65 90.
Definition ascii_lower : Z -> bool := between 97 122.

Section chars.
Context `{UnicodeDb}.

Definition isprintable (c : Z) : bool := if isascii c then between 32 126 c else db_printable c.
Definition isspace (c : Z) : bool := if isascii c then between 9 13 c || between 28 32 c else db_space c.
Definition isalnum (c : Z) : bool := if isascii c then ascii_digit c || ascii_upper c || ascii_lower c else db_alnum c.
Definition isalpha (c : Z) : bool := if isascii c then ascii_upper c || ascii_lower c else db_alpha c.
Definition isdigit (c : Z) : bool := if isascii c then ascii_digit c else db_digit c.
(** [t.casefold()], which folds each character on its own. *)
Definition casefold (t : text) : text := concat (map (fun c => if isascii c then [if ascii_upper c then c + 32 else c] else db_casefold c) t).
(** The class [\d] of a pattern on [str]. *)
Definition isdecimal (c : Z) : bool := if isascii c then ascii_digit c else db_decimal c.
(** [int(char)] of a decimal digit. *)
Definition decimal_value (c : Z) : Z := if isascii c then c - 48 else db_decimal_value c.
(** [unicodedata.category(char) == "Cf"]: no ASCII character is a format character. *)
Definition is_format (c : Z) : bool := negb (isascii c) && bool_decide (db_category c = "Cf"%string).

(** [char in "\t\n\r"] *)
Definition tab_or_newline (c : Z) : bool := elem c [9; 10; 13].

(** [t.lstrip()], [t.rstrip()] and [t.strip()] for a class of characters. *)
Fixpoint lstrip_by (p : Z -> bool) (t : text) : text :=
  match t with [] => [] | c :: t' => if p c then lstrip_by p t' else t end.
Definition rstrip_by (p : Z -> bool) (t : text) : text := rev (lstrip_by p (rev t)).
Definition strip_by (p : Z -> bool) (t : text) : text := rstrip_by p (lstrip_by p t).
Definition strip : text -> text := strip_by isspace.

End chars.

(** [ch in t] and [t.split(ch, 1)[0]] *)
Definition has (c : Z) (t : text) : bool := elem c t.
Fixpoint head_before (sep : Z) (t : text) : text :=
  match t with [] => [] | c :: t' => if c =? sep then [] else c :: head_before sep t' end.

(** [t[i:j]] for indices in range. *)
Definition slice (i j : nat) (t : text) : text := take (j - i) (drop i t).

(** [sep.join(parts)] *)
Fixpoint tjoin (sep : text) (parts : list text) : text :=
  match parts with
  | [] => []
  | [x] => x
  | x :: rest => x ++ sep ++ tjoin sep rest
  end.

(** [t.endswith(p)] *)
Definition ends_with (p t : text) : bool := bool_decide (drop (length t - length p) t = p).

(** A match of a pattern: where it starts and what it covers. *)
Record re_match := mkMatch { m_start : nat; m_group : text }.
Definition m_end (m : re_match) : nat := (m_start m + length (m_group m))%nat.

(** [re.compile("[class]+").finditer(t)]: the maximal runs of a class. *)
Fixpoint runs_from (p : Z -> bool) (pos : nat) (run : text) (t : text) : list re_match :=
  let found := match run with [] => [] | _ => [mkMatch (pos - length run) run] end in
  match t with
  | [] => found
  | c :: t' => if p c then runs_from p (S pos) (run ++ [c]) t' else found ++ runs_from p (S pos) [] t'
  end.
Definition finditer_runs (p : Z -> bool) (t : text) : list re_match := runs_from p 0 [] t.

(** ** UTF-8 *)

Definition encode_char (c : Z) : list Z :=
  if c <? 128 then [c]
  else if c <? 2048 then [192 + c / 64; 128 + c mod 64]
  else if c <? 65536 then [224 + c / 4096; 128 + c / 64 mod 64; 128 + c mod 64]
  else [240 + c / 262144; 128 + c / 4096 mod 64; 128 + c / 64 mod 64; 128 + c mod 64].

(** [t.encode("utf-8")] *)
Definition encode (t : text) : list Z := concat (map encode_char t).

Definition scalar (c : Z) : bool := between 0 55295 c || between 57344 1114111 c.
Definition encodable (t : text) : bool := forallb scalar t.

(** The number of bytes of [t.encode("utf-8")]. *)
Definition nbytes (t : text) : Z := tlen (encode t).

Definition cont (b : Z) : bool := between 128 191 b.

(** One step of the decoder: a character and what follows it, an invalid
    sequence of [n] bytes, or a sequence cut off by the end of the data. *)
Inductive decode_step :=
  | DChar (c : Z) (rest : list Z)
  | DBad (n : nat)
  | DCut.

Definition bad_second (a b : Z) : bool :=
  negb (cont b) || ((a =? 224) && (b <? 160)) || ((a =? 237) && (160 <=? b))
  || ((a =? 240) && (b <? 144)) || ((a =? 244) && (144 <=? b)).

Definition decode_one (a : Z) (l : list Z) : decode_step :=
  if a <? 128 then DChar a l
  else if a <? 194 then DBad 1
  else match l with
  | [] => if a <? 245 then DCut else DBad 1
  | b :: l1 =>
      if 245 <=? a then DBad 1
      else if bad_second a b then DBad 1
      else if a <? 224 then DChar ((a - 192) * 64 + (b - 128)) l1
      else match l1 with
      | [] => DCut
      | c :: l2 =>
          if negb (cont c) then DBad 2
          else if a <? 240 then DChar ((a - 224) * 4096 + (b - 128) * 64 + (c - 128)) l2
          else match l2 with
          | [] => DCut
          | d :: l3 =>
              if negb (cont d) then DBad 3
              else DChar ((a - 240) * 262144 + (b - 128) * 4096 + (c - 128) * 64 + (d - 128)) l3
          end
      end
  end.

(** [data.decode("utf-8")]: the text, or the position [exc.start] of the error. *)
Fixpoint decode_from (fuel : nat) (pos : nat) (l : list Z) : text + nat :=
  match l, fuel with
  | [], _ => inl []
  | _, O => inr pos
  | a :: l', S f =>
      match decode_one a l' with
      | DChar c rest =>
          match decode_from f (pos + (length l - length rest)) rest with
          | inl t => inl (c :: t)
          | inr e => inr e
          end
      | _ => inr pos
      end
  end.
Definition decode (l : list Z) : text + nat := decode_from (length l) 0 l.

(** [codecs.getincrementaldecoder("utf-8")().decode(data, final=False)]: a
    sequence cut off at the end is kept for later, also one that would be a
    surrogate. *)
Definition kept_back (l : list Z) : bool :=
  match l with [a; b] => (a =? 237) && between 160 191 b | _ => false end.
Fixpoint decode_more (fuel : nat) (l : list Z) : option text :=
  match l, fuel with
  | [], _ => Some []
  | _, O => None
  | a :: l', S f =>
      match decode_one a l' with
      | DChar c rest => match decode_more f rest with Some t => Some (c :: t) | None => None end
      | DBad _ => if kept_back l then Some [] else None
      | DCut => Some []
      end
  end.
Definition decode_incremental (l : list Z) : option text := decode_more (length l) l.

(** [data.decode("utf-8", errors="replace")] *)
Fixpoint decode_replacing (fuel : nat) (l : list Z) : text :=
  match l, fuel with
  | [], _ => []
  | _, O => []
  | a :: l', S f =>
      match decode_one a l' with
      | DChar c rest => c :: decode_replacing f rest
      | DBad n => 65533 :: decode_replacing f (drop n l)
      | DCut => [65533]
      end
  end.
Definition decode_replace (l : list Z) : text := decode_replacing (length l) l.

(** ** Laws of the codec *)

(** Decide the comparisons of constants and variables in the goal. *)
Ltac compare_z := repeat match goal with
  | |- context [(?x <? ?y)] => first [rewrite (proj2 (Z.ltb_lt x y)) by lia | rewrite (proj2 (Z.ltb_ge x y)) by lia]
  | |- context [(?x <=? ?y)] => first [rewrite (proj2 (Z.leb_le x y)) by lia | rewrite (proj2 (Z.leb_gt x y)) by lia]
  | |- context [(?x =? ?y)] => first [rewrite (proj2 (Z.eqb_eq x y)) by lia | rewrite (proj2 (Z.eqb_neq x y)) by lia | destruct (Z.eqb_spec x y)]
  end; cbn [andb orb negb].

(** The digits of a code point to base 64. *)
Lemma digits64 c : 0 <= c ->
  exists x y z w, c = x * 262144 + y * 4096 + z * 64 + w /\ 0 <= x /\ 0 <= y < 64 /\ 0 <= z < 64 /\ 0 <= w < 64
  /\ c / 262144 = x /\ c / 4096 = x * 64 + y /\ c / 64 = x * 4096 + y * 64 + z /\ c mod 64 = w
  /\ c / 4096 mod 64 = y /\ c / 64 mod 64 = z.
Proof.
  intros Hc. exists (c / 262144), (c / 4096 mod 64), (c / 64 mod 64), (c mod 64).
  split_and!; Z.to_euclidean_division_equations; lia.
Qed.

(** Decoding the encoding of a character gives the character back. *)
Lemma decode_one_encode c rest : scalar c = true ->
  exists a l, encode_char c ++ rest = a :: l /\ decode_one a l = DChar c rest.
Proof.
  intros Hc. assert (H : 0 <= c <= 1114111 /\ (c < 55296 \/ 57343 < c)) by (unfold scalar, between in Hc; lia). clear Hc.
  destruct (digits64 c) as (x & y & z & w & -> & Hx & Hy & Hz & Hw & E1 & E2 & E3 & E4 & E5 & E6); [lia|].
  unfold encode_char. rewrite E5, E6, E1, E2, E3, E4. clear E1 E2 E3 E4 E5 E6. set (c := x * 262144 + y * 4096 + z * 64 + w) in *.
  assert (Hcv : c = x * 262144 + y * 4096 + z * 64 + w) by done.
  destruct (Z.ltb_spec c 128) as [H1|H1]; [|destruct (Z.ltb_spec c 2048) as [H2|H2]; [|destruct (Z.ltb_spec c 65536) as [H3|H3]]].
  - exists c, rest. split; [done|]. unfold decode_one. by compare_z.
  - eexists _, _. split; [done|]. unfold decode_one, bad_second, cont, between. simpl. compare_z. f_equal. lia.
  - eexists _, _. split; [done|]. unfold decode_one, bad_second, cont, between. simpl. compare_z; f_equal; lia.
  - eexists _, _. split; [done|]. unfold decode_one, bad_second, cont, between. simpl. compare_z; f_equal; lia.
Qed.

(** The bytes of a decoded sequence are the encoding of its digits. *)
Lemma encode_digits x y z w : 0 <= x -> 0 <= y < 64 -> 0 <= z < 64 -> 0 <= w < 64 ->
  encode_char (x * 262144 + y * 4096 + z * 64 + w) =
  if x * 262144 + y * 4096 + z * 64 + w <? 128 then [x * 262144 + y * 4096 + z * 64 + w]
  else if x * 262144 + y * 4096 + z * 64 + w <? 2048 then [192 + (x * 4096 + y * 64 + z); 128 + w]
  else if x * 262144 + y * 4096 + z * 64 + w <? 65536 then [224 + (x * 64 + y); 128 + z; 128 + w]
  else [240 + x; 128 + y; 128 + z; 128 + w].
Proof.
  intros Hx Hy Hz Hw. unfold encode_char.
  destruct (digits64 (x * 262144 + y * 4096 + z * 64 + w)) as (x' & y' & z' & w' & Heq & ? & ? & ? & ? & E1 & E2 & E3 & E4 & E5 & E6); [lia|].
  rewrite E5, E6, E1, E2, E3, E4. assert (x' = x /\ y' = y /\ z' = z /\ w' = w) as (-> & -> & -> & ->) by lia. done.
Qed.

(** A decoded character is a scalar value, and its bytes are its encoding. *)
Lemma decode_one_char a l c rest : 0 <= a -> decode_one a l = DChar c rest ->
  scalar c = true /\ a :: l = encode_char c ++ rest.
Proof.
  intros Ha. unfold decode_one.
  destruct (Z.ltb_spec a 128) as [H1|H1].
  { intros [= <- <-]. unfold scalar, encode_char, between. by compare_z. }
  destruct (Z.ltb_spec a 194) as [|H2]; [done|]. destruct l as [|b l1]; [by case_match|].
  destruct (Z.leb_spec 245 a) as [|H3]; [done|]. destruct (bad_second a b) eqn:Eb; [done|].
  unfold bad_second, cont, between in Eb.
  assert (Hb : 128 <= b <= 191 /\ (a = 224 -> 160 <= b) /\ (a = 237 -> b < 160) /\ (a = 240 -> 144 <= b) /\ (a = 244 -> b < 144)) by lia.
  clear Eb. destruct (Z.ltb_spec a 224) as [H4|H4].
  { intros [= <- <-]. pose proof (encode_digits 0 0 (a - 192) (b - 128)) as He. rewrite !Z.mul_0_l, !Z.add_0_l in He.
    rewrite He by lia. unfold scalar, between. compare_z. split; [done|]. simpl. repeat f_equal; lia. }
  destruct l1 as [|d l2]; [done|]. destruct (cont d) eqn:Ed; [|done]. unfold cont, between in Ed. simpl.
  assert (Hd : 128 <= d <= 191) by lia. clear Ed. destruct (Z.ltb_spec a 240) as [H5|H5].
  { intros [= <- <-]. pose proof (encode_digits 0 (a - 224) (b - 128) (d - 128)) as He. rewrite !Z.mul_0_l, !Z.add_0_l in He.
    rewrite He by lia. unfold scalar, between. split; [lia|]. compare_z. simpl. repeat f_equal; lia. }
  destruct l2 as [|e l3]; [done|]. destruct (cont e) eqn:Ee; [|done]. unfold cont, between in Ee. simpl.
  assert (He : 128 <= e <= 191) by lia. clear Ee. intros [= <- <-]. rewrite encode_digits by lia. unfold scalar, between. split; [lia|].
  compare_z. simpl. repeat f_equal; lia.
Qed.

Lemma encode_app t1 t2 : encode (t1 ++ t2) = encode t1 ++ encode t2.
Proof. unfold encode. by rewrite map_app, concat_app. Qed.

Lemma encode_cons c t : encode (c :: t) = encode_char c ++ encode t.
Proof. done. Qed.

Lemma encode_char_length c : (1 <= length (encode_char c) <= 4)%nat.
Proof. unfold encode_char. repeat case_match; simpl; lia. Qed.

Lemma encodable_app t1 t2 : encodable (t1 ++ t2) = encodable t1 && encodable t2.
Proof. apply forallb_app. Qed.

Lemma nbytes_app t1 t2 : nbytes (t1 ++ t2) = nbytes t1 + nbytes t2.
Proof. unfold nbytes, tlen. rewrite encode_app, length_app. lia. Qed.

Lemma nbytes_nonneg t : 0 <= nbytes t.
Proof. unfold nbytes, tlen. lia. Qed.

(** The first byte of a character is no continuation, the others are. *)
Lemma encode_char_shape c : scalar c = true ->
  exists a tl, encode_char c = a :: tl /\ 0 <= a /\ cont a = false /\ forallb cont tl = true.
Proof.
  intros Hc. assert (H : 0 <= c <= 1114111) by (unfold scalar, between in Hc; lia). clear Hc.
  destruct (digits64 c) as (x & y & z & w & -> & Hx & Hy & Hz & Hw & _); [lia|]. rewrite encode_digits by lia.
  unfold cont, between.
  destruct (Z.ltb_spec (x * 262144 + y * 4096 + z * 64 + w) 128); [|destruct (Z.ltb_spec (x * 262144 + y * 4096 + z * 64 + w) 2048);
    [|destruct (Z.ltb_spec (x * 262144 + y * 4096 + z * 64 + w) 65536)]];
  eexists _, _; (split; [done|]); simpl; compare_z; (split; [lia|done]).
Qed.

Lemma encode_nonneg t : encodable t = true -> Forall (fun b => 0 <= b) (encode t).
Proof.
  induction t as [|c t IH]; [by constructor|]. simpl. intros [Hc Ht]%andb_true_iff. rewrite encode_cons. apply Forall_app. split; [|auto].
  destruct (encode_char_shape c Hc) as (a & tl & -> & Ha & _ & Htl). constructor; [done|]. rewrite List.forallb_forall in Htl.
  apply List.Forall_forall. intros b Hb. specialize (Htl b Hb). unfold cont, between in Htl. lia.
Qed.

(** Decoding reads an encoded text and goes on with what follows it. *)
Lemma decode_from_encode t l fuel pos : encodable t = true -> (length (encode t ++ l) <= fuel)%nat ->
  decode_from fuel pos (encode t ++ l) =
  match decode_from (fuel - length t) (pos + length (encode t)) l with inl t' => inl (t ++ t') | inr e => inr e end.
Proof.
  revert fuel pos. induction t as [|c t IH]; intros fuel pos; simpl.
  { intros _ _. rewrite Nat.sub_0_r, Nat.add_0_r. by case_match. }
  intros [Hc Ht]%andb_true_iff. rewrite encode_cons, <- app_assoc. intros Hf.
  destruct (decode_one_encode c (encode t ++ l) Hc) as (a & m & Hm & Hd). pose proof (encode_char_length c).
  rewrite length_app in Hf. destruct fuel as [|fuel]; [lia|]. rewrite Hm. cbn [decode_from]. rewrite Hd, <- Hm.
  rewrite IH by (try done; lia). rewrite !length_app.
  replace (pos + (length (encode_char c) + (length (encode t) + length l) - (length (encode t) + length l)) + length (encode t))%nat
    with (pos + (length (encode_char c) + length (encode t)))%nat by lia. simpl. by destruct (decode_from _ _ l).
Qed.

Lemma decode_encode t : encodable t = true -> decode (encode t) = inl t.
Proof.
  intros Ht. unfold decode. rewrite <- (app_nil_r (encode t)) at 2. rewrite decode_from_encode by (rewrite ?app_nil_r; done).
  assert (Hn : forall n p, decode_from n p [] = inl []) by (by intros []). rewrite Hn. by rewrite app_nil_r.
Qed.

Lemma decode_from_ok fuel pos l t : Forall (fun b => 0 <= b) l -> decode_from fuel pos l = inl t -> encodable t = true /\ encode t = l.
Proof.
  revert pos l t. induction fuel as [|fuel IH]; intros pos [|a l] t Hl; simpl; try (intros [= <-]; done); try done.
  inversion_clear Hl as [|? ? Ha Hl']. destruct (decode_one a l) as [c rest| |] eqn:Ed; [|done..].
  destruct (decode_one_char a l c rest Ha Ed) as [Hc Heq].
  destruct (decode_from fuel _ rest) as [t'|] eqn:Er; [|done]. intros [= <-].
  assert (Hall : Forall (fun b => 0 <= b) (a :: l)) by (by constructor). rewrite Heq in Hall. apply Forall_app in Hall as [_ Hrest].
  destruct (IH _ _ _ Hrest Er) as [Ht <-]. simpl. rewrite Hc, Ht. split; [done|]. by rewrite encode_cons, Heq.
Qed.

(** What decodes is the encoding of what it decodes to. *)
Lemma decode_ok l t : Forall (fun b => 0 <= b) l -> decode l = inl t -> encodable t = true /\ encode t = l.
Proof. apply decode_from_ok. Qed.

(** A character cut off by the end of the data. *)
Lemma decode_one_cut c l m : scalar c = true -> encode_char c = l ++ m -> l <> [] -> m <> [] ->
  exists a l', l = a :: l' /\ decode_one a l' = DCut.
Proof.
  intros Hc Hsplit Hl Hm. destruct (decode_one_encode c [] Hc) as (a & tl & Htl & Hd). rewrite app_nil_r in Htl.
  destruct l as [|a' l']; [done|]. rewrite Htl in Hsplit. simpl in Hsplit. injection Hsplit as <- ->. exists a, l'. split; [done|].
  destruct m as [|m1 m]; [done|]. revert Hd. unfold decode_one. destruct (a <? 128); [by destruct l'|]. destruct (a <? 194); [done|].
  destruct l' as [|b [|d [|e l']]]; simpl.
  - destruct (Z.leb_spec 245 a); [done|]. intros _. by rewrite (proj2 (Z.ltb_lt _ _)).
  - destruct (245 <=? a); [done|]. destruct (bad_second a b); [done|]. by destruct (a <? 224).
  - destruct (245 <=? a); [done|]. destruct (bad_second a b); [done|]. destruct (a <? 224); [done|]. destruct (cont d); [|done]. by destruct (a <? 240).
  - destruct (245 <=? a); [done|]. destruct (bad_second a b); [done|]. destruct (a <? 224); [done|]. destruct (cont d); [|done].
    destruct (a <? 240); [done|]. destruct (cont e); [|done]. simpl. intros [= _ Hn]. by destruct l'.
Qed.
