(* ===== verification/ScanModels.v ===== *)
(** * Findings and the clock of a scan

    Models [memory_router/security_models.py] for the scanner, with the clock
    every scan reads: a computation has the number of readings of the clock as
    its state, and [late] is the test [deadline is not None and
    time.monotonic() >= deadline]. Work that passes its deadline in the middle
    of a text raises [UnicodeScanDeadlineExceeded]. *)

From Stdlib Require Import ZArith Lia Ascii.
From stdpp Require Import base sets strings numbers list.
From S2P Require Import Prelude Errors Text Chars.

Local Open Scope Z_scope.

(** [time.monotonic()] at its n-th reading. *)
Class Clock := { monotonic : nat -> Z }.

Abbreviation scan := (eff nat).

Definition UnicodeScanDeadlineExceeded : exn := ERuntimeError "UnicodeScanDeadlineExceeded".

(** [except UnicodeScanDeadlineExceeded] *)
Definition is_deadline (e : exn) : bool :=
  match e with ERuntimeError m => bool_decide (m = "UnicodeScanDeadlineExceeded"%string) | _ => false end.

Section clock.
Context `{Clock}.

(** [deadline is not None and time.monotonic() >= deadline] *)
Definition late (deadline : option Z) : scan bool := fun n =>
  match deadline with
  | None => (Ok false, n)
  | Some d => (Ok (d <=? monotonic n), S n)
  end.

(** [index % 1_024 == 0 and deadline is not None and ...] *)
Definition late_every (deadline : option Z) (index : nat) : scan bool :=
  if (index mod 1024 =? 0)%nat then late deadline else mret false.

(** [if late: raise UnicodeScanDeadlineExceeded] *)
Definition raise_if_late (deadline : option Z) : scan unit :=
  is_late ← late deadline; if is_late : bool then raise UnicodeScanDeadlineExceeded else mret ().

End clock.

(** ** Findings *)

Record Finding := mkFinding {
  fd_matched : text; fd_reason : string; fd_detector : option string; fd_severity : option string; fd_hits : list text
}.

(** Two findings are equal when they differ in their hits only
    ([field(compare=False)]). *)
Definition same_finding (f g : Finding) : bool :=
  bool_decide (fd_matched f = fd_matched g) && bool_decide (fd_reason f = fd_reason g)
  && bool_decide (fd_detector f = fd_detector g) && bool_decide (fd_severity f = fd_severity g).

(** [SafetyFinding(matched, reason)] *)
Definition finding (matched reason : string) : Finding := mkFinding (u matched) reason None None [].

Record Verdict := mkVerdict { vd_findings : list Finding; vd_transformations : list string }.

(** [SafetyResult()] *)
Definition no_findings : Verdict := mkVerdict [] [].

(** [SafetyResult.safe] *)
Definition is_safe (r : Verdict) : bool := match vd_findings r with [] => true | _ => false end.

(** [SafetyResult.add] *)
Definition add_finding (f : Finding) (r : Verdict) : Verdict :=
  if existsb (same_finding f) (vd_findings r) then r else mkVerdict (vd_findings r ++ [f]) (vd_transformations r).

(** [for finding in findings: result.add(finding)] *)
Definition add_findings (fs : list Finding) (r : Verdict) : Verdict := fold_left (fun r f => add_finding f r) fs r.

(** [result.transformations.update(ts)] *)
Definition add_transformations (ts : list string) (r : Verdict) : Verdict :=
  mkVerdict (vd_findings r) (dict_fromkeys (vd_transformations r ++ ts)).

(** [SafetyResult.extend] *)
Definition extend_verdict (other r : Verdict) : Verdict :=
  add_transformations (vd_transformations other) (add_findings (vd_findings other) r).

(** ** Laws *)

Lemma same_finding_refl f : same_finding f f = true.
Proof. unfold same_finding. by rewrite !bool_decide_eq_true_2. Qed.

Lemma same_finding_trans f g h : same_finding f g = true -> same_finding g h = true -> same_finding f h = true.
Proof.
  unfold same_finding. rewrite !andb_true_iff, !bool_decide_eq_true. intros (((-> & ->) & ->) & ->) (((-> & ->) & ->) & ->). done.
Qed.

(** Adding keeps what is there and makes the finding present. *)
Lemma add_finding_keeps f r g : existsb (same_finding g) (vd_findings r) = true -> existsb (same_finding g) (vd_findings (add_finding f r)) = true.
Proof. unfold add_finding. case_match; [done|]. simpl. rewrite existsb_app. by intros ->. Qed.

Lemma add_finding_present f r : existsb (same_finding f) (vd_findings (add_finding f r)) = true.
Proof. unfold add_finding. case_match eqn:E; [done|]. simpl. rewrite existsb_app. simpl. by rewrite same_finding_refl, orb_true_r. Qed.

Lemma add_finding_unsafe f r : is_safe (add_finding f r) = false.
Proof.
  unfold add_finding, is_safe. destruct (existsb _ _) eqn:E; [|by destruct (vd_findings r)]. by destruct (vd_findings r).
Qed.

(** A verdict that is not safe stays so. *)
Lemma add_finding_safe f r : is_safe (add_finding f r) = true -> False.
Proof. by rewrite add_finding_unsafe. Qed.

Lemma add_findings_unsafe fs r : is_safe r = false -> is_safe (add_findings fs r) = false.
Proof. revert r. induction fs as [|f fs IH]; [done|]. intros r _. apply IH, add_finding_unsafe. Qed.

Lemma add_findings_safe fs r : is_safe (add_findings fs r) = true -> fs = [] /\ is_safe r = true.
Proof.
  destruct fs as [|f fs]; [done|]. intros Hs. change (add_findings (f :: fs) r) with (add_findings fs (add_finding f r)) in Hs.
  by rewrite (add_findings_unsafe fs (add_finding f r) (add_finding_unsafe f r)) in Hs.
Qed.

Lemma add_transformations_safe ts r : is_safe (add_transformations ts r) = is_safe r.
Proof. done. Qed.

(** A reading of the clock returns. *)
Lemma late_ok `{Clock} deadline n : exists b n', late deadline n = (Ok b, n').
Proof. destruct deadline; eexists _, _; done. Qed.

Lemma late_none `{Clock} n : late None n = (Ok false, n).
Proof. done. Qed.

Lemma late_every_ok `{Clock} deadline i n : exists b n', late_every deadline i n = (Ok b, n').
Proof. unfold late_every. case_match; [apply late_ok|]. by eexists _, _. Qed.
