(* ===== verification/RuleEdges.v ===== *)
(** * Rules across a field boundary

    Models the part of [memory_router/security_rules.py] that needs no pattern:
    the words of the rules, [_rule_edge_matches] (a rule whose words lie on both
    sides of a boundary between fields, with bounded padding between them), its
    tokens and gaps, and [_trim_boundary_padding]. *)

From Stdlib Require Import ZArith Lia Ascii.
From stdpp Require Import base sets strings numbers list.
From S2P Require Import Prelude Errors Text Chars ScanModels.

Local Open Scope Z_scope.

(** ** The words of the rules *)

(** The second components of [_RULE_SPECS], decoded. *)
Definition rule_matched : list string :=
  ["ignore previous instructions"; "system prompt"; "developer message"; "new instructions"; "you are now"; "write this to memory";
   "remember this as truth"; "store this as core memory"; "overwrite permissions"; "reveal secret"; "api key"; "private key";
   "private key block"; "exfiltrate"]%string.

Definition _RULE_SIGNAL_WORDS : list text := dict_fromkeys (map u (concat (map (str_split " ") rule_matched))).

Definition _IGNORE_PREVIOUS_INSTRUCTIONS : string := "ignore previous instructions".
Definition _DISCLOSURE_RULE_REASON : string := "reveal secret".
Definition _API_KEY : string := "api key".

Definition _RULE_EDGE_SPECS : list (list text * text) :=
  map (fun e : list string * string => (map u e.1, u e.2))
  [(["ignore"; "previous"; "instructions"], _IGNORE_PREVIOUS_INSTRUCTIONS);
   (["ignore"; "all"; "previous"; "instructions"], _IGNORE_PREVIOUS_INSTRUCTIONS);
   (["you"; "are"; "now"], "you are now");
   (["write"; "this"; "to"; "memory"], "write this to memory");
   (["remember"; "this"; "as"; "truth"], "remember this as truth");
   (["store"; "this"; "as"; "core"; "memory"], "store this as core memory");
   (["overwrite"; "permissions"], "overwrite permissions");
   (["reveal"; "secret"], _DISCLOSURE_RULE_REASON);
   (["reveal"; "the"; "secret"], _DISCLOSURE_RULE_REASON);
   (["reveal"; "token"], _DISCLOSURE_RULE_REASON);
   (["reveal"; "the"; "token"], _DISCLOSURE_RULE_REASON);
   (["reveal"; "key"], _DISCLOSURE_RULE_REASON);
   (["reveal"; "the"; "key"], _DISCLOSURE_RULE_REASON);
   (["api"; "key"], _API_KEY);
   (["private"; "key"], "private key");
   (["begin"; "openssh"; "private"; "key"], "private key block")]%string.

Definition _RULE_FUSED_PADDING_CHARS : Z := 4.
Definition _RULE_FUSED_SHORT_SIGNAL_CHARS : Z := 3.
Definition _RULE_FUSED_SHORT_SIGNAL_PADDING : Z := 8.
Definition _RULE_PADDING_BYTES : Z := 64.
Definition _RULE_MAX_FILLER_SKIPS : Z := 2.

Definition _RULE_FAIL_CLOSED_MATCHES : list text :=
  map u ["ignore previous instructions"; "overwrite permissions"; "private key block"]%string.

Definition _RULE_FILLER_WORDS : list text :=
  map u ["a"; "an"; "the"; "my"; "your"; "his"; "her"; "its"; "our"; "their"; "i"; "me"; "we"; "us"; "he"; "she"; "it"; "they"; "them";
         "very"; "really"; "just"; "quite"; "too"; "also"; "still"; "even"; "only"; "right"; "therefore"; "however"; "thus"; "hence";
         "then"; "so"; "these"; "those"; "two"; "few"; "many"; "several"; "some"; "any"; "other"; "another"; "such"; "own"; "same"]%string.

(** [_rule_fused_padding] *)
Definition _rule_fused_padding (expected : text) : Z :=
  if tlen expected <=? _RULE_FUSED_SHORT_SIGNAL_CHARS then _RULE_FUSED_SHORT_SIGNAL_PADDING else _RULE_FUSED_PADDING_CHARS.

Definition _RULE_MIN_FUSED_TOKEN_LEN : Z :=
  match map (fun signal => tlen signal + _rule_fused_padding signal) _RULE_SIGNAL_WORDS with
  | [] => 0
  | n :: ns => fold_left Z.min ns n
  end.

(** ** Tokens *)

Definition lower_ascii (c : Z) : Z := if ascii_upper c then c + 32 else c.

(** [[A-Za-z]] *)
Definition ascii_letter (c : Z) : bool := ascii_upper c || ascii_lower c.

(** [_RuleToken]: the word in lower case, where it starts and ends. *)
Record token := mkToken { tk_word : text; tk_start : nat; tk_end : nat }.

Definition token_of (m : re_match) : token := mkToken (map lower_ascii (m_group m)) (m_start m) (m_end m).

Definition starts_text (p t : text) : bool := bool_decide (take (length p) t = p).

(** The words a token makes available: itself, and a signal it starts or ends with. *)
Definition available_of (word : text) : list text :=
  word :: (if _RULE_MIN_FUSED_TOKEN_LEN <=? tlen word
           then List.filter (fun signal => (tlen signal + _rule_fused_padding signal <=? tlen word)
                                           && (starts_text signal word || ends_with signal word)) _RULE_SIGNAL_WORDS
           else []).

Section edges.
Context `{Clock}.

Fixpoint edge_tokens_loop (deadline : option Z) (index : nat) (ms : list re_match) : scan (option (list token * list text)) :=
  match ms with
  | [] => mret (Some ([], []))
  | m :: ms' =>
      is_late ← late_every deadline index;
      if is_late : bool then mret None
      else
        rest ← edge_tokens_loop deadline (S index) ms';
        mret (match rest with
              | Some (tokens, available) => Some (token_of m :: tokens, available_of (tk_word (token_of m)) ++ available)
              | None => None
              end)
  end.

(** [_rule_edge_tokens]: [None] when the time is up. *)
Definition _rule_edge_tokens (value : text) (deadline : option Z) : scan (option (list token * list text)) :=
  edge_tokens_loop deadline 0 (finditer_runs ascii_letter value).

(** [_RuleGap]: what lies between the words of a rule and the boundary. *)
Record RuleGap := mkRuleGap { arbitrary_count : Z; arbitrary_words : list text; signal_count : Z; padding_bytes : Z }.

(** [_rule_token_matches] *)
Definition _rule_token_matches (word expected : text) (from_start : bool) : bool :=
  if bool_decide (word = expected) then true
  else if tlen word <? tlen expected + _rule_fused_padding expected then false
  else if from_start then ends_with expected word else starts_text expected word.

(** The first loop of [_rule_part_gap]: the positions of the tokens that match
    the expected words in turn, or [None] when they run out or time is up.
    [targets] are the words still expected, in the order they are met. *)
Fixpoint select_tokens (deadline : option Z) (from_start : bool) (iteration : nat) (targets : list text)
    (indexed : list (nat * token)) : scan (option (list nat)) :=
  match indexed with
  | [] => mret None
  | (index, tok) :: rest =>
      is_late ← late_every deadline iteration;
      if is_late : bool then mret None
      else match targets with
      | [] => mret None
      | target :: targets' =>
          if negb (_rule_token_matches (tk_word tok) target from_start)
          then select_tokens deadline from_start (S iteration) targets rest
          else match targets' with
          | [] => mret (Some [index])
          | _ =>
              selected ← select_tokens deadline from_start (S iteration) targets' rest;
              mret (match selected with Some s => Some (index :: s) | None => None end)
          end
      end
  end.

(** The second loop: the words between the selected tokens and the boundary. *)
Fixpoint skipped_words (deadline : option Z) (offset : nat) (selected : list nat) (range : list (nat * token))
    : scan (option (list text)) :=
  match range with
  | [] => mret (Some [])
  | (index, tok) :: rest =>
      is_late ← late_every deadline offset;
      if is_late : bool then mret None
      else
        words ← skipped_words deadline (S offset) selected rest;
        mret (match words with
              | Some ws => Some (if elem index selected then ws else tk_word tok :: ws)
              | None => None
              end)
  end.

Definition enumerate {A} (l : list A) : list (nat * A) := zip (seq 0 (length l)) l.

(** [_rule_part_gap] *)
Definition _rule_part_gap (value : text) (tokens : list token) (expected : list text) (from_start : bool) (deadline : option Z)
    : scan (option RuleGap) :=
  let indexed := enumerate tokens in
  chosen ← (if from_start then select_tokens deadline true 0 expected indexed
            else select_tokens deadline false 0 (rev expected) (rev indexed));
  match chosen with
  | None => mret None
  | Some chosen =>
      (* in increasing order, as [selected.sort()] leaves them *)
      let selected := if from_start then chosen else rev chosen in
      let first := hd 0%nat selected in
      let last_ := List.last selected 0%nat in
      let range := if from_start then take (S last_) indexed else drop first indexed in
      skipped ← skipped_words deadline 0 selected range;
      match skipped with
      | None => mret None
      | Some skipped =>
          is_late ← late deadline;
          if is_late : bool then mret None
          else
            let span := if from_start then take (match tokens !! last_ with Some t => tk_end t | None => 0%nat end) value
                        else drop (match tokens !! first with Some t => tk_start t | None => 0%nat end) value in
            let selected_bytes := foldr Z.add 0 (map nbytes expected) in
            let arbitrary := List.filter (fun w => negb (elem w _RULE_SIGNAL_WORDS)) skipped in
            mret (Some (mkRuleGap (Z.of_nat (length arbitrary)) (dict_fromkeys arbitrary)
                          (Z.of_nat (length skipped) - Z.of_nat (length arbitrary)) (Z.max 0 (nbytes span - selected_bytes))))
      end
  end.

Definition words_of (previous current : RuleGap) : list text := dict_fromkeys (arbitrary_words previous ++ arbitrary_words current).

(** [_rule_gap_allowed] *)
Definition _rule_gap_allowed (previous current : RuleGap) : bool :=
  let arbitrary := arbitrary_count previous + arbitrary_count current in
  let signals := signal_count previous + signal_count current in
  let padding := padding_bytes previous + padding_bytes current in
  let skipped := arbitrary + signals in
  (skipped =? 0) || ((skipped <=? 2) && (arbitrary <=? 1))
  || ((arbitrary =? 2) && (length (words_of previous current) =? 1)%nat && (signals =? 0))
  || (_RULE_PADDING_BYTES <=? padding).

(** [_rule_gap_benign_adjacency] *)
Definition _rule_gap_benign_adjacency (previous current : RuleGap) : bool :=
  let arbitrary := arbitrary_count previous + arbitrary_count current in
  if negb ((0 <? arbitrary) && (arbitrary <=? _RULE_MAX_FILLER_SKIPS)) then false
  else if negb (signal_count previous + signal_count current =? 0) then false
  else if _RULE_PADDING_BYTES <=? padding_bytes previous + padding_bytes current then false
  else
    let words := words_of previous current in
    negb (bool_decide (words = [])) && forallb (fun w => elem w _RULE_FILLER_WORDS) words.

(** [_rule_gap_fail_closed] *)
Definition _rule_gap_fail_closed (previous current : RuleGap) : bool :=
  let arbitrary := arbitrary_count previous + arbitrary_count current in
  let signals := signal_count previous + signal_count current in
  let filler := List.filter (fun w => elem w _RULE_FILLER_WORDS) (words_of previous current) in
  (2 <=? arbitrary - Z.of_nat (length filler)) || (3 <=? arbitrary + signals).

(** Whether the words of a rule, cut at a boundary, are reported. *)
Definition edge_reported (matched : text) (previous current : RuleGap) : bool :=
  negb (_rule_gap_benign_adjacency previous current)
  && (_rule_gap_allowed previous current || elem matched _RULE_FAIL_CLOSED_MATCHES && _rule_gap_fail_closed previous current).

(** The splits of one rule: whether one of them is reported; [None] when time is up. *)
Fixpoint split_loop (previous current : text) (ptokens ctokens : list token) (pavail cavail : list text) (matched : text)
    (deadline : option Z) (splits : list (list text * list text)) : scan (option bool) :=
  match splits with
  | [] => mret (Some false)
  | (pexp, cexp) :: rest =>
      is_late ← late deadline;
      if is_late : bool then mret None
      else if negb (forallb (fun w => elem w pavail) pexp) || negb (forallb (fun w => elem w cavail) cexp)
      then split_loop previous current ptokens ctokens pavail cavail matched deadline rest
      else
        pgap ← _rule_part_gap previous ptokens pexp false deadline;
        cgap ← _rule_part_gap current ctokens cexp true deadline;
        match pgap, cgap with
        | Some pg, Some cg =>
            if edge_reported matched pg cg then mret (Some true)
            else split_loop previous current ptokens ctokens pavail cavail matched deadline rest
        | _, _ => split_loop previous current ptokens ctokens pavail cavail matched deadline rest
        end
  end.

(** [rule_words[:split_at]], [rule_words[split_at:]] for every split. *)
Definition splits_of (words : list text) : list (list text * list text) :=
  map (fun k => (take k words, drop k words)) (seq 1 (length words - 1)).

Fixpoint edge_specs_loop (previous current : text) (ptokens ctokens : list token) (pavail cavail : list text) (deadline : option Z)
    (specs : list (list text * text)) : scan (option (list text)) :=
  match specs with
  | [] => mret (Some [])
  | (words, matched) :: rest =>
      hit ← split_loop previous current ptokens ctokens pavail cavail matched deadline (splits_of words);
      match hit with
      | None => mret None
      | Some hit =>
          found ← edge_specs_loop previous current ptokens ctokens pavail cavail deadline rest;
          mret (match found with Some ms => Some (if hit : bool then matched :: ms else ms) | None => None end)
      end
  end.

(** [_rule_edge_matches] *)
Definition _rule_edge_matches (previous current : text) (deadline : option Z) : scan (list text) :=
  ptoks ← _rule_edge_tokens previous deadline;
  match ptoks with
  | None => mret []
  | Some (ptokens, pavail) =>
      ctoks ← _rule_edge_tokens current deadline;
      match ctoks with
      | None => mret []
      | Some (ctokens, cavail) =>
          found ← edge_specs_loop previous current ptokens ctokens pavail cavail deadline _RULE_EDGE_SPECS;
          mret (match found with Some ms => dict_fromkeys ms | None => [] end)
      end
  end.

(** ** Padding at a boundary *)

Context `{UnicodeDb}.

(** The run of a character at the head of a text. *)
Fixpoint run_length (c : Z) (t : text) : nat :=
  match t with d :: t' => if d =? c then S (run_length c t') else 0%nat | [] => 0%nat end.

Fixpoint trim_runs (fuel : nat) (t : text) : text :=
  match t, fuel with
  | [], _ => []
  | _, O => t
  | c :: _, S f => let run := run_length c t in if (run <? 8)%nat then t else trim_runs f (lstrip_by isspace (drop run t))
  end.

Definition trim_start (t : text) : text := let t' := lstrip_by isspace t in trim_runs (length t') t'.

(** [_trim_boundary_padding]: from the end it does the same in mirror image. *)
Definition _trim_boundary_padding (value : text) (from_start : bool) : text :=
  if from_start then trim_start value else rev (trim_start (rev value)).

End edges.
