(* ===== verification/ScanWindows.v ===== *)
(** * Windows over split fields

    Models [memory_router/security_windows.py] and [memory_router/scan_windows.py]:
    the bounded windows in which the scanner looks for what is split over several
    fields. The bounded prefix and suffix are shown to be the longest that fit,
    and the groups with omitted fields exactly the ones announced. *)

From Stdlib Require Import ZArith Lia Ascii.
From stdpp Require Import base sets strings numbers list.
From S2P Require Import Prelude Errors Text Chars ScanModels RuleEdges.

Local Open Scope Z_scope.

Definition MAX_SPLIT_WINDOW_BYTES : nat := 512.

(** ** Bounded prefix and suffix *)

(** The loop of [_bounded_utf8_prefix]: on an error keep what precedes it. *)
Fixpoint prefix_loop (fuel : nat) (prefix : list Z) : text :=
  match prefix, fuel with
  | [], _ => []
  | _, O => []
  | _, S f => match decode prefix with inl t => t | inr start => prefix_loop f (take start prefix) end
  end.

(** [data.decode("utf-8")] of bytes that are an encoding. *)
Definition decoded (data : list Z) : text := match decode data with inl t => t | inr _ => [] end.

(** [_bounded_utf8_prefix] *)
Definition _bounded_utf8_prefix (data : list Z) : text :=
  if (length data <=? MAX_SPLIT_WINDOW_BYTES)%nat then decoded data
  else let prefix := take MAX_SPLIT_WINDOW_BYTES data in prefix_loop (length prefix) prefix.

(** The loop of [_bounded_utf8_suffix]: on an error drop what leads to it. *)
Fixpoint suffix_loop (fuel : nat) (suffix : list Z) : text :=
  match suffix, fuel with
  | [], _ => []
  | _, O => []
  | _, S f => match decode suffix with inl t => t | inr start => suffix_loop f (drop (S start) suffix) end
  end.

(** [_bounded_utf8_suffix] *)
Definition _bounded_utf8_suffix (data : list Z) : text :=
  if (length data <=? MAX_SPLIT_WINDOW_BYTES)%nat then decoded data
  else let suffix := drop (length data - MAX_SPLIT_WINDOW_BYTES) data in suffix_loop (length suffix) suffix.

(** ** Joins *)

Definition space : text := u " ".

(** [_join_variants] *)
Definition _join_variants (fragments : list text) (spaced compact : option text) : list text :=
  match fragments with
  | [] => []
  | [f] => [f]
  | first :: rest =>
      dict_fromkeys
        ([_bounded_utf8_suffix (encode (tjoin space fragments));
          _bounded_utf8_suffix (encode (tjoin [] fragments));
          _bounded_utf8_suffix (encode (first ++ space ++ tjoin [] rest))]
         ++ option_list spaced ++ option_list compact)
  end.

(** [f"{window} {field}" if window else field] *)
Definition spaced_after (window field : text) : text := match window with [] => field | _ => window ++ space ++ field end.

(** [_bounded_append] *)
Definition _bounded_append (window field : text) : text := _bounded_utf8_suffix (encode (spaced_after window field)).

(** [_junction_variants] *)
Definition _junction_variants (spaced compact field : text) : list text :=
  let limit := Z.of_nat MAX_SPLIT_WINDOW_BYTES in
  if (nbytes spaced + 1 + nbytes field <=? limit) && (nbytes compact + nbytes field <=? limit) then []
  else
    let prefix := _bounded_utf8_prefix (encode field) in
    dict_fromkeys [spaced_after spaced prefix; compact ++ prefix].

Section windows.
Context `{Clock} `{UnicodeDb}.

(** [_trim_evasion_variants] *)
Definition _trim_evasion_variants (previous current : text) (deadline : option Z) : scan (list text) :=
  let trimmed_previous := _trim_boundary_padding previous false in
  let trimmed_current := _trim_boundary_padding current true in
  let variants :=
    if bool_decide (trimmed_previous <> previous) || bool_decide (trimmed_current <> current)
    then
      let left := _bounded_utf8_suffix (encode trimmed_previous) in
      let right := _bounded_utf8_prefix (encode trimmed_current) in
      [left ++ space ++ right; left ++ right]
    else [] in
  edges ← _rule_edge_matches previous current deadline;
  mret (dict_fromkeys (variants ++ edges)).

(** The two passes that trim the fragments of a sequence. *)
Definition trimmed_fragments (fragments : list text) : list text :=
  let once := imap (fun index fragment => _trim_boundary_padding fragment (0 <? index)%nat) fragments in
  imap (fun index fragment => if (S index <? length fragments)%nat then _trim_boundary_padding fragment false else fragment) once.

(** [_sequence_join_variants] *)
Definition _sequence_join_variants (fragments : list text) (deadline : option Z) : scan (list text) :=
  let prefix := take (length fragments - 1) fragments in
  let last_ := List.last fragments [] in
  let spaced := _bounded_utf8_suffix (encode (tjoin space prefix)) in
  let compact := _bounded_utf8_suffix (encode (tjoin [] prefix)) in
  let junctions := _junction_variants spaced compact last_ in
  let spaced := _bounded_append spaced last_ in
  let compact := _bounded_utf8_suffix (encode (compact ++ last_)) in
  let joins := _join_variants fragments (Some spaced) (Some compact) in
  match fragments with
  | [first; second] =>
      edges ← _rule_edge_matches first second deadline;
      mret (dict_fromkeys (junctions ++ joins ++ _join_variants (trimmed_fragments fragments) None None ++ edges))
  | _ =>
      mret (dict_fromkeys (junctions ++ joins
              ++ (if (2 <=? length fragments)%nat then _join_variants (trimmed_fragments fragments) None None else [])))
  end.

End windows.

(** ** Groups with omitted fields *)

(** [itertools.combinations(l, k)] *)
Fixpoint combinations {A} (k : nat) (l : list A) : list (list A) :=
  match k, l with
  | O, _ => [[]]
  | S _, [] => []
  | S k', x :: l' => map (cons x) (combinations k' l') ++ combinations k l'
  end.

(** [[value for index, value in enumerate(middle) if index not in omitted]] *)
Definition omit {A} (omitted : list nat) (middle : list A) : list A :=
  omap (fun e : nat * A => if elem e.1 omitted then None else Some e.2) (enumerate middle).

(** The groups between the positions [start] and [end_]. *)
Definition groups_between {A} (max_skips : nat) (values : list A) (start end_ : nat) : list (list A) :=
  let middle := take (end_ - start - 1) (drop (S start) values) in
  match values !! start, values !! end_ with
  | Some first, Some final =>
      concat (map (fun skipped =>
        map (fun omitted => first :: omit omitted middle ++ [final]) (combinations skipped (seq 0 (length middle))))
        (seq 1 (Nat.min max_skips (length middle))))
  | _, _ => []
  end.

(** [bounded_skip_fragments] *)
Definition bounded_skip_fragments {A} (values : list A) (max_skips : nat) : list (list A) :=
  concat (map (fun start =>
    concat (map (groups_between max_skips values start)
      (seq (start + 2) (Nat.min (length values) (start + max_skips + 3) - (start + 2)))))
    (seq 0 (length values))).

(** ** The bounded ends are the longest that fit *)

(** Where a cut through an encoding falls: between two texts, inside the last
    character of the first. *)
Lemma encode_cut t k : encodable t = true -> (k <= length (encode t))%nat ->
  (exists t1 t2, t = t1 ++ t2 /\ take k (encode t) = encode t1 /\ drop k (encode t) = encode t2)
  \/ exists t1 c t2 l m, t = t1 ++ c :: t2 /\ encode_char c = l ++ m /\ l <> [] /\ m <> []
     /\ take k (encode t) = encode t1 ++ l /\ drop k (encode t) = m ++ encode t2.
Proof.
  revert k. induction t as [|c t IH]; intros k; simpl.
  - intros _ Hk. left. exists [], []. split; [done|]. by destruct k.
  - intros [Hc Ht]%andb_true_iff. rewrite encode_cons, length_app. intros Hk.
    destruct (decide (length (encode_char c) <= k)%nat) as [Hle|Hgt].
    + rewrite take_app_ge, drop_app_ge by done.
      destruct (IH (k - length (encode_char c))%nat Ht ltac:(lia)) as [(t1 & t2 & -> & E1 & E2)|(t1 & d & t2 & l & m & -> & Hd & Hl & Hm & E1 & E2)].
      * left. exists (c :: t1), t2. by rewrite E1, E2.
      * right. exists (c :: t1), d, t2, l, m. rewrite E1, E2, encode_cons, <- app_assoc. done.
    + rewrite take_app_le, drop_app_le by lia. destruct (decide (k = 0%nat)) as [->|Hk0].
      * left. exists [], (c :: t). by rewrite take_0, drop_0.
      * right. exists [], c, t, (take k (encode_char c)), (drop k (encode_char c)). rewrite take_drop. split_and!; try done.
        -- intros He%(f_equal length). rewrite length_take in He. simpl in He. lia.
        -- intros He%(f_equal length). rewrite length_drop in He. simpl in He. lia.
Qed.

Lemma encode_nil t : encode t = [] -> t = [].
Proof. destruct t as [|c t]; [done|]. rewrite encode_cons. pose proof (encode_char_length c). destruct (encode_char c); simpl in *; [lia|done]. Qed.

Lemma suffix_loop_cont m t fuel : forallb cont m = true -> encodable t = true -> (length (m ++ encode t) <= fuel)%nat ->
  suffix_loop fuel (m ++ encode t) = t.
Proof.
  revert fuel. induction m as [|b m IH]; intros fuel Hm Ht Hf; simpl in *.
  - destruct fuel as [|fuel].
    + destruct (encode t) eqn:E; [|simpl in Hf; lia]. by rewrite (encode_nil t).
    + simpl. rewrite decode_encode by done. destruct (encode t) eqn:E; [|done]. by rewrite (encode_nil t).
  - destruct fuel as [|fuel]; [lia|]. apply andb_true_iff in Hm as [Hb Hm]. cbn [suffix_loop].
    assert (Hd : decode_one b (m ++ encode t) = DBad 1).
    { unfold cont, between in Hb. unfold decode_one. by compare_z. }
    unfold decode. cbn [decode_from length]. rewrite Hd. apply IH; [done..|lia].
Qed.

(** [s] is the longest suffix of [t] of at most 512 bytes. *)
Definition longest_suffix (t s : text) : Prop :=
  (exists p, t = p ++ s) /\ nbytes s <= Z.of_nat MAX_SPLIT_WINDOW_BYTES
  /\ forall p' s', t = p' ++ s' -> nbytes s' <= Z.of_nat MAX_SPLIT_WINDOW_BYTES -> (length s' <= length s)%nat.

Definition longest_prefix (t s : text) : Prop :=
  (exists r, t = s ++ r) /\ nbytes s <= Z.of_nat MAX_SPLIT_WINDOW_BYTES
  /\ forall s' r', t = s' ++ r' -> nbytes s' <= Z.of_nat MAX_SPLIT_WINDOW_BYTES -> (length s' <= length s)%nat.

Lemma nbytes_pos c : 0 < nbytes [c].
Proof. unfold nbytes, tlen, encode. simpl. rewrite app_nil_r. pose proof (encode_char_length c). lia. Qed.

Lemma nbytes_cons c t : nbytes (c :: t) = nbytes [c] + nbytes t.
Proof. by rewrite <- nbytes_app. Qed.

Lemma nbytes_char c : nbytes [c] = Z.of_nat (length (encode_char c)).
Proof. unfold nbytes, tlen, encode. simpl. by rewrite app_nil_r. Qed.

(** A suffix that is longer than [t2] has the character before it as well. *)
Lemma longer_suffix (t1 : text) c t2 p' s' : t1 ++ c :: t2 = p' ++ s' -> (length t2 < length s')%nat -> nbytes (c :: t2) <= nbytes s'.
Proof.
  intros Heq Hl. assert (Hp : (length p' <= length t1)%nat).
  { apply (f_equal length) in Heq. rewrite !length_app in Heq. simpl in Heq. lia. }
  assert (s' = drop (length p') t1 ++ c :: t2) as ->.
  { apply (f_equal (drop (length p'))) in Heq. rewrite drop_app_length, drop_app_le in Heq; done. }
  rewrite nbytes_app. pose proof (nbytes_nonneg (drop (length p') t1)). lia.
Qed.

Lemma bounded_suffix_longest t : encodable t = true -> longest_suffix t (_bounded_utf8_suffix (encode t)).
Proof.
  intros Ht. unfold _bounded_utf8_suffix, decoded, longest_suffix. destruct (Nat.leb_spec (length (encode t)) MAX_SPLIT_WINDOW_BYTES) as [Hle|Hgt].
  { rewrite decode_encode by done. split_and!; [by exists []|unfold nbytes, tlen; lia|].
    intros p' s' -> _. rewrite length_app. lia. }
  cbv zeta. set (k := (length (encode t) - MAX_SPLIT_WINDOW_BYTES)%nat).
  assert (Hd : length (drop k (encode t)) = MAX_SPLIT_WINDOW_BYTES) by (rewrite length_drop; lia). clearbody k.
  destruct (decide (k <= length (encode t))%nat) as [Hk|Hk]; [|rewrite length_drop in Hd; unfold MAX_SPLIT_WINDOW_BYTES in Hd; lia].
  destruct (encode_cut t k Ht Hk) as [(t1 & t2 & -> & _ & E)|(t1 & c & t2 & l & m & -> & Hc & Hl & Hm & _ & E)];
    rewrite encodable_app in Ht; apply andb_true_iff in Ht as [Ht1 Ht2].
  - rewrite E in *. rewrite (suffix_loop_cont [] t2) by done. split_and!; [by exists t1|unfold nbytes, tlen; lia|].
    intros p' s' Heq Hs'. destruct (decide (length s' <= length t2)%nat) as [|Hlt]; [done|exfalso].
    destruct t1 as [|c t1'] using rev_ind; [simpl in Heq; apply (f_equal length) in Heq; rewrite length_app in Heq; lia|].
    rewrite <- app_assoc in Heq. apply (longer_suffix _ _ _ _ _) in Heq; [|lia]. rewrite nbytes_cons in Heq. pose proof (nbytes_pos c).
    unfold nbytes in *. unfold tlen in *. lia.
  - simpl in Ht2. apply andb_true_iff in Ht2 as [Hsc Ht2]. rewrite E in *. destruct (encode_char_shape c Hsc) as (a & tl & Hshape & _ & _ & Htl).
    assert (Hmc : forallb cont m = true).
    { rewrite Hshape in Hc. destruct l as [|a' l']; [done|]. injection Hc as <- ->. rewrite forallb_app in Htl. by apply andb_true_iff in Htl as [_ ?]. }
    rewrite (suffix_loop_cont m t2) by done. rewrite length_app in Hd. split_and!; [exists (t1 ++ [c]); by rewrite <- app_assoc|unfold nbytes, tlen; lia|].
    intros p' s' Heq Hs'. destruct (decide (length s' <= length t2)%nat) as [|Hlt]; [done|exfalso].
    apply longer_suffix in Heq; [|lia]. rewrite nbytes_cons, nbytes_char, Hc, length_app in Heq. destruct l; [done|]. simpl in Heq.
    unfold nbytes, tlen in *. lia.
Qed.

Lemma prefix_loop_encode t fuel : encodable t = true -> (length (encode t) <= fuel)%nat -> prefix_loop fuel (encode t) = t.
Proof.
  intros Ht Hf. destruct (encode t) as [|b l] eqn:E; [rewrite (encode_nil t E); by destruct fuel|].
  destruct fuel as [|fuel]; [simpl in Hf; lia|]. cbn [prefix_loop]. by rewrite <- E, decode_encode.
Qed.

(** A cut inside a character is an error at the start of the character. *)
Lemma decode_cut t c l m : encodable t = true -> scalar c = true -> encode_char c = l ++ m -> l <> [] -> m <> [] ->
  decode (encode t ++ l) = inr (length (encode t)).
Proof.
  intros Ht Hc Hs Hl Hm. unfold decode. rewrite decode_from_encode by done.
  destruct (decode_one_cut c l m Hc Hs Hl Hm) as (a & l' & -> & Hd). rewrite length_app. cbn [length].
  destruct (length (encode t) + S (length l') - length t)%nat as [|fuel] eqn:Ef; cbn [decode_from]; [done|]. by rewrite Hd.
Qed.

Lemma prefix_loop_cut t c l m fuel : encodable t = true -> scalar c = true -> encode_char c = l ++ m -> l <> [] -> m <> [] ->
  (length (encode t ++ l) <= fuel)%nat -> prefix_loop fuel (encode t ++ l) = t.
Proof.
  intros Ht Hc Hs Hl Hm Hf. pose proof (decode_cut t c l m Ht Hc Hs Hl Hm) as Hd. rewrite length_app in Hf.
  destruct fuel as [|fuel]; [destruct l; [done|simpl in Hf; lia]|]. cbn [prefix_loop]. rewrite Hd, take_app_length.
  assert (0 < length l)%nat by (destruct l; [done|simpl; lia]). rewrite prefix_loop_encode by (done || lia).
  destruct (encode t ++ l) as [|b l'] eqn:El; [|done]. by apply app_eq_nil in El as [_ ->].
Qed.

Lemma longer_prefix (t1 : text) c t2 s' r' : t1 ++ c :: t2 = s' ++ r' -> (length t1 < length s')%nat -> nbytes t1 + nbytes [c] <= nbytes s'.
Proof.
  intros Heq Hl. apply app_eq_inv in Heq as [(k & -> & _)|(k & -> & Hk)]; rewrite length_app in Hl; [lia|].
  destruct k as [|d k]; [simpl in Hl; lia|]. injection Hk as <- _. rewrite nbytes_app, (nbytes_cons c k). pose proof (nbytes_nonneg k). lia.
Qed.

Lemma bounded_prefix_longest t : encodable t = true -> longest_prefix t (_bounded_utf8_prefix (encode t)).
Proof.
  intros Ht. unfold _bounded_utf8_prefix, decoded, longest_prefix. destruct (Nat.leb_spec (length (encode t)) MAX_SPLIT_WINDOW_BYTES) as [Hle|Hgt].
  { rewrite decode_encode by done. split_and!; [exists []; by rewrite app_nil_r|unfold nbytes, tlen; lia|].
    intros s' r' -> _. rewrite length_app. lia. }
  cbv zeta. assert (Hd : length (take MAX_SPLIT_WINDOW_BYTES (encode t)) = MAX_SPLIT_WINDOW_BYTES) by (rewrite length_take; lia).
  destruct (encode_cut t MAX_SPLIT_WINDOW_BYTES Ht ltac:(lia)) as [(t1 & t2 & -> & E & _)|(t1 & c & t2 & l & m & -> & Hc & Hl & Hm & E & _)];
    rewrite encodable_app in Ht; apply andb_true_iff in Ht as [Ht1 Ht2]; rewrite E in *.
  - rewrite prefix_loop_encode by done. split_and!; [by exists t2|unfold nbytes, tlen; lia|].
    intros s' r' Heq Hs'. destruct (decide (length s' <= length t1)%nat) as [|Hlt]; [done|exfalso].
    destruct t2 as [|c t2]; [rewrite app_nil_r in Heq; apply (f_equal length) in Heq; rewrite length_app in Heq; lia|].
    apply longer_prefix in Heq; [|lia]. pose proof (nbytes_pos c). unfold nbytes at 1 in Heq. unfold tlen in Heq. lia.
  - simpl in Ht2. apply andb_true_iff in Ht2 as [Hsc Ht2]. rewrite Hd. rewrite length_app in Hd.
    rewrite (prefix_loop_cut t1 c l m) by (try done; rewrite length_app; lia).
    split_and!; [by exists (c :: t2)|unfold nbytes, tlen; lia|].
    intros s' r' Heq Hs'. destruct (decide (length s' <= length t1)%nat) as [|Hlt]; [done|exfalso].
    apply longer_prefix in Heq; [|lia]. rewrite nbytes_char, Hc, length_app in Heq. destruct m; [done|]. simpl in Heq.
    unfold nbytes, tlen in *. lia.
Qed.

(** The windows keep the most they may. For every text that has an encoding,
    [_bounded_utf8_suffix] returns the longest suffix of it, and
    [_bounded_utf8_prefix] the longest prefix, whose encoding has at most 512
    bytes, wherever the cut falls inside a character; the loops on decoding errors
    end with it. *)
Lemma bounded_ends_longest t : encodable t = true ->
  longest_suffix t (_bounded_utf8_suffix (encode t)) /\ longest_prefix t (_bounded_utf8_prefix (encode t)).
Proof. intros Ht. split; [by apply bounded_suffix_longest|by apply bounded_prefix_longest]. Qed.

(** 200 characters of three bytes: both cuts fall inside a character. *)
Lemma bounded_ends_longest_witness :
  encodable (replicate 200 8364) = true
  /\ length (_bounded_utf8_suffix (encode (replicate 200 8364))) = 170%nat
  /\ (longest_suffix (replicate 200 8364) (_bounded_utf8_suffix (encode (replicate 200 8364)))
      /\ longest_prefix (replicate 200 8364) (_bounded_utf8_prefix (encode (replicate 200 8364)))).
Proof. split; [reflexivity|]. split; [vm_compute; reflexivity|]. apply bounded_ends_longest. reflexivity. Defined.

(** ** The groups with omitted fields *)

Definition omit_at {A} (o : nat) (omitted : list nat) (l : list A) : list A :=
  omap (fun e : nat * A => if elem e.1 omitted then None else Some e.2) (zip (seq o (length l)) l).

Lemma omit_at_cons {A} o om (a : A) l : omit_at o om (a :: l) = if elem o om then omit_at (S o) om l else a :: omit_at (S o) om l.
Proof. unfold omit_at. simpl. by destruct (elem o om). Qed.

(** Omitting an earlier position as well changes nothing. *)
Lemma omit_at_before {A} o p om (l : list A) : (p < o)%nat -> omit_at o (p :: om) l = omit_at o om l.
Proof.
  revert o. induction l as [|a l IH]; intros o Hp; [done|]. rewrite !omit_at_cons, !IH by lia.
  assert (elem o (p :: om) = elem o om) as ->; [|done]. unfold elem. apply bool_decide_ext. rewrite elem_of_cons. split; [intros [->|?]; [lia|done]|auto].
Qed.

Lemma combinations_from {A} k (l : list A) om : om ∈ combinations k l -> Forall (fun x => x ∈ l) om.
Proof.
  revert k om. induction l as [|a l IH]; intros [|k] om; simpl; try (rewrite list_elem_of_singleton; by intros ->); [by rewrite elem_of_nil|].
  rewrite elem_of_app, list_elem_of_In, List.in_map_iff. intros [(om' & <- & Hin)|Hin].
  - constructor; [by left|]. apply list_elem_of_In, IH in Hin. eapply Forall_impl; [done|]. intros x Hx. by right.
  - eapply Forall_impl; [by eapply IH|]. intros x Hx. by right.
Qed.

(** The position before a range is in no combination of the range. *)
Lemma combinations_fresh k o n om : om ∈ combinations k (seq (S o) n) -> elem o om = false.
Proof.
  intros Hin%combinations_from. apply elem_false. intros Ho. rewrite Forall_forall in Hin. apply Hin, elem_of_seq in Ho. lia.
Qed.

Lemma sublist_full {A} (x l : list A) : x `sublist_of` l -> length x = length l -> x = l.
Proof.
  induction 1 as [|a x l _ IH|a x l Hs IH]; simpl; [done|intros [= ?]; f_equal; auto|].
  intros Hl. apply sublist_length in Hs. lia.
Qed.

Lemma omit_at_none {A} o (l : list A) : omit_at o [] l = l.
Proof. revert o. induction l as [|a l IH]; intros o; [done|]. rewrite omit_at_cons. simpl. by rewrite IH. Qed.

(** Omitting [k] of the positions in every way gives the sublists with [k] fewer. *)
Lemma combinations_omit {A} (l : list A) : forall o k x,
  (exists om, om ∈ combinations k (seq o (length l)) /\ x = omit_at o om l) <-> x `sublist_of` l /\ (length x + k = length l)%nat.
Proof.
  induction l as [|a l IH]; intros o [|k] x; simpl.
  - setoid_rewrite list_elem_of_singleton. rewrite sublist_nil_r. split; [by intros (om & -> & ->)|]. intros [-> _]. by exists [].
  - split; [intros (om & Hom & _); by apply elem_of_nil in Hom|]. intros [_ ?]; lia.
  - setoid_rewrite list_elem_of_singleton. split.
    + intros (om & -> & ->). rewrite omit_at_none. simpl. split; [done|lia].
    + intros [Hs Hl]. exists []. split; [done|]. rewrite omit_at_none. apply sublist_full; [done|]. simpl. lia.
  - setoid_rewrite elem_of_app. setoid_rewrite list_elem_of_In at 1. setoid_rewrite List.in_map_iff. rewrite sublist_cons_r. split.
    + intros (om & [(om' & <- & Hin%list_elem_of_In)|Hin] & ->); rewrite omit_at_cons.
      * rewrite (proj2 (elem_true _ _)) by (by left). rewrite omit_at_before by lia.
        destruct (proj1 (IH (S o) k _) (ex_intro _ om' (conj Hin eq_refl))) as [Hs Hl]. split; [by left|lia].
      * rewrite (combinations_fresh _ _ _ _ Hin). destruct (proj1 (IH (S o) (S k) _) (ex_intro _ om (conj Hin eq_refl))) as [Hs Hl].
        split; [right; by eexists|simpl; lia].
    + intros [[Hs|(x' & -> & Hs)] Hl].
      * destruct (proj2 (IH (S o) k x)) as (om & Hin & ->); [split; [done|lia]|]. exists (o :: om).
        split; [left; exists om; split; [done|by apply list_elem_of_In]|]. rewrite omit_at_cons, (proj2 (elem_true _ _)) by (by left).
        by rewrite omit_at_before by lia.
      * destruct (proj2 (IH (S o) (S k) x')) as (om & Hin & ->); [split; [done|simpl in Hl; lia]|]. exists om. split; [by right|].
        by rewrite omit_at_cons, (combinations_fresh _ _ _ _ Hin).
Qed.

(** [bounded_skip_fragments] yields the groups its description promises and no
    others: both ends of a stretch of neighbouring values, and between them every
    way of leaving out at least one and at most [max_skips] of the values, from
    stretches with at most [max_skips + 1] values between their ends. *)
Lemma skip_groups_exact {A} (values : list A) max_skips group :
  group ∈ bounded_skip_fragments values max_skips <->
  exists before first middle final after kept,
    values = before ++ first :: middle ++ final :: after /\ group = first :: kept ++ [final]
    /\ kept `sublist_of` middle /\ (length middle <= max_skips + 1)%nat
    /\ (1 <= length middle - length kept <= max_skips)%nat.
Proof.
  unfold bounded_skip_fragments. rewrite list_elem_of_In, List.in_concat. setoid_rewrite List.in_map_iff. split.
  - intros (? & (start & <- & Hstart%List.in_seq) & Hg). apply List.in_concat in Hg as (? & (end_ & <- & Hend%List.in_seq)%List.in_map_iff & Hg).
    unfold groups_between in Hg. destruct (values !! start) as [first|] eqn:Ef; [|done]. destruct (values !! end_) as [final|] eqn:El; [|done].
    apply List.in_concat in Hg as (? & (k & <- & Hk%List.in_seq)%List.in_map_iff & Hg). apply List.in_map_iff in Hg as (om & <- & Hom%list_elem_of_In).
    set (middle := take (end_ - start - 1) (drop (S start) values)) in *.
    assert (Hml : length middle = (end_ - start - 1)%nat) by (subst middle; rewrite length_take, length_drop; lia).
    destruct (proj1 (combinations_omit middle 0 k _) (ex_intro _ om (conj Hom eq_refl))) as [Hs Hl].
    exists (take start values), first, middle, final, (drop (S end_) values), (omit om middle). split_and!; [|done|done|lia|change (omit om middle) with (omit_at 0 om middle); lia..].
    rewrite <- (take_drop_middle values start first Ef) at 1. f_equal. f_equal. subst middle.
    rewrite <- (take_drop (end_ - start - 1) (drop (S start) values)) at 1. f_equal. rewrite drop_drop.
    replace (S start + (end_ - start - 1))%nat with end_ by lia. by apply drop_S.
  - intros (before & first & middle & final & after & kept & -> & -> & Hs & Hm & Hk).
    set (start := length before). set (end_ := (start + 1 + length middle)%nat). eexists. split; [exists start; split; [reflexivity|]|].
    { apply List.in_seq. rewrite length_app. simpl. lia. }
    pose proof (sublist_length _ _ Hs). apply List.in_concat. eexists. split; [apply List.in_map_iff; exists end_; split; [reflexivity|]|].
    { apply List.in_seq. rewrite !length_app. simpl. rewrite length_app. simpl. lia. }
    unfold groups_between. rewrite (list_lookup_middle before _ first start) by done.
    assert ((before ++ first :: middle ++ final :: after) !! end_ = Some final) as ->.
    { rewrite (app_assoc _ [first] _ : before ++ first :: middle ++ final :: after = (before ++ [first]) ++ middle ++ final :: after).
      rewrite (app_assoc (before ++ [first])). apply list_lookup_middle. rewrite !length_app. simpl. lia. }
    assert (take (end_ - start - 1) (drop (S start) (before ++ first :: middle ++ final :: after)) = middle) as ->.
    { replace (S start) with (length (before ++ [first])) by (rewrite length_app; simpl; lia).
      rewrite (app_assoc _ [first] _ : before ++ first :: middle ++ final :: after = (before ++ [first]) ++ middle ++ final :: after).
      rewrite drop_app_length. replace (end_ - start - 1)%nat with (length middle) by lia. apply take_app_length. }
    destruct (proj2 (combinations_omit middle 0 (length middle - length kept) kept)) as (om & Hom & Hkept); [split; [done|lia]|].
    apply List.in_concat. eexists. split; [apply List.in_map_iff; exists (length middle - length kept)%nat; split; [reflexivity|]|].
    { apply List.in_seq. lia. }
    apply List.in_map_iff. exists om. split; [|by apply list_elem_of_In]. by rewrite Hkept.
Qed.
