(* ===== verification/Provenance.v ===== *)
(** * Provenance of scanned text

    Models the windows of [memory_router/security_provenance.py]: a text may
    carry, for the whole or for each character, the number of the approved field
    it comes from ([ReviewedText]); joins, slices and bounded windows carry the
    marks along. A window counts as reviewed only when all it shows comes from
    one approved field.

    [sequence_windows] is a generator whose consumer reads the clock between
    windows, so it is a list of stages: a stage reads the clock and either ends
    the generator or yields some windows. *)

From Stdlib Require Import ZArith Lia Ascii.
From stdpp Require Import base sets strings numbers list.
From S2P Require Import Prelude Errors Text Chars ScanModels RuleEdges ScanWindows.

Local Open Scope Z_scope.

(** ** Marked texts *)

(** [ReviewedText.trusted]: one mark for the whole, or one per character. *)
Inductive trust := TInt (n : Z) | TFlags (flags : list Z).

(** A [str] ([rt_trust] is [None]) or a [ReviewedText]. *)
Record rtext := mkR { rt_text : text; rt_trust : option trust }.

Definition plain (t : text) : rtext := mkR t None.
Definition is_reviewed_text (r : rtext) : bool := match rt_trust r with Some _ => true | None => false end.

(** [ReviewedText(value)] where the value may be one already. *)
Definition marked (r : rtext) : rtext := match rt_trust r with Some _ => r | None => mkR (rt_text r) (Some (TInt 0)) end.

(** [occurrence_origin] *)
Definition occurrence_origin (r : rtext) : Z :=
  match rt_trust r with
  | None => 0
  | Some (TInt n) => Z.max 0 n
  | Some (TFlags flags) =>
      match List.filter (fun f => negb (f =? -1)) (dict_fromkeys flags) with
      | [n] => if n =? 0 then 0 else n
      | _ => 0
      end
  end.

(** [reviewed] *)
Definition reviewed (r : rtext) : bool := 0 <? occurrence_origin r.

(** [flags_for] *)
Definition flags_for (r : rtext) : list Z :=
  match rt_trust r with
  | Some (TFlags flags) => flags
  | _ => replicate (length (rt_text r)) (occurrence_origin r)
  end.

Fixpoint join_flags (separator : text) (entries : list rtext) : list Z :=
  match entries with
  | [] => []
  | [e] => flags_for e
  | e :: rest => flags_for e ++ replicate (length separator) (-1) ++ join_flags separator rest
  end.

(** [join] *)
Definition join (entries : list rtext) (separator : text) : rtext :=
  mkR (tjoin separator (map rt_text entries)) (Some (TFlags (join_flags separator entries))).

(** [slice_text(value, start, stop)]; [stop] is the end of the text when absent. *)
Definition slice_text (r : rtext) (start : nat) (stop : option nat) : rtext :=
  let cut {A} (l : list A) := match stop with Some j => take (j - start) (drop start l) | None => drop start l end in
  mkR (cut (rt_text r)) (Some (match rt_trust r with
                               | Some (TFlags flags) => TFlags (cut flags)
                               | Some (TInt n) => TInt n
                               | None => TInt 0
                               end)).

(** [bound] *)
Definition bound (r : rtext) (prefix : bool) : rtext :=
  let data := encode (rt_text r) in
  if prefix then slice_text r 0 (Some (length (_bounded_utf8_prefix data)))
  else slice_text r (length (rt_text r) - length (_bounded_utf8_suffix data)) None.

(** The loop of [bounded_join] over the entries in the order it meets them. *)
Fixpoint bounded_join_loop (separator : text) (prefix first : bool) (text_ : rtext) (sequence : list rtext) : rtext :=
  match sequence with
  | [] => text_
  | entry :: rest =>
      let sep := if first then [] else separator in
      let original_size := nbytes (rt_text entry) + nbytes (rt_text text_) + nbytes sep in
      let entry := bound (marked entry) prefix in
      let text_ := bound (join (if prefix then [text_; entry] else [entry; text_]) sep) prefix in
      if Z.of_nat MAX_SPLIT_WINDOW_BYTES <=? original_size then text_
      else bounded_join_loop separator prefix false text_ rest
  end.

(** [bounded_join] *)
Definition bounded_join (entries : list rtext) (separator : text) (prefix : bool) : rtext :=
  bounded_join_loop separator prefix true (mkR [] (Some (TInt 0))) (if prefix then entries else rev entries).

(** [mixed_suffix]; the list of fragments is never empty. *)
Definition mixed_suffix (fragments : list rtext) : rtext :=
  match fragments with
  | [] => bounded_join [] [] false
  | first :: rest =>
      let tail := bounded_join rest [] false in
      if Z.of_nat MAX_SPLIT_WINDOW_BYTES <=? foldr Z.add 0 (map (fun f => nbytes (rt_text f)) rest) then tail
      else bounded_join [first; tail] space false
  end.

Section windows.
Context `{Clock} `{UnicodeDb}.

(** [trim] *)
Definition trim (r : rtext) (from_start : bool) : rtext :=
  let trimmed := _trim_boundary_padding (rt_text r) from_start in
  if from_start then slice_text (marked r) (length (rt_text r) - length trimmed) None
  else slice_text (marked r) 0 (Some (length trimmed)).

(** A stage of a generator: [None] ends it. *)
Definition stage : Type := scan (option (list rtext)).

(** [_pair_edge_windows] *)
Definition _pair_edge_windows (first second : rtext) (deadline : option Z) : list stage :=
  let left := bound (trim first false) false in
  let right := bound (trim second true) true in
  let origin := occurrence_origin first in
  let trusted := if origin =? occurrence_origin second then origin else 0 in
  [mret (Some [join [left; right] space; join [left; right] []]);
   (edges ← _rule_edge_matches (rt_text first) (rt_text second) deadline;
    mret (Some (map (fun edge => mkR edge (Some (TInt trusted))) edges)))].

(** The loop that trims the fragments: [None] when time is up. *)
Fixpoint trim_loop (deadline : option Z) (first : bool) (fragments : list rtext) : scan (option (list rtext)) :=
  match fragments with
  | [] => mret (Some [])
  | fragment :: rest =>
      is_late ← late deadline;
      if is_late : bool then mret None
      else
        let value := trim fragment (negb first) in
        let value := match rest with [] => value | _ => trim value false end in
        trimmed ← trim_loop deadline false rest;
        mret (match trimmed with Some ts => Some (value :: ts) | None => None end)
  end.

(** The windows before the trimmed ones. *)
Definition plain_windows (fragments : list rtext) : list rtext :=
  let before := take (length fragments - 1) fragments in
  let current := List.last fragments (plain []) in
  let spaced_prefix := bounded_join before space false in
  let compact_prefix := bounded_join before [] false in
  let limit := Z.of_nat MAX_SPLIT_WINDOW_BYTES in
  let size := nbytes (rt_text current) in
  (if (limit <? nbytes (rt_text spaced_prefix) + 1 + size) || (limit <? nbytes (rt_text compact_prefix) + size)
   then let prefix := bounded_join [current] [] true in [join [spaced_prefix; prefix] space; join [compact_prefix; prefix] []]
   else [])
  ++ [bounded_join fragments space false; bounded_join fragments [] false; mixed_suffix fragments;
      join [bounded_join (take 1 fragments) [] true; bounded_join (drop 1 fragments) [] false] space].

(** [sequence_windows] *)
Definition sequence_windows (fragments : list rtext) (deadline : option Z) : list stage :=
  match fragments with
  | [] | [_] => []
  | first :: second :: rest =>
      [(is_late ← late deadline; mret (if is_late : bool then None else Some (plain_windows fragments)));
       (trimmed ← trim_loop deadline true fragments;
        mret (match trimmed with
              | Some ts => Some [bounded_join ts space false; bounded_join ts [] false; mixed_suffix ts]
              | None => None
              end))]
      ++ match rest with [] => _pair_edge_windows first second deadline | _ => [] end
  end.

End windows.

(** ** Marks follow the characters *)

(** A mark for every character, and the mark of separators on spaces only. *)
Definition neutral_ok (e : Z * Z) : bool := negb (e.2 =? -1) || (e.1 =? 32).

Definition rt_ok (r : rtext) : bool :=
  match rt_trust r with Some (TFlags flags) => (length flags =? length (rt_text r))%nat && forallb neutral_ok (zip (rt_text r) flags) | _ => true end.

(** The characters with their marks, without the separators that were inserted. *)
Definition origins (r : rtext) : list (Z * Z) :=
  List.filter (fun e => negb (e.2 =? -1)) (zip (rt_text r) (flags_for r)).

(** All a window shows comes, in order, from the fragments. *)
Definition shows (fragments : list rtext) (w : rtext) : Prop :=
  rt_ok w = true /\ origins w `sublist_of` concat (map origins fragments).

Lemma flags_for_length r : rt_ok r = true -> length (flags_for r) = length (rt_text r).
Proof.
  unfold rt_ok, flags_for. destruct (rt_trust r) as [[n|flags]|]; [|by intros [?%Nat.eqb_eq _]%andb_true_iff|]; intros _; apply length_replicate.
Qed.

Lemma join_flags_length separator entries : forallb rt_ok entries = true ->
  length (join_flags separator entries) = length (tjoin separator (map rt_text entries)).
Proof.
  induction entries as [|e [|e' rest] IH]; [done|..]; simpl; rewrite ?andb_true_r.
  - apply flags_for_length.
  - intros [He Hrest]%andb_true_iff. specialize (IH Hrest). simpl in IH. rewrite !length_app, length_replicate, flags_for_length by done.
    by rewrite IH.
Qed.

Lemma zip_app_eq {A B} (a1 a2 : list A) (b1 b2 : list B) : length a1 = length b1 -> zip (a1 ++ a2) (b1 ++ b2) = zip a1 b1 ++ zip a2 b2.
Proof. apply zip_with_app. Qed.

Lemma neutral_spaces (t : text) flag : Forall (eq 32) t -> forallb neutral_ok (zip t (replicate (length t) flag)) = true.
Proof. induction 1 as [|c t <- _ IH]; [done|]. simpl. rewrite IH. unfold neutral_ok. simpl. by rewrite orb_true_r. Qed.

Lemma neutral_whole (t : text) flag : 0 <= flag -> forallb neutral_ok (zip t (replicate (length t) flag)) = true.
Proof. intros Hf. induction t as [|c t IH]; [done|]. simpl. rewrite IH. unfold neutral_ok. simpl. by rewrite (proj2 (Z.eqb_neq flag (-1))) by lia. Qed.

Lemma flags_for_neutral r : rt_ok r = true -> forallb neutral_ok (zip (rt_text r) (flags_for r)) = true.
Proof.
  unfold rt_ok, flags_for, occurrence_origin. destruct (rt_trust r) as [[n|flags]|]; [|by intros [_ ?]%andb_true_iff|]; intros _; apply neutral_whole; lia.
Qed.

Lemma join_flags_neutral separator entries : Forall (eq 32) separator -> forallb rt_ok entries = true ->
  forallb neutral_ok (zip (tjoin separator (map rt_text entries)) (join_flags separator entries)) = true.
Proof.
  intros Hsep. induction entries as [|e [|e' rest] IH]; [done|..]; simpl; rewrite ?andb_true_r.
  - apply flags_for_neutral.
  - intros [He Hrest]%andb_true_iff. specialize (IH Hrest). simpl in IH.
    rewrite zip_app_eq, zip_app_eq, !forallb_app, flags_for_neutral, neutral_spaces by (by rewrite ?flags_for_length, ?length_replicate). done.
Qed.

Lemma join_ok entries separator : Forall (eq 32) separator -> forallb rt_ok entries = true -> rt_ok (join entries separator) = true.
Proof.
  intros Hsep Hok. unfold rt_ok, join. simpl. rewrite join_flags_length, join_flags_neutral by done. by rewrite Nat.eqb_refl.
Qed.

Lemma filter_separator (separator : text) :
  List.filter (fun e : Z * Z => negb (e.2 =? -1)) (zip separator (replicate (length separator) (-1))) = [].
Proof. induction separator as [|c s IH]; [done|]. simpl. apply IH. Qed.

Lemma origins_join entries separator : forallb rt_ok entries = true -> origins (join entries separator) = concat (map origins entries).
Proof.
  unfold origins at 1, join. simpl. unfold flags_for at 1. simpl.
  induction entries as [|e [|e' rest] IH]; [done|..]; simpl; rewrite ?andb_true_r.
  - intros _. by rewrite app_nil_r.
  - intros [He Hrest]%andb_true_iff. specialize (IH Hrest). simpl in IH.
    rewrite zip_app_eq, zip_app_eq, !List.filter_app, filter_separator by (by rewrite ?flags_for_length, ?length_replicate).
    simpl. by rewrite IH.
Qed.

(** A stretch of a list is a sublist of it, and so is what a filter keeps. *)
Lemma sublist_cut {A} (l : list A) start stop :
  (match stop with Some j => take (j - start) (drop start l) | None => drop start l end) `sublist_of` l.
Proof.
  destruct stop as [j|]; [|apply sublist_drop]. etrans; [apply sublist_take|apply sublist_drop].
Qed.

Lemma sublist_filter {A} (p : A -> bool) (l1 l2 : list A) : l1 `sublist_of` l2 -> List.filter p l1 `sublist_of` List.filter p l2.
Proof. induction 1 as [|x l1 l2 _ IH|x l1 l2 _ IH]; simpl; [done|destruct (p x); [by apply sublist_skip|done]|destruct (p x); [by apply sublist_cons|done]]. Qed.

Lemma zip_cut {A B} (a : list A) (b : list B) start stop :
  zip (match stop with Some j => take (j - start) (drop start a) | None => drop start a end)
      (match stop with Some j => take (j - start) (drop start b) | None => drop start b end)
  = match stop with Some j => take (j - start) (drop start (zip a b)) | None => drop start (zip a b) end.
Proof. destruct stop as [j|]; by rewrite zip_with_drop, ?zip_with_take. Qed.

Lemma forallb_sublist {A} (p : A -> bool) l1 l2 : l1 `sublist_of` l2 -> forallb p l2 = true -> forallb p l1 = true.
Proof. induction 1; simpl; rewrite ?andb_true_iff; naive_solver. Qed.

Lemma slice_ok r start stop : rt_ok r = true -> rt_ok (slice_text r start stop) = true.
Proof.
  unfold rt_ok, slice_text. simpl. destruct (rt_trust r) as [[n|flags]|]; [done| |done]. intros [Hl%Nat.eqb_eq Hn]%andb_true_iff. apply andb_true_iff. split.
  - apply Nat.eqb_eq. destruct stop; rewrite ?length_take, !length_drop, Hl; done.
  - eapply forallb_sublist; [|exact Hn]. rewrite zip_cut. apply sublist_cut.
Qed.

Lemma replicate_cut {A} (x : A) (l : list A) start stop :
  replicate (length (match stop with Some j => take (j - start) (drop start l) | None => drop start l end)) x
  = match stop with Some j => take (j - start) (drop start (replicate (length l) x)) | None => drop start (replicate (length l) x) end.
Proof. destruct stop; rewrite ?length_take, length_drop, drop_replicate, ?take_replicate; [f_equal; lia|done]. Qed.

Lemma flags_slice r start stop : is_reviewed_text r = true ->
  flags_for (slice_text r start stop) =
  match stop with Some j => take (j - start) (drop start (flags_for r)) | None => drop start (flags_for r) end.
Proof.
  unfold is_reviewed_text, flags_for, slice_text, occurrence_origin. simpl. destruct (rt_trust r) as [[n|flags]|]; [|done..].
  intros _. apply replicate_cut.
Qed.

Lemma origins_slice r start stop : is_reviewed_text r = true -> origins (slice_text r start stop) `sublist_of` origins r.
Proof.
  intros Hr. unfold origins. apply sublist_filter. rewrite flags_slice by done. unfold slice_text. simpl. rewrite zip_cut. apply sublist_cut.
Qed.

Lemma origins_marked r : origins (marked r) = origins r.
Proof. unfold origins, marked, flags_for, occurrence_origin. by destruct (rt_trust r) as [[]|] eqn:E; rewrite ?E. Qed.

Lemma marked_ok r : rt_ok (marked r) = rt_ok r.
Proof. unfold rt_ok, marked. by destruct (rt_trust r) as [[]|] eqn:E; rewrite ?E. Qed.

Lemma marked_reviewed r : is_reviewed_text (marked r) = true.
Proof. unfold is_reviewed_text, marked. by destruct (rt_trust r) eqn:E; rewrite ?E. Qed.

(** ** Windows show their fragments *)

Lemma shows_self fragments r : r ∈ fragments -> rt_ok r = true -> shows fragments r.
Proof.
  intros Hin Hok. split; [done|]. apply list_elem_of_split in Hin as (l1 & l2 & ->). rewrite map_app, concat_app. simpl.
  apply sublist_inserts_l, sublist_inserts_r. done.
Qed.

Lemma shows_slice fragments r start stop : is_reviewed_text r = true -> shows fragments r -> shows fragments (slice_text r start stop).
Proof. intros Hr [Hok Hs]. split; [by apply slice_ok|]. etrans; [by apply origins_slice|done]. Qed.

Lemma shows_bound fragments r prefix : is_reviewed_text r = true -> shows fragments r -> shows fragments (bound r prefix).
Proof. unfold bound. destruct prefix; apply shows_slice. Qed.

Lemma shows_marked fragments r : shows fragments r -> shows fragments (marked r).
Proof. unfold shows. by rewrite marked_ok, origins_marked. Qed.

Lemma shows_join f1 f2 r1 r2 separator : Forall (eq 32) separator -> shows f1 r1 -> shows f2 r2 -> shows (f1 ++ f2) (join [r1; r2] separator).
Proof.
  intros Hsep [Hok1 H1] [Hok2 H2]. assert (Hall : forallb rt_ok [r1; r2] = true) by (simpl; by rewrite Hok1, Hok2).
  split; [by apply join_ok|]. rewrite origins_join by done. simpl. rewrite app_nil_r, map_app, concat_app. by apply sublist_app.
Qed.

(** What is shown of some fragments is shown of more. *)
Lemma shows_more f1 f2 r : concat (map origins f1) `sublist_of` concat (map origins f2) -> shows f1 r -> shows f2 r.
Proof. intros Hf [Hok Hs]. split; [done|]. by etrans. Qed.

Lemma concat_sublist {A} (l1 l2 : list (list A)) : l1 `sublist_of` l2 -> concat l1 `sublist_of` concat l2.
Proof. induction 1; simpl; [done|by apply sublist_app|by apply sublist_inserts_l]. Qed.

Lemma map_sublist {A B} (f : A -> B) l1 l2 : l1 `sublist_of` l2 -> map f l1 `sublist_of` map f l2.
Proof. induction 1; simpl; [done|by apply sublist_skip|by apply sublist_cons]. Qed.

Lemma shows_sub f1 f2 r : f1 `sublist_of` f2 -> shows f1 r -> shows f2 r.
Proof. intros Hf. apply shows_more, concat_sublist, map_sublist, Hf. Qed.

Lemma shows_empty fragments : shows fragments (mkR [] (Some (TInt 0))).
Proof. split; [done|]. apply sublist_nil_l. Qed.

Lemma join_reviewed entries separator : is_reviewed_text (join entries separator) = true.
Proof. done. Qed.

Lemma separator_spaces (first : bool) separator : Forall (eq 32) separator -> Forall (eq 32) (if first then [] else separator).
Proof. by destruct first. Qed.

Lemma bounded_join_loop_shows separator (prefix : bool) : Forall (eq 32) separator -> forall sequence first shown text_,
  shows shown text_ -> forallb rt_ok sequence = true ->
  shows (if prefix then shown ++ sequence else rev sequence ++ shown) (bounded_join_loop separator prefix first text_ sequence).
Proof.
  intros Hsep. induction sequence as [|e rest IH]; intros first shown text_ Ht Hok; simpl in *.
  { destruct prefix; by rewrite ?app_nil_r. }
  apply andb_true_iff in Hok as [He Hrest].
  assert (Hentry : shows [e] (bound (marked e) prefix)).
  { apply shows_bound; [apply marked_reviewed|]. apply shows_marked, shows_self; [by left|done]. }
  destruct prefix.
  - assert (Hnew : shows (shown ++ [e]) (bound (join [text_; bound (marked e) true] (if first then [] else separator)) true)).
    { apply shows_bound; [done|]. by apply shows_join; [apply separator_spaces|..]. }
    destruct (Z.of_nat MAX_SPLIT_WINDOW_BYTES <=? _); [|specialize (IH false _ _ Hnew Hrest); by rewrite <- app_assoc in IH].
    eapply shows_sub; [|exact Hnew]. apply sublist_app; [done|]. apply sublist_skip, sublist_nil_l.
  - assert (Hnew : shows (e :: shown) (bound (join [bound (marked e) false; text_] (if first then [] else separator)) false)).
    { apply shows_bound; [done|]. by apply (shows_join [e] shown); [apply separator_spaces|..]. }
    destruct (Z.of_nat MAX_SPLIT_WINDOW_BYTES <=? _); [|specialize (IH false _ _ Hnew Hrest); by rewrite <- app_assoc].
    eapply shows_sub; [|exact Hnew]. rewrite <- app_assoc. by apply sublist_inserts_l.
Qed.

Lemma bounded_join_shows entries separator prefix : Forall (eq 32) separator -> forallb rt_ok entries = true -> shows entries (bounded_join entries separator prefix).
Proof.
  intros Hsep Hok. unfold bounded_join. destruct prefix.
  - apply (bounded_join_loop_shows separator true Hsep entries true [] _); [apply shows_empty|done].
  - pose proof (bounded_join_loop_shows separator false Hsep (rev entries) true [] (mkR [] (Some (TInt 0))) (shows_empty _)) as Hs.
    rewrite rev_involutive, app_nil_r in Hs. apply Hs. rewrite forallb_forall in *. intros x Hx. by apply Hok, in_rev.
Qed.

Lemma no_separator : Forall (eq 32) ([] : text).
Proof. constructor. Qed.

Lemma space_separator : Forall (eq 32) space.
Proof. by repeat constructor. Qed.
#[local] Hint Resolve no_separator space_separator : core.

Lemma mixed_suffix_shows fragments : forallb rt_ok fragments = true -> shows fragments (mixed_suffix fragments).
Proof.
  destruct fragments as [|first rest]; [by intros; apply bounded_join_shows|]. simpl. intros [Hf Hrest]%andb_true_iff. cbv zeta.
  pose proof (bounded_join_shows rest [] false no_separator Hrest) as Htail. case_match.
  - eapply shows_sub; [|done]. by apply sublist_cons.
  - destruct Htail as [Hok Htail]. eapply shows_more; [|apply bounded_join_shows; [done|]; simpl; by rewrite Hf, Hok]. simpl. rewrite app_nil_r. by apply sublist_app.
Qed.

Lemma join_two_shows fragments f1 f2 r1 r2 separator : Forall (eq 32) separator -> f1 ++ f2 `sublist_of` fragments -> shows f1 r1 -> shows f2 r2 ->
  shows fragments (join [r1; r2] separator).
Proof. intros Hsep Hsub H1 H2. eapply shows_sub; [exact Hsub|by apply shows_join]. Qed.

Lemma last_split {A} (l : list A) d : l <> [] -> l = take (length l - 1) l ++ [List.last l d].
Proof.
  intros Hl. destruct l as [|x l'] using rev_ind; [done|]. rewrite length_app, List.last_last. simpl.
  replace (length l' + 1 - 1)%nat with (length l') by lia. by rewrite take_app_length.
Qed.

Lemma plain_windows_show fragments w : fragments <> [] -> forallb rt_ok fragments = true -> w ∈ plain_windows fragments -> shows fragments w.
Proof.
  intros Hne Hok. unfold plain_windows. cbv zeta. pose proof (last_split fragments (plain []) Hne) as Hsplit.
  set (before := take (length fragments - 1) fragments) in *. set (current := List.last fragments (plain [])) in *. clearbody before current.
  rewrite Hsplit in Hok. rewrite forallb_app in Hok. apply andb_true_iff in Hok as [Hbefore Hcur].
  assert (Hall : forallb rt_ok fragments = true) by (rewrite Hsplit, forallb_app, Hbefore; done).
  rewrite elem_of_app. intros [Hw|Hw].
  - destruct (_ || _); [|by apply elem_of_nil in Hw]. set_unfold in Hw.
    destruct Hw as [->|[->|[]]]; (eapply join_two_shows; [done|by rewrite Hsplit|by apply bounded_join_shows..]).
  - set_unfold in Hw. destruct Hw as [->|[->|[->|[->|[]]]]]; [by apply bounded_join_shows|by apply bounded_join_shows|by apply mixed_suffix_shows|].
    eapply join_two_shows; [done| |apply bounded_join_shows; [done|]; eapply forallb_sublist; [|exact Hall]..].
    + by rewrite take_drop.
    + apply sublist_take.
    + apply sublist_drop.
Qed.

Section shown_windows.
Context `{Clock} `{UnicodeDb}.

Lemma trim_shows fragments r from_start : shows fragments r -> shows fragments (trim r from_start).
Proof. intros Hs. unfold trim. destruct from_start; apply shows_slice, shows_marked, Hs; apply marked_reviewed. Qed.

(** The trimmed fragments show the fragments they come from, one by one. *)
Lemma trim_loop_shows deadline fragments : forall first n ts n',
  forallb rt_ok fragments = true -> trim_loop deadline first fragments n = (Ok (Some ts), n') ->
  forallb rt_ok ts = true /\ concat (map origins ts) `sublist_of` concat (map origins fragments).
Proof.
  induction fragments as [|f rest IH]; intros first n ts n' Hok Hrun; simpl in *.
  { unfold mret, eff_ret in Hrun. by simplify_eq. }
  apply andb_true_iff in Hok as [Hf Hrest]. apply bind_ok_inv in Hrun as (is_late & n1 & _ & Hrun). destruct is_late; [by unfold mret, eff_ret in Hrun|].
  apply bind_ok_inv in Hrun as (trimmed & n2 & Hloop & Hrun). unfold mret, eff_ret in Hrun. destruct trimmed as [ts'|]; [|done]. simplify_eq.
  destruct (IH _ _ _ _ Hrest Hloop) as [Hok' Hsub].
  assert (Hv : shows [f] (match rest with [] => trim f (negb first) | _ => trim (trim f (negb first)) false end)).
  { destruct rest; repeat apply trim_shows; (apply shows_self; [by left|done]). }
  destruct Hv as [Hvok Hvs]. simpl in Hvs. rewrite app_nil_r in Hvs. cbn [forallb map concat]. rewrite Hok', andb_true_r. split; [exact Hvok|]. by apply sublist_app.
Qed.

(** The windows a run of a generator yields, when its consumer leaves the clock
    in any state between its stages. *)
Inductive yields : list stage -> rtext -> Prop :=
  | yields_here (st : stage) sts n ws n' w : st n = (Ok (Some ws), n') -> w ∈ ws -> yields (st :: sts) w
  | yields_later (st : stage) sts n ws n' w : st n = (Ok (Some ws), n') -> yields sts w -> yields (st :: sts) w.

Lemma yields_stage sts w : yields sts w -> exists st n ws n', st ∈ sts /\ st n = (Ok (Some ws), n') /\ w ∈ ws.
Proof.
  induction 1 as [st sts n ws n' w Hrun Hw|st sts n ws n' w _ _ (st' & m & ws' & m' & Hin & Hrun & Hw)].
  - exists st, n, ws, n'. split; [by left|done].
  - exists st', m, ws', m'. split; [by right|done].
Qed.

(** A window is made of what the fragments show, or is the name of a rule found
    across a boundary, marked only if both sides bear the same mark. *)
Definition window_ok (fragments : list rtext) (w : rtext) : Prop :=
  shows fragments w \/
  exists first second n, fragments = [first; second] /\ rt_trust w = Some (TInt n)
    /\ (n = 0 \/ n = occurrence_origin first /\ n = occurrence_origin second).

Lemma sequence_windows_ok fragments deadline w : forallb rt_ok fragments = true -> yields (sequence_windows fragments deadline) w ->
  window_ok fragments w.
Proof.
  intros Hok (st & n & ws & n' & Hin & Hrun & Hw)%yields_stage. unfold sequence_windows in Hin.
  destruct fragments as [|first [|second rest]]; [by apply elem_of_nil in Hin..|]. rewrite elem_of_app in Hin. destruct Hin as [Hin|Hin].
  - left. set_unfold in Hin. destruct Hin as [->|[->|[]]].
    + apply bind_ok_inv in Hrun as (is_late & n1 & _ & Hrun). unfold mret, eff_ret in Hrun. destruct is_late; simplify_eq.
      by apply plain_windows_show.
    + apply bind_ok_inv in Hrun as (trimmed & n1 & Hloop & Hrun). unfold mret, eff_ret in Hrun. destruct trimmed as [ts|]; simplify_eq.
      destruct (trim_loop_shows _ _ _ _ _ _ Hok Hloop) as [Hts Hsub]. eapply shows_more; [exact Hsub|]. set_unfold in Hw.
      destruct Hw as [->|[->|[->|[]]]]; [by apply bounded_join_shows..|by apply mixed_suffix_shows].
  - destruct rest; [|by apply elem_of_nil in Hin]. simpl in Hok. rewrite !andb_true_iff in Hok. destruct Hok as (Hf & Hs & _).
    assert (Hl : shows [first] (bound (trim first false) false)) by (apply shows_bound; [done|]; apply trim_shows, shows_self; [by left|done]).
    assert (Hr : shows [second] (bound (trim second true) true)) by (apply shows_bound; [done|]; apply trim_shows, shows_self; [by left|done]).
    unfold _pair_edge_windows in Hin. cbv zeta in Hin. revert Hin.
    generalize dependent (bound (trim first false) false). intros left Hl. generalize dependent (bound (trim second true) true). intros right Hr Hin.
    set_unfold in Hin. destruct Hin as [->|[->|[]]].
    + left. unfold mret, eff_ret in Hrun. injection Hrun as <- <-. set_unfold in Hw.
      destruct Hw as [->|[->|[]]]; by apply (join_two_shows _ [first] [second]).
    + right. apply bind_ok_inv in Hrun as (edges & n1 & _ & Hrun). unfold mret, eff_ret in Hrun. simplify_eq.
      apply list_elem_of_In, List.in_map_iff in Hw as (edge & <- & _).
      exists first, second, (if occurrence_origin first =? occurrence_origin second then occurrence_origin first else 0). split_and!; [done..|].
      destruct (Z.eqb_spec (occurrence_origin first) (occurrence_origin second)); [by right|by left].
Qed.
End shown_windows.

(** A mark of a reviewed text, separators aside, is its origin. *)
Lemma reviewed_flag w f : reviewed w = true -> f ∈ flags_for w -> f <> -1 -> f = occurrence_origin w.
Proof.
  unfold reviewed, flags_for. destruct (rt_trust w) as [[n|flags]|] eqn:E.
  - intros _ Hf _. by apply elem_of_replicate in Hf as [-> _].
  - unfold occurrence_origin. rewrite E. intros Hr Hf Hs.
    assert (Hin : f ∈ List.filter (fun f => negb (f =? -1)) (dict_fromkeys flags)).
    { apply list_elem_of_In, List.filter_In. split; [by apply list_elem_of_In, dict_fromkeys_spec|]. by apply negb_true_iff, Z.eqb_neq. }
    destruct (List.filter _ _) as [|n [|m l]]; [by apply elem_of_nil in Hin| |done]. apply list_elem_of_singleton in Hin as ->.
    by destruct (Z.eqb_spec n 0).
  - unfold occurrence_origin. by rewrite E.
Qed.

(** What a reviewed text shows bears one mark. *)
Lemma reviewed_origins w : reviewed w = true -> Forall (fun e => e.2 = occurrence_origin w) (origins w).
Proof.
  intros Hr. apply Forall_forall. intros [c f] Hin. unfold origins in Hin.
  apply list_elem_of_In, List.filter_In in Hin as [Hin Hf%negb_true_iff%Z.eqb_neq]. simpl in *.
  apply reviewed_flag; [done| |done]. apply list_elem_of_In in Hin. by apply elem_of_zip_r in Hin.
Qed.

(** ** Approved fields

    The fragments of a window are whole fields, with the number of the approved
    field they are or with none. *)

Definition whole (f : rtext) : bool := match rt_trust f with Some (TFlags _) => false | _ => true end.
Definition field_mark (f : rtext) : Z := match rt_trust f with Some (TInt n) => n | _ => 0 end.

(** The characters of the fragments that are the approved field [n]. *)
Definition field_text (n : Z) (fragments : list rtext) : text := concat (map rt_text (List.filter (fun f => field_mark f =? n) fragments)).

(** A text with spaces put in. *)
Inductive spread : text -> text -> Prop :=
  | spread_nil : spread [] []
  | spread_char c t t' : spread t t' -> spread (c :: t) (c :: t')
  | spread_space t t' : spread t t' -> spread t (32 :: t').

Lemma whole_ok fragments : forallb whole fragments = true -> forallb rt_ok fragments = true.
Proof.
  rewrite !forallb_forall. intros Hw f Hf. specialize (Hw f Hf). unfold whole, rt_ok in *. by destruct (rt_trust f) as [[n|flags]|].
Qed.

Lemma whole_origin f : whole f = true -> occurrence_origin f = Z.max 0 (field_mark f).
Proof. unfold whole, occurrence_origin, field_mark. by destruct (rt_trust f) as [[n|flags]|]. Qed.

Lemma marked_chars n (t : text) m : 0 < n ->
  map fst (List.filter (fun e : Z * Z => e.2 =? n) (List.filter (fun e => negb (e.2 =? -1)) (zip t (replicate (length t) (Z.max 0 m))))) = if m =? n then t else [].
Proof.
  intros Hn. induction t as [|c t IH]; [by case_match|]. simpl. rewrite (proj2 (Z.eqb_neq (Z.max 0 m) (-1))) by lia. simpl.
  destruct (Z.eqb_spec (Z.max 0 m) n), (Z.eqb_spec m n); try lia; simpl; by rewrite IH.
Qed.

Lemma field_origins n f : 0 < n -> whole f = true -> map fst (List.filter (fun e : Z * Z => e.2 =? n) (origins f)) = if field_mark f =? n then rt_text f else [].
Proof.
  intros Hn Hw. unfold origins. rewrite <- (marked_chars n (rt_text f) (field_mark f)) by done. f_equal. unfold flags_for. rewrite whole_origin by done.
  unfold whole in Hw. by destruct (rt_trust f) as [[m|flags]|].
Qed.

Lemma fields_origins n fragments : 0 < n -> forallb whole fragments = true ->
  map fst (List.filter (fun e : Z * Z => e.2 =? n) (concat (map origins fragments))) = field_text n fragments.
Proof.
  intros Hn. induction fragments as [|f fragments IH]; [done|]. cbn [forallb map concat]. intros [Hf Hrest]%andb_true_iff.
  rewrite List.filter_app, List.map_app, IH, field_origins by done. unfold field_text. simpl. by case_match.
Qed.

Lemma filter_all {A} (p : A -> bool) l : Forall (fun x => p x = true) l -> List.filter p l = l.
Proof. induction 1 as [|x l Hx _ IH]; [done|]. simpl. by rewrite Hx, IH. Qed.

Lemma spread_origins (l : list (Z * Z)) : forallb neutral_ok l = true -> spread (map fst (List.filter (fun e => negb (e.2 =? -1)) l)) (map fst l).
Proof.
  induction l as [|[c m] l IH]; [constructor|]. simpl. unfold neutral_ok at 1. simpl. intros [Hc Hl]%andb_true_iff.
  destruct (m =? -1); simpl in *; [apply Z.eqb_eq in Hc as ->; by apply spread_space, IH|by apply spread_char, IH].
Qed.

Lemma window_spread w : rt_ok w = true -> spread (map fst (origins w)) (rt_text w).
Proof.
  intros Hok. pose proof (spread_origins _ (flags_for_neutral w Hok)) as Hs. unfold origins.
  assert (E : map fst (zip (rt_text w) (flags_for w)) = rt_text w) by (apply fst_zip; by rewrite flags_for_length). by rewrite E in Hs.
Qed.

(** C31: approval belongs to occurrences. A window that [sequence_windows] builds
    over fields, each whole with the number of the approved field it is or with
    none, counts as reviewed only when there is one approved field such that every
    character the window shows, spaces put between aside, is copied in order from
    the texts of the fragments that are this field; the name of a rule found across
    the boundary of two fragments counts only when both are this field. So text of
    an unapproved field, or of two different approved fields together, is never
    exempt. *)
Theorem reviewed_window_one_field `{Clock} `{UnicodeDb} fragments deadline w :
  forallb whole fragments = true -> yields (sequence_windows fragments deadline) w -> reviewed w = true ->
  exists n, 0 < n /\
    ((exists shown, shown `sublist_of` field_text n fragments /\ spread shown (rt_text w))
     \/ exists first second, fragments = [first; second] /\ field_mark first = n /\ field_mark second = n).
Proof.
  intros Hw Hy Hr. pose proof (whole_ok _ Hw) as Hok. exists (occurrence_origin w). assert (Hn : 0 < occurrence_origin w) by (by apply Z.ltb_lt). split; [done|].
  destruct (sequence_windows_ok _ _ _ Hok Hy) as [[Hwok Hs]|(first & second & n & -> & Ht & Hm)].
  - left. exists (map fst (origins w)). split; [|by apply window_spread]. rewrite <- fields_origins by done. apply map_sublist.
    rewrite <- (filter_all (fun e : Z * Z => e.2 =? occurrence_origin w) (origins w)); [by apply sublist_filter|].
    eapply Forall_impl; [by apply reviewed_origins|]. intros e ->. apply Z.eqb_refl.
  - right. exists first, second. split; [done|]. assert (E : occurrence_origin w = Z.max 0 n) by (unfold occurrence_origin; by rewrite Ht).
    cbn [forallb] in Hw. rewrite !andb_true_iff in Hw. destruct Hw as (Hw1 & Hw2 & _). rewrite !whole_origin in Hm by done. lia.
Qed.

Module Example_provenance.
#[local] Instance still : Clock := {| monotonic := fun n => Z.of_nat n |}.
#[local] Instance ascii_only : UnicodeDb :=
  {| db_printable := fun _ => false; db_space := fun _ => false; db_alnum := fun _ => false; db_alpha := fun _ => false;
     db_digit := fun _ => false; db_decimal := fun _ => false; db_decimal_value := fun _ => 0; db_category := fun _ => "Cn"%string; db_name := fun _ => ""%string; db_casefold := fun c => [c];
     normalize_nfkc := fun t => t; normalize_nfd := fun t => t |}.

(** Two fragments of one approved field, and one that is not approved. *)
Definition approved_1 : rtext := mkR (u "reveal the") (Some (TInt 3)).
Definition approved_2 : rtext := mkR (u "secret") (Some (TInt 3)).
Definition foreign : rtext := mkR (u "secret") (Some (TInt 0)).

Definition window (second : rtext) : rtext := bounded_join [approved_1; second] space false.

Lemma window_of_one_field : reviewed (window approved_2) = true.
Proof. vm_compute. reflexivity. Qed.

Lemma window_of_two_fields : reviewed (window foreign) = false.
Proof. vm_compute. reflexivity. Qed.

Lemma reviewed_window_one_field_witness :
  exists n, 0 < n /\ ((exists shown, shown `sublist_of` field_text n [approved_1; approved_2] /\ spread shown (u "reveal the secret"))
    \/ exists first second, [approved_1; approved_2] = [first; second] /\ field_mark first = n /\ field_mark second = n).
Proof.
  apply (reviewed_window_one_field [approved_1; approved_2] None (window approved_2)); [reflexivity| |vm_compute; reflexivity].
  eapply (yields_here _ _ 0%nat); [reflexivity|]. apply list_elem_of_In. vm_compute. tauto.
Defined.
End Example_provenance.
