(* ===== verification/UnicodeFold.v ===== *)
(** * Unicode folding

    Models [memory_router/unicode_security.py] and [memory_router/confusables_data.py]:
    the ASCII readings of a character, the canonical form of a content with the
    transformations that led to it, and the bounded set of variants in which rules
    are searched. The table of [confusables_ascii.json] is data of the class
    [Confusables]; the Unicode database is [UnicodeDb]. *)

From Stdlib Require Import ZArith Lia Ascii.
From stdpp Require Import base sets strings numbers list.
From S2P Require Import Prelude Errors Text Json Chars ScanModels ScanWindows.

Local Open Scope Z_scope.

Definition MAX_CONFUSABLE_RULE_VARIANTS : nat := 32.

Definition _DEFAULT_IGNORABLE_RANGES : list (Z * Z) :=
  [(847, 847); (4447, 4448); (6068, 6069); (6155, 6159); (8203, 8207); (8234, 8238); (8288, 8303); (12644, 12644);
   (65024, 65039); (65440, 65440); (65520, 65528); (113824, 113827); (119155, 119162); (917504, 921599)].

(** [t.isascii()] *)
Definition all_ascii (t : text) : bool := forallb isascii t.

(** ** The table *)

Definition decimal_number (t : text) : Z := fold_left (fun n c => 10 * n + (c - 48)) t 0.

Section table.
Context `{UnicodeDb}.

(** An entry of the file: a decimal number above ASCII, and a printable ASCII text.
    [None] when the module raises; digits outside ASCII, which the file does not
    have, count as an error too. *)
Definition confusable_entry (key : text) (skeleton : option text) : option (Z * text) :=
  match skeleton with
  | Some s =>
      if bool_decide (key = []) || negb (forallb isdecimal key && all_ascii key) then None
      else
        let parsed := decimal_number key in
        if (parsed <=? 127) || bool_decide (s = []) || negb (all_ascii s) || negb (forallb isprintable s) then None
        else Some (parsed, s)
  | None => None
  end.

(** [ASCII_CONFUSABLES], from the entries of the loaded object. *)
Definition load_confusables (entries : list (text * option text)) : option (list (Z * text)) :=
  mapM (fun e => confusable_entry e.1 e.2) entries.

End table.

Class Confusables := { ASCII_CONFUSABLES : list (Z * text) }.

Section fold.
Context `{Clock} `{UnicodeDb} `{Confusables}.

(** [_check_deadline] *)
Definition _check_deadline (deadline : option Z) (index : nat) : scan unit :=
  is_late ← late_every deadline index; if is_late : bool then raise UnicodeScanDeadlineExceeded else mret ().

(** [for index, char in enumerate(value): _check_deadline(deadline, index)] before a pure body. *)
Fixpoint check_each (deadline : option Z) (index : nat) (value : text) : scan unit :=
  match value with
  | [] => mret ()
  | _ :: rest => _check_deadline deadline index;; check_each deadline (S index) rest
  end.

(** [unicodedata.category(char).startswith("M")] *)
Definition is_mark (c : Z) : bool := starts_with "M" (db_category c).

(** The letter or digit a symbol of some blocks stands for. *)
Definition semantic_option (cp : Z) : option text :=
  if between 117974 117999 cp then Some [65 + cp - 117974]
  else if between 118000 118009 cp then Some [48 + (cp - 118000)]
  else if between 127462 127487 cp then Some [65 + cp - 127462]
  else if between 127312 127337 cp then Some [65 + cp - 127312]
  else if between 127344 127369 cp then Some [65 + cp - 127344]
  else None.

(** [_ascii_confusable_options] *)
Definition _ascii_confusable_options (c : Z) : list text :=
  if isascii c then [[c]]
  else
    let normalized := normalize_nfkc [c] in
    let nfkc_ascii := if bool_decide (normalized <> [c]) && all_ascii normalized then Some normalized else None in
    let skeleton := dict_get c ASCII_CONFUSABLES in
    dict_fromkeys (List.filter (fun o => bool_decide (o <> []))
      (option_list (semantic_option c) ++ option_list nfkc_ascii ++ option_list skeleton)).

(** [_fold_confusable_char] *)
Definition _fold_confusable_char (c : Z) : text :=
  if is_mark c then [c]
  else match _ascii_confusable_options c with [o] => o | _ => [c] end.

(** [name.startswith(("CYRILLIC ", "GREEK "))] *)
Definition cyrillic_or_greek (c : Z) : bool := starts_with "CYRILLIC " (db_name c) || starts_with "GREEK " (db_name c).

(** [_has_mixed_script_word] *)
Fixpoint mixed_script_loop (deadline : option Z) (index : nat) (has_ascii has_script : bool) (value : text) : scan bool :=
  match value with
  | [] => mret false
  | c :: rest =>
      _check_deadline deadline index;;
      if isalpha c then
        let has_ascii := has_ascii || isascii c in
        let has_script := has_script || (cyrillic_or_greek c && bool_decide (_ascii_confusable_options c <> [])) in
        if has_ascii && has_script then mret true else mixed_script_loop deadline (S index) has_ascii has_script rest
      else if negb (isdigit c) && negb (is_mark c) then mixed_script_loop deadline (S index) false false rest
      else mixed_script_loop deadline (S index) has_ascii has_script rest
  end.
Definition _has_mixed_script_word (value : text) (deadline : option Z) : scan bool :=
  mixed_script_loop deadline 0 false false value.

(** [option.isalnum()] *)
Definition text_alnum (t : text) : bool := bool_decide (t <> []) && forallb isalnum t.

(** [_ascii_like_alnum] of a character, or of the empty string at an end. *)
Definition _ascii_like_alnum (oc : option Z) : bool :=
  match oc with
  | None => false
  | Some c =>
      if isascii c then isalnum c
      else if starts_with "LATIN " (db_name c) && isalpha c then true
      else if bool_decide (db_name c <> ""%string) && negb (starts_with "LATIN " (db_name c) || cyrillic_or_greek c) then false
      else existsb text_alnum (_ascii_confusable_options c)
  end.

(** [_has_unmapped_spoof_word] *)
Fixpoint spoof_loop (deadline : option Z) (index : nat) (has_ascii_like has_unmapped : bool) (word_length : Z) (value : text) : scan bool :=
  match value with
  | [] => mret (has_unmapped && (has_ascii_like || (4 <=? word_length)))
  | c :: rest =>
      _check_deadline deadline index;;
      if (isascii c && isalnum c) || existsb text_alnum (_ascii_confusable_options c)
      then spoof_loop deadline (S index) true has_unmapped (word_length + 1) rest
      else if starts_with "CHEROKEE " (db_name c) && isalpha c
      then spoof_loop deadline (S index) has_ascii_like true (word_length + 1) rest
      else if negb (is_mark c)
      then if has_unmapped && (has_ascii_like || (4 <=? word_length)) then mret true
           else spoof_loop deadline (S index) false false 0 rest
      else spoof_loop deadline (S index) has_ascii_like has_unmapped word_length rest
  end.
Definition _has_unmapped_spoof_word (value : text) (deadline : option Z) : scan bool :=
  spoof_loop deadline 0 false false 0 value.

(** ** Rule variants *)

(** The ambiguous positions: where a character outside ASCII has readings. *)
Fixpoint ambiguous_from (index : nat) (value : text) : list (nat * list text) :=
  match value with
  | [] => []
  | c :: rest =>
      let options := _ascii_confusable_options c in
      if negb (isascii c) && bool_decide (options <> []) then (index, options) :: ambiguous_from (S index) rest
      else ambiguous_from (S index) rest
  end.

(** The loop of [render]: [cursor] is where the part not yet copied starts. *)
Fixpoint render_loop (deadline : option Z) (value : text) (cursor : nat) (positions : list nat) (selected : list text) : scan text :=
  match positions, selected with
  | index :: positions', replacement :: selected' =>
      _check_deadline deadline cursor;;
      rest ← render_loop deadline value (S index) positions' selected';
      mret (slice cursor index value ++ replacement ++ rest)
  | _, _ => mret (drop cursor value)
  end.

(** [render]: add a variant that differs from the value and is new. *)
Definition render (deadline : option Z) (value : text) (ambiguous : list (nat * list text)) (selected : list text) (variants : list text)
    : scan (list text) :=
  variant ← render_loop deadline value 0 (map fst ambiguous) selected;
  mret (if bool_decide (variant <> value) && negb (elem variant variants) then variants ++ [variant] else variants).

(** [itertools.product( *alternatives )] *)
Fixpoint product {A} (alternatives : list (list A)) : list (list A) :=
  match alternatives with
  | [] => [[]]
  | options :: rest => concat (map (fun o => map (cons o) (product rest)) options)
  end.

(** The selections in the order they are explored: fewer deviations first. *)
Definition deviations (ambiguous : list (nat * list text)) : list (list nat * list text) :=
  let deviable := List.filter (fun position => match ambiguous !! position with Some (_, options) => (1 <? length options)%nat | None => false end)
                    (seq 0 (length ambiguous)) in
  concat (map (fun count =>
    concat (map (fun positions =>
      map (pair positions) (product (map (fun position => match ambiguous !! position with Some (_, options) => drop 1 options | None => [] end) positions)))
      (combinations count deviable)))
    (seq 1 (length deviable))).

(** [selected = list(preferred)] with the replacements stored. *)
Definition store_all (selected : list text) (positions : list nat) (replacements : list text) : list text :=
  fold_left (fun sel pr => <[pr.1 := pr.2]> sel) (zip positions replacements) selected.

Fixpoint explore (deadline : option Z) (value : text) (ambiguous : list (nat * list text)) (preferred : list text) (explored : nat)
    (todo : list (list nat * list text)) (variants : list text) : scan (list text) :=
  match todo with
  | [] => mret variants
  | (positions, replacements) :: rest =>
      _check_deadline deadline explored;;
      if (MAX_CONFUSABLE_RULE_VARIANTS <=? S explored)%nat then mret variants
      else
        variants ← render deadline value ambiguous (store_all preferred positions replacements) variants;
        if (MAX_CONFUSABLE_RULE_VARIANTS <=? length variants)%nat then mret variants
        else explore deadline value ambiguous preferred (S explored) rest variants
  end.

Record VariantSet := mkVariantSet { vs_variants : list text; vs_exhausted : bool }.

(** [min(MAX + 1, count * len(options))] over the positions. *)
Definition option_count (ambiguous : list (nat * list text)) : nat :=
  fold_left (fun count e => Nat.min (S MAX_CONFUSABLE_RULE_VARIANTS) (count * length e.2)) ambiguous 1%nat.

(** [_build_confusable_rule_variants], [confusable_rule_variant_set] *)
Definition confusable_rule_variant_set (value : text) (deadline : option Z) : scan VariantSet :=
  if all_ascii value then mret (mkVariantSet [] false)
  else
    check_each deadline 0 value;;
    let ambiguous := ambiguous_from 0 value in
    match ambiguous with
    | [] => mret (mkVariantSet [] false)
    | _ =>
        let preferred := map (fun e : nat * list text => hd [] e.2) ambiguous in
        first ← render deadline value ambiguous preferred [];
        variants ← explore deadline value ambiguous preferred 0 (deviations ambiguous) first;
        mret (mkVariantSet variants (length variants <? option_count ambiguous)%nat)
    end.

(** [preferred_confusable_variant] *)
Definition preferred_char (c : Z) : text :=
  if isascii c then [c] else match _ascii_confusable_options c with o :: _ => o | [] => [c] end.
Definition preferred_confusable_variant (value : text) (deadline : option Z) : scan text :=
  if all_ascii value then mret value
  else check_each deadline 0 value;; mret (concat (map preferred_char value)).

(** [official_confusable_variant] *)
Definition official_char (c : Z) : text := default [c] (dict_get c ASCII_CONFUSABLES).
Definition official_confusable_variant (value : text) (deadline : option Z) : scan text :=
  if all_ascii value then mret value
  else check_each deadline 0 value;; mret (concat (map official_char value)).

(** ** The canonical form *)

(** [value[i]] for an index that may be out of range on either side. *)
Definition char_at (value : text) (i : Z) : option Z := if i <? 0 then None else value !! Z.to_nat i.

(** [_pre_nfkc_ascii_fold] *)
Definition _pre_nfkc_ascii_fold (c : Z) : text :=
  if is_mark c then [c]
  else match _ascii_confusable_options c with
  | [o] => o
  | _ :: _ => [c]
  | [] =>
      let normalized := normalize_nfkc [c] in
      if bool_decide (normalized <> [c]) && all_ascii normalized then normalized else [c]
  end.

(** [_nfkc_preserving_ambiguous]: characters with several readings stay, the
    stretches between them are normalized. *)
Fixpoint nfkc_stretches (stretch : text) (value : text) : text :=
  match value with
  | [] => normalize_nfkc stretch
  | c :: rest =>
      if (length (_ascii_confusable_options c) <=? 1)%nat then nfkc_stretches (stretch ++ [c]) rest
      else normalize_nfkc stretch ++ c :: nfkc_stretches [] rest
  end.
Definition _nfkc_preserving_ambiguous (value : text) (deadline : option Z) : scan text :=
  check_each deadline 0 value;; mret (nfkc_stretches [] value).

(** [_strip_latin_diacritics] *)
Definition strip_diacritic (c : Z) : text :=
  if negb (starts_with "LATIN " (db_name c)) then [c]
  else
    let base := List.filter (fun p => negb (is_mark p)) (normalize_nfd [c]) in
    if all_ascii base && bool_decide (base <> []) then base else [c].
Definition _strip_latin_diacritics (value : text) (deadline : option Z) : scan text :=
  check_each deadline 0 value;; mret (concat (map strip_diacritic value)).

(** [char in "#*0123456789"] *)
Definition keycap_char (c : Z) : bool := (c =? 35) || (c =? 42) || ascii_digit c.

(** [_keycap_sequence_length] at the head of a text. *)
Definition keycap_length (value : text) : nat :=
  match value with
  | c :: d :: rest =>
      if negb (keycap_char c) then 0%nat
      else if d =? 8419 then 2%nat
      else match rest with e :: _ => if (d =? 65039) && (e =? 8419) then 3%nat else 0%nat | [] => 0%nat end
  | _ => 0%nat
  end.

(** A joiner or a variation selector. *)
Definition display_modifier (c : Z) : bool := (c =? 8204) || (c =? 8205) || between 65024 65039 c.

(** [_is_default_ignorable] *)
Definition _is_default_ignorable (c : Z) : bool :=
  bool_decide (db_category c = "Cf"%string) || existsb (fun r : Z * Z => between r.1 r.2 c) _DEFAULT_IGNORABLE_RANGES.

(** What [_strip_ignorables] collects: the characters kept, last first, and
    whether something invisible or a modifier was removed, a modifier inside a
    word, a keycap folded. *)
Record stripped := mkStripped { st_chars : text; st_invisible : bool; st_modifier : bool; st_evasion : bool; st_keycap : bool }.

Fixpoint strip_loop (deadline : option Z) (fuel index : nat) (value : text) (st : stripped) : scan stripped :=
  match value, fuel with
  | [], _ | _, O => mret st
  | c :: rest, S f =>
      _check_deadline deadline index;;
      let keep := mkStripped (c :: st_chars st) (st_invisible st) (st_modifier st) (st_evasion st) (st_keycap st) in
      let drop_it := mkStripped (st_chars st) true (st_modifier st) (st_evasion st) (st_keycap st) in
      let left := head (st_chars st) in
      match keycap_length value with
      | O =>
          if bool_decide (db_category c = "Cc"%string)
          then strip_loop deadline f (S index) rest (if tab_or_newline c then keep else drop_it)
          else if c =? 10240 then strip_loop deadline f (S index) rest drop_it
          else if (c =? 1600) && (_ascii_like_alnum left || _ascii_like_alnum (head rest))
          then strip_loop deadline f (S index) rest drop_it
          else if display_modifier c then
            let after := lstrip_by display_modifier rest in
            let consumed := (length value - length after)%nat in
            strip_loop deadline f (index + consumed) after
              (mkStripped (st_chars st) (st_invisible st) true
                 (st_evasion st || (_ascii_like_alnum left && _ascii_like_alnum (head after))) (st_keycap st))
          else if _is_default_ignorable c then strip_loop deadline f (S index) rest drop_it
          else strip_loop deadline f (S index) rest keep
      | n =>
          strip_loop deadline f (index + n) (drop n value)
            (mkStripped (c :: st_chars st) (st_invisible st) (st_modifier st) (st_evasion st) true)
      end
  end.

(** [_strip_ignorables] *)
Definition _strip_ignorables (value : text) (deadline : option Z) : scan stripped :=
  st ← strip_loop deadline (length value) 0 value (mkStripped [] false false false false);
  mret (mkStripped (rev (st_chars st)) (st_invisible st) (st_modifier st) (st_evasion st) (st_keycap st)).

(** [_keycap_base_index], [_keycap_base], [_is_keycap_mark_run] *)
Definition _keycap_base_index (value : text) (mark_index : Z) : Z :=
  let base_index := mark_index - 1 in
  if bool_decide (char_at value base_index = Some 65039) then base_index - 1 else base_index.
Definition _keycap_base (value : text) (mark_index : Z) : bool :=
  match char_at value (_keycap_base_index value mark_index) with Some c => keycap_char c | None => false end.
Definition _is_keycap_mark_run (value : text) (start end_ : nat) : bool :=
  has 8419 (slice start end_ value) && _keycap_base value (Z.of_nat end_ - 1).

(** The end of the run of marks that goes on at [end_]. *)
Fixpoint mark_run_end (deadline : option Z) (end_ : nat) (rest : text) : scan nat :=
  match rest with
  | c :: rest' => if is_mark c then _check_deadline deadline end_;; mark_run_end deadline (S end_) rest' else mret end_
  | [] => mret end_
  end.

(** [not char or (char.isascii() and not char.isalnum())] *)
Definition separator_side (oc : option Z) : bool := match oc with None => true | Some c => isascii c && negb (isalnum c) end.

(** [_mark_run_evasion] *)
Definition _mark_run_evasion (value : text) (start : nat) (deadline : option Z) : scan (nat * bool) :=
  end_ ← mark_run_end deadline (S start) (drop (S start) value);
  let left := char_at value (Z.of_nat start - 1) in
  let right := value !! end_ in
  mret (end_,
    if _is_keycap_mark_run value start end_ then
      let base_index := _keycap_base_index value (Z.of_nat end_ - 1) in
      _ascii_like_alnum (char_at value (base_index - 1)) && _ascii_like_alnum right
    else
      (_ascii_like_alnum left && _ascii_like_alnum right)
      || (_ascii_like_alnum left && separator_side right)
      || (_ascii_like_alnum right && separator_side left)
      || (separator_side left && separator_side right)).

(** [_strip_evasive_marks]: [kept] is what is kept so far, last first. *)
Fixpoint marks_loop (deadline : option Z) (value : text) (fuel index : nat) (kept : text) (removed : bool) : scan (text * bool) :=
  match value !! index, fuel with
  | None, _ | _, O => mret (rev kept, removed)
  | Some c, S f =>
      _check_deadline deadline index;;
      if is_mark c && negb (between 65024 65039 c) then
        run ← _mark_run_evasion value index deadline;
        let '(end_, evasion) := run : nat * bool in
        marks_loop deadline value f end_ (if evasion then kept else rev (slice index end_ value) ++ kept) (removed || evasion)
      else marks_loop deadline value f (S index) (c :: kept) removed
  end.
Definition _strip_evasive_marks (value : text) (deadline : option Z) : scan (text * bool) :=
  marks_loop deadline value (length value) 0 [] false.

(** [if condition: transformations.add(name)] *)
Definition mark_if (condition : bool) (name : string) : list string := if condition then [name] else [].

(** [canonicalize_content] *)
Definition canonicalize_content (content : text) (deadline : option Z) : scan (text * list string) :=
  if all_ascii content && forallb (fun c => isprintable c || tab_or_newline c) content then mret (content, [])
  else
    mixed ← _has_mixed_script_word content deadline;
    spoof ← _has_unmapped_spoof_word content deadline;
    check_each deadline 0 content;;
    let pre_nfkc := concat (map _pre_nfkc_ascii_fold content) in
    original_nfkc ← _nfkc_preserving_ambiguous pre_nfkc deadline;
    st ← _strip_ignorables original_nfkc deadline;
    cleaned ← _strip_evasive_marks (st_chars st) deadline;
    let '(mark_cleaned, mark_removed) := cleaned : text * bool in
    diacritic_cleaned ← _strip_latin_diacritics mark_cleaned deadline;
    check_each deadline 0 diacritic_cleaned;;
    let pre_folded := concat (map _fold_confusable_char diacritic_cleaned) in
    normalized ← _nfkc_preserving_ambiguous pre_folded deadline;
    mret (normalized,
      dict_fromkeys (mark_if mixed "mixed_script" ++ mark_if spoof "unmapped_confusable"
        ++ mark_if (bool_decide (pre_nfkc <> content)) "confusable"
        ++ mark_if (bool_decide (diacritic_cleaned <> mark_cleaned)) "diacritic"
        ++ mark_if (bool_decide (pre_folded <> diacritic_cleaned)) "confusable"
        ++ mark_if (bool_decide (original_nfkc <> content)) "nfkc"
        ++ mark_if (mark_removed || st_invisible st) "invisible"
        ++ mark_if (st_modifier st) "display_modifier"
        ++ mark_if (st_evasion st) "display_modifier_evasion"
        ++ mark_if (st_keycap st) "keycap")).

End fold.
