(* ===== verification/UnicodeFoldProps.v ===== *)
(** * Unicode folding: what is shown

    Folding does not change a text silently: without a reported transformation
    the canonical form is the text itself. The set of rule variants is bounded,
    and complete unless it is reported as exhausted. *)

From Stdlib Require Import ZArith Lia Ascii.
From stdpp Require Import base sets strings numbers list.
From S2P Require Import Prelude Errors Text Chars ScanModels ScanWindows UnicodeFold.

Local Open Scope Z_scope.

Section canonical.
Context `{Clock} `{UnicodeDb} `{Confusables}.

(** One step of a bind whose first part returns nothing of interest. *)
Lemma checked_inv deadline i {A} (k : scan A) n a n' :
  (_check_deadline deadline i;; k) n = (Ok a, n') -> exists n1, k n1 = (Ok a, n').
Proof. intros (? & n1 & _ & Hk)%bind_ok_inv. by exists n1. Qed.

Lemma check_each_inv deadline i value {A} (k : scan A) n a n' :
  (check_each deadline i value;; k) n = (Ok a, n') -> exists n1, k n1 = (Ok a, n').
Proof. intros (? & n1 & _ & Hk)%bind_ok_inv. by exists n1. Qed.

(** Flags of [strip_loop] are only ever set. *)
Definition unflagged (st : stripped) : bool := negb (st_invisible st || st_modifier st || st_keycap st).

Lemma strip_loop_reports deadline fuel : forall index value st n st' n',
  (length value <= fuel)%nat -> strip_loop deadline fuel index value st n = (Ok st', n') -> unflagged st' = true ->
  unflagged st = true /\ st_chars st' = rev value ++ st_chars st.
Proof.
  induction fuel as [|fuel IH]; intros index value st n st' n' Hf Hrun Hflag.
  { destruct value; [|simpl in Hf; lia]. injection Hrun as -> _. done. }
  destruct value as [|c rest]; [by injection Hrun as -> _|].
  cbn [strip_loop] in Hrun. apply checked_inv in Hrun as [n1 Hrun]. simpl in Hf.
  assert (Hl0 : (length rest <= fuel)%nat) by lia. destruct (keycap_length (c :: rest)) as [|k] eqn:Ek.
  - assert (Hkeep : forall i m, strip_loop deadline fuel i rest (mkStripped (c :: st_chars st) (st_invisible st) (st_modifier st) (st_evasion st) (st_keycap st)) m
        = (Ok st', n') -> unflagged st = true /\ st_chars st' = rev (c :: rest) ++ st_chars st).
    { intros i m Hr. destruct (IH _ _ _ _ _ _ Hl0 Hr Hflag) as [Hu ->]. split; [done|]. simpl. by rewrite <- app_assoc. }
    assert (Hdrop : forall i m, strip_loop deadline fuel i rest (mkStripped (st_chars st) true (st_modifier st) (st_evasion st) (st_keycap st)) m
        = (Ok st', n') -> unflagged st = true /\ st_chars st' = rev (c :: rest) ++ st_chars st).
    { intros i m Hr. by destruct (IH _ _ _ _ _ _ Hl0 Hr Hflag) as [Hu _]. }
    destruct (bool_decide _); [destruct (tab_or_newline c); eauto|]. destruct (c =? 10240); [eauto|]. destruct (_ && _); [eauto|].
    destruct (display_modifier c); [|destruct (_is_default_ignorable c); eauto].
    assert (Hl : (length (lstrip_by display_modifier rest) <= fuel)%nat).
    { etrans; [|exact (le_S_n _ _ Hf)]. clear. induction rest as [|d rest IH]; simpl; [done|]. destruct (display_modifier d); simpl; lia. }
    destruct (IH _ _ _ _ _ _ Hl Hrun Hflag) as [Hu _]. unfold unflagged in Hu. simpl in Hu. by rewrite orb_true_r in Hu.
  - assert (Hl : (length (drop (S k) (c :: rest)) <= fuel)%nat) by (rewrite length_drop; simpl; lia).
    destruct (IH _ _ _ _ _ _ Hl Hrun Hflag) as [Hu _]. unfold unflagged in Hu. simpl in Hu. by rewrite orb_true_r in Hu.
Qed.

(** Without a report nothing is stripped. *)
Lemma strip_ignorables_reports value deadline n st n' :
  _strip_ignorables value deadline n = (Ok st, n') -> unflagged st = true -> st_chars st = value.
Proof.
  unfold _strip_ignorables. intros (st1 & n1 & Hloop & Hret)%bind_ok_inv Hflag. unfold mret, eff_ret in Hret. simplify_eq.
  destruct (strip_loop_reports _ _ _ _ _ _ _ _ (le_n _) Hloop Hflag) as [_ Hc]. simpl. rewrite Hc. simpl. rewrite app_nil_r. apply rev_involutive.
Qed.

Lemma mark_run_end_ge deadline rest : forall e n e' n', mark_run_end deadline e rest n = (Ok e', n') -> (e <= e' <= e + length rest)%nat.
Proof.
  induction rest as [|c rest IH]; intros e n e' n'; simpl; [unfold mret, eff_ret; intros; simplify_eq; lia|].
  destruct (is_mark c); [|unfold mret, eff_ret; intros; simplify_eq; lia]. intros [n1 Hr]%checked_inv. apply IH in Hr. lia.
Qed.

Lemma slice_next {A} (l : list A) i j : (i <= j)%nat -> take i l ++ take (j - i) (drop i l) = take j l.
Proof. intros Hij. rewrite <- (take_drop i (take j l)), take_take, skipn_firstn_comm. by rewrite Nat.min_l. Qed.

Lemma marks_loop_reports deadline value : forall fuel index kept removed n out r n',
  (length value <= index + fuel)%nat -> marks_loop deadline value fuel index kept removed n = (Ok (out, r), n') -> r = false ->
  rev kept = take index value -> out = value.
Proof.
  induction fuel as [|fuel IH]; intros index kept removed n out r n' Hf Hrun Hr Hk.
  - simpl in Hrun. assert (value !! index = None) as Hn by (apply lookup_ge_None; lia). rewrite Hn in Hrun. unfold mret, eff_ret in Hrun. simplify_eq.
    rewrite Hk. apply take_ge. lia.
  - simpl in Hrun. destruct (value !! index) as [c|] eqn:Ec; [|unfold mret, eff_ret in Hrun; simplify_eq; rewrite Hk; apply take_ge; by apply lookup_ge_None].
    apply checked_inv in Hrun as [n1 Hrun]. pose proof (lookup_lt_Some _ _ _ Ec). destruct (is_mark c && _).
    + apply bind_ok_inv in Hrun as ([end_ evasion] & n2 & Hrunend & Hrun). unfold _mark_run_evasion in Hrunend.
      apply bind_ok_inv in Hrunend as (e & n3 & He & Hret). unfold mret, eff_ret in Hret. injection Hret as <- Hev _. apply mark_run_end_ge in He.
      destruct evasion.
      * exfalso. rewrite orb_true_r in Hrun. clear -Hrun Hr. revert Hrun. generalize e, kept, n2. subst r.
        induction fuel as [|fuel IH]; intros i k m; simpl; [destruct (value !! i); done|]. destruct (value !! i); [|done].
        intros [n1 Hrun]%checked_inv. destruct (is_mark z && _); [|by eapply IH].
        apply bind_ok_inv in Hrun as ([? ?] & ? & _ & Hrun). by eapply IH.
      * rewrite orb_false_r in Hrun. eapply (IH e); [lia|done|done|]. rewrite rev_app_distr, rev_involutive, Hk. unfold slice. by apply slice_next; lia.
    + eapply (IH (S index)); [lia|done|done|]. simpl. rewrite Hk. by rewrite <- (take_S_r _ _ _ Ec).
Qed.

Lemma strip_marks_reports value deadline n out n' :
  _strip_evasive_marks value deadline n = (Ok (out, false), n') -> out = value.
Proof. intros Hrun. by eapply marks_loop_reports; [|exact Hrun|..]. Qed.

Lemma mark_if_none b name rest : dict_fromkeys (mark_if b name ++ rest) = [] -> b = false /\ dict_fromkeys rest = [].
Proof.
  intros Hd. assert (Hnil : mark_if b name ++ rest = []).
  { destruct (mark_if b name ++ rest) as [|x l] eqn:E; [done|]. assert (Hx : x ∈ dict_fromkeys (x :: l)) by (apply dict_fromkeys_spec; by left).
    rewrite Hd in Hx. by apply elem_of_nil in Hx. }
  apply app_eq_nil in Hnil as [Hb ->]. by destruct b.
Qed.

(** No silent change. Whatever the Unicode database says, when
    [canonicalize_content] reports no transformation the canonical form is the
    content itself: characters are stripped, folded or normalized only together
    with a transformation that names it. *)
Lemma canonical_unreported content deadline n canonical n' :
  canonicalize_content content deadline n = (Ok (canonical, []), n') -> canonical = content.
Proof.
  unfold canonicalize_content. destruct (_ && _); [unfold mret, eff_ret; intros; by simplify_eq|].
  intros (mixed & n1 & _ & Hrun)%bind_ok_inv. apply bind_ok_inv in Hrun as (spoof & n2 & _ & Hrun). apply check_each_inv in Hrun as [n3 Hrun].
  apply bind_ok_inv in Hrun as (original & n4 & Horig & Hrun). unfold _nfkc_preserving_ambiguous in Horig. apply check_each_inv in Horig as [n5 Horig].
  apply bind_ok_inv in Hrun as (st & n6 & Hst & Hrun). apply bind_ok_inv in Hrun as ([cleaned removed] & n7 & Hmarks & Hrun).
  apply bind_ok_inv in Hrun as (diacritic & n8 & _ & Hrun). apply check_each_inv in Hrun as [n9 Hrun].
  apply bind_ok_inv in Hrun as (normalized & n10 & Hnorm & Hrun). unfold _nfkc_preserving_ambiguous in Hnorm. apply check_each_inv in Hnorm as [n11 Hnorm].
  unfold mret, eff_ret in *. injection Horig as Ho _. injection Hnorm as Hn _. injection Hrun as -> Hts _.
  apply mark_if_none in Hts as [_ Hts]. apply mark_if_none in Hts as [_ Hts]. apply mark_if_none in Hts as [E1 Hts].
  apply mark_if_none in Hts as [E2 Hts]. apply mark_if_none in Hts as [E3 Hts]. apply mark_if_none in Hts as [E4 Hts].
  apply mark_if_none in Hts as [E5 Hts]. apply mark_if_none in Hts as [E6 Hts]. apply mark_if_none in Hts as [_ Hts].
  rewrite <- (app_nil_r (mark_if (st_keycap st) _)) in Hts. apply mark_if_none in Hts as [E7 _].
  apply bool_decide_eq_false, dec_stable in E1, E2, E3, E4. apply orb_false_iff in E5 as [-> E5].
  assert (Hc : st_chars st = original) by (eapply strip_ignorables_reports; [exact Hst|]; unfold unflagged; by rewrite E5, E6, E7).
  apply strip_marks_reports in Hmarks. congruence.
Qed.

End canonical.

(** ** Counting the selections *)

Definition prod_nat (l : list nat) : nat := foldr Nat.mul 1%nat l.

Lemma list_sum_mul a l : list_sum (map (Nat.mul a) l) = (a * list_sum l)%nat.
Proof. induction l as [|x l IH]; simpl; lia. Qed.

Lemma list_sum_concat_length {A B} (f : A -> list B) l : length (concat (map f l)) = list_sum (map (fun x => length (f x)) l).
Proof. induction l as [|x l IH]; [done|]. simpl. by rewrite length_app, IH. Qed.

Lemma product_length {A} (alts : list (list A)) : length (product alts) = prod_nat (map length alts).
Proof.
  induction alts as [|options rest IH]; [done|]. cbn [product map prod_nat foldr]. rewrite list_sum_concat_length.
  rewrite (map_ext _ (fun _ => prod_nat (map length rest))) by (intros o; by rewrite length_map, IH).
  induction options as [|o options IHo]; [done|]. simpl. rewrite IHo. done.
Qed.

Lemma combinations_too_many {A} k (l : list A) : (length l < k)%nat -> combinations k l = [].
Proof. revert k. induction l as [|x l IH]; intros [|k] Hk; simpl in *; [lia|done|lia|]. by rewrite !IH by lia. Qed.

Lemma combinations_0 {A} (l : list A) : combinations 0 l = [[]].
Proof. by destruct l. Qed.

(** The weight of the subsets of a list: the sum over all sizes of the products. *)
Definition subset_weight (w : nat -> nat) (n : nat) (l : list nat) : nat :=
  list_sum (map (fun k => list_sum (map (fun s => prod_nat (map w s)) (combinations k l))) (seq 0 n)).

Lemma subset_weight_cons w n x l : subset_weight w (S n) (x :: l) = (w x * subset_weight w n l + subset_weight w (S n) l)%nat.
Proof.
  unfold subset_weight. cbn [seq map list_sum combinations foldr]. rewrite <- !seq_shift, !map_map.
  rewrite (map_ext (fun k => list_sum (map (fun s => prod_nat (map w s)) (combinations (S k) (x :: l))))
    (fun k => (w x * list_sum (map (fun s => prod_nat (map w s)) (combinations k l)) + list_sum (map (fun s => prod_nat (map w s)) (combinations (S k) l)))%nat)).
  - assert (Hsum : forall f g (ks : list nat), list_sum (map (fun k => (w x * f k + g k)%nat) ks) = (w x * list_sum (map f ks) + list_sum (map g ks))%nat).
    { intros f g ks. induction ks as [|k ks IHk]; simpl; [lia|]. rewrite IHk. lia. }
    rewrite Hsum, combinations_0. unfold list_sum. simpl. lia.
  - intros k. cbn [combinations]. rewrite map_app, list_sum_app, map_map. cbn [map prod_nat foldr]. fold prod_nat.
    change (fun s => (w x * foldr Nat.mul 1%nat (map w s))%nat) with (fun s => Nat.mul (w x) (prod_nat (map w s))).
    by rewrite <- (map_map (fun s => prod_nat (map w s)) (Nat.mul (w x))), list_sum_mul.
Qed.

Lemma subset_weight_total w l : forall n, (length l < n)%nat -> subset_weight w n l = prod_nat (map (fun x => S (w x)) l).
Proof.
  induction l as [|x l IH]; intros [|n] Hn; simpl in Hn; try lia.
  - unfold subset_weight. cbn [seq map list_sum combinations foldr]. rewrite <- seq_shift, map_map. cbn [combinations map].
    assert (Hz : forall ks : list nat, list_sum (map (fun _ => list_sum (@nil nat)) ks) = 0%nat) by (induction ks; [done|simpl; done]). rewrite Hz. done.
  - rewrite subset_weight_cons, !IH by lia. cbn [map prod_nat foldr]. fold prod_nat. unfold prod_nat. lia.
Qed.

Abbreviation positions_t := (list (nat * list text)).

Definition options_at (amb : positions_t) (i : nat) : list text := match amb !! i with Some (_, options) => options | None => [] end.

Definition deviable (amb : positions_t) : list nat :=
  List.filter (fun i => match amb !! i with Some (_, options) => (1 <? length options)%nat | None => false end) (seq 0 (length amb)).

Lemma map_lookups {B} (f : option (nat * list text) -> B) (amb : positions_t) : forall pre,
  map (fun i => f ((pre ++ amb) !! i)) (seq (length pre) (length amb)) = map (fun e => f (Some e)) amb.
Proof.
  induction amb as [|e amb IH]; intros pre; [done|]. simpl. rewrite list_lookup_middle by done. f_equal.
  specialize (IH (pre ++ [e])). rewrite <- app_assoc, length_app in IH. simpl in IH. by rewrite Nat.add_1_r in IH.
Qed.

Lemma prod_filter (f : nat -> nat) p l : (forall x, x ∈ l -> p x = false -> f x = 1%nat) -> prod_nat (map f (List.filter p l)) = prod_nat (map f l).
Proof.
  induction l as [|x l IH]; intros Hf; [done|]. simpl. specialize (IH (fun y Hy => Hf y (list_elem_of_further _ _ _ Hy))).
  destruct (p x) eqn:E; simpl; [by rewrite IH|]. rewrite IH, (Hf x (list_elem_of_here _ _) E). lia.
Qed.

Definition nonempty_options (amb : positions_t) : Prop := Forall (fun e : nat * list text => e.2 <> []) amb.

(** Besides the preferred selection there is one deviation for every other choice. *)
Lemma deviations_count amb : nonempty_options amb -> S (length (deviations amb)) = prod_nat (map (fun e => length e.2) amb).
Proof.
  intros Hne. unfold deviations. fold (deviable amb). set (w := fun i => length (drop 1 (options_at amb i))).
  assert (Hlen : length (concat (map (fun count => concat (map (fun positions => map (pair positions)
      (product (map (fun position => match amb !! position with Some (_, options) => drop 1 options | None => [] end) positions)))
      (combinations count (deviable amb)))) (seq 1 (length (deviable amb)))))
    = list_sum (map (fun k => list_sum (map (fun s => prod_nat (map w s)) (combinations k (deviable amb)))) (seq 1 (length (deviable amb))))).
  { rewrite list_sum_concat_length. f_equal. apply map_ext. intros k. rewrite list_sum_concat_length. f_equal. apply map_ext. intros s.
    rewrite length_map, product_length, map_map. f_equal. apply map_ext. intros i. unfold w, options_at. by destruct (amb !! i) as [[]|]. }
  rewrite Hlen. clear Hlen. pose proof (subset_weight_total w (deviable amb) (S (length (deviable amb))) (Nat.lt_succ_diag_r _)) as Ht.
  unfold subset_weight in Ht. cbn [seq map] in Ht. rewrite combinations_0 in Ht. unfold list_sum in *. simpl in Ht.
  rewrite Ht. unfold deviable. rewrite prod_filter.
  - rewrite <- (map_lookups (fun o => match o with Some e => length e.2 | None => 1%nat end) amb []). simpl. f_equal.
    apply map_ext_in. intros i Hi%List.in_seq. unfold w, options_at. destruct (amb !! i) as [[j options]|] eqn:E; [|done]. simpl.
    rewrite length_drop. apply Forall_lookup_1 with (1 := Hne) in E. simpl in E. destruct options; [done|]. simpl. lia.
  - intros i Hi Hp. unfold w, options_at. destruct (amb !! i) as [[j options]|]; [|done]. apply Nat.ltb_ge in Hp. rewrite length_drop. lia.
Qed.

Lemma option_count_min amb : nonempty_options amb ->
  option_count amb = Nat.min (S MAX_CONFUSABLE_RULE_VARIANTS) (prod_nat (map (fun e => length e.2) amb)).
Proof.
  intros Hne. unfold option_count. assert (HM : (1 <= S MAX_CONFUSABLE_RULE_VARIANTS)%nat) by lia. revert HM. generalize (S MAX_CONFUSABLE_RULE_VARIANTS). intros M HM.
  assert (Hgen : forall a, fold_left (fun count e => Nat.min M (count * length (A:=text) e.2)) amb (Nat.min M a)
    = Nat.min M (a * prod_nat (map (fun e => length e.2) amb))).
  { induction Hne as [|[j options] amb Ho Hne IH]; intros a; [simpl; by rewrite Nat.mul_1_r|]. cbn [fold_left map prod_nat foldr snd]. simpl in Ho.
    fold prod_nat. assert (Hl : (1 <= length options)%nat) by (destruct options; [done|simpl; lia]).
    replace (Nat.min M (Nat.min M a * length options)) with (Nat.min M (a * length options)) by nia. rewrite IH. f_equal. unfold prod_nat. lia. }
  specialize (Hgen 1%nat). rewrite Nat.mul_1_l, Nat.min_r in Hgen by done. exact Hgen.
Qed.

(** ** Every choice is a selection *)

Lemma combinations_sublist {A} (l : list A) : forall x, x `sublist_of` l -> x ∈ combinations (length x) l.
Proof.
  induction 1 as [|a x l _ IH|a x l _ IH]; [by left|..]; simpl.
  - apply elem_of_app. left. apply list_elem_of_In, List.in_map, list_elem_of_In, IH.
  - destruct x as [|b x]; [by rewrite combinations_0 in *|]. simpl in *. apply elem_of_app. by right.
Qed.

Lemma product_elem {A} (alts : list (list A)) sel : Forall2 (fun options o => o ∈ options) alts sel -> sel ∈ product alts.
Proof.
  induction 1 as [|options o alts sel Ho _ IH]; [by left|]. simpl. apply list_elem_of_In, List.in_concat. exists (map (cons o) (product alts)).
  split; [apply List.in_map_iff; exists o; split; [done|by apply list_elem_of_In]|]. apply List.in_map, list_elem_of_In, IH.
Qed.

(** A choice: one reading for each ambiguous position. *)
Definition choice (amb : positions_t) (sel : list text) : Prop := Forall2 (fun (e : nat * list text) s => s ∈ e.2) amb sel.

Definition preferred_of (amb : positions_t) : list text := map (fun e : nat * list text => hd [] e.2) amb.

(** The positions at which a choice deviates from the preferred one. *)
Definition deviates (amb : positions_t) (sel : list text) (i : nat) : bool := bool_decide (sel !! i <> preferred_of amb !! i).

Lemma store_all_lookup sel' (f : nat -> text) ps : forall sel i, (forall p, p ∈ ps -> sel' !! p = Some (f p)) -> length sel = length sel' ->
  (i ∉ ps -> sel !! i = sel' !! i) -> store_all sel ps (map f ps) !! i = sel' !! i.
Proof.
  unfold store_all. induction ps as [|p ps IH]; intros sel i Hps Hlen Hi; simpl; [apply Hi; by apply not_elem_of_nil|].
  pose proof (Hps p (list_elem_of_here _ _)) as Hp. pose proof (lookup_lt_Some _ _ _ Hp).
  apply IH; [intros q Hq; apply Hps; by right|by rewrite length_insert|]. intros Hnot. destruct (decide (i = p)) as [->|Hne].
  - rewrite list_lookup_insert_eq by lia. done.
  - rewrite list_lookup_insert_ne by done. apply Hi. by rewrite not_elem_of_cons.
Qed.

Lemma filter_sublist_filter {A} (p q : A -> bool) l : (forall x, x ∈ l -> p x = true -> q x = true) -> List.filter p l `sublist_of` List.filter q l.
Proof.
  induction l as [|x l IH]; intros Hpq; [done|]. simpl. specialize (IH (fun y Hy => Hpq y (list_elem_of_further _ _ _ Hy))).
  destruct (p x) eqn:E; [rewrite (Hpq x (list_elem_of_here _ _) E); by apply sublist_skip|]. destruct (q x); [by apply sublist_cons|done].
Qed.

Lemma choice_deviation amb sel i : choice amb sel -> (i < length amb)%nat -> deviates amb sel i = true ->
  exists j options, amb !! i = Some (j, options) /\ (1 < length options)%nat /\ sel !!! i ∈ drop 1 options.
Proof.
  intros Hc Hi Hd. apply bool_decide_eq_true in Hd. destruct (lookup_lt_is_Some_2 amb i Hi) as [[j options] He].
  destruct (Forall2_lookup_l _ _ _ _ _ Hc He) as (s & Hs & Hin). simpl in Hin. exists j, options. split; [done|].
  unfold preferred_of in Hd. change (map (fun e : nat * list text => hd [] e.2) amb) with ((fun e : nat * list text => hd [] e.2) <$> amb) in Hd.
  rewrite list_lookup_fmap, He, Hs in Hd. simpl in Hd. rewrite (list_lookup_total_correct _ _ _ Hs).
  destruct options as [|o options]; [by apply elem_of_nil in Hin|]. apply elem_of_cons in Hin as [->|Hin]; [done|]. split; [|done].
  destruct options; [by apply elem_of_nil in Hin|simpl; lia].
Qed.

Lemma choice_selected amb sel : choice amb sel ->
  sel = preferred_of amb \/ exists ps rs, (ps, rs) ∈ deviations amb /\ sel = store_all (preferred_of amb) ps rs.
Proof.
  intros Hc. set (ps := List.filter (deviates amb sel) (seq 0 (length amb))). pose proof (Forall2_length _ _ _ Hc) as Hlen.
  assert (Hps : forall p, p ∈ ps <-> (p < length amb)%nat /\ deviates amb sel p = true).
  { intros p. unfold ps. rewrite list_elem_of_In, List.filter_In, List.in_seq. split; intros [? ?]; split; (lia || done). }
  assert (Hpl : length (preferred_of amb) = length sel) by (unfold preferred_of; rewrite length_map; lia).
  assert (Hstore : sel = store_all (preferred_of amb) ps (map (fun p => sel !!! p) ps)).
  { symmetry. apply list_eq. intros i. apply store_all_lookup; [|done|].
    - intros p [Hp _]%Hps. apply list_lookup_lookup_total_lt. lia.
    - intros Hn. destruct (decide (i < length amb)%nat) as [Hi|Hi]; [|rewrite !lookup_ge_None_2 by lia; done].
      destruct (deviates amb sel i) eqn:Ed; [by destruct Hn; apply Hps|]. by apply bool_decide_eq_false, dec_stable in Ed. }
  destruct (decide (ps = [])) as [Hnil|Hne]; [left; rewrite Hstore, Hnil; done|]. right. exists ps, (map (fun p => sel !!! p) ps). split; [|done].
  unfold deviations. fold (deviable amb). apply list_elem_of_In, List.in_concat. eexists. split; [apply List.in_map_iff; exists (length ps); split; [reflexivity|]|].
  { assert (Hsub : ps `sublist_of` deviable amb).
    { apply filter_sublist_filter. intros i Hi%elem_of_seq Hd. destruct (choice_deviation amb sel i Hc ltac:(lia) Hd) as (j & o & -> & Hl & _).
      by apply Nat.ltb_lt. }
    apply sublist_length in Hsub. apply List.in_seq. destruct ps; [done|]. simpl in *. lia. }
  apply List.in_concat. eexists. split; [apply List.in_map_iff; exists ps; split; [reflexivity|]|].
  { apply list_elem_of_In, combinations_sublist. apply filter_sublist_filter. intros i Hi%elem_of_seq Hd.
    destruct (choice_deviation amb sel i Hc ltac:(lia) Hd) as (j & o & -> & Hl & _). by apply Nat.ltb_lt. }
  apply List.in_map, list_elem_of_In, product_elem. apply Forall2_fmap, Forall_Forall2_diag, Forall_forall. intros p [Hp Hd]%Hps.
  destruct (choice_deviation amb sel p Hc Hp Hd) as (j & o & -> & _ & Hin). done.
Qed.

Lemma product_inv {A} (alts : list (list A)) sel : sel ∈ product alts -> Forall2 (fun options o => o ∈ options) alts sel.
Proof.
  revert sel. induction alts as [|options alts IH]; intros sel; simpl; [rewrite list_elem_of_singleton; by intros ->|].
  rewrite list_elem_of_In, List.in_concat. intros (? & (o & <- & Ho)%List.in_map_iff & (sel' & <- & Hs)%List.in_map_iff).
  constructor; [by apply list_elem_of_In|]. by apply IH, list_elem_of_In.
Qed.

Lemma store_all_choice amb ps rs : Forall2 (fun p r => r ∈ options_at amb p) ps rs -> forall sel, choice amb sel -> choice amb (store_all sel ps rs).
Proof.
  unfold store_all. induction 1 as [|p r ps rs Hr _ IH]; intros sel Hc; [done|]. simpl. apply IH. unfold options_at in Hr.
  destruct (amb !! p) as [[j options]|] eqn:Ep; [|by apply elem_of_nil in Hr]. unfold choice. rewrite <- (list_insert_id amb p (j, options) Ep).
  by apply Forall2_insert.
Qed.

Lemma preferred_choice amb : nonempty_options amb -> choice amb (preferred_of amb).
Proof. induction 1 as [|[j options] amb Ho _ IH]; [constructor|]. destruct options as [|o options]; [done|]. constructor; [by left|done]. Qed.

Lemma deviations_choice amb ps rs : nonempty_options amb -> (ps, rs) ∈ deviations amb -> choice amb (store_all (preferred_of amb) ps rs).
Proof.
  intros Hne Hin. apply store_all_choice; [|by apply preferred_choice]. unfold deviations in Hin.
  apply list_elem_of_In, List.in_concat in Hin as (? & (k & <- & _)%List.in_map_iff & Hin).
  apply List.in_concat in Hin as (? & (ps' & <- & _)%List.in_map_iff & (rs' & Heq & Hin)%List.in_map_iff). injection Heq as -> ->.
  apply list_elem_of_In, product_inv, Forall2_fmap_l in Hin. eapply Forall2_impl; [exact Hin|]. intros p r Hr. unfold options_at.
  simpl in Hr. destruct (amb !! p) as [[j options]|]; [|done]. destruct options; [done|]. by right.
Qed.

(** ** Rendering a choice *)

Section variants.
Context `{Clock} `{UnicodeDb} `{Confusables}.

Definition ambiguous_char (c : Z) : bool := negb (isascii c) && bool_decide (_ascii_confusable_options c <> []).

(** A reading of a text: every ambiguous character stands for one of its options. *)
Inductive reading : text -> text -> Prop :=
  | reading_nil : reading [] []
  | reading_keep c value t : ambiguous_char c = false -> reading value t -> reading (c :: value) (c :: t)
  | reading_option c o value t : ambiguous_char c = true -> o ∈ _ascii_confusable_options c -> reading value t -> reading (c :: value) (o ++ t).

(** The text with the selected options in place. *)
Fixpoint place (value : text) (sel : list text) : text :=
  match value with
  | [] => []
  | c :: rest =>
      if ambiguous_char c then match sel with o :: sel' => o ++ place rest sel' | [] => c :: rest end
      else c :: place rest sel
  end.

Lemma ambiguous_cons i c value : ambiguous_from i (c :: value) =
  if ambiguous_char c then (i, _ascii_confusable_options c) :: ambiguous_from (S i) value else ambiguous_from (S i) value.
Proof. done. Qed.

Lemma reading_choice value t i : reading value t -> exists sel, choice (ambiguous_from i value) sel /\ t = place value sel.
Proof.
  intros Hr. revert i. induction Hr as [|c value t Ha _ IH|c o value t Ha Ho _ IH]; intros i.
  - exists []. by split; [constructor|].
  - destruct (IH (S i)) as (sel & Hc & ->). exists sel. rewrite ambiguous_cons. simpl. by rewrite Ha.
  - destruct (IH (S i)) as (sel & Hc & ->). exists (o :: sel). rewrite ambiguous_cons. simpl. rewrite Ha. split; [by constructor|done].
Qed.

Lemma choice_reading value sel i : choice (ambiguous_from i value) sel -> reading value (place value sel).
Proof.
  revert i sel. induction value as [|c value IH]; intros i sel Hc; [constructor|]. rewrite ambiguous_cons in Hc. simpl.
  destruct (ambiguous_char c) eqn:Ha; [|by constructor; eauto]. inversion Hc as [|? o ? sel' Ho Hc']; subst. simpl in Ho.
  apply reading_option; [done..|]. by eapply IH.
Qed.

Lemma slice_snoc (value : text) cursor i c : (cursor <= i)%nat -> value !! i = Some c -> slice cursor (S i) value = slice cursor i value ++ [c].
Proof.
  intros Hle Hc. unfold slice. replace (S i - cursor)%nat with (S (i - cursor)) by lia. apply take_S_r. rewrite lookup_drop.
  replace (cursor + (i - cursor))%nat with i by lia. done.
Qed.

Lemma render_loop_place deadline value : forall rest cursor pre sel n t n', value = pre ++ rest -> (cursor <= length pre)%nat ->
  length sel = length (ambiguous_from (length pre) rest) ->
  render_loop deadline value cursor (map fst (ambiguous_from (length pre) rest)) sel n = (Ok t, n') ->
  t = slice cursor (length pre) value ++ place rest sel.
Proof.
  induction rest as [|c rest IH]; intros cursor pre sel n t n' Hv Hcur Hlen Hrun.
  - simpl in *. injection Hrun as <- _. rewrite app_nil_r in *. subst. unfold slice. rewrite take_ge; [done|]. rewrite length_drop. lia.
  - assert (Hc : value !! length pre = Some c) by (subst; by apply list_lookup_middle).
    assert (Hv' : value = (pre ++ [c]) ++ rest) by (by rewrite <- app_assoc).
    assert (Hpl : length (pre ++ [c]) = S (length pre)) by (rewrite length_app; simpl; lia).
    rewrite ambiguous_cons in Hlen, Hrun. simpl. destruct (ambiguous_char c).
    + destruct sel as [|o sel]; [done|]. cbn [map fst render_loop] in Hrun. apply checked_inv in Hrun as [n1 Hrun].
      apply bind_ok_inv in Hrun as (t' & n2 & Hloop & Hret). injection Hret as <- _. rewrite <- Hpl in Hloop.
      apply (IH (length (pre ++ [c])) (pre ++ [c])) in Hloop; [|done|lia|rewrite Hpl; simpl in Hlen; lia].
      rewrite Hloop. f_equal. f_equal. unfold slice. by rewrite Nat.sub_diag.
    + rewrite <- Hpl in Hlen, Hrun. apply (IH cursor (pre ++ [c])) in Hrun; [|done|lia|done].
      rewrite Hrun, Hpl, (slice_snoc _ _ _ c) by (done || lia). by rewrite <- app_assoc.
Qed.

(** The variants only grow, by the rendering of the selection. *)
Lemma render_adds deadline value sel variants n variants' n' : length sel = length (ambiguous_from 0 value) ->
  render deadline value (ambiguous_from 0 value) sel variants n = (Ok variants', n') ->
  (place value sel = value \/ place value sel ∈ variants') /\ (forall v, v ∈ variants -> v ∈ variants')
  /\ (forall v, v ∈ variants' -> v ∈ variants \/ v = place value sel /\ v <> value) /\ (NoDup variants -> NoDup variants')
  /\ (length variants' <= S (length variants))%nat.
Proof.
  intros Hlen. unfold render. intros (t & n1 & Hloop & Hret)%bind_ok_inv.
  apply (render_loop_place deadline value value 0 [] sel) in Hloop; [|done..]. unfold slice in Hloop. simpl in Hloop. subst t. injection Hret as <- _.
  destruct (bool_decide (place value sel <> value)) eqn:Eb; simpl.
  - apply bool_decide_eq_true in Eb. destruct (elem (place value sel) variants) eqn:Ee; simpl.
    + apply elem_true in Ee. split_and!; auto.
    + apply elem_false in Ee. split_and!.
      * right. apply elem_of_app. right. by left.
      * intros v Hv. apply elem_of_app. by left.
      * intros v [Hv|Hv%list_elem_of_singleton]%elem_of_app; [by left|by right; subst].
      * intros Hnd. apply NoDup_app. split_and!; [done| |apply NoDup_singleton]. intros v Hv. rewrite list_elem_of_singleton. by intros ->.
      * rewrite length_app. simpl. lia.
  - apply bool_decide_eq_false, dec_stable in Eb. split_and!; auto.
Qed.

Lemma ambiguous_nonempty i value : nonempty_options (ambiguous_from i value).
Proof.
  revert i. induction value as [|c value IH]; intros i; [constructor|]. rewrite ambiguous_cons. destruct (ambiguous_char c) eqn:E; [|done].
  constructor; [|apply IH]. apply andb_true_iff in E as [_ E]. by apply bool_decide_eq_true in E.
Qed.

(** What is collected: at most 32 distinct readings other than the value. *)
Definition collected (value : text) (variants : list text) : Prop :=
  NoDup variants /\ forall v, v ∈ variants -> reading value v /\ v <> value.

Lemma render_collects deadline value sel variants n variants' n' : choice (ambiguous_from 0 value) sel -> collected value variants ->
  render deadline value (ambiguous_from 0 value) sel variants n = (Ok variants', n') ->
  collected value variants' /\ (place value sel = value \/ place value sel ∈ variants') /\ (forall v, v ∈ variants -> v ∈ variants')
  /\ (length variants' <= S (length variants))%nat.
Proof.
  intros Hc [Hnd Hall] Hrun. destruct (render_adds deadline value sel variants n variants' n') as (Ha & Hb & Hd & He & Hf); [by symmetry; eapply Forall2_length|done|].
  split; [|done]. split; [auto|]. intros v [Hv|[-> Hv]]%Hd; [auto|]. split; [|done]. by eapply choice_reading.
Qed.

Lemma explore_collects deadline value : forall todo explored variants n variants' n',
  (forall ps rs, (ps, rs) ∈ todo -> choice (ambiguous_from 0 value) (store_all (preferred_of (ambiguous_from 0 value)) ps rs)) ->
  (explored < MAX_CONFUSABLE_RULE_VARIANTS)%nat -> (length variants <= S explored)%nat -> collected value variants ->
  explore deadline value (ambiguous_from 0 value) (preferred_of (ambiguous_from 0 value)) explored todo variants n = (Ok variants', n') ->
  collected value variants' /\ (length variants' <= MAX_CONFUSABLE_RULE_VARIANTS)%nat /\ (forall v, v ∈ variants -> v ∈ variants')
  /\ ((forall ps rs, (ps, rs) ∈ todo -> let t := place value (store_all (preferred_of (ambiguous_from 0 value)) ps rs) in t = value \/ t ∈ variants')
      \/ (MAX_CONFUSABLE_RULE_VARIANTS <= explored + length todo)%nat).
Proof.
  induction todo as [|[ps rs] todo IH]; intros explored variants n variants' n' Hch Hexp Hlen Hcol Hrun.
  { injection Hrun as <- _. split; [done|]. split_and!; [lia|auto|]. left. by intros ps rs ?%elem_of_nil. }
  cbn [explore] in Hrun. apply checked_inv in Hrun as [n1 Hrun].
  destruct (Nat.leb_spec MAX_CONFUSABLE_RULE_VARIANTS (S explored)) as [Hstop|Hgo].
  { injection Hrun as <- _. split; [done|]. split_and!; [lia|auto|]. right. simpl. lia. }
  apply bind_ok_inv in Hrun as (variants1 & n2 & Hrender & Hrun).
  destruct (render_collects _ _ _ _ _ _ _ (Hch ps rs (list_elem_of_here _ _)) Hcol Hrender) as (Hcol1 & Hhere & Hsub & Hlen1).
  destruct (Nat.leb_spec MAX_CONFUSABLE_RULE_VARIANTS (length variants1)) as [Hfull|Hmore].
  - injection Hrun as <- _. split; [done|]. split_and!; [lia|done|]. destruct todo as [|e todo]; [left|right; simpl; lia].
    intros ps' rs' [= -> ->]%list_elem_of_singleton. done.
  - destruct (IH (S explored) variants1 n2 variants' n') as (Hc & Hl & Hs & Hdone); [intros; apply Hch; by right|lia|lia|done|done|].
    split; [done|]. split_and!; [done|auto|]. destruct Hdone as [Hdone|?]; [left|right; simpl; lia].
    intros ps' rs' [[= -> ->]|Hin]%elem_of_cons; [|by apply Hdone]. destruct Hhere; auto.
Qed.

Lemma variant_set_spec value deadline n vs n' :
  confusable_rule_variant_set value deadline n = (Ok vs, n') ->
  (length (vs_variants vs) <= MAX_CONFUSABLE_RULE_VARIANTS)%nat /\ NoDup (vs_variants vs)
  /\ (forall v, v ∈ vs_variants vs -> reading value v /\ v <> value)
  /\ (vs_exhausted vs = false -> forall t, reading value t -> t = value \/ t ∈ vs_variants vs).
Proof.
  assert (Hnone : ambiguous_from 0 value = [] -> vs = mkVariantSet [] false ->
    (length (vs_variants vs) <= MAX_CONFUSABLE_RULE_VARIANTS)%nat /\ NoDup (vs_variants vs)
    /\ (forall v, v ∈ vs_variants vs -> reading value v /\ v <> value)
    /\ (vs_exhausted vs = false -> forall t, reading value t -> t = value \/ t ∈ vs_variants vs)).
  { intros Hamb ->. simpl. split_and!; [lia|apply NoDup_nil_2|by intros v ?%elem_of_nil|]. intros _ t Hr. left.
    destruct (reading_choice value t 0 Hr) as (sel & Hc & ->). rewrite Hamb in Hc. apply Forall2_length in Hc as Hl. symmetry in Hl. apply length_zero_iff_nil in Hl. subst.
    clear -Hamb. revert Hamb. generalize 0%nat. induction value as [|c value IH]; intros i; [done|]. rewrite ambiguous_cons. simpl.
    destruct (ambiguous_char c); [done|]. intros Hamb. f_equal. by eapply IH. }
  unfold confusable_rule_variant_set. destruct (all_ascii value) eqn:Ea.
  { intros [= <- _]. apply Hnone; [|done]. clear -Ea. revert Ea. generalize 0%nat. induction value as [|c value IH]; intros i; [done|]. simpl.
    intros [Hc Hv]%andb_true_iff. rewrite Hc. simpl. by apply IH. }
  intros [n1 Hrun]%check_each_inv. destruct (ambiguous_from 0 value) as [|e amb] eqn:Eamb; [injection Hrun as <- _; by apply Hnone|]. clear Hnone.
  rewrite <- Eamb in Hrun. apply bind_ok_inv in Hrun as (first & n2 & Hfirst & Hrun). apply bind_ok_inv in Hrun as (variants & n3 & Hexp & Hret).
  injection Hret as <- _. simpl. pose proof (ambiguous_nonempty 0 value) as Hne. fold (preferred_of (ambiguous_from 0 value)) in Hfirst, Hexp.
  destruct (render_collects _ _ _ _ _ _ _ (preferred_choice _ Hne) (conj (NoDup_nil_2 (A:=text)) (fun v Hv => False_ind _ (not_elem_of_nil v Hv))) Hfirst) as (Hcol & Hpref & _ & Hl1).
  destruct (explore_collects deadline value _ 0 first n2 variants n3 (fun ps rs => deviations_choice _ ps rs Hne)) as ([Hnd Hall] & Hlen & Hsub & Hdone); [unfold MAX_CONFUSABLE_RULE_VARIANTS; lia|done|done|done|].
  split_and!; [done|done|done|]. intros Hexh%Nat.ltb_ge t Hr. destruct Hdone as [Hdone|Hcut].
  - destruct (reading_choice value t 0 Hr) as (sel & Hc & ->). destruct (choice_selected _ _ Hc) as [->|(ps & rs & Hin & ->)]; [|by apply Hdone].
    destruct Hpref; auto.
  - exfalso. rewrite option_count_min, <- deviations_count in Hexh by done. simpl in Hcut. lia.
Qed.

(** C29: the rule variants are bounded, exact and never silently incomplete. A run
    of [confusable_rule_variant_set] returns at most 32 distinct texts, each a
    reading of the value (every ambiguous character replaced by one of its ASCII
    readings) other than the value itself; and unless it reports that variants
    were omitted, every reading of the value is among them or is the value. *)
Theorem variants_complete value deadline n vs n' :
  confusable_rule_variant_set value deadline n = (Ok vs, n') ->
  (length (vs_variants vs) <= MAX_CONFUSABLE_RULE_VARIANTS)%nat /\ NoDup (vs_variants vs)
  /\ (forall v, v ∈ vs_variants vs -> reading value v /\ v <> value)
  /\ (vs_exhausted vs = false -> forall t, reading value t -> t = value \/ t ∈ vs_variants vs).
Proof. apply variant_set_spec. Qed.
End variants.

(** ** A small table *)

Module Example_fold.
#[local] Instance still : Clock := {| monotonic := fun n => Z.of_nat n |}.
#[local] Instance some_letters : UnicodeDb :=
  {| db_printable := fun _ => true; db_space := fun _ => false; db_alnum := fun _ => true; db_alpha := fun _ => true;
     db_digit := fun _ => false; db_decimal := fun _ => false; db_decimal_value := fun _ => 0; db_category := fun _ => "Lo"%string; db_name := fun _ => "LETTER"%string;
     db_casefold := fun c => [c];
     normalize_nfkc := fun t => t; normalize_nfd := fun t => t |}.
(** A letter read as [a], and one read as [A] by its block and as [4] by the table. *)
#[local] Instance small_table : Confusables := {| ASCII_CONFUSABLES := [(1072, u "a"); (127462, u "4")] |}.

Definition spoofed : text := u "p" ++ [1072; 127462] ++ u "s".

Lemma variants_complete_witness :
  confusable_rule_variant_set spoofed None 0%nat = (Ok (mkVariantSet [u "paAs"; u "pa4s"] false), 0%nat)
  /\ (forall t, reading spoofed t -> t = spoofed \/ t ∈ [u "paAs"; u "pa4s"]).
Proof.
  assert (Hrun : confusable_rule_variant_set spoofed None 0%nat = (Ok (mkVariantSet [u "paAs"; u "pa4s"] false), 0%nat)) by (vm_compute; reflexivity).
  split; [exact Hrun|]. exact (proj2 (proj2 (proj2 (variants_complete spoofed None 0%nat _ 0%nat Hrun))) eq_refl).
Defined.

Definition foreign : text := u "see " ++ [8364; 20320].

Lemma canonical_unreported_witness :
  exists canonical, canonicalize_content foreign (Some 1000) 0%nat = (Ok (canonical, []), 9%nat) /\ canonical = foreign.
Proof.
  eexists. split; [vm_compute; reflexivity|]. eapply (canonical_unreported foreign (Some 1000) 0%nat _ 9%nat). vm_compute. reflexivity.
Defined.
End Example_fold.
