(* ===== verification/Regex.v ===== *)
(** * Patterns

    The part of the language of [re] that the scanner's own patterns use: classes,
    sequences, alternatives, greedy repetition, word boundaries and one-character
    lookarounds. [match_at] is the backtracking matcher: the ways a pattern
    matches at a position, in the order the engine tries them; [finditer] and
    [search] are built on it. [matches] is the meaning of a pattern, and the
    matcher finds exactly the matches. *)

From Stdlib Require Import ZArith Lia Ascii.
From stdpp Require Import base sets strings numbers list.
From S2P Require Import Prelude Text Chars.

Local Open Scope Z_scope.

Inductive regex :=
  | REps
  | RClass (p : Z -> bool)
  | RSeq (r1 r2 : regex)
  | RAlt (r1 r2 : regex)
  | ROpt (r : regex)                    (* r? *)
  | RSpaces                             (* \s+ *)
  | RRep (lo extra : nat) (r : regex)   (* r{lo,lo+extra} *)
  | RBoundary                           (* \b *)
  | RNotBehind (p : Z -> bool)          (* (?<!p) *)
  | RNotAhead (p : Z -> bool).          (* (?!p) *)

(** A place in a text: the character before it and what follows. *)
Abbreviation place_t := (option Z * text)%type.

Definition at_char (p : Z -> bool) (oc : option Z) : bool := match oc with Some c => p c | None => false end.

Section matcher.
Context `{UnicodeDb}.

(** The class [\w]. *)
Definition word_char (c : Z) : bool := isalnum c || (c =? 95).

Definition at_boundary (pl : place_t) : bool := xorb (at_char word_char pl.1) (at_char word_char (head pl.2)).

(** The places after one or more characters of a class, longest first. *)
Fixpoint after_run (p : Z -> bool) (t : text) : list place_t :=
  match t with
  | c :: t' => if p c then after_run p t' ++ [(Some c, t')] else []
  | [] => []
  end.

(** Repeat at least [lo] and at most [lo + extra] times, more first. *)
Fixpoint repeat_exactly (step : place_t -> list place_t) (n : nat) (pl : place_t) : list place_t :=
  match n with O => [pl] | S n' => concat (map (repeat_exactly step n') (step pl)) end.
Fixpoint repeat_upto (step : place_t -> list place_t) (n : nat) (pl : place_t) : list place_t :=
  match n with O => [pl] | S n' => concat (map (repeat_upto step n') (step pl)) ++ [pl] end.

Fixpoint match_at (r : regex) (pl : place_t) : list place_t :=
  match r with
  | REps => [pl]
  | RClass p => match pl.2 with c :: t => if p c then [(Some c, t)] else [] | [] => [] end
  | RSeq r1 r2 => concat (map (match_at r2) (match_at r1 pl))
  | RAlt r1 r2 => match_at r1 pl ++ match_at r2 pl
  | ROpt r1 => match_at r1 pl ++ [pl]
  | RSpaces => after_run isspace pl.2
  | RRep lo extra r1 => concat (map (repeat_upto (match_at r1) extra) (repeat_exactly (match_at r1) lo pl))
  | RBoundary => if at_boundary pl then [pl] else []
  | RNotBehind p => if at_char p pl.1 then [] else [pl]
  | RNotAhead p => if at_char p (head pl.2) then [] else [pl]
  end.

(** [pattern.finditer(t)] for a pattern that matches no empty text: at each
    position the first match, then on from its end. *)
Fixpoint finditer_from (fuel pos : nat) (r : regex) (prev : option Z) (t : text) : list re_match :=
  match t, fuel with
  | [], _ | _, O => []
  | c :: t', S f =>
      match match_at r (prev, t) with
      | (prev', rest) :: _ =>
          let size := (length t - length rest)%nat in
          mkMatch pos (take size t) :: finditer_from f (pos + size) r prev' rest
      | [] => finditer_from f (S pos) r (Some c) t'
      end
  end.
Definition finditer (r : regex) (t : text) : list re_match := finditer_from (length t) 0 r None t.

(** [pattern.search(t)] *)
Definition search (r : regex) (t : text) : bool := match finditer r t with [] => false | _ => true end.

(** [pattern.fullmatch(t)] *)
Definition fullmatch (r : regex) (t : text) : bool :=
  existsb (fun pl : place_t => match pl.2 with [] => true | _ => false end) (match_at r (None, t)).

(** ** The meaning of a pattern *)

Inductive matches : regex -> place_t -> place_t -> Prop :=
  | M_eps pl : matches REps pl pl
  | M_class p prev c t : p c = true -> matches (RClass p) (prev, c :: t) (Some c, t)
  | M_seq r1 r2 p1 p2 p3 : matches r1 p1 p2 -> matches r2 p2 p3 -> matches (RSeq r1 r2) p1 p3
  | M_alt_l r1 r2 p1 p2 : matches r1 p1 p2 -> matches (RAlt r1 r2) p1 p2
  | M_alt_r r1 r2 p1 p2 : matches r2 p1 p2 -> matches (RAlt r1 r2) p1 p2
  | M_opt_some r p1 p2 : matches r p1 p2 -> matches (ROpt r) p1 p2
  | M_opt_none r pl : matches (ROpt r) pl pl
  | M_space_one prev c t : isspace c = true -> matches RSpaces (prev, c :: t) (Some c, t)
  | M_space_more prev c t pl : isspace c = true -> matches RSpaces (Some c, t) pl -> matches RSpaces (prev, c :: t) pl
  | M_rep_stop r pl : matches (RRep 0 0 r) pl pl
  | M_rep_skip extra r p1 p2 : matches (RRep 0 extra r) p1 p2 -> matches (RRep 0 (S extra) r) p1 p2
  | M_rep_extra extra r p1 p2 p3 : matches r p1 p2 -> matches (RRep 0 extra r) p2 p3 -> matches (RRep 0 (S extra) r) p1 p3
  | M_rep_lo lo extra r p1 p2 p3 : matches r p1 p2 -> matches (RRep lo extra r) p2 p3 -> matches (RRep (S lo) extra r) p1 p3
  | M_boundary pl : at_boundary pl = true -> matches RBoundary pl pl
  | M_not_behind p pl : at_char p pl.1 = false -> matches (RNotBehind p) pl pl
  | M_not_ahead p pl : at_char p (head pl.2) = false -> matches (RNotAhead p) pl pl.

Lemma in_concat_map {A B} (f : A -> list B) l y : y ∈ concat (map f l) <-> exists x, x ∈ l /\ y ∈ f x.
Proof.
  rewrite list_elem_of_In, List.in_concat. setoid_rewrite List.in_map_iff. setoid_rewrite list_elem_of_In. naive_solver.
Qed.

Lemma repeat_upto_elem step n : forall pl pl', pl' ∈ repeat_upto step n pl <->
  pl' = pl \/ exists n' q, n = S n' /\ q ∈ step pl /\ pl' ∈ repeat_upto step n' q.
Proof.
  destruct n as [|n]; intros pl pl'; simpl; [rewrite list_elem_of_singleton; naive_solver|].
  rewrite elem_of_app, list_elem_of_singleton, in_concat_map. naive_solver.
Qed.

(** Repetitions allowed to be fewer. *)
Lemma matches_rep_weaken r extra p1 p2 : matches (RRep 0 extra r) p1 p2 -> forall k, matches (RRep 0 (k + extra) r) p1 p2.
Proof. intros Hm k. induction k as [|k IH]; [done|]. simpl. by apply M_rep_skip. Qed.

Lemma matches_rep_refl r extra pl : matches (RRep 0 extra r) pl pl.
Proof. induction extra as [|extra IH]; [constructor|by apply M_rep_skip]. Qed.

Lemma matches_rep_upto r extra : (forall p1 p2, p2 ∈ match_at r p1 <-> matches r p1 p2) ->
  forall p1 p2, p2 ∈ repeat_upto (match_at r) extra p1 <-> matches (RRep 0 extra r) p1 p2.
Proof.
  intros Hr. induction extra as [|extra IH]; intros p1 p2.
  - simpl. rewrite list_elem_of_singleton. split; [intros ->; constructor|]. intros Hm. by inversion Hm.
  - simpl. rewrite elem_of_app, list_elem_of_singleton, in_concat_map. split.
    + intros [(q & Hq & Hin)| ->]; [|apply matches_rep_refl]. eapply M_rep_extra; [by apply Hr|by apply IH].
    + intros Hm. inversion Hm as [| | | | | | | | | |? ? ? ? Hs|? ? ? q ? Hx Hs| | | |]; subst.
      * apply IH in Hs. clear -Hs. revert p1 Hs. induction extra as [|extra IHe]; intros p1 Hs; simpl in *.
        { apply list_elem_of_singleton in Hs. by right. }
        apply elem_of_app in Hs as [Hs|Hs%list_elem_of_singleton]; [|by right]. apply in_concat_map in Hs as (q & Hq & Hs).
        destruct (IHe q Hs) as [(q' & Hq' & Hs')| ->]; left; exists q; (split; [done|]); apply elem_of_app.
        -- left. apply in_concat_map. by exists q'.
        -- right. by apply list_elem_of_singleton.
      * left. exists q. split; [by apply Hr|by apply IH].
Qed.

Lemma after_run_elem t : forall prev pl, pl ∈ after_run isspace t <-> matches RSpaces (prev, t) pl.
Proof.
  induction t as [|c t IH]; intros prev pl; simpl.
  - rewrite elem_of_nil. split; [done|]. intros Hm. inversion Hm.
  - destruct (isspace c) eqn:Ec.
    + rewrite elem_of_app, list_elem_of_singleton, (IH (Some c)). split.
      * intros [Hm| ->]; [by apply M_space_more|by apply M_space_one].
      * intros Hm. inversion Hm; subst; auto.
    + rewrite elem_of_nil. split; [done|]. intros Hm. inversion Hm; congruence.
Qed.

(** The matcher finds exactly the matches. *)
Lemma match_at_correct r : forall p1 p2, p2 ∈ match_at r p1 <-> matches r p1 p2.
Proof.
  induction r as [|p|r1 IH1 r2 IH2|r1 IH1 r2 IH2|r IH| |lo extra r IH| |p|p]; intros p1 p2; simpl.
  - rewrite list_elem_of_singleton. split; [intros ->; constructor|intros Hm; by inversion Hm].
  - destruct p1 as [prev [|c t]]; simpl.
    + rewrite elem_of_nil. split; [done|intros Hm; inversion Hm].
    + destruct (p c) eqn:E.
      * rewrite list_elem_of_singleton. split; [intros ->; by constructor|intros Hm; by inversion Hm].
      * rewrite elem_of_nil. split; [done|intros Hm; inversion Hm; congruence].
  - rewrite in_concat_map. setoid_rewrite IH1. setoid_rewrite IH2. split.
    + intros (q & H1 & H2). by eapply M_seq.
    + intros Hm. inversion Hm; subst. eauto.
  - rewrite elem_of_app, IH1, IH2. split; [intros [?|?]; [by apply M_alt_l|by apply M_alt_r]|intros Hm; inversion Hm; auto].
  - rewrite elem_of_app, list_elem_of_singleton, IH. split; [intros [?| ->]; constructor; done|intros Hm; inversion Hm; auto].
  - destruct p1 as [prev t]. apply after_run_elem.
  - rewrite in_concat_map. revert p1. induction lo as [|lo IHlo]; intros p1; simpl.
    + setoid_rewrite list_elem_of_singleton. setoid_rewrite (matches_rep_upto r extra IH). split; [by intros (q & -> & ?)|]. intros Hm. by exists p1.
    + setoid_rewrite in_concat_map. split.
      * intros (q & (q' & Hq' & Hq) & Hp2). eapply M_rep_lo; [by apply IH|]. apply IHlo. eauto.
      * intros Hm. inversion Hm as [| | | | | | | | | | | |? ? ? ? q' ? Hx Hs| | |]; subst. apply IHlo in Hs as (q & Hq & Hp2).
        exists q. split; [exists q'; split; [by apply IH|done]|done].
  - destruct (at_boundary p1) eqn:E; [rewrite list_elem_of_singleton|rewrite elem_of_nil]; (split; [try (intros ->; by constructor)|intros Hm; inversion Hm; congruence]).
    done.
  - destruct (at_char p p1.1) eqn:E; [rewrite elem_of_nil|rewrite list_elem_of_singleton]; (split; [try (intros ->; by constructor)|intros Hm; inversion Hm; congruence]).
    done.
  - destruct (at_char p (head p1.2)) eqn:E; [rewrite elem_of_nil|rewrite list_elem_of_singleton]; (split; [try (intros ->; by constructor)|intros Hm; inversion Hm; congruence]).
    done.
Qed.

Lemma matches_suffix r p1 p2 : matches r p1 p2 -> exists g, p1.2 = g ++ p2.2 /\ p2.1 = match last g with Some c => Some c | None => p1.1 end.
Proof.
  induction 1; simpl in *; try (by exists []); try done.
  - by exists [c].
  - destruct IHmatches1 as (g1 & E1 & L1), IHmatches2 as (g2 & E2 & L2). exists (g1 ++ g2). rewrite E1, E2, <- app_assoc. split; [done|].
    rewrite L2, L1, last_app. by destruct (last g2).
  - by exists [c].
  - destruct IHmatches as (g & -> & L). exists (c :: g). split; [done|]. rewrite L, last_cons. by destruct (last g).
  - destruct IHmatches1 as (g1 & E1 & L1), IHmatches2 as (g2 & E2 & L2). exists (g1 ++ g2). rewrite E1, E2, <- app_assoc. split; [done|].
    rewrite L2, L1, last_app. by destruct (last g2).
  - destruct IHmatches1 as (g1 & E1 & L1), IHmatches2 as (g2 & E2 & L2). exists (g1 ++ g2). rewrite E1, E2, <- app_assoc. split; [done|].
    rewrite L2, L1, last_app. by destruct (last g2).
Qed.

(** The pattern matches somewhere in a text that stands after [prev]. *)
Definition occurs_after (r : regex) (prev : option Z) (t : text) : Prop :=
  exists before suffix pl, t = before ++ suffix /\ suffix <> []
    /\ matches r (match last before with Some c => Some c | None => prev end, suffix) pl.

Definition occurs (r : regex) (t : text) : Prop := occurs_after r None t.

Lemma occurs_here r prev t pl : t <> [] -> matches r (prev, t) pl -> occurs_after r prev t.
Proof. intros Ht Hm. by exists [], t, pl. Qed.

Lemma occurs_later r prev c t : occurs_after r (Some c) t -> occurs_after r prev (c :: t).
Proof.
  intros (before & suffix & pl & -> & Hs & Hm). exists (c :: before), suffix, pl. split_and!; [done..|]. rewrite last_cons. by destruct (last before).
Qed.

Lemma occurs_cons r prev c t : occurs_after r prev (c :: t) -> (exists pl, matches r (prev, c :: t) pl) \/ occurs_after r (Some c) t.
Proof.
  intros ([|d before] & suffix & pl & Heq & Hs & Hm); simpl in *; subst; [left; by exists pl|]. injection Heq as <- ->. right.
  exists before, suffix, pl. split_and!; [done..|]. rewrite last_cons in Hm. by destruct (last before).
Qed.

(** [finditer] finds something exactly when the pattern occurs. *)
Lemma finditer_from_nil r fuel : forall pos prev t, (length t <= fuel)%nat -> finditer_from fuel pos r prev t = [] <-> ~ occurs_after r prev t.
Proof.
  induction fuel as [|fuel IH]; intros pos prev [|c t] Hf; simpl in Hf |- *; try lia;
    try (split; [|done]; intros _ (before & suffix & pl & Heq & Hs & _); by destruct before, suffix).
  destruct (match_at r (prev, c :: t)) as [|[prev' rest] l] eqn:Em.
  - rewrite IH by lia. split; intros Hn Ho; apply Hn.
    + destruct (occurs_cons _ _ _ _ Ho) as [[pl Hm]|?]; [|done]. apply match_at_correct in Hm. rewrite Em in Hm. by apply elem_of_nil in Hm.
    + by apply occurs_later.
  - split; [done|]. intros Hn. destruct Hn. eapply occurs_here; [done|]. apply match_at_correct. rewrite Em. by left.
Qed.

Lemma finditer_from_some r fuel : forall pos prev t, finditer_from fuel pos r prev t <> [] -> occurs_after r prev t.
Proof.
  induction fuel as [|fuel IH]; intros pos prev [|c t] Hne; simpl in Hne; try done.
  destruct (match_at r (prev, c :: t)) as [|[prev' rest] l] eqn:Em.
  - apply occurs_later. by eapply IH.
  - eapply occurs_here; [done|]. apply match_at_correct. rewrite Em. by left.
Qed.

Lemma finditer_nil r t : finditer r t = [] <-> ~ occurs r t.
Proof. by apply finditer_from_nil. Qed.

Lemma search_occurs r t : search r t = true <-> occurs r t.
Proof.
  unfold search. split.
  - intros Hs. apply (finditer_from_some r (length t) 0). unfold finditer in Hs. by destruct (finditer_from _ _ _ _ _).
  - intros Ho. destruct (finditer r t) eqn:E; [|done]. by apply finditer_nil in E.
Qed.
End matcher.
