(* ===== verification/ScanRules.v ===== *)
(** * The rules of the scanner

    Models the rest of [memory_router/security_rules.py]: the rules and the forms
    of a text they are searched in, the scan with the detectors of
    [agent_memory_guard] (a parameter, [Detectors]) and what is kept of their
    card numbers, bare secret names, and the limits on a field. *)

From Stdlib Require Import ZArith Lia Ascii.
From stdpp Require Import base sets strings numbers list.
From S2P Require Import Prelude Errors Text Chars ScanModels RuleEdges UnicodeFold Regex.

Local Open Scope Z_scope.

Definition MAX_SCAN_FIELD_BYTES : Z := 1024 * 1024.
Definition MAX_NON_ASCII_CODEPOINTS : Z := 65536.
Definition _CARD_CONTEXT_RADIUS : nat := 32.

(** ** Patterns *)

(** A letter of a pattern with [re.I]: besides the other case, some letters
    outside ASCII fold to one of ASCII. *)
Definition fold_case (c : Z) : Z :=
  if ascii_upper c then c + 32
  else if (c =? 304) || (c =? 305) then 105
  else if c =? 383 then 115
  else if c =? 8490 then 107
  else c.

Definition same_letter (lit c : Z) : bool := fold_case c =? fold_case lit.

(** A literal text with [re.I]. *)
Definition RText (s : string) : regex := foldr (fun c r => RSeq (RClass (same_letter c)) r) REps (u s).

Fixpoint RSeqs (rs : list regex) : regex := match rs with [] => REps | r :: rs' => RSeq r (RSeqs rs') end.

(** Words with white space between them, and a boundary after the last. *)
Fixpoint RWords (ws : list string) : regex :=
  match ws with [] => RBoundary | [w] => RSeq (RText w) RBoundary | w :: ws' => RSeq (RText w) (RSeq RSpaces (RWords ws')) end.

Section rules.
Context `{UnicodeDb}.

(** [_RULES]: the patterns and names of [_RULE_SPECS], decoded. *)
Definition _RULES : list (regex * text * string) :=
  [(RSeqs [RText "ignore"; RSpaces; ROpt (RSeq (RText "all") RSpaces); RWords ["previous"; "instructions"]], u "ignore previous instructions", "prompt_injection");
   (RWords ["system"; "prompt"], u "system prompt", "prompt_injection");
   (RWords ["developer"; "message"], u "developer message", "prompt_injection");
   (RWords ["new"; "instructions"], u "new instructions", "prompt_injection");
   (RWords ["you"; "are"; "now"], u "you are now", "prompt_injection");
   (RWords ["write"; "this"; "to"; "memory"], u "write this to memory", "prompt_injection");
   (RWords ["remember"; "this"; "as"; "truth"], u "remember this as truth", "prompt_injection");
   (RWords ["store"; "this"; "as"; "core"; "memory"], u "store this as core memory", "prompt_injection");
   (RWords ["overwrite"; "permissions"], u "overwrite permissions", "permission_rewrite");
   (RSeqs [RText "reveal"; RSpaces; ROpt (RSeq (RText "the") RSpaces); RAlt (RText "secret") (RAlt (RText "token") (RText "key")); RBoundary],
    u "reveal secret", "secret_like");
   (RSeqs [RBoundary; RText "api"; ROpt (RClass (fun c => elem c (u "_ -"))); RText "key"; RBoundary], u "api key", "secret_like");
   (RWords ["private"; "key"], u "private key", "secret_like");
   (RWords ["BEGIN"; "OPENSSH"; "PRIVATE"; "KEY"], u "private key block", "secret_like");
   (RWords ["exfiltrate"], u "exfiltrate", "secret_like")]%string.

Definition _NON_IMPERATIVE_SPLIT_MATCHES : list text := map u ["system prompt"; "developer message"; "new instructions"]%string.

Definition _SPLIT_RULES : list (regex * text * string) := List.filter (fun r => negb (elem r.1.2 _NON_IMPERATIVE_SPLIT_MATCHES)) _RULES.

(** [pattern.replace(r"\s+", "")]; the patterns have no [\s*]. *)
Fixpoint without_spaces (r : regex) : regex :=
  match r with
  | RSpaces => REps
  | RSeq r1 r2 => RSeq (without_spaces r1) (without_spaces r2)
  | RAlt r1 r2 => RAlt (without_spaces r1) (without_spaces r2)
  | ROpt r1 => ROpt (without_spaces r1)
  | RRep lo extra r1 => RRep lo extra (without_spaces r1)
  | _ => r
  end.

Definition _COMPACT_SPLIT_RULES : list (regex * text * string) :=
  map (fun r : regex * text * string => (without_spaces r.1.1, r.1.2, r.2)) _SPLIT_RULES.

(** [_RULE_PUNCTUATION.sub(" ", t)]: [(?!\s)[\W_]] *)
Definition rule_punctuation (c : Z) : bool := negb (isspace c) && (negb (word_char c) || (c =? 95)).
Definition punctuation_to_spaces (t : text) : text := map (fun c => if rule_punctuation c then 32 else c) t.

(** [_IN_WORD_DIGIT.sub("", t)]: a digit between two ASCII letters. *)
Fixpoint strip_inword (prev : option Z) (t : text) : text :=
  match t with
  | [] => []
  | c :: t' =>
      if isdecimal c && at_char ascii_letter prev && at_char ascii_letter (head t') then strip_inword (Some c) t'
      else c :: strip_inword (Some c) t'
  end.
Definition strip_inword_digit (t : text) : text := strip_inword None t.

(** [re.sub(r"\s+", "", t)] *)
Definition without_whitespace (t : text) : text := List.filter (fun c => negb (isspace c)) t.

Definition _CARD_NUMBER : regex :=
  RSeqs [RNotBehind isdecimal; RRep 12 6 (RSeq (RClass isdecimal) (ROpt (RClass (fun c => elem c (u " -"))))); RClass isdecimal; RNotAhead isdecimal].

Definition _CARD_CONTEXT : regex :=
  RSeqs [RBoundary; foldr RAlt (RText "pan") (map RText ["card"; "credit"; "debit"; "visa"; "mastercard"; "amex"; "discover"]%string); RBoundary].

(** ** Matching the rules *)

(** [_merge_rule_hits]: the hits of the first finding with the signature. *)
Fixpoint _merge_rule_hits (findings : list Finding) (matched : text) (reason : string) (hits : list text) : list Finding :=
  match findings with
  | [] => []
  | f :: rest =>
      if bool_decide (fd_matched f = matched) && bool_decide (fd_reason f = reason)
      then mkFinding matched reason None None (dict_fromkeys (fd_hits f ++ hits)) :: rest
      else f :: _merge_rule_hits rest matched reason hits
  end.

(** One rule of [_append_rule_matches]; the state is the findings and what is seen. *)
Definition append_rule (all_hits : bool) (candidate : text) (st : list Finding * list (text * string)) (rule : regex * text * string)
    : list Finding * list (text * string) :=
  let '(pattern, matched, reason) := rule in
  let '(findings, seen) := st in
  let found := map m_group (finditer pattern candidate) in
  let hits := if all_hits then dict_fromkeys found else take 1 found in
  match hits with
  | [] => st
  | _ =>
      if negb (elem (matched, reason) seen) then (findings ++ [mkFinding matched reason None None hits], seen ++ [(matched, reason)])
      else if all_hits then (_merge_rule_hits findings matched reason hits, seen) else st
  end.

(** [_append_rule_matches] *)
Definition _append_rule_matches (all_hits : bool) (rules : list (regex * text * string)) (candidate : text)
    (st : list Finding * list (text * string)) : list Finding * list (text * string) :=
  fold_left (append_rule all_hits candidate) rules st.

Context `{Clock} `{Confusables}.

(** The forms of one variant, with the rules that look at them. *)
Definition scans_of (include_compact_split : bool) (variant : text) : list (list (regex * text * string) * text) :=
  let rules := if include_compact_split then _SPLIT_RULES else _RULES in
  [(rules, variant); (rules, punctuation_to_spaces variant)]
  ++ if include_compact_split then [(_COMPACT_SPLIT_RULES, without_whitespace variant)] else [].

Fixpoint variants_loop (deadline : option Z) (include_compact_split all_hits : bool) (variants : list text)
    (st : list Finding * list (text * string)) : scan (list Finding * list (text * string)) :=
  match variants with
  | [] => mret st
  | variant :: rest =>
      raise_if_late deadline;;
      variants_loop deadline include_compact_split all_hits rest
        (fold_left (fun st sc => _append_rule_matches all_hits sc.1 sc.2 st) (scans_of include_compact_split variant) st)
  end.

(** The texts whose forms are scanned. *)
Definition scan_variants (value : text) (variants : list text) (strip_inword_digits : bool) : list text :=
  dict_fromkeys (concat (map (fun variant => if strip_inword_digits then [variant; strip_inword_digit variant] else [variant]) (value :: variants))).

(** [_scan_rule_variants] *)
Definition _scan_rule_variants (value : text) (deadline : option Z) (strip_inword_digits include_compact_split all_hits : bool) : scan (list Finding) :=
  vs ← confusable_rule_variant_set value deadline;
  st ← variants_loop deadline include_compact_split all_hits (scan_variants value (vs_variants vs) strip_inword_digits) ([], []);
  mret (st.1 ++ if vs_exhausted vs then [finding "confusable_variant_limit" "span_limit"] else []).

(** [_rule_scan], [_split_instruction_rule_scan] *)
Definition _rule_scan (value : text) (deadline : option Z) (strip_inword_digits all_hits : bool) : scan (list Finding) :=
  _scan_rule_variants value deadline strip_inword_digits false all_hits.
Definition _split_instruction_rule_scan (value : text) (deadline : option Z) (strip_inword_digits all_hits : bool) : scan (list Finding) :=
  _scan_rule_variants value deadline strip_inword_digits true all_hits.

(** ** Bare secret names *)

(** [[a-z0-9]] with [re.I] *)
Definition class_az09 (c : Z) : bool := ascii_lower (fold_case c) || ascii_digit c.

(** [_is_bare_secret_word] *)
Definition _is_bare_secret_word (fragment word : text) : bool :=
  let rest := lstrip_by (fun c => negb (class_az09 c)) fragment in
  bool_decide (map fold_case (take (length word) rest) = map fold_case word)
  && forallb (fun c => negb (class_az09 c)) (drop (length word) rest).

(** [re.fullmatch(r"[vq]?\d+", item)] *)
Definition version_item (item : text) : bool :=
  let digits := match item with c :: rest => if (c =? 118) || (c =? 113) then rest else item | [] => [] end in
  bool_decide (digits <> []) && forallb isdecimal digits.

(** What follows the first fragment that is the word, with only versions before it. *)
Fixpoint next_word (word : text) (between_ok : bool) (rest : list text) : option (list text) :=
  match rest with
  | [] => None
  | f :: rest' =>
      if _is_bare_secret_word f word && between_ok then Some rest'
      else next_word word (between_ok && version_item f) rest'
  end.

Fixpoint word_sequence (words : list text) (rest : list text) : bool :=
  match words with
  | [] => true
  | w :: words' => match next_word w true rest with Some rest' => word_sequence words' rest' | None => false end
  end.

Fixpoint sequence_somewhere (first : text) (others : list text) (normalized : list text) : bool :=
  match normalized with
  | [] => false
  | f :: rest => (_is_bare_secret_word f first && word_sequence others rest) || sequence_somewhere first others rest
  end.

(** [_has_bare_secret_word_sequence] *)
Definition _has_bare_secret_word_sequence (fragments matched_words : list text) : bool :=
  let normalized := map (fun f => casefold (strip f)) fragments in
  match matched_words with w :: ws => sequence_somewhere w ws normalized | [] => false end.

(** A field: its key, its text, and whether it is a key itself. *)
Definition nonblank_values (is_key : bool) (fields : list (text * text * bool)) : list text :=
  map (fun f => f.1.2) (List.filter (fun f => bool_decide (f.2 = is_key) && bool_decide (strip f.1.2 <> [])) fields).

(** [_bare_secret_name_fragments] *)
Definition _bare_secret_name_fragments (matched : text) (fragments : list text) (context_fields : list (text * text * bool)) : bool :=
  if bool_decide (matched = u "api key") then _has_bare_secret_word_sequence fragments [u "api"; u "key"]
  else if bool_decide (matched = u "private key") then
    existsb (fun group => _has_bare_secret_word_sequence group [u "private"; u "key"])
      [nonblank_values true context_fields; nonblank_values false context_fields]
  else false.

(** ** Limits and small checks *)

(** [_deadline_reached]: the result with the finding, and whether time is up. *)
Definition _deadline_reached (result : Verdict) (deadline : option Z) (time_limit_match : option string) : scan (Verdict * bool) :=
  is_late ← late deadline;
  mret (if is_late : bool then (add_finding (finding (py_or time_limit_match "time_limit") "span_limit") result, true) else (result, false)).

(** [_string_exceeds_scan_limit]: [None] when [encode] raises [UnicodeEncodeError]. *)
Definition _string_exceeds_scan_limit (value : text) : option bool :=
  if MAX_SCAN_FIELD_BYTES <? tlen value then Some true
  else if encodable value then Some (MAX_SCAN_FIELD_BYTES <? nbytes value) else None.

(** [_exceeds_non_ascii_budget] *)
Definition _exceeds_non_ascii_budget (value : text) (max_codepoints : Z) : bool :=
  max_codepoints <? Z.of_nat (length (List.filter (fun c => negb (isascii c)) value)).

(** [_add_unicode_findings] *)
Definition _add_unicode_findings (ts : list string) (r : Verdict) : Verdict :=
  let r := if elem "invisible"%string ts || elem "display_modifier_evasion"%string ts then add_finding (finding "invisible_unicode" "invisible_unicode") r else r in
  if elem "mixed_script"%string ts || elem "unmapped_confusable"%string ts then add_finding (finding "confusable_unicode" "confusable_unicode") r else r.

(** [hit in field] *)
Fixpoint contains (needle hay : text) : bool :=
  starts_text needle hay || match hay with [] => false | _ :: hay' => contains needle hay' end.

(** [_crosses_field_boundary] *)
Definition _crosses_field_boundary (hit : text) (fields : list text) : bool :=
  bool_decide (hit <> []) && negb (existsb (contains hit) fields).

(** ** Card numbers *)

Definition luhn_digit (double : bool) (value : Z) : Z :=
  if double then (if 9 <? value * 2 then value * 2 - 9 else value * 2) else value.

Fixpoint luhn_loop (parity index : nat) (digits : text) (total : Z) : Z :=
  match digits with
  | [] => total
  | c :: cs => luhn_loop parity (S index) cs (total + luhn_digit (index mod 2 =? parity)%nat (decimal_value c))
  end.

(** [_luhn_valid] *)
Definition _luhn_valid (digits : text) : bool :=
  if negb ((13 <=? length digits)%nat && (length digits <=? 19)%nat) || (length (dict_fromkeys digits) =? 1)%nat then false
  else luhn_loop (length digits mod 2) 0 digits 0 mod 10 =? 0.

(** [re.sub(r"\D", "", t)] *)
Definition only_digits (t : text) : text := List.filter isdecimal t.

(** [_keep_sensitive_detection] *)
Definition _keep_sensitive_detection (value : text) (hits : list text) : bool :=
  match finditer _CARD_NUMBER value with
  | [] => true
  | card_matches =>
      existsb (fun hit => negb (fullmatch _CARD_NUMBER (strip hit))) hits
      || existsb (fun m =>
           search _CARD_CONTEXT (slice (m_start m - _CARD_CONTEXT_RADIUS) (Nat.min (length value) (m_end m + _CARD_CONTEXT_RADIUS)) value)
           || _luhn_valid (only_digits (m_group m))) card_matches
  end.

(** [_sensitive_context_hits] *)
Definition _sensitive_context_hits (value : text) (ms : list re_match) : list text :=
  dict_fromkeys (concat (map (fun m =>
    let hit := m_group m in
    if negb (fullmatch _CARD_NUMBER (strip hit)) || _luhn_valid (only_digits hit) then [hit]
    else
      let start := (m_start m - _CARD_CONTEXT_RADIUS)%nat in
      let end_ := Nat.min (length value) (m_end m + _CARD_CONTEXT_RADIUS) in
      map (fun keyword => slice (Nat.min (m_start m) (start + m_start keyword)) (Nat.max (m_end m) (start + m_end keyword)) value)
        (finditer _CARD_CONTEXT (slice start end_ value))) ms)).
End rules.

(** ** The detectors *)

(** A hit of a detection: a string, an object with a [matched_text], or neither. *)
Inductive raw_hit := HitText (t : text) | HitMatched (t : text) | HitOther.

Record detection := mkDetection { dn_matched : bool; dn_detector : string; dn_severity : option string; dn_hits : list raw_hit }.

(** A detector of [agent_memory_guard]: [inspect], and the matches of its
    patterns in a text, in the order of its tables. *)
Record Detector := mkDetector { dt_inspect : text -> text -> string -> detection; dt_matches : text -> list re_match }.

Class Detectors := { _DETECTORS : list Detector }.

Section amg.
Context `{UnicodeDb} `{Clock} `{Confusables} `{Detectors}.

(** [_REASON_MAP.get(name, name)] *)
Definition _REASON_MAP (name : string) : string :=
  default name (dict_get name [("prompt_injection", "prompt_injection"); ("sensitive_data", "secret_like"); ("tool_abuse", "tool_abuse");
    ("privilege_escalation", "permission_rewrite"); ("excessive_autonomy", "excessive_autonomy")]%string).

(** The finding of a detection, when there is one. *)
Definition detector_finding (d : detection) (occurrences : list re_match) (candidate : text) (all_hits : bool) : option Finding :=
  if negb (dn_matched d) then None
  else
    let name := dn_detector d in
    let string_hits := omap (fun h => match h with HitText t => Some t | _ => None end) (dn_hits d) in
    let structured_hits := omap (fun h => match h with HitMatched t => Some t | _ => None end) (dn_hits d) in
    let hits := if all_hits then dict_fromkeys (map m_group occurrences) else string_hits ++ structured_hits in
    let sensitive := bool_decide (name = "sensitive_data"%string) in
    if sensitive && (negb all_hits || bool_decide (hits <> [])) && negb (_keep_sensitive_detection candidate hits) then None
    else
      let hits := if all_hits && sensitive then _sensitive_context_hits candidate occurrences else hits in
      Some (mkFinding (match string_hits with h :: _ => h | [] => u name end) (_REASON_MAP name) (Some name) (dn_severity d) hits).

(** [findings[index] = ...] for the first equal finding. *)
Fixpoint merge_hits (f : Finding) (findings : list Finding) : list Finding :=
  match findings with
  | [] => []
  | g :: rest =>
      if same_finding f g
      then mkFinding (fd_matched f) (fd_reason f) (fd_detector f) (fd_severity f) (dict_fromkeys (fd_hits g ++ fd_hits f)) :: rest
      else g :: merge_hits f rest
  end.

Definition collect_finding (all_hits : bool) (findings : list Finding) (f : Finding) : list Finding :=
  if negb (existsb (same_finding f) findings) then findings ++ [f] else if all_hits then merge_hits f findings else findings.

Fixpoint detectors_loop (deadline : option Z) (key : text) (operation : string) (all_hits : bool) (candidate : text) (ds : list Detector)
    (findings : list Finding) : scan (list Finding) :=
  match ds with
  | [] => mret findings
  | d :: rest =>
      raise_if_late deadline;;
      detectors_loop deadline key operation all_hits candidate rest
        (match detector_finding (dt_inspect d key candidate operation) (dt_matches d candidate) candidate all_hits with
         | Some f => collect_finding all_hits findings f
         | None => findings
         end)
  end.

Fixpoint candidates_loop (deadline : option Z) (key : text) (operation : string) (all_hits : bool) (candidates : list text)
    (findings : list Finding) : scan (list Finding) :=
  match candidates with
  | [] => mret findings
  | candidate :: rest =>
      findings ← detectors_loop deadline key operation all_hits candidate _DETECTORS findings;
      candidates_loop deadline key operation all_hits rest findings
  end.

(** [_amg_scan] *)
Definition _amg_scan (key value : text) (operation : string) (deadline : option Z) (all_hits : bool) : scan (list Finding) :=
  match value with
  | [] => mret []
  | _ =>
      preferred ← preferred_confusable_variant value deadline;
      official ← official_confusable_variant value deadline;
      candidates_loop deadline key operation all_hits (dict_fromkeys [value; preferred; official]) []
  end.
End amg.
