(* ===== verification/Base64.v ===== *)
(** * Encoded payloads

    Models [memory_router/security_base64.py]: the decoding of base64 text and what
    counts as plausible, the fragments of fields and their reassembly into
    candidates under work limits, the recovery of payloads from poisoned joins,
    and the scan of what is decoded. Texts are marked texts ([rtext]) where the
    code carries [ReviewedText] along; such a text is equal to the plain one. *)

From Stdlib Require Import ZArith Lia Ascii.
From stdpp Require Import base sets strings numbers list.
From S2P Require Import Prelude Errors Text Chars ScanModels RuleEdges ScanWindows Provenance UnicodeFold ScanRules.

Local Open Scope Z_scope.

Definition MAX_BASE64_SPANS : nat := 8.
Definition MAX_BASE64_DECODED_BYTES : Z := 16 * 1024.
Definition MAX_SPLIT_BASE64_CANDIDATES : nat := 64.
Definition MAX_SPLIT_BASE64_FIELDS : nat := 256.
Definition MAX_SPLIT_BASE64_SKIPS : Z := 2.
Definition MAX_SPLIT_BASE64_CANDIDATE_BYTES : Z := (MAX_BASE64_DECODED_BYTES + 2) / 3 * 4.
Definition MAX_SPLIT_BASE64_WORK_BYTES : Z := 512 * 1024.
Definition MAX_SPLIT_BASE64_RECOVERY_MIN_PARTS : nat := 3.
Definition MAX_SPLIT_BASE64_RECOVERY_PAIR_PARTS : nat := 64.
Definition MAX_SPLIT_BASE64_RECOVERY_TRIPLE_PARTS : nat := 32.
Definition MAX_SPLIT_BASE64_RECOVERY_ATTEMPTS : Z := 40000.
Definition MAX_SPLIT_BASE64_RECOVERY_WORK_BYTES : Z := 16 * 1024 * 1024.

(** ** Base64 *)

Definition pad : Z := 61.

(** The value of a character of the alphabet. *)
Definition b64_value (c : Z) : option Z :=
  if ascii_upper c then Some (c - 65)
  else if ascii_lower c then Some (c - 71)
  else if ascii_digit c then Some (c + 4)
  else if c =? 43 then Some 62
  else if c =? 47 then Some 63
  else None.

(** [[A-Za-z0-9+/]] and [[A-Za-z0-9+/=]] *)
Definition b64_char (c : Z) : bool := match b64_value c with Some _ => true | None => false end.
Definition b64_or_pad (c : Z) : bool := b64_char c || (c =? pad).

(** [base64.b64decode(t, validate=True)]; [None] is [binascii.Error]. *)
Fixpoint b64decode (t : text) : option (list Z) :=
  match t with
  | [] => Some []
  | a :: b :: c :: d :: rest =>
      match b64_value a, b64_value b with
      | Some va, Some vb =>
          if d =? pad then
            match rest with
            | [] =>
                if c =? pad then Some [va * 4 + vb / 16]
                else match b64_value c with Some vc => Some [va * 4 + vb / 16; vb mod 16 * 16 + vc / 4] | None => None end
            | _ => None
            end
          else match b64_value c, b64_value d with
          | Some vc, Some vd =>
              tail ← b64decode rest; Some (va * 4 + vb / 16 :: vb mod 16 * 16 + vc / 4 :: vc mod 4 * 64 + vd :: tail)
          | _, _ => None
          end
      | _, _ => None
      end
  | _ => None
  end.

(** [_CANONICAL_BASE64.fullmatch(t)] *)
Fixpoint canonical_base64 (t : text) : bool :=
  match t with
  | [] => true
  | a :: b :: c :: d :: rest =>
      if b64_char a && b64_char b && b64_char c && b64_char d then canonical_base64 rest
      else match rest with
      | [] => b64_char a && b64_char b && (((c =? pad) && (d =? pad)) || (b64_char c && (d =? pad)))
      | _ => false
      end
  | _ => false
  end.

(** [_padded_base64] *)
Definition _padded_base64 (candidate : text) : option text :=
  if bool_decide (candidate = []) || (length candidate mod 4 =? 1)%nat then None
  else if has pad candidate && negb (ends_with [pad] candidate) then None
  else
    let padded := candidate ++ replicate (Z.to_nat (- tlen candidate mod 4)) pad in
    if canonical_base64 padded then Some padded else None.

(** [_hard_base64_signal], [_weak_base64_signal] *)
Definition _hard_base64_signal (candidate : text) : bool := existsb (fun c => (c =? pad) || (c =? 43) || (c =? 47)) candidate.

(** The bytes [_lossy_scannable_ascii] counts. *)
Definition printable_byte (b : Z) : bool := between 32 126 b || (b =? 9) || (b =? 10) || (b =? 13).

(** [_lossy_scannable_ascii]; the quotient of the lengths that occur is at least
    the float [0.6] exactly when it is at least three fifths. *)
Definition _lossy_scannable_ascii (decoded : list Z) : bool :=
  match decoded with
  | [] => false
  | _ =>
      let printable := Z.of_nat (length (List.filter printable_byte decoded)) in
      (8 <=? printable) && (3 * tlen decoded <=? 5 * printable)
  end.

(** The dictionary of fragments already computed, when there is one. *)
Abbreviation fragments_t := (option (list (text * (option text * bool)))).

(** A candidate: the text joined so far and how many fragments it skipped. *)
Abbreviation cand := (rtext * Z)%type.

Section base64.
Context `{UnicodeDb}.

Definition _weak_base64_signal (candidate : text) : bool :=
  existsb ascii_lower candidate && existsb ascii_upper candidate && existsb isdecimal candidate.

(** [char.isprintable() or char in "\t\n\r"] *)
Definition visible (c : Z) : bool := isprintable c || tab_or_newline c.

(** [_decoded_text_variants] *)
Definition _decoded_text_variants (value : text) : list text :=
  let removed := List.filter visible value in
  let separated := map (fun c => if visible c then c else 32) value in
  dict_fromkeys (List.filter (fun t => bool_decide (strip t <> [])) [removed; separated]).

(** [_decode_base64_fragment] *)
Definition _decode_base64_fragment (fragment : text) : option text :=
  padded ← _padded_base64 fragment;
  decoded ← b64decode padded;
  if MAX_BASE64_DECODED_BYTES <? tlen decoded then None
  else match decode decoded with inl t => head (_decoded_text_variants t) | inr _ => None end.

(** [_lossy_ascii_decoded_text] *)
Definition _lossy_ascii_decoded_text (decoded : list Z) : option text :=
  let folded := map (fun c => if isascii c && visible c then c else 0) (decode_replace decoded) in
  if bool_decide (strip (strip_by (fun c => c =? 0) folded) <> []) then Some folded else None.

(** Bytes that are no UTF-8 but keep scannable ASCII. *)
Definition lossy_bytes (decoded : list Z) : bool :=
  match decode decoded with inl _ => false | inr _ => _lossy_scannable_ascii decoded end.

(** [_lossy_decodable_base64] *)
Definition _lossy_decodable_base64 (candidate : text) : bool :=
  if _hard_base64_signal candidate then false
  else match _padded_base64 candidate with
  | None => false
  | Some padded =>
      match b64decode padded with
      | None => false
      | Some decoded => if MAX_BASE64_DECODED_BYTES <? tlen decoded then false else lossy_bytes decoded
      end
  end.

(** The longest prefix of whole groups of four. *)
Definition whole_groups (fragment : text) : text := take (length fragment - length fragment mod 4) fragment.

(** [_lossy_viable_base64_prefix] *)
Definition _lossy_viable_base64_prefix (fragment : text) : bool :=
  if _hard_base64_signal fragment then false
  else match whole_groups fragment with
  | [] => false
  | prefix => match b64decode prefix with None => false | Some decoded => lossy_bytes decoded end
  end.

(** [_joined_base64_decodes_cleanly] *)
Definition _joined_base64_decodes_cleanly (joined : text) : bool :=
  match _padded_base64 joined with
  | None => false
  | Some padded =>
      match b64decode padded with
      | None => false
      | Some decoded =>
          if MAX_BASE64_DECODED_BYTES <? tlen decoded then false
          else match decode decoded with inl t => forallb visible t | inr _ => false end
      end
  end.

(** [_is_decoded_removable_character] *)
Definition _is_decoded_removable_character (c : Z) : bool := (c <? 32) || between 127 159 c || is_format c.

Definition readable_char (c : Z) : bool := isprintable c || isspace c.

(** [_viable_base64_prefix] *)
Definition _viable_base64_prefix (fragment : text) : bool :=
  match whole_groups fragment with
  | [] => true
  | prefix =>
      match b64decode prefix with
      | None => false
      | Some decoded =>
          match decode_incremental decoded with
          | None => false
          | Some t =>
              forallb readable_char t
              || (existsb readable_char t && forallb (fun c => readable_char c || _is_decoded_removable_character c) t)
          end
      end
  end.

(** [_looks_like_base64] *)
Definition _looks_like_base64 (candidate : text) : bool :=
  if (length candidate <? 8)%nat then false
  else match _padded_base64 candidate with
  | None => false
  | Some _ =>
      _hard_base64_signal candidate || _weak_base64_signal candidate
      || match _decode_base64_fragment candidate with Some _ => true | None => false end
  end.

Definition decodes (fragment : text) : bool := match _decode_base64_fragment fragment with Some _ => true | None => false end.

(** [_plausible_base64_fragment], [_credible_base64_prefix] *)
Definition _plausible_base64_fragment (fragment : text) : bool :=
  _hard_base64_signal fragment || _weak_base64_signal fragment || decodes fragment.
Definition _credible_base64_prefix (fragment : text) : bool :=
  if _hard_base64_signal fragment || _weak_base64_signal fragment then true
  else match _decode_base64_fragment fragment with
  | Some decoded =>
      (2 <=? length decoded)%nat && existsb ascii_lower fragment && existsb ascii_upper fragment
      && forallb (fun c => isalnum c || isspace c) decoded
  | None => false
  end.

(** [_advance_base64_prefix] *)
Definition _advance_base64_prefix (candidate part : text) : text * bool :=
  if has pad part then (candidate, false)
  else
    let combined := candidate ++ part in
    if (8 <=? length combined)%nat && decodes combined then (combined, true)
    else if (256 <? length combined)%nat then ([], true)
    else if _viable_base64_prefix combined then (combined, false)
    else if bool_decide (part <> combined) && _viable_base64_prefix part then (part, false)
    else ([], false).

(** The parts between the separators [+] and [/], which come in runs. *)
Definition alphabet_separator (c : Z) : bool := (c =? 43) || (c =? 47).
Fixpoint split_runs (p : Z -> bool) (t : text) : list text :=
  match t with
  | [] => [[]]
  | c :: t' =>
      if p c then match t' with d :: _ => if p d then split_runs p t' else [] :: split_runs p t' | [] => [[]; []] end
      else match split_runs p t' with part :: rest => (c :: part) :: rest | [] => [[c]] end
  end.

(** [_alphabet_separator_split_is_suspicious] *)
Definition _alphabet_separator_split_is_suspicious (fragment : text) : bool :=
  if MAX_SPLIT_BASE64_CANDIDATE_BYTES <? tlen fragment then false
  else if negb (existsb alphabet_separator fragment) then false
  else if decodes fragment then false
  else
    let viable_parts := List.filter (fun head => (2 <=? length head)%nat && _viable_base64_prefix head)
                          (map (head_before pad) (split_runs alphabet_separator fragment)) in
    if (4 <=? length viable_parts)%nat && (16 <=? list_sum (map length viable_parts))%nat then true
    else
      let stripped := List.filter (fun c => negb (alphabet_separator c)) fragment in
      if (8 <=? length stripped)%nat && decodes stripped then true
      else
        let head := head_before pad stripped in
        bool_decide (head <> stripped) && (8 <=? length head)%nat && decodes head.

(** ** The fragment of a field *)

(** [(?:part|chunk|fragment)\d*] with [re.I], on text of the alphabet. *)
Definition numbered_label (group : text) : bool :=
  existsb (fun w => bool_decide (map lower_ascii (take (length w) group) = w) && forallb isdecimal (drop (length w) group))
    (map u ["part"; "chunk"; "fragment"]%string).

(** What follows a colon after white space, a label with white space after its
    colon, and a quote before a colon, at the start of a text. *)
Definition colon_after (t : text) : option text := match lstrip_by isspace t with c :: rest => if c =? 58 then Some rest else None | [] => None end.
Definition label_after (t : text) : bool := match colon_after t with Some (c :: _) => isspace c | _ => false end.
Definition quote (c : Z) : bool := (c =? 34) || (c =? 39).
Definition json_label_after (t : text) : bool :=
  match t with c :: rest => quote c && match colon_after rest with Some _ => true | None => false end | [] => false end.

(** [_base64_part_is_label] *)
Definition _base64_part_is_label (value : text) (m : re_match) : bool :=
  let after := drop (m_end m) value in
  label_after after
  || (numbered_label (m_group m) && match colon_after after with Some _ => true | None => false end)
  || match m_start m with O => false | S i => match value !! i with Some c => quote c && json_label_after after | None => false end end.

(** What [_normalized_base64_fragment] keeps while it looks at the parts. *)
Record norm_state := mkNorm { no_parts : list text; no_count : nat; no_overflow : text; no_decodable : bool; no_equals : bool }.

Definition norm_part (st : norm_state) (part : text) : norm_state :=
  let '(overflow, found) := _advance_base64_prefix (no_overflow st) part in
  mkNorm (if (length (no_parts st) <? MAX_SPLIT_BASE64_FIELDS)%nat then no_parts st ++ [part] else no_parts st)
    (S (no_count st)) overflow (no_decodable st || found) (no_equals st || has pad part).

Context `{Clock}.

Fixpoint norm_loop (deadline : option Z) (value : text) (index : nat) (ms : list re_match) (st : norm_state) : scan (option norm_state) :=
  match ms with
  | [] => mret (Some st)
  | m :: rest =>
      is_late ← late_every deadline index;
      if is_late : bool then mret None
      else norm_loop deadline value (S index) rest (if _base64_part_is_label value m then st else norm_part st (m_group m))
  end.

(** What the parts amount to. *)
Definition norm_result (st : norm_state) : option text * bool :=
  if (MAX_SPLIT_BASE64_FIELDS <? no_count st)%nat then (None, no_decodable st || no_equals st)
  else match no_parts st with
  | [] => (None, false)
  | parts =>
      let joined := tjoin [] parts in
      if (16 <=? no_count st)%nat && match _padded_base64 joined with None => true | Some _ => false end && no_decodable st then (None, true)
      else (Some joined, false)
  end.

(** [_normalized_base64_fragment] *)
Definition _normalized_base64_fragment (value : text) (deadline : option Z) : scan (option text * bool) :=
  let stripped := strip value in
  match stripped with
  | [] => mret (None, false)
  | _ =>
      if forallb b64_or_pad stripped then mret (Some stripped, false)
      else
        st ← norm_loop deadline stripped 1 (finditer_runs b64_or_pad stripped) (mkNorm [] 0 [] false false);
        mret (match st with None => (None, true) | Some st => norm_result st end)
  end.

(** ** Reassembly of encoded fields *)

(** The fragment of a field, from the dictionary or computed and stored. *)
Definition cached_fragment (canonical : text) (deadline : option Z) (cache : fragments_t) : scan (option text * bool * fragments_t) :=
  match cache with
  | None => r ← _normalized_base64_fragment canonical deadline; mret (r, None)
  | Some d =>
      match dict_get canonical d with
      | Some r => mret (r, cache)
      | None => r ← _normalized_base64_fragment canonical deadline; mret (r, Some (dict_set canonical r d))
      end
  end.

Definition in_texts (r : rtext) (l : list rtext) : bool := existsb (fun s => bool_decide (rt_text s = rt_text r)) l.

(** [isinstance(value, ReviewedText) and reviewed(value)] is [reviewed]. *)
Record split_state := mkSplit {
  sp_completed : list rtext; sp_work : Z; sp_exhausted : bool; sp_uncond : bool; sp_soft : bool; sp_fields : nat
}.

Definition set_uncond (b : bool) (st : split_state) : split_state :=
  mkSplit (sp_completed st) (sp_work st) (sp_exhausted st) (sp_uncond st || b) (sp_soft st) (sp_fields st).
Definition set_soft (b : bool) (st : split_state) : split_state :=
  mkSplit (sp_completed st) (sp_work st) (sp_exhausted st) (sp_uncond st) (sp_soft st || b) (sp_fields st).

(** [preserve_completed] *)
Definition preserve_completed (value : rtext) (completed : list rtext) : list rtext :=
  let t := rt_text value in
  if (8 <=? length t)%nat && match _padded_base64 t with Some _ => true | None => false end && _looks_like_base64 t
     && (decodes t || _lossy_decodable_base64 t) && (negb (in_texts value completed) || negb (reviewed value))
  then List.filter (fun s => negb (bool_decide (rt_text s = t))) completed ++ [value]
  else completed.

(** [add]: the candidates, the state, and whether work is left. *)
Definition add_candidate (max_work_bytes : Z) (next : list cand) (value : rtext) (skipped : Z) (st : split_state) : list cand * split_state * bool :=
  let size := tlen (rt_text value) in
  if MAX_SPLIT_BASE64_CANDIDATE_BYTES <? size then (next, set_uncond true st, true)
  else if max_work_bytes <? sp_work st + size
  then (next, mkSplit (sp_completed st) (sp_work st) true (sp_uncond st) (sp_soft st) (sp_fields st), false)
  else
    let next := if reviewed value && has pad (rt_text value) then next else next ++ [(value, skipped)] in
    (next, mkSplit (preserve_completed value (sp_completed st)) (sp_work st + size) (sp_exhausted st) (sp_uncond st) (sp_soft st) (sp_fields st), true).

(** [join([candidate, fragment])] for marked fragments, [candidate + fragment] otherwise. *)
Definition combine (candidate fragment : rtext) : rtext :=
  if is_reviewed_text fragment then join [candidate; fragment] [] else plain (rt_text candidate ++ rt_text fragment).

(** The part of the inner loop that joins the fragment to a candidate: the
    candidates, the state, whether it was kept, and whether work is left. *)
Definition join_candidate (max_work_bytes : Z) (fragment : rtext) (e : cand) (next : list cand) (st : split_state) : list cand * split_state * bool * bool :=
  let '(candidate, skipped) := e in
  if has pad (rt_text candidate) then (next, st, false, true)
  else
    let combined := combine candidate fragment in
    let st := set_uncond (_alphabet_separator_split_is_suspicious (rt_text combined)) st in
    if tlen (rt_text combined) <=? MAX_SPLIT_BASE64_CANDIDATE_BYTES
    then let '(next, st, ok) := add_candidate max_work_bytes next combined skipped st in (next, st, true, ok)
    else (next, st, false, true).

(** The inner loop over the candidates; it ends early when time or work is up. *)
Fixpoint extend_loop (deadline : option Z) (max_work_bytes : Z) (fragment : rtext) (cands next : list cand) (st : split_state)
    : scan (list cand * split_state) :=
  match cands with
  | [] => mret (next, st)
  | (candidate, skipped) :: rest =>
      is_late ← late deadline;
      if is_late : bool then mret (next, set_uncond true st)
      else
        let st := set_soft ((MAX_SPLIT_BASE64_SKIPS <=? skipped) && _credible_base64_prefix (rt_text candidate)) st in
        let '(next, st, preserved, ok) := join_candidate max_work_bytes fragment (candidate, skipped) next st in
        if negb ok then mret (next, st)
        else if skipped <? MAX_SPLIT_BASE64_SKIPS then
          let '(next, st, ok) := add_candidate max_work_bytes next candidate (skipped + 1) st in
          if negb ok then mret (next, st) else extend_loop deadline max_work_bytes fragment rest next st
        else
          extend_loop deadline max_work_bytes fragment rest next
            (set_soft (negb preserved && negb (in_texts candidate (sp_completed st)) && _looks_like_base64 (rt_text candidate)) st)
  end.

(** Equality of candidates. *)
Definition same_cand (a b : cand) : bool := bool_decide (rt_text a.1 = rt_text b.1) && (a.2 =? b.2).

(** [key=lambda value: (-len(text), skipped)] *)
Definition longer_first (n1 : nat) (k1 : Z) (n2 : nat) (k2 : Z) : bool := (n2 <? n1)%nat || ((n1 =? n2)%nat && (k1 <=? k2)).

(** The dictionary of [_dedupe_split_candidates]. *)
Definition unique_cand (unique : list cand) (v : cand) : list cand :=
  let unique := if is_reviewed_text v.1 && negb (reviewed v.1) then List.filter (fun w => negb (same_cand v w)) unique else unique in
  if existsb (same_cand v) unique then unique else unique ++ [v].

(** [_dedupe_split_candidates] *)
Definition _dedupe_split_candidates (values : list cand) : list cand :=
  take MAX_SPLIT_BASE64_CANDIDATES
    (sorted_by (fun a b => longer_first (length (rt_text a.1)) a.2 (length (rt_text b.1)) b.2) (fold_left unique_cand values [])).

(** [len(set(next_candidates))] *)
Definition distinct_cands (l : list cand) : nat := length (dict_fromkeys (map (fun e : cand => (rt_text e.1, e.2)) l)).

(** One field of [_split_base64_candidates] whose fragment fits: the candidates
    for the next field, the state, and whether to go on. *)
Definition split_field (deadline : option Z) (max_work_bytes : Z) (fragment : rtext) (cands : list cand) (st : split_state)
    : scan (list cand * split_state * bool) :=
  let t := rt_text fragment in
  let plausible := _plausible_base64_fragment t in
  let st := set_uncond (_alphabet_separator_split_is_suspicious t) st in
  if MAX_SPLIT_BASE64_CANDIDATE_BYTES <? tlen t
  then mret (cands, set_uncond (plausible || existsb (fun e : cand => _credible_base64_prefix (rt_text e.1)) cands) st, true)
  else
    let '(next, st, ok) := add_candidate max_work_bytes [] fragment 0 st in
    if negb ok then mret (cands, st, false)
    else
      r ← extend_loop deadline max_work_bytes fragment cands next st;
      let '(next, st) := r : list cand * split_state in
      let next := List.filter (fun e : cand => _viable_base64_prefix (rt_text e.1) || _lossy_viable_base64_prefix (rt_text e.1)) next in
      let counted := plausible || existsb (fun e : cand => _credible_base64_prefix (rt_text e.1)) next in
      let st := mkSplit (sp_completed st) (sp_work st) (sp_exhausted st) (sp_uncond st) (sp_soft st) (if counted then S (sp_fields st) else sp_fields st) in
      if counted && (MAX_SPLIT_BASE64_FIELDS <? sp_fields st)%nat then mret (cands, set_uncond true st, false)
      else
        let st := set_soft (MAX_SPLIT_BASE64_CANDIDATES <? distinct_cands next)%nat st in
        mret (_dedupe_split_candidates next, st, negb (sp_exhausted st)).

(** A fragment of a marked field bears the mark of the field. *)
Definition with_origin (canonical : rtext) (t : text) : rtext :=
  if is_reviewed_text canonical then mkR t (Some (TInt (occurrence_origin canonical))) else plain t.

Fixpoint split_fields_loop (deadline : option Z) (max_work_bytes : Z) (fields : list rtext) (cache : fragments_t) (cands : list cand) (st : split_state)
    : scan (split_state * fragments_t) :=
  match fields with
  | [] => mret (st, cache)
  | canonical :: rest =>
      is_late ← late deadline;
      if is_late : bool then mret (set_uncond true st, cache)
      else
        r ← cached_fragment (rt_text canonical) deadline cache;
        let '(fragment, fragment_exhausted, cache) := r : option text * bool * fragments_t in
        let st := set_uncond fragment_exhausted st in
        match fragment with
        | None => split_fields_loop deadline max_work_bytes rest cache cands st
        | Some fragment =>
            r ← split_field deadline max_work_bytes (with_origin canonical fragment) cands st;
            let '(cands, st, go_on) := r : list cand * split_state * bool in
            if go_on then split_fields_loop deadline max_work_bytes rest cache cands st else mret (st, cache)
        end
  end.

(** [_split_base64_candidates] over the texts of the fields: the completed
    candidates, whether something was left out, and the dictionary. *)
Definition _split_base64_candidates (fields : list rtext) (deadline : option Z) (cache : fragments_t) (max_work_bytes : Z)
    : scan (list rtext * bool * fragments_t) :=
  r ← split_fields_loop deadline max_work_bytes fields cache [] (mkSplit [] 0 false false false 0);
  let '(st, cache) := r : split_state * fragments_t in
  mret (sp_completed st, sp_uncond st || sp_soft st || sp_exhausted st, cache).

(** ** Reassembly of decoded fields *)

(** [_DecodedBase64Candidate] *)
Record dcand := mkDcand { dc_compact : rtext; dc_spaced : rtext; dc_parts : Z; dc_skipped : Z; dc_terminated : bool; dc_credible : bool }.

Definition same_dcand (a b : dcand) : bool :=
  bool_decide (rt_text (dc_compact a) = rt_text (dc_compact b)) && bool_decide (rt_text (dc_spaced a) = rt_text (dc_spaced b))
  && (dc_parts a =? dc_parts b) && (dc_skipped a =? dc_skipped b) && Bool.eqb (dc_terminated a) (dc_terminated b) && Bool.eqb (dc_credible a) (dc_credible b).

(** The state of the decoded reassembly: work, exhausted, soft exhausted. *)
Record dec_state := mkDec { de_work : Z; de_exhausted : bool; de_soft : bool }.

Definition exhaust (b : bool) (st : dec_state) : dec_state := mkDec (de_work st) (de_exhausted st || b) (de_soft st).
Definition soften (b : bool) (st : dec_state) : dec_state := mkDec (de_work st) (de_exhausted st) (de_soft st || b).

(** [add] *)
Definition add_decoded (max_work_bytes : Z) (target : list dcand) (c : dcand) (st : dec_state) : list dcand * dec_state * bool :=
  let size := nbytes (rt_text (dc_compact c)) + nbytes (rt_text (dc_spaced c)) in
  if max_work_bytes <? size then (target, exhaust true st, true)
  else if max_work_bytes <? de_work st + size then (target, exhaust true st, false)
  else (target ++ [c], mkDec (de_work st + size) (de_exhausted st) (de_soft st), true).

Definition join_decoded (c : dcand) (decoded : rtext) (credible : bool) : dcand :=
  mkDcand
    (if is_reviewed_text decoded then bound (join [dc_compact c; decoded] []) false
     else plain (_bounded_utf8_suffix (encode (rt_text (dc_compact c) ++ rt_text decoded))))
    (if is_reviewed_text decoded then bound (join [dc_spaced c; decoded] space) false
     else plain (_bounded_append (rt_text (dc_spaced c)) (rt_text decoded)))
    (dc_parts c + 1) (dc_skipped c) (dc_terminated c) (dc_credible c || credible).

Definition skip_decoded (c : dcand) : dcand :=
  mkDcand (dc_compact c) (dc_spaced c) (dc_parts c) (dc_skipped c + 1) (dc_terminated c) (dc_credible c).

Fixpoint decoded_loop (deadline : option Z) (max_work_bytes : Z) (decoded : rtext) (credible : bool) (cands next : list dcand) (st : dec_state)
    : scan (list dcand * dec_state) :=
  match cands with
  | [] => mret (next, st)
  | c :: rest =>
      is_late ← late deadline;
      if is_late : bool then mret (next, exhaust true st)
      else
        let '(next, st, ok) := add_decoded max_work_bytes next (join_decoded c decoded credible) st in
        if negb ok then mret (next, exhaust true st)
        else
          let '(next, st, ok) := if dc_skipped c <? MAX_SPLIT_BASE64_SKIPS then add_decoded max_work_bytes next (skip_decoded c) st else (next, st, true) in
          if negb ok then mret (next, exhaust true st)
          else decoded_loop deadline max_work_bytes decoded credible rest next
                 (soften ((MAX_SPLIT_BASE64_SKIPS <=? dc_skipped c) && (dc_credible c || credible)) st)
  end.

(** [dict.fromkeys] of the candidates, the ones that are not reviewed first. *)
Definition unique_decoded (l : list dcand) : list dcand :=
  fold_left (fun u c => if existsb (same_dcand c) u then u else u ++ [c])
    (List.filter (fun c => negb (reviewed (dc_compact c))) l ++ List.filter (fun c => reviewed (dc_compact c)) l) [].

Definition sort_decoded (l : list dcand) : list dcand :=
  sorted_by (fun a b => longer_first (length (rt_text (dc_compact a))) (dc_skipped a) (length (rt_text (dc_compact b))) (dc_skipped b)) l.

Fixpoint decoded_fields_loop (deadline : option Z) (max_work_bytes : Z) (fields : list rtext) (cache : fragments_t) (count : nat) (cands : list dcand)
    (st : dec_state) : scan (list dcand * dec_state * fragments_t) :=
  match fields with
  | [] => mret (cands, st, cache)
  | canonical :: rest =>
      is_late ← late deadline;
      if is_late : bool then mret (cands, exhaust true st, cache)
      else
        r ← cached_fragment (rt_text canonical) deadline cache;
        let '(fragment, fragment_exhausted, cache) := r : option text * bool * fragments_t in
        let st := exhaust fragment_exhausted st in
        match fragment ≫= fun f => t ← _decode_base64_fragment f; Some (f, t) with
        | None => decoded_fields_loop deadline max_work_bytes rest cache count cands st
        | Some (fragment, t) =>
            let decoded := with_origin canonical t in
            let credible := _credible_base64_prefix fragment in
            if (MAX_SPLIT_BASE64_FIELDS <? S count)%nat then mret (cands, exhaust true st, cache)
            else
              let '(next, st, ok) := add_decoded max_work_bytes [] (mkDcand decoded decoded 1 0 true credible) st in
              if negb ok then mret (cands, st, cache)
              else
                r ← decoded_loop deadline max_work_bytes decoded credible cands next st;
                let '(next, st) := r : list dcand * dec_state in
                let unique := unique_decoded next in
                let st := soften ((MAX_SPLIT_BASE64_CANDIDATES <? length unique)%nat && existsb dc_credible unique) st in
                let cands := take MAX_SPLIT_BASE64_CANDIDATES (sort_decoded unique) in
                if de_exhausted st then mret (cands, st, cache)
                else decoded_fields_loop deadline max_work_bytes rest cache (S count) cands st
        end
  end.

(** [_split_decoded_base64_candidates] *)
Definition _split_decoded_base64_candidates (fields : list rtext) (deadline : option Z) (cache : fragments_t) (max_work_bytes : Z)
    : scan (list (rtext * rtext) * bool * fragments_t) :=
  r ← decoded_fields_loop deadline max_work_bytes fields cache 0 [] (mkDec 0 false false);
  let '(cands, st, cache) := r : list dcand * dec_state * fragments_t in
  mret (map (fun c => (dc_compact c, dc_spaced c)) (List.filter (fun c => (2 <=? dc_parts c) && dc_terminated c) cands),
        de_exhausted st || de_soft st, cache).
End base64.
