(* ===== verification/EncodedScan.v ===== *)
(** * The scan of encoded payloads

    The second half of [memory_router/security_base64.py]: the recovery of
    payloads from a join that was poisoned with foreign parts
    ([_recover_base64_edge_fragments]) and the scan of every payload of a text
    ([_scan_encoded]), with the counters of [_EncodedState]. *)

From Stdlib Require Import ZArith Lia Ascii.
From stdpp Require Import base sets strings numbers list.
From S2P Require Import Prelude Errors Text Chars ScanModels RuleEdges ScanWindows Provenance UnicodeFold ScanRules Base64.

Local Open Scope Z_scope.

(** ** Recovery *)

Section recovery.
Context `{UnicodeDb} `{Clock}.

(** The loop that collects the parts: [None] when there are too many. *)
Fixpoint parts_loop (deadline : option Z) (value : text) (index : nat) (ms : list re_match) (parts : list text) : scan (option (list text)) :=
  match ms with
  | [] => mret (Some parts)
  | m :: rest =>
      is_late ← late_every deadline index;
      if is_late : bool then raise UnicodeScanDeadlineExceeded
      else if _base64_part_is_label value m then parts_loop deadline value (S index) rest parts
      else
        let parts := parts ++ [m_group m] in
        if (MAX_SPLIT_BASE64_FIELDS <? length parts)%nat then mret None
        else parts_loop deadline value (S index) rest parts
  end.

(** What [probe] and [keep] share. *)
Record probe_state := mkProbe { pr_attempts : Z; pr_work : Z; pr_cut_short : bool; pr_near : bool; pr_found : list text }.

Definition signaled (candidate : text) : bool := _hard_base64_signal candidate || _weak_base64_signal candidate.

(** [probe] *)
Definition probe (deadline : option Z) (clean_join : bool) (candidate : text) (st : probe_state) : scan (bool * probe_state) :=
  let size := tlen candidate in
  if (size <? 8) || (size mod 4 =? 1) then mret (false, st)
  else
    raise_if_late deadline;;
    if (MAX_SPLIT_BASE64_RECOVERY_ATTEMPTS <=? pr_attempts st) || (MAX_SPLIT_BASE64_RECOVERY_WORK_BYTES <? pr_work st + size)
    then mret (false, mkProbe (pr_attempts st) (pr_work st) true (pr_near st) (pr_found st))
    else
      let charged near := mkProbe (pr_attempts st + 1) (pr_work st + size) (pr_cut_short st) near (pr_found st) in
      if clean_join then mret (signaled candidate && _joined_base64_decodes_cleanly candidate, charged (pr_near st))
      else if decodes candidate then mret (if signaled candidate then (true, charged true) else (false, charged (pr_near st)))
      else mret (false, charged (if negb (pr_near st) && signaled candidate then _viable_base64_prefix candidate else pr_near st)).

(** [keep] *)
Definition keep (candidate : text) (st : probe_state) : probe_state :=
  mkProbe (pr_attempts st) (pr_work st) (pr_cut_short st) (pr_near st)
    (if (length (pr_found st) <? S MAX_BASE64_SPANS)%nat && negb (elem candidate (pr_found st)) then pr_found st ++ [candidate] else pr_found st).

(** A loop of probes. [until_cut] is the test [if cut_short: break] before each
    one, [first_only] the [break] after a success. *)
Fixpoint probe_loop (deadline : option Z) (clean_join until_cut first_only : bool) (candidates : list text) (st : probe_state) : scan probe_state :=
  match candidates with
  | [] => mret st
  | candidate :: rest =>
      if until_cut && pr_cut_short st then mret st
      else
        r ← probe deadline clean_join candidate st;
        let '(hit, st) := r : bool * probe_state in
        if hit then if first_only then mret (keep candidate st) else probe_loop deadline clean_join until_cut first_only rest (keep candidate st)
        else probe_loop deadline clean_join until_cut first_only rest st
  end.

(** [joined[offsets[start]:offsets[stop]]]: the offsets are where the parts begin. *)
Definition window_of (parts : list text) (start stop : nat) : text := tjoin [] (take (stop - start) (drop start parts)).

(** The windows from each start, the longest first. *)
Fixpoint windows_loop (deadline : option Z) (clean_join : bool) (parts : list text) (starts : list nat) (st : probe_state) : scan probe_state :=
  match starts with
  | [] => mret st
  | start :: rest =>
      if pr_cut_short st then mret st
      else
        let count := length parts in
        let stops := List.filter (fun stop => negb ((start =? 0)%nat && (stop =? count)%nat)) (rev (seq (start + 2) (count - (start + 1)))) in
        st ← probe_loop deadline clean_join false true (map (window_of parts start) stops) st;
        windows_loop deadline clean_join parts rest st
  end.

(** The pass that looks for a decodable prefix across the parts. *)
Fixpoint evidence_loop (deadline : option Z) (tracker : text) (parts : list text) (near : bool) : scan bool :=
  match parts with
  | [] => mret near
  | part :: rest =>
      raise_if_late deadline;;
      let '(tracker, found) := _advance_base64_prefix tracker part in
      evidence_loop deadline tracker rest (near || (found && signaled tracker))
  end.

(** The joins that drop [k] of the parts. *)
Definition dropping (k : nat) (parts : list text) : list text :=
  map (fun omitted => tjoin [] (omit omitted parts)) (combinations k (seq 0 (length parts))).

(** The search through the joins of a collection of parts. *)
Definition recover_parts (deadline : option Z) (parts : list text) : scan (list text * bool) :=
  let count := length parts in
  let joined := tjoin [] parts in
  let clean_join := decodes joined && _joined_base64_decodes_cleanly joined in
  let garbled_decode := decodes joined && negb (_joined_base64_decodes_cleanly joined) in
  near ← (if clean_join then mret (garbled_decode && signaled joined) else evidence_loop deadline [] parts (garbled_decode && signaled joined));
  let st := mkProbe 0 0 false near [] in
  st ← probe_loop deadline clean_join false true (map (window_of parts 0) (rev (seq 1 (count - 1)))) st;
  st ← probe_loop deadline clean_join false true (map (fun start => window_of parts start count) (seq 1 (count - 1))) st;
  st ← probe_loop deadline clean_join true false (dropping 1 parts) st;
  let pairs_skipped := (MAX_SPLIT_BASE64_RECOVERY_PAIR_PARTS <? count)%nat in
  st ← (if pairs_skipped then mret st else probe_loop deadline clean_join true false (dropping 2 parts) st);
  st ← (if (count <=? MAX_SPLIT_BASE64_RECOVERY_TRIPLE_PARTS)%nat then probe_loop deadline clean_join true false (dropping 3 parts) st else mret st);
  st ← windows_loop deadline clean_join parts (seq 0 count) st;
  mret (pr_found st,
    if clean_join then false
    else bool_decide (pr_found st = []) && (8 <=? count)%nat && pr_near st && (pr_cut_short st || pairs_skipped)).

(** [_recover_base64_edge_fragments] *)
Definition _recover_base64_edge_fragments (value : text) (deadline : option Z) : scan (list text * bool) :=
  parts ← parts_loop deadline value 0 (finditer_runs b64_or_pad value) [];
  match parts with
  | None => mret ([], false)
  | Some parts =>
      let size := tlen (tjoin [] parts) in
      if (length parts <? MAX_SPLIT_BASE64_RECOVERY_MIN_PARTS)%nat || negb ((8 <=? size) && (size <=? MAX_SPLIT_BASE64_CANDIDATE_BYTES))
      then mret ([], false)
      else recover_parts deadline parts
  end.
End recovery.

(** ** The scan *)

(** [_EncodedState] *)
Record EncodedState := mkEncoded { es_spans : nat; es_decoded_bytes : Z; es_seen : list text }.

Definition new_encoded : EncodedState := mkEncoded 0 0 [].

(** What a scan changes: the readings of the clock, the result and the counters. *)
Record enc_world := mkEnc { ew_clock : nat; ew_result : Verdict; ew_state : EncodedState }.

(** A computation that reads the clock only. *)
Definition ticking {A} (m : scan A) : eff enc_world A := fun w =>
  match m (ew_clock w) with (r, n) => (r, mkEnc n (ew_result w) (ew_state w)) end.

Definition on_result (f : Verdict -> Verdict) : eff enc_world unit := modify (fun w => mkEnc (ew_clock w) (f (ew_result w)) (ew_state w)).
Definition set_encoded (st : EncodedState) : eff enc_world unit := modify (fun w => mkEnc (ew_clock w) (ew_result w) st).

(** [_BASE64_RUN.finditer]: the maximal runs of at least eight characters. *)
Definition base64_runs (canonical : text) : list text :=
  List.filter (fun g => (8 <=? length g)%nat) (map m_group (finditer_runs b64_or_pad canonical)).

Section encoded.
Context `{UnicodeDb} `{Clock} `{Confusables} `{Detectors}.

(** The texts a payload decodes to, with what is reported on the way: [None]
    when it is passed over. The flag tells a lossy decoding. *)
Definition payload_text (candidate : text) (fail_closed_invalid : bool) : eff enc_world (option (text * bool)) :=
  let fail_closed := fail_closed_invalid && ends_with [pad] candidate in
  let invalid matched := (if fail_closed then on_result (add_finding (finding matched "encoded_payload")) else mret ());; mret None in
  match _padded_base64 candidate ≫= b64decode with
  | None => invalid "invalid_base64"%string
  | Some decoded =>
      w ← get_state;
      let st := ew_state w in
      if (MAX_BASE64_DECODED_BYTES <? tlen decoded) || (MAX_BASE64_DECODED_BYTES <? es_decoded_bytes st + tlen decoded)
      then (if fail_closed_invalid then on_result (add_finding (finding "decoded_size_limit" "encoded_payload")) else mret ());; mret None
      else
        set_encoded (mkEncoded (es_spans st) (es_decoded_bytes st + tlen decoded) (es_seen st));;
        match decode decoded with
        | inl t => mret (Some (t, false))
        | inr _ =>
            if fail_closed then invalid "invalid_utf8"%string
            else mret (match _lossy_ascii_decoded_text decoded with Some t => Some (t, true) | None => None end)
        end
  end.

(** The variants of a decoded text that are scanned. *)
Definition payload_variants (candidate decoded_text : text) (lossy : bool) : list text :=
  match _decoded_text_variants decoded_text with
  | [] => []
  | sanitized => if _hard_base64_signal candidate && negb lossy then dict_fromkeys (decoded_text :: sanitized) else sanitized
  end.

(** The scan of one variant, without the one it contains. *)
Definition scan_variant (key : text) (operation : string) (deadline : option Z) (variant : text) : eff enc_world text :=
  r ← ticking (canonicalize_content variant deadline);
  let '(canonical, ts) := r : text * list string in
  on_result (add_transformations ts);;
  (if (8 <=? length variant)%nat then on_result (_add_unicode_findings ts) else mret ());;
  rules ← ticking (_rule_scan canonical deadline (elem "keycap"%string ts) false);
  detected ← ticking (_amg_scan (key ++ u ".base64") canonical operation deadline false);
  (match rules ++ detected with
   | [] => mret ()
   | hits => on_result (fun r => add_findings hits (add_finding (finding "unsafe_base64" "encoded_payload") r))
   end);;
  mret canonical.

(** The state after one more span, when the candidate is scanned at all. *)
Definition open_span (candidate : text) (st : EncodedState) : option EncodedState :=
  if elem candidate (es_seen st) || (negb (_hard_base64_signal candidate) && negb (_looks_like_base64 candidate)) then None
  else Some (mkEncoded (S (es_spans st)) (es_decoded_bytes st) (es_seen st ++ [candidate])).

(** [_scan_encoded]; [inner] is the scan of a decoded text one level below. *)
Section level.
Context (inner : text -> text -> eff enc_world unit).

Definition scan_variants_of (key : text) (operation : string) (deadline : option Z) (lossy : bool) (variants : list text) : eff enc_world unit :=
  for_each (fun variant =>
    canonical ← scan_variant key operation deadline variant;
    if lossy then mret () else inner (key ++ u ".base64") canonical) variants.

Fixpoint candidates_scan (key : text) (operation : string) (fail_closed_invalid : bool) (deadline : option Z) (candidates : list text) : eff enc_world unit :=
  match candidates with
  | [] => mret ()
  | candidate :: rest =>
      ticking (raise_if_late deadline);;
      w ← get_state;
      match open_span candidate (ew_state w) with
      | None => candidates_scan key operation fail_closed_invalid deadline rest
      | Some st =>
          set_encoded st;;
          if (MAX_BASE64_SPANS <? es_spans st)%nat then on_result (add_finding (finding "span_limit" "encoded_payload"))
          else
            payload ← payload_text candidate fail_closed_invalid;
            (match payload with
             | None => mret ()
             | Some (t, lossy) => scan_variants_of key operation deadline lossy (payload_variants candidate t lossy)
             end);;
            candidates_scan key operation fail_closed_invalid deadline rest
      end
  end.

Definition scan_level (key : text) (canonical : rtext) (operation : string) (fail_closed_invalid : bool) (deadline : option Z) : eff enc_world unit :=
  if reviewed canonical then mret ()
  else
    r ← ticking (_recover_base64_edge_fragments (rt_text canonical) deadline);
    let '(recovered, recovery_fail_closed) := r : list text * bool in
    (if recovery_fail_closed then on_result (add_finding (finding "split_base64_limit" "span_limit")) else mret ());;
    candidates_scan key operation fail_closed_invalid deadline (dict_fromkeys (recovered ++ base64_runs (rt_text canonical))).
End level.

(** The scan at depth one scans no deeper. *)
Definition _scan_encoded (key : text) (canonical : rtext) (operation : string) (fail_closed_invalid : bool) (deadline : option Z) : eff enc_world unit :=
  scan_level (fun key' decoded => scan_level (fun _ _ => mret ()) key' (plain decoded) operation fail_closed_invalid deadline)
    key canonical operation fail_closed_invalid deadline.
End encoded.
