(* ===== verification/Approval.v ===== *)
(** * Approved findings

    The rest of [memory_router/security_provenance.py]: when a finding of a window
    is exempt because all its occurrences, in every form of the window the rules
    look at, lie in text of one approved field ([wholly_reviewed]). *)

From Stdlib Require Import ZArith Lia Ascii.
From stdpp Require Import base sets strings numbers list.
From S2P Require Import Prelude Errors Text Chars ScanModels RuleEdges ScanWindows Provenance UnicodeFold Regex ScanRules.

Local Open Scope Z_scope.

(** How [re.I] compares a character outside ASCII of a pattern with one of a text. *)
Class CaseDb := { db_same_case : Z -> Z -> bool }.

Section approval.
Context `{UnicodeDb} `{Confusables} `{CaseDb}.

(** The characters of a text at the positions that are kept, with their marks. *)
Definition keep_at (r : rtext) (kept : list bool) : rtext :=
  let pick {A} (l : list A) := omap (fun e : bool * A => if e.1 then Some e.2 else None) (zip kept l) in
  mkR (pick (rt_text r)) (Some (TFlags (pick (flags_for r)))).

(** The positions outside [_IN_WORD_DIGIT.finditer(t)]. *)
Fixpoint outside_digits (prev : option Z) (t : text) : list bool :=
  match t with
  | [] => []
  | c :: t' => negb (isdecimal c && at_char ascii_letter prev && at_char ascii_letter (head t')) :: outside_digits (Some c) t'
  end.

(** The forms [_rule_variants] makes of one text. *)
Definition forms_of (original : rtext) : list rtext :=
  let without_digits := keep_at original (outside_digits None (rt_text original)) in
  concat (map (fun value =>
    concat (map (fun rendered => [rendered; keep_at rendered (map (fun c => negb (isspace c)) (rt_text rendered))])
      [value; mkR (punctuation_to_spaces (rt_text value)) (rt_trust value)]))
    [original; without_digits]).

(** [_rule_variants] *)
Definition _rule_variants (originals : list rtext) : list rtext := concat (map forms_of originals).

(** [re.finditer(re.escape(hit), t, re.I)]: where the matches start. *)
Definition same_char (lit c : Z) : bool := if isascii lit then same_letter lit c else db_same_case lit c.

Fixpoint starts_ignoring_case (hit t : text) : bool :=
  match hit, t with
  | [], _ => true
  | h :: hit', c :: t' => same_char h c && starts_ignoring_case hit' t'
  | _, [] => false
  end.

Fixpoint occurrences_from (hit : text) (pos skip : nat) (t : text) : list nat :=
  match t with
  | [] => match skip, hit with O, [] => [pos] | _, _ => [] end
  | _ :: t' =>
      match skip with
      | S k => occurrences_from hit (S pos) k t'
      | O => if starts_ignoring_case hit t then pos :: occurrences_from hit (S pos) (length hit - 1) t' else occurrences_from hit (S pos) 0 t'
      end
  end.
Definition occurrences_of (hit t : text) : list nat := occurrences_from hit 0 0 t.

(** Whether the match at a position is of one approved field. *)
Definition match_reviewed (variant : rtext) (hit : text) (start : nat) : bool := reviewed (slice_text variant start (Some (start + length hit)%nat)).

(** [_hit_wholly_reviewed] *)
Definition _hit_wholly_reviewed (hit : text) (variants : list rtext) : bool :=
  forallb (fun variant => forallb (match_reviewed variant hit) (occurrences_of hit (rt_text variant))) variants
  && existsb (fun variant => match occurrences_of hit (rt_text variant) with [] => false | _ => true end) variants.

(** [fold(char)] for the two folds. *)
Definition official_fold (c : Z) : text := if isascii c then [c] else official_char c.

(** A window with every character folded, the marks repeated. *)
Definition folded (fold : Z -> text) (window : rtext) : rtext :=
  let pieces := map (fun e : Z * Z => (fold e.1, e.2)) (zip (rt_text window) (flags_for window)) in
  mkR (concat (map fst pieces)) (Some (TFlags (concat (map (fun p : text * Z => replicate (length p.1) p.2) pieces)))).

Context `{Clock}.

(** [wholly_reviewed] *)
Definition wholly_reviewed (f : Finding) (window : rtext) : scan bool :=
  if bool_decide (fd_reason f = "span_limit"%string) || bool_decide (fd_hits f = []) then mret false
  else if all_ascii (rt_text window) then mret (forallb (fun hit => _hit_wholly_reviewed hit (_rule_variants [window])) (fd_hits f))
  else
    let originals := [window; folded preferred_char window; folded official_fold window] in
    vs ← confusable_rule_variant_set (rt_text window) None;
    mret (if vs_exhausted vs || existsb (fun v => negb (elem v (map rt_text originals))) (vs_variants vs) then reviewed window
          else forallb (fun hit => _hit_wholly_reviewed hit (_rule_variants originals)) (fd_hits f)).
End approval.
