(* ===== verification/FieldWalk.v ===== *)
(** * The fields of a value

    Models the traversal of [memory_router/security.py]: [_walk_strings] with its
    stack of iterators, [_walk_children], and the spellings of numbers. A Python
    value of the scanner is a [tree]: a JSON value whose texts are code points and
    may bear marks. The traversal is shown to list the fields in the order of the
    document, keys before what they hold. *)

From Stdlib Require Import ZArith Lia Ascii.
From stdpp Require Import base sets strings numbers list.
From S2P Require Import Prelude Errors Text Json JsonParse Hindsight Chars ScanModels RuleEdges ScanWindows Provenance.

Local Open Scope Z_scope.
Local Set Warnings "-register-all".

(** ** Values *)

(** The code points of a [str] that is given by its UTF-8 bytes, in which lone
    surrogates may stand. *)
Fixpoint points_from (l : list Z) : text :=
  match l with
  | [] => []
  | a :: l1 =>
      if a <? 192 then a :: points_from l1
      else match l1 with
      | [] => []
      | b :: l2 =>
          if a <? 224 then (a - 192) * 64 + (b - 128) :: points_from l2
          else match l2 with
          | [] => []
          | c :: l3 =>
              if a <? 240 then (a - 224) * 4096 + (b - 128) * 64 + (c - 128) :: points_from l3
              else match l3 with
              | [] => []
              | d :: l4 => (a - 240) * 262144 + (b - 128) * 4096 + (c - 128) * 64 + (d - 128) :: points_from l4
              end
          end
      end
  end.
Definition points (s : string) : text := points_from (map code_of (chars s)).

Inductive number := NInt (n : Z) | NFloat (t : string).

Inductive tree :=
  | TText (r : rtext)
  | TNumber (n : number)
  | TConst                                  (* None, True, False *)
  | TList (l : list tree)
  | TDict (d : list (text * tree)).

Fixpoint tree_of (v : json) : tree :=
  match v with
  | JNull | JBool _ => TConst
  | JInt n => TNumber (NInt n)
  | JFloat t => TNumber (NFloat t)
  | JStr s => TText (plain (points s))
  | JList l => TList (map tree_of l)
  | JDict d => TDict (map (fun kv => (points kv.1, tree_of kv.2)) d)
  end.

(** A field: its path, its text, whether the text is a spelled number that is
    scanned by itself ([_IsolatedNumber]), and whether it is a key. *)
Record field := mkField { fi_key : text; fi_raw : rtext; fi_isolated : bool; fi_is_key : bool }.

(** ** Numbers *)

(** [int(value)] of a float that is finite and integral. *)
Definition float_integer (t : string) : option Z :=
  if negb (isfinite t) then None
  else match float_decimal t with
  | None => None
  | Some (neg, n, e) =>
      if n =? 0 then Some 0
      else match double_of_decimal n e with
      | None => None
      | Some (m, k) =>
          let sign := if neg then -1 else 1 in
          if 0 <=? k then Some (sign * (m * 2 ^ k))
          else if m mod 2 ^ (- k) =? 0 then Some (sign * (m / 2 ^ (- k))) else None
      end
  end.

(** [_isolated_numeric_spelling] *)
Definition _isolated_numeric_spelling (n : number) : text :=
  match n with
  | NInt z => u (str_of_Z z)
  | NFloat t => match float_integer t with Some z => u (str_of_Z z) | None => [] end
  end.

(** [_numeric_spellings] *)
Definition _numeric_spellings (n : number) : list text :=
  match n with
  | NInt z => [u (str_of_Z z)]
  | NFloat t =>
      u t :: match float_integer t with
             | Some z => if bool_decide (str_of_Z z = t) then [] else [u (str_of_Z z)]
             | None => []
             end
  end.

(** ** The traversal *)

(** A value with its path, and whether it is a key. *)
Record node := mkNode { no_value : tree; no_path : text; no_is_key : bool }.

Definition child_path (path label : text) : text := path ++ u "." ++ label.

(** [_walk_children] *)
Definition _walk_children (value : tree) (path : text) : list node :=
  match value with
  | TList l => map (fun e : nat * tree => mkNode e.2 (child_path path (u (str_of_Z (Z.of_nat e.1)))) false) (enumerate l)
  | TDict d =>
      concat (map (fun kv : text * tree => let child := child_path path kv.1 in
        [mkNode (TText (plain kv.1)) child true; mkNode kv.2 child false]) d)
  | _ => []
  end.

(** Which numbers a traversal lists. *)
Record walk_mode := mkMode { include_numbers : bool; isolated_numbers : bool }.

(** What a node that is not a container yields; [None] for the others. *)
Definition scalar_fields (mode : walk_mode) (n : node) : option (list field) :=
  match no_value n with
  | TText r => Some [mkField (no_path n) r false (no_is_key n)]
  | TNumber x =>
      if include_numbers mode then Some (map (fun spelling => mkField (no_path n) (plain spelling) false (no_is_key n)) (_numeric_spellings x))
      else if isolated_numbers mode then Some [mkField (no_path n) (plain (_isolated_numeric_spelling x)) true (no_is_key n)]
      else None
  | _ => None
  end.

(** The loop of [_walk_strings] on its stack of iterators. *)
Fixpoint walk_stack (mode : walk_mode) (fuel : nat) (stack : list (list node)) : list field :=
  match fuel, stack with
  | _, [] | O, _ => []
  | S f, [] :: rest => walk_stack mode f rest
  | S f, (n :: it) :: rest =>
      match scalar_fields mode n with
      | Some fields => fields ++ walk_stack mode f (it :: rest)
      | None => walk_stack mode f (_walk_children (no_value n) (no_path n) :: it :: rest)
      end
  end.

(** The number of nodes of a value. *)
Fixpoint tree_size (t : tree) : nat :=
  match t with
  | TList l => S (list_sum (map tree_size l))
  | TDict d => S (list_sum (map (fun kv => S (tree_size kv.2)) d))
  | _ => 1
  end.

(** [_walk_strings] *)
Definition _walk_strings (value : tree) (path : text) (mode : walk_mode) : list field :=
  walk_stack mode (S (S (2 * tree_size value))) [[mkNode value path false]].

(** ** The order of the fields *)

(** The fields of a value, by recursion on it. *)
Fixpoint fields_of (mode : walk_mode) (value : tree) (path : text) (is_key : bool) : list field :=
  match scalar_fields mode (mkNode value path is_key) with
  | Some fields => fields
  | None =>
      match value with
      | TList l =>
          (fix go (index : nat) (l : list tree) : list field :=
             match l with
             | [] => []
             | entry :: l' => fields_of mode entry (child_path path (u (str_of_Z (Z.of_nat index)))) false ++ go (S index) l'
             end) 0%nat l
      | TDict d =>
          concat (map (fun kv : text * tree =>
            mkField (child_path path kv.1) (plain kv.1) false true :: fields_of mode kv.2 (child_path path kv.1) false) d)
      | _ => []
      end
  end.

Definition node_fields (mode : walk_mode) (n : node) : list field := fields_of mode (no_value n) (no_path n) (no_is_key n).

(** A container has the fields of its children, one after the other. *)
Lemma node_fields_children mode n : scalar_fields mode n = None ->
  node_fields mode n = concat (map (node_fields mode) (_walk_children (no_value n) (no_path n))).
Proof.
  destruct n as [v path is_key]. unfold node_fields. simpl. intros Hs. destruct v as [r|x| |l|d]; [done|cbn [fields_of]; by rewrite Hs|done|..].
  - cbn [fields_of]. rewrite Hs. unfold _walk_children. unfold enumerate. generalize 0%nat. induction l as [|t l IH]; intros i; [done|].
    simpl. by rewrite IH.
  - cbn [fields_of]. rewrite Hs. unfold _walk_children. induction d as [|[k t] d IH]; [done|]. simpl. by rewrite IH.
Qed.

Definition node_size (n : node) : nat := tree_size (no_value n).

Lemma children_size v path : (list_sum (map node_size (_walk_children v path)) < tree_size v)%nat.
Proof.
  destruct v as [r|x| |l|d]; simpl; [lia..| |]; apply Nat.lt_succ_r.
  - unfold enumerate. generalize 0%nat. induction l as [|t l IH]; intros i; [done|]. simpl. specialize (IH (S i)). unfold node_size at 1. simpl. lia.
  - induction d as [|[k t] d IH]; [done|]. cbn [concat map app list_sum]. unfold node_size in *. simpl in *. lia.
Qed.

(** The steps a stack takes. *)
Definition stack_cost (stack : list (list node)) : nat := list_sum (map (fun it => S (2 * list_sum (map node_size it))) stack).

Lemma tree_size_pos t : (1 <= tree_size t)%nat.
Proof. destruct t; simpl; lia. Qed.

Lemma walk_stack_fields mode fuel : forall stack, (stack_cost stack <= fuel)%nat ->
  walk_stack mode fuel stack = concat (map (fun it => concat (map (node_fields mode) it)) stack).
Proof.
  induction fuel as [|fuel IH]; intros [|[|n it] rest] Hcost; try done; unfold stack_cost in Hcost; simpl in Hcost; try lia.
  - simpl. apply IH. unfold stack_cost. simpl. lia.
  - pose proof (tree_size_pos (no_value n)) as Hpos. assert (Hn : node_size n = tree_size (no_value n)) by done. simpl. destruct (scalar_fields mode n) as [fields|] eqn:Es.
    + rewrite IH by (unfold stack_cost; simpl; lia). simpl. rewrite app_assoc. f_equal. f_equal. unfold node_fields. destruct n as [v path k]. simpl.
      destruct v; cbn [fields_of]; by rewrite Es.
    + pose proof (children_size (no_value n) (no_path n)) as Hc. rewrite IH by (unfold stack_cost; simpl; lia). simpl.
      by rewrite (node_fields_children _ _ Es), !app_assoc.
Qed.

Lemma walk_strings_spec value path mode : _walk_strings value path mode = fields_of mode value path false.
Proof.
  unfold _walk_strings. rewrite walk_stack_fields by (unfold stack_cost, node_size; simpl; lia). simpl. by rewrite !app_nil_r.
Qed.

(** The traversal of a value lists its fields in the order of the document.
    [_walk_strings], run on its stack of iterators, ends and yields exactly the
    fields of the recursive definition: every text at its path, every key of an
    object just before what it holds, and the numbers the mode asks for. *)
Lemma walk_strings_exact value path mode : _walk_strings value path mode = fields_of mode value path false.
Proof. apply walk_strings_spec. Qed.
