(* ===== verification/Scanner.v ===== *)
(** * The scan of fields

    Models [_scan_fields] of [memory_router/security.py] with what it is made of:
    the direct scan of every field ([_scan_direct_fields]), the windows over
    neighbouring fields ([_scan_window], [_scan_rolling_group],
    [_scan_skip_groups]), and the encoded payloads split over fields
    ([_scan_split_base64]); and the contexts of [memory_router/security_models.py].
    Each part has a state of its own, a record with the clock in it; a text of the
    state sets is compared as Python compares a [str], without its marks. *)

From Stdlib Require Import ZArith Lia Ascii.
From stdpp Require Import base sets strings numbers list.
From S2P Require Import Prelude Errors Text Chars ScanModels RuleEdges ScanWindows Provenance UnicodeFold ScanRules Base64 EncodedScan Approval FieldWalk.

Local Open Scope Z_scope.

Definition MAX_SCAN_FIELDS : nat := 128.
Definition MAX_ROLLING_WINDOWS : Z := 8192.
Definition MAX_SKIP_WINDOWS : Z := 8192.
Definition MAX_SKIPS : nat := 2.

(** [str.encode] of a text with a lone surrogate, a [ValueError]. *)
Definition UnicodeEncodeError : exn := EValueError "UnicodeEncodeError".

(** [try: m; except UnicodeScanDeadlineExceeded: h] *)
Definition catch_deadline {S A} (m h : eff S A) : eff S A := try_except m (fun e => if is_deadline e then h else raise e).

(** [set.add] *)
Definition set_add {A} `{EqDecision A} (x : A) (l : list A) : list A := if elem x l then l else l ++ [x].

(** [finding.detector or finding.matched] *)
Definition detector_or_matched (f : Finding) : text :=
  match fd_detector f with Some d => if bool_decide (d = ""%string) then fd_matched f else u d | None => fd_matched f end.

(** [SafetyFinding(time_limit_match or "time_limit", "span_limit")] *)
Definition time_finding (time_limit_match : option string) : Finding := finding (py_or time_limit_match "time_limit") "span_limit".

(** The findings of the rules and of the detectors in a window. *)
Abbreviation window_found := (list Finding * list Finding)%type.

(** ** Direct scans *)

(** [_DirectScanOptions]; the output list is the list of canonical fields, and the
    reviewed fields are in the order of [sorted]. *)
Record DirectScanOptions := mkOptions {
  do_operation : string; do_isolated : bool; do_deadline : option Z; do_time_limit : option string;
  do_prefix_fields : nat; do_reviewed_fields : list text
}.

(** The state of [_scan_direct_fields]. *)
Record direct := mkDirect {
  dr_clock : nat; dr_result : Verdict; dr_encoded : EncodedState; dr_fields : list field;
  dr_rules : list text; dr_detectors : list text; dr_keycaps : list text; dr_seen : list (text * bool)
}.

Definition direct_start (n : nat) : direct := mkDirect n no_findings new_encoded [] [] [] [] [].

Definition direct_tick {A} (m : scan A) : eff direct A := fun w =>
  match m (dr_clock w) with
  | (r, n) => (r, mkDirect n (dr_result w) (dr_encoded w) (dr_fields w) (dr_rules w) (dr_detectors w) (dr_keycaps w) (dr_seen w))
  end.

Definition direct_result (f : Verdict -> Verdict) : eff direct unit := modify (fun w =>
  mkDirect (dr_clock w) (f (dr_result w)) (dr_encoded w) (dr_fields w) (dr_rules w) (dr_detectors w) (dr_keycaps w) (dr_seen w)).

(** A scan of encoded text, with the shared counters or with its own. *)
Definition direct_encoded (own : bool) (m : eff enc_world unit) : eff direct unit := fun w =>
  match m (mkEnc (dr_clock w) (dr_result w) (if own then new_encoded else dr_encoded w)) with
  | (r, e) =>
      (r, mkDirect (ew_clock e) (ew_result e) (if own then dr_encoded w else ew_state e) (dr_fields w) (dr_rules w) (dr_detectors w)
            (dr_keycaps w) (dr_seen w))
  end.

Definition keep_field (f : field) : eff direct unit := modify (fun w =>
  mkDirect (dr_clock w) (dr_result w) (dr_encoded w) (dr_fields w ++ [f]) (dr_rules w) (dr_detectors w) (dr_keycaps w) (dr_seen w)).
Definition keep_keycap (t : text) : eff direct unit := modify (fun w =>
  mkDirect (dr_clock w) (dr_result w) (dr_encoded w) (dr_fields w) (dr_rules w) (dr_detectors w) (set_add t (dr_keycaps w)) (dr_seen w)).
Definition keep_seen (s : text * bool) : eff direct unit := modify (fun w =>
  mkDirect (dr_clock w) (dr_result w) (dr_encoded w) (dr_fields w) (dr_rules w) (dr_detectors w) (dr_keycaps w) (set_add s (dr_seen w))).
Definition keep_rules (fs : list Finding) : eff direct unit := modify (fun w =>
  mkDirect (dr_clock w) (add_findings fs (dr_result w)) (dr_encoded w) (dr_fields w)
    (fold_left (fun l f => set_add (fd_matched f) l) fs (dr_rules w)) (dr_detectors w) (dr_keycaps w) (dr_seen w)).
Definition keep_detected (fs : list Finding) : eff direct unit := modify (fun w =>
  mkDirect (dr_clock w) (add_findings fs (dr_result w)) (dr_encoded w) (dr_fields w) (dr_rules w)
    (fold_left (fun l f => set_add (detector_or_matched f) l) fs (dr_detectors w)) (dr_keycaps w) (dr_seen w)).

Section scanner.
Context `{UnicodeDb} `{Clock} `{Confusables} `{Detectors} `{CaseDb}.

(** [{key: index + 1 ...}.get(key, 0)] *)
Fixpoint origin_in (index : Z) (names : list text) (key : text) : Z :=
  match names with [] => 0 | n :: names' => if bool_decide (n = key) then index else origin_in (index + 1) names' key end.

(** The canonical text with its mark, when there are marks at all. *)
Definition with_provenance (o : DirectScanOptions) (f : field) (canonical : text) : rtext :=
  if bool_decide (do_reviewed_fields o <> []) || is_reviewed_text (fi_raw f) then
    mkR canonical (Some (if fi_is_key f then TInt 0
                         else match rt_trust (fi_raw f) with Some t => t | None => TInt (origin_in 1 (do_reviewed_fields o) (fi_key f)) end))
  else plain canonical.

(** The body of the [try] for one field: whether it reaches the end of the loop's
    body, where the deadline is checked, and does not [continue]. *)
Definition direct_field (o : DirectScanOptions) (index : nat) (f : field) : eff direct bool :=
  r ← (if (index <? do_prefix_fields o)%nat then mret (rt_text (fi_raw f), []) else direct_tick (canonicalize_content (rt_text (fi_raw f)) (do_deadline o)));
  let '(t, ts) := r : text * list string in
  direct_result (add_transformations ts);;
  let canonical := with_provenance o f t in
  let keycap := elem "keycap"%string ts in
  (if fi_isolated f then mret () else keep_field (mkField (fi_key f) canonical false (fi_is_key f)));;
  (if keycap then keep_keycap t else mret ());;
  if negb (fi_is_key f) && reviewed canonical then mret false
  else
    direct_result (_add_unicode_findings ts);;
    w ← get_state;
    if elem (t, fi_is_key f) (dr_seen w) then mret false
    else
      keep_seen (t, fi_is_key f);;
      rules ← direct_tick (_rule_scan t (do_deadline o) keycap false);
      keep_rules rules;;
      detected ← direct_tick (_amg_scan (fi_key f) t (do_operation o) (do_deadline o) false);
      keep_detected detected;;
      direct_encoded (do_isolated o || fi_isolated f) (_scan_encoded (fi_key f) canonical (do_operation o) true (do_deadline o));;
      mret true.

(** [_deadline_reached] on the result of a state. *)
Definition direct_late (o : DirectScanOptions) : eff direct bool :=
  w ← get_state;
  r ← direct_tick (_deadline_reached (dr_result w) (do_deadline o) (do_time_limit o));
  let '(result, reached) := r : Verdict * bool in
  direct_result (fun _ => result);; mret reached.

Fixpoint direct_loop (o : DirectScanOptions) (index : nat) (fields : list field) : eff direct unit :=
  match fields with
  | [] => mret ()
  | f :: rest =>
      is_late ← direct_tick (late (do_deadline o));
      if is_late : bool then direct_result (add_finding (time_finding (do_time_limit o)))
      else if (MAX_SCAN_FIELDS <=? index)%nat then direct_result (add_finding (finding "field_limit" "span_limit"))
      else match _string_exceeds_scan_limit (rt_text (fi_raw f)) with
      | None => raise UnicodeEncodeError
      | Some true => direct_result (add_finding (finding "field_size_limit" "span_limit"))
      | Some false =>
          if _exceeds_non_ascii_budget (rt_text (fi_raw f)) MAX_NON_ASCII_CODEPOINTS
          then direct_result (add_finding (finding "unicode_size_limit" "span_limit"))
          else
            r ← catch_deadline (checked ← direct_field o index f; mret (Some (checked : bool)))
                  (direct_result (add_finding (time_finding (do_time_limit o)));; mret None);
            match r with
            | None => mret ()
            | Some false => direct_loop o (S index) rest
            | Some true => reached ← direct_late o; if reached : bool then mret () else direct_loop o (S index) rest
            end
      end
  end.

(** [_scan_direct_fields] *)
Definition _scan_direct_fields (o : DirectScanOptions) (fields : list field) : scan direct := fun n =>
  match direct_loop o 0 fields (direct_start n) with
  | (Ok _, w) => (Ok w, dr_clock w)
  | (Err e, w) => (Err e, dr_clock w)
  end.

(** ** Windows over fields *)

(** The parts of [_WindowScanContext] that do not change. *)
Record win_env := mkEnv {
  we_fields : list field; we_rules : list text; we_detectors : list text; we_keycaps : list text;
  we_operation : string; we_deadline : option Z; we_time_limit : option string
}.

(** The parts that do. *)
Record win := mkWin {
  wn_clock : nat; wn_result : Verdict; wn_rolling : Z; wn_skips : Z; wn_limit : bool;
  wn_cache : list (text * text * bool * window_found)
}.

Definition win_tick {A} (m : scan A) : eff win A := fun w =>
  match m (wn_clock w) with (r, n) => (r, mkWin n (wn_result w) (wn_rolling w) (wn_skips w) (wn_limit w) (wn_cache w)) end.
Definition win_add (f : Finding) : eff win unit := modify (fun w =>
  mkWin (wn_clock w) (add_finding f (wn_result w)) (wn_rolling w) (wn_skips w) (wn_limit w) (wn_cache w)).
Definition win_stop : eff win unit := modify (fun w =>
  mkWin (wn_clock w) (wn_result w) (wn_rolling w) (wn_skips w) true (wn_cache w)).
Definition win_store (key : text * text * bool) (found : window_found) : eff win unit := modify (fun w =>
  mkWin (wn_clock w) (wn_result w) (wn_rolling w) (wn_skips w) (wn_limit w) (dict_set key found (wn_cache w))).
Definition win_reset_skips : eff win unit := modify (fun w =>
  mkWin (wn_clock w) (wn_result w) (wn_rolling w) 0 (wn_limit w) (wn_cache w)).

(** Count one more window: whether there are too many. *)
Definition win_count (skip : bool) : eff win bool := fun w =>
  if skip then (Ok (MAX_SKIP_WINDOWS <? wn_skips w + 1), mkWin (wn_clock w) (wn_result w) (wn_rolling w) (wn_skips w + 1) (wn_limit w) (wn_cache w))
  else (Ok (MAX_ROLLING_WINDOWS <? wn_rolling w + 1), mkWin (wn_clock w) (wn_result w) (wn_rolling w + 1) (wn_skips w) (wn_limit w) (wn_cache w)).

(** What the rules and the detectors find, from the cache or computed; [None] when
    the deadline passes. *)
Definition window_findings (env : win_env) (key : text) (window : rtext) (strip : bool) : eff win (option window_found) :=
  let cache_key := (key, rt_text window, strip) in
  w ← get_state;
  match dict_get cache_key (wn_cache w) with
  | Some found => mret (Some found)
  | None =>
      let all_hits := is_reviewed_text window in
      r ← catch_deadline
            (rules ← win_tick (_split_instruction_rule_scan (rt_text window) (we_deadline env) strip all_hits);
             detected ← win_tick (_amg_scan (u "rolling." ++ key) (rt_text window) (we_operation env) (we_deadline env) all_hits);
             mret (Some (rules, detected)))
            (win_add (time_finding (we_time_limit env));; win_stop;; mret None);
      match r with
      | None => mret None
      | Some found => win_store cache_key found;; mret (Some found)
      end
  end.

(** [isinstance(window, ReviewedText) and wholly_reviewed(finding, window)] *)
Definition exempt (f : Finding) (window : rtext) : eff win bool :=
  if is_reviewed_text window then win_tick (wholly_reviewed f window) else mret false.

Definition context_fields (fields : list field) : list (text * text * bool) := map (fun f => (fi_key f, rt_text (fi_raw f), fi_is_key f)) fields.

(** The loop over the findings of the rules: whether it returns. *)
Fixpoint report_rules (env : win_env) (window : rtext) (fragments : list text) (fs : list Finding) : eff win bool :=
  match fs with
  | [] => mret false
  | f :: rest =>
      ex ← exempt f window;
      if ex : bool then report_rules env window fragments rest
      else if bool_decide (fd_reason f = "span_limit"%string) then win_add f;; win_stop;; mret true
      else
        (if (is_reviewed_text window || negb (elem (fd_matched f) (we_rules env)))
            && negb (_bare_secret_name_fragments (fd_matched f) fragments (context_fields (we_fields env)))
         then win_add (mkFinding (fd_matched f) "split_instruction" None None []) else mret ());;
        report_rules env window fragments rest
  end.

(** Whether a finding of a detector belongs to the window and not to one field. *)
Definition detected_across (direct : list text) (fragments : list text) (f : Finding) : bool :=
  match fd_hits f with
  | [] => negb (elem (detector_or_matched f) direct)
  | hits => existsb (fun hit => _crosses_field_boundary hit fragments) hits
  end.

Definition split_finding (f : Finding) : Finding := mkFinding (fd_matched f) "split_instruction" (fd_detector f) (fd_severity f) (fd_hits f).

Definition report_detected (env : win_env) (window : rtext) (fragments : list text) (fs : list Finding) : eff win unit :=
  for_each (fun f =>
    if is_reviewed_text window then ex ← exempt f window; if ex : bool then mret () else win_add f
    else if detected_across (we_detectors env) fragments f then win_add (split_finding f) else mret ()) fs.

Definition win_late (env : win_env) : eff win bool :=
  w ← get_state;
  r ← win_tick (_deadline_reached (wn_result w) (we_deadline env) (we_time_limit env));
  let '(result, reached) := r : Verdict * bool in
  modify (fun w => mkWin (wn_clock w) result (wn_rolling w) (wn_skips w) (wn_limit w) (wn_cache w));; mret reached.

(** [_scan_window] *)
Definition _scan_window (env : win_env) (key : text) (window : rtext) (fragments : list text) (skip : bool) : eff win unit :=
  w ← get_state;
  if wn_limit w then mret ()
  else
    over ← win_count skip;
    if over : bool then win_add (finding "window_limit" "span_limit");; win_stop
    else
      found ← window_findings env key window (existsb (fun fragment => elem fragment (we_keycaps env)) fragments);
      match found with
      | None => mret ()
      | Some (rules, detected) =>
          stopped ← report_rules env window fragments rules;
          if stopped : bool then mret ()
          else
            report_detected env window fragments detected;;
            reached ← win_late env;
            if reached : bool then win_stop else mret ()
      end.

(** A generator of windows and its consumer. *)
Fixpoint run_stages (consume : rtext -> eff win unit) (stages : list stage) : eff win unit :=
  match stages with
  | [] => mret ()
  | st :: rest =>
      ws ← win_tick st;
      match ws with
      | None => mret ()
      | Some ws => for_each consume ws;; run_stages consume rest
      end
  end.

(** The last two of a list. *)
Definition last_two {A} (l : list A) : list A := drop (length l - 2) l.

(** The loop of [_scan_rolling_group] over marked texts. *)
Fixpoint rolling_marked (env : win_env) (fragments : list rtext) (group : list (text * rtext)) : eff win unit :=
  match group with
  | [] => mret ()
  | (key, value) :: rest =>
      let fragments := fragments ++ [value] in
      let scan_all fs := run_stages (fun window => _scan_window env key window (map rt_text fs) false) (sequence_windows fs (we_deadline env)) in
      scan_all fragments;;
      (if (2 <? length fragments)%nat then scan_all (last_two fragments) else mret ());;
      w ← get_state;
      if wn_limit w then mret () else rolling_marked env fragments rest
  end.

(** The windows that grow along a group of plain texts. *)
Record rolling := mkRolling { ro_spaced : text; ro_compact : text; ro_tail : text; ro_fragments : list text }.

Definition roll (st : rolling) (value : text) : rolling :=
  mkRolling (_bounded_append (ro_spaced st) value) (_bounded_utf8_suffix (encode (ro_compact st ++ value)))
    (match ro_fragments st with [] => ro_tail st | _ => _bounded_utf8_suffix (encode (ro_tail st ++ value)) end) (ro_fragments st ++ [value]).

Definition rolled_windows (st : rolling) : list text :=
  match ro_fragments st with
  | first :: _ :: _ => dict_fromkeys [ro_spaced st; ro_compact st; _bounded_utf8_prefix (encode first) ++ space ++ ro_tail st]
  | _ => []
  end.

Fixpoint rolling_plain (env : win_env) (st : rolling) (group : list (text * rtext)) : eff win unit :=
  match group with
  | [] => mret ()
  | (key, marked_value) :: rest =>
      let value := rt_text marked_value in
      let scan_windows fs := for_each (fun window => _scan_window env key (plain window) fs false) in
      (match List.last (map Some (ro_fragments st)) None with
       | None => mret ()
       | Some previous =>
           scan_windows (ro_fragments st ++ [value]) (_junction_variants (ro_spaced st) (ro_compact st) value);;
           edges ← win_tick (_trim_evasion_variants previous value (we_deadline env));
           scan_windows [previous; value] edges
       end);;
      let st := roll st value in
      scan_windows (ro_fragments st) (rolled_windows st);;
      w ← get_state;
      if wn_limit w then mret () else rolling_plain env st rest
  end.

(** [_scan_rolling_group] *)
Definition _scan_rolling_group (env : win_env) (group : list (text * rtext)) : eff win unit :=
  match group with
  | (_, value) :: _ => if is_reviewed_text value then rolling_marked env [] group else rolling_plain env (mkRolling [] [] [] []) group
  | [] => mret ()
  end.

(** The windows of one group with omitted fields. *)
Definition skip_windows (env : win_env) (fragments : list rtext) (consume : rtext -> eff win unit) : eff win unit :=
  match fragments with
  | first :: _ =>
      if is_reviewed_text first then run_stages consume (sequence_windows fragments (we_deadline env))
      else
        windows ← win_tick (_sequence_join_variants (map rt_text fragments) (we_deadline env));
        for_each (fun window => consume (plain window)) windows
  | [] => mret ()
  end.

(** Whether the loop returns. *)
Fixpoint skip_loop (env : win_env) (key : text) (groups : list (list rtext)) : eff win bool :=
  match groups with
  | [] => mret false
  | fragments :: rest =>
      skip_windows env fragments (fun window => _scan_window env key window (map rt_text fragments) true);;
      w ← get_state;
      if wn_limit w then mret true else skip_loop env key rest
  end.

(** [_scan_skip_groups] *)
Fixpoint _scan_skip_groups (env : win_env) (groups : list (list (text * rtext))) : eff win unit :=
  match groups with
  | [] => mret ()
  | group :: rest =>
      match List.last (map Some group) None with
      | None => _scan_skip_groups env rest
      | Some (key, _) =>
          win_reset_skips;;
          stopped ← skip_loop env key (bounded_skip_fragments (map snd group) MAX_SKIPS);
          if stopped : bool then mret () else _scan_skip_groups env rest
      end
  end.

(** ** Encoded payloads split over fields *)

(** What the rest of a scan changes. *)
Record world := mkWorld { wo_clock : nat; wo_result : Verdict }.

Definition tick {A} (m : scan A) : eff world A := fun w => match m (wo_clock w) with (r, n) => (r, mkWorld n (wo_result w)) end.
Definition update (f : Verdict -> Verdict) : eff world unit := modify (fun w => mkWorld (wo_clock w) (f (wo_result w))).

(** A scan of encoded text with counters of its own. *)
Definition own_encoded (m : eff enc_world unit) : eff world unit := fun w =>
  match m (mkEnc (wo_clock w) (wo_result w) new_encoded) with (r, e) => (r, mkWorld (ew_clock e) (ew_result e)) end.

(** [_deadline_reached] on the result. *)
Definition reached (deadline : option Z) (time_limit : option string) : eff world bool :=
  w ← get_state;
  r ← tick (_deadline_reached (wo_result w) deadline time_limit);
  let '(result, b) := r : Verdict * bool in
  update (fun _ => result);; mret b.

(** A loop over candidates, each after a check of the deadline: whether to go on. *)
Fixpoint until_late {X} (deadline : option Z) (time_limit : option string) (f : X -> eff world unit) (l : list X) : eff world bool :=
  match l with
  | [] => mret true
  | x :: rest =>
      stop ← reached deadline time_limit;
      if stop : bool then mret false
      else
        ok ← catch_deadline (f x;; mret true) (update (add_finding (time_finding time_limit));; mret false);
        if ok : bool then until_late deadline time_limit f rest else mret false
  end.

(** The findings that are not exempt. *)
Fixpoint unapproved (window : rtext) (fs : list Finding) : scan (list Finding) :=
  match fs with
  | [] => mret []
  | f :: rest => ex ← wholly_reviewed f window; fs' ← unapproved window rest; mret (if ex : bool then fs' else f :: fs')
  end.

(** The scan of a text that was decoded field by field. *)
Definition scan_decoded (operation : string) (deadline : option Z) (candidate : rtext) : eff world unit :=
  r ← tick (canonicalize_content (rt_text candidate) deadline);
  let '(canonical, ts) := r : text * list string in
  let all_hits := is_reviewed_text candidate in
  update (fun r => _add_unicode_findings ts (add_transformations ts r));;
  rules ← tick (_rule_scan canonical deadline (elem "keycap"%string ts) all_hits);
  detected ← tick (_amg_scan (u "split-base64.decoded") canonical operation deadline all_hits);
  let marked := mkR canonical (if bool_decide (canonical = rt_text candidate) then rt_trust candidate else Some (TInt 0)) in
  fs ← (if all_hits then tick (unapproved marked (rules ++ detected)) else mret (rules ++ detected));
  match fs with
  | [] => mret ()
  | _ => update (fun r => add_findings fs (add_finding (finding "unsafe_base64" "encoded_payload") r))
  end.

(** [dict.fromkeys((compact, spaced))] *)
Definition both_forms (c : rtext * rtext) : list rtext := if bool_decide (rt_text c.1 = rt_text c.2) then [c.1] else [c.1; c.2].

(** One group of fields: [None] when the function returns, else whether something
    was left out, with the dictionary of fragments. *)
Definition split_group (operation : string) (deadline : option Z) (time_limit : option string) (group : list rtext) (cache : fragments_t)
    : eff world (option (bool * fragments_t)) :=
  stop ← reached deadline time_limit;
  if stop : bool then mret None
  else
    r ← tick (_split_base64_candidates group deadline cache MAX_SPLIT_BASE64_WORK_BYTES);
    let '(encoded, encoded_exhausted, cache) := r : list rtext * bool * fragments_t in
    stop ← reached deadline time_limit;
    if stop : bool then mret None
    else
      go_on ← until_late deadline time_limit
                (fun candidate => own_encoded (_scan_encoded (u "split-base64") candidate operation true deadline)) encoded;
      if negb go_on then mret None
      else
        r ← tick (_split_decoded_base64_candidates group deadline cache MAX_SPLIT_BASE64_WORK_BYTES);
        let '(decoded, decoded_exhausted, cache) := r : list (rtext * rtext) * bool * fragments_t in
        stop ← reached deadline time_limit;
        if stop : bool then mret None
        else
          go_on ← until_late deadline time_limit (scan_decoded operation deadline) (concat (map both_forms decoded));
          mret (if go_on : bool then Some (encoded_exhausted || decoded_exhausted, cache) else None).

(** The loop over the groups; [None] when the function returns. *)
Fixpoint split_groups (operation : string) (deadline : option Z) (time_limit : option string) (seen : list (list (text * text * bool)))
    (exhausted : bool) (cache : fragments_t) (groups : list (list field)) : eff world (option bool) :=
  match groups with
  | [] => mret (Some exhausted)
  | group :: rest =>
      let group_key := context_fields group in
      if bool_decide (group = []) || elem group_key seen then split_groups operation deadline time_limit seen exhausted cache rest
      else
        r ← split_group operation deadline time_limit (map fi_raw group) cache;
        match r with
        | None => mret None
        | Some (left_out, cache) => split_groups operation deadline time_limit (seen ++ [group_key]) (exhausted || left_out) cache rest
        end
  end.

(** The fields that are values, the ones that are keys, and all. *)
Definition three_groups (fields : list field) : list (list field) :=
  [List.filter (fun f => negb (fi_is_key f)) fields; List.filter fi_is_key fields; fields].

(** [_scan_split_base64] *)
Definition _scan_split_base64 (fields : list field) (operation : string) (deadline : option Z) (time_limit : option string) : eff world unit :=
  r ← split_groups operation deadline time_limit [] false (Some []) (three_groups fields);
  match r with
  | Some true => update (add_finding (finding "split_base64_limit" "span_limit"))
  | _ => mret ()
  end.

(** ** All of it *)

(** A state of its own for a part of the scan. *)
Definition in_world {S A} (enter : world -> S) (leave : S -> world) (m : eff S A) : eff world A := fun w =>
  match m (enter w) with (r, s) => (r, leave s) end.

Definition enter_windows (limit : bool) (w : world) : win := mkWin (wo_clock w) (wo_result w) 0 0 limit [].
Definition leave_windows (w : win) : world := mkWorld (wn_clock w) (wn_result w).

(** The loop over the rolling groups. *)
Fixpoint rolling_groups (env : win_env) (groups : list (list (text * rtext))) : eff win unit :=
  match groups with
  | [] => mret ()
  | group :: rest =>
      _scan_rolling_group env group;;
      w ← get_state;
      if wn_limit w then mret () else rolling_groups env rest
  end.

Definition keyed (group : list field) : list (text * rtext) := map (fun f => (fi_key f, fi_raw f)) group.

(** The windows over all groups: whether a limit was reached. *)
Definition scan_windows (env : win_env) (fields : list field) : eff win bool :=
  let groups := map keyed (three_groups fields) in
  rolling_groups env groups;;
  w ← get_state;
  (if wn_limit w then mret () else _scan_skip_groups env groups);;
  w ← get_state;
  mret (wn_limit w).

(** Any finding with the name of the time limit. *)
Definition reports (matched : string) (r : Verdict) : bool := existsb (fun f => bool_decide (fd_matched f = u matched)) (vd_findings r).

(** The rest of [_scan_fields], after the direct scan. *)
Definition scan_across (o : DirectScanOptions) (split_base64 : bool) (d : direct) : eff world unit :=
  let env := mkEnv (dr_fields d) (dr_rules d) (dr_detectors d) (dr_keycaps d) (do_operation o) (do_deadline o) (do_time_limit o) in
  let late_already := reports (py_or (do_time_limit o) "time_limit") (dr_result d) in
  limit ← in_world (enter_windows late_already) leave_windows (scan_windows env (dr_fields d));
  if negb split_base64 || limit : bool then mret ()
  else
    stop ← reached (do_deadline o) (do_time_limit o);
    if stop : bool then mret ()
    else
      _scan_split_base64 (dr_fields d) (do_operation o) (do_deadline o) (do_time_limit o);;
      reached (do_deadline o) (do_time_limit o);; mret ().

(** Run the rest of a scan from a result. *)
Definition from_result {A} (r : Verdict) (m : eff world A) : scan Verdict := fun n =>
  match m (mkWorld n r) with
  | (Ok _, w) => (Ok (wo_result w), wo_clock w)
  | (Err e, w) => (Err e, wo_clock w)
  end.

(** [_scan_fields]: the result and the canonical fields. *)
Definition _scan_fields (o : DirectScanOptions) (split_base64 : bool) (fields : list field) : scan (Verdict * list field) :=
  d ← _scan_direct_fields o fields;
  result ← from_result (dr_result d) (scan_across o split_base64 d);
  mret (result, dr_fields d).
End scanner.
