(* ===== verification/ScannerProps.v ===== *)
(** * The scan of fields: what is shown

    A verdict only grows: nothing a later part of the scan does takes a finding
    back. So a safe verdict says of every single step that it found nothing, and
    from this follows what was looked at: all the fields, and all the windows. *)

From Stdlib Require Import ZArith Lia Ascii.
From stdpp Require Import base sets strings numbers list.
From S2P Require Import Prelude Errors Text Chars ScanModels RuleEdges ScanWindows Provenance UnicodeFold UnicodeFoldProps Regex ScanRules ScanRulesProps Base64 EncodedScan Approval FieldWalk Scanner.

Local Open Scope Z_scope.

(** ** Verdicts grow *)

Section guarded.
Context {S : Type} (res : S -> Verdict).

(** A computation after which a verdict is safe only if it was so before. *)
Definition guarded {A} (m : eff S A) : Prop := forall w r w', m w = (r, w') -> is_safe (res w') = true -> is_safe (res w) = true.

Lemma guarded_ret {A} (a : A) : guarded (mret a).
Proof. by intros w r w' [= _ <-]. Qed.

Lemma guarded_raise {A} e : guarded (raise e : eff S A).
Proof. by intros w r w' [= _ <-]. Qed.

Lemma guarded_get : guarded get_state.
Proof. by intros w r w' [= _ <-]. Qed.

Lemma guarded_modify f : (forall w, is_safe (res (f w)) = true -> is_safe (res w) = true) -> guarded (modify f).
Proof. intros Hf w r w' [= _ <-]. apply Hf. Qed.

Lemma guarded_bind {A B} (m : eff S A) (k : A -> eff S B) : guarded m -> (forall a, guarded (k a)) -> guarded (m ≫= k).
Proof.
  intros Hm Hk w r w'. unfold mbind, eff_bind. destruct (m w) as [[a|e] w1] eqn:E; intros Hrun Hs.
  - eapply Hm; [exact E|]. by eapply Hk.
  - injection Hrun as _ <-. by eapply Hm.
Qed.

Lemma guarded_catch {A} (m h : eff S A) : guarded m -> guarded h -> guarded (catch_deadline m h).
Proof.
  intros Hm Hh w r w'. unfold catch_deadline, try_except. destruct (m w) as [[a|e] w1] eqn:E; intros Hrun Hs.
  - injection Hrun as _ <-. by eapply Hm.
  - eapply Hm; [exact E|]. destruct (is_deadline e); [by eapply Hh|]. by injection Hrun as _ <-.
Qed.

Lemma guarded_for_each {X} (f : X -> eff S unit) l : (forall x, guarded (f x)) -> guarded (for_each f l).
Proof. intros Hf. induction l as [|x l IH]; [apply guarded_ret|]. by apply guarded_bind. Qed.
End guarded.

(** The findings that are added keep a verdict from being safe. *)
Lemma unicode_findings_safe ts r : is_safe (_add_unicode_findings ts r) = true -> is_safe r = true /\ _add_unicode_findings ts no_findings = no_findings.
Proof.
  unfold _add_unicode_findings. cbv zeta. destruct (elem "mixed_script"%string ts || _); [by rewrite add_finding_unsafe|].
  destruct (elem "invisible"%string ts || _); [by rewrite add_finding_unsafe|done].
Qed.

Create HintDb guard.
#[export] Hint Resolve guarded_ret guarded_raise guarded_get guarded_for_each : guard.

(** The branches of a computation, one by one. *)
Ltac guarding := repeat first
  [ solve [eauto with guard]
  | progress intros
  | apply guarded_bind
  | apply guarded_catch
  | apply guarded_for_each
  | match goal with
    | |- guarded _ (if ?b then _ else _) => destruct b
    | |- guarded _ (match ?x with _ => _ end) => destruct x
    | |- guarded _ (let _ := _ in _) => cbv zeta
    end ].

(** *** Encoded text *)

Lemma ticking_guarded {A} (m : scan A) : guarded ew_result (ticking m).
Proof. intros w r w'. unfold ticking. destruct (m (ew_clock w)). by intros [= _ <-]. Qed.

Lemma on_result_guarded f : (forall r, is_safe (f r) = true -> is_safe r = true) -> guarded ew_result (on_result f).
Proof. intros Hf. apply guarded_modify. intros w. apply Hf. Qed.

Lemma set_encoded_guarded st : guarded ew_result (set_encoded st).
Proof. by apply guarded_modify. Qed.

Lemma add_finding_grows f r : is_safe (add_finding f r) = true -> is_safe r = true.
Proof. by rewrite add_finding_unsafe. Qed.

Lemma add_transformations_grows ts r : is_safe (add_transformations ts r) = true -> is_safe r = true.
Proof. done. Qed.

Lemma unicode_findings_grow ts r : is_safe (_add_unicode_findings ts r) = true -> is_safe r = true.
Proof. apply unicode_findings_safe. Qed.

Lemma add_more_grows fs f r : is_safe (add_findings fs (add_finding f r)) = true -> is_safe r = true.
Proof. intros [_ Hs]%add_findings_safe. by apply add_finding_grows in Hs. Qed.

#[export] Hint Resolve ticking_guarded on_result_guarded set_encoded_guarded add_finding_grows add_transformations_grows unicode_findings_grow add_more_grows : guard.

Section encoded.
Context `{UnicodeDb} `{Clock} `{Confusables} `{Detectors}.

Lemma payload_text_guarded candidate fci : guarded ew_result (payload_text candidate fci).
Proof. unfold payload_text. cbv zeta. guarding. Qed.

Lemma scan_variant_guarded key operation deadline variant : guarded ew_result (scan_variant key operation deadline variant).
Proof. unfold scan_variant. guarding. Qed.
#[local] Hint Resolve payload_text_guarded scan_variant_guarded : guard.

Lemma scan_level_guarded inner key canonical operation fci deadline : (forall key' t, guarded ew_result (inner key' t)) ->
  guarded ew_result (scan_level inner key canonical operation fci deadline).
Proof.
  intros Hinner. unfold scan_level. guarding. rename a into x. generalize (dict_fromkeys (l ++ base64_runs (rt_text canonical))).
  intros candidates. induction candidates as [|c candidates IH]; cbn [candidates_scan]; unfold scan_variants_of; guarding.
Qed.

Lemma scan_encoded_guarded key canonical operation fci deadline : guarded ew_result (_scan_encoded key canonical operation fci deadline).
Proof. apply scan_level_guarded. intros. apply scan_level_guarded. intros. apply guarded_ret. Qed.
End encoded.
#[export] Hint Resolve scan_encoded_guarded : guard.

(** *** Direct scans, windows, and the rest *)

Lemma direct_tick_guarded {A} (m : scan A) : guarded dr_result (direct_tick m).
Proof. intros w r w'. unfold direct_tick. destruct (m (dr_clock w)). by intros [= _ <-]. Qed.

Lemma direct_result_guarded f : (forall r, is_safe (f r) = true -> is_safe r = true) -> guarded dr_result (direct_result f).
Proof. intros Hf. apply guarded_modify. intros w. apply Hf. Qed.

Lemma direct_encoded_guarded own m : guarded ew_result m -> guarded dr_result (direct_encoded own m).
Proof. intros Hm w r w'. unfold direct_encoded. destruct (m _) as [r1 e] eqn:E. intros [= _ <-] Hs. by apply (Hm _ _ _ E) in Hs. Qed.

Lemma keep_rules_guarded fs : guarded dr_result (keep_rules fs).
Proof. apply guarded_modify. intros w Hs. by apply add_findings_safe in Hs as [_ Hs]. Qed.

Lemma keep_detected_guarded fs : guarded dr_result (keep_detected fs).
Proof. apply guarded_modify. intros w Hs. by apply add_findings_safe in Hs as [_ Hs]. Qed.

Lemma keep_field_guarded f : guarded dr_result (keep_field f).
Proof. by apply guarded_modify. Qed.

Lemma keep_keycap_guarded t : guarded dr_result (keep_keycap t).
Proof. by apply guarded_modify. Qed.

Lemma keep_seen_guarded s : guarded dr_result (keep_seen s).
Proof. by apply guarded_modify. Qed.

Lemma win_tick_guarded {A} (m : scan A) : guarded wn_result (win_tick m).
Proof. intros w r w'. unfold win_tick. destruct (m (wn_clock w)). by intros [= _ <-]. Qed.

Lemma win_add_guarded f : guarded wn_result (win_add f).
Proof. apply guarded_modify. intros w. apply add_finding_grows. Qed.

Lemma win_stop_guarded : guarded wn_result win_stop.
Proof. by apply guarded_modify. Qed.

Lemma win_store_guarded key found : guarded wn_result (win_store key found).
Proof. by apply guarded_modify. Qed.

Lemma win_reset_guarded : guarded wn_result win_reset_skips.
Proof. by apply guarded_modify. Qed.

Lemma win_count_guarded skip : guarded wn_result (win_count skip).
Proof. intros w r w'. unfold win_count. destruct skip; by intros [= _ <-]. Qed.

Lemma tick_guarded {A} (m : scan A) : guarded wo_result (tick m).
Proof. intros w r w'. unfold tick. destruct (m (wo_clock w)). by intros [= _ <-]. Qed.

Lemma update_guarded f : (forall r, is_safe (f r) = true -> is_safe r = true) -> guarded wo_result (update f).
Proof. intros Hf. apply guarded_modify. intros w. apply Hf. Qed.

Lemma own_encoded_guarded m : guarded ew_result m -> guarded wo_result (own_encoded m).
Proof. intros Hm w r w'. unfold own_encoded. destruct (m _) as [r1 e] eqn:E. intros [= _ <-] Hs. by apply (Hm _ _ _ E) in Hs. Qed.

#[export] Hint Resolve direct_tick_guarded direct_result_guarded direct_encoded_guarded keep_rules_guarded keep_detected_guarded keep_field_guarded
  keep_keycap_guarded keep_seen_guarded win_tick_guarded win_add_guarded win_stop_guarded win_store_guarded win_reset_guarded win_count_guarded
  tick_guarded update_guarded own_encoded_guarded : guard.

Section growing.
Context `{UnicodeDb} `{Clock} `{Confusables} `{Detectors} `{CaseDb}.

(** [_deadline_reached] adds a finding exactly when it says so. *)
Lemma deadline_reached_inv r deadline tl n r' b n' : _deadline_reached r deadline tl n = (Ok (r', b), n') ->
  (b = true /\ is_safe r' = false) \/ (b = false /\ r' = r).
Proof.
  unfold _deadline_reached. intros (is_late & n1 & _ & Hret)%bind_ok_inv. injection Hret as Hr _. destruct is_late; injection Hr as <- <-; [left|by right].
  by rewrite add_finding_unsafe.
Qed.

(** [_deadline_reached] never raises. *)
Lemma deadline_reached_ok r deadline tl n : exists p n', _deadline_reached r deadline tl n = (Ok p, n').
Proof. unfold _deadline_reached, mbind, eff_bind. destruct (late_ok deadline n) as (b & n' & ->). by eexists _, _. Qed.

Lemma direct_late_guarded o : guarded dr_result (direct_late o).
Proof.
  intros w r w'. unfold direct_late, mbind, eff_bind, get_state, direct_tick. destruct (_deadline_reached (dr_result w) _ _ _) as [[[r1 b]|e] n1] eqn:E.
  - intros [= _ <-] Hs. simpl in Hs. by destruct (deadline_reached_inv _ _ _ _ _ _ _ E) as [[_ Hu]|[_ ->]]; [rewrite Hu in Hs|].
  - by intros [= _ <-].
Qed.

Lemma win_late_guarded env : guarded wn_result (win_late env).
Proof.
  intros w r w'. unfold win_late, mbind, eff_bind, get_state, win_tick. destruct (_deadline_reached (wn_result w) _ _ _) as [[[r1 b]|e] n1] eqn:E.
  - intros [= _ <-] Hs. simpl in Hs. by destruct (deadline_reached_inv _ _ _ _ _ _ _ E) as [[_ Hu]|[_ ->]]; [rewrite Hu in Hs|].
  - by intros [= _ <-].
Qed.

Lemma reached_guarded deadline tl : guarded wo_result (reached deadline tl).
Proof.
  intros w r w'. unfold reached, mbind, eff_bind, get_state, tick. destruct (_deadline_reached (wo_result w) _ _ _) as [[[r1 b]|e] n1] eqn:E.
  - intros [= _ <-] Hs. simpl in Hs. by destruct (deadline_reached_inv _ _ _ _ _ _ _ E) as [[_ Hu]|[_ ->]]; [rewrite Hu in Hs|].
  - by intros [= _ <-].
Qed.
#[local] Hint Resolve direct_late_guarded win_late_guarded reached_guarded : guard.

Lemma direct_field_guarded o index f : guarded dr_result (direct_field o index f).
Proof. unfold direct_field. guarding. Qed.
#[local] Hint Resolve direct_field_guarded : guard.

Lemma direct_loop_guarded o fields : forall index, guarded dr_result (direct_loop o index fields).
Proof. induction fields as [|f fields IH]; intros index; cbn [direct_loop]; guarding. Qed.

Lemma exempt_guarded f window : guarded wn_result (exempt f window).
Proof. unfold exempt. guarding. Qed.
#[local] Hint Resolve exempt_guarded : guard.

Lemma report_rules_guarded env window fragments fs : guarded wn_result (report_rules env window fragments fs).
Proof. induction fs as [|f fs IH]; cbn [report_rules]; guarding. Qed.

Lemma report_detected_guarded env window fragments fs : guarded wn_result (report_detected env window fragments fs).
Proof. unfold report_detected. guarding. Qed.

Lemma window_findings_guarded env key window strip : guarded wn_result (window_findings env key window strip).
Proof. unfold window_findings. guarding. Qed.
#[local] Hint Resolve report_rules_guarded report_detected_guarded window_findings_guarded : guard.

Lemma scan_window_guarded env key window fragments skip : guarded wn_result (_scan_window env key window fragments skip).
Proof. unfold _scan_window. guarding. Qed.
#[local] Hint Resolve scan_window_guarded : guard.

Lemma run_stages_guarded consume stages : (forall w, guarded wn_result (consume w)) -> guarded wn_result (run_stages consume stages).
Proof. intros Hc. induction stages as [|st stages IH]; cbn [run_stages]; guarding. Qed.
#[local] Hint Resolve run_stages_guarded : guard.

Lemma rolling_marked_guarded env group : forall fragments, guarded wn_result (rolling_marked env fragments group).
Proof. induction group as [|[key value] group IH]; intros fragments; cbn [rolling_marked]; guarding. Qed.

Lemma rolling_plain_guarded env group : forall st, guarded wn_result (rolling_plain env st group).
Proof. induction group as [|[key value] group IH]; intros st; cbn [rolling_plain]; guarding. Qed.
#[local] Hint Resolve rolling_marked_guarded rolling_plain_guarded : guard.

Lemma rolling_group_guarded env group : guarded wn_result (_scan_rolling_group env group).
Proof. unfold _scan_rolling_group. guarding. Qed.
#[local] Hint Resolve rolling_group_guarded : guard.

Lemma skip_loop_guarded env key groups : guarded wn_result (skip_loop env key groups).
Proof. induction groups as [|fragments groups IH]; cbn [skip_loop]; unfold skip_windows; guarding. Qed.
#[local] Hint Resolve skip_loop_guarded : guard.

Lemma skip_groups_guarded env groups : guarded wn_result (_scan_skip_groups env groups).
Proof. induction groups as [|group groups IH]; cbn [_scan_skip_groups]; guarding. Qed.

Lemma rolling_groups_guarded env groups : guarded wn_result (rolling_groups env groups).
Proof. induction groups as [|group groups IH]; cbn [rolling_groups]; guarding. Qed.
#[local] Hint Resolve skip_groups_guarded rolling_groups_guarded : guard.

Lemma scan_windows_guarded env fields : guarded wn_result (scan_windows env fields).
Proof. unfold scan_windows. guarding. Qed.

Lemma until_late_guarded {X} deadline tl (f : X -> eff world unit) l : (forall x, guarded wo_result (f x)) -> guarded wo_result (until_late deadline tl f l).
Proof. intros Hf. induction l as [|x l IH]; cbn [until_late]; guarding. Qed.

Lemma scan_decoded_guarded operation deadline c : guarded wo_result (scan_decoded operation deadline c).
Proof. unfold scan_decoded. guarding. Qed.
#[local] Hint Resolve until_late_guarded scan_decoded_guarded : guard.

Lemma split_group_guarded operation deadline tl group cache : guarded wo_result (split_group operation deadline tl group cache).
Proof. unfold split_group. guarding. Qed.
#[local] Hint Resolve split_group_guarded : guard.

Lemma split_groups_guarded operation deadline tl groups : forall seen exhausted cache,
  guarded wo_result (split_groups operation deadline tl seen exhausted cache groups).
Proof. induction groups as [|group groups IH]; intros seen exhausted cache; cbn [split_groups]; guarding. Qed.
#[local] Hint Resolve split_groups_guarded : guard.

Lemma split_base64_guarded fields operation deadline tl : guarded wo_result (_scan_split_base64 fields operation deadline tl).
Proof. unfold _scan_split_base64. guarding. Qed.
#[local] Hint Resolve split_base64_guarded : guard.

Lemma scan_across_guarded o split d : guarded wo_result (scan_across o split d).
Proof.
  unfold scan_across. guarding. intros w r w'. unfold in_world. destruct (scan_windows _ _ _) as [r1 s] eqn:E. intros [= _ <-] Hs.
  by apply (scan_windows_guarded _ _ _ _ _ E) in Hs.
Qed.
End growing.

(** ** Safe verdicts: every field was looked at

    A run of the scan that ends with a safe verdict has canonicalized every field
    that is not approved, and neither a rule nor a detector found anything in its
    canonical text. *)

Section fields.
Context `{UnicodeDb} `{Clock} `{Confusables} `{Detectors} `{CaseDb}.

(** No reading of a text contains a rule, in any form the rules look at. *)
Definition no_rule (compact strip : bool) (t : text) : Prop :=
  forall t' s, t' = t \/ reading t t' -> rule_occurs compact strip t' s -> False.

(** The forms of a text the detectors look at. *)
Definition preferred_form (t : text) : text := if all_ascii t then t else concat (map preferred_char t).
Definition official_form (t : text) : text := if all_ascii t then t else concat (map official_char t).

(** No detector reports one of them. *)
Definition no_detection (key : text) (operation : string) (t : text) : Prop :=
  t = [] \/ forall d c, d ∈ _DETECTORS -> c ∈ [t; preferred_form t; official_form t] ->
    detector_finding (dt_inspect d key c operation) (dt_matches d c) c false = None.

Lemma rule_scan_clean t deadline strip compact n n' : _scan_rule_variants t deadline strip compact false n = (Ok [], n') -> no_rule compact strip t.
Proof.
  intros Hrun t' [matched reason] Ht Ho. apply rule_scan_spec in Hrun as [?%elem_of_nil|Hiff]; [done|].
  destruct (proj2 (Hiff matched reason)) as (f & ?%elem_of_nil & _); [by exists t'|done].
Qed.

Lemma no_rule_weaken compact strip t : no_rule compact strip t -> no_rule compact false t.
Proof. intros Hn t' s Ht (t'' & sc & Ht'' & Hsc). apply (Hn t' s Ht). exists t'', sc. split; [|done]. destruct Ht'' as [->|[? _]]; [by left|done]. Qed.

Lemma collect_nonempty all_hits findings f : collect_finding all_hits findings f <> [].
Proof.
  unfold collect_finding. destruct (existsb _ findings) eqn:E; simpl; [|by destruct findings]. destruct findings as [|g gs]; [done|].
  destruct all_hits; [|done]. simpl. by destruct (same_finding f g).
Qed.

Lemma detectors_loop_silent deadline key operation all_hits c ds : forall findings n n',
  detectors_loop deadline key operation all_hits c ds findings n = (Ok [], n') ->
  findings = [] /\ forall d, d ∈ ds -> detector_finding (dt_inspect d key c operation) (dt_matches d c) c all_hits = None.
Proof.
  induction ds as [|d ds IH]; intros findings n n' Hrun; [injection Hrun as -> _; split; [done|by intros d ?%elem_of_nil]|].
  cbn [detectors_loop] in Hrun. apply bind_ok_inv in Hrun as (? & n1 & _ & Hrun). apply IH in Hrun as [Hf Hds].
  destruct (detector_finding _ _ _ _) as [f|] eqn:Ed; [by apply collect_nonempty in Hf|]. split; [done|]. intros d' [->|Hin]%elem_of_cons; auto.
Qed.

Lemma candidates_loop_silent deadline key operation all_hits cs : forall findings n n',
  candidates_loop deadline key operation all_hits cs findings n = (Ok [], n') ->
  findings = [] /\ forall d c, d ∈ _DETECTORS -> c ∈ cs -> detector_finding (dt_inspect d key c operation) (dt_matches d c) c all_hits = None.
Proof.
  induction cs as [|c cs IH]; intros findings n n' Hrun; [injection Hrun as -> _; split; [done|by intros d c _ ?%elem_of_nil]|].
  cbn [candidates_loop] in Hrun. apply bind_ok_inv in Hrun as (fs & n1 & Hds & Hrun). apply IH in Hrun as [-> Hcs].
  apply detectors_loop_silent in Hds as [-> Hds]. split; [done|]. intros d c' Hd [->|Hin]%elem_of_cons; auto.
Qed.

Lemma amg_scan_clean key t operation deadline n n' : _amg_scan key t operation deadline false n = (Ok [], n') -> no_detection key operation t.
Proof.
  unfold _amg_scan. destruct t as [|c0 t0] eqn:Et; [by left|]. rewrite <- Et. intros (p & n1 & Hp & Hrun)%bind_ok_inv.
  apply bind_ok_inv in Hrun as (q & n2 & Hq & Hrun). right. intros d c Hd Hc. apply candidates_loop_silent in Hrun as [_ Hall]. apply Hall; [done|].
  apply dict_fromkeys_spec. revert Hc. unfold preferred_form, official_form, preferred_confusable_variant, official_confusable_variant in *.
  destruct (all_ascii t); [injection Hp as <- _; injection Hq as <- _; done|].
  apply check_each_inv in Hp as [? [= <- _]]. apply check_each_inv in Hq as [? [= <- _]]. done.
Qed.

(** ** One field *)

(** The canonical text of a field and how it came about: a field that was carried
    over is canonical already. *)
Definition canonical_form (o : DirectScanOptions) (index : nat) (f : field) (t : text) (ts : list string) : Prop :=
  if (index <? do_prefix_fields o)%nat then t = rt_text (fi_raw f) /\ ts = []
  else exists n n', canonicalize_content (rt_text (fi_raw f)) (do_deadline o) n = (Ok (t, ts), n').

(** A field is exempt when it is a value with the mark of an approved field. *)
Definition approved (o : DirectScanOptions) (f : field) : bool := negb (fi_is_key f) && reviewed (with_provenance o f []).

(** What was found out about a canonical text of a kind: a field up to an index has
    it, and neither the rules, with the digits inside words removed when that field
    was written with key caps, nor the detectors on that field found anything. *)
Definition judged (o : DirectScanOptions) (all : list field) (index : nat) (is_key : bool) (t : text) : Prop :=
  exists j g ts, (j <= index)%nat /\ all !! j = Some g /\ fi_is_key g = is_key /\ canonical_form o j g t ts
    /\ no_rule false (elem "keycap"%string ts) t /\ no_detection (fi_key g) (do_operation o) t.

Lemma judged_mono o all index index' is_key t : (index <= index')%nat -> judged o all index is_key t -> judged o all index' is_key t.
Proof. intros Hle (j & g & ts & Hj & Hrest). exists j, g, ts. split; [lia|done]. Qed.

Definition quiet (ts : list string) : Prop := _add_unicode_findings ts no_findings = no_findings.

(** All the texts scanned so far are clean, and no rule or detector matched. *)
Definition clean_so_far (o : DirectScanOptions) (all : list field) (index : nat) (w : direct) : Prop :=
  (forall s, s ∈ dr_seen w -> judged o all index s.2 s.1) /\ dr_rules w = [] /\ dr_detectors w = [].

Lemma clean_so_far_mono o all index index' w : (index <= index')%nat -> clean_so_far o all index w -> clean_so_far o all index' w.
Proof. intros Hle [Hs Hr]. split; [|done]. intros s Hin. by eapply judged_mono, Hs. Qed.

Lemma reviewed_provenance o f t : reviewed (with_provenance o f t) = reviewed (with_provenance o f []).
Proof. unfold reviewed, with_provenance, occurrence_origin. by destruct (_ || _). Qed.

Lemma with_provenance_text o f t : rt_text (with_provenance o f t) = t.
Proof. unfold with_provenance. by destruct (_ || _). Qed.

Definition kept (o : DirectScanOptions) (f : field) (t : text) : list field :=
  if fi_isolated f then [] else [mkField (fi_key f) (with_provenance o f t) false (fi_is_key f)].

(** A state differs in its clock, transformations and counters only. *)
Definition same_lists (w w' : direct) : Prop :=
  dr_seen w' = dr_seen w /\ dr_rules w' = dr_rules w /\ dr_detectors w' = dr_detectors w /\ dr_keycaps w' = dr_keycaps w.

Lemma direct_tick_inv {A} (m : scan A) w a w' : direct_tick m w = (Ok a, w') ->
  (exists n, m (dr_clock w) = (Ok a, n)) /\ dr_result w' = dr_result w /\ dr_fields w' = dr_fields w /\ same_lists w w'.
Proof. unfold direct_tick. destruct (m (dr_clock w)) as [r n]. intros [= -> <-]. split; [by exists n|done]. Qed.

Lemma canonical_start o index f w t ts w' :
  (if (index <? do_prefix_fields o)%nat then mret (rt_text (fi_raw f), []) else direct_tick (canonicalize_content (rt_text (fi_raw f)) (do_deadline o))) w
    = (Ok (t, ts), w') ->
  canonical_form o index f t ts /\ dr_result w' = dr_result w /\ dr_fields w' = dr_fields w /\ same_lists w w'.
Proof.
  unfold canonical_form. destruct (index <? _)%nat; [by intros [= <- <- <-]|]. intros [[n Hrun] Hw]%direct_tick_inv. split; [|done]. by exists (dr_clock w), n.
Qed.

Lemma keep_rules_clean fs w w' u : keep_rules fs w = (Ok u, w') -> is_safe (dr_result w') = true -> fs = [] /\ w' = w.
Proof. unfold keep_rules, modify. intros [= _ <-] Hs. apply add_findings_safe in Hs as [-> _]. split; [done|]. by destruct w. Qed.

Lemma keep_detected_clean fs w w' u : keep_detected fs w = (Ok u, w') -> is_safe (dr_result w') = true -> fs = [] /\ w' = w.
Proof. unfold keep_detected, modify. intros [= _ <-] Hs. apply add_findings_safe in Hs as [-> _]. split; [done|]. by destruct w. Qed.

Lemma direct_encoded_inv own m w u w' : direct_encoded own m w = (Ok u, w') -> dr_fields w' = dr_fields w /\ same_lists w w'.
Proof. unfold direct_encoded. destruct (m _) as [r e]. by intros [= _ <-]. Qed.

Lemma set_add_elem {A} `{EqDecision A} (x y : A) l : y ∈ set_add x l <-> y = x \/ y ∈ l.
Proof. unfold set_add. destruct (elem x l) eqn:E; [apply elem_true in E; set_solver|set_solver]. Qed.

(** A field in a safe run: what its canonical text is, and that it is clean. *)
Lemma direct_field_clean o all index f w b w' : direct_field o index f w = (Ok b, w') -> is_safe (dr_result w') = true -> clean_so_far o all index w ->
  all !! index = Some f ->
  exists t ts, canonical_form o index f t ts /\ clean_so_far o all index w' /\ dr_fields w' = dr_fields w ++ kept o f t
    /\ (forall c, c ∈ dr_keycaps w -> c ∈ dr_keycaps w') /\ (elem "keycap"%string ts = true -> t ∈ dr_keycaps w')
    /\ (approved o f = false -> judged o all index (fi_is_key f) t /\ quiet ts).
Proof.
  intros Hrun Hs Hclean Hat. unfold direct_field in Hrun. apply bind_ok_inv in Hrun as ([t ts] & w1 & Hcan & Hrun).
  apply canonical_start in Hcan as (Hform & Hr1 & Hf1 & Hl1). exists t, ts. split; [done|].
  apply bind_ok_inv in Hrun as (? & w2 & Ht & Hrun). cbv zeta in Hrun. apply bind_ok_inv in Hrun as (? & w3 & Hkeep & Hrun).
  apply bind_ok_inv in Hrun as (? & w4 & Hcap & Hrun). injection Ht as _ <-.
  assert (H4' : dr_fields w4 = dr_fields w ++ kept o f t /\ dr_seen w4 = dr_seen w /\ dr_rules w4 = dr_rules w /\ dr_detectors w4 = dr_detectors w
    /\ (forall c, c ∈ dr_keycaps w -> c ∈ dr_keycaps w4) /\ (elem "keycap"%string ts = true -> t ∈ dr_keycaps w4)).
  { destruct Hl1 as (E1 & E2 & E3 & E4). unfold kept. destruct (fi_isolated f); injection Hkeep as _ <-; (destruct (elem "keycap"%string ts); injection Hcap as _ <-);
      simpl; rewrite ?Hf1, ?app_nil_r, E1, E2, E3, E4; split_and!; try done; intros; apply set_add_elem; auto. }
  clear Hkeep Hcap Hf1 Hl1 Hr1. destruct H4' as (Hf4 & Es4 & Er4 & Ed4 & Hk4 & Hkt4).
  assert (Hclean4 : clean_so_far o all index w4) by (unfold clean_so_far; by rewrite Es4, Er4, Ed4). clear Es4 Er4 Ed4.
  unfold approved. rewrite <- (reviewed_provenance o f t). destruct (negb (fi_is_key f) && _) eqn:Eap; [injection Hrun as _ <-; by split_and!|].
  apply bind_ok_inv in Hrun as (? & w5 & Huni & Hrun).
  assert (Hs5 : is_safe (dr_result w5) = true) by (revert Hrun Hs; match goal with |- ?m w5 = _ -> _ => assert (Hg : guarded dr_result m) by guarding; apply Hg end).
  injection Huni as _ <-. apply unicode_findings_safe in Hs5 as [_ Hquiet]. apply bind_ok_inv in Hrun as (? & w6 & Hget & Hrun). injection Hget as <- <-.
  destruct (elem (t, fi_is_key f) _) eqn:Eseen.
  { injection Hrun as _ <-. split; [exact Hclean4|]. split; [exact Hf4|]. split; [exact Hk4|]. split; [exact Hkt4|]. intros _. split; [|done]. apply elem_true in Eseen. by apply (proj1 Hclean4 _ Eseen). }
  apply bind_ok_inv in Hrun as (? & w7 & Hseen & Hrun). injection Hseen as _ <-. apply bind_ok_inv in Hrun as (rules & w8 & Hrules & Hrun).
  apply direct_tick_inv in Hrules as ([n8 Hrules] & _ & Hf8 & Hl8). apply bind_ok_inv in Hrun as (? & w9 & Hkr & Hrun).
  assert (Hs9 : is_safe (dr_result w9) = true) by (revert Hrun Hs; match goal with |- ?m w9 = _ -> _ => assert (Hg : guarded dr_result m) by guarding; apply Hg end).
  apply keep_rules_clean in Hkr as [-> ->]; [|done]. apply bind_ok_inv in Hrun as (detected & w10 & Hdet & Hrun).
  apply direct_tick_inv in Hdet as ([n10 Hdet] & _ & Hf10 & Hl10). apply bind_ok_inv in Hrun as (? & w11 & Hkd & Hrun).
  assert (Hs11 : is_safe (dr_result w11) = true) by (revert Hrun Hs; match goal with |- ?m w11 = _ -> _ => assert (Hg : guarded dr_result m) by guarding; apply Hg end).
  apply keep_detected_clean in Hkd as [-> ->]; [|done]. apply bind_ok_inv in Hrun as (? & w12 & Henc & Hrun). injection Hrun as _ <-.
  apply direct_encoded_inv in Henc as [Hf12 Hl12].
  assert (Hct : judged o all index (fi_is_key f) t).
  { exists index, f, ts. split_and!; [done|done|done|done| |by eapply amg_scan_clean]. eapply rule_scan_clean. exact Hrules. }
  unfold same_lists in *. simpl in *. destruct Hl8 as (E1 & E2 & E3 & E4), Hl10 as (E5 & E6 & E7 & E8), Hl12 as (E9 & E10 & E11 & E12), Hclean4 as (Hc1 & Hc2 & Hc3).
  unfold clean_so_far. rewrite E12, E8, E4, E9, E5, E1, E10, E6, E2, E11, E7, E3. split_and!; try done; [|congruence].
  intros s. rewrite set_add_elem. intros [->|Hin]; [done|by apply Hc1].
Qed.

(** ** All fields *)

(** A field with an acceptable size. *)
Definition acceptable (f : field) : Prop :=
  encodable (rt_text (fi_raw f)) = true /\ nbytes (rt_text (fi_raw f)) <= MAX_SCAN_FIELD_BYTES
  /\ _exceeds_non_ascii_budget (rt_text (fi_raw f)) MAX_NON_ASCII_CODEPOINTS = false.

(** The fields from an index on were scanned, with the canonical fields kept and the
    texts that were written with key caps. *)
Inductive scanned (o : DirectScanOptions) (all : list field) (caps : list text) : nat -> list field -> list field -> Prop :=
  | scanned_nil index : scanned o all caps index [] []
  | scanned_cons index f t ts fields canonical :
      (index < MAX_SCAN_FIELDS)%nat -> acceptable f -> canonical_form o index f t ts -> (elem "keycap"%string ts = true -> t ∈ caps) ->
      (approved o f = false -> judged o all index (fi_is_key f) t /\ quiet ts) ->
      scanned o all caps (S index) fields canonical -> scanned o all caps index (f :: fields) (kept o f t ++ canonical).

Lemma direct_late_inv o w b w' : direct_late o w = (Ok b, w') -> is_safe (dr_result w') = true -> b = false /\ dr_fields w' = dr_fields w /\ same_lists w w'.
Proof.
  unfold direct_late, mbind, eff_bind, get_state, direct_tick. destruct (_deadline_reached (dr_result w) _ _ _) as [[[r1 b1]|e] n1] eqn:E; [|done].
  intros [= <- <-] Hs. simpl in Hs. by destruct (deadline_reached_inv _ _ _ _ _ _ _ E) as [[_ Hu]|[-> ->]]; [rewrite Hu in Hs|].
Qed.

Lemma same_lists_clean o all index w w' : same_lists w w' -> clean_so_far o all index w -> clean_so_far o all index w'.
Proof. intros (E1 & E2 & E3 & _) Hc. unfold clean_so_far. by rewrite E1, E2, E3. Qed.

Lemma direct_report_unsafe f w u w' : direct_result (add_finding f) w = (Ok u, w') -> is_safe (dr_result w') = true -> False.
Proof. intros [= _ <-]. apply add_finding_safe. Qed.

Lemma direct_loop_scanned o all fields : forall index w u w', direct_loop o index fields w = (Ok u, w') -> is_safe (dr_result w') = true ->
  drop index all = fields -> clean_so_far o all index w ->
  clean_so_far o all (length all) w' /\ (forall c, c ∈ dr_keycaps w -> c ∈ dr_keycaps w')
  /\ exists canonical, dr_fields w' = dr_fields w ++ canonical /\ scanned o all (dr_keycaps w') index fields canonical.
Proof.
  induction fields as [|f fields IH]; intros index w u w' Hrun Hs Hdrop Hclean.
  { injection Hrun as _ <-. split; [destruct Hclean as [Hseen Hrest]; split; [|done]; intros s Hin; destruct (Hseen s Hin) as (j & g & ts & _ & Hg & Hj); exists j, g, ts; split; [|done];
      apply lookup_lt_Some in Hg; lia|]. split; [done|]. exists []. rewrite app_nil_r. split; [done|constructor]. }
  assert (Hat : all !! index = Some f) by (rewrite <- (Nat.add_0_r index), <- lookup_drop, Hdrop; done).
  assert (Hdrop' : drop (S index) all = fields) by (by rewrite <- Nat.add_1_r, <- drop_drop, Hdrop).
  cbn [direct_loop] in Hrun. apply bind_ok_inv in Hrun as (is_late & w1 & Hlate & Hrun). apply direct_tick_inv in Hlate as (_ & _ & Hf1 & Hl1).
  apply (same_lists_clean _ _ _ _ _ Hl1) in Hclean. rewrite <- Hf1. destruct Hl1 as (_ & _ & _ & <-). clear Hf1.
  destruct is_late; [by eapply direct_report_unsafe in Hrun|].
  destruct (MAX_SCAN_FIELDS <=? index)%nat eqn:Eidx; [by eapply direct_report_unsafe in Hrun|]. apply Nat.leb_gt in Eidx.
  destruct (_string_exceeds_scan_limit _) as [[]|] eqn:Esize; [by eapply direct_report_unsafe in Hrun| |done].
  destruct (_exceeds_non_ascii_budget _ _) eqn:Euni; [by eapply direct_report_unsafe in Hrun|].
  assert (Hacc : acceptable f).
  { unfold _string_exceeds_scan_limit in Esize. destruct (_ <? tlen _); [done|]. destruct (encodable _) eqn:Een; [|done]. injection Esize as Hn%Z.ltb_ge. by split_and!. }
  apply bind_ok_inv in Hrun as (r & w2 & Hcatch & Hrun). unfold catch_deadline, try_except in Hcatch. unfold mbind at 1, eff_bind in Hcatch.
  destruct (direct_field o index f w1) as [[b|e] w2'] eqn:Efield.
  - injection Hcatch as <- <-.
    assert (Hs2 : is_safe (dr_result w2') = true).
    { revert Hrun Hs. destruct b; [|apply direct_loop_guarded]. intros (reach & w3 & Hl & Hrun)%bind_ok_inv Hs. eapply direct_late_guarded; [exact Hl|].
      destruct reach; [by injection Hrun as _ <-|]. by eapply direct_loop_guarded. }
    destruct (direct_field_clean _ _ _ _ _ _ _ Efield Hs2 Hclean Hat) as (t & ts & Hform & Hclean2 & Hf2 & Hk2 & Hkt & Hok).
    assert (Hnext : exists w3, direct_loop o (S index) fields w3 = (Ok u, w') /\ clean_so_far o all index w3 /\ dr_fields w3 = dr_fields w2' /\ dr_keycaps w3 = dr_keycaps w2').
    { destruct b; [|by exists w2']. apply bind_ok_inv in Hrun as (reach & w3 & Hl & Hrun).
      assert (Hs3 : is_safe (dr_result w3) = true) by (destruct reach; [by injection Hrun as _ <-|by eapply direct_loop_guarded]).
      destruct (direct_late_inv _ _ _ _ Hl Hs3) as (-> & Hf3 & Hl3). exists w3. split; [done|]. split; [by eapply same_lists_clean|]. split; [done|]. apply Hl3. }
    destruct Hnext as (w3 & Hloop & Hclean3 & Hf3 & Hk3). apply (clean_so_far_mono _ _ _ (S index)) in Hclean3; [|lia].
    destruct (IH _ _ _ _ Hloop Hs Hdrop' Hclean3) as (Hclean' & Hk' & canonical & Hf' & Hsc). rewrite Hk3 in Hk'.
    split; [done|]. split; [auto|]. exists (kept o f t ++ canonical). rewrite Hf', Hf3, Hf2, <- app_assoc. split; [done|]. econstructor; eauto.
  - destruct (is_deadline e); [|done]. injection Hcatch as <- <-. injection Hrun as _ <-. exfalso. revert Hs. apply add_finding_safe.
Qed.

(** The part of [_scan_fields] after the direct scan starts from its result. *)
Lemma scan_fields_inv o split fields n r canonical n' : _scan_fields o split fields n = (Ok (r, canonical), n') ->
  exists w w', direct_loop o 0 fields (direct_start n) = (Ok (), w) /\ canonical = dr_fields w
    /\ scan_across o split w (mkWorld (dr_clock w) (dr_result w)) = (Ok (), w') /\ r = wo_result w'.
Proof.
  unfold _scan_fields. intros (d & n1 & Hd & Hrun)%bind_ok_inv. apply bind_ok_inv in Hrun as (r' & n2 & Ha & Hret). injection Hret as <- <- _.
  unfold _scan_direct_fields in Hd. destruct (direct_loop o 0 fields (direct_start n)) as [[[]|e] w] eqn:E; [|done]. injection Hd as <- <-.
  unfold from_result in Ha. destruct (scan_across o split w _) as [[[]|e] w'] eqn:E'; [|done]. injection Ha as <- _. by exists w, w'.
Qed.

Lemma scan_fields_safe o split fields n r canonical n' : _scan_fields o split fields n = (Ok (r, canonical), n') -> is_safe r = true ->
  exists w w', scanned o fields (dr_keycaps w) 0 fields canonical /\ canonical = dr_fields w /\ clean_so_far o fields (length fields) w /\ is_safe (dr_result w) = true
    /\ scan_across o split w (mkWorld (dr_clock w) (dr_result w)) = (Ok (), w') /\ is_safe (wo_result w') = true.
Proof.
  intros (w & w' & Hd & -> & Ha & ->)%scan_fields_inv Hs. pose proof (scan_across_guarded _ _ _ _ _ _ Ha Hs) as Hs0. simpl in Hs0.
  assert (Hstart : clean_so_far o fields 0 (direct_start n)) by (split; [by intros s ?%elem_of_nil|done]).
  destruct (direct_loop_scanned _ _ _ _ _ _ _ Hd Hs0 (drop_0 _) Hstart) as (Hclean & _ & canonical & Hf & Hsc). simpl in Hf. rewrite <- Hf in Hsc. by exists w, w'.
Qed.
End fields.
