(* ===== verification/ScanEntry.v ===== *)
(** * The scans of requests and responses

    Models the entry points of [memory_router/security.py]: the scan in batches
    ([_scan_batched_fields]) with the fields it carries from one batch to the next
    ([_reassembly_carry]), and the scans of bodies, recalled memories and facade
    responses. The clock counts nanoseconds; sums of times are exact. *)

From Stdlib Require Import ZArith Lia Ascii.
From stdpp Require Import base sets strings numbers list.
From S2P Require Import Prelude Errors Text Json JsonParse FacadeRoutes OpenClaw Chars ScanModels RuleEdges ScanWindows Provenance UnicodeFold ScanRules Base64 EncodedScan Approval FieldWalk Scanner.

Local Open Scope Z_scope.

Definition seconds (n : Z) : Z := n * 1000000000.

Definition FACADE_SCAN_BATCH_FIELDS : nat := 32.
Definition FACADE_SCAN_CARRY_VALUES : nat := 4.
Definition MAX_FACADE_SCAN_FIELDS : Z := 8192.
Definition MAX_FACADE_SCAN_SECONDS : Z := 30.
Definition MAX_RETAIN_SCAN_FIELDS : Z := MAX_FACADE_SCAN_FIELDS.
Definition MAX_CORE_SCAN_SECONDS : Z := 5.

(** [_reassembly_carry]: the last fields, the last values and the last keys. *)
Definition last_n {A} (n : nat) (l : list A) : list A := drop (length l - n) l.

Definition carry_indices (fields : list field) (group_count : nat) : list nat :=
  let indexed := enumerate fields in
  last_n group_count (map fst indexed)
  ++ last_n group_count (map fst (List.filter (fun e : nat * field => negb (fi_is_key e.2)) indexed))
  ++ last_n group_count (map fst (List.filter (fun e : nat * field => fi_is_key e.2) indexed)).

Definition _reassembly_carry (fields : list field) (group_count : nat) : list field :=
  let selected := carry_indices fields group_count in
  map snd (List.filter (fun e : nat * field => elem e.1 selected) (enumerate fields)).

Section entry.
Context `{UnicodeDb} `{Clock} `{Confusables} `{Detectors} `{CaseDb}.

(** [time.monotonic()] *)
Definition read_clock : scan Z := fun n => (Ok (monotonic n), S n).

(** [time.monotonic() + s] *)
Definition deadline_in (s : Z) : scan Z := now ← read_clock; mret (now + s).

(** What the loop that fills a batch ends with: the deadline, the limit on the
    fields (with what is left), or a batch with what is left and the count. *)
Inductive batch_end :=
  | BatchLate
  | BatchLimit (rest : list field)
  | Batch (batch rest : list field) (scanned : Z).

Fixpoint fill_batch (deadline : option Z) (max_fields : Z) (room : nat) (batch fields : list field) (scanned : Z) : scan batch_end :=
  match room with
  | O => mret (Batch batch fields scanned)
  | S room' =>
      is_late ← late deadline;
      if is_late : bool then mret BatchLate
      else if max_fields <=? scanned then mret (BatchLimit fields)
      else match fields with
      | [] => mret (Batch batch [] scanned)
      | f :: rest => fill_batch deadline max_fields room' (batch ++ [f]) rest (scanned + 1)
      end
  end.

(** The parameters of [_scan_batched_fields]. *)
Record batch_options := mkBatch {
  bo_operation : string; bo_max_fields : Z; bo_field_limit : string; bo_deadline : option Z; bo_time_limit : option string
}.

(** [finish] *)
Definition finish (b : batch_options) (split_fields : list field) (combined : Verdict) : scan Verdict :=
  from_result combined
    (stop ← reached (bo_deadline b) (bo_time_limit b);
     if stop : bool then mret ()
     else
       _scan_split_base64 split_fields (bo_operation b) (bo_deadline b) (bo_time_limit b);;
       reached (bo_deadline b) (bo_time_limit b);; mret ()).

(** The options of the scan of one batch after some carried fields. *)
Definition batch_scan (b : batch_options) (carried : nat) : DirectScanOptions :=
  mkOptions (bo_operation b) true (bo_deadline b) (bo_time_limit b) carried [].

(** The main loop; every batch takes a field, so the fields are fuel enough. *)
Fixpoint batch_loop (b : batch_options) (fuel : nat) (fields : list field) (scanned : Z) (carry split_fields : list field) (combined : Verdict) : scan Verdict :=
  filled ← fill_batch (bo_deadline b) (bo_max_fields b) FACADE_SCAN_BATCH_FIELDS [] fields scanned;
  match filled with
  | BatchLate => mret (add_finding (time_finding (bo_time_limit b)) combined)
  | BatchLimit [] => finish b split_fields combined
  | BatchLimit (_ :: _) => finish b split_fields (add_finding (finding (bo_field_limit b) "span_limit") combined)
  | Batch [] _ _ => finish b split_fields combined
  | Batch batch rest scanned =>
      match fuel with
      | O => raise (EOther "fuel")
      | S fuel =>
          r ← _scan_fields (batch_scan b (length carry)) false (carry ++ batch);
          let '(batch_result, canonicalized) := r : Verdict * list field in
          let split_fields := split_fields ++ drop (length carry) canonicalized in
          let combined := extend_verdict batch_result combined in
          if match bo_time_limit b with Some m => reports m batch_result | None => false end then mret combined
          else batch_loop b fuel rest scanned (_reassembly_carry canonicalized FACADE_SCAN_CARRY_VALUES) split_fields combined
      end
  end.

(** [_scan_batched_fields] *)
Definition _scan_batched_fields (source : list field) (operation : string) (max_fields : Z) (field_limit_match : string)
    (deadline_seconds : option Z) (time_limit_match : option string) : scan Verdict :=
  deadline ← (match deadline_seconds with None => mret None | Some s => d ← deadline_in s; mret (Some d) end);
  batch_loop (mkBatch operation max_fields field_limit_match deadline time_limit_match) (length source) source 0 [] [] no_findings.

(** ** Entry points *)

(** [_scan_fields] with the core deadline. *)
Definition core_scan (fields : list field) (operation : string) (reviewed_fields : list text) : scan Verdict :=
  deadline ← deadline_in (seconds MAX_CORE_SCAN_SECONDS);
  r ← _scan_fields (mkOptions operation false (Some deadline) None 0 reviewed_fields) true fields;
  mret (fst (r : Verdict * list field)).

(** [scan_content] *)
Definition scan_content (content : text) (operation : string) (key : text) : scan Verdict :=
  core_scan [mkField key (plain content) false false] operation [].

(** [scan_retain_body] *)
Definition scan_retain_body (body : json) : scan Verdict :=
  _scan_batched_fields (_walk_strings (tree_of body) (u "retain") (mkMode false true)) "write" MAX_RETAIN_SCAN_FIELDS "field_limit"
    (Some (seconds MAX_CORE_SCAN_SECONDS)) (Some "time_limit"%string).

(** [scan_recall_body] *)
Definition scan_recall_body (body : json) : scan Verdict :=
  core_scan (_walk_strings (tree_of body) (u "recall") (mkMode false true)) "read" [].

(** [scan_recall_result] *)
Definition scan_recall_result (result : json) (reviewed_stable : bool) : scan Verdict :=
  core_scan (_walk_strings (tree_of result) (u "recalled_memory") (mkMode false false)) "read"
    (if reviewed_stable then [u "recalled_memory.id"; u "recalled_memory.text"] else []).

(** The mark of the field [id] or [text] of a result that was approved. *)
Definition mark_text (origin : Z) (v : tree) : tree := match v with TText r => TText (mkR (rt_text r) (Some (TInt origin))) | _ => v end.

Definition mark_result (position : Z) (result : tree) : tree :=
  match result with
  | TDict d =>
      TDict (map (fun kv : text * tree =>
        (kv.1, if bool_decide (kv.1 = u "id") then mark_text (2 * position + 1) kv.2
               else if bool_decide (kv.1 = u "text") then mark_text (2 * position + 2) kv.2 else kv.2)) d)
  | _ => result
  end.

(** The response with its approved results marked. A response that reaches the
    scan was validated: its [results] are a list of objects. *)
Definition marked_response (response : json) (positions : list Z) : tree :=
  match tree_of response with
  | TDict d =>
      TDict (match dict_get (u "results") d with
             | Some (TList results) =>
                 dict_set (u "results")
                   (TList (map (fun e : nat * tree => if elem (Z.of_nat e.1) positions then mark_result (Z.of_nat e.1) e.2 else e.2) (enumerate results))) d
             | Some _ => d
             | None => dict_set (u "results") (TList []) d
             end)
  | t => t
  end.

(** [scan_recall_response] *)
Definition scan_recall_response (response : json) (reviewed_result_positions : list Z) : scan Verdict :=
  core_scan (map (fun f => mkField (fi_key f) (marked (fi_raw f)) (fi_isolated f) (fi_is_key f))
               (_walk_strings (marked_response response reviewed_result_positions) (u "recalled_response") (mkMode true false))) "read" [].

(** The loop of [scan_facade_result] over the identifiers of a page: whether to
    go on. *)
Fixpoint scan_identifiers (deadline : Z) (result : list (string * json)) (names : list string) (combined : Verdict) : scan (Verdict * bool) :=
  match names with
  | [] => mret (combined, true)
  | name :: rest =>
      combined ← (match dict_get name result with
                  | Some (JStr identifier) =>
                      r ← _scan_fields (mkOptions "read" false (Some deadline) (Some "facade_time_limit"%string) 0 []) true
                            [mkField (u "facade_response." ++ u name) (plain (points identifier)) false false];
                      mret (extend_verdict (fst (r : Verdict * list field)) combined)
                  | _ => mret combined
                  end);
      r ← _deadline_reached combined (Some deadline) (Some "facade_time_limit"%string);
      let '(combined, stop) := r : Verdict * bool in
      if stop : bool then mret (combined, false) else scan_identifiers deadline result rest combined
  end.

(** [scan_facade_result]; the value to scan is another object exactly when the
    identifiers were blanked out. *)
Definition scan_facade_result (result : json) (separate_page_ids include_numbers : bool) : scan Verdict :=
  deadline ← deadline_in (seconds MAX_FACADE_SCAN_SECONDS);
  let scanned := if separate_page_ids then facade_response_scan_input (facade_route "POST" "knowledge-base/pages") result else result in
  r ← (match result with
       | JDict d => if bool_decide (scanned = result) then mret (no_findings, true)
                    else scan_identifiers deadline d ["page_id"; "mental_model_id"; "operation_id"]%string no_findings
       | _ => mret (no_findings, true)
       end);
  let '(combined, go_on) := r : Verdict * bool in
  if negb go_on then mret combined
  else
    now ← read_clock;
    batched ← _scan_batched_fields (_walk_strings (tree_of scanned) (u "facade_response") (mkMode include_numbers (negb include_numbers))) "read"
                MAX_FACADE_SCAN_FIELDS "facade_field_limit" (Some (Z.max 0 (deadline - now))) (Some "facade_time_limit"%string);
    r ← _deadline_reached (extend_verdict batched combined) (Some deadline) (Some "facade_time_limit"%string);
    mret (fst (r : Verdict * bool)).

(** [scan_facade_payload] *)
Definition scan_facade_payload (payload : string) (separate_page_ids include_numbers : bool) : scan Verdict :=
  match json_loads_bytes false false payload with
  | None => raise (EValueError "JSONDecodeError")
  | Some result => scan_facade_result result separate_page_ids include_numbers
  end.
End entry.
