(* ===== verification/ScanEntryProps.v ===== *)
(** * Scans of requests and responses: what is shown

    The scan in batches looks at every field: with a limit that is a multiple of
    the batch size no field is passed over. So a body that is found safe has only
    clean texts, keys included. *)

From Stdlib Require Import ZArith Lia Ascii.
From stdpp Require Import base sets strings numbers list.
From S2P Require Import Prelude Errors Text Json Chars ScanModels RuleEdges ScanWindows Provenance UnicodeFold UnicodeFoldProps Regex ScanRules ScanRulesProps Base64 EncodedScan Approval FieldWalk Scanner ScannerProps ScanEntry.

Local Open Scope Z_scope.

Section batches.
Context `{UnicodeDb} `{Clock} `{Confusables} `{Detectors} `{CaseDb}.

(** What filling a batch does with the fields. *)
Lemma fill_batch_spec deadline mx room : forall batch fields count n e n',
  fill_batch deadline mx room batch fields count n = (Ok e, n') ->
  match e with
  | BatchLate => True
  | BatchLimit rest => mx < count + Z.of_nat room /\ (mx <= count -> rest = fields)
  | Batch batch' rest count' =>
      exists taken, batch' = batch ++ taken /\ fields = taken ++ rest /\ count' = count + Z.of_nat (length taken)
        /\ (length taken = room \/ rest = []) /\ (count <= mx -> count' <= mx)
  end.
Proof.
  induction room as [|room IH]; intros batch fields count n e n' Hrun.
  { injection Hrun as <- _. exists []. rewrite app_nil_r. split_and!; [done|done|simpl; lia|by left|done]. }
  cbn [fill_batch] in Hrun. apply bind_ok_inv in Hrun as (is_late & n1 & _ & Hrun). destruct is_late; [by injection Hrun as <- _|].
  destruct (Z.leb_spec mx count) as [Hle|Hlt]; [injection Hrun as <- _; split; [lia|done]|].
  destruct fields as [|f fields].
  { injection Hrun as <- _. exists []. rewrite app_nil_r. split_and!; [done|done|simpl; lia|by right|done]. }
  apply IH in Hrun. destruct e as [|rest|batch' rest count']; [done|destruct Hrun as [Hr _]; split; [lia|lia]|].
  destruct Hrun as (taken & -> & -> & -> & Hend & Hle). exists (f :: taken). rewrite <- app_assoc. split_and!; [done|done|simpl; lia| |simpl; lia].
  destruct Hend as [<-|Hend]; [by left|by right].
Qed.

Lemma from_result_safe {A} r (m : eff world A) n r' n' : guarded wo_result m -> from_result r m n = (Ok r', n') -> is_safe r' = true -> is_safe r = true.
Proof. intros Hm. unfold from_result. destruct (m _) as [[a|e] w] eqn:E; [|done]. intros [= <- _] Hs. by apply (Hm _ _ _ E) in Hs. Qed.

#[local] Hint Resolve reached_guarded split_base64_guarded : guard.

Lemma finish_safe b split combined n r n' : finish b split combined n = (Ok r, n') -> is_safe r = true -> is_safe combined = true.
Proof. apply from_result_safe. guarding. Qed.

Lemma extend_verdict_safe other r : is_safe (extend_verdict other r) = true -> is_safe other = true /\ is_safe r = true.
Proof.
  unfold extend_verdict. rewrite add_transformations_safe. intros [Hf Hr]%add_findings_safe. split; [|done]. unfold is_safe. by rewrite Hf.
Qed.

(** A canonical text was scanned: a field of the same kind has it, the rules found
    nothing in any reading of it, also with the digits inside words removed if that
    field was written with key caps, and no detector reported it at that field. *)
Definition judged_in (deadline : option Z) (operation : string) (before : list field) (is_key : bool) (t : text) : Prop :=
  exists g ts n n', g ∈ before /\ fi_is_key g = is_key /\ canonicalize_content (rt_text (fi_raw g)) deadline n = (Ok (t, ts), n')
    /\ no_rule false (elem "keycap"%string ts) t /\ no_detection (fi_key g) operation t.

(** What a safe scan says of a field after others: its size is acceptable, it has a
    canonical text, its characters are not suspicious, and the text was scanned at
    this field or, when it is the text of an earlier one, at an earlier field. *)
Definition clean_field (deadline : option Z) (operation : string) (before : list field) (f : field) : Prop :=
  acceptable f /\ exists t ts n n', canonicalize_content (rt_text (fi_raw f)) deadline n = (Ok (t, ts), n') /\ quiet ts
    /\ judged_in deadline operation (before ++ [f]) (fi_is_key f) t.

Definition all_clean (deadline : option Z) (operation : string) (fields : list field) : Prop :=
  forall i f, fields !! i = Some f -> clean_field deadline operation (take i fields) f.

Lemma judged_in_mono deadline operation before before' is_key t : before ⊆ before' -> judged_in deadline operation before is_key t -> judged_in deadline operation before' is_key t.
Proof. intros Hsub (g & ts & n & n' & Hg & Hrest). exists g, ts, n, n'. split; [by apply Hsub|done]. Qed.

Lemma scanned_at o all caps fields : forall index canonical, scanned o all caps index fields canonical ->
  forall i f, fields !! i = Some f -> acceptable f /\ exists t ts, canonical_form o (index + i) f t ts
    /\ (approved o f = false -> judged o all (index + i) (fi_is_key f) t /\ quiet ts).
Proof.
  induction fields as [|g fields IH]; intros index canonical Hsc i f Hf; [done|]. inversion Hsc as [|? ? t ts ? c _ Hacc Hform _ Hok Hrest]; subst.
  destruct i as [|i]; [injection Hf as <-; rewrite Nat.add_0_r; split; [done|]; by exists t, ts|]. rewrite Nat.add_succ_r. by apply (IH _ _ Hrest).
Qed.

Lemma scanned_kept o all caps fields : forall index canonical, scanned o all caps index fields canonical ->
  forall c, c ∈ canonical -> exists i f t ts, fields !! i = Some f /\ canonical_form o (index + i) f t ts /\ c ∈ kept o f t
    /\ (approved o f = false -> judged o all (index + i) (fi_is_key f) t /\ quiet ts).
Proof.
  induction fields as [|g fields IH]; intros index canonical Hsc c Hc; inversion Hsc as [|? ? t ts ? c0 _ _ Hform _ Hok Hrest]; subst; [by apply elem_of_nil in Hc|].
  apply elem_of_app in Hc as [Hc|Hc]; [exists 0%nat, g, t, ts; rewrite Nat.add_0_r; by split_and!|].
  destruct (IH _ _ Hrest c Hc) as (i & f & t' & ts' & Hf & Hx). exists (S i), f, t', ts'. rewrite Nat.add_succ_r. by split.
Qed.

(** The fields that are carried into a batch were scanned before it. *)
Definition carried (deadline : option Z) (operation : string) (before carry : list field) : Prop :=
  forall c, c ∈ carry -> is_reviewed_text (fi_raw c) = false /\ judged_in deadline operation before (fi_is_key c) (rt_text (fi_raw c)).

Lemma judged_lift o before carry batch index is_key t : do_prefix_fields o = length carry -> carried (do_deadline o) (do_operation o) before carry ->
  judged o (carry ++ batch) index is_key t -> judged_in (do_deadline o) (do_operation o) (before ++ take (S index - length carry) batch) is_key t.
Proof.
  intros Hp Hcarry (j & g & ts & Hj & Hg & Hk & Hform & Hr & Hd). unfold canonical_form in Hform. rewrite Hp in Hform. destruct (Nat.ltb_spec j (length carry)) as [Hlt|Hge].
  - destruct Hform as [-> ->]. rewrite lookup_app_l in Hg by done. destruct (Hcarry g) as [_ Hin]; [by eapply list_elem_of_lookup_2|]. rewrite Hk in Hin.
    eapply judged_in_mono; [|exact Hin]. set_solver.
  - rewrite lookup_app_r in Hg by done. destruct Hform as (n & n' & Hc). exists g, ts, n, n'. split_and!; try done. apply elem_of_app. right.
    apply list_elem_of_lookup. exists (j - length carry)%nat. rewrite lookup_take_lt by lia. done.
Qed.

(** A field that is not approved, after the carried ones. *)
Lemma scanned_clean o before carry batch caps canonical : scanned o (carry ++ batch) caps 0 (carry ++ batch) canonical -> do_prefix_fields o = length carry ->
  carried (do_deadline o) (do_operation o) before carry ->
  forall i f, batch !! i = Some f -> approved o f = false -> clean_field (do_deadline o) (do_operation o) (before ++ take i batch) f.
Proof.
  intros Hsc Hp Hcarry i f Hf Hap. assert (Hat : (carry ++ batch) !! (length carry + i)%nat = Some f) by (by rewrite lookup_app_r, Nat.add_comm, Nat.add_sub by lia).
  destruct (scanned_at _ _ _ _ _ _ Hsc _ _ Hat) as (Hacc & t & ts & Hform & Hok). destruct (Hok Hap) as [Hj Hq]. split; [done|].
  cbn [Nat.add] in Hform, Hj. apply (judged_lift _ before) in Hj; [|done|done]. unfold canonical_form in Hform. rewrite Hp, (proj2 (Nat.ltb_ge _ _)) in Hform by lia.
  destruct Hform as (n & n' & Hc). exists t, ts, n, n'. split; [done|]. split; [done|]. eapply judged_in_mono; [|exact Hj].
  replace (S (length carry + i) - length carry)%nat with (S i) by lia. rewrite (take_S_r _ _ _ Hf). set_solver.
Qed.

Lemma plain_not_approved o f : do_reviewed_fields o = [] -> is_reviewed_text (fi_raw f) = false -> approved o f = false.
Proof. intros Hr Hf. unfold approved, with_provenance. rewrite Hr, Hf. simpl. by rewrite andb_false_r. Qed.

(** Multiples of the batch size. *)
Lemma multiples_apart a c : a mod 32 = 0 -> c mod 32 = 0 -> a < c + 32 -> a <= c.
Proof. intros Ha Hc Hlt. Z.to_euclidean_division_equations. lia. Qed.

Lemma multiple_next c : c mod 32 = 0 -> (c + 32) mod 32 = 0.
Proof. intros Hc. Z.to_euclidean_division_equations. lia. Qed.

(** The invariant of the main loop: only the last batch is not a full one. *)
Definition whole_batches (count : Z) (fields : list field) : Prop := count mod 32 = 0 \/ fields = [].

Lemma batch_limit_end b fields count split combined n r n' rest :
  bo_max_fields b mod 32 = 0 -> whole_batches count fields -> bo_max_fields b < count + 32 -> (bo_max_fields b <= count -> rest = fields) ->
  match rest with [] => finish b split combined | _ :: _ => finish b split (add_finding (finding (bo_field_limit b) "span_limit") combined) end n = (Ok r, n') ->
  is_safe r = true -> fields = [] /\ is_safe combined = true.
Proof.
  intros Hmax Hmod Hlt Hrest Hrun Hs. destruct rest as [|f rest]; [|apply finish_safe in Hrun; [by apply add_finding_safe in Hrun|done]].
  apply finish_safe in Hrun; [|done]. split; [|done]. destruct Hmod as [Hmod|]; [|done]. symmetry. apply Hrest. by apply multiples_apart.
Qed.

Lemma batch_loop_safe b fuel : forall fields count carry split combined n r n',
  batch_loop b fuel fields count carry split combined n = (Ok r, n') -> is_safe r = true -> is_safe combined = true.
Proof.
  induction fuel as [|fuel IH]; intros fields count carry split combined n r n' Hrun Hs; cbn [batch_loop] in Hrun;
    apply bind_ok_inv in Hrun as (e & n1 & _ & Hrun);
    (destruct e as [|[|? ?]|[|? ?] ? ?]; [injection Hrun as <- _; by apply add_finding_safe in Hs|by eapply finish_safe| |by eapply finish_safe|]).
  1,3: apply finish_safe in Hrun; [by apply add_finding_safe in Hrun|done].
  - done.
  - apply bind_ok_inv in Hrun as ([v c] & n2 & _ & Hrun). destruct (match bo_time_limit b with Some _ => _ | None => _ end).
    + injection Hrun as <- _. by apply extend_verdict_safe in Hs as [_ ?].
    + apply IH in Hrun; [|done]. by apply extend_verdict_safe in Hrun as [_ ?].
Qed.

Lemma reassembly_carry_sub fields count c : c ∈ _reassembly_carry fields count -> c ∈ fields.
Proof.
  unfold _reassembly_carry. intros ([i f] & <- & Hin%List.filter_In)%list_elem_of_In%List.in_map_iff. destruct Hin as [Hin _].
  unfold enumerate in Hin. apply list_elem_of_In. by apply List.in_combine_r in Hin.
Qed.

(** The carry of the next batch. *)
Lemma scanned_carried o before carry batch caps canonical : scanned o (carry ++ batch) caps 0 (carry ++ batch) canonical -> do_prefix_fields o = length carry ->
  do_reviewed_fields o = [] -> carried (do_deadline o) (do_operation o) before carry -> Forall (fun f => is_reviewed_text (fi_raw f) = false) batch ->
  carried (do_deadline o) (do_operation o) (before ++ batch) canonical.
Proof.
  intros Hsc Hp Hr Hcarry Hplain c Hc. destruct (scanned_kept _ _ _ _ _ _ Hsc c Hc) as (i & f & t & ts & Hf & _ & Hk & Hok).
  assert (Hpf : is_reviewed_text (fi_raw f) = false).
  { apply list_elem_of_lookup_2, elem_of_app in Hf as [Hf|Hf]; [by apply Hcarry|]. rewrite Forall_forall in Hplain. by apply Hplain. }
  destruct (Hok (plain_not_approved _ _ Hr Hpf)) as [Hj _]. apply (judged_lift _ before) in Hj; [|done|done].
  unfold kept in Hk. destruct (fi_isolated f); [by apply elem_of_nil in Hk|]. apply list_elem_of_singleton in Hk as ->. cbn [fi_raw fi_is_key].
  rewrite with_provenance_text. split; [unfold with_provenance; by rewrite Hr, Hpf|]. eapply judged_in_mono; [|exact Hj].
  intros g. rewrite !elem_of_app. intros [?|Hg]; [by left|right]. apply elem_of_take in Hg as (j & Hg & _). by eapply list_elem_of_lookup_2.
Qed.

(** Fields of which the first ones are clean after others, and the rest after both. *)
Lemma clean_from_app (P : list field -> field -> Prop) before l1 l2 : (forall i f, l1 !! i = Some f -> P (before ++ take i l1) f) ->
  (forall i f, l2 !! i = Some f -> P ((before ++ l1) ++ take i l2) f) -> forall i f, (l1 ++ l2) !! i = Some f -> P (before ++ take i (l1 ++ l2)) f.
Proof.
  intros Hfst Hsnd i f. destruct (decide (i < length l1)%nat) as [Hlt|Hge].
  - rewrite lookup_app_l, take_app_le by lia. apply Hfst.
  - rewrite lookup_app_r, take_app_ge, app_assoc by lia. apply Hsnd.
Qed.

(** A safe run of the batches found every field clean, and counted them all. *)
Lemma batch_loop_clean b fuel : bo_max_fields b mod 32 = 0 ->
  forall before fields count carry split combined n r n',
  batch_loop b fuel fields count carry split combined n = (Ok r, n') -> is_safe r = true ->
  whole_batches count fields -> Forall (fun f => is_reviewed_text (fi_raw f) = false) fields -> count <= bo_max_fields b ->
  carried (bo_deadline b) (bo_operation b) before carry ->
  is_safe combined = true /\ (forall i f, fields !! i = Some f -> clean_field (bo_deadline b) (bo_operation b) (before ++ take i fields) f)
  /\ count + Z.of_nat (length fields) <= bo_max_fields b.
Proof.
  intros Hmax. induction fuel as [|fuel IH]; intros before fields count carry split combined n r n' Hrun Hs Hmod Hplain Hcount Hcarry;
    cbn [batch_loop] in Hrun; apply bind_ok_inv in Hrun as (e & n1 & Hfill & Hrun); apply fill_batch_spec in Hfill;
    (destruct e as [|rest|batch rest count']; [injection Hrun as <- _; by apply add_finding_safe in Hs| |]).
  1,3: destruct Hfill as [Hlt Hrest]; destruct (batch_limit_end _ _ _ _ _ _ _ _ _ Hmax Hmod Hlt Hrest Hrun Hs) as [-> Hc]; simpl;
    (split; [done|]; split; [done|lia]).
  - destruct Hfill as (taken & -> & -> & _ & Hend & Hlt). destruct taken as [|f taken]; [|done]. simpl in *. apply finish_safe in Hrun; [|done].
    destruct Hend as [?| ->]; [done|]. split; [done|]. split; [done|simpl; lia].
  - destruct Hfill as (taken & -> & -> & -> & Hend & Hlt). cbn [app] in Hrun. destruct taken as [|f taken].
    { apply finish_safe in Hrun; [|done]. destruct Hend as [?| ->]; [done|]. split; [done|]. split; [done|simpl; lia]. }
    apply bind_ok_inv in Hrun as ([batch_result canonicalized] & n2 & Hscan & Hrun). apply Forall_app in Hplain as [Hpt Hpr].
    assert (Hbr : is_safe batch_result = true -> exists caps, scanned (batch_scan b (length carry)) (carry ++ f :: taken) caps 0 (carry ++ f :: taken) canonicalized)
      by (intros Hbs; destruct (scan_fields_safe _ _ _ _ _ _ _ Hscan Hbs) as (? & ? & Hsc & _); by eexists).
    destruct (match bo_time_limit b with Some m => _ | None => _ end) eqn:Etime.
    { injection Hrun as <- _. exfalso. apply extend_verdict_safe in Hs as [Hb _]. destruct (bo_time_limit b); [|done].
      unfold reports in Etime. unfold is_safe in Hb. by destruct (vd_findings batch_result). }
    pose proof (batch_loop_safe _ _ _ _ _ _ _ _ _ _ Hrun Hs) as [Hext _]%extend_verdict_safe. destruct (Hbr Hext) as [caps Hsc].
    destruct (IH (before ++ f :: taken) _ _ _ _ _ _ _ _ Hrun Hs) as (Hcomb & Hrest & Hlen); [|done|by apply Hlt| |].
    + destruct Hend as [Hend| ->]; [left|by right]. rewrite Hend. apply multiple_next. by destruct Hmod.
    + intros c Hc%reassembly_carry_sub. by apply (scanned_carried _ _ _ _ _ _ Hsc eq_refl eq_refl Hcarry Hpt).
    + apply extend_verdict_safe in Hcomb as [_ Hcomb]. split; [done|]. rewrite length_app. split; [|simpl in *; lia].
      apply clean_from_app; [|done]. intros i g Hg. apply (scanned_clean _ _ _ _ _ _ Hsc eq_refl Hcarry _ _ Hg).
      apply plain_not_approved; [done|]. rewrite Forall_forall in Hpt. by eapply Hpt, list_elem_of_lookup_2.
Qed.

(** The fuel is enough: more of it changes nothing. *)
Lemma batch_loop_fuel b : forall fuel fields count carry split combined n, (length fields <= fuel)%nat ->
  batch_loop b fuel fields count carry split combined n = batch_loop b (length fields) fields count carry split combined n.
Proof.
  intros fuel fields. remember (length fields) as m eqn:Em. revert fuel fields Em. induction m as [m IH] using lt_wf_ind. intros fuel fields -> count carry split combined n Hf.
  destruct (fill_batch (bo_deadline b) (bo_max_fields b) FACADE_SCAN_BATCH_FIELDS [] fields count n) as [[e|e] n1] eqn:Efill.
  2:{ destruct fuel, (length fields); cbn [batch_loop]; unfold mbind, eff_bind; by rewrite Efill. }
  destruct e as [|rest|[|f batch] rest count']; [destruct fuel, (length fields); cbn [batch_loop]; unfold mbind, eff_bind; by rewrite Efill..|].
  pose proof Efill as Hspec. apply fill_batch_spec in Hspec as (taken & Hb & -> & _). simpl in Hb. subst taken. destruct fuel as [|fuel]; [simpl in Hf; lia|].
  rewrite length_app in *. cbn [length Nat.add] in *. cbn [batch_loop]. unfold mbind, eff_bind. rewrite Efill.
  destruct (_scan_fields _ _ _ n1) as [[[br cf]|e] n2]; [|done]. destruct (match bo_time_limit b with Some m => _ | None => _ end); [done|].
  rewrite (IH (length rest)) by lia. symmetry. apply IH; lia.
Qed.

(** ** The fields of values *)

(** The texts of a value without marks have none. *)
Lemma fields_of_plain mode v : forall path k f, f ∈ fields_of mode (tree_of v) path k -> is_reviewed_text (fi_raw f) = false.
Proof.
  assert (Hnum : forall x path k f, f ∈ fields_of mode (TNumber x) path k -> is_reviewed_text (fi_raw f) = false).
  { intros x path k f. cbn [fields_of]. unfold scalar_fields. simpl. destruct (include_numbers mode).
    - intros Hf. apply list_elem_of_In, List.in_map_iff in Hf as (sp & <- & _). done.
    - destruct (isolated_numbers mode); [by intros ->%list_elem_of_singleton|by intros ?%elem_of_nil]. }
  induction v as [|b|x|x|s|l IH|d IH] using json_ind'; intros path k f; cbn [tree_of]; [by intros ?%elem_of_nil|by intros ?%elem_of_nil|apply Hnum|apply Hnum|..].
  - simpl. by intros ->%list_elem_of_singleton.
  - cbn [fields_of scalar_fields no_value]. generalize 0%nat. induction IH as [|v l Hv _ IHl]; intros i; [by intros ?%elem_of_nil|]. cbn [map].
    rewrite elem_of_app. intros [Hf|Hf]; [by eapply Hv|by eapply IHl].
  - cbn [fields_of scalar_fields no_value]. rewrite in_concat_map. intros (kv & Hkv & Hf). apply list_elem_of_In, List.in_map_iff in Hkv as (kv0 & <- & Hin).
    apply elem_of_cons in Hf as [->|Hf]; [done|]. simpl in Hf. rewrite Forall_forall in IH. eapply IH; [by apply list_elem_of_In|exact Hf].
Qed.

(** A safe scan in batches found every field clean. *)
Lemma batched_clean fields operation max_fields limit s time n r n' :
  _scan_batched_fields fields operation max_fields limit (Some s) time n = (Ok r, n') -> is_safe r = true ->
  max_fields mod 32 = 0 -> 0 <= max_fields -> Forall (fun f => is_reviewed_text (fi_raw f) = false) fields ->
  Z.of_nat (length fields) <= max_fields /\ exists deadline, all_clean deadline operation fields.
Proof.
  unfold _scan_batched_fields. intros (deadline & n1 & _ & Hrun)%bind_ok_inv Hs Hmod Hmax Hplain.
  apply (batch_loop_clean (mkBatch operation max_fields limit deadline time) _ Hmod []) in Hrun as (_ & Hall & Hlen); [|done|by left|done|done|by intros c ?%elem_of_nil]. split; [exact Hlen|]. by exists deadline.
Qed.

(** A safe scan with the core deadline found every field clean that is not
    approved. *)
Lemma core_scan_clean fields operation reviewed_fields n r n' : core_scan fields operation reviewed_fields n = (Ok r, n') -> is_safe r = true ->
  exists deadline, forall i f, fields !! i = Some f ->
    approved (mkOptions operation false (Some deadline) None 0 reviewed_fields) f = true \/ clean_field (Some deadline) operation (take i fields) f.
Proof.
  unfold core_scan. intros (deadline & n1 & _ & Hrun)%bind_ok_inv Hs. apply bind_ok_inv in Hrun as ([r' canonical] & n2 & Hscan & Hret).
  injection Hret as <- _. apply (scan_fields_safe _ _ _ _ _ _ _) in Hscan as (w & w' & Hsc & _); [|done]. exists deadline. intros i f Hf.
  destruct (approved _ f) eqn:Ea; [by left|right]. refine (scanned_clean _ [] [] fields _ _ Hsc eq_refl _ _ _ Hf Ea). by intros c ?%elem_of_nil.
Qed.

Lemma facade_result_clean result include_numbers n r n' : scan_facade_result result false include_numbers n = (Ok r, n') -> is_safe r = true ->
  exists deadline, all_clean deadline "read" (fields_of (mkMode include_numbers (negb include_numbers)) (tree_of result) (u "facade_response") false).
Proof.
  unfold scan_facade_result. cbv zeta. intros (deadline & n1 & _ & Hrun)%bind_ok_inv Hs. apply bind_ok_inv in Hrun as ([combined go_on] & n2 & Hid & Hrun).
  assert (E : combined = no_findings /\ go_on = true).
  { rewrite bool_decide_true in Hid by done. by destruct result; injection Hid as <- <- _. }
  destruct E as [-> ->]. cbn [negb] in Hrun. apply bind_ok_inv in Hrun as (now & n3 & _ & Hrun).
  apply bind_ok_inv in Hrun as (batched & n4 & Hb & Hrun). apply bind_ok_inv in Hrun as ([result' b] & n5 & Hd & Hret). injection Hret as <- _. simpl in Hs.
  assert (Hsafe : is_safe (extend_verdict batched no_findings) = true).
  { destruct (deadline_reached_inv _ _ _ _ _ _ _ Hd) as [[_ Hu]|[_ ->]]; [congruence|done]. }
  apply extend_verdict_safe in Hsafe as [Hsafe _]. rewrite walk_strings_spec in Hb.
  apply batched_clean in Hb as [_ Hall]; [done|done|done|done|]. apply Forall_forall. intros f. apply fields_of_plain.
Qed.

(** The core of [retained_texts_clean]. *)
Lemma retain_body_clean body n r n' : scan_retain_body body n = (Ok r, n') -> is_safe r = true ->
  let fields := fields_of (mkMode false true) (tree_of body) (u "retain") false in
  Z.of_nat (length fields) <= MAX_RETAIN_SCAN_FIELDS /\ exists deadline, all_clean deadline "write" fields.
Proof.
  unfold scan_retain_body. rewrite walk_strings_spec. intros Hrun Hs. apply batched_clean in Hrun; [done..|]. apply Forall_forall. intros f. apply fields_of_plain.
Qed.

(** C5: a body that is stored was scanned text by text. When [scan_retain_body]
    finds a body safe, the body has at most 8192 fields, and every one of them,
    every text and key at any depth and every number's spelling, is encodable and
    within its size limits, its canonical text was computed within the deadline and
    its characters are not suspicious. That canonical text was scanned at
    the field itself or, since a text is scanned once, at an earlier field of the
    same kind (key or value) with the same canonical text. There, no rule is in any
    reading of it, with the digits inside words removed too when that field is
    written with key caps, and no detector that is given that field's path reports
    it. No field is lost between the batches. *)
Theorem retained_texts_clean body n r n' : scan_retain_body body n = (Ok r, n') -> is_safe r = true ->
  let fields := fields_of (mkMode false true) (tree_of body) (u "retain") false in
  Z.of_nat (length fields) <= MAX_RETAIN_SCAN_FIELDS /\ exists deadline, all_clean deadline "write" fields.
Proof. apply retain_body_clean. Qed.

(** ** Approved results *)

(** The fields of objects and lists. *)
Lemma dict_fields_iff mode d path k f : f ∈ fields_of mode (TDict d) path k <->
  exists key v, (key, v) ∈ d /\ (f = mkField (child_path path key) (plain key) false true \/ f ∈ fields_of mode v (child_path path key) false).
Proof.
  cbn [fields_of scalar_fields no_value]. rewrite in_concat_map. split.
  - intros ([key v] & Hkv & Hf). exists key, v. by rewrite elem_of_cons in Hf.
  - intros (key & v & Hkv & Hf). exists (key, v). by rewrite elem_of_cons.
Qed.

Lemma list_fields_iff mode l path k f : f ∈ fields_of mode (TList l) path k <->
  exists i v, l !! i = Some v /\ f ∈ fields_of mode v (child_path path (u (str_of_Z (Z.of_nat i)))) false.
Proof.
  cbn [fields_of scalar_fields no_value].
  enough (Hgo : forall i, f ∈ (fix go (index : nat) (l : list tree) : list field :=
             match l with [] => [] | entry :: l' => fields_of mode entry (child_path path (u (str_of_Z (Z.of_nat index)))) false ++ go (S index) l' end) i l
    <-> exists j v, l !! j = Some v /\ f ∈ fields_of mode v (child_path path (u (str_of_Z (Z.of_nat (i + j))))) false) by apply Hgo.
  induction l as [|v l IH]; intros i; [split; [by intros ?%elem_of_nil|by intros (? & ? & ? & _)]|]. rewrite elem_of_app, IH. split.
  - intros [Hf|(j & v' & Hl & Hf)]; [exists 0%nat, v; by rewrite Nat.add_0_r|exists (S j), v'; by rewrite Nat.add_succ_r].
  - intros ([|j] & v' & Hl & Hf); [injection Hl as ->; left; by rewrite Nat.add_0_r in Hf|right; exists j, v'; by rewrite Nat.add_succ_r in Hf].
Qed.

Lemma dict_fields mode d path k f : f ∈ fields_of mode (TDict d) path k ->
  (exists key path', f = mkField path' (plain key) false true) \/ exists key v, (key, v) ∈ d /\ f ∈ fields_of mode v (child_path path key) false.
Proof. intros (key & v & Hkv & [->|Hf])%dict_fields_iff; [left; by eexists _, _|right; by exists key, v]. Qed.

Lemma list_fields mode l path k f : f ∈ fields_of mode (TList l) path k -> exists i v path', l !! i = Some v /\ f ∈ fields_of mode v path' false.
Proof. intros (i & v & Hl & Hf)%list_fields_iff. by exists i, v, (child_path path (u (str_of_Z (Z.of_nat i)))). Qed.

(** A text that bears the mark of an approved result: the [id] or the [text] of a
    result at an approved position. *)
Definition approved_text (response : json) (positions : list Z) (f : field) : Prop :=
  exists d results position result name r, tree_of response = TDict d /\ dict_get (u "results") d = Some (TList results)
    /\ results !! position = Some (TDict result) /\ Z.of_nat position ∈ positions /\ (name, TText r) ∈ result
    /\ (name = u "id" \/ name = u "text") /\ rt_text (fi_raw f) = rt_text r /\ fi_is_key f = false.

Lemma mark_text_fields mode origin v path f : f ∈ fields_of mode (mark_text origin (tree_of v)) path false ->
  is_reviewed_text (fi_raw f) = false \/ exists r, tree_of v = TText r /\ rt_text (fi_raw f) = rt_text r /\ fi_is_key f = false.
Proof.
  destruct v as [|b|x|x|s|l|d]; try (intros Hf; left; exact (fields_of_plain mode _ _ _ _ Hf)).
  simpl. intros ->%list_elem_of_singleton. right. by exists (plain (points s)).
Qed.

(** The marks of one result. *)
Lemma mark_result_fields mode position v path f : f ∈ fields_of mode (mark_result position (tree_of v)) path false ->
  is_reviewed_text (fi_raw f) = false \/ exists d name r, tree_of v = TDict d /\ (name, TText r) ∈ d /\ (name = u "id" \/ name = u "text")
    /\ rt_text (fi_raw f) = rt_text r /\ fi_is_key f = false.
Proof.
  destruct v as [|b|x|x|s|l|d]; try (intros Hf; left; exact (fields_of_plain mode _ _ _ _ Hf)). cbn [tree_of mark_result].
  intros [(key & path' & ->)|(key & v & Hin & Hf)]%dict_fields; [by left|]. rewrite List.map_map in Hin. apply list_elem_of_In, List.in_map_iff in Hin as ([k0 v0] & [= <- <-] & Hin).
  assert (Hent : (points k0, tree_of v0) ∈ map (fun kv => (points kv.1, tree_of kv.2)) d) by (apply list_elem_of_In, List.in_map_iff; by exists (k0, v0)).
  simpl in Hf. destruct (bool_decide (points k0 = u "id")) eqn:Eid; [|destruct (bool_decide (points k0 = u "text")) eqn:Etext; [|left; by eapply fields_of_plain]];
    apply mark_text_fields in Hf as [?|(r & Hr & Ht & Hk)]; [by left| |by left|]; right; rewrite Hr in Hent; exists (map (fun kv => (points kv.1, tree_of kv.2)) d), (points k0), r.
  - apply bool_decide_eq_true in Eid. split_and!; [done|done|by left|done|done].
  - apply bool_decide_eq_true in Etext. split_and!; [done|done|by right|done|done].
Qed.

Lemma enumerate_lookup {A B} (f : nat * A -> B) (l : list A) i y : map f (enumerate l) !! i = Some y -> exists x, l !! i = Some x /\ y = f (i, x).
Proof.
  unfold enumerate. intros Hl. apply list_lookup_fmap_Some in Hl as ([j x] & -> & Hz). apply lookup_zip_with_Some in Hz as (j' & x' & [= -> ->] & Hj & Hx).
  apply lookup_seq in Hj as [-> _]. by exists x'.
Qed.

Lemma marked_fields mode response positions path f : f ∈ fields_of mode (marked_response response positions) path false ->
  is_reviewed_text (fi_raw f) = false \/ approved_text response positions f.
Proof.
  destruct response as [|b|x|x|s|l|d];
    try (match goal with |- context [marked_response ?v _] => intros Hf; left; exact (fields_of_plain mode v _ _ _ Hf) end). unfold marked_response.
  change (tree_of (JDict d)) with (TDict (map (fun kv => (points kv.1, tree_of kv.2)) d)).
  cbv beta iota. set (D := map (fun kv => (points kv.1, tree_of kv.2)) d).
  assert (Hplain : forall key v path', (key, v) ∈ D -> f ∈ fields_of mode v path' false -> is_reviewed_text (fi_raw f) = false).
  { intros key v path' Hin Hf. apply list_elem_of_In, List.in_map_iff in Hin as (kv & [= <- <-] & _). by eapply fields_of_plain. }
  match goal with |- context [TDict (match ?x with _ => _ end)] => destruct x as [w|] eqn:Eget end; [destruct w as [r|x| |results|d']|];
    try (intros [(key & path' & ->)|(key & v & Hin & Hf)]%dict_fields; [by left|left; by eapply Hplain]).
  - intros [(key & path' & ->)|(key & v & Hin & Hf)]%dict_fields; [by left|]. apply dict_set_elem in Hin as [[= -> ->]|Hin]; [|left; by eapply Hplain].
    apply list_fields in Hf as (i & v & path' & Hl & Hf). apply enumerate_lookup in Hl as (e & He & ->). simpl in Hf.
    assert (Hres : exists l0, results = map tree_of l0).
    { apply dict_get_elem in Eget. apply list_elem_of_In, List.in_map_iff in Eget as ([k0 v0] & [= _ Hv] & _). destruct v0; try done. simpl in Hv. injection Hv as <-. by eexists. }
    destruct Hres as [l0 ->]. apply list_lookup_fmap_Some in He as (e0 & -> & He0).
    destruct (elem (Z.of_nat i) positions) eqn:Epos; [|left; by eapply fields_of_plain]. apply elem_true in Epos.
    apply mark_result_fields in Hf as [?|(rd & name & r & Hrd & Hin & Hname & Ht & Hk)]; [by left|right]. exists D, (map tree_of l0), i, rd, name, r.
    split_and!; [done|done| |done|done|done|done|done]. rewrite <- Hrd. apply list_lookup_fmap_Some. by exists e0.
  - intros [(key & path' & ->)|(key & v & Hin & Hf)]%dict_fields; [by left|]. apply dict_set_elem in Hin as [[= -> ->]|Hin]; [by apply elem_of_nil in Hf|left; by eapply Hplain].
Qed.

(** A field with the mark of a response with approved positions: the scan reads the
    same text. *)
Definition with_mark (f : field) : field := mkField (fi_key f) (marked (fi_raw f)) (fi_isolated f) (fi_is_key f).

Lemma marked_text r : rt_text (marked r) = rt_text r.
Proof. unfold marked. by destruct (rt_trust r). Qed.

Lemma clean_field_marked deadline operation before f : clean_field deadline operation (map with_mark before) (with_mark f) -> clean_field deadline operation before f.
Proof.
  unfold clean_field, acceptable. simpl. rewrite marked_text. intros (Hacc & t & ts & n & n' & Hc & Hq & g & ts' & m & m' & Hg & Hk & Hcg & Hrest). split; [done|].
  exists t, ts, n, n'. split; [done|]. split; [done|]. change [with_mark f] with (map with_mark [f]) in Hg. rewrite <- List.map_app in Hg.
  apply list_elem_of_In, List.in_map_iff in Hg as (g0 & <- & Hg0). simpl in *. rewrite marked_text in Hcg. exists g0, ts', m, m'. split; [by apply list_elem_of_In|]. by split_and!; try apply Hrest.
Qed.

(** The core of [unapproved_texts_clean]. *)
Lemma recall_response_clean response positions n r n' : scan_recall_response response positions n = (Ok r, n') -> is_safe r = true ->
  let fields := fields_of (mkMode true false) (marked_response response positions) (u "recalled_response") false in
  exists deadline, forall i f, fields !! i = Some f -> approved_text response positions f \/ clean_field (Some deadline) "read" (take i fields) f.
Proof.
  unfold scan_recall_response. rewrite walk_strings_spec. intros Hrun Hs. destruct (core_scan_clean _ _ _ _ _ _ Hrun Hs) as [deadline Hall].
  exists deadline. intros i f Hf. destruct (marked_fields _ _ _ _ _ (list_elem_of_lookup_2 _ _ _ Hf)) as [Hp|Ha]; [right|by left].
  destruct (Hall i (with_mark f)) as [Ha|Hc].
  - rewrite list_lookup_fmap, Hf. done.
  - exfalso. unfold approved, with_provenance, with_mark, marked in Ha. unfold is_reviewed_text in Hp. destruct (rt_trust (fi_raw f)); [done|].
    simpl in Ha. by destruct (fi_is_key f).
  - rewrite <- fmap_take in Hc. by apply clean_field_marked in Hc.
Qed.

(** Approval of recalled memories does not leak. When [scan_recall_response]
    finds a response safe, every field of it is clean in the sense of a direct scan
    ([clean_field]) unless
    its text is the [id] or [text] of a result at one of the approved positions.
    So keys, numbers, metadata and the results that were not approved are all
    scanned, whatever the names along their paths. *)
Lemma unapproved_texts_clean response positions n r n' : scan_recall_response response positions n = (Ok r, n') -> is_safe r = true ->
  let fields := fields_of (mkMode true false) (marked_response response positions) (u "recalled_response") false in
  exists deadline, forall i f, fields !! i = Some f -> approved_text response positions f \/ clean_field (Some deadline) "read" (take i fields) f.
Proof. apply recall_response_clean. Qed.
End batches.

Module Example_scan.
#[local] Instance frozen : Clock := {| monotonic := fun _ => 0 |}.
(** The database for the characters that occur: a variation selector and the
    combining key cap. *)
#[local] Instance keycap_db : UnicodeDb :=
  {| db_printable := fun _ => true; db_space := fun _ => false; db_alnum := fun _ => false; db_alpha := fun _ => false;
     db_digit := fun _ => false; db_decimal := fun _ => false; db_decimal_value := fun _ => 0;
     db_category := fun c => if c =? 8419 then "Me"%string else if c =? 65039 then "Mn"%string else "Ll"%string;
     db_name := fun _ => ""%string; db_casefold := fun c => [c]; normalize_nfkc := fun t => t; normalize_nfd := fun t => t |}.
#[local] Instance no_table : Confusables := {| ASCII_CONFUSABLES := [] |}.
#[local] Instance no_detectors : Detectors := {| _DETECTORS := [] |}.
#[local] Instance exact_case : CaseDb := {| db_same_case := Z.eqb |}.

Definition note : json := JDict [("content", JStr "meet at noon"); ("tags", JList [JStr "work"; JInt 7])]%string.

Lemma retained_texts_clean_witness :
  exists r n', scan_retain_body note 0%nat = (Ok r, n') /\ is_safe r = true
    /\ exists deadline, all_clean deadline "write" (fields_of (mkMode false true) (tree_of note) (u "retain") false).
Proof.
  eexists _, _. split; [vm_compute; reflexivity|]. split; [reflexivity|].
  eapply (retained_texts_clean note 0%nat). - vm_compute. reflexivity. - reflexivity.
Defined.

(** An approved result that contains a rule, with harmless text beside it. *)
Definition recalled : json :=
  JDict [("results", JList [JDict [("id", JStr "m1"); ("text", JStr "the system prompt is fixed"); ("score", JFloat "0.5")]])]%string.

Lemma unapproved_texts_clean_witness :
  exists r n', scan_recall_response recalled [0] 0%nat = (Ok r, n') /\ is_safe r = true
    /\ let fields := fields_of (mkMode true false) (marked_response recalled [0]) (u "recalled_response") false in
       exists deadline, forall i f, fields !! i = Some f -> approved_text recalled [0] f \/ clean_field (Some deadline) "read" (take i fields) f.
Proof.
  eexists _, _. split; [vm_compute; reflexivity|]. split; [reflexivity|].
  eapply (unapproved_texts_clean recalled [0] 0%nat). - vm_compute. reflexivity. - reflexivity.
Defined.

(** The same response without the approval is not safe. *)
Lemma recalled_unapproved : exists r n', scan_recall_response recalled [] 0%nat = (Ok r, n') /\ is_safe r = false.
Proof. eexists _, _. split; [vm_compute; reflexivity|reflexivity]. Qed.

(** A digit inside a word, plain and as a key cap. *)
Definition plain_digit : field := mkField (u "a") (plain (u "syst1em prompt")) false false.
Definition keycap_digit : field := mkField (u "b") (plain (u "syst1" ++ [65039; 8419] ++ u "em prompt")) false false.

Definition scan_both (fields : list field) : scan (Verdict * list field) := _scan_fields (mkOptions "read" false None None 0 []) true fields.

(** A rule that is spelled with a key cap digit is found, but not when a field
    before has the same canonical text without the key cap: the second field counts
    as scanned already, and the digits inside its words are never removed. *)
Lemma duplicate_hides_keycap :
  (exists r c n, scan_both [keycap_digit] 0%nat = (Ok (r, c), n) /\ is_safe r = false)
  /\ exists r c n, scan_both [plain_digit; keycap_digit] 0%nat = (Ok (r, c), n) /\ is_safe r = true.
Proof. split; eexists _, _, _; (split; [vm_compute; reflexivity|reflexivity]). Qed.
End Example_scan.
