(* ===== verification/Screen.v ===== *)
(** * The screen for query windows

    Models [memory_router/security_screen.py]: from the source of every pattern the
    literals that any match must contain are read off ([_stage_walk]); a window
    that lacks them needs no scan ([_window_form_scan_needed]). The patterns of
    [agent_memory_guard] and where its detectors keep them are the class
    [DetectorLayouts]. Sources of patterns are ASCII texts. *)

From Stdlib Require Import ZArith Lia Ascii.
From stdpp Require Import base sets strings numbers list.
From S2P Require Import Prelude Errors Text Chars ScanModels RuleEdges UnicodeFold Regex ScanRules.

Local Open Scope Z_scope.

(** A compiled pattern: its source, and whether it occurs in a text. *)
Record pattern := mkPattern { pt_source : text; pt_search : text -> bool }.

(** [t.lower()] of an ASCII text. *)
Definition lower (t : text) : text := map lower_ascii t.

(** ** Reading the source of a pattern *)

Definition backslash : Z := 92.
Definition is_one_of (s : string) (c : Z) : bool := elem c (u s).

(** [_regex_class_end]: how many characters the class takes, from its bracket on. *)
Fixpoint class_body (t : text) (taken : nat) : option nat :=
  match t with
  | [] => None
  | c :: t' =>
      if c =? backslash then match t' with [] => None | _ :: t'' => class_body t'' (taken + 2) end
      else if c =? 93 then Some (S taken)
      else class_body t' (S taken)
  end.
Definition drop_if (c : Z) (t : text) : nat := match t with d :: _ => if c =? d then 1 else 0 | [] => 0 end.
Definition _regex_class_end (t : text) : option nat :=
  let negated := drop_if 94 (drop 1 t) in
  let closing := drop_if 93 (drop (1 + negated) t) in
  class_body (drop (1 + negated + closing) t) (1 + negated + closing).

(** [_regex_skip_forward] for an escape or a class at the start. *)
Definition _regex_skip_forward (t : text) : option nat :=
  match t with
  | c :: _ => if c =? backslash then Some 2%nat else if c =? 91 then _regex_class_end t else None
  | [] => None
  end.

Definition skip_char (c : Z) : bool := (c =? backslash) || (c =? 91).
Definition depth_delta (c : Z) : Z := if c =? 40 then 1 else if c =? 41 then -1 else 0.

(** [_regex_group_end]: how many characters the group takes. *)
Fixpoint group_end (fuel : nat) (depth : Z) (t : text) (taken : nat) : option nat :=
  match fuel, t with
  | O, _ | _, [] => None
  | S f, c :: t' =>
      if skip_char c then match _regex_skip_forward t with Some k => group_end f depth (drop k t) (taken + k) | None => None end
      else
        let depth := depth + depth_delta c in
        if (depth_delta c <? 0) && (depth =? 0) then Some (S taken) else group_end f depth t' (S taken)
  end.
Definition _regex_group_end (t : text) : option nat := group_end (length t) 0 t 0.

(** [_regex_top_alternatives]; [part] is the text since the last bar. *)
Fixpoint alternatives_loop (fuel : nat) (depth : Z) (t part : text) (parts : list text) : option (list text) :=
  match t, fuel with
  | [], _ => if negb (depth =? 0) then None else match parts with [] => None | _ => Some (parts ++ [part]) end
  | _, O => None
  | c :: t', S f =>
      if skip_char c then
        match _regex_skip_forward t with Some k => alternatives_loop f depth (drop k t) (part ++ take k t) parts | None => None end
      else if (c =? 124) && (depth =? 0) then alternatives_loop f depth t' [] (parts ++ [part])
      else
        let depth := depth + depth_delta c in
        if depth <? 0 then None else alternatives_loop f depth t' (part ++ [c]) parts
  end.
Definition _regex_top_alternatives (source : text) : option (list text) := alternatives_loop (length source) 0 source [] [].

Definition _MAX_SCREEN_ALTERNATIVES : nat := 64.

(** ** Stages *)

(** A set of literals. *)
Abbreviation stage_t := (list text).

Definition starts (s : string) (t : text) : bool := starts_text (u s) t.

(** [t.find(c)] *)
Fixpoint find_char (c : Z) (t : text) : option nat :=
  match t with [] => None | d :: t' => if c =? d then Some 0%nat else match find_char c t' with Some i => Some (S i) | None => None end end.

(** [min(len(o) for o in stage)]; a stage is never empty. *)
Definition shortest_literal (stage : stage_t) : nat :=
  match stage with [] => 0 | o :: rest => fold_left (fun m o => Nat.min m (length o)) rest (length o) end.

(** [max(stages, key=shortest)]: the first of the greatest. *)
Definition best_stage (stages : list stage_t) : stage_t :=
  match stages with
  | [] => []
  | s :: rest => fold_left (fun best s => if (shortest_literal best <? shortest_literal s)%nat then s else best) rest s
  end.

(** [flush]: the literals read so far become a stage. *)
Definition flush (run : text) (alternatives : list (list stage_t)) : list (list stage_t) :=
  match run with [] => alternatives | _ => map (fun a => a ++ [[run]]) alternatives end.

(** [run.pop()] when there is one. *)
Definition drop_last (run : text) : text := take (length run - 1) run.

(** What a group is: skipped as a whole, or its body. *)
Inductive group_kind := GroupBad | GroupSkip | GroupBody (inner : text).

Definition group_of (inner : text) : group_kind :=
  if starts "?P=" inner || starts "?(" inner then GroupBad
  else if starts "?#" inner then GroupSkip
  else if starts "?P<" inner then match find_char 62 inner with Some i => GroupBody (drop (S i) inner) | None => GroupBad end
  else if starts "?" inner then
    let body := drop 1 inner in
    match find_char 58 body with
    | Some i => GroupBody (drop (S i) body)
    | None =>
        if starts "=" body || starts "!" body || starts "<" body then GroupSkip
        else if bool_decide (body = []) || existsb (fun c => negb (is_one_of "aiLmsux-" c)) body then GroupBad
        else GroupSkip
    end
  else GroupBody inner.

(** The quantifier after a group: whether the group is required, and how many
    characters it takes; [None] when it is malformed. *)
Definition group_quantifier (t : text) : option (bool * nat) :=
  match t with
  | c :: t' =>
      if is_one_of "*?" c then Some (false, 1%nat)
      else if c =? 123 then
        match find_char 125 t with
        | None => None
        | Some close =>
            let bound := head_before 44 (take (close - 1) t') in
            if bool_decide (bound = []) || negb (forallb ascii_digit bound) then None
            else Some (1 <=? decimal_number bound, S close)
        end
      else Some (true, 0%nat)
  | [] => Some (true, 0%nat)
  end.

Section screen.
Context `{UnicodeDb}.

Section walk.
(** The walk of a branch one level below. *)
Context (walk : text -> option (list (list stage_t))).

(** The stages that any match of one of the branches contains one of; [Some None]
    when a branch can match without evidence. *)
Fixpoint branch_stages (branches : list text) : option (option stage_t) :=
  match branches with
  | [] => Some (Some [])
  | branch :: rest =>
      match walk branch with
      | None => None
      | Some alternatives =>
          if existsb (fun a : list stage_t => bool_decide (a = [])) alternatives then Some None
          else
            r ← branch_stages rest;
            Some (match r with Some stage => Some (dict_fromkeys (concat (map best_stage alternatives) ++ stage)) | None => None end)
      end
  end.

(** The loop of [_stage_walk]. *)
Fixpoint walk_loop (fuel : nat) (t run : text) (alternatives : list (list stage_t)) : option (list (list stage_t)) :=
  match t, fuel with
  | [], _ => Some (flush run alternatives)
  | _, O => None
  | c :: t', S f =>
      if c =? backslash then
        match t' with
        | [] => None
        | following :: t'' =>
            if is_one_of "bBAZzG" following then walk_loop f t'' run alternatives
            else if isalpha following then walk_loop f t'' [] (flush run alternatives)
            else walk_loop f t'' (run ++ [following]) alternatives
        end
      else if c =? 91 then
        match _regex_class_end t with Some k => walk_loop f (drop k t) [] (flush run alternatives) | None => None end
      else if c =? 46 then walk_loop f t' [] (flush run alternatives)
      else if is_one_of "^$" c then walk_loop f t' run alternatives
      else if is_one_of "*+?" c then walk_loop f t' [] (flush (drop_last run) alternatives)
      else if c =? 123 then
        match find_char 125 t with Some i => walk_loop f (drop (S i) t) [] (flush (drop_last run) alternatives) | None => None end
      else if is_one_of "|)" c then None
      else if c =? 40 then
        let alternatives := flush run alternatives in
        match _regex_group_end t with
        | None => None
        | Some size =>
            let rest := drop size t in
            match group_of (take (size - 2) t') with
            | GroupBad => None
            | GroupSkip => walk_loop f rest [] alternatives
            | GroupBody inner =>
                match group_quantifier rest with
                | None => None
                | Some (required, k) =>
                    if negb required then walk_loop f (drop k rest) [] alternatives
                    else
                      match branch_stages (default [inner] (_regex_top_alternatives inner)) with
                      | None => None
                      | Some None => walk_loop f (drop k rest) [] alternatives
                      | Some (Some stage) => walk_loop f (drop k rest) [] (map (fun a => a ++ [stage]) alternatives)
                      end
                end
            end
        end
      else walk_loop f t' (run ++ [c]) alternatives
  end.
End walk.

(** [_stage_walk], with the levels of nesting that are left: nine at the top. *)
Fixpoint _stage_walk (levels : nat) (source : text) : option (list (list stage_t)) :=
  match levels with O => None | S l => walk_loop (_stage_walk l) (length source) source [] [[]] end.

(** [_option_is_strong] *)
Definition _option_is_strong (o : text) : bool := (3 <=? length o)%nat || existsb (fun c => negb (isalnum c || is_one_of " -_" c)) o.

(** The index stage of an alternative. *)
Definition same_stage (a b : stage_t) : bool := forallb (fun o => elem o b) a && forallb (fun o => elem o a) b.
Definition index_stage (alternative : list stage_t) : option stage_t :=
  match List.filter (fun stage => bool_decide (stage <> []) && forallb _option_is_strong stage) alternative with
  | [] =>
      match alternative with
      | [] => None
      | s :: rest => if existsb (fun s' => negb (same_stage s s')) rest then Some (best_stage alternative) else None
      end
  | candidates => Some (best_stage candidates)
  end.

(** [_pattern_screen_stages] *)
Fixpoint stage_branches (branches : list text) : option (list (stage_t * list stage_t)) :=
  match branches with
  | [] => Some []
  | branch :: rest =>
      alternatives ← _stage_walk 9 branch;
      here ← mapM (fun a : list stage_t => i ← index_stage a; Some (i, a)) alternatives;
      staged ← stage_branches rest;
      Some (here ++ staged)
  end.
Definition _pattern_screen_stages (source : text) : option (list (stage_t * list stage_t)) :=
  staged ← stage_branches (default [source] (_regex_top_alternatives source));
  if (_MAX_SCREEN_ALTERNATIVES <? length staged)%nat then None else Some staged.

(** ** The screen *)

(** Literals, what refines each of them, and the patterns to search directly. *)
Record screen := mkScreen { sc_literals : list text; sc_refinements : list (text * list (list stage_t)); sc_unscreened : list pattern }.

(** [refinements.setdefault(literal, []).append(stages)], with the literal added. *)
Definition add_literal (stages : list stage_t) (sc : screen) (literal : text) : screen :=
  let l := lower literal in
  mkScreen (if elem l (sc_literals sc) then sc_literals sc else sc_literals sc ++ [l])
    (dict_set l (default [] (dict_get l (sc_refinements sc)) ++ [stages]) (sc_refinements sc)) (sc_unscreened sc).

Definition add_alternative (sc : screen) (e : stage_t * list stage_t) : screen :=
  fold_left (add_literal (map (map lower) e.2)) e.1 sc.

Definition add_pattern (sc : screen) (p : pattern) : screen :=
  match _pattern_screen_stages (pt_source p) with
  | None => mkScreen (sc_literals sc) (sc_refinements sc) (sc_unscreened sc ++ [p])
  | Some alternatives => fold_left add_alternative alternatives sc
  end.

(** [_literal_screen] *)
Definition _literal_screen (patterns : list pattern) : screen := fold_left add_pattern patterns (mkScreen [] [] []).

(** [_window_form_scan_needed] *)
Definition _window_form_scan_needed (sc : screen) (t lowered : text) : bool :=
  existsb (fun literal => contains literal lowered
             && existsb (fun stages => forallb (existsb (fun o => contains o lowered)) stages) (default [] (dict_get literal (sc_refinements sc))))
    (sc_literals sc)
  || existsb (fun p => pt_search p t) (sc_unscreened sc).

(** ** The screen of the scanner *)

(** The sources of the rules: the first components of [_RULE_SPECS], decoded. *)
Definition rule_sources : list text := map u
  ["ignore\s+(all\s+)?previous\s+instructions\b"; "system\s+prompt\b"; "developer\s+message\b"; "new\s+instructions\b"; "you\s+are\s+now\b";
   "write\s+this\s+to\s+memory\b"; "remember\s+this\s+as\s+truth\b"; "store\s+this\s+as\s+core\s+memory\b"; "overwrite\s+permissions\b";
   "reveal\s+(the\s+)?(secret|token|key)\b"; "\bapi[_ -]?key\b"; "private\s+key\b"; "BEGIN\s+OPENSSH\s+PRIVATE\s+KEY\b"; "exfiltrate\b"]%string.

(** [source.replace(needle, "")] *)
Fixpoint remove_all (needle : text) (skip : nat) (t : text) : text :=
  match t with
  | [] => []
  | c :: t' =>
      match skip with
      | S k => remove_all needle k t'
      | O => if starts_text needle t then remove_all needle (length needle - 1) t' else c :: remove_all needle 0 t'
      end
  end.
Definition compact_source (source : text) : text := remove_all (u "\s*") 0 (remove_all (u "\s+") 0 source).

(** The compiled rules with their sources. *)
Definition split_patterns : list pattern :=
  omap (fun e : text * (regex * text * string) =>
    if elem e.2.1.2 _NON_IMPERATIVE_SPLIT_MATCHES then None else Some (mkPattern e.1 (search e.2.1.1))) (zip rule_sources _RULES).
Definition compact_patterns : list pattern :=
  omap (fun e : text * (regex * text * string) =>
    if elem e.2.1.2 _NON_IMPERATIVE_SPLIT_MATCHES then None else Some (mkPattern (compact_source e.1) (search (without_spaces e.2.1.1))))
    (zip rule_sources _RULES).
End screen.

(** How a detector keeps its patterns: in a dictionary or a list of its own, or in
    the tables of its module; an entry that is no pattern is [None]. *)
Record layout := mkLayout { ly_own : option (list pattern); ly_class : string; ly_module : option (list (string * list (option pattern))) }.

Class DetectorLayouts := { detector_layouts : list layout }.

Definition _DETECTOR_PATTERN_TABLES : list (string * list string) :=
  [("ToolAbuseDetector", ["TOOL_ABUSE_PATTERNS"; "UNSAFE_TOOL_OUTPUT_PATTERNS"]); ("PrivilegeEscalationDetector", ["ESCALATION_PATTERNS"]);
   ("ExcessiveAutonomyDetector", ["AUTONOMY_PATTERNS"])]%string.

(** The patterns of one detector; [None] when they cannot be read off. *)
Definition layout_patterns (l : layout) : option (list pattern) :=
  match ly_own l with
  | Some own => Some own
  | None =>
      tables ← dict_get (ly_class l) _DETECTOR_PATTERN_TABLES;
      module ← ly_module l;
      found ← mapM (fun name => entries ← dict_get name module; mapM id entries) tables;
      Some (concat found)
  end.

Section query_screen.
Context `{UnicodeDb} `{DetectorLayouts}.

(** [_query_window_screen] *)
Definition _query_window_screen : option (screen * screen) :=
  found ← mapM layout_patterns detector_layouts;
  Some (_literal_screen (split_patterns ++ concat found), _literal_screen compact_patterns).

(** [_query_window_scan_skippable] of [memory_router/security.py] *)
Definition _query_window_scan_skippable (window : text) (strip_inword_digits : bool) : bool :=
  match _query_window_screen with
  | None => false
  | Some (value_screen, compact_screen) =>
      if strip_inword_digits || negb (all_ascii window) then false
      else if _window_form_scan_needed value_screen window (lower window) then false
      else
        let compact := without_whitespace window in
        if bool_decide (compact = window) && bool_decide (sc_literals compact_screen = []) && match sc_unscreened compact_screen with [] => true | _ => false end
        then true
        else negb (_window_form_scan_needed compact_screen compact (lower compact))
  end.
End query_screen.
