(* ===== verification/QueryScan.v ===== *)
(** * The scan of query parameters

    Models [scan_query_values] of [memory_router/security.py]: the parameters with
    the JSON one decoded ([_query_scan_values]), the direct scan of every key and
    value, and the windows over values, keys and all of them in order
    ([_scan_query_window]) with the screen that spares harmless windows. The
    windows use the state of [Scanner] with no field in the key of the cache. *)

From Stdlib Require Import ZArith Lia Ascii.
From stdpp Require Import base sets strings numbers list.
From S2P Require Import Prelude Errors Text Json JsonParse Chars ScanModels RuleEdges ScanWindows Provenance UnicodeFold UnicodeFoldProps Regex ScanRules ScanRulesProps Base64 EncodedScan Approval FieldWalk Scanner ScannerProps ScanEntry ScanEntryProps Screen.

Local Open Scope Z_scope.

Definition MAX_QUERY_SCAN_FIELDS : nat := 256.
Definition MAX_QUERY_ROLLING_WINDOWS : Z := 32768.
Definition MAX_QUERY_SKIP_WINDOWS : Z := 32768.
Definition MAX_QUERY_SCAN_SECONDS : Z := 10.

(** ** The parameters *)

(** What [_query_scan_values] does when it is advanced: yield a pair, look at the
    deadline, report a limit and end, or raise. *)
Inductive query_item :=
  | QYield (key raw : text)
  | QDeadline
  | QReport (matched : string)
  | QRaise (e : exn).

(** [_decoded_query_values], up to a text that cannot be encoded. *)
Fixpoint decoded_items (fields : list field) : list query_item :=
  match fields with
  | [] => []
  | f :: rest =>
      let value := rt_text (fi_raw f) in
      if encodable value then (if fi_is_key f then QYield value [] else QYield [] value) :: decoded_items rest
      else [QReport "invalid_query_unicode"]
  end.

(** [json.loads] of a text that can be encoded. *)
Definition loads_text (t : text) : option json := json_loads (of_chars (map chr (encode t))).

(** The items of the parameter [tag_groups]. *)
Definition tag_items (key raw : text) : list query_item :=
  QDeadline :: match _string_exceeds_scan_limit raw with
               | None => [QRaise UnicodeEncodeError]
               | Some true => [QReport "field_size_limit"]
               | Some false =>
                   match loads_text raw with
                   | None => [QReport "invalid_query_json"]
                   | Some decoded => QYield key [] :: decoded_items (_walk_strings (tree_of decoded) (u "query.tag_groups") (mkMode false false))
                   end
               end.

(** [_query_scan_values] *)
Definition _query_scan_values (query : list (text * text)) : list query_item :=
  concat (map (fun kv : text * text => if bool_decide (kv.1 = u "tag_groups") then tag_items kv.1 kv.2 else [QYield kv.1 kv.2]) query).

(** ** Direct scans *)

Record query_state := mkQuery {
  qs_clock : nat; qs_result : Verdict; qs_encoded : EncodedState; qs_values : list text; qs_keys : list text; qs_traversal : list text;
  qs_fields : list field; qs_detectors : list text; qs_keycaps : list text
}.

Definition query_start (n : nat) : query_state := mkQuery n no_findings new_encoded [] [] [] [] [] [].

Definition query_tick {A} (m : scan A) : eff query_state A := fun w =>
  match m (qs_clock w) with
  | (r, n) => (r, mkQuery n (qs_result w) (qs_encoded w) (qs_values w) (qs_keys w) (qs_traversal w) (qs_fields w) (qs_detectors w) (qs_keycaps w))
  end.
Definition query_result (f : Verdict -> Verdict) : eff query_state unit := modify (fun w =>
  mkQuery (qs_clock w) (f (qs_result w)) (qs_encoded w) (qs_values w) (qs_keys w) (qs_traversal w) (qs_fields w) (qs_detectors w) (qs_keycaps w)).
Definition query_encoded (m : eff enc_world unit) : eff query_state unit := fun w =>
  match m (mkEnc (qs_clock w) (qs_result w) (qs_encoded w)) with
  | (r, e) => (r, mkQuery (ew_clock e) (ew_result e) (ew_state e) (qs_values w) (qs_keys w) (qs_traversal w) (qs_fields w) (qs_detectors w) (qs_keycaps w))
  end.
Definition query_keycap (t : text) : eff query_state unit := modify (fun w =>
  mkQuery (qs_clock w) (qs_result w) (qs_encoded w) (qs_values w) (qs_keys w) (qs_traversal w) (qs_fields w) (qs_detectors w) (set_add t (qs_keycaps w))).
Definition query_detected (fs : list Finding) : eff query_state unit := modify (fun w =>
  mkQuery (qs_clock w) (add_findings fs (qs_result w)) (qs_encoded w) (qs_values w) (qs_keys w) (qs_traversal w) (qs_fields w)
    (fold_left (fun l f => set_add (detector_or_matched f) l) fs (qs_detectors w)) (qs_keycaps w)).

(** A canonical key or value joins its list, the traversal and the fields. *)
Definition query_keep (path t : text) (is_key : bool) : eff query_state unit := modify (fun w =>
  mkQuery (qs_clock w) (qs_result w) (qs_encoded w) (if is_key then qs_values w else qs_values w ++ [t]) (if is_key then qs_keys w ++ [t] else qs_keys w)
    (qs_traversal w ++ [t]) (qs_fields w ++ [mkField path (plain t) false is_key]) (qs_detectors w) (qs_keycaps w)).

Definition time_limit : Finding := finding "time_limit" "span_limit".

Section query.
Context `{UnicodeDb} `{Clock} `{Confusables} `{Detectors} `{CaseDb} `{DetectorLayouts}.

(** The scan of a key or of a value: whether the loop goes on. *)
Definition query_part (deadline : Z) (path raw : text) (is_key : bool) : eff query_state bool :=
  r ← catch_deadline (c ← query_tick (canonicalize_content raw (Some deadline)); mret (Some c)) (query_result (add_finding time_limit);; mret None);
  match r with
  | None => mret false
  | Some (canonical, ts) =>
      query_result (_add_unicode_findings ts);;
      let keycap := elem "keycap"%string ts in
      (if keycap then query_keycap canonical else mret ());;
      query_keep path canonical is_key;;
      catch_deadline
        (rules ← query_tick (_rule_scan canonical (Some deadline) keycap false);
         query_result (add_findings rules);;
         detected ← query_tick (_amg_scan path canonical "read" (Some deadline) false);
         query_detected detected;;
         query_encoded (_scan_encoded path (plain canonical) "read" false (Some deadline));;
         mret true)
        (query_result (add_finding time_limit);; mret false)
  end.

Definition query_late (deadline : Z) : eff query_state bool :=
  w ← get_state;
  r ← query_tick (_deadline_reached (qs_result w) (Some deadline) None);
  let '(result, b) := r : Verdict * bool in
  query_result (fun _ => result);; mret b.

(** [_string_exceeds_scan_limit(key) or _string_exceeds_scan_limit(raw)] *)
Definition either_too_long (key raw : text) : option bool :=
  match _string_exceeds_scan_limit key with Some false => _string_exceeds_scan_limit raw | r => r end.

(** The main loop over the items; [index] counts the pairs. *)
Fixpoint query_loop (deadline : Z) (index : nat) (items : list query_item) : eff query_state unit :=
  match items with
  | [] => mret ()
  | QDeadline :: rest => stop ← query_late deadline; if stop : bool then mret () else query_loop deadline index rest
  | QReport matched :: _ => query_result (add_finding (finding matched "span_limit"))
  | QRaise e :: _ => raise e
  | QYield key raw :: rest =>
      if (MAX_QUERY_SCAN_FIELDS <=? index)%nat then query_result (add_finding (finding "query_field_limit" "span_limit"))
      else
        stop ← query_late deadline;
        if stop : bool then mret ()
        else match either_too_long key raw with
        | None => raise UnicodeEncodeError
        | Some true => query_result (add_finding (finding "field_size_limit" "span_limit"))
        | Some false =>
            if _exceeds_non_ascii_budget key MAX_NON_ASCII_CODEPOINTS || _exceeds_non_ascii_budget raw MAX_NON_ASCII_CODEPOINTS
            then query_result (add_finding (finding "unicode_size_limit" "span_limit"))
            else
              ok ← query_part deadline (u "query." ++ key ++ u ".key") key true;
              if negb ok then mret ()
              else
                ok ← query_part deadline (u "query." ++ key) raw false;
                if negb ok then mret ()
                else stop ← query_late deadline; if stop : bool then mret () else query_loop deadline (S index) rest
        end
  end.

(** ** Windows *)

(** What [_QueryWindowContext] holds fixed. *)
Definition query_env (deadline : Z) (q : query_state) : win_env :=
  mkEnv (qs_fields q) [] (qs_detectors q) (qs_keycaps q) "read" (Some deadline) None.

(** The findings of a window, from the cache, by the screen, or computed. *)
Definition query_findings (env : win_env) (window : text) (strip : bool) : eff win (option window_found) :=
  let cache_key := ([], window, strip) in
  w ← get_state;
  match dict_get cache_key (wn_cache w) with
  | Some found => mret (Some found)
  | None =>
      r ← (if _query_window_scan_skippable window strip then mret (Some ([], []))
           else catch_deadline
             (rules ← win_tick (_split_instruction_rule_scan window (we_deadline env) strip false);
              detected ← win_tick (_amg_scan (u "query.rolling") window (we_operation env) (we_deadline env) false);
              mret (Some (rules, detected)))
             (win_add time_limit;; mret None));
      match r with
      | None => mret None
      | Some found => win_store cache_key found;; mret (Some found)
      end
  end.

(** The loop over the findings of the rules: whether it returns. *)
Fixpoint query_rules (env : win_env) (fragments : list text) (fs : list Finding) : eff win bool :=
  match fs with
  | [] => mret false
  | f :: rest =>
      if bool_decide (fd_reason f = "span_limit"%string) then win_add f;; mret true
      else
        (if negb (_bare_secret_name_fragments (fd_matched f) fragments (context_fields (we_fields env)))
            && existsb (fun hit => _crosses_field_boundary hit fragments) (fd_hits f)
         then win_add (mkFinding (fd_matched f) "split_instruction" None None []) else mret ());;
        query_rules env fragments rest
  end.

(** [_scan_query_window]: whether the scan ends. *)
Definition _scan_query_window (env : win_env) (window : text) (fragments : list text) : eff win bool :=
  found ← query_findings env window (existsb (fun fragment => elem fragment (we_keycaps env)) fragments);
  match found with
  | None => mret true
  | Some (rules, detected) =>
      stopped ← query_rules env fragments rules;
      if stopped : bool then mret true
      else
        for_each (fun f => if detected_across (we_detectors env) fragments f then win_add (split_finding f) else mret ()) detected;;
        mret false
  end.

(** The windows of one step of a group: whether the scan ends. *)
Fixpoint query_rolling (env : win_env) (fragments : list text) (windows : list text) : eff win bool :=
  match windows with
  | [] => mret false
  | window :: rest =>
      w ← get_state;
      modify (fun w => mkWin (wn_clock w) (wn_result w) (wn_rolling w + 1) (wn_skips w) (wn_limit w) (wn_cache w));;
      if MAX_QUERY_ROLLING_WINDOWS <? wn_rolling w + 1 then win_add (finding "window_limit" "span_limit");; mret true
      else
        stop ← _scan_query_window env window fragments;
        if stop : bool then mret true else query_rolling env fragments rest
  end.

(** The growing windows of a group: whether the scan ends. *)
Fixpoint query_group (env : win_env) (st : rolling) (values : list text) : eff win bool :=
  match values with
  | [] => mret false
  | value :: rest =>
      stop ← win_late env;
      if stop : bool then mret true
      else
        before ← (match List.last (map Some (ro_fragments st)) None with
                  | None => mret []
                  | Some previous =>
                      edges ← win_tick (_trim_evasion_variants previous value (we_deadline env));
                      mret (_junction_variants (ro_spaced st) (ro_compact st) value ++ edges)
                  end);
        let st := roll st value in
        stop ← (match ro_fragments st with
                | _ :: _ :: _ => query_rolling env (ro_fragments st) (dict_fromkeys (before ++ rolled_windows st))
                | _ => mret false
                end);
        if stop : bool then mret true else query_group env st rest
  end.

(** The windows over a group with omitted values: whether the scan ends. *)
Fixpoint query_skip_windows (env : win_env) (fragments : list text) (windows : list text) : eff win bool :=
  match windows with
  | [] => mret false
  | window :: rest =>
      w ← get_state;
      modify (fun w => mkWin (wn_clock w) (wn_result w) (wn_rolling w) (wn_skips w + 1) (wn_limit w) (wn_cache w));;
      if MAX_QUERY_SKIP_WINDOWS <? wn_skips w + 1 then win_add (finding "window_limit" "span_limit");; mret true
      else
        stop ← _scan_query_window env window fragments;
        if stop : bool then mret true
        else stop ← win_late env; if stop : bool then mret true else query_skip_windows env fragments rest
  end.

Fixpoint query_skips (env : win_env) (groups : list (list text)) : eff win bool :=
  match groups with
  | [] => mret false
  | fragments :: rest =>
      windows ← win_tick (_sequence_join_variants fragments (we_deadline env));
      stop ← query_skip_windows env fragments windows;
      if stop : bool then mret true else query_skips env rest
  end.

(** The loop over values, keys and all in order: whether the scan ends. *)
Fixpoint query_windows (env : win_env) (groups : list (list text)) : eff win bool :=
  match groups with
  | [] => mret false
  | values :: rest =>
      if (length values <? 2)%nat then query_windows env rest
      else
        win_reset_skips;;
        stop ← query_group env (mkRolling [] [] [] []) values;
        if stop : bool then mret true
        else
          stop ← query_skips env (bounded_skip_fragments values MAX_SKIPS);
          if stop : bool then mret true else query_windows env rest
  end.

(** What comes after the direct scans. *)
Definition query_across (deadline : Z) (q : query_state) : eff world unit :=
  stop ← in_world (enter_windows false) leave_windows (query_windows (query_env deadline q) [qs_values q; qs_keys q; qs_traversal q]);
  if stop : bool then mret ()
  else
    stop ← reached (Some deadline) None;
    if stop : bool then mret ()
    else _scan_split_base64 (qs_fields q) "read" (Some deadline) None;; reached (Some deadline) None;; mret ().

(** The direct scans of all parameters. *)
Definition query_direct (deadline : Z) (query : list (text * text)) : scan query_state := fun n =>
  match query_loop deadline 0 (_query_scan_values query) (query_start n) with
  | (Ok _, w) => (Ok w, qs_clock w)
  | (Err e, w) => (Err e, qs_clock w)
  end.

(** [scan_query_values] *)
Definition scan_query_values (query : list (text * text)) : scan Verdict :=
  deadline ← deadline_in (seconds MAX_QUERY_SCAN_SECONDS);
  q ← query_direct deadline query;
  from_result (qs_result q) (query_across deadline q).
End query.

(** ** The scan of query parameters: what is shown

    A safe verdict on a query says of every parameter, also of the texts and keys
    inside the JSON parameter, that its key and its value were scanned and clean. *)

Lemma query_tick_guarded {A} (m : scan A) : guarded qs_result (query_tick m).
Proof. intros w r w'. unfold query_tick. destruct (m (qs_clock w)). by intros [= _ <-]. Qed.

Lemma query_result_guarded f : (forall r, is_safe (f r) = true -> is_safe r = true) -> guarded qs_result (query_result f).
Proof. intros Hf. apply guarded_modify. intros w. apply Hf. Qed.

Lemma query_encoded_guarded m : guarded ew_result m -> guarded qs_result (query_encoded m).
Proof. intros Hm w r w'. unfold query_encoded. destruct (m _) as [r1 e] eqn:E. intros [= _ <-] Hs. by apply (Hm _ _ _ E) in Hs. Qed.

Lemma query_keycap_guarded t : guarded qs_result (query_keycap t).
Proof. by apply guarded_modify. Qed.

Lemma query_keep_guarded path t k : guarded qs_result (query_keep path t k).
Proof. by apply guarded_modify. Qed.

Lemma query_detected_guarded fs : guarded qs_result (query_detected fs).
Proof. apply guarded_modify. intros w Hs. by apply add_findings_safe in Hs as [_ Hs]. Qed.

Lemma add_findings_grow fs r : is_safe (add_findings fs r) = true -> is_safe r = true.
Proof. by intros [_ Hs]%add_findings_safe. Qed.

#[export] Hint Resolve query_tick_guarded query_result_guarded query_encoded_guarded query_keycap_guarded query_keep_guarded query_detected_guarded add_findings_grow : guard.

Section query.
Context `{UnicodeDb} `{Clock} `{Confusables} `{Detectors} `{CaseDb} `{DetectorLayouts}.

Lemma query_late_guarded deadline : guarded qs_result (query_late deadline).
Proof.
  intros w r w'. unfold query_late, mbind, eff_bind, get_state, query_tick. destruct (_deadline_reached (qs_result w) _ _ _) as [[[r1 b]|e] n1] eqn:E.
  - intros [= _ <-] Hs. simpl in Hs. by destruct (deadline_reached_inv _ _ _ _ _ _ _ E) as [[_ Hu]|[_ ->]]; [rewrite Hu in Hs|].
  - by intros [= _ <-].
Qed.

Lemma query_part_guarded deadline path raw k : guarded qs_result (query_part deadline path raw k).
Proof. unfold query_part. guarding. Qed.
#[local] Hint Resolve query_late_guarded query_part_guarded : guard.

Lemma query_loop_guarded deadline items : forall index, guarded qs_result (query_loop deadline index items).
Proof. induction items as [|item items IH]; intros index; [apply guarded_ret|]. destruct item; cbn [query_loop]; guarding. Qed.

Lemma query_findings_guarded env window strip : guarded wn_result (query_findings env window strip).
Proof. unfold query_findings. guarding. Qed.

Lemma query_rules_guarded env fragments fs : guarded wn_result (query_rules env fragments fs).
Proof. induction fs as [|f fs IH]; cbn [query_rules]; guarding. Qed.
#[local] Hint Resolve query_findings_guarded query_rules_guarded win_late_guarded : guard.

Lemma scan_query_window_guarded env window fragments : guarded wn_result (_scan_query_window env window fragments).
Proof. unfold _scan_query_window. guarding. Qed.

Lemma count_guarded f : (forall w, wn_result (f w) = wn_result w) -> guarded wn_result (modify f).
Proof. intros Hf. apply guarded_modify. intros w. by rewrite Hf. Qed.
#[local] Hint Resolve scan_query_window_guarded count_guarded : guard.

Lemma query_rolling_guarded env fragments ws : guarded wn_result (query_rolling env fragments ws).
Proof. induction ws as [|window ws IH]; cbn [query_rolling]; guarding. Qed.

Lemma query_skip_windows_guarded env fragments ws : guarded wn_result (query_skip_windows env fragments ws).
Proof. induction ws as [|window ws IH]; cbn [query_skip_windows]; guarding. Qed.
#[local] Hint Resolve query_rolling_guarded query_skip_windows_guarded : guard.

Lemma query_group_guarded env values : forall st, guarded wn_result (query_group env st values).
Proof. induction values as [|v values IH]; intros st; cbn [query_group]; guarding. Qed.

Lemma query_skips_guarded env groups : guarded wn_result (query_skips env groups).
Proof. induction groups as [|g groups IH]; cbn [query_skips]; guarding. Qed.
#[local] Hint Resolve query_group_guarded query_skips_guarded : guard.

Lemma query_windows_guarded env groups : guarded wn_result (query_windows env groups).
Proof. induction groups as [|g groups IH]; cbn [query_windows]; guarding. Qed.
#[local] Hint Resolve reached_guarded split_base64_guarded : guard.

Lemma query_across_guarded deadline q : guarded wo_result (query_across deadline q).
Proof.
  unfold query_across. guarding. intros w r w'. unfold in_world. destruct (query_windows _ _ _) as [r1 s] eqn:E. intros [= _ <-] Hs.
  by apply (query_windows_guarded _ _ _ _ _ E) in Hs.
Qed.

(** ** Every part is clean *)

(** What a safe scan says of a key or a value. *)
Definition clean_part (deadline : Z) (path t : text) : Prop :=
  exists c ts n n', canonicalize_content t (Some deadline) n = (Ok (c, ts), n')
    /\ no_rule false (elem "keycap"%string ts) c /\ no_detection path "read" c /\ quiet ts.

Lemma query_tick_inv {A} (m : scan A) w a w' : query_tick m w = (Ok a, w') -> exists n n', m n = (Ok a, n').
Proof. unfold query_tick. destruct (m (qs_clock w)) as [r n] eqn:E. intros [= -> <-]. by exists (qs_clock w), n. Qed.

Lemma query_report_unsafe f w u w' : query_result (add_finding f) w = (Ok u, w') -> is_safe (qs_result w') = true -> False.
Proof. intros [= _ <-]. apply add_finding_safe. Qed.

Lemma query_part_clean deadline path raw k w b w' : query_part deadline path raw k w = (Ok b, w') -> is_safe (qs_result w') = true ->
  b = true /\ clean_part deadline path raw.
Proof.
  intros Hrun Hs. unfold query_part in Hrun. apply bind_ok_inv in Hrun as (r & w1 & Hcan & Hrun). unfold catch_deadline, try_except in Hcan.
  match type of Hcan with match ?m with _ => _ end = _ => destruct m as [[r'|e] w1'] eqn:Ebody end.
  2:{ destruct (is_deadline e); [|done]. injection Hcan as <- <-. injection Hrun as _ <-. by apply add_finding_safe in Hs. }
  injection Hcan as <- <-. apply bind_ok_inv in Ebody as ([c ts] & w0 & Hc & Hret). injection Hret as <- <-. apply query_tick_inv in Hc as (n & n' & Hc).
  apply bind_ok_inv in Hrun as (? & w2 & Huni & Hrun). cbv zeta in Hrun.
  assert (Hs2 : is_safe (qs_result w2) = true) by (revert Hrun Hs; match goal with |- ?m w2 = _ -> _ => assert (Hg : guarded qs_result m) by guarding; apply Hg end).
  injection Huni as _ <-. apply unicode_findings_safe in Hs2 as [_ Hquiet]. apply bind_ok_inv in Hrun as (? & w3 & _ & Hrun).
  apply bind_ok_inv in Hrun as (? & w4 & _ & Hrun). unfold catch_deadline, try_except in Hrun.
  match type of Hrun with match ?m with _ => _ end = _ => destruct m as [[r'|e] w5] eqn:Ebody end.
  2:{ destruct (is_deadline e); [|done]. injection Hrun as _ <-. by apply add_finding_safe in Hs. }
  injection Hrun as -> <-. apply bind_ok_inv in Ebody as (rules & w6 & Hrules & Ebody). apply query_tick_inv in Hrules as (n6 & n6' & Hrules).
  apply bind_ok_inv in Ebody as (? & w7 & Hadd & Ebody).
  assert (Hs7 : is_safe (qs_result w7) = true) by (revert Ebody Hs; match goal with |- ?m w7 = _ -> _ => assert (Hg : guarded qs_result m) by guarding; apply Hg end).
  injection Hadd as _ <-. apply add_findings_safe in Hs7 as [-> _]. apply bind_ok_inv in Ebody as (detected & w8 & Hdet & Ebody).
  apply query_tick_inv in Hdet as (n8 & n8' & Hdet). apply bind_ok_inv in Ebody as (? & w9 & Hadd & Ebody).
  assert (Hs9 : is_safe (qs_result w9) = true) by (revert Ebody Hs; match goal with |- ?m w9 = _ -> _ => assert (Hg : guarded qs_result m) by guarding; apply Hg end).
  injection Hadd as _ <-. apply add_findings_safe in Hs9 as [-> _]. apply bind_ok_inv in Ebody as (? & w10 & _ & Hret). injection Hret as <- _.
  split; [done|]. exists c, ts, n, n'. split_and!; [done|by eapply rule_scan_clean|by eapply amg_scan_clean|done].
Qed.

(** What a safe scan says of a parameter. *)
Definition clean_item (deadline : Z) (item : query_item) : Prop :=
  match item with
  | QYield key raw => clean_part deadline (u "query." ++ key ++ u ".key") key /\ clean_part deadline (u "query." ++ key) raw
  | QDeadline => True
  | QReport _ | QRaise _ => False
  end.

Definition is_yield (item : query_item) : bool := match item with QYield _ _ => true | _ => false end.

Lemma query_late_inv deadline w b w' : query_late deadline w = (Ok b, w') -> is_safe (qs_result w') = true -> b = false.
Proof.
  unfold query_late, mbind, eff_bind, get_state, query_tick. destruct (_deadline_reached (qs_result w) _ _ _) as [[[r1 b1]|e] n1] eqn:E; [|done].
  intros [= <- <-] Hs. simpl in Hs. by destruct (deadline_reached_inv _ _ _ _ _ _ _ E) as [[_ Hu]|[-> ->]]; [rewrite Hu in Hs|].
Qed.

(** After a look at the deadline a safe run goes on. *)
Lemma query_late_step deadline (k : eff query_state unit) w u w' : (stop ← query_late deadline; if stop : bool then mret () else k) w = (Ok u, w') ->
  guarded qs_result k -> is_safe (qs_result w') = true -> exists w1, k w1 = (Ok u, w').
Proof.
  intros (stop & w1 & Hl & Hrun)%bind_ok_inv Hk Hs.
  assert (Hs1 : is_safe (qs_result w1) = true) by (destruct stop; [by injection Hrun as _ <-|by eapply Hk]).
  rewrite (query_late_inv _ _ _ _ Hl Hs1) in Hrun. by exists w1.
Qed.

Lemma query_loop_clean deadline items : forall index w u w', query_loop deadline index items w = (Ok u, w') -> is_safe (qs_result w') = true ->
  Forall (clean_item deadline) items /\ (index <= MAX_QUERY_SCAN_FIELDS -> index + length (List.filter is_yield items) <= MAX_QUERY_SCAN_FIELDS)%nat.
Proof.
  induction items as [|item items IH]; intros index w u w' Hrun Hs; [split; [constructor|simpl; lia]|]. pose proof query_loop_guarded as Hgl.
  destruct item as [key raw| |matched|e]; cbn [query_loop] in Hrun; [|..|done].
  - destruct (MAX_QUERY_SCAN_FIELDS <=? index)%nat eqn:Eidx; [by eapply query_report_unsafe in Hrun|]. apply Nat.leb_gt in Eidx.
    apply query_late_step in Hrun as [w1 Hrun]; [|guarding|done]. destruct (either_too_long key raw) as [[]|]; [by eapply query_report_unsafe in Hrun| |done].
    destruct (_ || _); [by eapply query_report_unsafe in Hrun|]. apply bind_ok_inv in Hrun as (ok & w2 & Hkey & Hrun).
    assert (Hs2 : is_safe (qs_result w2) = true) by (revert Hrun Hs; match goal with |- ?m w2 = _ -> _ => assert (Hg : guarded qs_result m) by guarding; apply Hg end).
    destruct (query_part_clean _ _ _ _ _ _ _ Hkey Hs2) as [-> Hck]. cbn [negb] in Hrun. apply bind_ok_inv in Hrun as (ok & w3 & Hval & Hrun).
    assert (Hs3 : is_safe (qs_result w3) = true) by (revert Hrun Hs; match goal with |- ?m w3 = _ -> _ => assert (Hg : guarded qs_result m) by guarding; apply Hg end).
    destruct (query_part_clean _ _ _ _ _ _ _ Hval Hs3) as [-> Hcv]. cbn [negb] in Hrun. apply query_late_step in Hrun as [w4 Hrun]; [|guarding|done].
    destruct (IH _ _ _ _ Hrun Hs) as [Hall Hlen]. split; [by constructor|]. simpl. lia.
  - apply query_late_step in Hrun as [w1 Hrun]; [|guarding|done]. destruct (IH _ _ _ _ Hrun Hs) as [Hall Hlen]. split; [by constructor|done].
  - by eapply query_report_unsafe in Hrun.
Qed.

(** C28: a query that is let through was scanned parameter by parameter. When
    [scan_query_values] finds a query safe, it has at most 256 pairs, counting the
    texts and keys inside the JSON parameter [tag_groups], which was read without
    an error; and of every pair the key and the value have a canonical text,
    computed within the deadline, in which no rule occurs in any reading, digits
    inside words removed where the text had key caps, and of which neither a
    detector nor the Unicode checks report anything. *)
Theorem query_texts_clean query n r n' : scan_query_values query n = (Ok r, n') -> is_safe r = true ->
  (length (List.filter is_yield (_query_scan_values query)) <= MAX_QUERY_SCAN_FIELDS)%nat
  /\ exists deadline, Forall (clean_item deadline) (_query_scan_values query).
Proof.
  unfold scan_query_values. intros (deadline & n1 & _ & Hrun)%bind_ok_inv Hs. apply bind_ok_inv in Hrun as (q & n2 & Hd & Hrun).
  apply from_result_safe in Hrun; [|apply query_across_guarded|done]. unfold query_direct in Hd.
  destruct (query_loop _ _ _ _) as [[[]|e] w] eqn:E; [|done]. injection Hd as <- _. destruct (query_loop_clean _ _ _ _ _ _ E Hrun) as [Hall Hlen].
  split; [|by exists deadline]. unfold MAX_QUERY_SCAN_FIELDS in *. lia.
Qed.
End query.

Module Example_query.
#[local] Instance frozen : Clock := {| monotonic := fun _ => 0 |}.
#[local] Instance ascii_db : UnicodeDb :=
  {| db_printable := fun _ => true; db_space := fun _ => false; db_alnum := fun _ => false; db_alpha := fun _ => false;
     db_digit := fun _ => false; db_decimal := fun _ => false; db_decimal_value := fun _ => 0; db_category := fun _ => "Ll"%string;
     db_name := fun _ => ""%string; db_casefold := fun c => [c]; normalize_nfkc := fun t => t; normalize_nfd := fun t => t |}.
#[local] Instance no_table : Confusables := {| ASCII_CONFUSABLES := [] |}.
#[local] Instance no_detectors : Detectors := {| _DETECTORS := [] |}.
#[local] Instance exact_case : CaseDb := {| db_same_case := Z.eqb |}.
#[local] Instance no_layouts : DetectorLayouts := {| detector_layouts := [] |}.

Definition page_query : list (text * text) := [(u "limit", u "20"); (u "tag_groups", u "[[1, 2], {}]")].

Lemma query_texts_clean_witness :
  exists r n', scan_query_values page_query 0%nat = (Ok r, n') /\ is_safe r = true
    /\ exists deadline, Forall (clean_item deadline) (_query_scan_values page_query).
Proof.
  eexists _, _. split; [vm_compute; reflexivity|]. split; [reflexivity|].
  eapply (query_texts_clean page_query 0%nat). - vm_compute. reflexivity. - reflexivity.
Defined.

(** An instruction inside the JSON parameter is found. *)
Lemma hidden_instruction_found :
  exists r n', scan_query_values [(u "tag_groups", u "[[" ++ [34] ++ u "system prompt" ++ [34] ++ u "]]")] 0%nat = (Ok r, n') /\ is_safe r = false.
Proof. eexists _, _. split; [vm_compute; reflexivity|reflexivity]. Qed.
End Example_query.
