(* ===== verification/ScanExecutor.v ===== *)
(** * The scan workers

    Models [memory_router/scan_executor.py]: scans run in a pool of worker
    processes, behind a bounded semaphore, and the pool is stopped and started
    again while requests are under way.

    The module state is [pool]. The functions under [_SCAN_EXECUTOR_LOCK] are
    operations on it. A call of [_scan_in_worker] is a [session]: the request, how
    far it got ([phase]) and its future; [advance] is its next step, one per
    section that other threads cannot see halfway. [step] interleaves the sessions
    with the workers, with cancellation, and with shutdown and start, in any order.
    The library [pebble] does what it documents: a scheduled call yields the
    result of the function on its arguments, or a time-out, or the death of the
    process; cancelling a call that has no result ends it; the callback of a
    future runs once, when the future is done. *)

From Stdlib Require Import ZArith Lia Ascii.
From stdpp Require Import base sets strings numbers list relations.
From S2P Require Import Prelude Errors Text Json JsonParse Hindsight OpenClaw Chars ScanModels RuleEdges UnicodeFold ScanRules Approval FieldWalk ScanEntry Screen QueryScan.

Local Open Scope Z_scope.

Definition SCAN_CAPACITY : Z := 4.

(** Times in seconds. *)
Definition FACADE_SCAN_TASK_SECONDS : Z := MAX_FACADE_SCAN_SECONDS + 1.
Definition FACADE_SCAN_WAIT_SECONDS : Z := FACADE_SCAN_TASK_SECONDS + 1.
Definition CORE_SCAN_TASK_SECONDS : Z := MAX_CORE_SCAN_SECONDS + 1.
Definition QUERY_SCAN_TASK_SECONDS : Z := MAX_CORE_SCAN_SECONDS + MAX_QUERY_SCAN_SECONDS + 1.

Inductive ScanKind := KRequest | KResponse | KRecall | KRetainResponse.

Definition kind_text (kind : ScanKind) : string :=
  match kind with KRequest => "request" | KResponse => "response" | KRecall => "recall" | KRetainResponse => "retain_response" end.

Definition is_response (kind : ScanKind) : bool := match kind with KResponse | KRetainResponse => true | _ => false end.

(** The operation of a kind in [scan_unavailable]. *)
Definition scan_operation (kind : ScanKind) : string :=
  match kind with KResponse => "facade_scan" | _ => (kind_text kind +:+ "_scan")%string end.

Definition unavailable (kind : ScanKind) (message : string) : exn := scan_unavailable (scan_operation kind) message.

(** [f"{kind} ..."] *)
Definition about (kind : ScanKind) (message : string) : exn := unavailable kind (kind_text kind +:+ message)%string.

Definition _scanner_shutdown (kind : ScanKind) : exn := about kind " safety scanner is shut down".

Definition _ScannerShutdown : exn := ERuntimeError "safety scanner shut down".

(** ** What a worker runs *)

(** A call for a worker: the scanner of the kind, with its arguments. *)
Record job := mkJob { jb_kind : ScanKind; jb_payload : string; jb_separate_page_ids : bool; jb_include_numbers : bool }.

Section worker.
Context `{UnicodeDb} `{Clock} `{Confusables} `{Detectors} `{CaseDb} `{DetectorLayouts}.

(** [json.loads(payload)] *)
Definition loads_payload (payload : string) : scan json :=
  match json_loads_bytes false false payload with
  | None => raise (EValueError "JSONDecodeError")
  | Some v => mret v
  end.

(** [value[key]] *)
Definition item_of (key : string) (v : json) : scan json :=
  match jget key v with None => raise (EOther "KeyError") | Some x => mret x end.

(** The pairs of a query, as JSON holds them. *)
Definition query_pair (v : json) : option (text * text) :=
  match v with JList [JStr key; JStr raw] => Some (points key, points raw) | _ => None end.

Definition query_pairs (v : json) : scan (list (text * text)) :=
  match v with
  | JList l => match mapM query_pair l with Some query => mret query | None => raise (EValueError "query") end
  | _ => raise (EOther "TypeError")
  end.

(** [_scan_request_payload] *)
Definition _scan_request_payload (payload : string) : scan Verdict :=
  request ← loads_payload payload;
  operation ← item_of "operation" request;
  body ← item_of "body" request;
  result ← (if bool_decide (operation = JStr "recall") then scan_recall_body body else scan_retain_body body);
  query ← item_of "query" request;
  match query with
  | JNull => mret result
  | _ => pairs ← query_pairs query; scanned ← scan_query_values pairs; mret (extend_verdict scanned result)
  end.

(** [frozenset(value["reviewed_result_positions"])] *)
Definition position_of (v : json) : option Z := match v with JInt n => Some n | _ => None end.

(** [_scan_recalled_payload] *)
Definition _scan_recalled_payload (payload : string) : scan Verdict :=
  value ← loads_payload payload;
  match jget "reviewed_result_positions" value with
  | None | Some JNull =>
      result ← item_of "result" value;
      stable ← item_of "reviewed_stable" value;
      scan_recall_result result (match stable with JBool b => b | _ => true end)
  | Some (JList l) =>
      result ← item_of "result" value;
      match mapM position_of l with Some positions => scan_recall_response result positions | None => raise (EOther "TypeError") end
  | Some _ => raise (EOther "TypeError")
  end.

(** The scanner of a kind. *)
Definition worker_scan (j : job) : scan Verdict :=
  match jb_kind j with
  | KResponse | KRetainResponse => scan_facade_payload (jb_payload j) (jb_separate_page_ids j) (jb_include_numbers j)
  | KRequest => _scan_request_payload (jb_payload j)
  | KRecall => _scan_recalled_payload (jb_payload j)
  end.
End worker.

(** ** Payloads *)

(** [json.dumps(..., allow_nan=False)] raises on a number that is not finite, or
    that has too many digits. *)
Fixpoint dumpable (v : json) : bool :=
  match v with
  | JNull | JBool _ | JStr _ => true
  | JInt n => int_readable n
  | JFloat t => isfinite t
  | JList l => forallb dumpable l
  | JDict d => forallb (fun kv => dumpable kv.2) d
  end.

(** [json.dumps(value, ...).encode("utf-8")] *)
Definition payload_of (value : json) : option string :=
  let printed := json_dumps value in
  if dumpable value && utf8_valid printed then Some printed else None.

(** ** The state of the module *)

Record pool := mkPool {
  px_executor : option nat;          (* _SCAN_EXECUTOR, one of the pools below *)
  px_active : list bool;             (* whether each pool that was created is active *)
  px_capacity : nat;                 (* _SCAN_CAPACITY, one of the semaphores below *)
  px_semaphores : list Z;            (* the value of every semaphore that was created *)
  px_generation : Z;                 (* _SCAN_GENERATION *)
  px_shutdown : bool;                (* _SCAN_SHUTDOWN *)
  px_futures : list nat;             (* _SCAN_FUTURES, by their sessions *)
  px_refused : nat                   (* releases a bounded semaphore raised on *)
}.

Definition new_pool : pool := mkPool None [] 0 [SCAN_CAPACITY] 0 false [] 0.

Definition set_semaphore (cap : nat) (v : Z) (p : pool) : pool :=
  mkPool (px_executor p) (px_active p) (px_capacity p) (<[cap := v]> (px_semaphores p)) (px_generation p) (px_shutdown p) (px_futures p) (px_refused p).
Definition set_futures (fs : list nat) (p : pool) : pool :=
  mkPool (px_executor p) (px_active p) (px_capacity p) (px_semaphores p) (px_generation p) (px_shutdown p) fs (px_refused p).
Definition set_executor (e : option nat) (active : list bool) (p : pool) : pool :=
  mkPool e active (px_capacity p) (px_semaphores p) (px_generation p) (px_shutdown p) (px_futures p) (px_refused p).

Definition semaphore (cap : nat) (p : pool) : Z := default 0 (px_semaphores p !! cap).

(** [capacity.release()] of a [BoundedSemaphore]. *)
Definition release (cap : nat) (p : pool) : pool :=
  if semaphore cap p <? SCAN_CAPACITY then set_semaphore cap (semaphore cap p + 1) p
  else mkPool (px_executor p) (px_active p) (px_capacity p) (px_semaphores p) (px_generation p) (px_shutdown p) (px_futures p) (S (px_refused p)).

Definition is_active (e : nat) (p : pool) : bool := default false (px_active p !! e).

(** [_scan_stopped] *)
Definition _scan_stopped (generation : Z) (p : pool) : bool := px_shutdown p || negb (generation =? px_generation p).

(** [executor.stop()] *)
Definition stop_executor (e : nat) (p : pool) : pool := set_executor (px_executor p) (<[e := false]> (px_active p)) p.

(** [_get_scan_executor] *)
Definition _get_scan_executor (expected_generation : option Z) : eff pool nat := fun p =>
  if px_shutdown p then (Err _ScannerShutdown, p)
  else if match expected_generation with Some g => negb (g =? px_generation p) | None => false end then (Err _ScannerShutdown, p)
  else match px_executor p with
  | Some e =>
      if is_active e p then (Ok e, p)
      else let e' := length (px_active p) in (Ok e', stop_executor e (set_executor (Some e') (px_active p ++ [true]) p))
  | None => let e' := length (px_active p) in (Ok e', set_executor (Some e') (px_active p ++ [true]) p)
  end.

(** The part of [start_scan_executor] under the lock. *)
Definition start_locked (p : pool) : pool :=
  if px_shutdown p then
    mkPool (px_executor p) (px_active p) (length (px_semaphores p)) (px_semaphores p ++ [SCAN_CAPACITY]) (px_generation p) false [] (px_refused p)
  else p.

(** The part of [shutdown_scan_executor] under the lock. *)
Definition shutdown_locked (p : pool) : pool :=
  mkPool None (px_active p) (px_capacity p) (px_semaphores p) (px_generation p + 1) true (px_futures p) (px_refused p).

(** [_acquire_scan_capacity] *)
Definition _acquire_scan_capacity : eff pool (option (Z * nat)) := fun p =>
  if px_shutdown p then (Err _ScannerShutdown, p)
  else
    let capacity := px_capacity p in
    if 0 <? semaphore capacity p
    then (Ok (Some (px_generation p, capacity)), set_semaphore capacity (semaphore capacity p - 1) p)
    else (Ok None, p).

(** ** Sessions *)

(** One call of [_scan_in_worker]. *)
Record request := mkRequest { rq_kind : ScanKind; rq_value : json; rq_separate_page_ids : bool; rq_include_numbers : bool }.

Definition job_of (r : request) (payload : string) : job := mkJob (rq_kind r) payload (rq_separate_page_ids r) (rq_include_numbers r).

(** How a future ends. *)
Inductive outcome :=
  | OResult (r : result Verdict)     (* the scanner returned or raised *)
  | OTimeout                         (* the task exceeded its time *)
  | OExpired                         (* the process died: ProcessExpired *)
  | OCancelled
  | OFailed.                         (* any other failure of the pool *)

(** A future, with the generation of its request and, once the callback is
    attached, the semaphore that it releases. *)
Record future := mkFuture { fu_job : job; fu_generation : Z; fu_outcome : option outcome; fu_callback : option nat }.

(** What the exception handlers of the last [try] have caught. *)
Inductive caught := CTimeout | CCancelled | CException.

Inductive phase :=
  | Arrived
  | Accepted (g : Z) (cap : nat)
  | Prepared (g : Z) (cap : nat) (payload : string)
  | Equipped (g : Z) (cap : nat) (payload : string) (executor : nat)
  | Scheduled (g : Z) (cap : nat)
  | Registered (g : Z) (cap : nat)
  | Waiting (g : Z)
  | Handling (g : Z) (c : caught)
  | Ended (r : result Verdict).

Record session := mkSession { ss_request : request; ss_phase : phase; ss_future : option future }.

(** What may happen at the next step of a session: the code goes on, the call it
    makes raises, the task is cancelled, or [wait_for] runs out of time. *)
Inductive move := Proceed | Fails | Cancels | TimesOut.

(** [_SCAN_FUTURES.discard(done)], then [capacity.release()]. *)
Definition callback (i cap : nat) (p : pool) : pool := release cap (set_futures (List.filter (fun j => negb (j =? i)%nat) (px_futures p)) p).

(** The future of session [i] is done; a done future stays as it is. *)
Definition finish (i : nat) (o : outcome) (f : future) (p : pool) : future * pool :=
  match fu_outcome f with
  | Some _ => (f, p)
  | None => (mkFuture (fu_job f) (fu_generation f) (Some o) (fu_callback f),
             match fu_callback f with Some cap => callback i cap p | None => p end)
  end.

(** [future.add_done_callback(release)] *)
Definition add_done_callback (i cap : nat) (f : future) (p : pool) : future * pool :=
  (mkFuture (fu_job f) (fu_generation f) (fu_outcome f) (Some cap),
   match fu_outcome f with Some _ => callback i cap p | None => p end).

(** [future.cancel()] of a session. *)
Definition cancel (i : nat) (s : session) (p : pool) : option future * pool :=
  match ss_future s with
  | None => (None, p)
  | Some f => let '(f, p) := finish i OCancelled f p in (Some f, p)
  end.

Definition too_large (r : request) (payload : string) : bool := is_response (rq_kind r) && (MAX_FACADE_RESPONSE_BYTES <? slen payload).

(** What the last [try] makes of the outcome of the future. *)
Definition after_wait (kind : ScanKind) (g : Z) (o : outcome) : phase :=
  match o with
  | OResult (Ok v) => Ended (Ok v)
  | OResult (Err _) | OFailed => Handling g CException
  | OTimeout => Handling g CTimeout
  | OCancelled => Handling g CCancelled
  | OExpired => Ended (Err (about kind " safety scanner worker failed"))
  end.

(** What the handlers raise. *)
Definition handled (kind : ScanKind) (stopped : bool) (c : caught) : exn :=
  if stopped then _scanner_shutdown kind
  else match c with
  | CTimeout => about kind " safety scan timed out"
  | CCancelled => CancelledError
  | CException => about kind " safety scanner failed"
  end.

(** The handlers of the first [try]: the semaphore is released. *)
Definition abandon (s : session) (cap : nat) (e : exn) (p : pool) : session * pool :=
  (mkSession (ss_request s) (Ended (Err e)) (ss_future s), release cap p).

Definition enter (s : session) (ph : phase) : session := mkSession (ss_request s) ph (ss_future s).

(** The next step of session [i]; [None] when it cannot happen. *)
Definition advance (i : nat) (mv : move) (s : session) (p : pool) : option (session * pool) :=
  let kind := rq_kind (ss_request s) in
  let failed := about kind " safety scanner failed" in
  match ss_phase s, mv with
  | Arrived, Proceed =>
      Some (match _acquire_scan_capacity p with
            | (Err _, p) => (enter s (Ended (Err (_scanner_shutdown kind))), p)
            | (Ok None, p) => (enter s (Ended (Err (about kind " safety scanner is busy"))), p)
            | (Ok (Some (g, cap)), p) => (enter s (Accepted g cap), p)
            end)
  | Accepted g cap, Proceed =>
      Some (match payload_of (rq_value (ss_request s)) with
            | None => abandon s cap failed p
            | Some payload =>
                if too_large (ss_request s) payload then abandon s cap (unavailable kind "response exceeded safety scan limits") p
                else (enter s (Prepared g cap payload), p)
            end)
  | Prepared g cap payload, Proceed =>
      Some (match _get_scan_executor (Some g) p with
            | (Err _, p) => abandon s cap (_scanner_shutdown kind) p
            | (Ok e, p) => (enter s (Equipped g cap payload e), p)
            end)
  | Prepared _ cap _, Cancels => Some (abandon s cap CancelledError p)
  | Prepared _ cap _, Fails | Equipped _ cap _ _, Fails => Some (abandon s cap failed p)
  | Equipped g cap payload e, Proceed =>
      Some (if is_active e p
            then (mkSession (ss_request s) (Scheduled g cap) (Some (mkFuture (job_of (ss_request s) payload) g None None)), p)
            else abandon s cap failed p)
  | Scheduled g cap, Proceed =>
      Some (if _scan_stopped g p
            then let '(f, p) := cancel i s p in
                 abandon (mkSession (ss_request s) (ss_phase s) f) cap (_scanner_shutdown kind) p
            else (enter s (Registered g cap), set_futures (i :: px_futures p) p))
  | Registered g cap, Proceed =>
      match ss_future s with
      | None => None
      | Some f => let '(f, p) := add_done_callback i cap f p in Some (mkSession (ss_request s) (Waiting g) (Some f), p)
      end
  | Waiting g, Proceed =>
      match ss_future s with
      | Some f => match fu_outcome f with Some o => Some (enter s (after_wait kind g o), p) | None => None end
      | None => None
      end
  | Waiting g, TimesOut => let '(f, p) := cancel i s p in Some (mkSession (ss_request s) (Handling g CTimeout) f, p)
  | Waiting g, Cancels => Some (enter s (Handling g CCancelled), p)
  | Handling g c, Proceed => Some (enter s (Ended (Err (handled kind (_scan_stopped g p) c))), p)
  | _, _ => None
  end.

(** ** The entry points *)

Definition query_json (query : option (list (string * string))) : json :=
  match query with None => JNull | Some q => JList (map (fun kv : string * string => JList [JStr kv.1; JStr kv.2]) q) end.

(** [scan_request]: its request, the seconds of its task and the seconds it waits. *)
Definition scan_request (body : list (string * json)) (operation : string) (query : option (list (string * string))) : request * Z * Z :=
  let task_seconds := match query with Some (_ :: _) => QUERY_SCAN_TASK_SECONDS | _ => CORE_SCAN_TASK_SECONDS end in
  (mkRequest KRequest (JDict [("body", JDict body); ("operation", JStr operation); ("query", query_json query)]) false false,
   task_seconds, task_seconds + 1).

(** [scan_facade_response] *)
Definition scan_facade_response (value : json) (separate_page_ids include_numbers native_retain : bool) : request * Z * Z :=
  (mkRequest (if native_retain then KRetainResponse else KResponse) value separate_page_ids include_numbers,
   FACADE_SCAN_TASK_SECONDS, FACADE_SCAN_WAIT_SECONDS).

(** [scan_recalled]; of a whole response, the value is what
    [recall_response_scan_input] returns. *)
Definition scan_recalled (value : json) (reviewed_stable : bool) (reviewed_result_positions : option (list nat)) : request * Z * Z :=
  (mkRequest KRecall (JDict
     [("result", value); ("reviewed_stable", JBool reviewed_stable);
      ("reviewed_result_positions",
       match reviewed_result_positions with None => JNull | Some l => JList (map (fun n : nat => JInt (Z.of_nat n)) (sorted_by Nat.leb (dict_fromkeys l))) end)])
     false false, CORE_SCAN_TASK_SECONDS, CORE_SCAN_TASK_SECONDS + 1).

(** ** All sessions together *)

Record system := mkSystem { sy_pool : pool; sy_sessions : list session }.

Definition new_system : system := mkSystem new_pool [].

Definition on_pool (f : pool -> pool) (s : system) : system := mkSystem (f (sy_pool s)) (sy_sessions s).

(** The future of session [i] ends. *)
Definition finish_future (i : nat) (o : outcome) (s : system) : system :=
  match sy_sessions s !! i with
  | Some ss =>
      match ss_future ss with
      | Some f =>
          let '(f', p) := finish i o f (sy_pool s) in
          mkSystem p (<[i := mkSession (ss_request ss) (ss_phase ss) (Some f')]> (sy_sessions s))
      | None => s
      end
  | None => s
  end.

(** [_get_scan_executor] on the state of all. *)
Definition get_executor (expected : option Z) : eff system nat := fun s =>
  let '(r, p) := _get_scan_executor expected (sy_pool s) in (r, mkSystem p (sy_sessions s)).

(** [start_scan_executor] *)
Definition start_scan_executor : eff system unit :=
  modify (on_pool start_locked);;
  e ← get_executor None;
  s ← get_state;
  if is_active e (sy_pool s) then mret () else raise (ERuntimeError "safety scanner failed to start").

(** [shutdown_scan_executor] *)
Definition shutdown_scan_executor : eff system unit :=
  s ← get_state;
  let executor := px_executor (sy_pool s) in
  let futures := px_futures (sy_pool s) in
  modify (on_pool shutdown_locked);;
  modify (fun s => fold_left (fun s i => finish_future i OCancelled s) futures s);;
  match executor with Some e => modify (on_pool (stop_executor e)) | None => mret () end.

Section steps.
Context `{UnicodeDb} `{Clock} `{Confusables} `{Detectors} `{CaseDb} `{DetectorLayouts}.

(** What a worker process does with a job. *)
Inductive worker_end (j : job) : outcome -> Prop :=
  | worker_ran n : worker_end j (OResult (fst (worker_scan j n)))
  | worker_timeout : worker_end j OTimeout
  | worker_expired : worker_end j OExpired
  | worker_cancelled : worker_end j OCancelled
  | worker_failed : worker_end j OFailed.

(** A call arrives, a session takes its next step, a future ends, the pool is
    started, shut down or asked for, or a pool becomes inactive. *)
Inductive step (s : system) : system -> Prop :=
  | step_arrive r : step s (mkSystem (sy_pool s) (sy_sessions s ++ [mkSession r Arrived None]))
  | step_advance i mv ss ss' p : sy_sessions s !! i = Some ss -> advance i mv ss (sy_pool s) = Some (ss', p) ->
      step s (mkSystem p (<[i := ss']> (sy_sessions s)))
  | step_finish i ss f o : sy_sessions s !! i = Some ss -> ss_future ss = Some f -> worker_end (fu_job f) o -> step s (finish_future i o s)
  | step_start : step s (on_pool start_locked s)
  | step_shutdown : step s (on_pool shutdown_locked s)
  | step_get expected : step s (snd (get_executor expected s))
  | step_stop e : step s (on_pool (stop_executor e) s).

Definition reachable (s : system) : Prop := rtc step new_system s.
End steps.
