(* ===== verification/ScanExecutorProps.v ===== *)
(** * Properties of the scan workers

    Invariants of the pool of [ScanExecutor.v] under every interleaving: the
    semaphores count exactly the scans under way, no scan of an earlier generation
    is registered after a restart, and a call ends with the verdict of its scanner
    or with an error. The contract [ScanWorkers] hands this to the policy. *)

From Stdlib Require Import ZArith Lia Ascii.
From stdpp Require Import base sets strings numbers list relations.
From S2P Require Import Prelude Errors Text Json JsonParse Hindsight OpenClaw Chars ScanModels RuleEdges UnicodeFold ScanRules Approval FieldWalk ScanEntry Screen QueryScan ScanExecutor.

Local Open Scope Z_scope.

(** ** Who holds a semaphore *)

Definition holds (ph : phase) : option nat :=
  match ph with
  | Accepted _ cap | Prepared _ cap _ | Equipped _ cap _ _ | Scheduled _ cap | Registered _ cap => Some cap
  | _ => None
  end.

(** A future that is not done holds what its callback will release. *)
Definition future_holds (f : option future) : option nat :=
  match f with
  | Some f => match fu_outcome f with None => fu_callback f | Some _ => None end
  | None => None
  end.

Definition one (b : bool) : Z := if b then 1 else 0.

(** How often a session holds a semaphore. *)
Definition held (cap : nat) (ss : session) : Z :=
  one (bool_decide (holds (ss_phase ss) = Some cap)) + one (bool_decide (future_holds (ss_future ss) = Some cap)).

Definition total (cap : nat) (l : list session) : Z := foldr (fun ss n => held cap ss + n) 0 l.

Lemma one_nonneg b : 0 <= one b.
Proof. destruct b; simpl; lia. Qed.

Lemma held_nonneg cap ss : 0 <= held cap ss.
Proof. unfold held. pose proof (one_nonneg (bool_decide (holds (ss_phase ss) = Some cap))). pose proof (one_nonneg (bool_decide (future_holds (ss_future ss) = Some cap))). lia. Qed.

Lemma total_app cap l l' : total cap (l ++ l') = total cap l + total cap l'.
Proof. induction l as [|ss l IH]; simpl; [done|]. unfold total in *. lia. Qed.

Lemma total_nonneg cap l : 0 <= total cap l.
Proof. induction l as [|ss l IH]; simpl; [done|]. pose proof (held_nonneg cap ss). unfold total in *. lia. Qed.

Lemma total_insert cap l i ss ss' : l !! i = Some ss -> total cap (<[i := ss']> l) = total cap l - held cap ss + held cap ss'.
Proof.
  revert i. induction l as [|x l IH]; intros [|i] Hi; [done..|by injection Hi as ->; simpl; lia|].
  simpl in *. specialize (IH _ Hi). unfold total in *. lia.
Qed.

Lemma held_total cap l i ss : l !! i = Some ss -> held cap ss <= total cap l.
Proof.
  revert i. induction l as [|x l IH]; intros [|i] Hi; [done..|injection Hi as ->|specialize (IH _ Hi)]; simpl.
  - pose proof (total_nonneg cap l). unfold total in *. lia.
  - pose proof (held_nonneg cap x). unfold total in *. lia.
Qed.

(** ** Semaphores *)

(** The semaphores of a pool agree with the numbers [T] of their holders, and no
    release was refused. *)
Definition balanced (p : pool) (T : nat -> Z) : Prop :=
  px_refused p = O /\ is_Some (px_semaphores p !! px_capacity p) /\
  forall cap, match px_semaphores p !! cap with Some v => 0 <= v /\ v + T cap = SCAN_CAPACITY | None => T cap = 0 end.

Lemma balanced_ext p T T' : balanced p T -> (forall cap, T cap = T' cap) -> balanced p T'.
Proof. intros (Hr & Hc & Hb) HT. split_and!; [done..|]. intros cap. specialize (Hb cap). rewrite <- HT. done. Qed.

(** Operations that leave the semaphores alone. *)
Lemma balanced_same p p' T : balanced p T ->
  px_refused p' = px_refused p -> px_capacity p' = px_capacity p -> px_semaphores p' = px_semaphores p -> balanced p' T.
Proof. intros (Hr & Hc & Hb) E1 E2 E3. unfold balanced. rewrite E1, E2, E3. done. Qed.

Lemma balanced_set p T cap d : balanced p T -> is_Some (px_semaphores p !! cap) -> 0 <= semaphore cap p + d ->
  balanced (set_semaphore cap (semaphore cap p + d) p) (fun c => T c - (if decide (c = cap) then d else 0)).
Proof.
  intros (Hr & Hc & Hb) [v Hv] Hd. unfold semaphore in *. rewrite Hv in *. simpl in *. split_and!; simpl; [done|by apply list_lookup_insert_is_Some|].
  intros c. specialize (Hb c). destruct (decide (c = cap)) as [->|Hne].
  - rewrite list_lookup_insert_eq by (by eapply lookup_lt_Some). rewrite Hv in Hb. lia.
  - rewrite list_lookup_insert_ne by done. rewrite Z.sub_0_r. done.
Qed.

Lemma balanced_release p T cap : balanced p T -> 1 <= T cap -> balanced (release cap p) (fun c => T c - one (bool_decide (Some cap = Some c))).
Proof.
  intros Hbal HT. destruct (px_semaphores p !! cap) as [v|] eqn:Hv.
  2:{ exfalso. destruct Hbal as (_ & _ & Hb). specialize (Hb cap). rewrite Hv in Hb. lia. }
  pose proof Hbal as (_ & _ & Hb). specialize (Hb cap). rewrite Hv in Hb. unfold release.
  assert (Hs : semaphore cap p = v) by (unfold semaphore; by rewrite Hv).
  destruct (Z.ltb_spec (semaphore cap p) SCAN_CAPACITY); [|lia].
  eapply balanced_ext; [apply balanced_set; [done|by rewrite Hv|lia]|].
  intros c. simpl. destruct (decide (c = cap)) as [->|Hne]; [by rewrite bool_decide_true|by rewrite bool_decide_false by congruence].
Qed.

Lemma balanced_callback p T i cap : balanced p T -> 1 <= T cap -> balanced (callback i cap p) (fun c => T c - one (bool_decide (Some cap = Some c))).
Proof. intros Hb HT. apply balanced_release; [|done]. by eapply balanced_same. Qed.

Lemma get_scan_executor_same expected p : let p' := snd (_get_scan_executor expected p) in
  px_refused p' = px_refused p /\ px_capacity p' = px_capacity p /\ px_semaphores p' = px_semaphores p
  /\ px_generation p' = px_generation p /\ px_shutdown p' = px_shutdown p /\ px_futures p' = px_futures p.
Proof. unfold _get_scan_executor. repeat case_match; simpl; done. Qed.

Section invariant.
Context `{UnicodeDb} `{Clock} `{Confusables} `{Detectors} `{CaseDb} `{DetectorLayouts}.

(** ** What a session may look like *)

(** The payload of a request, within its limit. *)
Definition encoded (r : request) (payload : string) : Prop := payload_of (rq_value r) = Some payload /\ too_large r payload = false.

(** The verdict is that of the scanner on the payload of the request. *)
Definition scanned_by (r : request) (v : Verdict) : Prop :=
  exists payload n n', encoded r payload /\ worker_scan (job_of r payload) n = (Ok v, n').

(** The errors of a call: cancelled, or 503 with the code of its kind. *)
Definition refusal (kind : ScanKind) (e : exn) : Prop := e = CancelledError \/ exists message, e = unavailable kind message.

Definition future_ok (r : request) (f : future) : Prop :=
  exists payload, encoded r payload /\ fu_job f = job_of r payload /\
    forall res, fu_outcome f = Some (OResult res) -> exists n, res = fst (worker_scan (fu_job f) n).

Definition phase_ok (ss : session) : Prop :=
  match ss_phase ss with
  | Arrived | Accepted _ _ => ss_future ss = None
  | Prepared _ _ payload | Equipped _ _ payload _ => ss_future ss = None /\ encoded (ss_request ss) payload
  | Scheduled g _ | Registered g _ => exists f, ss_future ss = Some f /\ fu_callback f = None /\ fu_generation f = g
  | Waiting _ => is_Some (ss_future ss)
  | Handling _ _ => True
  | Ended (Ok v) => scanned_by (ss_request ss) v
  | Ended (Err e) => refusal (rq_kind (ss_request ss)) e
  end.

Definition session_ok (ss : session) : Prop := phase_ok ss /\ forall f, ss_future ss = Some f -> future_ok (ss_request ss) f.

Lemma about_refusal kind m : refusal kind (about kind m).
Proof. right. by eexists. Qed.
Lemma shutdown_refusal kind : refusal kind (_scanner_shutdown kind).
Proof. apply about_refusal. Qed.
Lemma unavailable_refusal kind m : refusal kind (unavailable kind m).
Proof. right. by eexists. Qed.
Lemma cancelled_refusal kind : refusal kind CancelledError.
Proof. by left. Qed.

#[local] Hint Resolve about_refusal shutdown_refusal unavailable_refusal cancelled_refusal : core.

Lemma handled_refusal kind stopped c : refusal kind (handled kind stopped c).
Proof. destruct stopped, c; simpl; auto. Qed.
#[local] Hint Resolve handled_refusal : core.

Lemma finish_ok r i o f p : future_ok r f -> worker_end (fu_job f) o -> future_ok r (fst (finish i o f p)).
Proof.
  intros (payload & Hp & Hj & Hres) Hw. unfold finish. destruct (fu_outcome f) eqn:Eo; simpl.
  - exists payload. by rewrite Eo.
  - exists payload. split_and!; [done..|]. simpl. intros res [= ->]. inversion Hw; subst. by eexists.
Qed.

Lemma cancelled_ok r i f p : future_ok r f -> future_ok r (fst (finish i OCancelled f p)).
Proof. intros Hf. apply finish_ok; [done|constructor]. Qed.

Lemma callback_ok r i cap f p : future_ok r f -> future_ok r (fst (add_done_callback i cap f p)).
Proof. done. Qed.

(** ** The step of a session *)

Lemma finish_balanced p T i o f :
  balanced p T -> (forall c, one (bool_decide (future_holds (Some f) = Some c)) <= T c) ->
  let r := finish i o f p in
  balanced (snd r) (fun c => T c - one (bool_decide (future_holds (Some f) = Some c)) + one (bool_decide (future_holds (Some (fst r)) = Some c))).
Proof.
  intros Hb HT. unfold finish. destruct (fu_outcome f) eqn:Eo; simpl.
  { eapply balanced_ext; [exact Hb|]. intros c. rewrite Eo. lia. }
  simpl in HT. rewrite Eo in *. destruct (fu_callback f) as [cap|]; simpl.
  - eapply balanced_ext; [apply balanced_callback; [exact Hb|]|].
    + specialize (HT cap). by rewrite bool_decide_true in HT.
    + intros c. simpl. lia.
  - eapply balanced_ext; [exact Hb|]. intros c. simpl. lia.
Qed.

Lemma cancel_balanced p T i ss : balanced p T -> (forall c, held c ss <= T c) ->
  let r := cancel i ss p in
  balanced (snd r) (fun c => T c - one (bool_decide (future_holds (ss_future ss) = Some c)) + one (bool_decide (future_holds (fst r) = Some c))).
Proof.
  intros Hb HT. unfold cancel. destruct (ss_future ss) as [f|] eqn:Ef; simpl.
  - assert (HT' : forall c, one (bool_decide (future_holds (Some f) = Some c)) <= T c).
    { intros c. specialize (HT c). unfold held in HT. rewrite Ef in HT. pose proof (one_nonneg (bool_decide (holds (ss_phase ss) = Some c))). lia. }
    pose proof (finish_balanced p T i OCancelled f Hb HT') as Hfin. destruct (finish i OCancelled f p). exact Hfin.
  - eapply balanced_ext; [exact Hb|]. intros c. simpl. lia.
Qed.

Lemma give_up_balanced p T ss cap e : balanced p T -> holds (ss_phase ss) = Some cap -> (forall c, held c ss <= T c) ->
  let r := abandon ss cap e p in balanced (snd r) (fun c => T c - held c ss + held c (fst r)).
Proof.
  intros Hb Hh HT. unfold abandon. simpl. eapply balanced_ext; [apply balanced_release; [exact Hb|]|].
  - specialize (HT cap). unfold held in HT. rewrite Hh, bool_decide_true in HT by done.
    pose proof (one_nonneg (bool_decide (future_holds (ss_future ss) = Some cap))). simpl in HT. lia.
  - intros c. unfold held. simpl. rewrite Hh. lia.
Qed.

Lemma enter_balanced p T ss ph : balanced p T -> holds ph = holds (ss_phase ss) -> balanced p (fun c => T c - held c ss + held c (enter ss ph)).
Proof. intros Hb Hh. eapply balanced_ext; [exact Hb|]. intros c. unfold held. simpl. rewrite Hh. lia. Qed.

Lemma acquire_balanced p T r p' : balanced p T -> _acquire_scan_capacity p = (r, p') ->
  match r with Ok (Some (g, cap)) => balanced p' (fun c => T c + one (bool_decide (Some cap = Some c))) | _ => p' = p end.
Proof.
  intros Hb. unfold _acquire_scan_capacity. destruct (px_shutdown p); [by intros [= <- <-]|].
  destruct (Z.ltb_spec 0 (semaphore (px_capacity p) p)); intros [= <- <-]; [|done].
  pose proof Hb as (_ & Hc & _). eapply balanced_ext; [replace (semaphore (px_capacity p) p - 1) with (semaphore (px_capacity p) p + (-1)) by lia; apply balanced_set; [done|done|lia]|].
  intros c. simpl. destruct (decide (c = px_capacity p)) as [->|Hne]; [by rewrite bool_decide_true|rewrite bool_decide_false by congruence; simpl; lia].
Qed.

(** The semaphores stay balanced. *)
Lemma advance_balanced i mv ss p ss' p' T : advance i mv ss p = Some (ss', p') -> phase_ok ss -> balanced p T -> (forall c, held c ss <= T c) ->
  balanced p' (fun c => T c - held c ss + held c ss').
Proof.
  intros Hadv Hok Hb HT. pose proof (fun cap e Hh => give_up_balanced p T ss cap e Hb Hh HT) as Hgive. unfold phase_ok in Hok. unfold advance in Hadv.
  destruct (ss_phase ss) as [|g cap|g cap pl|g cap pl e|g cap|g cap|g|g c|r] eqn:Eph, mv; try discriminate Hadv; simpl in Hok;
    try (injection Hadv as <- <-; apply (Hgive cap); done).
  - destruct (_acquire_scan_capacity p) as [[[[g cap]|]|e] q] eqn:Eacq; pose proof (acquire_balanced _ _ _ _ Hb Eacq) as Hq; injection Hadv as <- <-;
      [|simpl in Hq; subst q; by apply enter_balanced; rewrite ?Eph..].
    eapply balanced_ext; [exact Hq|]. intros c. unfold held. rewrite Eph. simpl. lia.
  - destruct (payload_of _) as [payload|]; [|injection Hadv as <- <-; by apply (Hgive cap)].
    destruct (too_large _ _); injection Hadv as <- <-; [by apply (Hgive cap)|]. apply enter_balanced; [done|by rewrite Eph].
  - destruct (get_scan_executor_same (Some g) p) as (E1 & E2 & E3 & _). destruct (_get_scan_executor (Some g) p) as [[e|e] q]; simpl in *;
      assert (Hq : balanced q T) by (by eapply balanced_same); injection Hadv as <- <-.
    + apply enter_balanced; [done|by rewrite Eph].
    + apply (give_up_balanced q T ss cap); [done|by rewrite Eph|done].
  - destruct Hok as [Hf _]. destruct (is_active e p); injection Hadv as <- <-; [|by apply (Hgive cap)].
    eapply balanced_ext; [exact Hb|]. intros c. unfold held. rewrite Eph, Hf. simpl. lia.
  - destruct (_scan_stopped g p).
    + pose proof (cancel_balanced p T i ss Hb HT) as Hcan. destruct (cancel i ss p) as [f q]. simpl in Hcan.
      injection Hadv as <- <-.
      pose proof (give_up_balanced q _ (mkSession (ss_request ss) (Scheduled g cap) f) cap (_scanner_shutdown (rq_kind (ss_request ss))) Hcan eq_refl) as Hg.
      eapply balanced_ext; [apply Hg|].
      * intros c. specialize (HT c). unfold held in *. rewrite Eph in HT. simpl in *. lia.
      * intros c. unfold held. rewrite Eph. simpl. lia.
    + injection Hadv as <- <-. apply (balanced_same p); [|done..]. apply enter_balanced; [done|by rewrite Eph].
  - destruct Hok as (f & Hf & Hcb & _). rewrite Hf in Hadv. unfold add_done_callback in Hadv. injection Hadv as <- <-.
    destruct (fu_outcome f) eqn:Eo.
    + eapply balanced_ext; [apply balanced_callback; [exact Hb|]|].
      * specialize (HT cap). unfold held in HT. rewrite Eph in HT. simpl in HT. rewrite bool_decide_true in HT by done.
        pose proof (one_nonneg (bool_decide (future_holds (ss_future ss) = Some cap))). simpl in HT. lia.
      * intros c. unfold held. rewrite Eph, Hf. simpl. rewrite Eo. simpl. lia.
    + eapply balanced_ext; [exact Hb|]. intros c. unfold held. rewrite Eph, Hf. simpl. rewrite Eo, Hcb. simpl. lia.
  - destruct (ss_future ss) as [f|]; [|done]. destruct (fu_outcome f) as [o|]; [|done]. injection Hadv as <- <-.
    apply enter_balanced; [done|]. rewrite Eph. by destruct o as [[]| | | |].
  - injection Hadv as <- <-. by apply enter_balanced; rewrite ?Eph.
  - pose proof (cancel_balanced p T i ss Hb HT) as Hcan. destruct (cancel i ss p) as [f q]. simpl in Hcan.
    injection Hadv as <- <-. eapply balanced_ext; [exact Hcan|]. intros c. unfold held. rewrite Eph. simpl. lia.
  - injection Hadv as <- <-. by apply enter_balanced; rewrite ?Eph.
Qed.

Lemma give_up_ok ss cap e p : (forall f, ss_future ss = Some f -> future_ok (ss_request ss) f) -> refusal (rq_kind (ss_request ss)) e ->
  session_ok (fst (abandon ss cap e p)).
Proof. intros Hf He. by split. Qed.

Lemma cancel_ok i ss p : (forall f, ss_future ss = Some f -> future_ok (ss_request ss) f) ->
  forall f, fst (cancel i ss p) = Some f -> future_ok (ss_request ss) f.
Proof.
  intros Hok f. unfold cancel. destruct (ss_future ss) as [f0|]; simpl; [|done].
  pose proof (cancelled_ok (ss_request ss) i f0 p (Hok f0 eq_refl)) as Hc. destruct (finish i OCancelled f0 p). simpl in *. by intros [= <-].
Qed.

(** What a session does is what its phase says. *)
Lemma advance_ok i mv ss p ss' p' : advance i mv ss p = Some (ss', p') -> session_ok ss -> ss_request ss' = ss_request ss /\ session_ok ss'.
Proof.
  intros Hadv [Hok Hfut]. unfold phase_ok in Hok. unfold advance in Hadv.
  destruct (ss_phase ss) as [|g cap|g cap pl|g cap pl e|g cap|g cap|g|g c|r] eqn:Eph, mv; try discriminate Hadv; simpl in Hok;
    try (injection Hadv as <- <-; split; [done|apply (give_up_ok ss cap _ p); by auto]).
  - destruct (_acquire_scan_capacity p) as [[[[g cap]|]|e] q]; injection Hadv as <- <-; (split; [done|]); split; unfold phase_ok; simpl; auto.
  - destruct (payload_of _) as [payload|] eqn:Epl; [|injection Hadv as <- <-; split; [done|apply (give_up_ok ss cap _ p); by auto]].
    destruct (too_large _ _) eqn:Etl; injection Hadv as <- <-; (split; [done|]); [apply (give_up_ok ss cap _ p); by auto|]. by split.
  - destruct (_get_scan_executor (Some g) p) as [[e|e] q]; injection Hadv as <- <-; (split; [done|]); [by split|apply (give_up_ok ss cap _ q); by auto].
  - destruct Hok as [Hf Hpl]. destruct (is_active e p); injection Hadv as <- <-; (split; [done|]); [|apply (give_up_ok ss cap _ p); by auto].
    split; [unfold phase_ok; simpl; by eexists|]. simpl. intros f [= <-]. by exists pl.
  - destruct (_scan_stopped g p).
    + pose proof (cancel_ok i ss p Hfut) as Hc. destruct (cancel i ss p) as [f q]. injection Hadv as <- <-. split; [done|].
      apply (give_up_ok (mkSession (ss_request ss) (Scheduled g cap) f) cap _ q); auto.
    + injection Hadv as <- <-. split; [done|]. by split.
  - destruct Hok as (f & Hf & _). rewrite Hf in Hadv. injection Hadv as <- <-. split; [done|]. split; [by eexists|]. simpl.
    intros f' [= <-]. by apply (callback_ok _ i cap f p), Hfut.
  - destruct (ss_future ss) as [f|] eqn:Ef; [|done]. destruct (fu_outcome f) as [o|] eqn:Eo; [|done]. injection Hadv as <- <-.
    split; [done|]. split; [|by simpl; rewrite Ef]. unfold phase_ok. simpl. destruct o as [[v|e]| | | |]; simpl; auto.
    destruct (Hfut f eq_refl) as (payload & Hpl & Hj & Hres). destruct (Hres _ Eo) as [n Hn]. rewrite Hj in Hn.
    exists payload, n, (snd (worker_scan (job_of (ss_request ss) payload) n)). split; [done|]. rewrite Hn. by apply surjective_pairing.
  - injection Hadv as <- <-. split; [done|]. by split.
  - pose proof (cancel_ok i ss p Hfut) as Hc. destruct (cancel i ss p) as [f q]. injection Hadv as <- <-. split; [done|]. by split.
  - injection Hadv as <- <-. split; [done|]. split; unfold phase_ok; simpl; auto.
Qed.

(** ** The registered futures *)

(** Unless the scanner is shut down, the registered futures are of its
    generation. *)
Definition registered_ok (p : pool) (l : list session) : Prop :=
  px_shutdown p = false -> forall j, j ∈ px_futures p ->
    exists ss f, l !! j = Some ss /\ ss_future ss = Some f /\ fu_generation f = px_generation p.

(** What a step may do to the futures: session [i] may be registered, with a
    future of the current generation, and any may be removed. *)
Definition may_register (i : nat) (ss : session) (p p' : pool) : Prop :=
  px_generation p' = px_generation p /\ px_shutdown p' = px_shutdown p /\
  forall j, j ∈ px_futures p' -> j ∈ px_futures p \/
    (j = i /\ px_shutdown p = false /\ exists f, ss_future ss = Some f /\ fu_generation f = px_generation p).

Definition keeps_future (ss ss' : session) : Prop :=
  forall f, ss_future ss = Some f -> exists f', ss_future ss' = Some f' /\ fu_generation f' = fu_generation f.

Lemma release_same cap p : px_generation (release cap p) = px_generation p /\ px_shutdown (release cap p) = px_shutdown p /\ px_futures (release cap p) = px_futures p.
Proof. unfold release. by destruct (_ <? _). Qed.

Lemma callback_same i cap p : px_generation (callback i cap p) = px_generation p /\ px_shutdown (callback i cap p) = px_shutdown p
  /\ px_futures (callback i cap p) = List.filter (fun j => negb (j =? i)%nat) (px_futures p).
Proof. unfold callback. by destruct (release_same cap (set_futures (List.filter (fun j => negb (j =? i)%nat) (px_futures p)) p)) as (-> & -> & ->). Qed.

Lemma callback_registers i ss j cap p : may_register i ss p (callback j cap p).
Proof.
  destruct (callback_same j cap p) as (E1 & E2 & E3). split_and!; [done..|]. intros k. rewrite E3, list_elem_of_In, List.filter_In, <- list_elem_of_In. tauto.
Qed.

Lemma same_registers i ss p : may_register i ss p p.
Proof. split_and!; [done..|]. auto. Qed.

Lemma finish_registers i ss j o f p : may_register i ss p (snd (finish j o f p)).
Proof. unfold finish. repeat case_match; simpl; auto using same_registers, callback_registers. Qed.

Lemma finish_generation j o f p : fu_generation (fst (finish j o f p)) = fu_generation f.
Proof. unfold finish. by case_match. Qed.

Lemma release_registers i ss cap p p' : may_register i ss p p' -> may_register i ss p (release cap p').
Proof. intros (H5 & H6 & H7). destruct (release_same cap p') as (E1 & E2 & E3). split_and!; [congruence..|]. by rewrite E3. Qed.

Lemma cancel_registers i ss p : may_register i ss p (snd (cancel i ss p)) /\
  forall f, ss_future ss = Some f -> exists f', fst (cancel i ss p) = Some f' /\ fu_generation f' = fu_generation f.
Proof.
  unfold cancel. destruct (ss_future ss) as [f|] eqn:Ef; simpl; [|by split; [apply same_registers|]].
  pose proof (finish_registers i ss i OCancelled f p) as Hr. pose proof (finish_generation i OCancelled f p) as Hg.
  destruct (finish i OCancelled f p) as [f' q]. simpl in *. split; [done|]. intros f0 [= ->]. by eexists.
Qed.

Lemma advance_registers i mv ss p ss' p' : advance i mv ss p = Some (ss', p') -> phase_ok ss -> may_register i ss p p' /\ keeps_future ss ss'.
Proof.
  intros Hadv Hok. assert (Hsame : forall ph, keeps_future ss (enter ss ph)) by (intros ph f Hf; by exists f).
  assert (Hgive : forall cap e, may_register i ss p (snd (abandon ss cap e p)) /\ keeps_future ss (fst (abandon ss cap e p)))
    by (intros; split; [apply release_registers, same_registers|intros f Hf; by exists f]).
  unfold phase_ok in Hok. unfold advance in Hadv.
  destruct (ss_phase ss) as [|g cap|g cap pl|g cap pl e|g cap|g cap|g|g c|r] eqn:Eph, mv; try discriminate Hadv; simpl in Hok;
    try (injection Hadv as <- <-; apply Hgive).
  - unfold _acquire_scan_capacity in Hadv. destruct (px_shutdown p); [|destruct (0 <? _)]; injection Hadv as <- <-; (split; [|apply Hsame]); split_and!; simpl; auto.
  - destruct (payload_of _); [destruct (too_large _ _)|]; injection Hadv as <- <-; try apply Hgive. split; [apply same_registers|apply Hsame].
  - destruct (get_scan_executor_same (Some g) p) as (_ & _ & _ & E1 & E2 & E3). destruct (_get_scan_executor (Some g) p) as [[e|e] q]; simpl in *;
      injection Hadv as <- <-; (split; [|apply Hsame]); [|apply release_registers]; (split_and!; [done..|rewrite E3; auto]).
  - destruct Hok as [Hf _]. destruct (is_active e p); injection Hadv as <- <-; [|apply Hgive]. split; [apply same_registers|]. intros f. by rewrite Hf.
  - destruct Hok as (f & Hf & _ & Hg). destruct (_scan_stopped g p) eqn:Est.
    + destruct (cancel_registers i ss p) as [Hr Hk]. destruct (cancel i ss p) as [f' q]. injection Hadv as <- <-.
      split; [by apply release_registers|done].
    + injection Hadv as <- <-. split; [|apply Hsame]. unfold _scan_stopped in Est. apply orb_false_elim in Est as [Es Egen]. apply negb_false_iff, Z.eqb_eq in Egen.
      split_and!; [done..|]. simpl. intros j [->|Hj]%elem_of_cons; [right|by left]. split_and!; [done..|]. exists f. split; congruence.
  - destruct Hok as (f & Hf & _). rewrite Hf in Hadv. injection Hadv as <- <-. split.
    + destruct (fu_outcome f); [apply callback_registers|apply same_registers].
    + intros f'. rewrite Hf. intros [= <-]. by eexists.
  - destruct (ss_future ss) as [f|] eqn:Ef; [|done]. destruct (fu_outcome f); [|done]. injection Hadv as <- <-. split; [apply same_registers|apply Hsame].
  - injection Hadv as <- <-. split; [apply same_registers|apply Hsame].
  - destruct (cancel_registers i ss p) as [Hr Hk]. destruct (cancel i ss p) as [f' q]. injection Hadv as <- <-. by split.
  - injection Hadv as <- <-. split; [apply same_registers|apply Hsame].
Qed.

Lemma registered_update i ss ss' p p' l : registered_ok p l -> l !! i = Some ss -> may_register i ss p p' -> keeps_future ss ss' -> registered_ok p' (<[i := ss']> l).
Proof.
  intros Hreg Hi (Eg & Es & Hin) Hkeep Hs j Hj. rewrite Eg. rewrite Es in Hs.
  assert (Hlen : (i < length l)%nat) by (by eapply lookup_lt_Some).
  destruct (Hin j Hj) as [Hj0|(-> & _ & f & Hf & Hg)].
  - destruct (Hreg Hs j Hj0) as (s0 & f & Hl & Hf & Hg). destruct (decide (i = j)) as [<-|Hne].
    + rewrite Hi in Hl. injection Hl as ->. destruct (Hkeep f Hf) as (f' & Hf' & Hg'). exists ss', f'. rewrite list_lookup_insert_eq by done. split_and!; congruence.
    + exists s0, f. by rewrite list_lookup_insert_ne.
  - destruct (Hkeep f Hf) as (f' & Hf' & Hg'). exists ss', f'. rewrite list_lookup_insert_eq by done. split_and!; congruence.
Qed.

(** ** The invariant *)

Definition system_ok (s : system) : Prop :=
  Forall session_ok (sy_sessions s) /\ balanced (sy_pool s) (fun c => total c (sy_sessions s)) /\ registered_ok (sy_pool s) (sy_sessions s).

Lemma new_system_ok : system_ok new_system.
Proof.
  split_and!; simpl; [constructor| |intros _ j Hj; by apply elem_of_nil in Hj].
  split_and!; [done|by eexists|]. by intros [|cap].
Qed.

Lemma update_ok s i ss ss' p : system_ok s -> sy_sessions s !! i = Some ss -> session_ok ss' ->
  balanced p (fun c => total c (sy_sessions s) - held c ss + held c ss') -> may_register i ss (sy_pool s) p -> keeps_future ss ss' ->
  system_ok (mkSystem p (<[i := ss']> (sy_sessions s))).
Proof.
  intros (Hall & _ & Hreg) Hi Hok Hb Hm Hk. split_and!; simpl; [by apply Forall_insert| |by eapply registered_update].
  eapply balanced_ext; [exact Hb|]. intros c. by rewrite (total_insert c _ _ _ ss' Hi).
Qed.

Lemma finish_future_ok s i o : system_ok s ->
  (forall ss f, sy_sessions s !! i = Some ss -> ss_future ss = Some f -> worker_end (fu_job f) o) -> system_ok (finish_future i o s).
Proof.
  intros Hs Hw. unfold finish_future. destruct (sy_sessions s !! i) as [ss|] eqn:Hi; [|done]. destruct (ss_future ss) as [f|] eqn:Hf; [|done].
  specialize (Hw ss f eq_refl Hf). pose proof Hs as (Hall & Hb & _). pose proof (Forall_lookup_1 _ _ _ _ Hall Hi) as [Hph Hfut].
  pose proof (finish_ok (ss_request ss) i o f (sy_pool s) (Hfut f Hf) Hw) as Hfok.
  pose proof (finish_registers i ss i o f (sy_pool s)) as Hr. pose proof (finish_generation i o f (sy_pool s)) as Hg.
  pose proof (finish_balanced (sy_pool s) _ i o f Hb) as Hfb.
  assert (Hcb : fu_callback (fst (finish i o f (sy_pool s))) = fu_callback f) by (unfold finish; by case_match).
  destruct (finish i o f (sy_pool s)) as [f' p]. simpl in *. apply (update_ok s i ss); [done|done| | |done|].
  - split; [|simpl; by intros ? [= <-]]. unfold phase_ok in *. simpl. rewrite Hf in Hph.
    destruct (ss_phase ss) as [| | | | | | |?|[]]; try done; try (by destruct Hph); destruct Hph as (f0 & [= <-] & Hc0 & Hg0); exists f'; split_and!; congruence.
  - eapply balanced_ext; [apply Hfb|].
    + intros c. pose proof (held_total c _ _ _ Hi) as Hh. unfold held in Hh. rewrite Hf in Hh.
      pose proof (one_nonneg (bool_decide (holds (ss_phase ss) = Some c))). simpl in *. lia.
    + intros c. unfold held. simpl. rewrite Hf. simpl. lia.
  - intros f0. rewrite Hf. intros [= <-]. by exists f'.
Qed.

Lemma start_ok s : system_ok s -> system_ok (on_pool start_locked s).
Proof.
  intros (Hall & Hb & Hreg). unfold on_pool, start_locked. destruct (px_shutdown (sy_pool s)) eqn:Es; [|by destruct s].
  split_and!; simpl; [done| |intros _ j Hj; by apply elem_of_nil in Hj].
  destruct Hb as (Hr & _ & Hb). split_and!; simpl; [done|by rewrite lookup_app_r, Nat.sub_diag by lia|].
  intros cap. specialize (Hb cap). destruct (decide (cap < length (px_semaphores (sy_pool s)))%nat) as [Hlt|Hge].
  - by rewrite lookup_app_l.
  - rewrite lookup_ge_None_2 in Hb by lia. rewrite lookup_app_r by lia. destruct (cap - _)%nat as [|k]; simpl; [by rewrite Hb|done].
Qed.

Lemma step_ok s s' : step s s' -> system_ok s -> system_ok s'.
Proof.
  intros Hstep Hs. pose proof Hs as (Hall & Hb & Hreg).
  destruct Hstep as [r|i mv ss ss' p Hi Hadv|i ss f o Hi Hf Hw| | |expected|e].
  - split_and!; simpl; [apply Forall_app; split; [done|by repeat constructor]| |].
    + eapply balanced_ext; [exact Hb|]. intros c. rewrite total_app. simpl. unfold held. simpl. lia.
    + intros Hsh j Hj. destruct (Hreg Hsh j Hj) as (ss & f & Hl & Hrest). exists ss, f. by rewrite (lookup_app_l_Some _ _ _ _ Hl).
  - pose proof (Forall_lookup_1 _ _ _ _ Hall Hi) as Hok. destruct (advance_registers _ _ _ _ _ _ Hadv (proj1 Hok)) as [Hm Hk].
    apply (update_ok s i ss); [done|done|by apply (advance_ok _ _ _ _ _ _ Hadv)| |done|done].
    apply (advance_balanced _ _ _ _ _ _ _ Hadv (proj1 Hok) Hb). intros c. by eapply held_total.
  - apply finish_future_ok; [done|]. intros ss' f' Hi' Hf'. congruence.
  - by apply start_ok.
  - split_and!; simpl; [done|by eapply balanced_same|done].
  - unfold get_executor. destruct (get_scan_executor_same expected (sy_pool s)) as (E1 & E2 & E3 & E4 & E5 & E6).
    destruct (_get_scan_executor expected (sy_pool s)) as [r p]. simpl in *. split_and!; simpl; [done|by eapply balanced_same|].
    unfold registered_ok. rewrite E4, E5, E6. exact Hreg.
  - split_and!; simpl; [done|by eapply balanced_same|done].
Qed.

Lemma reachable_ok s : reachable s -> system_ok s.
Proof. revert s. refine (rtc_ind_r system_ok new_system new_system_ok _). intros s1 s2 _ Hstep Hs. by eapply step_ok. Qed.

(** ** Start and shutdown are made of steps *)

Lemma finish_future_steps s i o : (forall j, worker_end j o) -> rtc step s (finish_future i o s).
Proof.
  intros Ho. destruct (sy_sessions s !! i) as [ss|] eqn:Hi.
  - destruct (ss_future ss) as [f|] eqn:Hf; [by eapply rtc_once, step_finish|]. unfold finish_future. by rewrite Hi, Hf.
  - unfold finish_future. by rewrite Hi.
Qed.

Lemma cancel_all_steps l s : rtc step s (fold_left (fun s i => finish_future i OCancelled s) l s).
Proof. revert s. induction l as [|i l IH]; intros s; simpl; [done|]. etrans; [|apply IH]. apply finish_future_steps. constructor. Qed.

Lemma start_steps s : rtc step s (snd (start_scan_executor s)).
Proof.
  unfold start_scan_executor, mbind, eff_bind, modify. simpl.
  etrans; [apply rtc_once, step_start|]. etrans; [apply rtc_once, (step_get _ None)|].
  destruct (get_executor None (on_pool start_locked s)) as [[e|e] s1]; simpl; [|done]. unfold get_state. by destruct (is_active e (sy_pool s1)).
Qed.

Lemma shutdown_steps s : rtc step s (snd (shutdown_scan_executor s)).
Proof.
  unfold shutdown_scan_executor, mbind, eff_bind, modify, get_state. simpl.
  etrans; [apply rtc_once, step_shutdown|]. etrans; [apply cancel_all_steps|].
  destruct (px_executor (sy_pool s)); simpl; [apply rtc_once, step_stop|done].
Qed.

(** ** Sessions end *)

(** How many steps a session still has. *)
Definition rank (ph : phase) : nat :=
  match ph with
  | Arrived => 8 | Accepted _ _ => 7 | Prepared _ _ _ => 6 | Equipped _ _ _ _ => 5 | Scheduled _ _ => 4 | Registered _ _ => 3
  | Waiting _ => 2 | Handling _ _ => 1 | Ended _ => 0
  end.

Lemma advance_rank i mv ss p ss' p' : advance i mv ss p = Some (ss', p') -> (rank (ss_phase ss') < rank (ss_phase ss))%nat.
Proof.
  unfold advance, abandon, enter, add_done_callback, cancel. intros Hadv.
  destruct (ss_phase ss) as [|g cap|g cap pl|g cap pl e|g cap|g cap|g|g c|r], mv; simpl in Hadv; try discriminate Hadv; simpl;
    repeat (case_match; simplify_eq/=); simplify_eq/=; try lia.
  all: match goal with |- context [after_wait ?k ?g ?o] => destruct o as [[]| | | |]; simpl; lia end.
Qed.

Lemma advance_request i mv ss p ss' p' : advance i mv ss p = Some (ss', p') -> ss_request ss' = ss_request ss.
Proof.
  unfold advance, abandon, enter, add_done_callback, cancel. intros Hadv.
  destruct (ss_phase ss) as [|g cap|g cap pl|g cap pl e|g cap|g cap|g|g c|r], mv; simpl in Hadv; try discriminate Hadv; simpl;
    repeat (case_match; simplify_eq/=); by simplify_eq/=.
Qed.

(** A call left to itself: it goes on while it can, and a wait that nothing ends
    runs out of time. *)
Fixpoint drive (i fuel : nat) (ss : session) (p : pool) : session * pool :=
  match fuel with
  | O => (ss, p)
  | S fuel =>
      match advance i Proceed ss p with
      | Some (ss', p') => drive i fuel ss' p'
      | None => match advance i TimesOut ss p with Some (ss', p') => drive i fuel ss' p' | None => (ss, p) end
      end
  end.

(** A session that has not ended can go on, or waits for a future that is not
    done and runs out of time. *)
Lemma session_progress i ss p : phase_ok ss ->
  (exists r, ss_phase ss = Ended r) \/ (exists mv next, mv ∈ [Proceed; TimesOut] /\ advance i mv ss p = Some next /\ (mv = TimesOut -> advance i Proceed ss p = None)).
Proof.
  intros Hok. unfold phase_ok in Hok. unfold advance. destruct (ss_phase ss) as [| | | | | |g| |r] eqn:Eph; simpl in Hok; eauto;
    right; try (exists Proceed; eexists; split; [by left|]; by split).
  - destruct Hok as (f & -> & _). exists Proceed. destruct (add_done_callback _ _ _ _). eexists. split; [by left|]. by split.
  - destruct Hok as [f Hf]. rewrite Hf. destruct (fu_outcome f) eqn:Eo; [exists Proceed; eexists; split; [by left|]; by split|].
    exists TimesOut. destruct (cancel i ss p). eexists. split; [by right; left|]. by split.
Qed.

Lemma drive_ends i : forall fuel s ss, reachable s -> sy_sessions s !! i = Some ss -> (rank (ss_phase ss) <= fuel)%nat ->
  exists s' r, reachable s' /\ sy_sessions s' !! i = Some (drive i fuel ss (sy_pool s)).1 /\ ss_phase (drive i fuel ss (sy_pool s)).1 = Ended r
    /\ ss_request (drive i fuel ss (sy_pool s)).1 = ss_request ss.
Proof.
  induction fuel as [|fuel IH]; intros s ss Hr Hi Hle; [destruct (ss_phase ss) as [| | | | | | | |r] eqn:Eph; simpl in Hle; try lia; by exists s, r|].
  destruct (reachable_ok s Hr) as (Hall & _). pose proof (Forall_lookup_1 _ _ _ _ Hall Hi) as [Hok _]. cbn [drive].
  destruct (session_progress i ss (sy_pool s) Hok) as [[r Hend]|(mv & [ss' p'] & Hmv & Hadv & Hfirst)].
  - unfold advance. rewrite Hend. by exists s, r.
  - pose proof (advance_rank _ _ _ _ _ _ Hadv) as Hrank. pose proof (advance_request _ _ _ _ _ _ Hadv) as Hreq.
    destruct (IH (mkSystem p' (<[i := ss']> (sy_sessions s))) ss') as (s' & r & Hr' & Hi' & Hend & Hq).
    + eapply rtc_r; [exact Hr|by eapply step_advance].
    + apply list_lookup_insert_eq. by eapply lookup_lt_Some.
    + lia.
    + assert (E : match advance i Proceed ss (sy_pool s) with Some (ss1, p1) => drive i fuel ss1 p1
        | None => match advance i TimesOut ss (sy_pool s) with Some (ss1, p1) => drive i fuel ss1 p1 | None => (ss, sy_pool s) end end = drive i fuel ss' p').
      { apply elem_of_cons in Hmv as [ ->|Hmv%list_elem_of_singleton]; [by rewrite Hadv|subst mv]. by rewrite (Hfirst eq_refl), Hadv. }
      rewrite E. simpl in *. exists s', r. by rewrite Hq, Hreq.
Qed.

Lemma finish_stopped i o f p g : _scan_stopped g (finish i o f p).2 = _scan_stopped g p.
Proof. unfold finish, callback, release, set_semaphore. destruct (fu_outcome f); [done|]. destruct (fu_callback f); [|done]. simpl. by case_match. Qed.

(** A wait that nothing ends: the future is cancelled. *)
Lemma drive_waiting i fuel ss p g f : ss_phase ss = Waiting g -> ss_future ss = Some f -> fu_outcome f = None ->
  (drive i (S (S fuel)) ss p).1 = mkSession (ss_request ss) (Ended (Err (handled (rq_kind (ss_request ss)) (_scan_stopped g p) CTimeout)))
    (Some (mkFuture (fu_job f) (fu_generation f) (Some OCancelled) (fu_callback f))).
Proof.
  intros Hph Hf Ho. cbn [drive]. unfold advance at 1. rewrite Hph, Hf, Ho. unfold advance at 1. rewrite Hph. unfold cancel. rewrite Hf.
  pose proof (finish_stopped i OCancelled f p g) as Hst. unfold finish in *. rewrite Ho in *. unfold advance. cbn [ss_phase ss_request].
  simpl in Hst. rewrite Hst. destruct fuel; [done|]. reflexivity.
Qed.

(** ** What is promised *)

(** A call of the scanner may end with a verdict. *)
Definition answered (r : request) (v : Verdict) : Prop :=
  exists s i ss, reachable s /\ sy_sessions s !! i = Some ss /\ ss_request ss = r /\ ss_phase ss = Ended (Ok v).

Definition future_done (ss : session) : Prop := forall f, ss_future ss = Some f -> is_Some (fu_outcome f).
Definition session_over (ss : session) : Prop := (exists r, ss_phase ss = Ended r) /\ future_done ss.

Lemma over_holds_nothing cap l : Forall session_over l -> total cap l = 0.
Proof.
  induction 1 as [|ss l [[r Hr] Hd] _ IH]; simpl; [done|]. unfold total in *. rewrite IH. unfold held. rewrite Hr. simpl.
  destruct (ss_future ss) as [f|] eqn:Ef; simpl; [|done]. by destruct (Hd f Ef) as [o ->].
Qed.

(** C4: the scanner's semaphore is exact. However calls, workers, cancellations,
    time-outs, shutdowns and restarts interleave, every semaphore is between zero
    and four and short of four by exactly the calls and futures that hold it, so at
    most four scans run on it; no release is ever refused; once all calls have
    ended and all futures are done every place is free again; and while the scanner
    is up, only futures of the current generation are registered, so that no scan
    from before a shutdown is taken over by the restarted pool. *)
Theorem scan_capacity_exact s : reachable s ->
  let p := sy_pool s in
  px_refused p = O
  /\ (forall cap v, px_semaphores p !! cap = Some v -> 0 <= v <= SCAN_CAPACITY /\ total cap (sy_sessions s) = SCAN_CAPACITY - v)
  /\ (Forall session_over (sy_sessions s) -> Forall (fun v => v = SCAN_CAPACITY) (px_semaphores p))
  /\ (px_shutdown p = false -> forall j, j ∈ px_futures p ->
        exists ss f, sy_sessions s !! j = Some ss /\ ss_future ss = Some f /\ fu_generation f = px_generation p).
Proof.
  intros Hr. destruct (reachable_ok s Hr) as (Hall & (Href & _ & Hb) & Hreg). cbv zeta. split_and!; [done| | |exact Hreg].
  - intros cap v Hv. specialize (Hb cap). rewrite Hv in Hb. pose proof (total_nonneg cap (sy_sessions s)). lia.
  - intros Hover. apply Forall_lookup. intros cap v Hv. specialize (Hb cap). rewrite Hv, over_holds_nothing in Hb by done. lia.
Qed.

(** C21: a call of the scanner ends. Every step of a call brings it nearer to its
    end, so it takes at most eight. Left to itself from any state that can be
    reached, with no more help from its worker, it has ended after eight steps: with
    the verdict its scanner computed from the encoded value, with the error of a
    cancellation, or with the 503 error of its kind. In particular a call that waits
    for a future that never ends runs out of time, cancels the future and raises
    the time-out error, or that of a shutdown when there was one. *)
Theorem scan_call_ends s i ss : reachable s -> sy_sessions s !! i = Some ss ->
  (rank (ss_phase ss) <= 8)%nat
  /\ (forall mv ss' p, advance i mv ss (sy_pool s) = Some (ss', p) -> (rank (ss_phase ss') < rank (ss_phase ss))%nat)
  /\ (exists r, ss_phase (drive i 8 ss (sy_pool s)).1 = Ended r
       /\ match r with Ok v => scanned_by (ss_request ss) v | Err e => refusal (rq_kind (ss_request ss)) e end)
  /\ (forall g f, ss_phase ss = Waiting g -> ss_future ss = Some f -> fu_outcome f = None ->
       (drive i 8 ss (sy_pool s)).1 = mkSession (ss_request ss)
         (Ended (Err (if _scan_stopped g (sy_pool s) then _scanner_shutdown (rq_kind (ss_request ss)) else about (rq_kind (ss_request ss)) " safety scan timed out")))
         (Some (mkFuture (fu_job f) (fu_generation f) (Some OCancelled) (fu_callback f)))).
Proof.
  intros Hr Hi. assert (Hrank : (rank (ss_phase ss) <= 8)%nat) by (destruct (ss_phase ss); simpl; lia).
  split_and!; [done|intros; by eapply advance_rank| |intros g f; apply drive_waiting].
  destruct (drive_ends i 8 s ss Hr Hi Hrank) as (s' & r & Hr' & Hi' & Hend & Hreq). exists r. split; [done|].
  destruct (reachable_ok s' Hr') as (Hall & _). pose proof (Forall_lookup_1 _ _ _ _ Hall Hi') as [Hok _]. unfold phase_ok in Hok. rewrite Hend, Hreq in Hok. by destruct r.
Qed.

Lemma scan_call_scanned r v : answered r v -> scanned_by r v.
Proof.
  intros (s & i & ss & Hr & Hi & <- & Hend). destruct (reachable_ok s Hr) as (Hall & _). pose proof (Forall_lookup_1 _ _ _ _ Hall Hi) as [Hok _].
  unfold phase_ok in Hok. by rewrite Hend in Hok.
Qed.

(** A shutdown leaves no registered future without an end. *)
Lemma finish_future_done i o s : let s' := finish_future i o s in
  length (sy_sessions s') = length (sy_sessions s) /\
  (forall j ss, sy_sessions s !! j = Some ss -> future_done ss -> exists ss', sy_sessions s' !! j = Some ss' /\ future_done ss') /\
  (forall ss', sy_sessions s' !! i = Some ss' -> future_done ss').
Proof.
  unfold finish_future. destruct (sy_sessions s !! i) as [ss|] eqn:Hi; simpl; [|by split_and!; [|eauto|]; try congruence].
  destruct (ss_future ss) as [f|] eqn:Hf; [|split_and!; [done|eauto|intros ss' Hs'; rewrite Hi in Hs'; injection Hs' as <-; intros f'; by rewrite Hf]].
  assert (Hdone : is_Some (fu_outcome (fst (finish i o f (sy_pool s))))) by (unfold finish; destruct (fu_outcome f) eqn:Eo; simpl; [rewrite Eo|]; by eexists).
  destruct (finish i o f (sy_pool s)) as [f' p]. simpl in *. assert (Hlt : (i < length (sy_sessions s))%nat) by (by eapply lookup_lt_Some).
  split_and!; [by rewrite length_insert| |].
  - intros j ss0 Hj Hd. destruct (decide (i = j)) as [<-|Hne]; [|rewrite list_lookup_insert_ne by done; eauto].
    rewrite list_lookup_insert_eq by done. eexists. split; [done|]. by intros f0 [= <-].
  - intros ss'. rewrite list_lookup_insert_eq by done. intros [= <-]. by intros f0 [= <-].
Qed.

Lemma cancel_all_done l s : let s' := fold_left (fun s i => finish_future i OCancelled s) l s in
  (forall j ss, sy_sessions s !! j = Some ss -> future_done ss -> exists ss', sy_sessions s' !! j = Some ss' /\ future_done ss') /\
  forall j ss', j ∈ l -> sy_sessions s' !! j = Some ss' -> future_done ss'.
Proof.
  revert s. induction l as [|i l IH]; intros s; simpl; [split; [eauto|by intros ? ? ?%elem_of_nil]|].
  destruct (finish_future_done i OCancelled s) as (Hlen & Hkeep & Hi). destruct (IH (finish_future i OCancelled s)) as [Hk Hd]. split.
  - intros j ss Hj Hdone. destruct (Hkeep j ss Hj Hdone) as (ss1 & Hj1 & Hd1). by eapply Hk.
  - intros j ss' [->|Hj]%elem_of_cons Hl; [|by eapply Hd]. destruct (sy_sessions (finish_future i OCancelled s) !! i) as [ss1|] eqn:E1.
    + destruct (Hk i ss1 E1 (Hi ss1 eq_refl)) as (ss2 & Hl2 & Hd2). rewrite Hl2 in Hl. by injection Hl as <-.
    + exfalso. assert (Hpres : forall l s j, sy_sessions s !! j = None -> sy_sessions (fold_left (fun s i => finish_future i OCancelled s) l s) !! j = None).
      { clear. induction l as [|i l IH]; intros s j Hj; simpl; [done|]. apply IH. apply lookup_ge_None. apply lookup_ge_None in Hj.
        destruct (finish_future_done i OCancelled s) as (-> & _). done. }
      rewrite (Hpres l _ _ E1) in Hl. done.
Qed.

Lemma finish_future_pool i o s : px_shutdown (sy_pool (finish_future i o s)) = px_shutdown (sy_pool s).
Proof.
  unfold finish_future. repeat case_match; simpl; try done. pose proof (finish_registers i s0 i o f (sy_pool s)) as (_ & E & _).
  match goal with Hf : finish _ _ _ _ = _ |- _ => rewrite Hf in E end. exact E.
Qed.

(** After a shutdown no registered future is left without an end, and a new call
    is refused. *)
Lemma shutdown_drains s s' r : shutdown_scan_executor s = (r, s') ->
  r = Ok () /\ px_shutdown (sy_pool s') = true
  /\ (forall j ss', j ∈ px_futures (sy_pool s) -> sy_sessions s' !! j = Some ss' -> future_done ss')
  /\ forall i rq, advance i Proceed (mkSession rq Arrived None) (sy_pool s') = Some (mkSession rq (Ended (Err (_scanner_shutdown (rq_kind rq)))) None, sy_pool s').
Proof.
  unfold shutdown_scan_executor, mbind, eff_bind, modify, get_state. simpl. intros Hrun.
  set (s1 := fold_left (fun s i => finish_future i OCancelled s) (px_futures (sy_pool s)) (on_pool shutdown_locked s)) in *.
  assert (Hs1 : px_shutdown (sy_pool s1) = true).
  { subst s1. assert (Hg : forall l s, px_shutdown (sy_pool (fold_left (fun s i => finish_future i OCancelled s) l s)) = px_shutdown (sy_pool s)).
    { clear. induction l as [|i l IH]; intros s; simpl; [done|]. by rewrite IH, finish_future_pool. }
    by rewrite Hg. }
  destruct (cancel_all_done (px_futures (sy_pool s)) (on_pool shutdown_locked s)) as [_ Hdone]. fold s1 in Hdone.
  assert (E : r = Ok () /\ sy_sessions s' = sy_sessions s1 /\ px_shutdown (sy_pool s') = true).
  { destruct (px_executor (sy_pool s)); injection Hrun as <- <-; by split_and!. }
  destruct E as (-> & El & Es). split_and!; [done|done|intros j ss'; rewrite El; apply Hdone|].
  intros i rq. unfold advance. simpl. unfold _acquire_scan_capacity. by rewrite Es.
Qed.
End invariant.

(** ** Calls answer exactly what their scanner finds *)

Section answers.
Context `{UnicodeDb} `{Clock} `{Confusables} `{Detectors} `{CaseDb} `{DetectorLayouts}.

Ltac go_on := eapply rtc_l; [eapply (step_advance _ 0%nat Proceed); [reflexivity|reflexivity]|].

(** A call that meets an idle pool and a worker that comes to an end. *)
Lemma idle_pool_answers r payload n v n' : encoded r payload -> worker_scan (job_of r payload) n = (Ok v, n') -> answered r v.
Proof.
  intros [Hp Hl] Hw. set (f := mkFuture (job_of r payload) 0 None None).
  set (busy := mkPool None [] 0 [3] 0 false [] 0). set (ready := mkPool (Some 0%nat) [true] 0 [3] 0 false [] 0).
  set (used := mkPool (Some 0%nat) [true] 0 [3] 0 false [0%nat] 0).
  eexists (mkSystem (mkPool (Some 0%nat) [true] 0 [4] 0 false [] 0)
             [mkSession r (Ended (Ok v)) (Some (mkFuture (job_of r payload) 0 (Some (OResult (Ok v))) (Some 0%nat)))]), 0%nat, _.
  split; [|done]. unfold reachable. eapply rtc_l; [apply (step_arrive _ r)|]. go_on.
  eapply rtc_l; [eapply (step_advance _ 0%nat Proceed _ (mkSession r (Prepared 0 0 payload) None) busy); [reflexivity|]|].
  { unfold advance. cbn [ss_phase enter ss_request]. by rewrite Hp, Hl. }
  go_on. eapply rtc_l; [eapply (step_advance _ 0%nat Proceed _ (mkSession r (Scheduled 0 0) (Some f)) ready); reflexivity|].
  eapply rtc_l; [eapply (step_advance _ 0%nat Proceed _ (mkSession r (Registered 0 0) (Some f)) used); reflexivity|]. go_on.
  eapply rtc_l; [eapply (step_finish _ 0%nat _ _ (OResult (Ok v))); [reflexivity|reflexivity|]|].
  { change (OResult (Ok v)) with (OResult (fst (Ok v, n'))). rewrite <- Hw. apply worker_ran. }
  go_on. apply rtc_refl.
Qed.

Lemma answered_exact r v : answered r v <-> scanned_by r v.
Proof.
  split; [apply scan_call_scanned|]. intros (payload & n & n' & He & Hw). by eapply idle_pool_answers.
Qed.
End answers.

(** ** Examples *)

Module Example_workers.
#[local] Instance frozen : Clock := {| monotonic := fun _ => 0 |}.
#[local] Instance ascii_db : UnicodeDb :=
  {| db_printable := fun _ => true; db_space := fun _ => false; db_alnum := fun _ => false; db_alpha := fun _ => false;
     db_digit := fun _ => false; db_decimal := fun _ => false; db_decimal_value := fun _ => 0; db_category := fun _ => "Ll"%string;
     db_name := fun _ => ""%string; db_casefold := fun c => [c]; normalize_nfkc := fun t => t; normalize_nfd := fun t => t |}.
#[local] Instance no_table : Confusables := {| ASCII_CONFUSABLES := [] |}.
#[local] Instance no_detectors : Detectors := {| _DETECTORS := [] |}.
#[local] Instance exact_case : CaseDb := {| db_same_case := Z.eqb |}.
#[local] Instance no_layouts : DetectorLayouts := {| detector_layouts := [] |}.

Definition greeting : request := fst (fst (scan_request [("content", JStr "hello")]%string "retain" None)).

(** A call that was admitted while a shutdown came between. *)
Definition admitted_before_shutdown : system := mkSystem (mkPool None [] 0 [3] 1 true [] 0) [mkSession greeting (Accepted 0 0) None].

Lemma admitted_reachable : reachable admitted_before_shutdown.
Proof.
  eapply rtc_l; [apply (step_arrive _ greeting)|]. eapply rtc_l; [eapply (step_advance _ 0%nat Proceed); reflexivity|].
  eapply rtc_l; [apply step_shutdown|]. apply rtc_refl.
Qed.

Lemma scan_capacity_exact_witness : reachable admitted_before_shutdown /\ total 0 (sy_sessions admitted_before_shutdown) = 4 - 3.
Proof.
  split; [exact admitted_reachable|]. destruct (scan_capacity_exact admitted_before_shutdown admitted_reachable) as (_ & Hsem & _).
  exact (proj2 (Hsem 0%nat 3 eq_refl)).
Defined.

(** A call that waits for a worker. *)
Definition greeting_job : job := job_of greeting (json_dumps (rq_value greeting)).
Definition waiting : session := mkSession greeting (Waiting 0) (Some (mkFuture greeting_job 0 None (Some 0%nat))).
Definition nobody_answers : system := mkSystem (mkPool (Some 0%nat) [true] 0 [3] 0 false [0%nat] 0) [waiting].

Lemma waiting_reachable : reachable nobody_answers.
Proof.
  eapply rtc_l; [apply (step_arrive _ greeting)|]. do 6 (eapply rtc_l; [eapply (step_advance _ 0%nat Proceed); vm_compute; reflexivity|]). apply rtc_refl.
Qed.

Lemma scan_call_ends_witness : reachable nobody_answers
  /\ ss_phase (drive 0 8 waiting (sy_pool nobody_answers)).1 = Ended (Err (about KRequest " safety scan timed out")).
Proof.
  split; [exact waiting_reachable|].
  destruct (scan_call_ends nobody_answers 0%nat waiting waiting_reachable eq_refl) as (_ & _ & _ & Hwait).
  exact (f_equal ss_phase (Hwait 0 _ eq_refl eq_refl eq_refl)).
Defined.

(** After the shutdown the call is turned away and its place is given back. *)
Example turned_away : exists s ss, rtc step admitted_before_shutdown s /\ sy_sessions s = [ss]
  /\ ss_phase ss = Ended (Err (_scanner_shutdown KRequest)) /\ px_semaphores (sy_pool s) = [4].
Proof.
  exists (mkSystem (mkPool None [] 0 [4] 1 true [] 0) [mkSession greeting (Ended (Err (_scanner_shutdown KRequest))) None]). eexists.
  split; [|by split_and!]. do 2 (eapply rtc_l; [eapply (step_advance _ 0%nat Proceed); vm_compute; reflexivity|]). apply rtc_refl.
Qed.

(** The call for a greeting may be answered, with no findings. *)
Example greeting_answered : answered greeting no_findings.
Proof. eapply (idle_pool_answers _ _ 0%nat); [split; vm_compute; reflexivity|vm_compute; reflexivity]. Qed.
End Example_workers.
