(* ===== verification/ScreenedFlows.v ===== *)
(** * The policy over the real scanner

    Puts [Policy.v], [ScanExecutor.v] and the scanner together. [ScanWorkers] is
    what the scan workers promise to the services of the policy: a verdict that
    comes back is one that a call of the pool may end with. Under this contract a
    retain that is sent, what it answers, and every result of a recall are shown
    to be clean text by text. *)

From Stdlib Require Import ZArith Lia Ascii.
From stdpp Require Import base sets strings numbers list relations.
From S2P Require Import Prelude Errors Text Json JsonParse Repository Envelope EnvelopeProps Validation QuarantineStore Hindsight Policy PolicyFlow OpenClaw Chars ScanModels RuleEdges Provenance UnicodeFold ScanRules Approval FieldWalk Scanner ScannerProps ScanEntry ScanEntryProps Screen QueryScan ScanExecutor ScanExecutorProps.

Local Open Scope Z_scope.

(** ** Payloads are read back *)

Ltac split_ands := repeat match goal with
  | H : _ && _ = true |- _ => apply andb_true_iff in H as [? ?]
  | |- _ && _ = true => apply andb_true_iff; split
  end; try done.

Lemma utf8_chars_surrogatepass l : utf8_chars l = true -> utf8_surrogatepass l = true.
Proof.
  remember (length l) as m eqn:Em. revert l Em. induction m as [m IH] using lt_wf_ind. intros l -> Hl.
  destruct l as [|a l1]; [done|]. cbn [utf8_chars utf8_surrogatepass] in *.
  destruct (code_of a <? 128); [apply (IH (length l1)); simpl; auto with lia|]. destruct l1 as [|b l2]; [done|].
  destruct (in_range 194 223 a). { apply andb_true_iff in Hl as [-> Hl]. apply (IH (length l2)); simpl; auto with lia. }
  destruct l2 as [|c l3]; [done|]. destruct (in_range 224 239 a).
  { split_ands. apply (IH (length l3)); simpl; auto with lia. }
  destruct l3 as [|d l4]; [done|]. split_ands.
  apply (IH (length l4)); simpl; auto with lia.
Qed.

(** The text of an object starts as UTF-8 does. *)
Lemma object_encoding d : detect_encoding (chars (json_dumps (JDict d))) = (Utf8, 0%nat).
Proof.
  assert (E : exists c l, chars (json_dumps (JDict d)) = "{"%char :: c :: l /\ (c = chr 34 \/ (c = "}"%char /\ l = []))).
  { destruct d as [|[k v] d]; [by exists "}"%char, []; auto|]. cbn [json_dumps]. destruct d; eexists (chr 34), _; (split; [|by left]); simpl; reflexivity. }
  destruct E as (c & l & -> & [-> | [-> ->]]); [|done]. unfold detect_encoding. simpl. destruct l as [|x [|y l]]; done.
Qed.

Lemma payload_read d payload : payload_of (JDict d) = Some payload -> readable (JDict d) = true -> json_loads_bytes false false payload = Some (JDict d).
Proof.
  unfold payload_of. destruct (dumpable _ && utf8_valid _) eqn:E; [|done]. intros Hp Hr.
  assert (payload = json_dumps (JDict d)) as -> by congruence. clear Hp. apply andb_true_iff in E as [_ Hu].
  pose proof (object_encoding d) as He. pose proof (proj1 json_loads_dumps (JDict d) Hr) as Hread. unfold json_loads in Hread.
  revert Hu He Hread. generalize (json_dumps (JDict d)). intros p Hu He Hread. unfold json_loads_bytes, decode_bytes. rewrite He. cbn [drop].
  rewrite utf8_chars_surrogatepass by exact Hu. change (json_loads_with false false (of_chars (chars p)) = Some (JDict d)).
  by rewrite of_chars_chars.
Qed.

(** ** What the workers promise *)

(** A text as the policy holds it, and the verdict of a scan. *)
Definition text_string (t : text) : string := of_chars (map chr (encode t)).

Definition safety_of (v : Verdict) : SafetyResult :=
  mkSafetyResult (map (fun f => mkSafetyFinding (text_string (fd_matched f)) (fd_reason f) (fd_detector f) (fd_severity f)) (vd_findings v)) (vd_transformations v).

Lemma safety_of_safe v : safe (safety_of v) = is_safe v.
Proof. unfold safe, is_safe, safety_of. simpl. by destruct (vd_findings v). Qed.

Section flows.
Context `{UnicodeDb} `{Clock} `{Confusables} `{Detectors} `{CaseDb} `{DetectorLayouts}.

Class ScanWorkers {W} (sv : Services W) : Prop := {
  workers_request body operation query w r w' : sv_scan_request sv body operation query w = (Ok r, w') ->
    exists v, answered (scan_request body operation query).1.1 v /\ r = safety_of v;
  workers_response value separate numbers native w r w' : sv_scan_facade_response sv value separate numbers native w = (Ok r, w') ->
    exists v, answered (scan_facade_response value separate numbers native).1.1 v /\ r = safety_of v;
  workers_recalled value stable positions w r w' : sv_scan_recalled sv value stable positions w = (Ok r, w') ->
    exists v, answered (scan_recalled value stable positions).1.1 v /\ r = safety_of v
}.

(** ** Answers of the workers *)

Lemma readable_dict d : readable (JDict d) = bool_decide (NoDup (map fst d)) && forallb (fun kv => readable kv.2) d.
Proof. done. Qed.

Lemma retain_answer_clean body v : answered (scan_request body "retain" None).1.1 v -> is_safe v = true -> readable (JDict body) = true ->
  let fields := fields_of (mkMode false true) (tree_of (JDict body)) (u "retain") false in
  Z.of_nat (length fields) <= MAX_RETAIN_SCAN_FIELDS /\ exists deadline, all_clean deadline "write" fields.
Proof.
  intros (payload & n & n' & [Hp _] & Hw)%scan_call_scanned Hs Hr. apply payload_read in Hp.
  2:{ rewrite readable_dict. cbn [forallb snd]. by rewrite Hr. }
  unfold worker_scan in Hw. cbn [job_of jb_kind jb_payload scan_request fst rq_kind] in Hw. unfold _scan_request_payload, loads_payload in Hw. rewrite Hp in Hw.
  apply bind_ok_inv in Hw as (request & n1 & Hreq & Hw). injection Hreq as <- <-. apply bind_ok_inv in Hw as (op & n2 & Hop & Hw). injection Hop as <- <-.
  apply bind_ok_inv in Hw as (b & n3 & Hb & Hw). injection Hb as <- <-. apply bind_ok_inv in Hw as (result & n4 & Hscan & Hw).
  apply bind_ok_inv in Hw as (q & n5 & Hq & Hw). injection Hq as <- <-. injection Hw as <- _. rewrite bool_decide_false in Hscan by done.
  by eapply retain_body_clean.
Qed.

Lemma response_answer_clean value numbers native v : answered (scan_facade_response (JDict value) false numbers native).1.1 v -> is_safe v = true ->
  readable (JDict value) = true ->
  exists deadline, all_clean deadline "read" (fields_of (mkMode numbers (negb numbers)) (tree_of (JDict value)) (u "facade_response") false).
Proof.
  intros (payload & n & n' & [Hp _] & Hw)%scan_call_scanned Hs Hr. apply payload_read in Hp; [|exact Hr].
  unfold worker_scan in Hw. cbn [job_of jb_kind jb_payload jb_separate_page_ids jb_include_numbers scan_facade_response fst rq_kind rq_separate_page_ids rq_include_numbers] in Hw.
  assert (Hf : scan_facade_payload payload false numbers n = (Ok v, n')) by (by destruct native).
  unfold scan_facade_payload in Hf. rewrite Hp in Hf. by eapply facade_result_clean.
Qed.

(** The fields of a recalled result that an approval covers. *)
Definition reviewable_field (f : field) : Prop := fi_is_key f = false /\ fi_key f ∈ [u "recalled_memory.id"; u "recalled_memory.text"].

Lemma approved_reviewable operation deadline reviewed_fields f : is_reviewed_text (fi_raw f) = false ->
  approved (mkOptions operation false deadline None 0 reviewed_fields) f = true -> fi_is_key f = false /\ fi_key f ∈ reviewed_fields.
Proof.
  unfold approved, with_provenance, is_reviewed_text. destruct (rt_trust (fi_raw f)); [done|]. intros _ Ha. apply andb_true_iff in Ha as [Hk Ha].
  apply negb_true_iff in Hk. rewrite Hk in Ha. split; [done|]. cbn [do_reviewed_fields] in Ha.
  unfold plain in Ha. rewrite orb_false_r in Ha. destruct (bool_decide _); [|done]. clear -Ha. simpl in Ha.
  unfold reviewed, occurrence_origin in Ha. simpl in Ha.
  destruct (decide (fi_key f ∈ reviewed_fields)) as [|Hn]; [done|exfalso]. revert Ha. generalize 1 at 1. induction reviewed_fields as [|x l IH]; intros k Ha; [done|].
  simpl in Ha. apply not_elem_of_cons in Hn as [Hx Hl]. rewrite bool_decide_false in Ha by congruence. by eapply IH.
Qed.

Lemma recalled_answer_clean value stable v : answered (scan_recalled (JDict value) stable None).1.1 v -> is_safe v = true -> readable (JDict value) = true ->
  let fields := fields_of (mkMode false false) (tree_of (JDict value)) (u "recalled_memory") false in
  exists deadline, forall i f, fields !! i = Some f -> (stable = true /\ reviewable_field f) \/ clean_field (Some deadline) "read" (take i fields) f.
Proof.
  intros (payload & n & n' & [Hp _] & Hw)%scan_call_scanned Hs Hr. apply payload_read in Hp.
  2:{ rewrite readable_dict. cbn [forallb snd]. by rewrite Hr. }
  unfold worker_scan in Hw. cbn [job_of jb_kind jb_payload scan_recalled fst rq_kind] in Hw. unfold _scan_recalled_payload, loads_payload in Hw. rewrite Hp in Hw.
  apply bind_ok_inv in Hw as (request & n1 & Hreq & Hw). injection Hreq as <- <-. apply bind_ok_inv in Hw as (result & n2 & Hres & Hw). injection Hres as <- <-.
  apply bind_ok_inv in Hw as (b & n3 & Hb & Hw). injection Hb as <- <-. unfold scan_recall_result in Hw. rewrite walk_strings_spec in Hw.
  destruct (core_scan_clean _ _ _ _ _ _ Hw Hs) as [deadline Hall]. exists deadline. intros i f Hf. destruct (Hall i f Hf) as [Ha|Hc]; [left|by right].
  apply approved_reviewable in Ha as [Hk Hin]; [|eapply fields_of_plain, list_elem_of_lookup_2, Hf]. destruct stable; [|by apply elem_of_nil in Hin]. by split_and!.
Qed.

(** ** Flows *)

Context `{Rfc8785} `{PyRepr} {W : Type} (sv : Services W) `{!ScanWorkers sv}.

(** The fields the router adds to the item at an index: the key of the metadata, and
    the names and values of its own entries. *)
Definition router_field (identity source bank : string) (f : field) : Prop :=
  exists i : nat, let metadata := child_path (child_path (u "retain.items") (u (str_of_Z (Z.of_nat i)))) (u "metadata") in
    f = mkField metadata (plain (u "metadata")) false true
    \/ exists name value, (name, JStr value) ∈ router_metadata identity source "allowed" bank
       /\ (f = mkField (child_path metadata (points name)) (plain (points name)) false true
           \/ f = mkField (child_path metadata (points name)) (plain (points value)) false false).

(** The fields after an entry is set. *)
Lemma set_fields mode k v d path f : f ∈ fields_of mode (tree_of (JDict (dict_set k v d))) path false ->
  f ∈ fields_of mode (tree_of (JDict d)) path false \/ f = mkField (child_path path (points k)) (plain (points k)) false true
  \/ f ∈ fields_of mode (tree_of v) (child_path path (points k)) false.
Proof.
  cbn [tree_of]. rewrite !dict_fields_iff. intros (key & t & Hin & Hf). apply list_elem_of_In, List.in_map_iff in Hin as ([k' v'] & [= <- <-] & Hin%list_elem_of_In).
  apply dict_set_elem in Hin as [[= -> ->]|Hin]; [by right|left]. exists (points k'), (tree_of v'). split; [|done]. apply list_elem_of_In, List.in_map_iff.
  exists (k', v'). split; [done|by apply list_elem_of_In].
Qed.

Lemma update_fields mode entries path f : forall d, f ∈ fields_of mode (tree_of (JDict (dict_update d entries))) path false ->
  f ∈ fields_of mode (tree_of (JDict d)) path false \/ exists k v, (k, v) ∈ entries
    /\ (f = mkField (child_path path (points k)) (plain (points k)) false true \/ f ∈ fields_of mode (tree_of v) (child_path path (points k)) false).
Proof.
  induction entries as [|[k v] entries IH]; intros d Hf; [by left|].
  change (dict_update d ((k, v) :: entries)) with (dict_update (dict_set k v d) entries) in Hf. apply IH in Hf as [Hf|(k' & v' & Hin & Hf)].
  - apply set_fields in Hf as [?|Hf]; [by left|right]. exists k, v. split; [by left|done].
  - right. exists k', v'. split; [by right|done].
Qed.

(** The fields of an entry of an object. *)
Lemma get_fields mode k v d path f : dict_get k d = Some v -> f = mkField (child_path path (points k)) (plain (points k)) false true
  \/ f ∈ fields_of mode (tree_of v) (child_path path (points k)) false -> f ∈ fields_of mode (tree_of (JDict d)) path false.
Proof.
  intros Hk%dict_get_elem Hf. cbn [tree_of]. rewrite dict_fields_iff. exists (points k), (tree_of v). split; [|done].
  apply list_elem_of_In, List.in_map_iff. exists (k, v). split; [done|by apply list_elem_of_In].
Qed.

Lemma item_fields mode identity source bank i v f : let path := child_path (u "retain.items") (u (str_of_Z (Z.of_nat i))) in
  f ∈ fields_of mode (tree_of (prepare_item identity source bank "allowed" v)) path false -> f ∈ fields_of mode (tree_of v) path false \/ router_field identity source bank f.
Proof.
  destruct v as [|b|x|x|s|l|d]; try (by left). cbv zeta. cbn [prepare_item]. intros [?|[->|Hf]]%set_fields; [by left|right; exists i; by left|].
  apply update_fields in Hf as [Hf|(k & v & Hin & Hf)].
  - left. destruct (dict_get "metadata" d) as [m|] eqn:Em; [destruct m as [| | | | | |m]|]; try (cbn in Hf; by apply elem_of_nil in Hf).
    eapply get_fields; [exact Em|by right].
  - right. exists i. right. assert (exists t, v = JStr t) as [t ->] by (revert Hin; unfold router_metadata; rewrite !elem_of_cons, elem_of_nil; naive_solver).
    exists k, t. split; [done|]. destruct Hf as [->|Hf]; [by left|right]. cbn in Hf. by apply list_elem_of_singleton in Hf.
Qed.

(** Every field of the body that is sent is one of the request or of the router. *)
Lemma prepared_fields mode identity source bank body f :
  f ∈ fields_of mode (tree_of (JDict (prepare_retain_body body identity source bank "allowed"))) (u "retain") false ->
  f ∈ fields_of mode (tree_of (JDict body)) (u "retain") false \/ router_field identity source bank f.
Proof.
  unfold prepare_retain_body. destruct (dict_get "items" body) as [items|] eqn:Ei; [destruct items as [|b|x|x|s|items|d]|]; try (by left).
  intros [?|[Hf|Hf]]%set_fields; [by left|left; eapply get_fields; [exact Ei|by left]|]. cbn [tree_of] in Hf.
  apply list_fields_iff in Hf as (i & t & Hl & Hf). rewrite list_lookup_fmap in Hl. apply fmap_Some in Hl as (v & Hl & ->).
  apply list_lookup_fmap_Some in Hl as (v0 & -> & Hl). change (child_path (u "retain") (points "items")) with (u "retain.items") in Hf.
  apply item_fields in Hf as [Hf|?]; [left|by right]. eapply get_fields; [exact Ei|right]. cbn [tree_of].
  apply list_fields_iff. exists i, (tree_of v0). split; [by rewrite list_lookup_fmap, Hl|done].
Qed.

(** C2: what is stored was scanned, from the policy down to the characters. When a
    retain asks the memory service anything, it asks once, to store the prepared
    body in the bank. The scan workers answered for the request's body, which has
    at most 8192 fields, all clean: within their limits and silent under rules,
    detectors and Unicode checks. Every text, key and number of the body that is
    sent is one of these fields, at its place, or belongs to the four entries the
    router writes into the metadata of an item; and what the caller gets from the
    memory service is clean in the same way. *)
Theorem stored_bodies_clean identity bank body source mode w log : readable (JDict body) = true ->
  let run := _retain_to_bank (logged sv) identity bank body source mode (w, log) in
  let fields := fields_of (mkMode false true) (tree_of (JDict body)) (u "retain") false in
  let sent := prepare_retain_body body identity source bank "allowed" in
  run.2.2 <> log ->
  run.2.2 = log ++ [AskRetain bank sent]
  /\ (Z.of_nat (length fields) <= MAX_RETAIN_SCAN_FIELDS /\ exists deadline, all_clean deadline "write" fields)
  /\ (forall walk f, f ∈ fields_of walk (tree_of (JDict sent)) (u "retain") false ->
        f ∈ fields_of walk (tree_of (JDict body)) (u "retain") false \/ router_field identity source bank f)
  /\ forall v, run.1 = Ok v -> readable (JDict v) = true ->
     exists deadline, all_clean deadline "read" (fields_of (mkMode true false) (tree_of (JDict v)) (u "facade_response") false).
Proof.
  intros Hread. cbv zeta. pose proof (retain_asks_once_spec sv identity bank body source mode w log) as Hspec. cbv zeta in Hspec. unfold admitted in Hspec.
  destruct (sv_consume_retain sv identity w) as [[u|e] w1]; [|by destruct Hspec].
  destruct (sv_scan_request sv body "retain" None w1) as [[r|e] w2] eqn:Escan; [|by destruct Hspec].
  destruct (safe r) eqn:Esafe; [|by destruct Hspec]. destruct Hspec as [Hsent Hans]. intros _. split; [exact Hsent|].
  destruct (workers_request _ _ _ _ _ _ Escan) as (v & Hv & ->). rewrite safety_of_safe in Esafe. split; [by eapply retain_answer_clean|].
  split; [intros walk f; apply prepared_fields|].
  intros value Hvalue Hr. destruct (Hans value Hvalue) as (w3 & r & w4 & _ & Hscan & Hs).
  destruct (workers_response _ _ _ _ _ _ _ Hscan) as (v' & Hv' & ->). rewrite safety_of_safe in Hs. by eapply response_answer_clean.
Qed.

(** C3: what is recalled was scanned, from the policy down to the characters. Every
    result of a recall comes from a bank the writer may read, and every text and
    key in it is clean, except for its identity and its text when the store holds
    a reviewer's approval of exactly this content. *)
Theorem recalled_results_clean writer_id read_banks body source w a w' :
  (forall b s resp s' r, sv_recall sv b body s = (Ok resp, s') -> r ∈ rc_results resp -> readable (JDict (rr_value r)) = true) ->
  _recall_from_read_banks sv writer_id read_banks body source w = (Ok a, w') ->
  forall r, r ∈ an_results a -> exists b id d deadline, b ∈ read_banks /\ result_id r = Ok id /\ recalled_content_digest (rr_value r) = Ok d /\
    let fields := fields_of (mkMode false false) (tree_of (JDict (rr_value r))) (u "recalled_memory") false in
    forall i f, fields !! i = Some f ->
      clean_field (Some deadline) "read" (take i fields) f \/
      (reviewable_field f /\ exists ids s l s' st, sv_find_memory_review_states sv ids s = (Ok l, s') /\ ((b, id), st) ∈ l
         /\ mr_status st = REVIEWED_ALLOWED /\ mr_source_content_sha256 st = Some d).
Proof.
  intros Hreadable Hrun r Hr.
  set (P := fun v st pos => exists verdict, answered (scan_recalled v st pos).1.1 verdict /\ is_safe verdict = true).
  set (V := fun k state => exists ids s l s', sv_find_memory_review_states sv ids s = (Ok l, s') /\ (k, state) ∈ l).
  set (R := fun (b : string) r => readable (JDict (rr_value r)) = true).
  destruct (recall_screened_spec sv P V R writer_id read_banks body source w a w') as [[Hnil _]|(_ & Hall & _)]; [| | |done| |].
  - intros v st pos s res s' Hscan Hs. destruct (workers_recalled _ _ _ _ _ _ Hscan) as (verdict & Hv & ->). exists verdict. by rewrite safety_of_safe in Hs.
  - intros ids s l s' k state Hst Hin. by exists ids, s, l, s'.
  - exact Hreadable.
  - rewrite Hnil in Hr. by apply elem_of_nil in Hr.
  - destruct (Hall r Hr) as (b & Hb & Hread & id & d & Hid & Hd & Hcase). exists b, id, d.
    set (fields := fields_of (mkMode false false) (tree_of (JDict (rr_value r))) (u "recalled_memory") false).
    assert (Hclean : forall stable, P (JDict (rr_value r)) stable None -> exists deadline, forall i f, fields !! i = Some f ->
      (stable = true /\ reviewable_field f) \/ clean_field (Some deadline) "read" (take i fields) f) by (intros stable (verdict & Hv & Hs); by eapply recalled_answer_clean).
    destruct Hcase as [HP|(st & HV & Hst & Hsha & HP)]; destruct (Hclean _ HP) as [deadline Hf]; exists deadline; (split_and!; [done..|]); intros fields' i f Hin.
    + destruct (Hf i f Hin) as [[? _]|]; [done|by left].
    + destruct (Hf i f Hin) as [[_ Hrev]|]; [right|by left]. split; [done|]. destruct HV as (ids & s & l & s' & Hl & Hk). by exists ids, s, l, s', st.
Qed.
End flows.

(** ** Examples *)

(** The answer of an idle pool whose worker reads the clock from its start. *)
Definition idle_answer `{UnicodeDb} `{Clock} `{Confusables} `{Detectors} `{CaseDb} `{DetectorLayouts} {W} (r : request) : eff W SafetyResult := fun w =>
  match payload_of (rq_value r) with
  | Some payload =>
      if too_large r payload then (Err (about (rq_kind r) " safety scanner failed"), w)
      else match fst (worker_scan (job_of r payload) 0%nat) with
           | Ok v => (Ok (safety_of v), w)
           | Err _ => (Err (about (rq_kind r) " safety scanner failed"), w)
           end
  | None => (Err (about (rq_kind r) " safety scanner failed"), w)
  end.

Lemma idle_answered `{UnicodeDb} `{Clock} `{Confusables} `{Detectors} `{CaseDb} `{DetectorLayouts} {W} r (w : W) res w' :
  idle_answer r w = (Ok res, w') -> exists v, answered r v /\ res = safety_of v.
Proof.
  unfold idle_answer. destruct (payload_of (rq_value r)) as [payload|] eqn:Ep; [|done]. destruct (too_large r payload) eqn:El; [done|].
  destruct (worker_scan (job_of r payload) 0%nat) as [[v|e] n'] eqn:Ew; [|done]. intros [= <- _]. exists v. split; [|done].
  by eapply idle_pool_answers.
Qed.

Module Example_screened.
Import Example_envelope Example_flow.
#[local] Instance frozen : Clock := {| monotonic := fun _ => 0 |}.
#[local] Instance ascii_db : UnicodeDb :=
  {| db_printable := fun _ => true; db_space := fun _ => false; db_alnum := fun _ => false; db_alpha := fun _ => false;
     db_digit := fun _ => false; db_decimal := fun _ => false; db_decimal_value := fun _ => 0; db_category := fun _ => "Ll"%string;
     db_name := fun _ => ""%string; db_casefold := fun c => [c]; normalize_nfkc := fun t => t; normalize_nfd := fun t => t |}.
#[local] Instance no_table : Confusables := {| ASCII_CONFUSABLES := [] |}.
#[local] Instance no_detectors : Detectors := {| _DETECTORS := [] |}.
#[local] Instance exact_case : CaseDb := {| db_same_case := Z.eqb |}.
#[local] Instance no_layouts : DetectorLayouts := {| detector_layouts := [] |}.

(** The services of [Example_flow] with scans by the workers. *)
Definition scanning : Services unit :=
  mkServices unit (fun _ => mret ()) (fun _ => mret ()) (fun b o q => idle_answer (scan_request b o q).1.1)
    (fun v s n r => idle_answer (scan_facade_response v s n r).1.1) (fun v st pos => idle_answer (scan_recalled v st pos).1.1)
    (fun _ _ => mret [("stored", JBool true)]%string) (sv_recall Example_flow.sv) (fun _ _ _ _ _ _ => mret JNull) (fun _ _ => mret None) (fun _ => mret [])
    (fun _ => raise full) (mret "2024-01-01T00:00:00.000Z"%string).

#[local] Instance scanning_workers : ScanWorkers scanning.
Proof. split; intros *; apply idle_answered. Qed.

Definition note : list (string * json) := [("items", JList [JDict [("content", JStr "lunch at noon")]])]%string.

Lemma stored_bodies_clean_witness :
  exists sent deadline, (_retain_to_bank (logged scanning) "alice" "team" note "test" "legacy" ((), [])).2.2 = [AskRetain "team" sent]
    /\ all_clean deadline "write" (fields_of (mkMode false true) (tree_of (JDict note)) (u "retain") false)
    /\ forall walk f, f ∈ fields_of walk (tree_of (JDict sent)) (u "retain") false ->
         f ∈ fields_of walk (tree_of (JDict note)) (u "retain") false \/ router_field "alice" "test" "team" f.
Proof.
  destruct (stored_bodies_clean scanning "alice" "team" note "test" "legacy" () []) as (Hsent & [_ [deadline Hclean]] & Hfields & _).
  - vm_compute. reflexivity.
  - vm_compute. discriminate.
  - eexists _, deadline. split; [exact Hsent|]. split; [exact Hclean|exact Hfields].
Defined.

(** The bad memory of the bank is held back by the rules themselves. *)
Example scanned_recall : _recall_from_read_banks scanning "alice" ["team"; "archive"] Example_flow.body "test" () = (Ok found, ()).
Proof. vm_compute. reflexivity. Qed.

Lemma answers_readable b s resp s' r : sv_recall scanning b Example_flow.body s = (Ok resp, s') -> r ∈ rc_results resp -> readable (JDict (rr_value r)) = true.
Proof.
  simpl. destruct (bool_decide _); [|done]. intros [= <- _] Hr. apply list_elem_of_In in Hr. simpl in Hr. destruct Hr as [<-|[<-|[]]]; reflexivity.
Qed.

Lemma recalled_results_clean_witness : exists deadline,
  all_clean (Some deadline) "read" (fields_of (mkMode false false) (tree_of (JDict (rr_value (memory "m2" "lunch at noon")))) (u "recalled_memory") false).
Proof.
  destruct (recalled_results_clean scanning "alice" ["team"; "archive"]%string Example_flow.body "test" () found ()
    answers_readable scanned_recall (memory "m2" "lunch at noon")) as (b & id & d & deadline & _ & _ & _ & Hall).
  - apply list_elem_of_In. left. reflexivity.
  - exists deadline. intros i f Hf. destruct (Hall i f Hf) as [Hc|(_ & ids & s & l & s' & st & Hl & Hin & _)]; [exact Hc|].
    injection Hl as <- _. by apply elem_of_nil in Hin.
Defined.
End Example_screened.
