(* ===== verification/LogContract.v ===== *)
(** * The contract of log lines

    Models [memory_router/logging_contract.py]: which fields a log line may have
    and what is made of their values. A value is [lval]: the Python values a caller
    may pass, with [str(value)] of any other object as a parameter of the value.
    Texts are lists of code points; [str.upper] and [str.lower] outside ASCII are
    the class [CaseMap]. *)

From Stdlib Require Import ZArith Lia Ascii.
From stdpp Require Import base sets strings numbers list.
From S2P Require Import Prelude Errors Text Sha256 Json JsonParse FacadeRoutes Principals Chars ScanRules ScanEntry.

Local Open Scope Z_scope.

Class CaseMap := { str_upper : text -> text; str_lower : text -> text }.

Inductive lval :=
  | LStr (t : text)
  | LInt (n : Z)
  | LBool (b : bool)
  | LFloat (t : string)
  | LNone
  | LOther (printed : option text).   (* str(value), None when it raises *)

#[export] Instance lval_eq_dec : EqDecision lval.
Proof. solve_decision. Defined.

Abbreviation log_fields := (list (string * lval)).

(** A literal as a value. *)
Definition lit (s : string) : lval := LStr (u s).

(** ** Vocabularies *)

Definition SAFE_FIELDS : list string :=
  ["request_id"; "operation"; "maintenance_phase"; "upstream_method"; "request_method"; "error_kind"; "error_fingerprint"; "upstream_status"; "http_status";
   "outcome"; "request_duration_ms"; "operation_duration_ms"; "route_class"; "writer_id"; "principal"; "token_key_id"; "bank"; "scope"; "decision"; "status";
   "latency_ms"; "source"; "partial"; "reason"; "timeout_ms"; "suppressed"; "action"; "admin_token_scope"; "quarantine_id"].
Definition RESERVED_FIELDS : list string := ["event"; "level"; "timestamp"; "logger"].
Definition OUTPUT_FIELDS : list string := RESERVED_FIELDS ++ SAFE_FIELDS.
Definition EVENTS : list string :=
  ["application_start_failed"; "application_stop_failed"; "application_started"; "authentication_failed"; "authentication_audit_failed"; "authorization_decision";
   "principal_throttled"; "principal_concurrency_release_failed"; "principal_concurrency_unavailable"; "principal_rate_unavailable"; "auth_rate_unavailable";
   "admin_action"; "admin_rate_unavailable"; "bank_unavailable"; "configuration_warning"; "facade_scan_failed"; "retain_response_scan_failed";
   "request_scan_failed"; "recall_scan_failed"; "hindsight_readiness_failed"; "hindsight_readiness_recovered"; "hindsight_request_failed";
   "logging_contract_violation"; "openclaw_security_audit_failed"; "quarantine_placeholder_unavailable"; "quarantine_sweeper_failed";
   "quarantine_write_unavailable"; "recall_aggregate_audit_unavailable"; "recall_supplemental_audit_unavailable"; "readiness_orchestration_failed";
   "request_failed"; "runtime_message"; "storage_readiness_failed"; "storage_readiness_recovered"].
Definition ERROR_KINDS : list string :=
  ["capacity"; "conflict"; "http"; "invalid-credentials"; "invalid-response"; "network"; "payload-too-large"; "rate-limit"; "response-too-large";
   "unsafe-response"; "response-scan-unavailable"; "storage"; "shutdown"; "timeout"; "unexpected"; "worker-crash"].
Definition OUTCOMES : list string := ["failed"; "degraded"; "healthy"; "unhealthy"].
Definition MAINTENANCE_PHASES : list string := ["session-prune"; "review-recovery"; "expiry"; "event-retention"].
Definition ROUTE_CLASSES : list string := ["readiness"; "liveness"; "version"; "admin"; "memory"; "openclaw"; "unmatched"].
Definition OPERATIONS : list string :=
  ["authenticate"; "authorize"; "configuration"; "consume-principal-rate"; "facade_scan"; "retain_response_scan"; "request_scan"; "recall_scan"; "health";
   "invalidate_memory"; "manage-concurrency-lease"; "quarantine_maintenance"; "quarantine_review"; "recall"; "readiness_refresh"; "request";
   "release-concurrency-lease"; "retain"; "security_audit"; "shutdown"; "startup"; "storage_health"; "version"]
  ++ SCOPE_VOCABULARY ++ map (fun r => ("openclaw_" +:+ fr_operation r)%string) FACADE_ROUTES.
Definition METHODS : list string := ["GET"; "POST"; "PATCH"; "PUT"; "DELETE"; "HEAD"; "OPTIONS"].
Definition REASONS : list string :=
  ["admin-cleanup-token-missing"; "admin-read-token-missing"; "admin-review-token-missing"; "agent-claim-mismatch"; "expired-token"; "invalid-token-format";
   "revoked-token"; "unknown-key-id"; "wrong-secret"; "anonymous-mode"; "application-shutdown"; "application-startup"; "asgi-application-error";
   "http-protocol-error"; "insecure-hindsight-transport"; "legacy-admin-token"; "legacy-router-token"; "direct-stdlib-log";
   "openclaw-suspicious-provider-response"; "openclaw-suspicious-request"; "openclaw-unknown-writer"; "reserved-field"; "router-token-missing";
   "runtime-other"; "server-finished"; "server-started"; "server-running"; "server-stopping"; "unregistered-event"].
Definition THROTTLED_EVENTS : list string :=
  List.filter (fun e => negb (elem e ["admin_action"; "application_start_failed"; "application_started"; "authorization_decision"; "configuration_warning";
    "principal_throttled"; "hindsight_readiness_failed"; "logging_contract_violation"; "runtime_message"; "storage_readiness_failed"]%string)) EVENTS.
Definition TEXT_LIMITS : list (string * nat) :=
  [("request_id", 128); ("operation", 64); ("upstream_method", 16); ("request_method", 16); ("writer_id", 128); ("principal", 128); ("token_key_id", 64);
   ("bank", 128); ("scope", 64); ("decision", 16); ("source", 64); ("logger", 128); ("level", 16); ("timestamp", 64); ("event", 64); ("action", 16);
   ("admin_token_scope", 16); ("quarantine_id", 130)]%nat.
Definition INTEGER_FIELDS : list string := ["upstream_status"; "http_status"; "timeout_ms"; "suppressed"; "status"].
Definition DURATION_FIELDS : list string := ["request_duration_ms"; "operation_duration_ms"; "latency_ms"].
Definition BOOLEAN_FIELDS : list string := ["partial"].
Definition DECISIONS : list string := ["allow"; "deny"].
Definition ADMIN_ACTIONS : list string := ["approve"; "reject"; "postpone"; "reconcile"; "cleanup"].
Definition ADMIN_TOKEN_SCOPES : list string := ["read"; "review"; "cleanup"; "legacy"].

(** Whether a text is one of the words. *)
Definition word_of (words : list string) (t : text) : bool := existsb (fun w => bool_decide (u w = t)) words.

(** ** Patterns *)

Definition letter (c : Z) : bool := ascii_upper c || ascii_lower c.
Definition letter_digit (c : Z) : bool := letter c || ascii_digit c.
Definition hex_char (c : Z) : bool := ascii_digit c || between 97 102 c.
Definition hex16 (t : text) : bool := (length t =? 16)%nat && forallb hex_char t.

Definition FINGERPRINT_PATTERN (t : text) : bool :=
  (match t with c :: rest => letter c && forallb (fun c => letter_digit c || (c =? 46)) rest && (length rest <=? 63)%nat | [] => false end)
  || (bool_decide (take 5 t = u "site:") && hex16 (drop 5 t)).
Definition identifier_char (c : Z) : bool := letter_digit c || elem c [46; 95; 58; 45].
Definition REQUEST_ID_PATTERN (t : text) : bool := forallb identifier_char t && (1 <=? length t)%nat && (length t <=? 128)%nat.
Definition WRITER_ID_PATTERN (t : text) : bool := REQUEST_ID_PATTERN t.
Definition QUARANTINE_ID_PATTERN (t : text) : bool :=
  let n := (length t - 17)%nat in
  (20 <=? length t)%nat && bool_decide (take 2 t = u "q_") && forallb letter_digit (drop 2 (take n t))
  && bool_decide (take 1 (drop n t) = u "_") && hex16 (drop (S n) t).
Definition LOGGER_PATTERN (t : text) : bool :=
  match t with
  | c :: rest => (letter c || (c =? 95)) && forallb (fun c => letter_digit c || elem c [95; 46; 45]) rest && (length rest <=? 127)%nat
  | [] => false
  end.

(** ** Texts *)

(** [str(value)], [None] when it raises. *)
Definition str_of (v : lval) : option text :=
  match v with
  | LStr t => Some t
  | LInt n => if int_readable n then Some (u (str_of_Z n)) else None
  | LBool b => Some (u (if b then "True" else "False"))
  | LFloat t => Some (u t)
  | LNone => Some (u "None")
  | LOther printed => printed
  end.

Definition safe_text (v : lval) (fallback : text) (limit : nat) : text :=
  match str_of v with Some t => take limit t | None => fallback end.

(** [raw.encode(errors="replace")] *)
Definition encode_replacing (t : text) : string := of_chars (map chr (encode (map (fun c => if between 55296 57343 c then 63 else c) t))).

(** [hashlib.sha256(...).hexdigest()[:16]] *)
Definition digest16 (t : text) : text := take 16 (u (sha256_hex (encode_replacing t))).

Definition _opaque_text (v : lval) (prefix : string) : text := u prefix ++ u ":" ++ digest16 (safe_text v (u "unavailable") 512).

(** ** Output *)

Definition _nonnegative_integer (v : lval) : option lval :=
  match v with LInt n => if 0 <=? n then Some v else None | _ => None end.

(** [float(value)]: an integer beyond every double raises. *)
Definition to_float (v : lval) : result (option string) :=
  match v with
  | LInt n => let t := float_repr (n <? 0) (Z.abs n) 0 in if isfinite t then Ok (Some t) else Err (EOther "OverflowError")
  | LFloat t => Ok (Some t)
  | _ => Ok None
  end.

Definition nonnegative_text (t : string) : bool := negb (starts_with "-" t) || bool_decide (t = "-0.0"%string).

Definition _nonnegative_number (v : lval) : result (option lval) :=
  t ← to_float v;
  match t with
  | Some t => Ok (if isfinite t && nonnegative_text t then Some (LFloat t) else None)
  | None => Ok None
  end.

Definition sanitize_output_field (key : string) (v : lval) : result (option lval) :=
  if bool_decide (key = "maintenance_phase"%string) then
    Ok (match v with LStr t => if word_of MAINTENANCE_PHASES t then Some v else None | _ => None end)
  else if bool_decide (key = "logger"%string) then
    let name := safe_text v (u "unavailable") 128 in
    Ok (Some (LStr (if LOGGER_PATTERN name then name else _opaque_text v "logger")))
  else match dict_get key TEXT_LIMITS with
  | Some limit => Ok (Some (LStr (safe_text v (u "unavailable") limit)))
  | None =>
      if elem key INTEGER_FIELDS then Ok (_nonnegative_integer v)
      else if elem key DURATION_FIELDS then _nonnegative_number v
      else if elem key BOOLEAN_FIELDS then Ok (match v with LBool _ => Some v | _ => None end)
      else if elem key ["error_kind"; "error_fingerprint"; "outcome"; "route_class"; "reason"]%string
      then Ok (Some (LStr (safe_text v (u "unavailable") 128)))
      else Ok None
  end.

(** ** Fields *)

(** A field that is present gets a new value, or is removed. *)
Definition update_field (key : string) (f : lval -> option lval) (fields : log_fields) : log_fields :=
  match dict_get key fields with
  | None => fields
  | Some v => match f v with Some v' => dict_set key v' fields | None => dict_pop key fields end
  end.

(** The value when it is a text of the vocabulary, and what stands for another. *)
Definition vocabulary (words : list string) (other : option lval) (v : lval) : option lval :=
  match v with LStr t => if word_of words t then Some v else other | _ => other end.

(** [value.replace("_", "-")] *)
Definition dashes (t : text) : text := map (fun c => if c =? 95 then 45 else c) t.

Definition clean_reason (v : lval) : option lval :=
  let reason := dashes (safe_text v (u "runtime-other") 128) in
  Some (LStr (if word_of REASONS reason then reason else u "runtime-other")).

Definition _sanitize_vocabularies (fields : log_fields) : log_fields :=
  let fields := update_field "maintenance_phase" (vocabulary MAINTENANCE_PHASES None) fields in
  let fields := update_field "error_kind" (vocabulary ERROR_KINDS (Some (lit "unexpected"))) fields in
  let fields := update_field "outcome" (vocabulary OUTCOMES (Some (lit "failed"))) fields in
  let fields := update_field "reason" clean_reason fields in
  let fields := update_field "decision" (vocabulary DECISIONS None) fields in
  let fields := update_field "action" (vocabulary ADMIN_ACTIONS None) fields in
  update_field "admin_token_scope" (vocabulary ADMIN_TOKEN_SCOPES None) fields.

Definition clean_pattern (pattern : text -> bool) (limit : nat) (fallback : string) (v : lval) : option lval :=
  let candidate := safe_text v (u fallback) limit in if pattern candidate then Some (LStr candidate) else None.

Definition _sanitize_pattern_field (key : string) (pattern : text -> bool) (limit : nat) (fallback : string) (fields : log_fields) : log_fields :=
  update_field key (clean_pattern pattern limit fallback) fields.

Definition clean_identifier (prefix : string) (v : lval) : option lval :=
  let candidate := safe_text v [] 129 in Some (LStr (if WRITER_ID_PATTERN candidate then candidate else _opaque_text v prefix)).

Definition _sanitize_identifier (key prefix : string) (fields : log_fields) : log_fields := update_field key (clean_identifier prefix) fields.

Definition clean_scope (v : lval) : option lval :=
  let scope := safe_text v [] 65 in if word_of SCOPE_VOCABULARY scope then Some (LStr scope) else None.

Definition _sanitize_scope (fields : log_fields) : log_fields := update_field "scope" clean_scope fields.

Definition clean_logger (v : lval) : option lval :=
  let name := safe_text v [] 129 in Some (LStr (if LOGGER_PATTERN name then name else _opaque_text v "logger")).

Definition _sanitize_logger (fields : log_fields) : log_fields := update_field "logger" clean_logger fields.

Definition clean_text_limit (limit : nat) (v : lval) : option lval := Some (LStr (safe_text v (u "unavailable") limit)).

Definition limit_texts (fields : log_fields) : log_fields :=
  fold_left (fun fields kl => update_field kl.1 (clean_text_limit kl.2) fields) TEXT_LIMITS fields.

Section sanitize.
Context `{CaseMap}.

(** [fields[field].upper()], of a field that is a text by then. *)
Definition clean_method (v : lval) : option lval :=
  match v with
  | LStr t => let upper := str_upper t in if word_of METHODS upper then Some (LStr upper) else None
  | _ => None
  end.

Definition _sanitize_operation_fields (fields : log_fields) : log_fields :=
  let fields := update_field "operation" (vocabulary OPERATIONS None) fields in
  let fields := update_field "request_method" clean_method fields in
  update_field "upstream_method" clean_method fields.

(** The loop over the typed fields; [float] may raise. *)
Definition clean_typed (fields : result log_fields) (key : string) : result log_fields :=
  fields ← fields;
  match dict_get key fields with
  | None => Ok fields
  | Some v => v' ← sanitize_output_field key v; Ok (match v' with Some v' => dict_set key v' fields | None => dict_pop key fields end)
  end.

Definition _sanitize_typed_fields (fields : log_fields) : result log_fields :=
  fold_left clean_typed (INTEGER_FIELDS ++ DURATION_FIELDS ++ BOOLEAN_FIELDS) (Ok fields).

Definition clean_route_class (fields : log_fields) : log_fields :=
  dict_set "route_class" (match dict_get "route_class" fields with Some (LStr t) => if word_of ROUTE_CLASSES t then LStr t else lit "unmatched" | _ => lit "unmatched" end) fields.

Definition sanitize_fields (fields : log_fields) : result log_fields :=
  let safe := List.filter (fun kv => elem kv.1 SAFE_FIELDS && negb (bool_decide (kv.2 = LNone))) fields in
  let safe := _sanitize_vocabularies safe in
  let safe := _sanitize_pattern_field "error_fingerprint" FINGERPRINT_PATTERN 80 "" safe in
  let safe := _sanitize_pattern_field "request_id" REQUEST_ID_PATTERN 129 "unavailable" safe in
  let safe := _sanitize_pattern_field "quarantine_id" QUARANTINE_ID_PATTERN 130 "" safe in
  let safe := _sanitize_identifier "writer_id" "writer" safe in
  let safe := fold_left (fun fields key => _sanitize_identifier key key fields) ["principal"; "token_key_id"; "bank"]%string safe in
  let safe := _sanitize_scope safe in
  let safe := _sanitize_logger safe in
  let safe := limit_texts safe in
  let safe := _sanitize_operation_fields safe in
  safe ← _sanitize_typed_fields safe;
  Ok (clean_route_class safe).
End sanitize.

(** ** Log events

    Models [memory_router/logging.py]: an event is checked against the contract of
    [LogContract.v], throttled and emitted; records of other loggers are replaced by
    a short description; what is rendered are the fields of the contract. The
    module state is [log_state]; times are in nanoseconds. Call sites and
    tracebacks enter as the text that is hashed, the handlers of the standard
    library as the line they get. *)

Definition LOG_THROTTLE_INTERVAL : Z := seconds 60.

(** ** Throttling *)

(** When a key was last let through, and how many were held back since. *)
Record throttle_state (K : Type) := mkThrottle { th_last : list (K * Z); th_suppressed : list (K * Z) }.
Arguments mkThrottle {K}.
Arguments th_last {K}.
Arguments th_suppressed {K}.

(** Whether an event goes through now: then with the number of those held back. *)
Definition throttle {K} `{EqDecision K} (key : K) (now : Z) (st : throttle_state K) : option Z * throttle_state K :=
  let held := default 0 (dict_get key (th_suppressed st)) in
  if match dict_get key (th_last st) with Some last => now - last <? LOG_THROTTLE_INTERVAL | None => false end
  then (None, mkThrottle (th_last st) (dict_set key (held + 1) (th_suppressed st)))
  else (Some held, mkThrottle (dict_set key now (th_last st)) (dict_pop key (th_suppressed st))).

(** [_last_emitted], [_suppressed] and [_write_failures]. *)
Record log_state := mkLog { lg_throttle : throttle_state (list text); lg_write_failures : Z }.

Definition reset_log_state : log_state := mkLog (mkThrottle [] []) 0.

(** ** Fingerprints *)

Definition _site_fingerprint (source : text) : text := u "site:" ++ digest16 source.

Definition safe_classes : list string := ["AssertionError"; "ConnectionError"; "OSError"; "RuntimeError"; "TimeoutError"; "TypeError"; "ValueError"].

(** The class of an exception, and the text of its last frame, or of its module
    and class. *)
Record error_site := mkErrorSite { er_class : string; er_source : text }.

Definition error_fingerprint (e : error_site) : text :=
  if elem (er_class e) safe_classes then u (er_class e) else _site_fingerprint (er_source e).

(** ** Events *)

Definition EventKey : Type := list text.

(** The key an event is throttled by. *)
Definition throttle_key (event : string) (fields : log_fields) : EventKey :=
  let route := match dict_get "route_class" fields with Some (LStr t) => t | _ => [] end in
  let kind := safe_text (default (lit "unexpected") (dict_get "error_kind" fields)) (u "unexpected") 32 in
  [u event; route; kind]
  ++ (if bool_decide (event = "quarantine_sweeper_failed"%string)
      then match dict_get "maintenance_phase" fields with Some (LStr t) => [t] | _ => [] end else []).

(** [_admit_event]: the fields to emit, [None] when the event is held back. *)
Definition _admit_event (now : Z) (event : string) (fields : log_fields) : eff log_state (option log_fields) := fun st =>
  if negb (elem event THROTTLED_EVENTS) then (Ok (Some fields), st)
  else
    let '(r, th) := throttle (throttle_key event fields) now (lg_throttle st) in
    (Ok (match r with
         | None => None
         | Some 0 => Some fields
         | Some n => Some (dict_set "suppressed" (LInt n) fields)
         end), mkLog th (lg_write_failures st)).

Section events.
Context `{CaseMap}.

(** [_prepare_event]; [caller] is the text of the call site. *)
Definition _prepare_event (caller : text) (event level : lval) (fields : log_fields) : result (string * lval * log_fields) :=
  let known := match event with LStr t => List.find (fun e => bool_decide (u e = t)) EVENTS | _ => None end in
  let reserved := existsb (fun kv => elem kv.1 RESERVED_FIELDS) fields in
  let reason := if reserved then Some "reserved-field"%string else match known with Some _ => None | None => Some "unregistered-event"%string end in
  let fields := if reserved then List.filter (fun kv => negb (elem kv.1 RESERVED_FIELDS)) fields else fields in
  match reason, known with
  | None, Some e => safe ← sanitize_fields fields; Ok (e, level, safe)
  | Some reason, _ =>
      let fields := dict_set "error_fingerprint" (LStr (_site_fingerprint caller)) (dict_set "reason" (lit reason) fields) in
      safe ← sanitize_fields fields; Ok ("logging_contract_violation"%string, lit "error", safe)
  | None, None => Err (EOther "unreachable")
  end.

(** [LEVELS.get(level, logging.ERROR)] *)
Definition numeric_level (level : lval) : Z :=
  match level with
  | LStr t => if bool_decide (t = u "info") then 20 else if bool_decide (t = u "warning") then 30 else 40
  | _ => 40
  end.

(** A line that the logger gets. *)
Record log_line := mkLine { ll_level : Z; ll_event : string; ll_fields : log_fields }.

(** [_log_event] *)
Definition _log_event (now : Z) (caller : text) (error : option error_site) (event level : lval) (fields : log_fields) : eff log_state (option log_line) :=
  prepared ← lift (_prepare_event caller event level fields);
  let '(event, level, safe) := prepared : string * lval * log_fields in
  admitted ← _admit_event now event safe;
  match admitted with
  | None => mret None
  | Some safe =>
      let safe := match error with Some e => dict_set "error_fingerprint" (LStr (error_fingerprint e)) safe | None => safe end in
      mret (Some (mkLine (numeric_level level) event safe))
  end.

(** [_record_write_failure] *)
Definition _record_write_failure : eff log_state unit := modify (fun st => mkLog (lg_throttle st) (lg_write_failures st + 1)).

(** [log_event]; [written] tells whether the logger takes the line. *)
Definition log_event (written : log_line -> bool) (now : Z) (caller : text) (error : option error_site) (event level : lval) (fields : log_fields)
    : eff log_state (option log_line) :=
  try_except
    (line ← _log_event now caller error event level fields;
     match line with
     | Some l => if written l then mret line else raise (EOther "handler")
     | None => mret None
     end)
    (fun _ => _record_write_failure;; mret None).

(** ** Records of other loggers *)

(** [needle in t] *)
Definition mentions (needle : string) (t : text) : bool := contains (u needle) t.

(** [_runtime_reason] *)
Definition _runtime_reason (message : text) : string :=
  let lowered := str_lower message in
  if mentions "invalid http request" lowered || mentions "unsupported upgrade request" lowered || mentions "no supported websocket library" lowered
  then "http-protocol-error"
  else if mentions "exception in asgi application" lowered then "asgi-application-error"
  else if mentions "started server process" lowered then "server-started"
  else if mentions "uvicorn running on" lowered then "server-running"
  else if mentions "application startup" lowered then "application-startup"
  else if mentions "shutting down" lowered then "server-stopping"
  else if mentions "application shutdown" lowered then "application-shutdown"
  else if mentions "finished server process" lowered then "server-finished"
  else "runtime-other".

(** A record on its way to the formatter: whether it bears the mark of
    [log_event], the text of its place when it is a record of the standard library,
    and its dictionary. *)
Record event_dict := mkEventDict { ed_marked : bool; ed_place : option text; ed_fields : log_fields }.

(** [str.strip()] is only used on the message, of which the reason keeps words. *)
Definition value_or_empty (key : string) (fields : log_fields) : lval := default (LStr []) (dict_get key fields).

(** [_normalize_foreign_event] *)
Definition _normalize_foreign_event (e : event_dict) : event_dict :=
  if ed_marked e then e
  else
    let fields := ed_fields e in
    let message := safe_text (value_or_empty "event" fields) [] 512 in
    let logger_name := safe_text (value_or_empty "logger" fields) [] 128 in
    let kept := List.filter (fun kv : string * lval => elem kv.1 ["level"; "logger"; "timestamp"]%string) fields in
    mkEventDict false (ed_place e)
      (if bool_decide (take 13 logger_name = u "memory_router") then
         dict_set "error_fingerprint" (LStr (_site_fingerprint (default (u "memory_router:unknown:0") (ed_place e))))
           (dict_set "reason" (lit "direct-stdlib-log") (dict_set "event" (lit "logging_contract_violation") kept))
       else
         let named := dict_set "reason" (lit (_runtime_reason message)) (dict_set "event" (lit "runtime_message") kept) in
         match dict_get "suppressed" fields with Some (LInt n) => if 0 <? n then dict_set "suppressed" (LInt n) named else named | _ => named end).

(** The dictionary that [_render_safe_json] prints. *)
Fixpoint safe_event (fields : log_fields) : result log_fields :=
  match fields with
  | [] => Ok []
  | (key, v) :: rest =>
      if elem key OUTPUT_FIELDS then
        v' ← sanitize_output_field key v; rest' ← safe_event rest; Ok (match v' with Some v' => (key, v') :: rest' | None => rest' end)
      else safe_event rest
  end.

(** [_ProtocolNoiseFilter.filter]: whether the record passes, and the count it is
    given. [message] is [None] when the message cannot be formatted. *)
Definition noise_filter (now : Z) (levelno : Z) (message : option text) (st : throttle_state string) : bool * option Z * throttle_state string :=
  match message with
  | None => (false, None, st)
  | Some message =>
      if 50 <=? levelno then (true, None, st)
      else
        let reason := _runtime_reason (take 512 message) in
        if (levelno <? 30) || negb (elem reason ["http-protocol-error"; "asgi-application-error"; "runtime-other"]%string) then (true, None, st)
        else match throttle reason now st with
        | (None, st) => (false, None, st)
        | (Some 0, st) => (true, None, st)
        | (Some n, st) => (true, Some n, st)
        end
  end.
End events.
