(* ===== verification/LoggingProps.v ===== *)
(** * What reaches the log

    [rules] states, field by field, what a log line may hold. Whatever a caller
    passes, a line of [log_event] keeps to it, and printing the line changes nothing
    of it. The throttle lets one event of a key through a minute and counts every
    other one. *)

From Stdlib Require Import ZArith Lia Ascii.
From stdpp Require Import base sets strings numbers list.
From S2P Require Import Prelude Errors Text Sha256 Json JsonParse FacadeRoutes Principals Chars LogContract.

Local Open Scope Z_scope.

(** ** The rules *)

Definition is_text (ok : text -> bool) (v : lval) : bool := match v with LStr t => ok t | _ => false end.
Definition identifier (limit : nat) (t : text) : bool := WRITER_ID_PATTERN t && (length t <=? limit)%nat.
Definition is_count (v : lval) : bool := match v with LInt n => 0 <=? n | _ => false end.
Definition is_duration (v : lval) : bool := match v with LFloat t => isfinite t && nonnegative_text t | _ => false end.
Definition is_bool (v : lval) : bool := match v with LBool _ => true | _ => false end.

Definition rules : list (string * (lval -> bool)) :=
  [("request_id", is_text REQUEST_ID_PATTERN); ("operation", is_text (word_of OPERATIONS)); ("maintenance_phase", is_text (word_of MAINTENANCE_PHASES));
   ("upstream_method", is_text (word_of METHODS)); ("request_method", is_text (word_of METHODS)); ("error_kind", is_text (word_of ERROR_KINDS));
   ("error_fingerprint", is_text FINGERPRINT_PATTERN); ("upstream_status", is_count); ("http_status", is_count); ("outcome", is_text (word_of OUTCOMES));
   ("request_duration_ms", is_duration); ("operation_duration_ms", is_duration); ("route_class", is_text (word_of ROUTE_CLASSES));
   ("writer_id", is_text (identifier 128)); ("principal", is_text (identifier 128)); ("token_key_id", is_text (identifier 64)); ("bank", is_text (identifier 128));
   ("scope", is_text (word_of SCOPE_VOCABULARY)); ("decision", is_text (word_of DECISIONS)); ("status", is_count); ("latency_ms", is_duration);
   ("source", is_text (fun t => (length t <=? 64)%nat)); ("partial", is_bool); ("reason", is_text (word_of REASONS)); ("timeout_ms", is_count);
   ("suppressed", is_count); ("action", is_text (word_of ADMIN_ACTIONS)); ("admin_token_scope", is_text (word_of ADMIN_TOKEN_SCOPES));
   ("quarantine_id", is_text (fun t => QUARANTINE_ID_PATTERN t && (length t <=? 130)%nat))]%string.

Definition field_ok (key : string) (v : lval) : bool := match dict_get key rules with Some rule => rule v | None => false end.

Definition fields_ok (fields : log_fields) : bool := forallb (fun kv => field_ok kv.1 kv.2) fields.

Definition line_ok (l : log_line) : bool := elem (ll_event l) EVENTS && elem (ll_level l) [20; 30; 40] && fields_ok (ll_fields l).

(** ** Texts *)

Lemma word_of_limit (n : nat) words t : forallb (fun w => (length (u w) <=? n)%nat) words = true -> word_of words t = true -> (length t <= n)%nat.
Proof.
  intros Hw [w [Hin Heq]]%existsb_exists. apply bool_decide_eq_true in Heq. subst t.
  rewrite forallb_forall in Hw. by apply Nat.leb_le, (Hw _ Hin).
Qed.

Lemma word_of_elem w words : elem w words = true -> word_of words (u w) = true.
Proof.
  intros Hin%elem_true. apply existsb_exists. exists w. split; [by apply list_elem_of_In|]. by apply bool_decide_eq_true.
Qed.

Lemma safe_text_short t d (n : nat) : (length t <= n)%nat -> safe_text (LStr t) d n = t.
Proof. intros. by apply take_ge. Qed.

Lemma forallb_take {A} (f : A -> bool) n l : forallb f l = true -> forallb f (take n l) = true.
Proof. revert n. induction l as [|x l IH]; intros [|n]; [done..|]. cbn. intros [-> Hl]%andb_true_iff. by apply IH. Qed.

Lemma identifier_take (n : nat) t : (1 <= n)%nat -> WRITER_ID_PATTERN t = true -> identifier n (take n t) = true.
Proof.
  intros Hn [[Hc H1]%andb_true_iff H2]%andb_true_iff. apply Nat.leb_le in H1, H2.
  unfold identifier, WRITER_ID_PATTERN, REQUEST_ID_PATTERN. rewrite (forallb_take _ _ _ Hc), length_take.
  rewrite !andb_true_iff, !Nat.leb_le. repeat split; lia.
Qed.

Lemma digest16_hex t : hex16 (digest16 t) = true.
Proof.
  unfold digest16. pose proof (sha256_hex_shape (encode_replacing t)) as [Hx Hlen]%class_match_spec.
  revert Hx Hlen. generalize (sha256_hex (encode_replacing t)) as s. intros s Hx Hlen. unfold slen in Hlen. rewrite <- length_chars in Hlen.
  unfold hex16, u. rewrite length_take, length_map. apply andb_true_iff. split; [apply Nat.eqb_eq; lia|].
  apply forallb_take. apply forallb_forall. intros c [a [<- Ha]]%in_map_iff.
  rewrite Forall_forall in Hx. specialize (Hx a). rewrite list_elem_of_In in Hx. specialize (Hx Ha).
  revert Hx. clear. destruct a as [[] [] [] [] [] [] [] []]; by vm_compute.
Qed.

Lemma hex_identifier c : hex_char c = true -> identifier_char c = true.
Proof.
  unfold hex_char, identifier_char, letter_digit, letter, ascii_lower, between. rewrite !orb_true_iff, !andb_true_iff, !Z.leb_le.
  intros [?|?]; [tauto|]. left. left. right. lia.
Qed.

Lemma site_fingerprint_ok t : FINGERPRINT_PATTERN (_site_fingerprint t) = true.
Proof.
  unfold FINGERPRINT_PATTERN, _site_fingerprint. apply orb_true_iff. right. apply andb_true_iff. split; [by apply bool_decide_eq_true|].
  exact (digest16_hex t).
Qed.

Lemma error_fingerprint_ok e : FINGERPRINT_PATTERN (error_fingerprint e) = true.
Proof.
  unfold error_fingerprint. destruct (elem _ _) eqn:E; [|apply site_fingerprint_ok]. apply elem_true in E.
  revert E. generalize (er_class e). intros c Hc. assert (Forall (fun c => FINGERPRINT_PATTERN (u c) = true) safe_classes) as Hall by by repeat constructor.
  rewrite Forall_forall in Hall. by apply Hall.
Qed.

Lemma opaque_identifier v prefix : WRITER_ID_PATTERN (u prefix) = true -> (length (u prefix) <= 100)%nat -> WRITER_ID_PATTERN (_opaque_text v prefix) = true.
Proof.
  unfold _opaque_text. pose proof (digest16_hex (safe_text v (u "unavailable") 512)) as Hx. revert Hx. generalize (digest16 (safe_text v (u "unavailable") 512)) as d.
  intros d [Hl Hd]%andb_true_iff [[Hc H1]%andb_true_iff H2]%andb_true_iff Hlen. apply Nat.eqb_eq in Hl. apply Nat.leb_le in H1, H2.
  assert (forallb identifier_char d = true) as Hd' by (apply forallb_forall; rewrite forallb_forall in Hd; intros c Hin; by apply hex_identifier, Hd).
  unfold WRITER_ID_PATTERN, REQUEST_ID_PATTERN. rewrite !forallb_app, Hc, Hd', !length_app, Hl. change (length (u ":")) with 1%nat.
  change (forallb identifier_char (u ":")) with true. rewrite !andb_true_iff, !Nat.leb_le. repeat split; lia.
Qed.

(** ** Fields, one by one *)

Lemma get_update_field key k f fields : dict_get key (update_field k f fields) = if decide (key = k) then (dict_get k fields ≫= f) else dict_get key fields.
Proof.
  unfold update_field. destruct (dict_get k fields) as [v|] eqn:E.
  - simpl. destruct (f v) eqn:F; rewrite ?dict_get_set, ?dict_get_pop; by case_decide.
  - case_decide as D; [by subst|done].
Qed.

Lemma get_update_eq key f fields : dict_get key (update_field key f fields) = dict_get key fields ≫= f.
Proof. rewrite get_update_field. by case_decide. Qed.

Lemma get_update_ne key k f fields : key <> k -> dict_get key (update_field k f fields) = dict_get key fields.
Proof. intros. rewrite get_update_field. by case_decide. Qed.

Lemma get_limited key fields :
  dict_get key (limit_texts fields) = match dict_get key TEXT_LIMITS with Some n => dict_get key fields ≫= clean_text_limit n | None => dict_get key fields end.
Proof.
  unfold limit_texts. assert (NoDup (map fst TEXT_LIMITS)) as Hnd by (apply (bool_decide_unpack _); by vm_compute).
  revert Hnd fields. induction TEXT_LIMITS as [|[k n] rest IH]; intros Hnd fields; [done|]. cbn [map fst] in Hnd. apply NoDup_cons in Hnd as [Hk Hnd].
  cbn [fold_left dict_get fst snd]. rewrite (IH Hnd), get_update_field. case_decide as D; [|done]. subst k. by apply dict_get_None in Hk as ->.
Qed.

(** The typed fields: each is what [sanitize_output_field] gives for some value. *)
Lemma clean_typed_get k d d' key v : clean_typed (Ok d) k = Ok d' -> dict_get key d' = Some v ->
  (if decide (key = k) then exists v0, sanitize_output_field key v0 = Ok (Some v) else dict_get key d = Some v).
Proof.
  unfold clean_typed. cbn. intros E Hg. destruct (dict_get k d) as [v0|] eqn:G; [|injection E as <-; case_decide; congruence].
  destruct (sanitize_output_field k v0) as [[v'|]|] eqn:S; [..|done]; injection E as <-; rewrite ?dict_get_set, ?dict_get_pop in Hg; case_decide; subst; try done.
  injection Hg as <-. by exists v0.
Qed.

Lemma clean_typed_err keys e : fold_left clean_typed keys (Err e) = Err e.
Proof. by induction keys. Qed.

Lemma typed_get keys d d' key v : NoDup keys -> fold_left clean_typed keys (Ok d) = Ok d' -> dict_get key d' = Some v ->
  (key ∈ keys /\ (exists v0, sanitize_output_field key v0 = Ok (Some v))) \/ ((key ∉ keys) /\ dict_get key d = Some v).
Proof.
  revert d. induction keys as [|k keys IH]; intros d Hnd Hf Hg; [right; injection Hf as ->; by split; [apply not_elem_of_nil|]|].
  apply NoDup_cons in Hnd as [Hk Hnd]. cbn [fold_left] in Hf. destruct (clean_typed (Ok d) k) as [d1|e] eqn:E; [|by rewrite clean_typed_err in Hf].
  destruct (IH d1 Hnd Hf Hg) as [[Hin Hex]|[Hin Hd]]; [left; split; [by right|done]|].
  pose proof (clean_typed_get _ _ _ _ _ E Hd) as Hc. case_decide as D; [subst; left; by split; [left|]|].
  right. rewrite not_elem_of_cons. tauto.
Qed.

(** A typed value keeps to its rule. *)
Lemma typed_ok key v0 v : key ∈ INTEGER_FIELDS ++ DURATION_FIELDS ++ BOOLEAN_FIELDS -> sanitize_output_field key v0 = Ok (Some v) -> field_ok key v = true.
Proof.
  assert (forall x y, _nonnegative_integer x = Some y -> is_count y = true) as Hint by (intros [] y; cbn; try done; case_match eqn:E; [by intros [= <-]|done]).
  assert (forall x y, _nonnegative_number x = Ok (Some y) -> is_duration y = true) as Hdur.
  { intros x y. unfold _nonnegative_number. destruct (to_float x) as [[t|]|]; [|done..]. cbn. destruct (isfinite t && nonnegative_text t) eqn:E; [|done]. by intros [= <-]. }
  intros Hin S. unfold INTEGER_FIELDS, DURATION_FIELDS, BOOLEAN_FIELDS in Hin. cbn [app] in Hin.
  repeat (apply elem_of_cons in Hin as [->|Hin]; [cbn in S; first [injection S as S; by apply (Hint v0) | by apply (Hdur v0)
    | injection S as S; by destruct v0; try done; injection S as <-]|]). by apply not_elem_of_nil in Hin.
Qed.

(** ** The fields of a line *)

Lemma field_ok_rule key rule v : dict_get key rules = Some rule -> rule v = true -> field_ok key v = true.
Proof. unfold field_ok. by intros ->. Qed.

Section fields.
Context `{CaseMap}.

(** Everything before the typed fields. *)
Definition texts (safe : log_fields) : log_fields :=
  let safe := _sanitize_vocabularies safe in
  let safe := _sanitize_pattern_field "error_fingerprint" FINGERPRINT_PATTERN 80 "" safe in
  let safe := _sanitize_pattern_field "request_id" REQUEST_ID_PATTERN 129 "unavailable" safe in
  let safe := _sanitize_pattern_field "quarantine_id" QUARANTINE_ID_PATTERN 130 "" safe in
  let safe := _sanitize_identifier "writer_id" "writer" safe in
  let safe := fold_left (fun fields key => _sanitize_identifier key key fields) ["principal"; "token_key_id"; "bank"]%string safe in
  _sanitize_operation_fields (limit_texts (_sanitize_logger (_sanitize_scope safe))).

Lemma vocabulary_ok words other v0 v : from_option (is_text (word_of words)) true other = true -> vocabulary words other v0 = Some v -> is_text (word_of words) v = true.
Proof.
  intros Hother Hv. destruct v0 as [t| | | | |]; cbn in Hv; try by subst other.
  destruct (word_of words t) eqn:E; [by injection Hv as <-|by subst other].
Qed.

Lemma limited_ok (ok : text -> bool) n v0 v : is_text ok v0 = true -> (forall t, ok t = true -> (length t <= n)%nat) -> clean_text_limit n v0 = Some v -> is_text ok v = true.
Proof.
  intros Hok Hn. destruct v0 as [t| | | | |]; try done. intros [= <-]. cbn [is_text] in *. rewrite safe_text_short by auto. done.
Qed.

Lemma pattern_ok pattern n fallback v0 v : clean_pattern pattern n fallback v0 = Some v -> is_text pattern v = true.
Proof. unfold clean_pattern. destruct (pattern _) eqn:E; [|done]. by intros [= <-]. Qed.

Lemma identifier_ok prefix n v0 v1 v : WRITER_ID_PATTERN (u prefix) = true -> (length (u prefix) <= 100)%nat -> (1 <= n)%nat ->
  clean_identifier prefix v0 = Some v1 -> clean_text_limit n v1 = Some v -> is_text (identifier n) v = true.
Proof.
  intros Hp Hl Hn [= <-] [= <-]. cbn [is_text]. apply identifier_take; [done|]. destruct (WRITER_ID_PATTERN (safe_text v0 [] 129)) eqn:E; [done|]. by apply opaque_identifier.
Qed.

Lemma method_ok v0 v : clean_method v0 = Some v -> is_text (word_of METHODS) v = true.
Proof. destruct v0 as [t| | | | |]; cbn -[word_of]; try done. destruct (word_of METHODS (str_upper t)) eqn:E; [|done]. by intros [= <-]. Qed.

Lemma reason_ok v0 v : clean_reason v0 = Some v -> is_text (word_of REASONS) v = true.
Proof. unfold clean_reason. destruct (word_of REASONS _) eqn:E; intros [= <-]; [done|by vm_compute]. Qed.

Lemma scope_limited_ok v0 v1 v : clean_scope v0 = Some v1 -> clean_text_limit 64 v1 = Some v -> is_text (word_of SCOPE_VOCABULARY) v = true.
Proof.
  intros Hs. apply limited_ok; [|intros t; apply word_of_limit; by vm_compute].
  revert Hs. unfold clean_scope. destruct (word_of SCOPE_VOCABULARY _) eqn:E; [|done]. by intros [= <-].
Qed.

Lemma source_ok v0 v : clean_text_limit 64 v0 = Some v -> is_text (fun t => (length t <=? 64)%nat) v = true.
Proof.
  intros [= <-]. cbn [is_text]. apply Nat.leb_le. unfold safe_text. destruct (str_of v0); [rewrite length_take; lia|by vm_compute; lia].
Qed.

Lemma request_id_short t : REQUEST_ID_PATTERN t = true -> (length t <= 128)%nat.
Proof. intros [_ ?%Nat.leb_le]%andb_true_iff. done. Qed.

Lemma quarantine_id_ok v0 v1 v : clean_pattern QUARANTINE_ID_PATTERN 130 "" v0 = Some v1 -> clean_text_limit 130 v1 = Some v ->
  is_text (fun t => QUARANTINE_ID_PATTERN t && (length t <=? 130)%nat) v = true.
Proof.
  intros H1 H2. eapply limited_ok; [|by intros t [_ ?%Nat.leb_le]%andb_true_iff|exact H2].
  revert H1. unfold clean_pattern. destruct (QUARANTINE_ID_PATTERN _) eqn:E; [|done]. intros [= <-]. cbn [is_text]. rewrite E. apply Nat.leb_le.
  unfold safe_text. destruct (str_of v0); [rewrite length_take; lia|cbn; lia].
Qed.

(** A text of the vocabulary is not shortened. *)
Lemma vocabulary_limited_ok words n v0 v1 v : forallb (fun w => (length (u w) <=? n)%nat) words = true ->
  vocabulary words None v0 = Some v1 -> clean_text_limit n v1 = Some v -> is_text (word_of words) v = true.
Proof. intros Hn Hv. apply limited_ok; [by eapply vocabulary_ok, Hv|]. intros t. by apply word_of_limit. Qed.

Ltac fields_at Hg :=
  repeat first [rewrite get_update_eq in Hg | rewrite get_update_ne in Hg by discriminate | rewrite get_limited in Hg];
  repeat match type of Hg with context [dict_get ?k TEXT_LIMITS] => 
    let n := eval vm_compute in (dict_get k TEXT_LIMITS) in replace (dict_get k TEXT_LIMITS) with n in Hg by (vm_compute; reflexivity) end;
  cbn beta iota in Hg.

Ltac chain Hg := repeat match type of Hg with (_ ≫= _) = Some _ => apply bind_Some in Hg as [? [Hg ?]] end.

#[local] Strategy 1000 [update_field dict_get limit_texts].

Lemma texts_steps safe : texts safe =
  update_field "upstream_method" clean_method (update_field "request_method" clean_method (update_field "operation" (vocabulary OPERATIONS None)
  (limit_texts (update_field "logger" clean_logger (update_field "scope" clean_scope
  (update_field "bank" (clean_identifier "bank") (update_field "token_key_id" (clean_identifier "token_key_id") (update_field "principal" (clean_identifier "principal")
  (update_field "writer_id" (clean_identifier "writer") (update_field "quarantine_id" (clean_pattern QUARANTINE_ID_PATTERN 130 "")
  (update_field "request_id" (clean_pattern REQUEST_ID_PATTERN 129 "unavailable") (update_field "error_fingerprint" (clean_pattern FINGERPRINT_PATTERN 80 "")
  (update_field "admin_token_scope" (vocabulary ADMIN_TOKEN_SCOPES None) (update_field "action" (vocabulary ADMIN_ACTIONS None)
  (update_field "decision" (vocabulary DECISIONS None) (update_field "reason" clean_reason
  (update_field "outcome" (vocabulary OUTCOMES (Some (lit "failed"))) (update_field "error_kind" (vocabulary ERROR_KINDS (Some (lit "unexpected")))
  (update_field "maintenance_phase" (vocabulary MAINTENANCE_PHASES None) safe))))))))))))))))))).
Proof. reflexivity. Qed.

Definition kept (fields : log_fields) : log_fields := List.filter (fun kv => elem kv.1 SAFE_FIELDS && negb (bool_decide (kv.2 = LNone))) fields.

Lemma sanitize_stages fields : sanitize_fields fields = (typed ← _sanitize_typed_fields (texts (kept fields)); Ok (clean_route_class typed)).
Proof. reflexivity. Qed.

#[local] Strategy 0 [update_field dict_get limit_texts].

Lemma texts_ok key safe v : key ∈ SAFE_FIELDS -> key ∉ INTEGER_FIELDS ++ DURATION_FIELDS ++ BOOLEAN_FIELDS -> key <> "route_class"%string ->
  dict_get key (texts safe) = Some v -> field_ok key v = true.
Proof.
  intros Hin Ht Hr Hg. rewrite texts_steps in Hg. unfold SAFE_FIELDS in Hin.
  repeat (apply elem_of_cons in Hin as [->|Hin];
    [first [by destruct Hr | by destruct Ht; apply elem_true; vm_compute
      | fields_at Hg; chain Hg; eapply field_ok_rule; [reflexivity|];
        first [solve [eapply vocabulary_ok; [|eassumption]; by vm_compute] | by eapply reason_ok | by eapply method_ok | by eapply source_ok | by eapply pattern_ok | by eapply quarantine_id_ok
          | solve [eapply identifier_ok; [..|eassumption|eassumption]; [by vm_compute|vm_compute; lia|lia]] | solve [eapply vocabulary_limited_ok; [|eassumption..]; by vm_compute]
          | solve [eapply limited_ok; [eapply pattern_ok; eassumption|apply request_id_short|eassumption]]
          | by eapply scope_limited_ok]]|]).
  by apply not_elem_of_nil in Hin.
Qed.
(** No field is added, none is there twice. *)
Lemma update_none key k f fields : dict_get key fields = None -> dict_get key (update_field k f fields) = None.
Proof. rewrite get_update_field. case_decide as D; [subst; by intros ->|done]. Qed.

Lemma limited_none key fields : dict_get key fields = None -> dict_get key (limit_texts fields) = None.
Proof. rewrite get_limited. by intros ->; case_match. Qed.

Lemma texts_none key safe : dict_get key safe = None -> dict_get key (texts safe) = None.
Proof. intros. rewrite texts_steps. by repeat first [apply update_none | apply limited_none]. Qed.

Lemma update_nodup k f fields : NoDup (map fst fields) -> NoDup (map fst (update_field k f fields)).
Proof. intros Hnd. unfold update_field. repeat case_match; [by apply dict_set_nodup|by apply dict_pop_nodup|done]. Qed.

Lemma limited_nodup fields : NoDup (map fst fields) -> NoDup (map fst (limit_texts fields)).
Proof. unfold limit_texts. generalize TEXT_LIMITS. intros limits. revert fields. induction limits as [|kl rest IH]; intros fields; [done|]. intros Hnd. by apply IH, update_nodup. Qed.

Lemma texts_nodup safe : NoDup (map fst safe) -> NoDup (map fst (texts safe)).
Proof. intros. rewrite texts_steps. by repeat first [apply update_nodup | apply limited_nodup]. Qed.

Lemma typed_nodup keys d d' : NoDup (map fst d) -> fold_left clean_typed keys (Ok d) = Ok d' -> NoDup (map fst d').
Proof.
  revert d. induction keys as [|k keys IH]; intros d Hnd Hf; [by injection Hf as <-|]. cbn [fold_left] in Hf.
  destruct (clean_typed (Ok d) k) as [d1|e] eqn:E; [|by rewrite clean_typed_err in Hf]. apply (IH d1); [|done].
  unfold clean_typed in E. cbn in E. destruct (dict_get k d); [|by injection E as <-]. destruct (sanitize_output_field k _) as [[]|]; [..|done];
    injection E as <-; [by apply dict_set_nodup|by apply dict_pop_nodup].
Qed.

Lemma typed_fields_nodup : NoDup (INTEGER_FIELDS ++ DURATION_FIELDS ++ BOOLEAN_FIELDS).
Proof. apply (bool_decide_unpack _). by vm_compute. Qed.

Lemma typed_fields_get d d' key v : _sanitize_typed_fields d = Ok d' -> dict_get key d' = Some v -> field_ok key v = true \/
  ((key ∉ INTEGER_FIELDS ++ DURATION_FIELDS ++ BOOLEAN_FIELDS) /\ dict_get key d = Some v).
Proof.
  intros Ht Hg. destruct (typed_get _ _ _ _ _ typed_fields_nodup Ht Hg) as [[Hin [v0 Hv]]|Hx]; [left; exact (typed_ok _ _ _ Hin Hv)|by right].
Qed.

Lemma typed_fields_keep d d' : NoDup (map fst d) -> _sanitize_typed_fields d = Ok d' -> NoDup (map fst d').
Proof. apply typed_nodup. Qed.

Lemma route_class_ok key d v : dict_get key (clean_route_class d) = Some v -> (key = "route_class"%string -> False) -> dict_get key d = Some v.
Proof. unfold clean_route_class. rewrite dict_get_set. by case_decide. Qed.

Lemma route_class_rule d v : dict_get "route_class" (clean_route_class d) = Some v -> field_ok "route_class" v = true.
Proof.
  unfold clean_route_class. rewrite dict_get_set, decide_True by done. intros Hv. eapply field_ok_rule; [reflexivity|]. apply Some_inj in Hv. subst v.
  destruct (dict_get _ d) as [[t| | | | |]|]; try by vm_compute. destruct (word_of ROUTE_CLASSES t) eqn:E; [exact E|by vm_compute].
Qed.

Lemma sanitized fields d : NoDup (map fst fields) -> sanitize_fields fields = Ok d -> NoDup (map fst d) /\ (forall key v, dict_get key d = Some v -> field_ok key v = true).
Proof.
  intros Hnd Hs. rewrite sanitize_stages in Hs. assert (forall k, k ∈ map fst (kept fields) -> k ∈ SAFE_FIELDS) as Hsub.
  { intros k Hk. apply list_elem_of_In, List.in_map_iff in Hk as ([k' x] & <- & [_ [Hk%elem_true _]%andb_true_iff]%List.filter_In). done. }
  assert (NoDup (map fst (kept fields))) as Hnk by by apply filter_keys_nodup. revert Hnk Hsub Hs. generalize (kept fields) as safe. intros safe Hnk Hsub Hs.
  destruct (_sanitize_typed_fields (texts safe)) as [d1|] eqn:Ht; [|done]. injection Hs as <-.
  assert (NoDup (map fst (texts safe))) as Hnt by by apply texts_nodup. split.
  - apply dict_set_nodup. exact (typed_fields_keep _ _ Hnt Ht).
  - intros key v Hg. destruct (decide (key = "route_class"%string)) as [->|Hr]; [exact (route_class_rule _ _ Hg)|].
    apply route_class_ok in Hg; [|done]. destruct (typed_fields_get _ _ _ _ Ht Hg) as [|[Hin Hx]]; [done|].
    apply (texts_ok key safe v); [|done..]. destruct (decide (key ∈ SAFE_FIELDS)) as [|Hno]; [done|]. exfalso.
    rewrite texts_none in Hx; [done|]. apply dict_get_None. intros Hk. by apply Hno, Hsub.
Qed.
End fields.

(** ** Printing *)

Lemma fingerprint_short t : FINGERPRINT_PATTERN t = true -> (length t <= 128)%nat.
Proof.
  unfold FINGERPRINT_PATTERN. rewrite orb_true_iff. intros [Hc|[_ [Hl%Nat.eqb_eq _]%andb_true_iff]%andb_true_iff].
  - destruct t as [|c t]; [done|]. apply andb_true_iff in Hc as [_ Hl%Nat.leb_le]. cbn [length]. lia.
  - rewrite length_drop in Hl. lia.
Qed.

(** The length a text of the field may have, for every field that holds a text. *)
Definition printed_limit (key : string) : option nat :=
  match dict_get key TEXT_LIMITS with
  | Some n => Some n
  | None => if elem key ["error_kind"; "error_fingerprint"; "outcome"; "route_class"; "reason"]%string then Some 128%nat else None
  end.

Lemma printed_text key n t : printed_limit key = Some n -> negb (elem key (["maintenance_phase"; "logger"]%string ++ INTEGER_FIELDS ++ DURATION_FIELDS ++ BOOLEAN_FIELDS)) = true ->
  (length t <= n)%nat -> sanitize_output_field key (LStr t) = Ok (Some (LStr t)).
Proof.
  intros Hp [Hm Ht]%negb_true_iff%elem_false%not_elem_of_app Hn. rewrite !not_elem_of_app in Ht. destruct Ht as (Hi & Hd & Hb).
  rewrite !not_elem_of_cons in Hm. destruct Hm as (H1 & H2 & _). unfold sanitize_output_field. rewrite !bool_decide_false by done.
  unfold printed_limit in Hp. destruct (dict_get key TEXT_LIMITS); [injection Hp as ->; by rewrite safe_text_short|].
  rewrite (proj2 (elem_false _ _) Hi), (proj2 (elem_false _ _) Hd), (proj2 (elem_false _ _) Hb). destruct (elem key _); [injection Hp as <-|done].
  by rewrite safe_text_short.
Qed.

Lemma printed_by_limit key n (ok : text -> bool) v : printed_limit key = Some n ->
  negb (elem key (["maintenance_phase"; "logger"]%string ++ INTEGER_FIELDS ++ DURATION_FIELDS ++ BOOLEAN_FIELDS)) = true ->
  (forall t, ok t = true -> (length t <= n)%nat) -> is_text ok v = true -> sanitize_output_field key v = Ok (Some v).
Proof. intros Hp Hk Hn. destruct v as [t| | | | |]; try done. intros Ht. apply (printed_text key n); auto. Qed.

Lemma printed_phase v : is_text (word_of MAINTENANCE_PHASES) v = true -> sanitize_output_field "maintenance_phase" v = Ok (Some v).
Proof. destruct v; try done. intros Ht. unfold sanitize_output_field. rewrite bool_decide_true by done. cbn [is_text] in Ht. by rewrite Ht. Qed.

Lemma typed_key key v : key ∈ INTEGER_FIELDS ++ DURATION_FIELDS ->
  sanitize_output_field key v = if elem key INTEGER_FIELDS then Ok (_nonnegative_integer v) else if elem key DURATION_FIELDS then _nonnegative_number v else Ok None.
Proof.
  assert (forallb (fun k => negb (elem k ["maintenance_phase"; "logger"]%string) && bool_decide (dict_get k TEXT_LIMITS = None)) (INTEGER_FIELDS ++ DURATION_FIELDS) = true)
    as Hall by by vm_compute.
  intros Hin. rewrite forallb_forall in Hall. pose proof (proj1 (list_elem_of_In _ _) Hin) as Hk.
  apply Hall, andb_true_iff in Hk as [Hn%negb_true_iff%elem_false Ht]. apply bool_decide_eq_true in Ht. rewrite !not_elem_of_cons in Hn.
  unfold sanitize_output_field. rewrite !bool_decide_false, Ht by tauto. apply elem_of_app in Hin as [Hi|Hd]; [by rewrite (proj2 (elem_true _ _) Hi)|].
  by rewrite (proj2 (elem_true _ _) Hd).
Qed.

Lemma printed_count key v : key ∈ INTEGER_FIELDS -> is_count v = true -> sanitize_output_field key v = Ok (Some v).
Proof.
  intros Hin Hv. rewrite typed_key by (apply elem_of_app; by left). rewrite (proj2 (elem_true _ _) Hin). destruct v; try done. cbn in *. by rewrite Hv.
Qed.

Lemma printed_duration key v : elem key INTEGER_FIELDS = false -> key ∈ DURATION_FIELDS -> is_duration v = true -> sanitize_output_field key v = Ok (Some v).
Proof.
  intros Hi Hin Hv. rewrite typed_key by (apply elem_of_app; by right). rewrite Hi, (proj2 (elem_true _ _) Hin).
  destruct v; try done. unfold _nonnegative_number. cbn in *. by rewrite Hv.
Qed.

Ltac short := intros ? ?; unfold identifier in *; cbv beta in *; first [by apply request_id_short | by apply fingerprint_short
  | match goal with H : _ && _ = true |- _ => by apply andb_true_iff in H as [_ ?%Nat.leb_le] end
  | by apply Nat.leb_le | eapply word_of_limit; [|eassumption]; vm_compute; reflexivity].

(** A field that keeps to its rule is printed as it is. *)
Lemma field_printed key v : field_ok key v = true -> key ∈ OUTPUT_FIELDS /\ sanitize_output_field key v = Ok (Some v).
Proof.
  unfold field_ok. destruct (dict_get key rules) as [rule|] eqn:E; [|done]. apply dict_get_elem in E. unfold rules in E. intros Hv.
  repeat (apply elem_of_cons in E as [[= -> ->]|E]; [split; [apply elem_true; vm_compute; reflexivity|]|]).
  all: try by apply not_elem_of_nil in E.
  all: try (eapply printed_by_limit; [vm_compute; reflexivity| vm_compute; reflexivity | | exact Hv]; short).
  all: first [by apply printed_phase | by apply printed_count; [apply elem_true; vm_compute; reflexivity|] | by apply printed_duration; [vm_compute; reflexivity|apply elem_true; vm_compute; reflexivity|] | by destruct v].
Qed.

Lemma fields_printed fields : fields_ok fields = true -> safe_event fields = Ok fields.
Proof.
  induction fields as [|[key v] rest IH]; [done|]. intros [Hv Hr]%andb_true_iff. cbn [fst snd] in Hv. apply field_printed in Hv as [Hk Hv].
  cbn [safe_event]. rewrite (proj2 (elem_true _ _) Hk), Hv, (IH Hr). done.
Qed.

(** ** Lines *)

Definition well_kept (fields : log_fields) : Prop := NoDup (map fst fields) /\ (forall key v, dict_get key fields = Some v -> field_ok key v = true).

Lemma well_kept_set key v fields : field_ok key v = true -> well_kept fields -> well_kept (dict_set key v fields).
Proof.
  intros Hv [Hnd Hf]. split; [by apply dict_set_nodup|]. intros k x. rewrite dict_get_set. case_decide; [by intros [= <-]; subst|apply Hf].
Qed.

Lemma well_kept_ok fields : well_kept fields -> fields_ok fields = true.
Proof.
  intros [Hnd Hf]. apply forallb_forall. intros [k v] Hin. apply Hf. apply dict_get_nodup; [done|]. by apply list_elem_of_In.
Qed.

Definition counts_ok (st : log_state) : bool := forallb (fun kv => 0 <=? kv.2) (th_suppressed (lg_throttle st)).

Lemma counts_get (d : list (list text * Z)) key : forallb (fun kv => 0 <=? kv.2) d = true -> 0 <= default 0 (dict_get key d).
Proof.
  intros Hd. destruct (dict_get key d) as [n|] eqn:E; [|done]. apply dict_get_elem, list_elem_of_In in E. rewrite forallb_forall in Hd. by apply Z.leb_le, (Hd _ E).
Qed.

Lemma throttle_counts (key : list text) now th r th' : forallb (fun kv => 0 <=? kv.2) (th_suppressed th) = true -> throttle key now th = (r, th') ->
  forallb (fun kv => 0 <=? kv.2) (th_suppressed th') = true /\ (forall n, r = Some n -> 0 <= n).
Proof.
  intros Hd. pose proof (counts_get _ key Hd) as H0. unfold throttle. destruct (match dict_get key (th_last th) with Some _ => _ | None => _ end);
    intros [= <- <-]; (split; [cbn [th_suppressed]|intros n; first [done | by intros [= <-]]]); rewrite forallb_forall in *; intros kv Hin; apply list_elem_of_In in Hin.
  - destruct kv as [k n]. apply dict_set_elem in Hin as [[= -> ->]|Hin]; [apply Z.leb_le; cbn; lia|]. by apply Hd, list_elem_of_In.
  - apply list_elem_of_In, List.filter_In in Hin as [Hin _]. by apply Hd.
Qed.

Section lines.
Context `{CaseMap}.

Lemma sanitized_well_kept fields d : NoDup (map fst fields) -> sanitize_fields fields = Ok d -> well_kept d.
Proof. apply sanitized. Qed.

Lemma admit_event_ok now event fields st r st' : counts_ok st = true -> well_kept fields -> _admit_event now event fields st = (r, st') ->
  counts_ok st' = true /\ exists admitted, r = Ok admitted /\ (forall f, admitted = Some f -> well_kept f).
Proof.
  intros Hc Hf. unfold _admit_event. destruct (negb _); [intros [= <- <-]; split; [done|]; eexists; split; [done|]; by intros f [= <-]|].
  destruct (throttle (throttle_key event fields) now (lg_throttle st)) as [r0 th] eqn:E. apply throttle_counts in E as [Hth Hn]; [|done].
  intros [= <- <-]. split; [done|]. eexists. split; [done|]. intros f. destruct r0 as [n|]; [|done]. specialize (Hn n eq_refl).
  destruct n; intros [= <-]; try done; apply well_kept_set; first [done | by vm_compute; apply Z.leb_le].
Qed.

Lemma prepare_event_ok caller event level fields e l safe : NoDup (map fst fields) -> _prepare_event caller event level fields = Ok (e, l, safe) ->
  e ∈ EVENTS /\ well_kept safe /\ (event = lit e /\ l = level \/ e = "logging_contract_violation"%string /\ l = lit "error").
Proof.
  intros Hnd. unfold _prepare_event.
  set (known := match event with LStr t => List.find (fun e => bool_decide (u e = t)) EVENTS | _ => None end).
  assert (forall x, known = Some x -> x ∈ EVENTS /\ event = lit x) as Hknown.
  { intros x. unfold known. destruct event; try done. intros [Hin Hx]%List.find_some. apply bool_decide_eq_true in Hx. subst. split; [by apply list_elem_of_In|done]. }
  set (kept := if existsb _ fields then _ else fields). assert (NoDup (map fst kept)) as Hk by by unfold kept; case_match; [apply filter_keys_nodup|].
  generalize dependent kept. intros kept Hk.
  destruct (if existsb _ fields then _ else _) as [reason|].
  - destruct (sanitize_fields (dict_set "error_fingerprint" _ _)) as [d|] eqn:E; [|done]. intros Heq. injection Heq as <- <- <-. split_and!; [by apply elem_true; vm_compute| |by right].
    eapply sanitized_well_kept; [|exact E]. by repeat apply dict_set_nodup.
  - destruct known as [x|] eqn:Ek; [|done]. destruct (Hknown _ eq_refl) as [Hin Hev]. destruct (sanitize_fields kept) as [d|] eqn:E; [|done].
    intros Heq. injection Heq as <- <- <-. split_and!; [done| |by left]. by eapply sanitized_well_kept.
Qed.

Lemma numeric_level_known level : elem (numeric_level level) [20; 30; 40] = true.
Proof. unfold numeric_level. repeat case_match; done. Qed.

Lemma log_line_kept now caller error event level fields st r st' : NoDup (map fst fields) -> counts_ok st = true ->
  _log_event now caller error event level fields st = (r, st') ->
  counts_ok st' = true /\ forall line, r = Ok (Some line) -> well_kept (ll_fields line) /\ ll_event line ∈ EVENTS /\ elem (ll_level line) [20; 30; 40] = true
    /\ (event = lit (ll_event line) \/ ll_event line = "logging_contract_violation"%string /\ ll_level line = 40).
Proof.
  intros Hnd Hc. unfold _log_event, lift, mbind, eff_bind. destruct (_prepare_event caller event level fields) as [[[e lv] safe]|x] eqn:E; [|by intros [= <- <-]].
  apply prepare_event_ok in E as (He & Hk & Hev); [|done]. destruct (_admit_event now e safe st) as [r0 st0] eqn:A.
  apply admit_event_ok in A as (Hc0 & admitted & -> & Hf); [|done..]. destruct admitted as [f|]; [|by intros [= <- <-]].
  intros Heq. injection Heq as <- <-. split; [done|]. intros line Hl. injection Hl as <-. cbn [ll_fields ll_event ll_level].
  split_and!; [destruct error; [apply well_kept_set; [eapply field_ok_rule; [reflexivity|apply error_fingerprint_ok]|]|]; by apply Hf|done|apply numeric_level_known|].
  destruct Hev as [[-> ->]|[-> ->]]; [by left|by right].
Qed.

(** C22: Whatever level, event, error and fields a caller passes, [log_event] does
    not raise; what it hands to the logger is a line of the contract: a registered
    event (the caller's, or the report of a contract violation at level error), one
    of the three levels, fields of the contract whose values keep to their rules (a
    word of the field's vocabulary, a text of its pattern and length, a count, a
    finite duration, a flag), which printing leaves as they are. The counts of held
    back events stay nonnegative. *)
Theorem log_lines_within_contract written now caller error event level fields st r st' :
  NoDup (map fst fields) -> counts_ok st = true -> log_event written now caller error event level fields st = (r, st') ->
  counts_ok st' = true /\
  exists line, r = Ok line /\
    match line with
    | Some l => line_ok l = true /\ safe_event (ll_fields l) = Ok (ll_fields l) /\ written l = true
                /\ (event = lit (ll_event l) \/ ll_event l = "logging_contract_violation"%string /\ ll_level l = 40)
    | None => True
    end.
Proof.
  intros Hnd Hc. unfold log_event. destruct (_log_event now caller error event level fields st) as [r0 st0] eqn:E.
  assert (counts_ok st0 = true /\ forall line, r0 = Ok (Some line) -> well_kept (ll_fields line) /\ ll_event line ∈ EVENTS /\ elem (ll_level line) [20; 30; 40] = true
    /\ (event = lit (ll_event line) \/ ll_event line = "logging_contract_violation"%string /\ ll_level line = 40)) as [Hc0 Hl].
  { by apply (log_line_kept now caller error event level fields st). }
  unfold try_except. cbn -[_log_event]. unfold mbind, eff_bind. rewrite E. destruct r0 as [[l|]|e].
  - destruct (written l) eqn:W; cbn; intros [= <- <-]; (split; [done|]); (eexists; split; [done|]); [|done].
    destruct (Hl l eq_refl) as (Hk & He & Hn & Hev). pose proof (well_kept_ok _ Hk) as Hok. split_and!; [|by apply fields_printed|done|done].
    unfold line_ok. by rewrite (proj2 (elem_true _ _) He), Hn, Hok.
  - cbn. intros [= <- <-]. split; [done|]. by eexists.
  - cbn. intros [= <- <-]. split; [done|]. by eexists.
Qed.
End lines.

(** ** The throttle over time *)

Section throttle.
Context {K : Type} `{EqDecision K}.
Implicit Types (k : K) (calls : list (K * Z)).

(** The events of a run, in order: for each whether it goes through, and with which
    count. *)
Fixpoint throttle_run calls (th : throttle_state K) : list (option Z) * throttle_state K :=
  match calls with
  | [] => ([], th)
  | (k, now) :: rest => let '(r, th1) := throttle k now th in let '(rs, th2) := throttle_run rest th1 in (r :: rs, th2)
  end.

Definition held (th : throttle_state K) k : Z := default 0 (dict_get k (th_suppressed th)).

(** What becomes of the events of one key. *)
Fixpoint own k calls (rs : list (option Z)) : list (Z * option Z) :=
  match calls, rs with
  | (k', now) :: calls, r :: rs => if decide (k = k') then (now, r) :: own k calls rs else own k calls rs
  | _, _ => []
  end.

(** The reference: one key alone, with the time of its last line and the count
    since; the outcomes and the count at the end. *)
Fixpoint window (last : option Z) (n : Z) (times : list Z) : list (option Z) * Z :=
  match times with
  | [] => ([], n)
  | t :: times =>
      if match last with Some l => t - l <? LOG_THROTTLE_INTERVAL | None => false end
      then let '(rs, m) := window last (n + 1) times in (None :: rs, m)
      else let '(rs, m) := window (Some t) 0 times in (Some n :: rs, m)
  end.

Definition times_of k calls : list Z := map snd (List.filter (fun c => bool_decide (c.1 = k)) calls).

Lemma throttle_other k k' now th r th' : throttle k' now th = (r, th') -> k <> k' -> dict_get k (th_last th') = dict_get k (th_last th) /\ held th' k = held th k.
Proof.
  unfold throttle, held. intros E Hne. destruct (match dict_get k' (th_last th) with Some _ => _ | None => _ end); injection E as <- <-; cbn [th_last th_suppressed];
    rewrite ?dict_get_set, ?dict_get_pop, ?decide_False by done; done.
Qed.

(** Keys do not interfere: each fares as if it were alone. *)
Lemma throttle_run_window k calls th :
  (map snd (own k calls (throttle_run calls th).1), held (throttle_run calls th).2 k) = window (dict_get k (th_last th)) (held th k) (times_of k calls)
  /\ map fst (own k calls (throttle_run calls th).1) = times_of k calls.
Proof.
  revert th. induction calls as [|[k' now] calls IH]; intros th; [done|]. cbn [throttle_run]. destruct (throttle k' now th) as [r th1] eqn:E.
  specialize (IH th1). destruct (throttle_run calls th1) as [rs th2] eqn:R. cbn [fst snd own] in *. unfold times_of in *. cbn [List.filter fst].
  case_decide as D; [subst k'; rewrite bool_decide_true by done|rewrite bool_decide_false by congruence].
  - cbn [map snd fst window]. destruct IH as [IH ->]. split; [|done]. unfold throttle in E.
    destruct (match dict_get k (th_last th) with Some _ => _ | None => _ end); injection E as <- <-; cbn [th_last] in IH; unfold held in IH at 2; cbn [th_suppressed] in IH;
      [rewrite dict_get_set, decide_True in IH by done; cbn [from_option id] in IH|rewrite dict_get_set, dict_get_pop, !decide_True in IH by done; cbn [from_option id] in IH];
      unfold held at 2; rewrite <- IH; done.
  - apply throttle_other with (k := k) in E as [<- <-]; [|done]. exact IH.
Qed.

(** The times of the lines, each at least the interval after the one before. *)
Definition passed (outcomes : list (Z * option Z)) : list Z := map fst (List.filter (fun o => match o.2 with Some _ => true | None => false end) outcomes).

Fixpoint spaced_after (last : option Z) (times : list Z) : bool :=
  match times with
  | [] => true
  | t :: times => match last with Some l => LOG_THROTTLE_INTERVAL <=? t - l | None => true end && spaced_after (Some t) times
  end.

(** An event is held back only within the interval after the last line. *)
Fixpoint held_in_window (last : option Z) (outcomes : list (Z * option Z)) : bool :=
  match outcomes with
  | [] => true
  | (t, Some _) :: rest => held_in_window (Some t) rest
  | (t, None) :: rest => match last with Some l => t - l <? LOG_THROTTLE_INTERVAL | None => false end && held_in_window last rest
  end.

Definition reported (outcomes : list (Z * option Z)) : Z := fold_right (fun o n => default 0 o.2 + n) 0 outcomes.

Lemma window_ok outcomes last n m : (map snd outcomes, m) = window last n (map fst outcomes) ->
  spaced_after last (passed outcomes) = true /\ held_in_window last outcomes = true
  /\ n + Z.of_nat (length outcomes) = Z.of_nat (length (passed outcomes)) + reported outcomes + m.
Proof.
  revert last n. induction outcomes as [|[t o] outcomes IH]; intros last n Hw; [by injection Hw as ->; cbn; split_and!; [..|lia]|].
  cbn [map fst snd window] in Hw. destruct (match last with Some _ => _ | None => _ end) eqn:B.
  - destruct (window last (n + 1) _) as [rs m'] eqn:W. injection Hw as -> <- <-. symmetry in W. destruct (IH _ _ W) as (H1 & H2 & H3).
    unfold passed in *. cbn [List.filter snd held_in_window reported fold_right from_option id length]. rewrite B. split_and!; [done..|]. unfold reported in *. lia.
  - destruct (window (Some t) 0 _) as [rs m'] eqn:W. injection Hw as -> <- <-. symmetry in W. destruct (IH _ _ W) as (H1 & H2 & H3).
    unfold passed in *. cbn [List.filter snd held_in_window reported fold_right from_option id length map fst spaced_after].
    split_and!; [|done|unfold reported in *; lia]. apply andb_true_iff. split; [|done]. destruct last; [|done]. apply Z.leb_le. apply Z.ltb_ge in B. lia.
Qed.

(** C35: Over any sequence of events of any keys, from an empty throttle, each key by
    itself: two of its lines are at least 60 seconds apart, an event is held back
    only when a line of its key came less than 60 seconds before, and the events are
    the lines, plus those that the lines report as held back, plus those still to be
    reported: none is lost and none is counted twice. *)
Theorem throttle_exact k calls :
  let '(rs, th) := throttle_run calls (mkThrottle [] []) in
  let outcomes := own k calls rs in
  map fst outcomes = times_of k calls /\ spaced_after None (passed outcomes) = true /\ held_in_window None outcomes = true
  /\ Z.of_nat (length (times_of k calls)) = Z.of_nat (length (passed outcomes)) + reported outcomes + held th k.
Proof.
  destruct (throttle_run_window k calls (mkThrottle [] [])) as [Hw Ht]. destruct (throttle_run calls (mkThrottle [] [])) as [rs th]. cbn [fst snd] in *.
  rewrite <- Ht in Hw. apply window_ok in Hw as (H1 & H2 & H3). split_and!; [done..|]. rewrite <- Ht, length_map. cbn in H3. lia.
Qed.
End throttle.

(** ** An example *)

Module Example_log.
Definition ascii_case (f : Z -> bool) (d : Z) (t : text) : text := map (fun c => if f c then c + d else c) t.
#[local] Instance ascii : CaseMap := {| str_upper := ascii_case ascii_lower (-32); str_lower := ascii_case ascii_upper 32 |}.

(** A caller that passes a secret where an identifier is expected, an unknown
    reason, a method in lower case and a field that the contract does not have. *)
Definition fields : log_fields :=
  [("principal", lit "token of Jane Doe <jane@example.org>"); ("reason", lit "password=hunter2"); ("request_method", lit "post"); ("body", lit "hunter2");
   ("http_status", LInt 503); ("latency_ms", LFloat "nan"); ("error_kind", LNone)]%string.

Definition line : log_line :=
  mkLine 40 "request_failed"
    [("principal", LStr (u "principal:" ++ digest16 (u "token of Jane Doe <jane@example.org>"))); ("reason", lit "runtime-other"); ("request_method", lit "POST");
     ("http_status", LInt 503); ("route_class", lit "unmatched"); ("error_fingerprint", lit "ValueError")]%string.

Example log_lines_within_contract_witness :
  (log_event (fun _ => true) 0 [] (Some (mkErrorSite "ValueError" [])) (lit "request_failed") (lit "error") fields reset_log_state).1 = Ok (Some line)
  /\ line_ok line = true.
Proof.
  destruct (log_event (fun _ => true) 0 [] (Some (mkErrorSite "ValueError" [])) (lit "request_failed") (lit "error") fields reset_log_state) as [r st'] eqn:E.
  assert (r = Ok (Some line)) as -> by (apply (f_equal fst) in E; cbn [fst] in E; rewrite <- E; vm_compute; reflexivity).
  assert (NoDup (map fst fields)) as Hnd by (apply (bool_decide_unpack _); vm_compute; exact I).
  split; [done|]. destruct (log_lines_within_contract _ _ _ _ _ _ _ _ _ _ Hnd (eq_refl : counts_ok reset_log_state = true) E) as (_ & l & [= <-] & Hl & _). exact Hl.
Defined.
End Example_log.
