(* ===== verification/Probes.v ===== *)
(** * Health probes

    Models [memory_router/probes.py] and [memory_router/probes_http.py]: the state
    that decides when a change of health is logged, the cache in front of the
    probes with any number of requests at once, what a refresh answers, and what of
    it a request may see. The clock is in nanoseconds. A refresh is given by the
    probes that complete, in order, before its time is up; durations are their
    printed numbers. *)

From Stdlib Require Import ZArith Lia Ascii.
From stdpp Require Import base sets strings numbers list relations.
From S2P Require Import Prelude Errors Text Json Auth FacadeRoutes Principals PrincipalGate Repository Review Hindsight App Chars ScanEntry LogContract.

Local Open Scope Z_scope.

Definition _READINESS_FAILURE_LOG_INTERVAL : Z := seconds 60.
Definition READINESS_CACHE : Z := seconds 1.
Definition CACHE_MAX_STALENESS : Z := seconds 5.

(** ** When a change of health is logged *)

(** What a probe raises. *)
Inductive probe_error := PGateway (g : GatewayError) | PTimeout | PException.

(** A call of [log_event], without the error that only adds a fingerprint. *)
Record log_call := mkCall { lc_level : string; lc_event : string; lc_fields : log_fields }.

Record ReadinessLogState := mkReadiness {
  rd_failure_event : string; rd_recovery_event : string; rd_operation : string;
  rd_healthy : option bool; rd_last_failure_log : list (string * Z); rd_candidate : option bool; rd_consecutive : Z
}.

Definition new_readiness (failure_event recovery_event operation : string) : ReadinessLogState :=
  mkReadiness failure_event recovery_event operation None [] None 0.

Definition readiness_log_state : ReadinessLogState := new_readiness "hindsight_readiness_failed" "hindsight_readiness_recovered" "health".
Definition storage_readiness_log_state : ReadinessLogState := new_readiness "storage_readiness_failed" "storage_readiness_recovered" "storage_health".

Definition _stable_candidate (next_healthy : bool) (st : ReadinessLogState) : bool * ReadinessLogState :=
  let consecutive := if bool_decide (rd_candidate st = Some next_healthy) then rd_consecutive st + 1 else 1 in
  (2 <=? consecutive,
   mkReadiness (rd_failure_event st) (rd_recovery_event st) (rd_operation st) (rd_healthy st) (rd_last_failure_log st) (Some next_healthy) consecutive).

Definition _upstream_method (st : ReadinessLogState) : lval := if bool_decide (rd_operation st = "health"%string) then lit "GET" else LNone.

Definition set_healthy (b : bool) (last : list (string * Z)) (st : ReadinessLogState) : ReadinessLogState :=
  mkReadiness (rd_failure_event st) (rd_recovery_event st) (rd_operation st) (Some b) last (rd_candidate st) (rd_consecutive st).

Definition _record_recovery (duration_ms : string) (st : ReadinessLogState) : list log_call * ReadinessLogState :=
  (if bool_decide (rd_healthy st = Some false) then
     [mkCall "info" (rd_recovery_event st)
        [("operation", lit (rd_operation st)); ("upstream_method", _upstream_method st); ("outcome", lit "healthy");
         ("operation_duration_ms", LFloat duration_ms); ("route_class", lit "readiness")]%string]
   else [], set_healthy true (rd_last_failure_log st) st).

Definition _error_kind (e : probe_error) (st : ReadinessLogState) : string :=
  match e with
  | PGateway g => gateway_kind_text (gw_kind g)
  | PTimeout => "timeout"
  | PException => if bool_decide (rd_operation st = "storage_health"%string) then "storage" else "unexpected"
  end.

Definition _record_failure (now : Z) (e : probe_error) (duration_ms : string) (st : ReadinessLogState) : list log_call * ReadinessLogState :=
  let error_kind := _error_kind e st in
  if negb (bool_decide (rd_healthy st = Some false))
     || match dict_get error_kind (rd_last_failure_log st) with None => true | Some last => _READINESS_FAILURE_LOG_INTERVAL <=? now - last end
  then
    ([mkCall "warning" (rd_failure_event st)
        ([("operation", lit (rd_operation st)); ("upstream_method", _upstream_method st); ("error_kind", lit error_kind); ("outcome", lit "unhealthy");
          ("operation_duration_ms", LFloat duration_ms); ("route_class", lit "readiness")]%string
         ++ match e with PGateway g => [("upstream_status"%string, match gw_upstream_status g with Some s => LInt s | None => LNone end)] | _ => [] end)],
     set_healthy false (dict_set error_kind now (rd_last_failure_log st)) st)
  else ([], set_healthy false (rd_last_failure_log st) st).

Definition record (now : Z) (error : option probe_error) (duration_ms : string) (st : ReadinessLogState) : list log_call * ReadinessLogState :=
  let '(stable, st) := _stable_candidate (match error with None => true | Some _ => false end) st in
  if negb stable then ([], st)
  else match error with None => _record_recovery duration_ms st | Some e => _record_failure now e duration_ms st end.

(** ** A refresh *)

(** [timed_probe], as it completes: the value or the error, the time and the
    duration. *)
Record ProbeResult (T : Type) := mkProbe { pr_value : T + probe_error; pr_now : Z; pr_duration_ms : string }.
Arguments mkProbe {T}.
Arguments pr_value {T}.
Arguments pr_now {T}.
Arguments pr_duration_ms {T}.

Definition error_of {T} (r : ProbeResult T) : option probe_error := match pr_value r with inl _ => None | inr e => Some e end.
Definition healthy {T} (r : ProbeResult T) : bool := match pr_value r with inl _ => true | inr _ => false end.

(** The two states, and what has been logged. *)
Record probe_state := mkProbes { ps_storage : ReadinessLogState; ps_hindsight : ReadinessLogState; ps_log : list log_call }.

Definition record_storage (r : ProbeResult unit) (ps : probe_state) : probe_state :=
  let '(calls, st) := record (pr_now r) (error_of r) (pr_duration_ms r) (ps_storage ps) in mkProbes st (ps_hindsight ps) (ps_log ps ++ calls).
Definition record_hindsight (r : ProbeResult (list (string * json))) (ps : probe_state) : probe_state :=
  let '(calls, st) := record (pr_now r) (error_of r) (pr_duration_ms r) (ps_hindsight ps) in mkProbes (ps_storage ps) st (ps_log ps ++ calls).

(** What happens to the two probes that run together: both complete, in one order
    or the other, or the time is up before. *)
Inductive gathered :=
  | Both (storage_first : bool) (storage : ProbeResult unit) (hindsight : ProbeResult (list (string * json)))
  | TimedOut (storage : option (ProbeResult unit)) (hindsight : option (ProbeResult (list (string * json)))).

Definition record_gathered (g : gathered) (ps : probe_state) : probe_state :=
  match g with
  | Both true s h => record_hindsight h (record_storage s ps)
  | Both false s h => record_storage s (record_hindsight h ps)
  | TimedOut s h =>
      let ps := match s with Some s => record_storage s ps | None => ps end in
      match h with Some h => record_hindsight h ps | None => ps end
  end.

Definition orchestration_failed (error_kind : string) : log_call :=
  mkCall "warning" "readiness_orchestration_failed"
    [("operation", lit "readiness_refresh"); ("error_kind", lit error_kind); ("outcome", lit "unhealthy"); ("route_class", lit "readiness")]%string.

Definition unhealthy_response : app_response := json_response (JDict [("status", JStr "unhealthy")]) 503.

(** [refresh] of [readiness_response]; [components] tells whether the repository
    and the gateway are there. *)
Definition readiness_refresh (components : bool) (g : gathered) (ps : probe_state) : app_response * probe_state :=
  if negb components then
    (unhealthy_response, mkProbes (ps_storage ps) (ps_hindsight ps) (ps_log ps ++ [orchestration_failed "unexpected"]))
  else
    let ps := record_gathered g ps in
    match g with
    | Both _ s h =>
        (match pr_value h with inl value => if healthy s then json_response (JDict value) 200 else unhealthy_response | inr _ => unhealthy_response end, ps)
    | TimedOut _ _ => (unhealthy_response, mkProbes (ps_storage ps) (ps_hindsight ps) (ps_log ps ++ [orchestration_failed "timeout"]))
    end.

(** [hindsight_log_fields] of a failed version probe is not needed for the answer. *)
Definition version_failure (g : GatewayError) : app_response :=
  json_response (JDict (map (fun kv => (kv.1, JStr kv.2)) (err_body (gw_http g)))) (err_status (gw_http g)).

(** [refresh] of [version_response]. *)
Definition version_refresh (gateway : bool) (answer : list (string * json) + probe_error) : app_response :=
  if negb gateway then version_failure (hindsight_gateway_error KNetwork None (Some "version") (Some "GET") None (Some 503) false)
  else match answer with
  | inl payload => json_response (JDict payload) 200
  | inr PTimeout => version_failure (hindsight_gateway_error KTimeout None (Some "version") (Some "GET") None None false)
  | inr (PGateway g) => version_failure g
  | inr PException => version_failure (hindsight_gateway_error KNetwork None (Some "version") (Some "GET") None (Some 503) false)
  end.

(** ** The cache *)

Record CachedProbe := mkCached { cp_created_at : Z; cp_status_code : Z; cp_body : json }.

Definition cached_probe_response (c : CachedProbe) : app_response := json_response (cp_body c) (cp_status_code c).

Definition cached_of (now : Z) (r : app_response) : CachedProbe := mkCached now (ap_status r) (ap_payload r).

(** One call of [get]: it waits for its refresh, or it has ended. *)
Inductive get_phase :=
  | Refreshing
  | Refreshed (c : CachedProbe) (r : app_response)
  | FromCache (now : Z) (c : CachedProbe)
  | FellBack (now : Z)
  | GetRaised.

Record probe_cache := mkCache { pc_cache : option CachedProbe; pc_locked : bool; pc_now : Z; pc_calls : list get_phase }.

Definition new_cache : probe_cache := mkCache None false 0 [].

Definition fresh (now : Z) (c : CachedProbe) : bool := now - cp_created_at c <? READINESS_CACHE.
Definition usable (now : Z) (c : CachedProbe) : bool := now - cp_created_at c <=? CACHE_MAX_STALENESS.

Definition add_call (p : get_phase) (s : probe_cache) : probe_cache := mkCache (pc_cache s) (pc_locked s) (pc_now s) (pc_calls s ++ [p]).

(** [get], up to the point where it waits: taking a free lock does not wait. *)
Definition get (s : probe_cache) : probe_cache :=
  let now := pc_now s in
  let stale :=
    if pc_locked s then
      match pc_cache s with
      | Some c => if usable now c then add_call (FromCache now c) s else add_call (FellBack now) s
      | None => add_call (FellBack now) s
      end
    else
      match pc_cache s with
      | Some c => if fresh now c then add_call (FromCache now c) s else mkCache (pc_cache s) true now (pc_calls s ++ [Refreshing])
      | None => mkCache (pc_cache s) true now (pc_calls s ++ [Refreshing])
      end in
  match pc_cache s with
  | Some c => if fresh now c then add_call (FromCache now c) s else stale
  | None => stale
  end.

(** The refresh of call [i] returns, or raises. *)
Definition refreshed (i : nat) (r : app_response) (s : probe_cache) : probe_cache :=
  let c := cached_of (pc_now s) r in mkCache (Some c) false (pc_now s) (<[i := Refreshed c r]> (pc_calls s)).
Definition refresh_raised (i : nat) (s : probe_cache) : probe_cache := mkCache (pc_cache s) false (pc_now s) (<[i := GetRaised]> (pc_calls s)).

Section cache.
(** What a refresh may return. *)
Context (answers : app_response -> Prop).

Inductive cache_step (s : probe_cache) : probe_cache -> Prop :=
  | cache_time d : 0 <= d -> cache_step s (mkCache (pc_cache s) (pc_locked s) (pc_now s + d) (pc_calls s))
  | cache_get : cache_step s (get s)
  | cache_refreshed i r : pc_calls s !! i = Some Refreshing -> answers r -> cache_step s (refreshed i r s)
  | cache_raised i : pc_calls s !! i = Some Refreshing -> cache_step s (refresh_raised i s).

Definition cache_reachable (s : probe_cache) : Prop := rtc cache_step new_cache s.
End cache.

(** What the caller of an ended [get] receives. *)
Definition response_of (fallback : json) (p : get_phase) : option app_response :=
  match p with
  | Refreshing | GetRaised => None
  | Refreshed _ r => Some r
  | FromCache _ c => Some (cached_probe_response c)
  | FellBack _ => Some (json_response fallback 503)
  end.

(** ** Who sees what *)

Section response.
Context {W : Type} (router_token : option string) (allow_anonymous : bool) (resolver : option PrincipalResolver).
Context (human : option (string -> result Authentication)) (now : Z) (auth_failure_rate : string -> eff W unit) (auditor : option (string -> string -> eff W unit)).

Definition _full_readiness_authorized (rq : request) : eff W bool :=
  let authorization := req_authorization rq in
  if router_authorized authorization router_token allow_anonymous then mret true
  else match resolver with
  | None => mret false
  | Some resolver =>
      let a := default ""%string authorization in
      if negb (starts_with "Bearer mr_" a || starts_with "Bearer mrh_" a) then mret false
      else match auditor with
      | None => raise (ERuntimeError "memory-router runtime auth auditor is not initialized")
      | Some persist =>
          principal ← authenticate_principal resolver human now (auth_failure_rate "router"%string) persist authorization (req_claimed_agent rq) "readiness";
          mret (bool_decide (is_Some principal))
      end
  end.

Definition readiness_probe_response (readiness_response : eff W app_response) (rq : request) : eff W app_response :=
  response ← readiness_response;
  authorized ← _full_readiness_authorized rq;
  if authorized : bool then
    mret (if bearer_matches (req_authorization rq) router_token then with_deprecation true response else response)
  else mret (json_response (JDict [("status", JStr (if ap_status response =? 200 then "healthy" else "unhealthy"))]) (ap_status response)).
End response.

(** ** The cache, proved *)

Section cache_props.
Context (answers : app_response -> Prop).

#[local] Instance refreshing_dec (p : get_phase) : Decision (p = Refreshing).
Proof. destruct p; first [by left | by right]. Defined.

(** A refresh gave this entry. *)
Definition produced (s : probe_cache) (c : CachedProbe) : Prop := exists j r, pc_calls s !! j = Some (Refreshed c r).

Definition call_ok (s : probe_cache) (p : get_phase) : Prop :=
  match p with
  | Refreshing => pc_locked s = true
  | Refreshed c r => answers r /\ c = cached_of (cp_created_at c) r
  | FromCache now c => produced s c /\ 0 <= now - cp_created_at c <= CACHE_MAX_STALENESS
  | FellBack _ | GetRaised => True
  end.

Record cache_inv (s : probe_cache) : Prop := mkCacheInv {
  ci_calls : forall i p, pc_calls s !! i = Some p -> call_ok s p;
  ci_single : forall i j, pc_calls s !! i = Some Refreshing -> pc_calls s !! j = Some Refreshing -> i = j;
  ci_lock : pc_locked s = true -> exists i, pc_calls s !! i = Some Refreshing;
  ci_cache : forall c, pc_cache s = Some c -> produced s c /\ cp_created_at c <= pc_now s
}.

(** More calls, a later time and the end of a refresh keep what is known of a call. *)
Lemma call_ok_mono s s' p : p <> Refreshing -> (forall c, produced s c -> produced s' c) -> call_ok s p -> call_ok s' p.
Proof. intros Hp Hm. destruct p; try done. intros [? ?]. split; [by apply Hm|done]. Qed.

Lemma produced_app s s' p : pc_calls s' = pc_calls s ++ [p] -> forall c, produced s c -> produced s' c.
Proof. intros Hc c (j & r & Hj). exists j, r. rewrite Hc. by apply lookup_app_l_Some. Qed.

Lemma produced_insert s s' i p : pc_calls s !! i = Some Refreshing -> pc_calls s' = <[i := p]> (pc_calls s) -> forall c, produced s c -> produced s' c.
Proof. intros Hi Hc c (j & r & Hj). exists j, r. rewrite Hc, list_lookup_insert_ne; [done|]. intros ->. congruence. Qed.

(** An ended call is added. *)
Lemma inv_ended s p : cache_inv s -> p <> Refreshing -> call_ok s p -> cache_inv (add_call p s).
Proof.
  intros [Hc Hs Hl Hk] Hp Hok. assert (Hm : forall c, produced s c -> produced (add_call p s) c) by by eapply produced_app.
  assert (Hold : forall i, pc_calls (add_call p s) !! i = Some Refreshing -> pc_calls s !! i = Some Refreshing).
  { intros i Hi. apply lookup_app_Some in Hi as [|[_ Hi]]; [done|]. apply list_lookup_singleton_Some in Hi as [_ ->]. done. }
  split.
  - intros i q Hi. destruct (decide (q = Refreshing)) as [->|Hq]; [exact (Hc _ _ (Hold _ Hi))|]. apply (call_ok_mono s); [done..|].
    apply lookup_app_Some in Hi as [Hi|[_ Hi]]; [by eapply Hc|]. apply list_lookup_singleton_Some in Hi as [_ <-]. done.
  - intros i j Hi Hj. apply Hs; by apply Hold.
  - intros Hlk. destruct (Hl Hlk) as [i Hi]. exists i. by apply lookup_app_l_Some.
  - intros c Hcc. destruct (Hk c Hcc). split; [by apply Hm|done].
Qed.

(** A refresh starts. *)
Lemma inv_refreshing s : cache_inv s -> pc_locked s = false -> cache_inv (mkCache (pc_cache s) true (pc_now s) (pc_calls s ++ [Refreshing])).
Proof.
  intros [Hc Hs Hl Hk] Hf. set (s' := mkCache _ _ _ _). assert (Hm : forall c, produced s c -> produced s' c) by by eapply produced_app.
  assert (Hno : forall i, pc_calls s !! i <> Some Refreshing) by (intros i Hi; specialize (Hc _ _ Hi); cbn in Hc; congruence).
  assert (Hnew : forall i, pc_calls s' !! i = Some Refreshing -> i = length (pc_calls s)).
  { intros i Hi. apply lookup_app_Some in Hi as [Hi|[Hge Hi]]; [by apply Hno in Hi|]. apply list_lookup_singleton_Some in Hi as [Hz _]. lia. }
  split.
  - intros i q Hi. destruct (decide (q = Refreshing)) as [->|Hq]; [done|]. apply (call_ok_mono s); [done..|].
    apply lookup_app_Some in Hi as [Hi|[_ Hi]]; [by eapply Hc|]. apply list_lookup_singleton_Some in Hi as [_ <-]. done.
  - intros i j Hi Hj. by rewrite (Hnew i Hi), (Hnew j Hj).
  - intros _. exists (length (pc_calls s)). by apply list_lookup_middle.
  - intros c Hcc. destruct (Hk c Hcc). split; [by apply Hm|done].
Qed.

(** A refresh ends. *)
Lemma inv_finished s i p cache : cache_inv s -> pc_calls s !! i = Some Refreshing -> p <> Refreshing ->
  let s' := mkCache cache false (pc_now s) (<[i := p]> (pc_calls s)) in
  call_ok s' p -> (forall c, cache = Some c -> produced s' c /\ cp_created_at c <= pc_now s) -> cache_inv s'.
Proof.
  intros [Hc Hs Hl Hk] Hi Hp s' Hok Hcache. assert (Hm : forall c, produced s c -> produced s' c) by by eapply produced_insert.
  assert (Hno : forall j, pc_calls s' !! j <> Some Refreshing).
  { intros j Hj. cbn in Hj. destruct (decide (i = j)) as [<-|Hne].
    - rewrite list_lookup_insert_eq in Hj by by eapply lookup_lt_Some. congruence.
    - rewrite list_lookup_insert_ne in Hj by done. by apply Hne, Hs. }
  split; [|by intros j ? Hj; apply Hno in Hj|done|done].
  intros j q Hj. destruct (decide (q = Refreshing)) as [->|Hq]; [by apply Hno in Hj|]. cbn in Hj. destruct (decide (i = j)) as [<-|Hne].
  - rewrite list_lookup_insert_eq in Hj by by eapply lookup_lt_Some. by injection Hj as <-.
  - rewrite list_lookup_insert_ne in Hj by done. apply (call_ok_mono s); [done..|]. by eapply Hc.
Qed.

Lemma inv_get s : cache_inv s -> cache_inv (get s).
Proof.
  intros Hinv. unfold get.
  assert (Hfresh : forall c, pc_cache s = Some c -> usable (pc_now s) c = true -> cache_inv (add_call (FromCache (pc_now s) c) s)).
  { intros c Hc Hu. apply inv_ended; [done..|]. destruct (ci_cache _ Hinv c Hc) as [Hp Ht]. split; [done|]. apply Z.leb_le in Hu. lia. }
  assert (Hweak : forall c, fresh (pc_now s) c = true -> usable (pc_now s) c = true).
  { intros c Hf. apply Z.ltb_lt in Hf. apply Z.leb_le. unfold READINESS_CACHE, CACHE_MAX_STALENESS, seconds in *. lia. }
  destruct (pc_cache s) as [c|] eqn:Ec; [destruct (fresh (pc_now s) c) eqn:Ef; [by apply Hfresh; [|apply Hweak]|]|];
    destruct (pc_locked s) eqn:El; try (by apply inv_ended); try (rewrite <- Ec; by apply inv_refreshing).
  destruct (usable (pc_now s) c) eqn:Eu; [by apply Hfresh|by apply inv_ended].
Qed.

Lemma cache_inv_reachable s : cache_reachable answers s -> cache_inv s.
Proof.
  intros Hr. assert (cache_inv new_cache) as H0 by by split. revert H0. induction Hr as [s|s1 s2 s3 Hstep Hr IH]; [done|]. intros Hinv. apply IH. clear IH Hr s3.
  destruct Hstep as [d Hd| |i r Hi Ha|i Hi].
  - destruct Hinv as [Hc Hs Hl Hk]. split; [|done..|]; [intros i p Hi; specialize (Hc i p Hi); by destruct p|]. intros c Hcc. destruct (Hk c Hcc). split; [done|cbn; lia].
  - by apply inv_get.
  - apply inv_finished; [done..| |].
    + cbn. by split.
    + intros c [= <-]. split; [|cbn; lia]. exists i, r. cbn. apply list_lookup_insert_eq. by eapply lookup_lt_Some.
  - apply inv_finished; [done..|]. intros c Hcc. destruct (ci_cache _ Hinv c Hcc) as [Hp Ht]. split; [|done]. by eapply produced_insert.
Qed.
End cache_props.

(** ** What readiness says *)

(** The answers a refresh of the readiness probe may give. *)
Definition readiness_answer (r : app_response) : Prop := exists components g ps, r = (readiness_refresh components g ps).1.

(** In such a refresh the storage and the memory service were both found healthy,
    and this is what the service reported. *)
Definition all_healthy (value : list (string * json)) (g : gathered) : Prop :=
  exists first s h, g = Both first s h /\ pr_value s = inl tt /\ pr_value h = inl value.

Lemma readiness_refresh_cases components g ps :
  (readiness_refresh components g ps).1 = unhealthy_response
  \/ exists value, components = true /\ all_healthy value g /\ (readiness_refresh components g ps).1 = json_response (JDict value) 200.
Proof.
  unfold readiness_refresh. destruct components; [|by left]. cbn [negb]. destruct g as [first s h|s h]; [|by left]. cbn [fst].
  destruct (pr_value h) as [value|e] eqn:Eh; [|by left]. unfold healthy. destruct (pr_value s) as [[]|e] eqn:Es; [|by left].
  right. exists value. split_and!; [done| |done]. by exists first, s, h.
Qed.

(** C39: The readiness endpoint tells the truth of at most five seconds ago, and asks
    its dependencies one refresh at a time. However many requests arrive, whenever
    their refreshes end: at most one refresh runs, and it runs exactly while the
    lock is held; a request that has been answered got either 503 with the status
    unhealthy, or 200 with the health that the memory service reported in a refresh
    in which the storage was healthy too, and that refresh ended when the answer was
    made or at most five seconds before. A request that finds no
    refresh running is never sent away with the fallback. *)
Theorem readiness_answers s : cache_reachable readiness_answer s ->
  (forall i j, pc_calls s !! i = Some Refreshing -> pc_calls s !! j = Some Refreshing -> i = j)
  /\ (pc_locked s = true <-> exists i, pc_calls s !! i = Some Refreshing)
  /\ (forall i p r, pc_calls s !! i = Some p -> response_of (JDict [("status", JStr "unhealthy")]) p = Some r ->
      r = unhealthy_response \/
      exists value components g ps c, all_healthy value g /\ r = json_response (JDict value) 200
        /\ (readiness_refresh components g ps).1 = json_response (JDict value) 200 /\ produced s c
        /\ match p with FromCache now c' => c = c' /\ 0 <= now - cp_created_at c <= CACHE_MAX_STALENESS | Refreshed c' _ => c = c' | _ => False end)
  /\ (pc_locked s = false -> forall now, pc_calls (get s) !! length (pc_calls s) <> Some (FellBack now)).
Proof.
  intros Hr. pose proof (cache_inv_reachable _ _ Hr) as Hinv. split_and!.
  - apply (ci_single _ _ Hinv).
  - split; [apply (ci_lock _ _ Hinv)|]. intros [i Hi]. exact (ci_calls _ _ Hinv _ _ Hi).
  - intros i p r Hi Hp. pose proof (ci_calls _ _ Hinv _ _ Hi) as Hok. destruct p as [|c r0|now c|now|]; try done.
    + injection Hp as <-. destruct Hok as [(components & g & ps & ->) _].
      destruct (readiness_refresh_cases components g ps) as [|(value & _ & Hall & Heq)]; [by left|right].
      exists value, components, g, ps, c. split_and!; [done..| |done]. by exists i, (readiness_refresh components g ps).1.
    + injection Hp as <-. destruct Hok as [(j & r0 & Hj) Ht]. destruct (ci_calls _ _ Hinv _ _ Hj) as [(components & g & ps & ->) Hc].
      destruct (readiness_refresh_cases components g ps) as [Heq|(value & _ & Hall & Heq)]; rewrite Heq in Hc; [left; by rewrite Hc|right].
      exists value, components, g, ps, c. split_and!; [done|by rewrite Hc|done| |done|lia|lia]. by exists j, (readiness_refresh components g ps).1.
    + injection Hp as <-. by left.
  - intros Hl now. unfold get. rewrite Hl. unfold add_call. destruct (pc_cache s) as [c|]; [destruct (fresh (pc_now s) c)|]; cbn [pc_calls];
      rewrite lookup_app_r, Nat.sub_diag by done; done.
Qed.

Section seen.
Context {W : Type} (router_token : option string) (allow_anonymous : bool) (resolver : option PrincipalResolver).
Context (human : option (string -> result Authentication)) (now : Z) (auth_failure_rate : string -> eff W unit) (auditor : option (string -> string -> eff W unit)).

Definition entitled (rq : request) : Prop :=
  router_authorized (req_authorization rq) router_token allow_anonymous = true
  \/ exists res p, resolver = Some res /\ authenticate_request res human (req_authorization rq) now = Ok (AuthOk p).

(** What the endpoint shows of the answer: all of it to those who authenticate,
    else only whether it was 200. *)
Lemma readiness_seen response rq w r w' :
  readiness_probe_response router_token allow_anonymous resolver human now auth_failure_rate auditor response rq w = (Ok r, w') ->
  exists full w1, response w = (Ok full, w1) /\ ap_status r = ap_status full
    /\ (entitled rq /\ ap_payload r = ap_payload full
        \/ ap_payload r = JDict [("status", JStr (if ap_status full =? 200 then "healthy" else "unhealthy"))]).
Proof.
  unfold readiness_probe_response. intros Hrun. apply bind_ok_inv in Hrun as (full & w1 & Hfull & Hrun). apply bind_ok_inv in Hrun as (ok & w2 & Hok & Hrun).
  exists full, w1. split; [done|]. destruct ok; [|injection Hrun as <- <-; split; [done|by right]].
  assert (Hent : entitled rq).
  { unfold _full_readiness_authorized in Hok. destruct (router_authorized _ _ _) eqn:Ea; [by left|]. destruct resolver as [res|] eqn:Er; [|by injection Hok]. cbv zeta in Hok.
    destruct (negb _); [by injection Hok|]. destruct auditor as [persist|]; [|done]. apply bind_ok_inv in Hok as (p & w3 & Hp & Hok). injection Hok as Hok _.
    destruct p as [p|]; [|done]. apply authenticate_principal_ok in Hp as (_ & Hp & _). right. by exists res, p. }
  destruct (bearer_matches _ _); injection Hrun as <- <-; (split; [done|by left]).
Qed.
End seen.

(** ** What is logged of a change *)

(** One probe after the other: when, with which error. *)
Fixpoint record_run (probes : list (Z * option probe_error * string)) (st : ReadinessLogState) : list (Z * log_call) * ReadinessLogState :=
  match probes with
  | [] => ([], st)
  | (now, error, duration) :: rest =>
      let '(calls, st1) := record now error duration st in
      let '(log, st2) := record_run rest st1 in (map (pair now) calls ++ log, st2)
  end.

(** The log of outages: [current] holds when each kind of error was last logged in
    the outage that is going on. A recovery ends an outage; there is none without.
    In one outage lines of the same kind are a minute apart. *)
Fixpoint outages (failure recovery : string) (current : option (list (text * Z))) (log : list (Z * log_call)) : bool :=
  match log with
  | [] => true
  | (now, c) :: rest =>
      if bool_decide (lc_event c = failure) then
        match dict_get "error_kind" (lc_fields c) with
        | Some (LStr kind) =>
            match dict_get kind (default [] current) with Some last => _READINESS_FAILURE_LOG_INTERVAL <=? now - last | None => true end
            && outages failure recovery (Some (dict_set kind now (default [] current))) rest
        | _ => false
        end
      else bool_decide (lc_event c = recovery) && bool_decide (is_Some current) && outages failure recovery None rest
  end.

#[local] Instance u_inj : Inj (=) (=) u.
Proof.
  intros a b Hab. unfold u in Hab. rewrite <- (of_chars_chars a), <- (of_chars_chars b). f_equal. apply (list_fmap_eq_inj code_of); [|exact Hab].
  intros x y Hxy. rewrite <- (ascii_N_embedding x), <- (ascii_N_embedding y). f_equal. apply N2Z.inj. exact Hxy.
Qed.

(** The state remembers the outage. *)
Definition remembers (st : ReadinessLogState) (current : option (list (text * Z))) : Prop :=
  match current with
  | None => rd_healthy st <> Some false
  | Some l => rd_healthy st = Some false /\ (forall kind t, dict_get (u kind) l = Some t -> dict_get kind (rd_last_failure_log st) = Some t)
  end.

Lemma remembers_stable b st current : remembers st current -> remembers (_stable_candidate b st).2 current.
Proof. by destruct current. Qed.

(** One probe: nothing is logged and the outage goes on or not, or one line is. *)
Lemma record_cases now error duration st current : rd_failure_event st <> rd_recovery_event st -> remembers st current ->
  let '(calls, st') := record now error duration st in
  rd_failure_event st' = rd_failure_event st /\ rd_recovery_event st' = rd_recovery_event st
  /\ exists current', remembers st' current' /\
     (forall log, outages (rd_failure_event st) (rd_recovery_event st) current' log = true ->
        outages (rd_failure_event st) (rd_recovery_event st) current (map (pair now) calls ++ log) = true).
Proof.
  intros Hne Hrem. unfold record. destruct (_stable_candidate _ st) as [stable st1] eqn:Es.
  assert (Hrem1 : remembers st1 current) by (pose proof (remembers_stable (match error with None => true | Some _ => false end) st current Hrem) as Hs; by rewrite Es in Hs).
  assert (Hev : rd_failure_event st1 = rd_failure_event st /\ rd_recovery_event st1 = rd_recovery_event st) by (injection Es as _ <-; done).
  destruct Hev as [Hf Hv]. rewrite <- Hf, <- Hv in *. clear Es Hf Hv Hrem. destruct stable; cbn [negb]; [|split_and!; [done..|]; by exists current].
  destruct error as [e|].
  - unfold _record_failure. set (kind := _error_kind e st1).
    destruct (negb _ || _) eqn:B; (split_and!; [done..|]).
    + exists (Some (dict_set (u kind) now (default [] current))). split.
      * split; [done|]. intros k t. cbn [rd_last_failure_log set_healthy]. rewrite !dict_get_set.
        destruct (decide (k = kind)) as [->|Hk]; [by rewrite decide_True|]. rewrite decide_False by (intros Heq; by apply Hk, (inj u)).
        destruct current as [l|]; [|done]. apply Hrem1.
      * intros log Hlog. cbn [map app outages lc_event]. rewrite bool_decide_true by done. cbn [lc_fields app].
        match goal with |- context [dict_get "error_kind" ?fields] => change (dict_get "error_kind" fields) with (Some (lit kind)) end.
        unfold lit at 1. rewrite Hlog, andb_true_r. destruct current as [l|]; [|done]. cbn [default from_option id].
        destruct (dict_get (u kind) l) as [t|] eqn:G; [|done]. destruct Hrem1 as [Hh Hl]. rewrite Hh, (Hl _ _ G) in B. by rewrite bool_decide_true in B.
    + exists current. destruct current as [l|]; [|exfalso; cbn in Hrem1; rewrite bool_decide_false in B; done]. split; [|done]. by destruct Hrem1.
  - unfold _record_recovery. destruct current as [l|]; cbn in Hrem1.
    + destruct Hrem1 as [Hh _]. rewrite Hh, bool_decide_true by done. split_and!; [done..|]. exists None. split; [done|]. intros log Hlog.
      cbn [map app outages lc_event]. rewrite bool_decide_false by done. rewrite !bool_decide_true; [done|by eexists|done].
    + rewrite bool_decide_false by done. split_and!; [done..|]. by exists None.
Qed.

(** Whatever the probes find, the log tells of outages that begin with a failure and
    end with a recovery, and repeats a kind of error once a minute. *)
Lemma outages_logged probes st current : rd_failure_event st <> rd_recovery_event st -> remembers st current ->
  outages (rd_failure_event st) (rd_recovery_event st) current (record_run probes st).1 = true.
Proof.
  revert st current. induction probes as [|[[now error] duration] probes IH]; intros st current Hne Hrem; [done|]. cbn [record_run].
  pose proof (record_cases now error duration st current Hne Hrem) as Hc. destruct (record now error duration st) as [calls st1]. destruct Hc as (Hf & Hv & current' & Hrem' & Hlog).
  rewrite <- Hf, <- Hv in Hne. specialize (IH st1 current' Hne Hrem'). rewrite Hf, Hv in IH. destruct (record_run probes st1) as [log st2]. by apply Hlog.
Qed.

(** Nothing is logged of a probe that contradicts the one before: a state must be
    found twice in a row. *)
Lemma single_probe_silent now error duration st : rd_candidate st <> Some (match error with None => true | Some _ => false end) -> (record now error duration st).1 = [].
Proof. intros Hc. unfold record, _stable_candidate. rewrite bool_decide_false by done. done. Qed.

(** ** An example *)

Module Example_probes.
Definition health : list (string * json) := [("status", JStr "healthy"); ("database", JStr "connected")]%string.
Definition well : gathered := Both true (mkProbe (inl tt) 1 "0.5") (mkProbe (inl health) 2 "1.5").
Definition probes : probe_state := mkProbes storage_readiness_log_state readiness_log_state [].
Definition answer : app_response := (readiness_refresh true well probes).1.

(** A refresh; two seconds later a second one starts, and a third request comes
    while it runs. *)
Definition first_done : probe_cache := refreshed 0 answer (get new_cache).
Definition later : probe_cache := mkCache (pc_cache first_done) (pc_locked first_done) (pc_now first_done + seconds 2) (pc_calls first_done).
Definition busy : probe_cache := get (get later).

Lemma busy_reachable : cache_reachable readiness_answer busy.
Proof.
  eapply rtc_l; [apply cache_get|]. eapply rtc_l; [apply (cache_refreshed _ _ 0 answer); [reflexivity|by exists true, well, probes]|].
  eapply rtc_l; [apply (cache_time _ _ (seconds 2)); unfold seconds; lia|]. eapply rtc_l; [apply cache_get|]. eapply rtc_l; [apply cache_get|]. apply rtc_refl.
Qed.

Lemma readiness_answers_witness :
  pc_calls busy = [Refreshed (cached_of 0 answer) answer; Refreshing; FromCache (seconds 2) (cached_of 0 answer)]
  /\ (forall i j, pc_calls busy !! i = Some Refreshing -> pc_calls busy !! j = Some Refreshing -> i = j).
Proof. split; [reflexivity|]. exact (proj1 (readiness_answers busy busy_reachable)). Defined.

(** Three failures log one line, two recoveries another. *)
Example outage :
  map (fun l => lc_event l.2) (record_run [(0, Some PTimeout, "1.0"); (seconds 1, Some PTimeout, "1.0"); (seconds 2, Some PTimeout, "1.0"); (seconds 3, None, "1.0"); (seconds 4, None, "1.0")]%string
     readiness_log_state).1 = ["hindsight_readiness_failed"; "hindsight_readiness_recovered"]%string.
Proof. reflexivity. Qed.
End Example_probes.
