(* ===== verification/Database.v ===== *)
(** * The database drivers

    Models [memory_router/db.py]: database URLs, the translation of placeholders
    for PostgreSQL, the transaction of SQLite with every way it can fail, the
    creation and migration of the schema, and the opening of databases with the
    release of what was opened when something fails. What SQLite and PostgreSQL do
    with a statement is modelled on a catalog: columns, tables and indexes, of which
    PostgreSQL keeps also those that could not be built. Statements of the schema
    are represented by the table or the index they create. *)

From Stdlib Require Import ZArith Lia Ascii.
From stdpp Require Import base sets strings numbers list.
From S2P Require Import Prelude Errors Text Json Repository.

Local Open Scope Z_scope.

(** ** URLs *)

Definition SQLITE_PREFIX : string := "sqlite:".
Definition SQLITE_MEMORY_PATH : string := ":memory:".

Definition is_postgres (url : string) : bool := starts_with "postgres://" url || starts_with "postgresql://" url.

(** [resolve] is [Path.resolve] of a relative path. *)
Definition sqlite_path (resolve : string -> string) (url : string) : result string :=
  let value := str_drop (String.length SQLITE_PREFIX) url in
  if bool_decide (value = ""%string) then Err (ERuntimeError "SQLite database path is required")
  else if bool_decide (value = SQLITE_MEMORY_PATH) then Ok value
  else if starts_with "///" value then Ok ("/" +:+ str_drop 3 value)%string
  else if starts_with "/" value then Ok value
  else Ok (resolve value).

Inductive dialect := Sqlite | Postgres.

(** ** Placeholders *)

Definition is_quote (c : ascii) : bool := bool_decide (c = chr 39) || bool_decide (c = chr 34).
Definition question : ascii := chr 63.
Definition pg_placeholder : list ascii := [chr 37; chr 115].

(** [PostgresTx.sql], from the position of a character on; [active] is
    [active_quote]. *)
Fixpoint sql_chars (active : option ascii) (statement : list ascii) : option (list ascii) :=
  match statement with
  | [] => match active with None => Some [] | Some _ => None end
  | c :: rest =>
      match active with
      | Some q =>
          if bool_decide (c = q) then
            match rest with
            | [] => Some [c]
            | d :: rest' =>
                if bool_decide (d = q) then out ← sql_chars (Some q) rest'; Some (c :: q :: out)
                else out ← sql_chars None rest; Some (c :: out)
            end
          else out ← sql_chars (Some q) rest; Some (c :: out)
      | None =>
          if is_quote c then out ← sql_chars (Some c) rest; Some (c :: out)
          else if bool_decide (c = question) then out ← sql_chars None rest; Some (pg_placeholder ++ out)
          else out ← sql_chars None rest; Some (c :: out)
      end
  end.

Definition sql (statement : string) : result string :=
  match sql_chars None (chars statement) with
  | Some out => Ok (of_chars out)
  | None => Err (EValueError "unterminated SQL quoted literal")
  end.

(** ** The transaction of SQLite *)

(** What is stored, and whether the connection is there. *)
Record sqlite (D : Type) := mkSqlite { sq_data : D; sq_connected : bool }.
Arguments mkSqlite {D}.
Arguments sq_data {D}.
Arguments sq_connected {D}.

(** What fails besides the body. *)
Record tx_faults := mkFaults { tf_begin : option exn; tf_commit : option exn; tf_rollback : option exn }.

(** [_rollback_or_close]: its error becomes a cause and is not raised. *)
Definition _rollback_or_close {D} (faults : tx_faults) (s : sqlite D) : sqlite D :=
  match tf_rollback faults with None => s | Some _ => mkSqlite (sq_data s) false end.

(** [SqliteDatabase.transaction] around a body; until the commit the body works on
    data of its own. *)
Definition sqlite_transaction {D A} (faults : tx_faults) (body : eff D A) : eff (sqlite D) A := fun s =>
  if negb (sq_connected s) then (Err (ERuntimeError "database not initialized"), s)
  else
    match tf_begin faults with
    | Some e => (Err e, _rollback_or_close faults s)
    | None =>
        match body (sq_data s) with
        | (Ok a, data) => match tf_commit faults with None => (Ok a, mkSqlite data true) | Some e => (Err e, _rollback_or_close faults s) end
        | (Err e, _) => (Err e, _rollback_or_close faults s)
        end
    end.

(** ** The schema *)

Inductive ddl := TableItems | TableEvents | Index (name : string).

Definition CAPACITY_INDEXES : list string :=
  ["idx_quarantine_capacity_pending"; "idx_quarantine_capacity_writer"; "idx_quarantine_capacity_unknown"; "idx_quarantine_capacity_family";
   "idx_quarantine_capacity_bank"; "idx_quarantine_capacity_bytes"; "idx_quarantine_capacity_security"].

(** [SCHEMA] without its last part, the capacity indexes. *)
Definition BASE_SCHEMA : list ddl :=
  [TableItems; Index "idx_quarantine_items_review"; Index "idx_quarantine_items_reason"; Index "idx_quarantine_items_source_memory"; TableEvents;
   Index "idx_quarantine_events_item"; Index "idx_quarantine_events_type"; Index "idx_quarantine_items_dedupe_key"; Index "idx_quarantine_items_expires_at";
   Index "idx_quarantine_items_bank"].
Definition SCHEMA : list ddl := BASE_SCHEMA ++ map Index CAPACITY_INDEXES.

(** The columns that the statement of [quarantine_items] gives a new table. *)
Definition ITEM_COLUMNS : list string :=
  ["quarantine_id"; "created_at"; "updated_at"; "kind"; "reason"; "writer_id"; "source"; "source_bank"; "source_memory_id"; "source_content_sha256"; "dedupe_key";
   "sha256"; "encrypted_envelope"; "encrypted_bytes"; "status"; "postpone_count"; "requarantine_count"; "expires_at"; "bank_id"].

(** The columns that older tables may lack, in the order they are added. *)
Definition ADDED_COLUMNS : list string := ["dedupe_key"; "requarantine_count"; "expires_at"; "bank_id"].

(** The tables with their columns and rows, and the indexes with their validity. *)
Record catalog := mkCatalog { ct_columns : option (list string); ct_events : bool; ct_indexes : list (string * bool); ct_rows : list item }.

Definition set_columns (cols : list string) (c : catalog) : catalog := mkCatalog (Some cols) (ct_events c) (ct_indexes c) (ct_rows c).
Definition set_indexes (ix : list (string * bool)) (c : catalog) : catalog := mkCatalog (ct_columns c) (ct_events c) ix (ct_rows c).
Definition set_rows (rows : list item) (c : catalog) : catalog := mkCatalog (ct_columns c) (ct_events c) (ct_indexes c) rows.

(** [CREATE ... IF NOT EXISTS] *)
Definition create (d : ddl) (c : catalog) : catalog :=
  match d with
  | TableItems => match ct_columns c with None => set_columns ITEM_COLUMNS c | Some _ => c end
  | TableEvents => mkCatalog (ct_columns c) true (ct_indexes c) (ct_rows c)
  | Index name => match dict_get name (ct_indexes c) with None => set_indexes (ct_indexes c ++ [(name, true)]) c | Some _ => c end
  end.

Definition column_exists (name : string) (c : catalog) : bool := match ct_columns c with Some cols => elem name cols | None => false end.

Definition set_bank (i : item) : item :=
  mkItem (it_quarantine_id i) (it_created_at i) (it_updated_at i) (it_kind i) (it_reason i) (it_writer_id i) (it_source i) (it_source_bank i) (it_source_memory_id i)
    (it_source_content_sha256 i) (it_dedupe_key i) (it_sha256 i) (it_encrypted i) (it_encrypted_bytes i) (it_status i) (it_postpone_count i) (it_requarantine_count i)
    (it_expires_at i) (it_source_bank i).

Definition backfilled (i : item) : item :=
  if bool_decide (it_bank_id i = None) && bool_decide (it_kind i = "recalled_memory"%string) && bool_decide (is_Some (it_source_bank i)) then set_bank i else i.

Definition _BANK_ID_BACKFILL (c : catalog) : catalog := set_rows (map backfilled (ct_rows c)) c.

(** One column of the loop: added when it is missing. *)
Definition add_column (c : catalog) (name : string) : catalog :=
  if column_exists name c then c
  else
    let c := set_columns (default [] (ct_columns c) ++ [name]) c in
    if bool_decide (name = "bank_id"%string) then _BANK_ID_BACKFILL c else c.

(** One statement of the loop; PostgreSQL is not asked for an index it has. *)
Definition add_statement (d : dialect) (c : catalog) (st : ddl) : catalog :=
  match d, st with
  | Postgres, Index name => if bool_decide (is_Some (dict_get name (ct_indexes c))) then c else create st c
  | _, _ => create st c
  end.

Definition _initialize_schema_transaction (d : dialect) (statements : list ddl) (c : catalog) : catalog :=
  fold_left (add_statement d) (tail statements) (fold_left add_column ADDED_COLUMNS (create TableItems c)).

(** How a concurrent build of an index ends. *)
Inductive build := Built | LeftInvalid | NotStarted.

Definition drop_index (name : string) (c : catalog) : catalog := set_indexes (dict_pop name (ct_indexes c)) c.

(** One capacity index of [_initialize_postgres_schema]. *)
Definition build_index (builds : string -> build) (name : string) : eff catalog unit := fun c =>
  match dict_get name (ct_indexes c) with
  | Some true => (Ok (), c)
  | found =>
      let c := match found with Some _ => drop_index name c | None => c end in
      match builds name with
      | Built => (Ok (), set_indexes (ct_indexes c ++ [(name, true)]) c)
      | LeftInvalid => (Err (EDatabase "index build failed"), set_indexes (ct_indexes c ++ [(name, false)]) c)
      | NotStarted => (Err (EDatabase "index build failed"), c)
      end
  end.

(** The attempts at the advisory lock, each with its delay in milliseconds. *)
Fixpoint lock_attempts (delay : Z) (attempts : list bool) : option (list Z) :=
  match attempts with
  | [] => None
  | true :: _ => Some []
  | false :: rest => delays ← lock_attempts (Z.min (delay * 2) 500) rest; Some (delay :: delays)
  end.

Definition _initialize_postgres_schema (builds : string -> build) : eff catalog unit := fun c =>
  for_each (build_index builds) CAPACITY_INDEXES (_initialize_schema_transaction Postgres BASE_SCHEMA c).

Definition initialize_schema (d : dialect) (builds : string -> build) : eff catalog unit :=
  match d with
  | Postgres => _initialize_postgres_schema builds
  | Sqlite => fun c => (Ok (), _initialize_schema_transaction Sqlite SCHEMA c)
  end.

(** ** Opening and closing *)

(** What the application holds open. *)
Inductive resource := RDatabase | RRateDatabase | RSchemaConnection | RWrapProvider | RHindsight | RHumanAuth | RSweeper | RScanner.

#[export] Instance resource_eq_dec : EqDecision resource.
Proof. solve_decision. Defined.

Inductive ledger_event := Opened (r : resource) | Closed (r : resource).
Abbreviation ledger := (list ledger_event).

(** What is open after these events. A resource counts as released once its
    [close] has been called. *)
Fixpoint remove_one (r : resource) (l : list resource) : list resource :=
  match l with [] => [] | x :: l => if decide (x = r) then l else x :: remove_one r l end.

Definition after_event (l : list resource) (e : ledger_event) : list resource := match e with Opened r => r :: l | Closed r => remove_one r l end.
Definition live (t : ledger) : list resource := fold_left after_event t [].

(** The calls that may fail. *)
Inductive call :=
  | COpen (r : resource) | CInitialize (r : resource) | CClose (r : resource) | CSchema | CLimiter | CConcurrency
  | CSettings | CEnvironment | CValidate | CRecover | CHumanConfig | CHumanStore | CRegistry
  | CCancel.                             (* the task is cancelled while it waits *)

Section opening.
Context (faults : call -> option exn).

Definition attempt {S} (c : call) : eff S unit := match faults c with Some e => raise e | None => mret () end.

Definition emit (e : ledger_event) : eff ledger unit := modify (fun t => t ++ [e]).

Definition open (r : resource) : eff ledger unit := attempt (COpen r);; emit (Opened r).
Definition close (r : resource) : eff ledger unit := emit (Closed r);; attempt (CClose r).

(** [cleanup_result]: the error is returned, not raised. *)
Definition cleanup_result {S} (m : eff S unit) : eff S (option exn) := try_except (m;; mret None) (fun e => mret (Some e)).

(** [AsyncExitStack.aclose]: every callback runs, the last error is raised. *)
Fixpoint aclose (callbacks : list resource) (pending : option exn) : eff ledger unit :=
  match callbacks with
  | [] => match pending with None => mret () | Some e => raise e end
  | r :: rest => error ← cleanup_result (close r); aclose rest (match error with Some e => Some e | None => pending end)
  end.

(** [_initialize_postgres_schema], its connection. *)
Definition schema_session (d : dialect) : eff ledger unit :=
  match d with
  | Sqlite => attempt CSchema
  | Postgres =>
      open RSchemaConnection;;
      try_except (attempt CSchema) (fun e => cleanup_result (close RSchemaConnection);; raise e);;
      close RSchemaConnection
  end.

(** The database that a URL names. *)
Definition dialect_of (resolve : string -> string) (url : string) : result dialect :=
  if is_postgres url then Ok Postgres
  else if starts_with SQLITE_PREFIX url then _ ← sqlite_path resolve url; Ok Sqlite
  else Err (ERuntimeError "QUARANTINE_DATABASE_URL must use sqlite:, postgres://, or postgresql://").

Definition create_database (resolve : string -> string) (url : string) : eff ledger dialect :=
  d ← lift (dialect_of resolve url);
  try_except (open RDatabase;; attempt (CInitialize RDatabase);; schema_session d) (fun e => cleanup_result (close RDatabase);; raise e);;
  mret d.

(** The backend has a database of its own for rate limits on PostgreSQL. *)
Record Backend := mkBackend { bk_dialect : dialect; bk_rate_limit_database : bool }.

Definition create_backend (resolve : string -> string) (url : string) : eff ledger Backend :=
  d ← create_database resolve url;
  match d with
  | Sqlite => mret (mkBackend Sqlite false)
  | Postgres =>
      try_except (open RRateDatabase;; attempt (CInitialize RRateDatabase);; attempt CLimiter;; attempt CConcurrency;; mret (mkBackend Postgres true))
        (fun e => cleanup_result (aclose [RRateDatabase; RDatabase] None);; raise e)
  end.
End opening.

(** [validate_storage]; [parent_writable] and [file_writable] are the answers of
    the file system, the second [None] when there is no file. *)
Definition validate_storage (resolve : string -> string) (ping : result unit) (parent_writable : bool) (file_writable : option bool) (url : string) : result unit :=
  match ping with
  | Err _ => Err (ERuntimeError "quarantine storage is unreachable")
  | Ok _ =>
      if negb (starts_with SQLITE_PREFIX url) then Ok ()
      else
        path ← sqlite_path resolve url;
        if bool_decide (path = SQLITE_MEMORY_PATH) then Ok ()
        else if negb parent_writable || match file_writable with Some w => negb w | None => false end
        then Err (ERuntimeError "quarantine storage is not writable") else Ok ()
  end.

(** ** Placeholders, proved *)

(** A statement as it is meant: characters, placeholders and quoted literals, in
    which the quote is doubled. *)
Inductive token := Plain (c : ascii) | Placeholder | Quoted (q : ascii) (body : list ascii).

Definition token_ok (t : token) : bool :=
  match t with Plain c => negb (is_quote c) && negb (bool_decide (c = question)) | Placeholder => true | Quoted q _ => is_quote q end.

Definition escaped (q : ascii) (body : list ascii) : list ascii := concat (map (fun c => if decide (c = q) then [q; q] else [c]) body).

Definition show_token (placeholder : list ascii) (t : token) : list ascii :=
  match t with Plain c => [c] | Placeholder => placeholder | Quoted q body => q :: escaped q body ++ [q] end.

Definition show (placeholder : list ascii) (ts : list token) : list ascii := concat (map (show_token placeholder) ts).

Lemma sql_quoted q body rest out :
  sql_chars (Some q) (q :: rest) = Some (q :: out) -> sql_chars (Some q) (escaped q body ++ q :: rest) = Some (escaped q body ++ q :: out).
Proof.
  intros Hend. induction body as [|c body IH]; [done|]. unfold escaped in *. cbn [map concat]. destruct (decide (c = q)) as [->|Hc].
  - cbn [app sql_chars]. rewrite !bool_decide_true by done. by rewrite IH.
  - cbn [app sql_chars]. rewrite bool_decide_false by done. by rewrite IH.
Qed.

Lemma sql_show ts : forallb token_ok ts = true ->
  sql_chars None (show [question] ts) = Some (show pg_placeholder ts)
  /\ forall q, is_quote q = true -> sql_chars (Some q) (q :: show [question] ts) = Some (q :: show pg_placeholder ts).
Proof.
  induction ts as [|t ts IH]; [intros _; split; [done|]; intros q _; cbn; by rewrite bool_decide_true|].
  intros [Ht Hts]%andb_true_iff. destruct (IH Hts) as [H1 H2]. unfold show in *. cbn [map concat].
  assert (Hnone : sql_chars None (show_token [question] t ++ concat (map (show_token [question]) ts)) = Some (show_token pg_placeholder t ++ concat (map (show_token pg_placeholder) ts))).
  { destruct t as [c| |q body]; cbn [show_token app sql_chars token_ok] in *.
    - apply andb_true_iff in Ht as [Hq%negb_true_iff Hm%negb_true_iff]. by rewrite Hq, Hm, H1.
    - replace (is_quote question) with false by (vm_compute; reflexivity). rewrite bool_decide_true by done. by rewrite H1.
    - rewrite Ht, <- app_assoc. cbn [app]. rewrite (sql_quoted q body _ (concat (map (show_token pg_placeholder) ts))) by by apply H2. cbn. by rewrite <- app_assoc. }
  split; [done|]. intros q Hq. cbn [sql_chars]. rewrite bool_decide_true by done.
  destruct (show_token [question] t ++ concat (map (show_token [question]) ts)) as [|d rest] eqn:E; [exfalso; by destruct t|].
  destruct (decide (d = q)) as [->|Hd]; [rewrite bool_decide_true by done|rewrite bool_decide_false by done; by rewrite Hnone].
  destruct t as [c| |q' body]; cbn [show_token app token_ok] in *.
  - injection E as -> _. by rewrite Hq in Ht.
  - injection E as <- _. by vm_compute in Hq.
  - injection E as -> <-. rewrite <- app_assoc. cbn [app]. rewrite (sql_quoted q body _ (concat (map (show_token pg_placeholder) ts))) by by apply H2. cbn. by rewrite <- app_assoc.
Qed.

Lemma sql_tokens n statement : (length statement <= n)%nat ->
  (forall out, sql_chars None statement = Some out -> exists ts, forallb token_ok ts = true /\ statement = show [question] ts /\ out = show pg_placeholder ts)
  /\ (forall q out, is_quote q = true -> sql_chars (Some q) statement = Some out ->
      exists body ts, forallb token_ok ts = true /\ statement = escaped q body ++ q :: show [question] ts /\ out = escaped q body ++ q :: show pg_placeholder ts).
Proof.
  revert statement. induction n as [|n IH]; intros [|c rest] Hlen; cbn [length] in Hlen; try lia;
    try (split; [intros out [= <-]; by exists []|done]).
  destruct (IH rest) as [IH1 IH2]; [lia|]. split.
  - intros out. cbn [sql_chars]. destruct (is_quote c) eqn:Eq; [|destruct (bool_decide (c = question)) eqn:Em]; intros (o & Ho & [= <-])%bind_Some.
    + destruct (IH2 _ _ Eq Ho) as (body & ts & Hok & -> & ->). exists (Quoted c body :: ts). unfold show. cbn [map concat show_token forallb token_ok].
      rewrite Eq. split_and!; [done|by cbn; rewrite <- app_assoc..].
    + destruct (IH1 _ Ho) as (ts & Hok & -> & ->). apply bool_decide_eq_true in Em. subst c. by exists (Placeholder :: ts).
    + destruct (IH1 _ Ho) as (ts & Hok & -> & ->). exists (Plain c :: ts). cbn [forallb token_ok]. by rewrite Eq, Em.
  - intros q out Hq. cbn [sql_chars]. destruct (bool_decide (c = q)) eqn:Ec.
    + apply bool_decide_eq_true in Ec. subst c. destruct rest as [|d rest']; [intros [= <-]; by exists [], []|].
      destruct (bool_decide (d = q)) eqn:Ed; intros (o & Ho & [= <-])%bind_Some.
      * apply bool_decide_eq_true in Ed. subst d. destruct (IH rest') as [_ IH2']; [cbn in Hlen; lia|]. destruct (IH2' _ _ Hq Ho) as (body & ts & Hok & -> & ->).
        exists (q :: body), ts. unfold escaped. cbn [map concat]. by rewrite decide_True.
      * destruct (IH1 _ Ho) as (ts & Hok & -> & ->). by exists [], ts.
    + intros (o & Ho & [= <-])%bind_Some. destruct (IH2 _ _ Hq Ho) as (body & ts & Hok & -> & ->). apply bool_decide_eq_false in Ec.
      exists (c :: body), ts. unfold escaped. cbn [map concat]. by rewrite decide_False.
Qed.

(** Exactly the question marks outside quoted literals become placeholders; the
    rest of a statement stays, and a statement is refused only when a literal is
    not closed. *)
Lemma sql_exact statement out : sql statement = Ok out <->
  exists ts, forallb token_ok ts = true /\ statement = of_chars (show [question] ts) /\ out = of_chars (show pg_placeholder ts).
Proof.
  unfold sql. split.
  - destruct (sql_chars None (chars statement)) as [o|] eqn:E; [|done]. intros [= <-]. apply (sql_tokens _ _ (Nat.le_refl _)) in E as (ts & Hok & Hs & ->).
    exists ts. split_and!; [done| |done]. by rewrite <- Hs, of_chars_chars.
  - intros (ts & Hok & -> & ->). rewrite chars_of_chars. by rewrite (proj1 (sql_show ts Hok)).
Qed.

(** ** Transactions, proved *)

(** A transaction of SQLite is one of [Errors.v], whatever fails: it returns with
    what the body did, or it raises and has changed nothing. When even the rollback
    fails the connection is gone and no later transaction runs on what was left. *)
Lemma sqlite_transaction_refines {D A} faults (body : eff D A) s r s' : sqlite_transaction faults body s = (r, s') ->
  match r with
  | Ok a => transaction body (sq_data s) = (Ok a, sq_data s') /\ sq_connected s = true /\ sq_connected s' = true
  | Err _ => sq_data s' = sq_data s
             /\ (tf_rollback faults <> None -> forall faults' (body' : eff D A), exists e, sqlite_transaction faults' body' s' = (Err e, s'))
  end.
Proof.
  unfold sqlite_transaction. destruct (sq_connected s) eqn:Ec; cbn [negb].
  - assert (Herr : forall e, (Err e, _rollback_or_close faults s) = (r, s') -> match r with Ok _ => False | Err _ => sq_data s' = sq_data s
      /\ (tf_rollback faults <> None -> forall faults' (body' : eff D A), exists e, (if negb (sq_connected s') then (Err (ERuntimeError "database not initialized"), s') else
           match tf_begin faults' with Some e => (Err e, _rollback_or_close faults' s') | None => match body' (sq_data s') with
           | (Ok a, data) => match tf_commit faults' with None => (Ok a, mkSqlite data true) | Some e => (Err e, _rollback_or_close faults' s') end
           | (Err e, _) => (Err e, _rollback_or_close faults' s') end end) = (Err e, s')) end).
    { intros e [= <- <-]. unfold _rollback_or_close. destruct (tf_rollback faults); [|done]. split; [done|]. intros _ ? ?. cbn. by eexists. }
    destruct (tf_begin faults) as [e|]; [intros Hr; specialize (Herr _ Hr); by destruct r|]. unfold transaction.
    destruct (body (sq_data s)) as [[a|e] data]; [|intros Hr; specialize (Herr _ Hr); by destruct r].
    destruct (tf_commit faults) as [e|]; [intros Hr; specialize (Herr _ Hr); by destruct r|]. by intros [= <- <-].
  - intros [= <- <-]. split; [done|]. intros _ faults' body'. rewrite Ec. by eexists.
Qed.

(** ** The schema, proved *)

Definition has (st : ddl) (c : catalog) : bool :=
  match st with TableItems => bool_decide (is_Some (ct_columns c)) | TableEvents => ct_events c | Index name => bool_decide (is_Some (dict_get name (ct_indexes c))) end.

Lemma dict_get_snoc {V} k k' (v : V) (d : list (string * V)) : dict_get k d = None -> dict_get k' (d ++ [(k, v)]) = if decide (k' = k) then Some v else dict_get k' d.
Proof.
  induction d as [|[k1 v1] d IH]; cbn; [by case_decide|]. destruct (decide (k = k1)); [done|]. intros Hd. destruct (decide (k' = k1)); [by rewrite decide_False by congruence|by apply IH].
Qed.

Lemma create_has st c : has st (create st c) = true.
Proof.
  destruct st as [| |name]; cbn [create has].
  - destruct (ct_columns c) eqn:E; [by rewrite E|done].
  - done.
  - destruct (dict_get name (ct_indexes c)) eqn:E; [by rewrite E|]. cbn. rewrite dict_get_snoc by done. by rewrite decide_True.
Qed.

Lemma create_keeps st st' c : has st' c = true -> has st' (create st c) = true.
Proof.
  intros Hh. destruct st as [| |name]; cbn [create].
  - destruct (ct_columns c) eqn:E; [done|]. by destruct st'.
  - by destruct st'.
  - destruct (dict_get name (ct_indexes c)) eqn:E; [done|]. destruct st' as [| |name']; [done..|]. cbn [has ct_indexes set_indexes] in *.
    rewrite dict_get_snoc by done. by case_decide.
Qed.

Lemma create_same st c : has st c = true -> create st c = c.
Proof.
  destruct st as [| |name]; cbn [create has]; intros Hh; [apply bool_decide_eq_true in Hh as [? ->]; done| |apply bool_decide_eq_true in Hh as [? ->]; done].
  destruct c as [cols ev ix rows]. cbn in *. by rewrite Hh.
Qed.

Lemma add_statement_create d c st : add_statement d c st = create st c.
Proof. destruct d, st as [| |name]; try done. cbn [add_statement]. case_bool_decide as Hb; [|done]. symmetry. apply create_same. by apply bool_decide_eq_true. Qed.

Lemma statements_fold d sts c st : st ∈ sts \/ has st c = true -> has st (fold_left (add_statement d) sts c) = true.
Proof.
  revert c. induction sts as [|x sts IH]; intros c; cbn [fold_left]; [intros [Hin%elem_of_nil|]; done|]. rewrite add_statement_create.
  intros [[->|Hin]%elem_of_cons|Hh]; apply IH; [right; apply create_has|by left|right; by apply create_keeps].
Qed.

Lemma statements_same d sts c : (forall st, st ∈ sts -> has st c = true) -> fold_left (add_statement d) sts c = c.
Proof.
  induction sts as [|x sts IH]; [done|]. intros Hall. cbn [fold_left]. rewrite add_statement_create, create_same by (apply Hall; by left). apply IH.
  intros st Hst. apply Hall. by right.
Qed.

(** What is not an item table keeps columns and rows. *)
Lemma statements_columns d sts c : is_Some (ct_columns c) -> ct_columns (fold_left (add_statement d) sts c) = ct_columns c /\ ct_rows (fold_left (add_statement d) sts c) = ct_rows c.
Proof.
  revert c. induction sts as [|x sts IH]; intros c [cols Hc]; [done|]. cbn [fold_left]. rewrite add_statement_create.
  assert (ct_columns (create x c) = ct_columns c /\ ct_rows (create x c) = ct_rows c) as [H1 H2] by (destruct x; cbn [create]; rewrite ?Hc; try done; by case_match).
  destruct (IH (create x c)) as [IH1 IH2]; [rewrite H1; by exists cols|]. by rewrite IH1, IH2, H1, H2.
Qed.

Lemma add_column_has c name : column_exists name (add_column c name) = true.
Proof.
  unfold add_column. destruct (column_exists name c) eqn:E; [done|]. case_bool_decide; cbn; apply elem_true, elem_of_app; right; by left.
Qed.

Lemma add_column_keeps c name name' : column_exists name' c = true -> column_exists name' (add_column c name) = true.
Proof.
  unfold add_column. destruct (column_exists name c) eqn:E; [done|]. unfold column_exists. intros Hc. destruct (ct_columns c) as [cols|] eqn:Ec; [|done].
  case_bool_decide; cbn; apply elem_true, elem_of_app; left; by apply elem_true.
Qed.

Lemma columns_fold names c name : name ∈ names \/ column_exists name c = true -> column_exists name (fold_left add_column names c) = true.
Proof.
  revert c. induction names as [|x names IH]; intros c; cbn [fold_left]; [intros [Hin%elem_of_nil|]; done|].
  intros [[->|Hin]%elem_of_cons|Hh]; apply IH; [right; apply add_column_has|by left|right; by apply add_column_keeps].
Qed.

Lemma columns_same names c : (forall name, name ∈ names -> column_exists name c = true) -> fold_left add_column names c = c.
Proof.
  induction names as [|x names IH]; [done|]. intros Hall. cbn [fold_left]. unfold add_column at 2. rewrite (Hall x) by by left. apply IH. intros n Hn. apply Hall. by right.
Qed.

(** The rows: backfilled exactly when the column comes with this run. *)
Lemma columns_rows names c : NoDup names ->
  ct_rows (fold_left add_column names c) = if elem "bank_id"%string names && negb (column_exists "bank_id" c) then map backfilled (ct_rows c) else ct_rows c.
Proof.
  revert c. induction names as [|x names IH]; intros c Hnd; [done|]. apply NoDup_cons in Hnd as [Hx Hnd]. cbn [fold_left]. rewrite (IH _ Hnd).
  assert (Helem : elem "bank_id"%string (x :: names) = bool_decide (x = "bank_id"%string) || elem "bank_id"%string names).
  { apply Bool.eq_iff_eq_true. rewrite orb_true_iff, !elem_true, elem_of_cons, bool_decide_eq_true. intuition congruence. }
  rewrite Helem. unfold add_column. destruct (decide (x = "bank_id"%string)) as [->|Hne].
  - rewrite !bool_decide_true by done. rewrite (proj2 (elem_false _ _) Hx). cbn [orb andb]. by destruct (column_exists "bank_id" c).
  - rewrite !bool_decide_false by done. cbn [orb]. destruct (column_exists x c) eqn:E; [done|]. cbn [ct_rows set_columns].
    assert (column_exists "bank_id" (set_columns (default [] (ct_columns c) ++ [x]) c) = column_exists "bank_id" c) as ->; [|done].
    unfold column_exists. cbn. destruct (ct_columns c) as [cols|]; cbn [default from_option id]; apply Bool.eq_iff_eq_true;
      rewrite ?elem_true, ?elem_of_app, ?list_elem_of_singleton, ?elem_of_nil; intuition congruence.
Qed.

Lemma build_index_cases builds name c r c' : build_index builds name c = (r, c') ->
  ct_columns c' = ct_columns c /\ ct_events c' = ct_events c /\ ct_rows c' = ct_rows c
  /\ (forall n, n <> name -> dict_get n (ct_indexes c') = dict_get n (ct_indexes c))
  /\ (is_ok r = true -> dict_get name (ct_indexes c') = Some true) /\ (builds name = Built -> is_ok r = true)
  /\ (dict_get name (ct_indexes c) = Some true -> r = Ok () /\ c' = c).
Proof.
  unfold build_index. set (c1 := match dict_get name (ct_indexes c) with Some _ => drop_index name c | None => c end).
  assert (H1 : dict_get name (ct_indexes c1) = None) by (unfold c1; destruct (dict_get name (ct_indexes c)) eqn:E; [|done]; cbn; rewrite dict_get_pop; by rewrite decide_True).
  assert (H2 : forall n, n <> name -> dict_get n (ct_indexes c1) = dict_get n (ct_indexes c)).
  { intros n Hn. unfold c1. destruct (dict_get name (ct_indexes c)); [|done]. cbn. rewrite dict_get_pop. by rewrite decide_False. }
  assert (H3 : ct_columns c1 = ct_columns c /\ ct_events c1 = ct_events c /\ ct_rows c1 = ct_rows c) by (unfold c1; by case_match).
  destruct H3 as (H3 & H4 & H5).
  assert (Hmain : dict_get name (ct_indexes c) <> Some true ->
    match builds name with
    | Built => (Ok (), set_indexes (ct_indexes c1 ++ [(name, true)]) c1)
    | LeftInvalid => (Err (EDatabase "index build failed"), set_indexes (ct_indexes c1 ++ [(name, false)]) c1)
    | NotStarted => (Err (EDatabase "index build failed"), c1)
    end = (r, c') -> ct_columns c' = ct_columns c /\ ct_events c' = ct_events c /\ ct_rows c' = ct_rows c
    /\ (forall n, n <> name -> dict_get n (ct_indexes c') = dict_get n (ct_indexes c))
    /\ (is_ok r = true -> dict_get name (ct_indexes c') = Some true) /\ (builds name = Built -> is_ok r = true)
    /\ (dict_get name (ct_indexes c) = Some true -> r = Ok () /\ c' = c)).
  { intros Hn. destruct (builds name); intros [= <- <-]; cbn [ct_columns ct_events ct_rows ct_indexes set_indexes is_ok]; split_and!; try done;
      intros; rewrite ?dict_get_snoc by done; try case_decide; try done; by apply H2. }
  destruct (dict_get name (ct_indexes c)) as [[|]|] eqn:E; [intros [= <- <-]; by split_and!|by apply Hmain..].
Qed.

Lemma build_indexes builds names c r c' : NoDup names -> for_each (build_index builds) names c = (r, c') ->
  ct_columns c' = ct_columns c /\ ct_events c' = ct_events c /\ ct_rows c' = ct_rows c
  /\ (forall n, n ∉ names -> dict_get n (ct_indexes c') = dict_get n (ct_indexes c))
  /\ (is_ok r = true -> forall n, n ∈ names -> dict_get n (ct_indexes c') = Some true) /\ ((forall n, builds n = Built) -> is_ok r = true).
Proof.
  revert c. induction names as [|x names IH]; intros c Hnd; cbn [for_each].
  { intros [= <- <-]. split_and!; try done. intros _ n Hn. by apply elem_of_nil in Hn. }
  apply NoDup_cons in Hnd as [Hx Hnd]. unfold mbind, eff_bind. destruct (build_index builds x c) as [r1 c1] eqn:E. apply build_index_cases in E as (C1 & C2 & C3 & C4 & C5 & C6 & _).
  destruct r1 as [[]|e].
  - intros Hr. destruct (IH c1 Hnd Hr) as (D1 & D2 & D3 & D4 & D5 & D6). split_and!; [congruence..| | |done].
    + intros n [Hne Hn]%not_elem_of_cons. rewrite D4, C4 by done. done.
    + intros Hok n [->|Hn]%elem_of_cons; [|by apply D5]. rewrite D4 by done. by apply C5.
  - intros [= <- <-]. split_and!; try done; [|by intros Hall; specialize (C6 (Hall x))]. intros n [Hne Hn]%not_elem_of_cons. by apply C4.
Qed.

(** The part of the schema that both databases share. *)
Lemma schema_transaction d sts c : let c' := _initialize_schema_transaction d sts c in
  (forall name, name ∈ ADDED_COLUMNS -> column_exists name c' = true) /\ (forall st, st ∈ tail sts -> has st c' = true)
  /\ (forall name, column_exists name c = true -> column_exists name c' = true)
  /\ ct_rows c' = (if bool_decide (is_Some (ct_columns c)) && negb (column_exists "bank_id" c) then map backfilled (ct_rows c) else ct_rows c).
Proof.
  unfold _initialize_schema_transaction. cbv zeta. set (c1 := create TableItems c). set (c2 := fold_left add_column ADDED_COLUMNS c1).
  assert (Hc2 : forall name, name ∈ ADDED_COLUMNS -> column_exists name c2 = true) by (intros name Hn; apply columns_fold; by left).
  assert (Hsome : is_Some (ct_columns c2)).
  { specialize (Hc2 "bank_id"%string). unfold column_exists in Hc2. destruct (ct_columns c2); [by eexists|]. exfalso. by specialize (Hc2 ltac:(by apply elem_true)). }
  destruct (statements_columns d (tail sts) c2 Hsome) as [Hcols Hrows].
  assert (Hexists : forall name, column_exists name (fold_left (add_statement d) (tail sts) c2) = column_exists name c2) by (intros name; unfold column_exists; by rewrite Hcols).
  split_and!.
  - intros name Hn. rewrite Hexists. by apply Hc2.
  - intros st Hst. apply statements_fold. by left.
  - intros name Hn. rewrite Hexists. apply columns_fold. right. unfold c1. unfold create, column_exists in *. by destruct (ct_columns c) eqn:E; rewrite ?E.
  - rewrite Hrows. unfold c2. rewrite columns_rows by (apply (bool_decide_unpack _); by vm_compute). change (elem "bank_id"%string ADDED_COLUMNS) with true. cbn [andb].
    unfold c1, create. destruct (ct_columns c) as [cols|] eqn:E; [by rewrite (bool_decide_true (is_Some _)) by by eexists|].
    rewrite (bool_decide_false (is_Some _)) by by intros [? ?]. done.
Qed.

(** Everything is there. *)
Definition ready (d : dialect) (c : catalog) : Prop :=
  (forall name, name ∈ ADDED_COLUMNS -> column_exists name c = true) /\ (forall st, st ∈ SCHEMA -> has st c = true)
  /\ (d = Postgres -> forall name, name ∈ CAPACITY_INDEXES -> dict_get name (ct_indexes c) = Some true).

Lemma has_items c : column_exists "bank_id" c = true -> has TableItems c = true.
Proof. unfold column_exists, has. destruct (ct_columns c); [|done]. intros _. apply bool_decide_eq_true. by eexists. Qed.

Lemma ready_same d builds c : ready d c -> initialize_schema d builds c = (Ok (), c).
Proof.
  intros (Hcol & Hst & Hix).
  assert (Hsame : forall d sts, (forall st, st ∈ sts -> st ∈ SCHEMA) -> _initialize_schema_transaction d sts c = c).
  { intros d' sts Hsub. unfold _initialize_schema_transaction. rewrite create_same by (apply has_items, Hcol; by apply elem_true). rewrite columns_same by done.
    apply statements_same. intros st Hin. apply Hst, Hsub. destruct sts; [by apply elem_of_nil in Hin|by right]. }
  destruct d; cbn [initialize_schema]; [by rewrite Hsame|]. unfold _initialize_postgres_schema. rewrite Hsame by (intros st Hin; unfold SCHEMA; apply elem_of_app; by left).
  specialize (Hix eq_refl). revert Hix. generalize CAPACITY_INDEXES. intros names. induction names as [|x names IH]; intros Hix; [done|].
  cbn [for_each]. unfold mbind, eff_bind. destruct (build_index builds x c) as [r1 c1] eqn:E. apply build_index_cases in E as (_ & _ & _ & _ & _ & _ & Hid).
  destruct (Hid (Hix x ltac:(by left))) as [-> ->]. apply IH. intros n Hn. apply Hix. by right.
Qed.

(** The capacity indexes, after the rest. *)
Lemma builds_ready builds c1 r c' : (forall name, name ∈ ADDED_COLUMNS -> column_exists name c1 = true) -> (forall st, st ∈ tail BASE_SCHEMA -> has st c1 = true) ->
  for_each (build_index builds) CAPACITY_INDEXES c1 = (r, c') ->
  ct_columns c' = ct_columns c1 /\ ct_rows c' = ct_rows c1 /\ (is_ok r = true -> ready Postgres c') /\ ((forall name, builds name = Built) -> is_ok r = true).
Proof.
  intros H1 H2 Hi. apply build_indexes in Hi as (C1 & C2 & C3 & C4 & C5 & C6); [|apply (bool_decide_unpack _); by vm_compute].
  assert (Hcol : forall name, column_exists name c' = column_exists name c1) by (intros; unfold column_exists; by rewrite C1).
  split_and!; [done..| |done]. intros Hok. specialize (C5 Hok). split_and!; [intros; rewrite Hcol; by apply H1| |done].
  intros st [Hst|Hst]%elem_of_app.
  - apply elem_of_cons in Hst as [->|Hst]; [apply has_items; rewrite Hcol; apply H1; by apply elem_true|]. specialize (H2 st Hst). destruct st as [| |name]; cbn [has] in *.
    + by rewrite C1.
    + by rewrite C2.
    + destruct (decide (name ∈ CAPACITY_INDEXES)) as [Hin|Hin]; [by rewrite (C5 _ Hin)|]. by rewrite C4.
  - apply list_elem_of_In, List.in_map_iff in Hst as (name & <- & Hn). cbn [has]. by rewrite (C5 name) by by apply list_elem_of_In.
Qed.

Lemma sqlite_ready c' : (forall name, name ∈ ADDED_COLUMNS -> column_exists name c' = true) -> (forall st, st ∈ tail SCHEMA -> has st c' = true) -> ready Sqlite c'.
Proof.
  intros H1 H2. split_and!; [done| |done]. intros st [->|Hst]%elem_of_cons; [|by apply H2]. apply has_items, H1. by apply elem_true.
Qed.

#[local] Strategy 1000 [_initialize_schema_transaction build_index for_each].

(** The schema is brought up to date from any older state. When the initialization
    returns, every table, column and index is there, on PostgreSQL every capacity
    index is valid even if an earlier build left an invalid one behind, and a second
    initialization changes nothing. It returns unless an index cannot be built, and
    in either case no column is lost and the rows are those from before, with the
    bank of recalled memories filled in exactly when the column is new. *)
Lemma schema_up_to_date d builds c r c' : initialize_schema d builds c = (r, c') ->
  (forall name, column_exists name c = true -> column_exists name c' = true)
  /\ ct_rows c' = (if bool_decide (is_Some (ct_columns c)) && negb (column_exists "bank_id" c) then map backfilled (ct_rows c) else ct_rows c)
  /\ (is_ok r = true -> ready d c' /\ forall builds', initialize_schema d builds' c' = (Ok (), c'))
  /\ ((forall name, builds name = Built) \/ d = Sqlite -> is_ok r = true).
Proof.
  intros Hi. enough ((forall name, column_exists name c = true -> column_exists name c' = true)
    /\ ct_rows c' = (if bool_decide (is_Some (ct_columns c)) && negb (column_exists "bank_id" c) then map backfilled (ct_rows c) else ct_rows c)
    /\ (is_ok r = true -> ready d c') /\ ((forall name, builds name = Built) \/ d = Sqlite -> is_ok r = true)) as (H1 & H2 & H3 & H4).
  { split_and!; [done..| |done]. intros Hok. split; [by apply H3|]. intros. by apply ready_same, H3. }
  destruct d; cbn [initialize_schema] in Hi.
  - injection Hi as <- <-. pose proof (schema_transaction Sqlite SCHEMA c) as Hst. cbv zeta in Hst. revert Hst. generalize (_initialize_schema_transaction Sqlite SCHEMA c) as c'.
    intros c' (H1 & H2 & H3 & H4). split_and!; [done..| |done]. intros _. by apply sqlite_ready.
  - unfold _initialize_postgres_schema in Hi. pose proof (schema_transaction Postgres BASE_SCHEMA c) as Hst. cbv zeta in Hst. revert Hst Hi.
    generalize (_initialize_schema_transaction Postgres BASE_SCHEMA c) as c1. intros c1 (H1 & H2 & H3 & H4) Hi. apply builds_ready in Hi as (C1 & C2 & C3 & C4); [|done..].
    split_and!; [|by rewrite C2|done|by intros [Hb|]; [apply C4|]]. intros name Hn. unfold column_exists. rewrite C1. by apply H3.
Qed.

(** ** Nothing stays open *)

Lemma live_snoc t e : live (t ++ [e]) = after_event (live t) e.
Proof. unfold live. by rewrite fold_left_app. Qed.

Lemma remove_one_notin r l : r ∉ l -> remove_one r l = l.
Proof. induction l as [|x l IH]; [done|]. intros [Hne Hl]%not_elem_of_cons. cbn. rewrite decide_False by done. by rewrite IH. Qed.

Lemma remove_one_head r l : remove_one r (r :: l) = l.
Proof. cbn. by rewrite decide_True. Qed.

Section nothing_open.
Context (faults : call -> option exn).

Lemma attempt_run {S} c (s : S) : attempt faults c s = (match faults c with Some e => Err e | None => Ok () end, s).
Proof. unfold attempt. by destruct (faults c). Qed.

Lemma open_run r t : open faults r t = match faults (COpen r) with Some e => (Err e, t) | None => (Ok (), t ++ [Opened r]) end.
Proof. unfold open, mbind, eff_bind. rewrite attempt_run. by destruct (faults (COpen r)). Qed.

Lemma close_run r t : close faults r t = (match faults (CClose r) with Some e => Err e | None => Ok () end, t ++ [Closed r]).
Proof. unfold close, mbind, eff_bind. cbn. by rewrite attempt_run. Qed.

Lemma cleanup_run {S} (m : eff S unit) s : cleanup_result m s = (Ok (match (m s).1 with Err e => Some e | Ok _ => None end), (m s).2).
Proof. unfold cleanup_result, try_except, mbind, eff_bind. destruct (m s) as [[[]|e] s']; done. Qed.

(** Every callback runs, in order. *)
Lemma aclose_ledger rs pending t : (aclose faults rs pending t).2 = t ++ map Closed rs.
Proof.
  revert pending t. induction rs as [|r rs IH]; intros pending t; cbn [aclose map]; [rewrite app_nil_r; by destruct pending|].
  unfold mbind, eff_bind. rewrite cleanup_run, close_run. cbn [fst snd]. rewrite IH, <- app_assoc. done.
Qed.

Lemma schema_session_ledger d t r t' : RSchemaConnection ∉ live t -> schema_session faults d t = (r, t') -> live t' = live t.
Proof.
  intros Hno. destruct d; cbn [schema_session]; [rewrite attempt_run; by intros [= _ <-]|]. unfold mbind, eff_bind. rewrite open_run.
  destruct (faults (COpen RSchemaConnection)); [by intros [= _ <-]|]. unfold try_except. rewrite attempt_run.
  destruct (faults CSchema); [rewrite cleanup_run|]; rewrite close_run; cbn; intros [= _ <-]; rewrite !live_snoc; cbn [after_event]; apply remove_one_head.
Qed.

Lemma create_database_ledger resolve url t r t' : RDatabase ∉ live t -> RSchemaConnection ∉ live t -> create_database faults resolve url t = (r, t') ->
  live t' = if is_ok r then RDatabase :: live t else live t.
Proof.
  intros Hdb Hsc. unfold create_database, lift. unfold mbind at 1, eff_bind at 1. destruct (dialect_of resolve url) as [d|e]; [|by intros [= <- <-]].
  unfold try_except, mbind, eff_bind. rewrite open_run. destruct (faults (COpen RDatabase)).
  { rewrite cleanup_run, close_run. cbn. intros [= <- <-]. rewrite live_snoc. cbn. by apply remove_one_notin. }
  rewrite attempt_run. destruct (faults (CInitialize RDatabase)).
  { rewrite cleanup_run, close_run. cbn. intros [= <- <-]. rewrite !live_snoc. apply remove_one_head. }
  destruct (schema_session faults d (t ++ [Opened RDatabase])) as [[[]|e] t1] eqn:Es; apply schema_session_ledger in Es; rewrite ?live_snoc in *; cbn [after_event] in *;
    try (by rewrite not_elem_of_cons).
  - cbn. intros [= <- <-]. done.
  - rewrite cleanup_run, close_run. cbn. intros [= <- <-]. rewrite live_snoc, Es. apply remove_one_head.
Qed.

Definition backend_resources (b : Backend) : list resource := (if bk_rate_limit_database b then [RRateDatabase] else []) ++ [RDatabase].

(** A backend comes with its databases open, and when it cannot be made nothing
    that was opened for it stays open, whatever else fails. *)
Lemma create_backend_ledger resolve url t r t' : RDatabase ∉ live t -> RRateDatabase ∉ live t -> RSchemaConnection ∉ live t -> create_backend faults resolve url t = (r, t') ->
  live t' = match r with Ok b => backend_resources b ++ live t | Err _ => live t end.
Proof.
  intros Hdb Hrd Hsc. unfold create_backend. unfold mbind at 1, eff_bind at 1. destruct (create_database faults resolve url t) as [[d|e] t1] eqn:E;
    apply create_database_ledger in E; try done; cbn [is_ok] in E; [|by intros [= <- <-]].
  destruct d; [intros [= <- <-]; done|]. unfold try_except, mbind, eff_bind. rewrite open_run.
  assert (Hfail : forall t2 e, live t2 = RRateDatabase :: RDatabase :: live t \/ live t2 = RDatabase :: live t ->
    (let (r0, s') := cleanup_result (aclose faults [RRateDatabase; RDatabase] None) t2 in match r0 with Ok _ => raise e s' | Err e0 => (Err e0, s') end) = (r, t') ->
    live t' = match r with Ok b => backend_resources b ++ live t | Err _ => live t end).
  { intros t2 e Hl. rewrite cleanup_run, aclose_ledger. cbn [map]. intros [= <- <-]. change [Closed RRateDatabase; Closed RDatabase] with ([Closed RRateDatabase] ++ [Closed RDatabase]).
    rewrite app_assoc, !live_snoc. cbn [after_event]. destruct Hl as [-> | ->]; [by rewrite !remove_one_head|].
    rewrite (remove_one_notin RRateDatabase) by by rewrite not_elem_of_cons. by rewrite remove_one_head. }
  destruct (faults (COpen RRateDatabase)); [intros Hr; eapply Hfail; [|exact Hr]; by right|].
  assert (Hopen : live (t1 ++ [Opened RRateDatabase]) = RRateDatabase :: RDatabase :: live t) by (rewrite live_snoc, E; done).
  rewrite !attempt_run. destruct (faults (CInitialize RRateDatabase)); [intros Hr; eapply Hfail; [|exact Hr]; by left|].
  destruct (faults CLimiter); [intros Hr; eapply Hfail; [|exact Hr]; by left|].
  destruct (faults CConcurrency); [intros Hr; eapply Hfail; [|exact Hr]; by left|]. intros [= <- <-]. exact Hopen.
Qed.
End nothing_open.
