(* ===== verification/Lifecycle.v ===== *)
(** * Starting and stopping the application

    Models [memory_router/lifecycle.py] and the lifecycle of
    [memory_router/app.py]: [Runtime.start], [Runtime.stop] and [lifespan]. The
    runtime is the record of the components that are set; every call that can fail
    fails when [faults] says so, cancellation included. [start] and [stop] hold a
    lock, so each is one step. What a start opens from the settings is the record
    [start_settings], and the limits and tokens it passes on are functions of them;
    components that hold nothing open are set without a trace. *)

From Stdlib Require Import ZArith Lia.
From stdpp Require Import base sets strings numbers list relations.
From S2P Require Import Prelude Errors Text Json Auth Repository Review Limits QuarantineStore Urls Config Database.

Local Open Scope Z_scope.

(** ** The runtime *)

Record runtime_state := mkRuntimeState {
  rs_database : bool; rs_rate_limit_database : bool; rs_repository : bool; rs_hindsight : bool; rs_wrap_provider : bool;
  rs_policy : bool; rs_admin : bool; rs_auditor : bool; rs_sweeper : bool; rs_human_auth : bool
}.

#[export] Instance runtime_state_eq_dec : EqDecision runtime_state.
Proof. solve_decision. Defined.

Definition empty_runtime : runtime_state := mkRuntimeState false false false false false false false false false false.

(** The runtime, what is open, and the events that are logged. *)
Record app_world := mkWorld { aw_runtime : runtime_state; aw_ledger : ledger; aw_log : list string }.

Definition new_world : app_world := mkWorld empty_runtime [] [].

Definition set_runtime (f : runtime_state -> runtime_state) : eff app_world unit := modify (fun w => mkWorld (f (aw_runtime w)) (aw_ledger w) (aw_log w)).
Definition log (event : string) : eff app_world unit := modify (fun w => mkWorld (aw_runtime w) (aw_ledger w) (aw_log w ++ [event])).

Definition on_ledger {A} (m : eff ledger A) : eff app_world A := fun w => let '(r, t) := m (aw_ledger w) in (r, mkWorld (aw_runtime w) t (aw_log w)).

(** ** What a start takes from the settings *)

(** What decides which components are opened. *)
Record start_settings := mkStart { ss_database_url : string; ss_human_auth : bool; ss_sidecar : bool; ss_sweep_interval : Z }.

Definition start_settings_of (s : settings) : start_settings :=
  mkStart (get_text s "QUARANTINE_DATABASE_URL") (has_text s "MEMORY_ROUTER_HUMAN_AUTH") (bool_decide (get_text s "QUARANTINE_WRAP_PROVIDER" = "https-sidecar"%string))
    (get_int s "QUARANTINE_SWEEP_INTERVAL_SECONDS").

(** [_apply_request_settings], without the registry of principals. *)
Record request_settings := mkRequestSettings {
  rq_max_body_bytes : Z; rq_router_token : option string; rq_allow_anonymous : bool; rq_metrics_enabled : bool; rq_principals : option string; rq_admin_tokens : admin_tokens;
  rq_admin_read_max : Z; rq_admin_write_max : Z; rq_admin_window : Z; rq_auth_failure_max : Z; rq_auth_failure_window : Z
}.

Definition _apply_request_settings (s : settings) : request_settings :=
  mkRequestSettings (get_int s "MEMORY_ROUTER_MAX_BODY_BYTES") (secret_value s "MEMORY_ROUTER_TOKEN") (get_bool s "MEMORY_ROUTER_ALLOW_ANONYMOUS") (get_bool s "MEMORY_ROUTER_METRICS_ENABLED")
    (if has_text s "MEMORY_ROUTER_PRINCIPALS" then Some (get_text s "MEMORY_ROUTER_PRINCIPALS") else None)
    [("legacy", secret_value s "MEMORY_ROUTER_ADMIN_TOKEN"); ("read", secret_value s "MEMORY_ROUTER_ADMIN_READ_TOKEN"); ("review", secret_value s "MEMORY_ROUTER_ADMIN_REVIEW_TOKEN");
     ("cleanup", secret_value s "MEMORY_ROUTER_ADMIN_CLEANUP_TOKEN")]%string
    (get_int s "MEMORY_ROUTER_ADMIN_RATE_LIMIT_READ_MAX") (get_int s "MEMORY_ROUTER_ADMIN_RATE_LIMIT_WRITE_MAX") (get_int s "MEMORY_ROUTER_ADMIN_RATE_LIMIT_WINDOW_MS")
    (get_int s "MEMORY_ROUTER_AUTH_FAILURE_RATE_LIMIT_MAX") (get_int s "MEMORY_ROUTER_AUTH_FAILURE_RATE_LIMIT_WINDOW_MS").

Definition review_stale_seconds (s : settings) : Z := Z.max REVIEW_STALE_SECONDS ((get_int s "HINDSIGHT_TIMEOUT_MS" + 999) / 1000 + 30).

Definition quarantine_limits (s : settings) : QuarantineLimits :=
  mkQuarantineLimits (get_int s "QUARANTINE_MAX_ITEM_BYTES") (get_int s "QUARANTINE_MAX_PENDING_ITEMS") (get_int s "QUARANTINE_MAX_PENDING_ITEMS_PER_WRITER")
    (get_int s "QUARANTINE_MAX_PENDING_ITEMS_PER_BANK") (get_int s "QUARANTINE_MAX_ENCRYPTED_BYTES") (get_int s "QUARANTINE_RATE_LIMIT_MAX")
    (get_int s "QUARANTINE_RATE_LIMIT_WINDOW_MS") (get_int s "QUARANTINE_RATE_LIMIT_GLOBAL_MAX") (get_int s "QUARANTINE_DISTINCT_FAMILY_LIMIT_MAX")
    (get_int s "QUARANTINE_REQUARANTINE_OPS_MAX") (get_int s "QUARANTINE_ITEM_TTL_DAYS").

Definition hindsight_limit_config (s : settings) : HindsightLimitConfig :=
  mkHindsightLimitConfig (get_int s "HINDSIGHT_RETAIN_RATE_LIMIT_WRITER_MAX") (get_int s "HINDSIGHT_RETAIN_RATE_LIMIT_GLOBAL_MAX")
    (get_int s "HINDSIGHT_RECALL_RATE_LIMIT_WRITER_MAX") (get_int s "HINDSIGHT_RECALL_RATE_LIMIT_GLOBAL_MAX") (get_int s "HINDSIGHT_RATE_LIMIT_WINDOW_MS")
    (get_int s "HINDSIGHT_RETAIN_MAX_ITEMS") (get_int s "HINDSIGHT_RETAIN_MAX_CONTENT_BYTES") (get_int s "HINDSIGHT_RECALL_MAX_QUERY_BYTES") (get_int s "HINDSIGHT_RECALL_MAX_TOKENS").

Lemma loaded_int `{UrlSyntax} env url s alias lo hi default_ : load_settings env url = Ok s -> mkField alias (FInt lo hi) default_ ∈ RouterSettings -> lo <= get_int s alias.
Proof.
  intros Hs Hf. destruct (loaded_typed _ _ _ _ Hs Hf) as (v & Hv & Hok). cbn [f_alias f_kind] in *. unfold get_int. rewrite Hv. destruct v; try done. by destruct Hok.
Qed.

Ltac setting := eapply loaded_int; [eassumption|]; unfold RouterSettings; repeat (apply elem_of_cons; (left; reflexivity) || right).

(** The limits of a started router: every window and every limit on requests is
    positive, the limits of the quarantine are not negative, and a review claim
    outlives by thirty seconds the longest request to the memory service. *)
Lemma settings_wired `{UrlSyntax} env url s : load_settings env url = Ok s ->
  Forall (fun n => 1 <= n) [retain_writer_max (hindsight_limit_config s); retain_global_max (hindsight_limit_config s); recall_writer_max (hindsight_limit_config s);
    recall_global_max (hindsight_limit_config s); rate_limit_window_ms (hindsight_limit_config s); max_retain_items (hindsight_limit_config s);
    rq_max_body_bytes (_apply_request_settings s); rq_admin_read_max (_apply_request_settings s); rq_admin_write_max (_apply_request_settings s);
    rq_admin_window (_apply_request_settings s); rq_auth_failure_max (_apply_request_settings s); rq_auth_failure_window (_apply_request_settings s); ql_max_item_bytes (quarantine_limits s)]
  /\ Forall (fun n => 0 <= n) [ql_max_pending_items (quarantine_limits s); ql_max_pending_items_per_writer (quarantine_limits s); ql_max_pending_items_per_bank (quarantine_limits s);
    ql_max_encrypted_bytes (quarantine_limits s); ql_rate_limit_max (quarantine_limits s); ql_item_ttl_days (quarantine_limits s)]
  /\ REVIEW_STALE_SECONDS <= review_stale_seconds s /\ get_int s "HINDSIGHT_TIMEOUT_MS" + 30000 <= 1000 * review_stale_seconds s.
Proof.
  intros Hs. split_and!.
  - repeat apply List.Forall_cons; try apply List.Forall_nil; cbn; setting.
  - repeat apply List.Forall_cons; try apply List.Forall_nil; cbn; setting.
  - unfold review_stale_seconds. lia.
  - unfold review_stale_seconds. pose proof (Z.div_mod (get_int s "HINDSIGHT_TIMEOUT_MS" + 999) 1000 ltac:(lia)).
    pose proof (Z.mod_pos_bound (get_int s "HINDSIGHT_TIMEOUT_MS" + 999) 1000 ltac:(lia)). lia.
Qed.

Section lifecycle.
Context (resolve : string -> string) (faults : call -> option exn).

(** [finish_before_cancelling]: the operation ends in any case; a cancellation
    meanwhile is raised after it. *)
Definition finish_before_cancelling {S A} (m : eff S A) : eff S A := fun s =>
  let '(r, s) := m s in match faults CCancel with Some e => (Err e, s) | None => (r, s) end.

Definition _start (settings : start_settings) : eff app_world unit :=
  attempt faults CSettings;;
  attempt faults CEnvironment;;
  backend ← on_ledger (create_backend faults resolve (ss_database_url settings));
  set_runtime (fun rt => mkRuntimeState true (bk_rate_limit_database backend) true (rs_hindsight rt) (rs_wrap_provider rt) (rs_policy rt) (rs_admin rt) (rs_auditor rt) (rs_sweeper rt) (rs_human_auth rt));;
  attempt faults CValidate;;
  attempt faults CRecover;;
  (if ss_human_auth settings then
     attempt faults CHumanConfig;;
     attempt faults CHumanStore;;
     on_ledger (open faults RHumanAuth);;
     set_runtime (fun rt => mkRuntimeState (rs_database rt) (rs_rate_limit_database rt) (rs_repository rt) (rs_hindsight rt) (rs_wrap_provider rt) (rs_policy rt) (rs_admin rt) (rs_auditor rt) (rs_sweeper rt) true)
   else mret ());;
  (if ss_sidecar settings then
     on_ledger (open faults RWrapProvider);;
     set_runtime (fun rt => mkRuntimeState (rs_database rt) (rs_rate_limit_database rt) (rs_repository rt) (rs_hindsight rt) true (rs_policy rt) (rs_admin rt) (rs_auditor rt) (rs_sweeper rt) (rs_human_auth rt))
   else mret ());;
  on_ledger (open faults RHindsight);;
  set_runtime (fun rt => mkRuntimeState (rs_database rt) (rs_rate_limit_database rt) (rs_repository rt) true (rs_wrap_provider rt) (rs_policy rt) (rs_admin rt) (rs_auditor rt) (rs_sweeper rt) (rs_human_auth rt));;
  attempt faults CRegistry;;
  set_runtime (fun rt => mkRuntimeState (rs_database rt) (rs_rate_limit_database rt) (rs_repository rt) (rs_hindsight rt) (rs_wrap_provider rt) true true true (rs_sweeper rt) (rs_human_auth rt));;
  if 0 <? ss_sweep_interval settings then
    on_ledger (open faults RSweeper);;
    set_runtime (fun rt => mkRuntimeState (rs_database rt) (rs_rate_limit_database rt) (rs_repository rt) (rs_hindsight rt) (rs_wrap_provider rt) (rs_policy rt) (rs_admin rt) (rs_auditor rt) true (rs_human_auth rt))
  else mret ().

(** The callbacks that [_close] pushes, the last first. *)
Definition callbacks (rt : runtime_state) : list resource :=
  (if rs_sweeper rt then [RSweeper] else []) ++ (if rs_human_auth rt then [RHumanAuth] else []) ++ (if rs_hindsight rt then [RHindsight] else [])
  ++ (if rs_wrap_provider rt then [RWrapProvider] else []) ++ (if rs_rate_limit_database rt then [RRateDatabase] else [])
  ++ (if rs_repository rt then [RDatabase] else if rs_database rt then [RDatabase] else []).

Definition clear : eff app_world unit := set_runtime (fun _ => empty_runtime).

Definition _close : eff app_world unit :=
  w ← get_state;
  try_except (finish_before_cancelling (on_ledger (aclose faults (callbacks (aw_runtime w)) None))) (fun e => clear;; raise e);;
  clear.

Definition start (settings : start_settings) : eff app_world unit :=
  w ← get_state;
  if rs_database (aw_runtime w) then raise (ERuntimeError "memory-router runtime is already started")
  else try_except (_start settings) (fun e => cleanup_result _close;; raise e).

Definition stop : eff app_world unit := _close.

(** ** The application *)

Definition start_scanner : eff app_world unit := on_ledger (emit (Opened RScanner);; attempt faults (CInitialize RScanner)).
Definition shutdown_scanner : eff app_world unit := on_ledger (close faults RScanner).

Definition _run_startup_cleanup (m : eff app_world unit) : eff app_world unit :=
  error ← cleanup_result m;
  match error with Some _ => log "application_stop_failed" | None => mret () end.

(** [finally] runs last, and its error replaces the one before. *)
Definition _stop_runtime (reraise : bool) : eff app_world unit := fun w =>
  match stop w with
  | (Ok _, w) => shutdown_scanner w
  | (Err e, w) =>
      match (log "application_stop_failed";; shutdown_scanner) w with
      | (Err e', w) => (Err e', w)
      | (Ok _, w) => (if reraise then Err e else Ok (), w)
      end
  end.

(** [lifespan]; [served] is how serving requests ends. *)
Definition lifespan (settings : start_settings) (served : result unit) : eff app_world unit := fun w =>
  match start settings w with
  | (Err e, w) => (log "application_start_failed";; raise e) w
  | (Ok _, w) =>
      match finish_before_cancelling start_scanner w with
      | (Err e, w) => (_run_startup_cleanup shutdown_scanner;; _run_startup_cleanup stop;; log "application_start_failed";; raise e) w
      | (Ok _, w) =>
          (log "application_started";;
           match served with
           | Err e => _stop_runtime false;; raise e
           | Ok _ => _stop_runtime true
           end) w
      end
  end.
End lifecycle.

(** ** Nothing is left behind *)

Lemma remove_one_perm r l rs : l ≡ₚ r :: rs -> remove_one r l ≡ₚ rs.
Proof.
  revert rs. induction l as [|x l IH]; intros rs Hp; [by apply Permutation_nil_cons in Hp|]. cbn. destruct (decide (x = r)) as [->|Hne]; [by apply Permutation_cons_inv in Hp|].
  assert (r ∈ l) as (l1 & l2 & ->)%list_elem_of_split.
  { assert (r ∈ x :: l) as [->|]%elem_of_cons by (rewrite Hp; by left); done. }
  rewrite (IH (l1 ++ l2)) by by rewrite Permutation_middle. apply (Permutation_cons_inv (a := r)). rewrite <- Hp, <- Permutation_middle. apply Permutation_swap.
Qed.

Lemma live_closed rs extra t : live t ≡ₚ rs ++ extra -> live (t ++ map Closed rs) ≡ₚ extra.
Proof.
  revert t. induction rs as [|r rs IH]; intros t Hl; cbn [map]; [by rewrite app_nil_r|]. change (Closed r :: map Closed rs) with ([Closed r] ++ map Closed rs).
  rewrite app_assoc. apply IH. rewrite live_snoc. cbn [after_event]. by apply remove_one_perm.
Qed.

Section nothing_left.
Context (resolve : string -> string) (faults : call -> option exn).

(** What the runtime holds is open, and what is open besides is [extra]. *)
Definition accounted (extra : list resource) (w : app_world) : Prop := live (aw_ledger w) ≡ₚ callbacks (aw_runtime w) ++ extra.

Definition emptied (extra : list resource) (w : app_world) : Prop := aw_runtime w = empty_runtime /\ live (aw_ledger w) ≡ₚ extra.

(** Closing empties the runtime and releases all it holds, whatever fails. *)
Lemma close_empties extra w : accounted extra w -> emptied extra (_close faults w).2.
Proof.
  intros Ha. unfold _close. unfold mbind, eff_bind. cbn [get_state]. unfold try_except, finish_before_cancelling, on_ledger.
  pose proof (aclose_ledger faults (callbacks (aw_runtime w)) None (aw_ledger w)) as Hl. destruct (aclose faults _ None (aw_ledger w)) as [r t]. cbn [snd] in Hl. subst t.
  assert (He : live (aw_ledger w ++ map Closed (callbacks (aw_runtime w))) ≡ₚ extra) by by apply live_closed.
  destruct (faults CCancel); [by split|]. destruct r; by split.
Qed.

Lemma open_accounted r w extra : accounted extra w -> forall res w', on_ledger (open faults r) w = (res, w') ->
  aw_runtime w' = aw_runtime w /\ live (aw_ledger w') ≡ₚ (if is_ok res then [r] else []) ++ callbacks (aw_runtime w) ++ extra.
Proof.
  intros Ha res w'. unfold on_ledger. rewrite open_run. destruct (faults (COpen r)); intros [= <- <-]; cbn [aw_runtime aw_ledger is_ok]; [done|]. split; [done|]. rewrite live_snoc. cbn [after_event app]. by rewrite Ha.
Qed.

(** A step of [_start]: whether it goes on or fails, all is accounted for. *)
Definition sound (m : eff app_world unit) (P Q : runtime_state -> Prop) : Prop :=
  forall w, accounted [] w -> P (aw_runtime w) -> let '(r, w') := m w in accounted [] w' /\ (is_ok r = true -> Q (aw_runtime w')).

Lemma sound_bind m1 m2 P Q R : sound m1 P Q -> sound m2 Q R -> sound (m1;; m2) P R.
Proof.
  intros H1 H2 w Ha HP. unfold mbind, eff_bind. specialize (H1 w Ha HP). destruct (m1 w) as [[[]|e] w1]; [|by destruct H1]. destruct H1 as [Ha1 HQ]. by apply H2, HQ.
Qed.

Lemma sound_attempt c P : sound (attempt faults c) P P.
Proof. intros w Ha HP. rewrite attempt_run. by destruct (faults c). Qed.

Lemma sound_if (b : bool) m1 m2 P Q : sound m1 P Q -> sound m2 P Q -> sound (if b then m1 else m2) P Q.
Proof. by destruct b. Qed.

(** Opening a resource and setting its component. *)
Lemma sound_open r f (P Q : runtime_state -> Prop) : (forall rt, P rt -> Q (f rt) /\ callbacks (f rt) ≡ₚ r :: callbacks rt) ->
  sound (on_ledger (open faults r);; set_runtime f) P Q.
Proof.
  intros Hf w Ha HP. unfold mbind, eff_bind. destruct (on_ledger (open faults r) w) as [res w1] eqn:E. apply (open_accounted r w [] Ha) in E as [Hrt Hl].
  destruct (Hf _ HP) as [HQ Hc]. destruct res as [[]|e]; cbn [is_ok app] in Hl.
  - unfold set_runtime, modify, accounted. cbn [aw_runtime aw_ledger]. rewrite Hrt. split; [|done]. rewrite Hl, Hc. by rewrite !app_nil_r.
  - split; [|done]. unfold accounted. by rewrite Hrt, Hl.
Qed.

Lemma sound_set f (P Q : runtime_state -> Prop) : (forall rt, P rt -> Q (f rt) /\ callbacks (f rt) = callbacks rt) -> sound (set_runtime f) P Q.
Proof. intros Hf w Ha HP. cbn. destruct (Hf _ HP) as [HQ Hc]. split; [|done]. unfold accounted in *. cbn. by rewrite Hc. Qed.

Lemma sound_ret P : sound (mret ()) P P.
Proof. intros w Ha HP. by split. Qed.

Lemma sound_assoc (m1 m2 m3 : eff app_world unit) P R : sound ((m1;; m2);; m3) P R -> sound (m1;; (m2;; m3)) P R.
Proof.
  intros Hs w Ha HP. specialize (Hs w Ha HP). unfold mbind, eff_bind in *. by destruct (m1 w) as [[[]|e] w1].
Qed.

(** The backend is there, the rest is not yet. *)
Definition with_backend (rt : runtime_state) : Prop := rs_database rt = true /\ rs_human_auth rt = false /\ rs_wrap_provider rt = false /\ rs_hindsight rt = false /\ rs_sweeper rt = false.
Definition with_human (rt : runtime_state) : Prop := rs_database rt = true /\ rs_wrap_provider rt = false /\ rs_hindsight rt = false /\ rs_sweeper rt = false.
Definition with_provider (rt : runtime_state) : Prop := rs_database rt = true /\ rs_hindsight rt = false /\ rs_sweeper rt = false.
Definition with_hindsight (rt : runtime_state) : Prop := rs_database rt = true /\ rs_sweeper rt = false.
Definition running (rt : runtime_state) : Prop := rs_database rt = true.

Lemma sound_backend url m R : sound m with_backend R ->
  sound (backend ← on_ledger (create_backend faults resolve url);
    set_runtime (fun rt => mkRuntimeState true (bk_rate_limit_database backend) true (rs_hindsight rt) (rs_wrap_provider rt) (rs_policy rt) (rs_admin rt) (rs_auditor rt) (rs_sweeper rt) (rs_human_auth rt));;
    m) (fun rt => rt = empty_runtime) R.
Proof.
  intros Hm w Ha HP. unfold accounted in Ha. rewrite HP in Ha. apply Permutation_nil_r in Ha. unfold mbind at 1, eff_bind at 1. unfold on_ledger.
  destruct (create_backend faults resolve url (aw_ledger w)) as [r t] eqn:E. apply create_backend_ledger in E; [|rewrite Ha; apply not_elem_of_nil..]. rewrite Ha, ?app_nil_r in E.
  destruct r as [b|e]; [|split; [unfold accounted; cbn [aw_runtime aw_ledger]; by rewrite E, HP|done]]. unfold mbind, eff_bind. cbn [set_runtime modify]. apply Hm; cbn [aw_runtime]; [|by rewrite HP].
  unfold accounted. cbn [aw_ledger aw_runtime]. rewrite E, HP. by destruct (bk_rate_limit_database b) eqn:Eb; unfold backend_resources; rewrite Eb.
Qed.

Lemma sound_start settings : sound (_start resolve faults settings) (fun rt => rt = empty_runtime) running.
Proof.
  unfold _start. eapply sound_bind; [apply sound_attempt|]. eapply sound_bind; [apply sound_attempt|]. apply sound_backend.
  eapply sound_bind; [apply sound_attempt|]. eapply sound_bind; [apply sound_attempt|].
  eapply (sound_bind _ _ _ with_human).
  { apply sound_if; [|intros w Ha (? & _ & ?); by split]. eapply sound_bind; [apply sound_attempt|]. eapply sound_bind; [apply sound_attempt|]. apply sound_open.
    intros rt (Hd & Hh & Hw & Hg & Hs). split; [by split_and!|]. unfold callbacks. cbn. by rewrite Hh, Hs. }
  eapply (sound_bind _ _ _ with_provider).
  { apply sound_if; [|intros w Ha (? & _ & ?); by split]. apply sound_open. intros rt (Hd & Hw & Hg & Hs). split; [by split_and!|]. unfold callbacks. cbn. rewrite Hw, Hg, Hs. cbn.
    by rewrite <- Permutation_middle. }
  apply sound_assoc. eapply (sound_bind _ _ _ with_hindsight).
  { apply sound_open. intros rt (Hd & Hg & Hs). split; [by split_and!|]. unfold callbacks. cbn. rewrite Hg, Hs. cbn. by rewrite <- Permutation_middle. }
  eapply sound_bind; [apply sound_attempt|]. eapply (sound_bind _ _ _ with_hindsight); [by apply sound_set|].
  apply sound_if; [|intros w Ha (? & _); by split]. apply sound_open. intros rt (Hd & Hs). split; [done|]. unfold callbacks. cbn. by rewrite Hs.
Qed.

(** A start succeeds, or it leaves nothing behind; a second one changes nothing. *)
Lemma start_accounted settings w : accounted [] w -> (rs_database (aw_runtime w) = false -> aw_runtime w = empty_runtime) ->
  let '(r, w') := start resolve faults settings w in
  match r with
  | Ok _ => accounted [] w' /\ running (aw_runtime w')
  | Err _ => if rs_database (aw_runtime w) then w' = w else emptied [] w'
  end.
Proof.
  intros Ha He. unfold start. unfold mbind at 1, eff_bind at 1. cbn [get_state]. destruct (rs_database (aw_runtime w)) eqn:Ed; [done|].
  unfold try_except. pose proof (sound_start settings w Ha (He eq_refl)) as Hs. destruct (_start resolve faults settings w) as [[[]|e] w1]; destruct Hs as [Ha1 Hr]; [by split; [|apply Hr]|].
  unfold mbind, eff_bind. rewrite cleanup_run. cbn [raise]. by apply close_empties.
Qed.

Lemma log_accounted event extra w : accounted extra w -> accounted extra (log event w).2.
Proof. done. Qed.

Lemma log_emptied event extra w : emptied extra w -> emptied extra (log event w).2.
Proof. done. Qed.

Lemma shutdown_accounted extra w : accounted (RScanner :: extra) w -> accounted extra (shutdown_scanner faults w).2.
Proof.
  unfold shutdown_scanner, on_ledger, accounted. rewrite close_run. cbn [aw_runtime aw_ledger snd]. intros Ha. rewrite live_snoc. cbn [after_event]. apply remove_one_perm.
  rewrite Ha. by rewrite Permutation_middle.
Qed.

Lemma shutdown_emptied extra w : emptied (RScanner :: extra) w -> emptied extra (shutdown_scanner faults w).2.
Proof.
  intros [Hr Hl]. split; [unfold shutdown_scanner, on_ledger; by rewrite close_run|]. unfold shutdown_scanner, on_ledger. rewrite close_run. cbn [aw_ledger snd]. rewrite live_snoc. by apply remove_one_perm.
Qed.

Lemma run_cleanup_world m w : let w' := (m w).2 in (_run_startup_cleanup m w).2 = w' \/ (_run_startup_cleanup m w).2 = (log "application_stop_failed" w').2.
Proof. cbv zeta. unfold _run_startup_cleanup, mbind, eff_bind. rewrite cleanup_run. destruct (m w) as [[?|?] w']; cbn; tauto. Qed.

Lemma run_cleanup_ok m w : (_run_startup_cleanup m w).1 = Ok ().
Proof. unfold _run_startup_cleanup, mbind, eff_bind. rewrite cleanup_run. destruct (m w) as [[?|?] w']; done. Qed.

Lemma stop_runtime_emptied reraise w : accounted [RScanner] w -> emptied [] (_stop_runtime faults reraise w).2.
Proof.
  intros Ha. unfold _stop_runtime, stop. pose proof (close_empties [RScanner] w Ha) as He. destruct (_close faults w) as [[[]|e] w1]; cbn [snd] in He; [by apply shutdown_emptied|].
  unfold mbind, eff_bind. cbn [log modify]. apply log_emptied with (event := "application_stop_failed"%string), shutdown_emptied in He. unfold log, modify in He. cbn [snd] in He.
  destruct (shutdown_scanner faults _) as [[[]|e'] w2]; done.
Qed.

(** Whatever fails, in starting, in serving or in stopping, the application ends
    with nothing open and an empty runtime. *)
Lemma lifespan_emptied settings served w : emptied [] w ->
  let '(r, w') := lifespan resolve faults settings served w in emptied [] w' /\ (is_ok r = true -> served = Ok ()).
Proof.
  intros [Hr Hl]. unfold lifespan. assert (Ha : accounted [] w) by (unfold accounted; by rewrite Hr).
  pose proof (start_accounted settings w Ha ltac:(by rewrite Hr)) as Hs. rewrite Hr in Hs. cbn [rs_database empty_runtime] in Hs.
  destruct (start resolve faults settings w) as [[[]|e] w1]; [|by cbn]. destruct Hs as [Ha1 _].
  assert (Hscan : accounted [RScanner] (finish_before_cancelling faults (start_scanner faults) w1).2).
  { unfold finish_before_cancelling, start_scanner, on_ledger, mbind, eff_bind. cbn [emit modify]. rewrite attempt_run. destruct (faults CCancel), (faults (CInitialize RScanner));
      unfold accounted in *; cbn [snd aw_ledger aw_runtime]; rewrite live_snoc; cbn [after_event]; rewrite Ha1, app_nil_r; by rewrite <- Permutation_cons_append. }
  destruct (finish_before_cancelling faults (start_scanner faults) w1) as [[[]|e] w2]; cbn [snd] in Hscan.
  - unfold mbind, eff_bind. cbn [log modify]. set (w3 := mkWorld _ _ _). assert (Ha3 : accounted [RScanner] w3) by exact Hscan. destruct served as [[]|e].
    + pose proof (stop_runtime_emptied true w3 Ha3) as He. by destruct (_stop_runtime faults true w3) as [r w4].
    + pose proof (stop_runtime_emptied false w3 Ha3) as He. by destruct (_stop_runtime faults false w3) as [[[]|e'] w4].
  - unfold mbind, eff_bind. pose proof (run_cleanup_ok (shutdown_scanner faults) w2) as Ho. pose proof (run_cleanup_world (shutdown_scanner faults) w2) as Hw. cbv zeta in Hw.
    destruct (_run_startup_cleanup (shutdown_scanner faults) w2) as [r3 w3]. cbn [fst snd] in Ho, Hw. subst r3. apply shutdown_accounted in Hscan.
    assert (Ha3 : accounted [] w3) by (destruct Hw as [-> | ->]; [done|by apply log_accounted]). apply close_empties in Ha3.
    pose proof (run_cleanup_ok (stop faults) w3) as Ho. pose proof (run_cleanup_world (stop faults) w3) as Hw4. cbv zeta in Hw4. unfold stop in Hw4 at 2 4.
    destruct (_run_startup_cleanup (stop faults) w3) as [r4 w4]. cbn [fst snd] in Ho, Hw4. subst r4. cbn [log modify raise]. split; [|done].
    apply (log_emptied "application_start_failed"). destruct Hw4 as [-> | ->]; [done|by apply log_emptied].
Qed.
End nothing_left.

(** ** Any sequence *)

Inductive operation := Start (settings : start_settings) (faults : call -> option exn) | Stop (faults : call -> option exn).

Definition operate (resolve : string -> string) (w : app_world) (op : operation) : app_world :=
  match op with Start settings faults => (start resolve faults settings w).2 | Stop faults => (stop faults w).2 end.

Definition consistent (w : app_world) : Prop := accounted [] w /\ (rs_database (aw_runtime w) = false -> aw_runtime w = empty_runtime).

Lemma emptied_consistent w : emptied [] w -> consistent w.
Proof. intros [Hr Hl]. split; [unfold accounted; by rewrite Hr|by intros _]. Qed.

Lemma operate_consistent resolve w op : consistent w -> consistent (operate resolve w op).
Proof.
  intros [Ha He]. destruct op as [settings faults|faults]; cbn [operate].
  - pose proof (start_accounted resolve faults settings w Ha He) as Hs. destruct (start resolve faults settings w) as [[[]|e] w1]; cbn [snd].
    + destruct Hs as [Ha1 Hr]. split; [done|]. rewrite Hr. done.
    + destruct (rs_database (aw_runtime w)) eqn:Ed; [subst w1; by split; [|rewrite Ed]|by apply emptied_consistent].
  - apply emptied_consistent, close_empties, Ha.
Qed.

Lemma operations_consistent resolve ops w : consistent w -> consistent (fold_left (operate resolve) ops w).
Proof. revert w. induction ops as [|op ops IH]; intros w Hw; [done|]. by apply IH, operate_consistent. Qed.

(** C26: Nothing leaks and nothing is used after it is closed. After any sequence of
    starts and stops of the runtime, with any calls failing or being cancelled in
    any of them, what is open is exactly what the runtime's components hold; a stop
    then releases all of it and empties the runtime, even when closing fails; and
    serving the application from an empty runtime ends with nothing open, the scan
    workers included, whichever of starting, serving and stopping fails, and
    without an error only if serving had none. *)
Theorem nothing_left_open resolve ops : let w := fold_left (operate resolve) ops new_world in
  live (aw_ledger w) ≡ₚ callbacks (aw_runtime w)
  /\ (forall faults, emptied [] (stop faults w).2)
  /\ (aw_runtime w = empty_runtime -> forall faults settings served,
        let '(r, w') := lifespan resolve faults settings served w in emptied [] w' /\ (is_ok r = true -> served = Ok ())).
Proof.
  cbv zeta. destruct (operations_consistent resolve ops new_world) as [Ha He]; [by apply emptied_consistent|]. split_and!.
  - unfold accounted in Ha. by rewrite app_nil_r in Ha.
  - intros faults. by apply close_empties.
  - intros Hr faults settings served. apply lifespan_emptied. split; [done|]. unfold accounted in Ha. by rewrite Hr in Ha.
Qed.

(** ** An example *)

Module Example_lifecycle.
Definition sqlite_settings : start_settings := mkStart "sqlite::memory:" false true 60.
Definition postgres_settings : start_settings := mkStart "postgresql://db/router" true true 60.
Definition no_faults (c : call) : option exn := None.
Definition registry_fails (c : call) : option exn := match c with CRegistry => Some (ERuntimeError "registry") | CClose RHindsight => Some (EOther "aclose") | _ => None end.

(** A start that fails late and whose cleanup fails too, then one that works. *)
Definition failed : app_world := operate (fun p => p) new_world (Start postgres_settings registry_fails).
Definition started : app_world := operate (fun p => p) failed (Start sqlite_settings no_faults).

Example failed_empty : aw_runtime failed = empty_runtime /\ live (aw_ledger failed) = []
  /\ map (fun e => match e with Closed r => Some r | Opened _ => None end) (drop 7 (aw_ledger failed)) = [Some RHumanAuth; Some RHindsight; Some RWrapProvider; Some RRateDatabase; Some RDatabase].
Proof. by vm_compute. Qed.

Example started_holds : live (aw_ledger started) = [RSweeper; RHindsight; RWrapProvider; RDatabase].
Proof. by vm_compute. Qed.

Lemma nothing_left_open_witness : aw_runtime failed = empty_runtime /\ emptied [] (lifespan (fun p => p) registry_fails postgres_settings (Ok ()) failed).2.
Proof.
  split; [by vm_compute|].
  pose proof (proj2 (proj2 (nothing_left_open (fun p => p) [Start postgres_settings registry_fails])) ltac:(by vm_compute) registry_fails postgres_settings (Ok ())) as Hl.
  change (fold_left (operate (fun p => p)) [Start postgres_settings registry_fails] new_world) with failed in Hl.
  destruct (lifespan (fun p => p) registry_fails postgres_settings (Ok ()) failed) as [r w']. exact (proj1 Hl).
Defined.
End Example_lifecycle.
