(* ===== verification/LegacyMigration.v ===== *)
(** * Legacy migration

    Models [memory_router/legacy_migration.py] (the import of the file-based queue
    into the tables) and [create_envelope] of [memory_router/envelope.py] that it
    uses. The files are the text of the queue and a function from identities to
    texts; RSA encryption and decryption and the random draws are arguments. Texts
    are their UTF-8 bytes. *)

From Stdlib Require Import ZArith Lia Ascii.
From stdpp Require Import base sets strings numbers list.
From S2P Require Import Prelude Errors Text Sha256 Json JsonParse Timestamps Repository RepositoryProps Review ReviewProps Envelope EnvelopeProps Dedupe Paths Hindsight Policy Dispatch.

Local Open Scope Z_scope.

(** ** Lines *)

(** The length of the line boundary of [str.splitlines] that starts here. *)
Definition boundary (l : list ascii) : option nat :=
  match map code_of l with
  | 13 :: 10 :: _ => Some 2%nat
  | 194 :: 133 :: _ => Some 2%nat
  | 226 :: 128 :: 168 :: _ | 226 :: 128 :: 169 :: _ => Some 3%nat
  | c :: _ => if elem c [10; 11; 12; 13; 28; 29; 30] then Some 1%nat else None
  | [] => None
  end.

Fixpoint split_lines (skip : nat) (acc : list ascii) (l : list ascii) : list (list ascii) :=
  match l with
  | [] => match acc with [] => [] | _ => [rev acc] end
  | c :: rest =>
      match skip with
      | S skip => split_lines skip acc rest
      | O => match boundary l with
             | Some n => rev acc :: split_lines (n - 1) [] rest
             | None => split_lines 0 (c :: acc) rest
             end
      end
  end.

Definition splitlines (raw : string) : list string := map of_chars (split_lines 0 [] (chars raw)).

(** ** The queue *)

Abbreviation entry := (list (string * json)).

Definition legacy_error (line : nat) (what : string) : exn := EValueError ("legacy queue line " +:+ str_of_Z (Z.of_nat line) +:+ what)%string.

(** [value.get("decision") not in {...}]: containers are not hashable. *)
Definition decision_known (v : option json) : result bool :=
  match v with
  | Some (JStr s) => Ok (elem s ["pending"; "postponed"; "rejected"; "promoted"]%string)
  | Some (JList _) | Some (JDict _) => Err (EOther "TypeError")
  | _ => Ok false
  end.

Definition nonempty_text (v : option json) : bool := match v with Some (JStr s) => negb (bool_decide (s = ""%string)) | _ => false end.

Section queue.
Context `{UnicodeData}.

Definition parse_line (number : nat) (line : string) : result (option entry) :=
  if bool_decide (py_split line = []) then Ok None
  else match json_loads line with
  | None => Err (EValueError "JSONDecodeError")
  | Some (JDict value) =>
      known ← decision_known (dict_get "decision" value);
      _ ← ensure known (legacy_error number " has an invalid decision");
      _ ← ensure (nonempty_text (dict_get "timestamp" value)) (legacy_error number " has no timestamp");
      _ ← ensure (nonempty_text (dict_get "reason" value)) (legacy_error number " has no reason");
      Ok (Some value)
  | Some _ => Err (legacy_error number " must be an object")
  end.

Fixpoint parse_lines (number : nat) (lines : list string) : result (list entry) :=
  match lines with
  | [] => Ok []
  | line :: rest =>
      value ← parse_line number line;
      records ← parse_lines (S number) rest;
      Ok (match value with Some v => v :: records | None => records end)
  end.

Definition _parse_queue (raw : string) : result (list entry) := parse_lines 1 (splitlines raw).
End queue.

Definition _legacy_kind (payload : json) : result string :=
  match payload with
  | JDict d =>
      if is_text (dict_get "action" d) "retain" then Ok "retain_request"%string
      else if is_text (dict_get "action" d) "recall" then Ok "recall_request"%string
      else Err (EValueError "legacy quarantine payload action is unsupported")
  | _ => Err (EValueError "legacy quarantine payload must be an object")
  end.

(** ** Python conversions *)

(** [bool(value)] of a value that JSON can hold. *)
Definition json_truthy (v : json) : bool :=
  match v with
  | JNull | JBool false | JInt 0 | JStr ""%string | JList [] | JDict [] => false
  | JFloat t => negb (elem t ["0.0"; "-0.0"]%string)
  | _ => true
  end.

(** [int(value)]; a float is truncated. *)
Definition json_int (v : json) : result Z :=
  match v with
  | JInt n => Ok n
  | JBool b => Ok (if b then 1 else 0)
  | JStr s => match py_int s with Some n => Ok n | None => Err (EValueError "invalid literal for int()") end
  | JFloat t =>
      if isfinite t then
        match float_decimal t with
        | Some (neg, n, e) => let m := if 0 <=? e then n * 10 ^ e else n / 10 ^ (- e) in Ok (if neg : bool then - m else m)
        | None => Err (EValueError "invalid literal for int()")
        end
      else Err (EOther "OverflowError")
  | _ => Err (EOther "TypeError")
  end.

(** [record.get(key) or default] *)
Definition get_or (d : entry) (key : string) (default_ : json) : json :=
  match dict_get key d with Some v => if json_truthy v then v else default_ | None => default_ end.

(** ** The import *)

Inductive import_outcome := Imported | SkippedExisting | SkippedFinalized | SkippedWithoutPayload.

#[export] Instance import_outcome_eq_dec : EqDecision import_outcome.
Proof. solve_decision. Defined.

Section migration.
Context `{Rfc8785, AESGCM, PyRepr, UnicodeData}.
Context (rsa_encrypt rsa_decrypt : string -> result string).
(** Whether the resolved path of an object stays in its directory, and its text. *)
Context (inside : string -> bool) (read_object : string -> result string).
(** [postponed_at] is read by [str]. *)
Definition json_str (v : json) : string := match v with JStr s => s | v => py_repr v end.

(** [create_envelope]; the data key and the vector are drawn at random. *)
Definition create_envelope (value : json) (key iv : string) : result (list (string * json)) :=
  prepared ← _prepare_decrypted value;
  wrapped ← rsa_encrypt key;
  envelope ← _envelope_metadata (pd_metadata prepared) (sha256_hex (pd_plaintext prepared)) (b64encode wrapped) (b64encode iv) DEFAULT_KEY_WRAP None;
  _seal_envelope envelope key iv (pd_plaintext prepared).

(** [_object_path(...).read_text()] *)
Definition object_text (quarantine_id : string) : result string :=
  _ ← ensure (is_quarantine_id quarantine_id) (EValueError "invalid legacy quarantine_id");
  _ ← ensure (inside quarantine_id) (EValueError "invalid legacy quarantine object path");
  read_object quarantine_id.

Definition text_of (v : option json) : option string := match v with Some (JStr s) => Some s | _ => None end.

(** The item of a legacy object and its new envelope. *)
Definition legacy_item (quarantine_id kind : string) (decrypted encrypted : list (string * json)) : item :=
  let created_at := default ""%string (text_of (dict_get "created_at" decrypted)) in
  mkItem quarantine_id created_at created_at kind (default ""%string (text_of (dict_get "reason" decrypted))) (text_of (dict_get "writer_id" decrypted))
    (text_of (dict_get "source" decrypted)) None None None None (default ""%string (text_of (dict_get "sha256" encrypted))) (Some (JDict encrypted)) 0 PENDING 0 0 None None.

Definition prepare_item (quarantine_id key iv : string) : result item :=
  text ← object_text quarantine_id;
  envelope ← match json_loads text with Some v => Ok v | None => Err (EValueError "JSONDecodeError") end;
  decrypted ← decrypt_envelope envelope rsa_decrypt;
  _ ← ensure (is_text (dict_get "quarantine_id" decrypted) quarantine_id) (EValueError ("legacy queue/envelope mismatch for " +:+ quarantine_id)%string);
  encrypted ← create_envelope (JDict decrypted) key iv;
  payload ← getitem decrypted "payload";
  kind ← _legacy_kind payload;
  Ok (legacy_item quarantine_id kind decrypted encrypted).

(** How often, and at which time, the item had been postponed. *)
Definition postponements (record : entry) : result (Z * string) :=
  count ← json_int (get_or record "postpone_count" (JInt 0));
  timestamp ← getitem record "timestamp";
  Ok (if is_text (dict_get "decision" record) "postponed" then Z.max 1 count else count, json_str (get_or record "decided_at" timestamp)).

Fixpoint postpone_times (n : nat) (quarantine_id at_ : string) : eff qdb unit :=
  match n with
  | O => mret ()
  | S n => _ ← postpone quarantine_id at_ None None None; postpone_times n quarantine_id at_
  end.

(** One record of the loop. *)
Definition import_record (key iv : string) (record : entry) : eff qdb import_outcome :=
  if negb (is_text (dict_get "decision" record) "pending" || is_text (dict_get "decision" record) "postponed") then mret SkippedFinalized
  else match dict_get "quarantine_id" record with
  | Some (JStr quarantine_id) =>
      d ← get_state;
      if bool_decide (is_Some (get (q_items d) quarantine_id)) then mret SkippedExisting
      else
        item ← lift (prepare_item quarantine_id key iv);
        transaction (insert_item item);;
        times ← lift (postponements record);
        postpone_times (Z.to_nat (Z.max 0 times.1)) quarantine_id times.2;;
        mret Imported
  | _ => mret SkippedWithoutPayload
  end.

(** The loop; [draws] gives the data key and the vector of each record. *)
Fixpoint import_records (draws : nat -> string * string) (n : nat) (records : list entry) : eff qdb (list import_outcome) :=
  match records with
  | [] => mret []
  | record :: rest =>
      outcome ← import_record (draws n).1 (draws n).2 record;
      outcomes ← import_records draws (S n) rest;
      mret (outcome :: outcomes)
  end.

Record summary := mkSummary { sm_imported : Z; sm_skipped_existing : Z; sm_skipped_finalized : Z; sm_skipped_without_payload : Z }.

Definition count_of (o : import_outcome) (l : list import_outcome) : Z := count_where (fun x => bool_decide (x = o)) l.

(** [private_key] tells whether [decode_private_key] accepts the key. *)
Definition import_legacy_quarantine (private_key : result unit) (draws : nat -> string * string) (raw : string) : eff qdb summary :=
  lift private_key;;
  records ← lift (_parse_queue raw);
  outcomes ← import_records draws 0 records;
  mret (mkSummary (count_of Imported outcomes) (count_of SkippedExisting outcomes) (count_of SkippedFinalized outcomes) (count_of SkippedWithoutPayload outcomes)).
End migration.

(** ** What an import leaves *)

Section import_props.
Context `{Rfc8785, AESGCM, PyRepr, UnicodeData}.
Context (rsa_encrypt rsa_decrypt : string -> result string) (inside : string -> bool) (read_object : string -> result string).

Abbreviation prepare := (prepare_item rsa_encrypt rsa_decrypt inside read_object).
Abbreviation import_one := (import_record rsa_encrypt rsa_decrypt inside read_object).
Abbreviation import_all := (import_records rsa_encrypt rsa_decrypt inside read_object).
Abbreviation import := (import_legacy_quarantine rsa_encrypt rsa_decrypt inside read_object).

Definition postponed_item (n : nat) (at_ : string) (i : item) : item := Nat.iter n (set_postponed at_) i.

Lemma postpone_items id at_ d r d' : postpone id at_ None None None d = (Ok r, d') ->
  q_items d' = update_where (has_key it_quarantine_id id) (set_postponed at_) (q_items d).
Proof.
  unfold postpone, _mutate_review. intros Hp. apply bind_ok_inv in Hp as (res & d1 & Ht%transaction_ok_inv & Hp). destruct res as [r0|]; [|done]. injection Hp as _ <-.
  apply bind_ok_inv in Ht as (found & d2 & Hf & Ht). injection Hf as <- <-. destruct (get (q_items d) id) as [i|]; [|done].
  apply bind_ok_inv in Ht as (u1 & d3 & [_ ->]%lift_ok & Ht). apply bind_ok_inv in Ht as (rec & d4 & Hrec & Ht).
  injection Hrec as <- <-. apply bind_ok_inv in Ht as (u2 & d5 & [_ ->]%lift_ok & Ht). apply bind_ok_inv in Ht as (r1 & d6 & Hm & Ht). injection Ht as _ <-.
  cbv zeta in Hm. apply bind_ok_inv in Hm as (u3 & d7 & He & Hm). apply execute_items_ok in He as [-> _]. apply bind_ok_inv in Hm as (u4 & d8 & Hi & Hm).
  injection Hm as _ <-. injection Hi as _ <-. done.
Qed.

Lemma update_last t i id f : (forall r, r ∈ t -> it_quarantine_id r <> id) -> it_quarantine_id i = id ->
  update_where (has_key it_quarantine_id id) f (t ++ [i]) = t ++ [f i].
Proof.
  intros Ht Hi. unfold update_where. rewrite map_app. cbn. rewrite (proj2 (has_key_true _ _ _)) by done. f_equal. rewrite <- (map_id t) at 2. apply map_ext_in. intros r Hr.
  rewrite (proj2 (has_key_false _ _ _)); [done|]. apply Ht. by apply list_elem_of_In.
Qed.

Lemma postpone_times_items n id at_ d u d' t i : postpone_times n id at_ d = (Ok u, d') -> q_items d = t ++ [i] ->
  (forall r, r ∈ t -> it_quarantine_id r <> id) -> it_quarantine_id i = id -> q_items d' = t ++ [postponed_item n at_ i].
Proof.
  intros Hrun Hd Ht. revert i d Hrun Hd. induction n as [|n IH]; intros i d Hrun Hd Hi; cbn [postpone_times] in Hrun; [injection Hrun as _ <-; done|].
  apply bind_ok_inv in Hrun as (r & d1 & Hp%postpone_items & Hrun). rewrite Hd, update_last in Hp by done.
  rewrite (IH (set_postponed at_ i) d1 Hrun Hp) by done. unfold postponed_item. by rewrite Nat.iter_succ_r.
Qed.

Lemma prepare_item_inv id key iv i : prepare id key iv = Ok i ->
  exists text legacy decrypted encrypted kind, object_text inside read_object id = Ok text /\ json_loads text = Some legacy /\ decrypt_envelope legacy rsa_decrypt = Ok decrypted
    /\ is_text (dict_get "quarantine_id" decrypted) id = true /\ create_envelope rsa_encrypt (JDict decrypted) key iv = Ok encrypted /\ i = legacy_item id kind decrypted encrypted.
Proof.
  unfold prepare_item. intros Hp. apply result_bind_ok in Hp as (text & Ht & Hp). apply result_bind_ok in Hp as (legacy & Hl & Hp). apply result_bind_ok in Hp as (decrypted & Hd & Hp).
  apply result_bind_ok in Hp as ([] & Hid%ensure_ok & Hp). apply result_bind_ok in Hp as (encrypted & He & Hp). apply result_bind_ok in Hp as (payload & _ & Hp). apply result_bind_ok in Hp as (kind & _ & Hp).
  injection Hp as <-. exists text, legacy, decrypted, encrypted, kind. split_and!; try done. by destruct (json_loads text); [injection Hl as ->|].
Qed.

Lemma prepare_item_id id key iv i : prepare id key iv = Ok i -> it_quarantine_id i = id.
Proof. intros (? & ? & ? & ? & ? & _ & _ & _ & _ & _ & ->)%prepare_item_inv. done. Qed.

(** One record: nothing changes unless it is imported, and then one row is added:
    the item of the record's object, postponed as often as the record says. *)
Lemma import_record_items key iv record d o d' : import_one key iv record d = (Ok o, d') ->
  match o with
  | Imported => exists id i times, dict_get "quarantine_id" record = Some (JStr id) /\ get (q_items d) id = None /\ prepare id key iv = Ok i
      /\ postponements record = Ok times /\ q_items d' = q_items d ++ [postponed_item (Z.to_nat (Z.max 0 times.1)) times.2 (_params i)]
  | SkippedExisting => d' = d /\ exists id, dict_get "quarantine_id" record = Some (JStr id) /\ is_Some (get (q_items d) id)
  | _ => d' = d
  end.
Proof.
  unfold import_record. destruct (negb _); [by intros [= <- <-]|]. destruct (dict_get "quarantine_id" record) as [[| | | |id| |]|] eqn:Eid; try (by intros [= <- <-]).
  unfold mbind at 1, eff_bind at 1. cbn [get_state]. case_bool_decide as Hex; [intros [= <- <-]; split; [done|]; by exists id|]. intros Hrun.
  apply bind_ok_inv in Hrun as (i & d1 & [Hp ->]%lift_ok & Hrun). apply bind_ok_inv in Hrun as (u1 & d2 & Hins%transaction_ok_inv & Hrun).
  apply bind_ok_inv in Hrun as (times & d3 & [Ht ->]%lift_ok & Hrun). apply bind_ok_inv in Hrun as (u2 & d4 & Hpost & Hrun). injection Hrun as <- <-.
  unfold insert_item in Hins. apply bind_ok_inv in Hins as (u3 & d5 & He & Hev). apply execute_items_ok in He as [-> _]. injection Hev as _ <-.
  assert (Hnone : get (q_items d) id = None) by (destruct (get (q_items d) id); [exfalso; by apply Hex|done]).
  pose proof (prepare_item_id _ _ _ _ Hp) as Hi.
  exists id, i, times. split_and!; [done..|]. eapply postpone_times_items; [exact Hpost|done| |done]. intros r Hr. by apply (get_none (q_items d)).
Qed.

Lemma get_app t t' id : is_Some (get t id) -> is_Some (get (t ++ t') id).
Proof.
  unfold get, fetchone. induction t as [|r t IH]; cbn; [by intros [? ?]|]. by destruct (has_key it_quarantine_id id r).
Qed.

Lemma get_last t i id : it_quarantine_id i = id -> is_Some (get (t ++ [i]) id).
Proof.
  intros Hi. unfold get, fetchone. induction t as [|r t IH]; cbn; [rewrite (proj2 (has_key_true _ _ _)) by done; by eexists|]. destruct (has_key it_quarantine_id id r); [by eexists|done].
Qed.

Lemma postponed_item_id n at_ i : it_quarantine_id (postponed_item n at_ i) = it_quarantine_id i.
Proof. induction n as [|n IH]; [done|]. exact IH. Qed.

Lemma import_record_grows key iv record d o d' : import_one key iv record d = (Ok o, d') -> exists rows, q_items d' = q_items d ++ rows.
Proof.
  intros Hr. pose proof (import_record_items _ _ _ _ _ _ Hr) as Hi. destruct o; [destruct Hi as (? & ? & ? & _ & _ & _ & _ & ->); by eexists|destruct Hi as [-> _]|subst d'..];
    exists []; by rewrite app_nil_r.
Qed.

Lemma import_all_grows draws n records d outs d' : import_all draws n records d = (Ok outs, d') -> exists rows, q_items d' = q_items d ++ rows.
Proof.
  revert n d outs. induction records as [|record records IH]; intros n d outs Hr; cbn [import_records] in Hr; [injection Hr as _ <-; exists []; by rewrite app_nil_r|].
  apply bind_ok_inv in Hr as (o & d1 & Ho & Hr). apply bind_ok_inv in Hr as (os & d2 & Hos & Hr). injection Hr as _ <-.
  destruct (import_record_grows _ _ _ _ _ _ Ho) as [rows1 E1]. destruct (IH _ _ _ Hos) as [rows2 E2]. exists (rows1 ++ rows2). by rewrite E2, E1, app_assoc.
Qed.

(** What a second import makes of a record. *)
Definition again (o : import_outcome) : import_outcome := match o with Imported => SkippedExisting | o => o end.

Definition open_record (record : entry) : bool := is_text (dict_get "decision" record) "pending" || is_text (dict_get "decision" record) "postponed".

Lemma import_record_existing key iv record id d : open_record record = true -> dict_get "quarantine_id" record = Some (JStr id) -> is_Some (get (q_items d) id) ->
  import_one key iv record d = (Ok SkippedExisting, d).
Proof. intros Ho Hid Hex. unfold import_record. unfold open_record in Ho. rewrite Ho, Hid. cbn [negb]. rewrite (bind_ok _ _ _ d d) by done. by rewrite bool_decide_true. Qed.

Lemma import_record_open key iv record d o d' : import_one key iv record d = (Ok o, d') -> o = Imported \/ o = SkippedExisting -> open_record record = true.
Proof. unfold import_record, open_record. destruct (_ || _); [done|]. by intros [= <- <-] [?|?]. Qed.

Lemma import_record_other key iv key' iv' record d o d' d2 : import_one key iv record d = (Ok o, d') -> o <> Imported -> o <> SkippedExisting ->
  import_one key' iv' record d2 = (Ok o, d2).
Proof.
  unfold import_record. destruct (negb _); [by intros [= <- <-]|]. destruct (dict_get "quarantine_id" record) as [[| | | |id| |]|]; try (by intros [= <- <-]).
  intros Hr Hi He. apply bind_ok_inv in Hr as (d0 & d1 & _ & Hr). case_bool_decide; [by injection Hr as <- _|].
  apply bind_ok_inv in Hr as (? & ? & _ & Hr). apply bind_ok_inv in Hr as (? & ? & _ & Hr). apply bind_ok_inv in Hr as (? & ? & _ & Hr). apply bind_ok_inv in Hr as (? & ? & _ & Hr). by injection Hr as <- _.
Qed.

Lemma import_record_again key iv key' iv' record d o d' d2 : import_one key iv record d = (Ok o, d') ->
  (forall id, is_Some (get (q_items d') id) -> is_Some (get (q_items d2) id)) -> import_one key' iv' record d2 = (Ok (again o), d2).
Proof.
  intros Hr Hsub. pose proof (import_record_items _ _ _ _ _ _ Hr) as Hi. destruct o; cbn [again].
  - destruct Hi as (id & i & times & Hid & _ & Hp & _ & Et). apply (import_record_existing _ _ _ id); [by eapply import_record_open; [exact Hr|left]|done|].
    apply Hsub. rewrite Et. apply get_last. rewrite postponed_item_id. exact (prepare_item_id _ _ _ _ Hp).
  - destruct Hi as (-> & id & Hid & Hg). apply (import_record_existing _ _ _ id); [by eapply import_record_open; [exact Hr|right]|done|]. by apply Hsub.
  - by eapply import_record_other.
  - by eapply import_record_other.
Qed.

Lemma import_all_again draws draws' n n' records d outs d' d2 : import_all draws n records d = (Ok outs, d') ->
  (forall id, is_Some (get (q_items d') id) -> is_Some (get (q_items d2) id)) -> import_all draws' n' records d2 = (Ok (map again outs), d2).
Proof.
  revert n n' d outs. induction records as [|record records IH]; intros n n' d outs Hr Hsub; cbn [import_records] in *; [by injection Hr as <- _|].
  apply bind_ok_inv in Hr as (o & d1 & Ho & Hr). apply bind_ok_inv in Hr as (os & d3 & Hos & Hr). injection Hr as <- <-.
  destruct (import_all_grows _ _ _ _ _ _ Hos) as [rows E].
  rewrite (bind_ok _ _ _ (again o) d2); [rewrite (bind_ok _ _ _ (map again os) d2); [done|by eapply IH]|].
  eapply import_record_again; [exact Ho|]. intros id Hid. apply Hsub. rewrite E. by apply get_app.
Qed.

(** A row that a record of the queue accounts for. *)
Definition legacy_row (records : list entry) (row : item) : Prop := exists record id key iv i times, record ∈ records /\ open_record record = true
  /\ dict_get "quarantine_id" record = Some (JStr id) /\ prepare id key iv = Ok i /\ postponements record = Ok times
  /\ row = postponed_item (Z.to_nat (Z.max 0 times.1)) times.2 (_params i).

Lemma legacy_row_mono records records' row : records ⊆ records' -> legacy_row records row -> legacy_row records' row.
Proof. intros Hs (record & id & key & iv & i & times & Hr & Hrest). exists record, id, key, iv, i, times. split; [by apply Hs|done]. Qed.

Lemma import_all_rows draws n records d outs d' : import_all draws n records d = (Ok outs, d') ->
  length outs = length records /\ exists rows, q_items d' = q_items d ++ rows /\ Z.of_nat (length rows) = count_of Imported outs /\ Forall (legacy_row records) rows.
Proof.
  revert n d outs. induction records as [|record records IH]; intros n d outs Hr; cbn [import_records] in Hr; [injection Hr as <- <-; split; [done|]; exists []; by rewrite app_nil_r|].
  apply bind_ok_inv in Hr as (o & d1 & Ho & Hr). apply bind_ok_inv in Hr as (os & d2 & Hos & Hr). injection Hr as <- <-.
  destruct (IH _ _ _ Hos) as (Hlen & rows & E & Hn & Hf). split; [cbn; by rewrite Hlen|]. pose proof (import_record_items _ _ _ _ _ _ Ho) as Hi.
  assert (Hf' : Forall (legacy_row (record :: records)) rows) by (eapply Forall_impl; [exact Hf|]; intros row; apply legacy_row_mono; set_solver).
  unfold count_of in *. rewrite count_where_cons. destruct o; cbn [bool_decide decide_rel].
  - destruct Hi as (id & i & times & Hid & _ & Hp & Ht & E1). eexists (_ :: rows). split; [by rewrite E, E1, <- app_assoc|]. split; [rewrite bool_decide_true by done; cbn [length]; lia|].
    constructor; [|done]. exists record, id, (draws n).1, (draws n).2, i, times. split_and!; try done; [set_solver|]. eapply import_record_open; [exact Ho|by left].
  - destruct Hi as [-> _]. exists rows. by rewrite bool_decide_false.
  - subst d1. exists rows. by rewrite bool_decide_false.
  - subst d1. exists rows. by rewrite bool_decide_false.
Qed.

Lemma count_again outs : count_of Imported (map again outs) = 0 /\ count_of SkippedExisting (map again outs) = count_of Imported outs + count_of SkippedExisting outs
  /\ count_of SkippedFinalized (map again outs) = count_of SkippedFinalized outs /\ count_of SkippedWithoutPayload (map again outs) = count_of SkippedWithoutPayload outs
  /\ count_of Imported outs + count_of SkippedExisting outs + count_of SkippedFinalized outs + count_of SkippedWithoutPayload outs = Z.of_nat (length outs).
Proof.
  unfold count_of. induction outs as [|o outs (H1' & H2' & H3' & H4' & H5')]; [done|]. cbn [map length]. rewrite !count_where_cons.
  destruct o; cbn [again]; repeat (first [rewrite bool_decide_true by done | rewrite bool_decide_false by done]); lia.
Qed.

(** C23: importing the old queue is safe to repeat. An import that ends adds one row
    for each record it counts as imported, and nothing else: the item sealed from
    that record's object, postponed as often as the record says, and every record of
    the queue is counted once. Importing the same queue again from there changes
    nothing at all and counts what was imported as existing. *)
Theorem migration_idempotent private_key draws draws' raw d s d' : import private_key draws raw d = (Ok s, d') ->
  (exists records rows, _parse_queue raw = Ok records /\ q_items d' = q_items d ++ rows /\ Z.of_nat (length rows) = sm_imported s /\ Forall (legacy_row records) rows
     /\ sm_imported s + sm_skipped_existing s + sm_skipped_finalized s + sm_skipped_without_payload s = Z.of_nat (length records))
  /\ import private_key draws' raw d' = (Ok (mkSummary 0 (sm_imported s + sm_skipped_existing s) (sm_skipped_finalized s) (sm_skipped_without_payload s)), d').
Proof.
  unfold import_legacy_quarantine. intros Hrun. apply bind_ok_inv in Hrun as (u & d1 & [Hk ->]%lift_ok & Hrun). apply bind_ok_inv in Hrun as (records & d2 & [Hq ->]%lift_ok & Hrun).
  apply bind_ok_inv in Hrun as (outs & d3 & Ho & Hrun). injection Hrun as <- <-. cbn [sm_imported sm_skipped_existing sm_skipped_finalized sm_skipped_without_payload].
  destruct (count_again outs) as (E1 & E2 & E3 & E4 & E5). destruct (import_all_rows _ _ _ _ _ _ Ho) as (Hlen & rows & Erows & Hn & Hf). split.
  - exists records, rows. split_and!; try done. by rewrite E5, Hlen.
  - rewrite Hk, Hq. rewrite (bind_ok _ _ _ u d3), (bind_ok _ _ _ records d3) by done. rewrite (bind_ok _ _ _ (map again outs) d3) by (by eapply import_all_again).
    by rewrite E1, E2, E3, E4.
Qed.
End import_props.

(** ** Example *)

Module Example_migration.
Import Example_envelope.
#[local] Instance words : UnicodeData := {| nfkc_fold s := s; py_split s := List.filter (fun w => negb (bool_decide (w = ""%string))) (str_split " " s) |}.
#[local] Instance printed : PyRepr := {| py_repr := json_dumps |}.

(** The identity as a wrapping: the key that was drawn unwraps to itself. *)
Definition wrap (s : string) : result string := Ok s.
Definition draws (n : nat) : string * string := (data_key, vector).

Definition id : string := "q_request20240101_0123456789abcdef".
Definition object_file (quarantine_id : string) : result string :=
  if bool_decide (quarantine_id = id) then (env ← create_envelope wrap object data_key vector; Ok (json_dumps (JDict env))) else Err (EOther "FileNotFoundError").

Definition newline : string := of_chars [chr 10].
Definition line (fields : list (string * json)) : string := (json_dumps (JDict (fields ++ [("timestamp", JStr "2024-01-02T00:00:00.000Z"); ("reason", JStr "suspicious_content")])) +:+ newline)%string.
(** An item that was postponed twice, a rejected one, a blank line, and one without an object. *)
Definition raw : string := (line [("decision", JStr "postponed"); ("quarantine_id", JStr id); ("postpone_count", JInt 2)] +:+ line [("decision", JStr "rejected")]
  +:+ "  " +:+ newline +:+ line [("decision", JStr "pending")])%string.

Definition empty : qdb := mkQdb [] [] 0.
Definition run (d : qdb) := import_legacy_quarantine wrap wrap (fun _ => true) object_file (Ok tt) draws raw d.

Example first_run : (fst (run empty), map (fun i => (it_quarantine_id i, it_kind i, it_postpone_count i)) (q_items (snd (run empty))))
  = (Ok (mkSummary 1 0 1 1), [(id, "retain_request"%string, 2)]).
Proof. vm_compute. reflexivity. Qed.

Lemma migration_idempotent_witness : run (snd (run empty)) = (Ok (mkSummary 0 1 1 1), snd (run empty)).
Proof.
  refine (proj2 (migration_idempotent wrap wrap (fun _ => true) object_file (Ok tt) draws draws raw empty (mkSummary 1 0 1 1) (snd (run empty)) _)).
  vm_compute. reflexivity.
Defined.
End Example_migration.
