(* ===== verification/Metrics.v ===== *)
(** * Metrics, error answers and request identities

    Models [memory_router/metrics.py] (the counters and the page that shows them),
    the exception handlers of [memory_router/app.py] that turn an error into an
    answer, and [memory_router/observability.py]. The lock makes every operation on
    the counters one step. Texts are their UTF-8 bytes; durations are printed
    numbers. *)

From Stdlib Require Import ZArith Lia Ascii.
From stdpp Require Import base sets strings numbers list.
From S2P Require Import Prelude Errors Text Json JsonParse FacadeRoutes Paths Repository Review Chars LogContract Probes.

Local Open Scope Z_scope.

(** ** Counters *)

Definition AUTH_FAILURES_TOTAL : string := "memory_router_auth_failures_total".
Definition RATE_LIMITED_TOTAL : string := "memory_router_rate_limited_responses_total".
Definition CAPACITY_REJECTIONS_TOTAL : string := "memory_router_quarantine_capacity_rejections_total".
Definition RECALL_DEGRADED_BANKS_TOTAL : string := "memory_router_recall_degraded_banks_total".
Definition SWEEPER_FAILURES_TOTAL : string := "memory_router_sweeper_failures_total".
Definition REVIEW_SIDE_EFFECT_STARTED_ITEMS : string := "memory_router_review_side_effect_started_items".

Record definition := mkDefinition { df_name : string; df_kind : string; df_help : string }.

Definition _DEFINITIONS : list definition :=
  [mkDefinition AUTH_FAILURES_TOTAL "counter" "Authentication failures by route class.";
   mkDefinition RATE_LIMITED_TOTAL "counter" "HTTP 429 rate-limit responses by route class.";
   mkDefinition CAPACITY_REJECTIONS_TOTAL "counter" "Quarantine admissions rejected with HTTP 507 by route class.";
   mkDefinition RECALL_DEGRADED_BANKS_TOTAL "counter" "Failed or degraded Hindsight recall bank calls.";
   mkDefinition SWEEPER_FAILURES_TOTAL "counter" "Quarantine sweeper iterations that failed.";
   mkDefinition REVIEW_SIDE_EFFECT_STARTED_ITEMS "gauge" "Quarantine items waiting for review side-effect reconciliation."].

Abbreviation labels := (list (string * string)).
Abbreviation metric_key := (string * labels)%type.
Abbreviation metric_values := (list (metric_key * Z)).

Definition _increment (name : string) (ls : labels) (values : metric_values) : metric_values :=
  dict_set (name, ls) (default 0 (dict_get (name, ls) values) + 1) values.

Definition route_label (route_class : string) : labels := [("route_class"%string, route_class)].

Definition record_auth_failure (route_class : string) : metric_values -> metric_values := _increment AUTH_FAILURES_TOTAL (route_label route_class).
Definition record_rate_limited (route_class : string) : metric_values -> metric_values := _increment RATE_LIMITED_TOTAL (route_label route_class).
Definition record_capacity_rejection (route_class : string) : metric_values -> metric_values := _increment CAPACITY_REJECTIONS_TOTAL (route_label route_class).
Definition record_recall_degraded_bank : metric_values -> metric_values := _increment RECALL_DEGRADED_BANKS_TOTAL [].
Definition record_sweeper_failure : metric_values -> metric_values := _increment SWEEPER_FAILURES_TOTAL [].
Definition set_review_side_effect_started (count : Z) (values : metric_values) : metric_values := dict_set (REVIEW_SIDE_EFFECT_STARTED_ITEMS, []) count values.
Definition reset (values : metric_values) : metric_values := [].

(** ** The page *)

Definition quote : ascii := chr 34.
Definition backslash : ascii := chr 92.
Definition newline : ascii := chr 10.

(** [s.replace(c, to)] for one character [c]. *)
Definition replace_char (c : ascii) (to : list ascii) (s : list ascii) : list ascii := concat (map (fun d => if decide (d = c) then to else [d]) s).

Definition _escape (value : string) : string :=
  of_chars (replace_char newline [backslash; "n"%char] (replace_char quote [backslash; quote] (replace_char backslash [backslash; backslash] (chars value)))).

Definition _label_text (ls : labels) : string :=
  match ls with
  | [] => ""
  | _ => ("{" +:+ str_join "," (map (fun kv => kv.1 +:+ "=" +:+ String quote (_escape kv.2 +:+ String quote "")) ls) +:+ "}")%string
  end.

(** The order of tuples of texts. *)
Fixpoint labels_le (a b : labels) : bool :=
  match a, b with
  | [], _ => true
  | _, [] => false
  | (k, v) :: a, (k', v') :: b =>
      if negb (bool_decide (k = k')) then str_le k k' else if negb (bool_decide (v = v')) then str_le v v' else labels_le a b
  end.

Definition item_le (a b : metric_key * Z) : bool :=
  if negb (bool_decide (a.1.1 = b.1.1)) then str_le a.1.1 b.1.1
  else if negb (bool_decide (a.1.2 = b.1.2)) then labels_le a.1.2 b.1.2 else a.2 <=? b.2.

Definition sample_line (s : metric_key * Z) : string := (s.1.1 +:+ _label_text s.1.2 +:+ " " +:+ str_of_Z s.2)%string.

Definition of_metric (name : string) (s : metric_key * Z) : bool := bool_decide (s.1.1 = name).

Definition block (snapshot : metric_values) (d : definition) : list string :=
  ("# HELP " +:+ df_name d +:+ " " +:+ df_help d)%string :: ("# TYPE " +:+ df_name d +:+ " " +:+ df_kind d)%string
  :: map sample_line (List.filter (of_metric (df_name d)) snapshot).

Definition render (values : metric_values) : string :=
  let snapshot := sorted_by item_le values in
  (str_join (String newline "") (concat (map (block snapshot) _DEFINITIONS)) +:+ String newline "")%string.

(** ** Errors as answers *)

Record http_answer := mkAnswer { an_status : Z; an_payload : json; an_headers : list (string * string) }.

(** The fields of [hindsight_log_fields]; the context variables are arguments. *)
Definition text_field (v : option string) : lval := match v with Some s => lit s | None => LNone end.
Definition int_field (v : option Z) : lval := match v with Some n => LInt n | None => LNone end.

Definition hindsight_log_fields (request_id duration : lval) (g : GatewayError) : log_fields :=
  [("request_id", request_id); ("operation", text_field (gw_operation g)); ("upstream_method", text_field (gw_method g));
   ("error_kind", lit (gateway_kind_text (gw_kind g))); ("upstream_status", int_field (gw_upstream_status g)); ("timeout_ms", int_field (gw_timeout_ms g));
   ("http_status", LInt (err_status (gw_http g))); ("request_duration_ms", duration)]%string.

(** What a handler makes of an error: the counters, the lines, the answer. *)
Definition http_error_handler (route_class : string) (request_id duration : lval) (exc : HttpError) (gateway : option GatewayError) (values : metric_values)
    : metric_values * list log_call * http_answer :=
  let counted := if err_status exc =? 429 then record_rate_limited route_class values
                 else if err_status exc =? 507 then record_capacity_rejection route_class values else values in
  let calls := match gateway with
               | Some g => [mkCall "warning" "hindsight_request_failed"
                   (hindsight_log_fields request_id duration g ++ [("outcome", lit "failed"); ("route_class", lit route_class)]%string)]
               | None => []
               end in
  (counted, calls, mkAnswer (err_status exc) (JDict (map (fun kv => (kv.1, JStr kv.2)) (err_body exc))) (err_headers exc)).

Definition unhandled_handler (route_class method : string) (request_id duration : lval) (values : metric_values) : metric_values * list log_call * http_answer :=
  (values,
   [mkCall "error" "request_failed"
      [("request_id", request_id); ("operation", lit "request"); ("request_method", lit method); ("error_kind", lit "unexpected"); ("http_status", LInt 500);
       ("outcome", lit "failed"); ("request_duration_ms", duration); ("route_class", lit route_class)]%string],
   mkAnswer 500 (JDict [("error"%string, JStr "internal error")]) []).

(** The handler of an exception that leaves a route. *)
Definition error_answer (route_class method : string) (request_id duration : lval) (exc : exn) : metric_values -> metric_values * list log_call * http_answer :=
  match exc with
  | EHttp h => http_error_handler route_class request_id duration h None
  | EGateway g => http_error_handler route_class request_id duration (gw_http g) (Some g)
  | _ => unhandled_handler route_class method request_id duration
  end.

(** ** Request identities *)

Record request_context := mkContext { rc_request_id : option string; rc_started : option Z }.

Definition current_request_id (c : request_context) : option string := rc_request_id c.

Definition request_id_char (c : ascii) : bool := is_alnum c || elem c ["."%char; "_"%char; ":"%char; "-"%char].

Definition _resolve_request_id (candidate : option string) (token_hex : string) : string :=
  match candidate with Some s => if class_match request_id_char 1 128 s then s else token_hex | None => token_hex end.

Inductive asgi_message := ResponseStart (status : Z) (headers : list (string * string)) | OtherMessage (content : string).

Definition send_with_request_id (request_id : string) (m : asgi_message) : asgi_message :=
  match m with ResponseStart st hs => ResponseStart st (hs ++ [("x-request-id"%string, request_id)]) | m => m end.

(** An application: what it sends, how it ends, and the context variables it leaves. *)
Abbreviation asgi_app := (request_context -> result unit * list asgi_message * request_context).

(** [RequestIdMiddleware.__call__]; a reset token restores what the variable held. *)
Definition request_id_middleware (is_http : bool) (candidate : option string) (token_hex : string) (now : Z) (app : asgi_app) : asgi_app := fun context =>
  if negb is_http then app context
  else
    let request_id := _resolve_request_id candidate token_hex in
    let '(r, sent, _) := app (mkContext (Some request_id) (Some now)) in
    (r, map (send_with_request_id request_id) sent, context).

(** ** The page can be read back *)

(** A reader of the exposition format, for the shapes used here: comments, and
    samples with at most one label, each below the type line of its metric. *)
Fixpoint until (stop : ascii -> bool) (l : list ascii) : list ascii * list ascii :=
  match l with
  | [] => ([], [])
  | c :: rest => if stop c then ([], l) else let '(a, b) := until stop rest in (c :: a, b)
  end.

Fixpoint unescape (l : list ascii) : option (list ascii * list ascii) :=
  match l with
  | [] => None
  | c :: rest =>
      if decide (c = quote) then Some ([], rest)
      else if decide (c = backslash) then
        match rest with
        | [] => None
        | d :: rest => '(v, r) ← unescape rest; Some ((if decide (d = "n"%char) then newline else d) :: v, r)
        end
      else '(v, r) ← unescape rest; Some (c :: v, r)
  end.

Definition read_int (l : list ascii) : Z := match l with "-"%char :: ds => - digits_number ds | ds => digits_number ds end.

Definition read_sample (l : list ascii) : option (metric_key * Z) :=
  match until (fun c => bool_decide (c = "{"%char) || bool_decide (c = " "%char)) l with
  | (name, " "%char :: value) => Some ((of_chars name, []), read_int value)
  | (name, "{"%char :: rest) =>
      match until (fun c => bool_decide (c = "="%char)) rest with
      | (key, _ :: _ :: rest) =>
          '(v, rest) ← unescape rest;
          match rest with "}"%char :: " "%char :: value => Some ((of_chars name, [(of_chars key, of_chars v)]), read_int value) | _ => None end
      | _ => None
      end
  | _ => None
  end.

(** The metric that a type line declares. *)
Definition declared (line : string) : option string :=
  if starts_with "# TYPE " line then Some (of_chars (until (fun c => bool_decide (c = " "%char)) (drop 7 (chars line))).1) else None.

Fixpoint read_lines (current : option string) (lines : list string) : option (list (metric_key * Z)) :=
  match lines with
  | [] => Some []
  | line :: rest =>
      if bool_decide (line = ""%string) then read_lines current rest
      else if starts_with "#" line then read_lines (match declared line with Some name => Some name | None => current end) rest
      else
        s ← read_sample (chars line);
        if bool_decide (current = Some s.1.1) then l ← read_lines current rest; Some (s :: l) else None
  end.

Definition read_page (page : string) : option (list (metric_key * Z)) := read_lines None (str_split newline page).

(** ** What the counters should be *)

Inductive metric_call := AuthFailure (route_class : string) | RateLimited (route_class : string) | CapacityRejection (route_class : string)
  | RecallDegraded | SweeperFailure | SideEffectStarted (count : Z) | Reset.

Definition perform (values : metric_values) (c : metric_call) : metric_values :=
  match c with
  | AuthFailure rc => record_auth_failure rc values
  | RateLimited rc => record_rate_limited rc values
  | CapacityRejection rc => record_capacity_rejection rc values
  | RecallDegraded => record_recall_degraded_bank values
  | SweeperFailure => record_sweeper_failure values
  | SideEffectStarted n => set_review_side_effect_started n values
  | Reset => reset values
  end.

Definition call_key (c : metric_call) : metric_key :=
  match c with
  | AuthFailure rc => (AUTH_FAILURES_TOTAL, route_label rc)
  | RateLimited rc => (RATE_LIMITED_TOTAL, route_label rc)
  | CapacityRejection rc => (CAPACITY_REJECTIONS_TOTAL, route_label rc)
  | RecallDegraded => (RECALL_DEGRADED_BANKS_TOTAL, [])
  | SweeperFailure => (SWEEPER_FAILURES_TOTAL, [])
  | SideEffectStarted _ | Reset => (REVIEW_SIDE_EFFECT_STARTED_ITEMS, [])
  end.

(** The number shown for a key after calls: since the last reset, how many calls
    had it, or for the gauge what the last call said; nothing if there was none. *)
Definition tally_step (key : metric_key) (shown : option Z) (c : metric_call) : option Z :=
  match c with
  | Reset => None
  | SideEffectStarted n => if decide (key = call_key c) then Some n else shown
  | c => if decide (key = call_key c) then Some (default 0 shown + 1) else shown
  end.

Definition tally (key : metric_key) (calls : list metric_call) : option Z := fold_left (tally_step key) calls None.

(** ** Counters against the tally *)

Lemma perform_tally key calls values shown : dict_get key values = shown -> dict_get key (fold_left perform calls values) = fold_left (tally_step key) calls shown.
Proof.
  revert values shown. induction calls as [|c calls IH]; intros values shown Hv; [done|]. cbn [fold_left]. apply IH. subst shown.
  destruct c; cbn [perform tally_step call_key]; unfold record_auth_failure, record_rate_limited, record_capacity_rejection, record_recall_degraded_bank, record_sweeper_failure,
    set_review_side_effect_started, reset, _increment; rewrite ?dict_get_set; try done; case_decide; by subst.
Qed.

Lemma perform_nodup calls values : NoDup (map fst values) -> NoDup (map fst (fold_left perform calls values)).
Proof.
  revert values. induction calls as [|c calls IH]; intros values Hn; [done|]. cbn [fold_left]. apply IH. destruct c; try (by apply dict_set_nodup). constructor.
Qed.

(** The keys that the calls use. *)
Definition known_key (key : metric_key) : Prop := key.1 ∈ map df_name _DEFINITIONS /\ (key.2 = [] \/ exists rc, key.2 = route_label rc).

Lemma call_key_known c : known_key (call_key c).
Proof. split; [|destruct c; (by left) || (right; by eexists)]. apply elem_true. by destruct c. Qed.

Lemma perform_known calls values : Forall known_key (map fst values) -> Forall known_key (map fst (fold_left perform calls values)).
Proof.
  revert values. induction calls as [|c calls IH]; intros values Hf; [done|]. cbn [fold_left]. apply IH. rewrite list.Forall_forall in *. intros k Hk.
  assert (Hset : forall v, k ∈ map fst (dict_set (call_key c) v values) -> known_key k).
  { intros v [->|Hin]%dict_set_keys; [apply call_key_known|by apply Hf]. }
  destruct c; try (by eapply Hset). by apply elem_of_nil in Hk.
Qed.

(** ** Escapes and numbers *)

Definition esc (c : ascii) : list ascii :=
  if decide (c = backslash) then [backslash; backslash] else if decide (c = quote) then [backslash; quote] else if decide (c = newline) then [backslash; "n"%char] else [c].

Lemma escape_chars s : chars (_escape s) = concat (map esc (chars s)).
Proof.
  unfold _escape. rewrite chars_of_chars. induction (chars s) as [|c l IH]; [done|]. unfold replace_char in *. cbn [map concat]. rewrite !map_app, !concat_app, map_app, concat_app, IH. f_equal.
  unfold esc. destruct (decide (c = backslash)) as [->|]; [done|]. cbn [map concat app]. destruct (decide (c = quote)) as [->|]; [done|]. cbn [map concat app]. by destruct (decide (c = newline)).
Qed.

Lemma unescape_esc l rest : unescape (concat (map esc l) ++ quote :: rest) = Some (l, rest).
Proof.
  induction l as [|c l IH]; [done|]. cbn [map concat]. rewrite <- app_assoc. unfold esc at 1. destruct (decide (c = backslash)) as [->|Hb].
  { cbn [app unescape]. rewrite decide_False, decide_True, IH by done. done. }
  destruct (decide (c = quote)) as [->|Hq]; [cbn [app unescape]; rewrite decide_False, decide_True, IH by done; done|].
  destruct (decide (c = newline)) as [->|Hn]; [cbn [app unescape]; rewrite decide_False, decide_True, IH by done; done|].
  cbn [app unescape]. by rewrite !decide_False, IH by done.
Qed.

Lemma escape_no_newline s : no_char newline (_escape s).
Proof.
  intros c. rewrite escape_chars. intros Hc. apply list_elem_of_In, in_concat in Hc as (l & Hl & Hc). apply in_map_iff in Hl as (d & <- & _). unfold esc in Hc.
  repeat case_decide; cbn in Hc; intuition (subst; try done).
Qed.

Lemma read_int_str n : read_int (chars (str_of_Z n)) = n.
Proof.
  destruct (str_of_Z_decimal n) as (ds & (Hd & Hn & Hne) & ->). destruct (n <? 0) eqn:E; split_bool; [cbn [read_int]; lia|].
  unfold read_int. destruct ds as [|c ds]; [done|]. cbn [forallb] in Hd. split_bool. destruct c as [[] [] [] [] [] [] [] []]; try done; lia.
Qed.

Lemma str_of_Z_no_newline n : no_char newline (str_of_Z n).
Proof.
  intros c. destruct (str_of_Z_decimal n) as (ds & (Hd & _ & _) & ->). rewrite List.forallb_forall in Hd.
  assert (Hds : c ∈ ds -> c <> newline) by (intros Hc ->; apply list_elem_of_In, Hd in Hc; done).
  destruct (n <? 0); [|done]. intros [->|Hc]%elem_of_cons; [done|auto].
Qed.

(** ** Lines *)

Lemma until_stop stop l c rest : forallb (fun d => negb (stop d)) l = true -> stop c = true -> until stop (l ++ c :: rest) = (l, c :: rest).
Proof.
  intros Hl Hc. induction l as [|d l IH]; cbn [app until]; [by rewrite Hc|]. cbn [forallb] in Hl. split_bool. by rewrite IH by done; destruct (stop d).
Qed.

Definition name_char (c : ascii) : bool := is_alnum c || bool_decide (c = "_"%char).
Definition plain_name (name : string) : bool := forallb name_char (chars name) && negb (bool_decide (name = ""%string)).

Lemma names_plain name : name ∈ map df_name _DEFINITIONS -> plain_name name = true.
Proof.
  intros Hn. assert (Hall : forallb plain_name (map df_name _DEFINITIONS) = true) by (vm_compute; reflexivity).
  rewrite List.forallb_forall in Hall. by apply Hall, list_elem_of_In.
Qed.

Lemma name_chars name (p : ascii -> bool) : plain_name name = true -> (forall c, name_char c = true -> p c = true) -> forallb p (chars name) = true.
Proof. unfold plain_name. intros Hn Hp. split_bool. rewrite List.forallb_forall in *. auto. Qed.

Lemma name_char_not c d : name_char c = true -> name_char d = false -> bool_decide (c = d) = false.
Proof. intros Hc Hd. apply bool_decide_false. intros ->. congruence. Qed.

Lemma chars_cons c s : chars (String c s) = c :: chars s.
Proof. done. Qed.

Lemma label_chars rc : chars (_label_text (route_label rc)) = "{"%char :: chars "route_class" ++ "="%char :: quote :: concat (map esc (chars rc)) ++ [quote; "}"%char].
Proof.
  unfold _label_text, route_label. cbn [map str_join fst snd]. rewrite <- escape_chars. repeat (rewrite chars_app || rewrite chars_cons). change (chars "") with (@nil ascii). cbn [app].
  by rewrite <- !app_assoc.
Qed.

Lemma read_sample_line s : known_key s.1 -> read_sample (chars (sample_line s)) = Some s.
Proof.
  destruct s as [[name ls] n]. intros [Hname%names_plain Hls]. cbn [fst snd] in *. unfold sample_line, read_sample. cbn [fst snd].
  assert (Hstop : forallb (fun d => negb (bool_decide (d = "{"%char) || bool_decide (d = " "%char))) (chars name) = true).
  { apply name_chars; [done|]. intros c Hc. by rewrite !(name_char_not c) by done. }
  rewrite !chars_app. destruct Hls as [->|[rc ->]].
  - cbn [_label_text]. change (chars "") with (@nil ascii). change (chars " ") with [" "%char]. cbn [app]. rewrite until_stop by done. by rewrite of_chars_chars, read_int_str.
  - rewrite label_chars. change (chars " ") with [" "%char]. cbn [app]. rewrite until_stop by done. rewrite <- !app_assoc. cbn [app]. rewrite until_stop by done.
    rewrite <- app_assoc. cbn [app]. rewrite unescape_esc. cbn. by rewrite !of_chars_chars, read_int_str.
Qed.

Lemma sample_no_newline s : known_key s.1 -> no_char newline (sample_line s).
Proof.
  destruct s as [[name ls] n]. intros [Hname%names_plain Hls] c. cbn [fst snd] in *. unfold sample_line. cbn [fst snd]. rewrite !chars_app, !elem_of_app.
  intros [Hc|[Hc|[Hc|Hc]]].
  - pose proof (name_chars name (fun c => negb (bool_decide (c = newline))) Hname) as Hall. rewrite List.forallb_forall in Hall.
    specialize (Hall ltac:(intros d Hd; by rewrite (name_char_not d))  c ltac:(by apply list_elem_of_In)). split_bool. done.
  - destruct Hls as [->|[rc ->]]; [by apply elem_of_nil in Hc|]. rewrite label_chars, <- escape_chars in Hc.
    assert (Hk : no_char newline "route_class") by (apply (bool_decide_unpack _); by vm_compute).
    rewrite !elem_of_cons, elem_of_app, !elem_of_cons, elem_of_app, !elem_of_cons in Hc. pose proof (escape_no_newline rc c) as He. pose proof (Hk c) as Hk'.
    intuition (subst; done || by eapply elem_of_nil).
  - apply elem_of_cons in Hc as [->|Hc]; [done|by apply elem_of_nil in Hc].
  - by apply (str_of_Z_no_newline n).
Qed.

(** ** Blocks and the page *)

Definition help_line (d : definition) : string := ("# HELP " +:+ df_name d +:+ " " +:+ df_help d)%string.
Definition type_line (d : definition) : string := ("# TYPE " +:+ df_name d +:+ " " +:+ df_kind d)%string.

Definition header_ok (d : definition) : bool :=
  forallb (fun l => negb (bool_decide (l = ""%string)) && starts_with "#" l && bool_decide (no_char newline l)) [help_line d; type_line d]
  && bool_decide (declared (help_line d) = None) && bool_decide (declared (type_line d) = Some (df_name d)).

Lemma headers_ok d : d ∈ _DEFINITIONS -> header_ok d = true.
Proof.
  assert (Hall : forallb header_ok _DEFINITIONS = true) by (vm_compute; reflexivity). rewrite List.forallb_forall in Hall. intros Hd. by apply Hall, list_elem_of_In.
Qed.

Lemma sample_line_start s : known_key s.1 -> sample_line s <> ""%string /\ starts_with "#" (sample_line s) = false.
Proof.
  destruct s as [[name ls] n]. intros [Hname%names_plain _]. cbn [fst] in *. unfold sample_line, plain_name in *. cbn [fst snd]. split_bool. destruct name as [|c name]; [done|].
  cbn [chars String.list_ascii_of_string forallb] in *. split_bool. split; [done|]. change (String c name +:+ ?t)%string with (String c (name +:+ t)).
  unfold starts_with. cbn [String.prefix]. by destruct (ascii_dec "#" c) as [<-|].
Qed.

Lemma read_samples name ss rest : Forall (fun s => known_key s.1 /\ s.1.1 = name) ss ->
  read_lines (Some name) (map sample_line ss ++ rest) = (l ← read_lines (Some name) rest; Some (ss ++ l)).
Proof.
  induction ss as [|s ss IH]; intros Hf; cbn [map app]; [by destruct (read_lines _ rest)|]. apply Forall_cons_1 in Hf as [[Hk Hn] Hf].
  destruct (sample_line_start s Hk) as [Hne Hh]. cbn [read_lines]. rewrite bool_decide_false, Hh, read_sample_line by done. cbn [mbind option_bind].
  rewrite bool_decide_true, (IH Hf) by (by rewrite Hn). by destruct (read_lines _ rest).
Qed.

Lemma read_block d snapshot current rest : d ∈ _DEFINITIONS -> Forall known_key (map fst snapshot) ->
  read_lines current (block snapshot d ++ rest) = (l ← read_lines (Some (df_name d)) rest; Some (List.filter (of_metric (df_name d)) snapshot ++ l)).
Proof.
  intros Hd%headers_ok Hs. unfold header_ok in Hd. cbn [forallb] in Hd. split_bool. unfold block. fold (help_line d) (type_line d). cbn [app read_lines].
  rewrite !bool_decide_false by done. repeat match goal with Hh : starts_with "#" _ = true |- _ => rewrite Hh; clear Hh end.
  repeat match goal with Hh : declared _ = _ |- _ => rewrite Hh; clear Hh end. apply read_samples. apply list.Forall_forall. intros s Hin%list_elem_of_In.
  apply List.filter_In in Hin as [Hin Hn]. unfold of_metric in Hn. split_bool. rewrite list.Forall_forall in Hs. split; [|done]. apply Hs, list_elem_of_In, in_map, Hin.
Qed.

Lemma read_blocks ds snapshot current : ds ⊆ _DEFINITIONS -> Forall known_key (map fst snapshot) ->
  read_lines current (concat (map (block snapshot) ds) ++ [""%string]) = Some (concat (map (fun d => List.filter (of_metric (df_name d)) snapshot) ds)).
Proof.
  intros Hds Hs. revert current. induction ds as [|d ds IH]; intros current; [done|]. cbn [map concat]. rewrite <- app_assoc, read_block by (done || apply Hds; set_solver).
  rewrite IH by set_solver. done.
Qed.

(** Sorting out a list by names keeps its elements. *)
Lemma by_name_perm names (l : metric_values) : NoDup names -> Forall (fun s => s.1.1 ∈ names) l -> concat (map (fun name => List.filter (of_metric name) l) names) ≡ₚ l.
Proof.
  intros Hn. induction l as [|s l IH]; intros Hf; [clear; by induction names|]. apply Forall_cons_1 in Hf as [Hs Hf]. etrans; [|apply Permutation_skip, (IH Hf)]. clear IH Hf.
  induction names as [|name names IHn]; [by apply elem_of_nil in Hs|]. apply NoDup_cons in Hn as [Hni Hn]. cbn [map concat]. unfold of_metric at 1. cbn [List.filter].
  destruct (decide (s.1.1 = name)) as [E|E].
  - rewrite bool_decide_true by done. cbn [app]. constructor. apply Permutation_app_head. clear -Hni E. subst name. induction names as [|name names IHn]; [done|]. cbn [map concat List.filter].
    unfold of_metric at 1. rewrite bool_decide_false by set_solver. rewrite IHn by set_solver. done.
  - rewrite bool_decide_false by done. rewrite IHn by set_solver. by rewrite Permutation_middle.
Qed.

Lemma join_last sep lines : lines <> [] -> str_join sep (lines ++ [""%string]) = (str_join sep lines +:+ sep)%string.
Proof.
  intros Hne. induction lines as [|x lines IH]; [done|]. clear Hne. apply chars_inj. destruct lines as [|y lines].
  - cbn [app str_join]. by rewrite !chars_app, app_nil_r.
  - cbn [app] in *. change (str_join sep (x :: y :: ?l)) with (x +:+ sep +:+ str_join sep (y :: l))%string. rewrite IH by done. by rewrite !chars_app, <- !app_assoc.
Qed.

Lemma page_lines values : Forall known_key (map fst values) -> str_split newline (render values) = concat (map (block (sorted_by item_le values)) _DEFINITIONS) ++ [""%string].
Proof.
  intros Hk. unfold render. cbv zeta. set (lines := concat _).
  assert (Hlines : Forall (no_char newline) (lines ++ [""%string])).
  { apply Forall_app. split; [|constructor; [intros c Hc; by apply elem_of_nil in Hc|constructor]]. apply list.Forall_forall. intros line Hin%list_elem_of_In.
    apply in_concat in Hin as (b & Hb & Hin). apply in_map_iff in Hb as (d & <- & Hd%list_elem_of_In%headers_ok). unfold header_ok in Hd. cbn [forallb] in Hd. split_bool.
    destruct Hin as [<-|[<-|Hin]]; [done..|]. apply in_map_iff in Hin as (s & <- & Hin). apply sample_no_newline. apply List.filter_In in Hin as [Hin _].
    rewrite list.Forall_forall in Hk. apply Hk, list_elem_of_In, in_map, list_elem_of_In. rewrite <- (sorted_by_perm item_le). by apply list_elem_of_In. }
  rewrite <- (join_last (String newline "") lines) by done. apply str_split_join; [by destruct lines|done].
Qed.

(** C40: the page of the counters tells exactly what was counted. After any calls,
    the rendered page reads back: every sample stands below the type line of its
    metric, no key is shown twice, and a key is shown with a number exactly when the
    calls since the last reset add up to it (or the gauge was last set to it),
    whatever characters the label holds. *)
Theorem metrics_page_exact calls : exists samples, read_page (render (fold_left perform calls [])) = Some samples /\ NoDup (map fst samples)
  /\ forall key n, (key, n) ∈ samples <-> tally key calls = Some n.
Proof.
  set (values := fold_left perform calls []).
  assert (Hn : NoDup (map fst values)) by (apply perform_nodup; constructor). assert (Hk : Forall known_key (map fst values)) by (apply perform_known; constructor).
  set (snapshot := sorted_by item_le values). pose proof (sorted_by_perm item_le values) as Hp. fold snapshot in Hp.
  assert (Hks : Forall known_key (map fst snapshot)) by (by rewrite Hp).
  exists (concat (map (fun d => List.filter (of_metric (df_name d)) snapshot) _DEFINITIONS)). split.
  - unfold read_page. rewrite page_lines by done. apply read_blocks; [done|exact Hks].
  - assert (Hperm : concat (map (fun d => List.filter (of_metric (df_name d)) snapshot) _DEFINITIONS) ≡ₚ values).
    { rewrite <- Hp. rewrite <- (map_map df_name (fun name => List.filter (of_metric name) snapshot)). apply by_name_perm; [apply (bool_decide_unpack _); by vm_compute|].
      apply list.Forall_forall. intros s Hs. rewrite list.Forall_forall in Hks. apply Hks. by apply list_elem_of_In, in_map, list_elem_of_In. }
    split; [by rewrite Hperm|]. intros key n. rewrite Hperm. unfold tally. rewrite <- (perform_tally key calls [] None) by done. fold values.
    split; [by apply dict_get_nodup|apply dict_get_elem].
Qed.

(** A label with every character that needs care. *)
Example odd_label : let rc := ("a" +:+ of_chars [quote; backslash; newline] +:+ "}")%string in
  read_page (render (fold_left perform [RateLimited "admin"; AuthFailure rc; RateLimited "admin"; SideEffectStarted 3] []))
  = Some [((AUTH_FAILURES_TOTAL, route_label rc), 1); ((RATE_LIMITED_TOTAL, route_label "admin"), 2); ((REVIEW_SIDE_EFFECT_STARTED_ITEMS, []), 3)].
Proof. vm_compute. reflexivity. Qed.

(** ** Errors and identities *)

(** Every exception is answered with an error object; only throttling and a full
    quarantine are counted, each by one, and the text of an unexpected exception
    stays inside. *)
Lemma error_answered route_class method request_id duration exc values :
  let '(values', calls, answer) := error_answer route_class method request_id duration exc values in
  match as_http exc with
  | Some h => an_status answer = err_status h /\ an_payload answer = JDict [("error", JStr (err_code h)); ("message", JStr (err_message h))]%string
      /\ values' = (if err_status h =? 429 then fold_left perform [RateLimited route_class] values
                     else if err_status h =? 507 then fold_left perform [CapacityRejection route_class] values else values)
  | None => an_status answer = 500 /\ an_payload answer = JDict [("error"%string, JStr "internal error")] /\ values' = values
  end.
Proof. by destruct exc. Qed.

(** A response carries the identity that the application saw, the identity is an
    accepted one, and nothing of the request stays behind. *)
Lemma request_identified candidate token_hex now app context r sent c :
  class_match request_id_char 1 128 token_hex = true -> request_id_middleware true candidate token_hex now app context = (r, sent, c) ->
  exists id sent0 c0, class_match request_id_char 1 128 id = true /\ app (mkContext (Some id) (Some now)) = (r, sent0, c0) /\ c = context
    /\ forall st hs, ResponseStart st hs ∈ sent -> ("x-request-id"%string, id) ∈ hs.
Proof.
  unfold request_id_middleware. cbn [negb]. cbv zeta. intros Ht. set (id := _resolve_request_id candidate token_hex). destruct (app (mkContext (Some id) (Some now))) as [[r0 sent0] c0] eqn:E.
  intros [= <- <- <-]. exists id, sent0, c0. split_and!; try done.
  - unfold id, _resolve_request_id. destruct candidate as [s|]; [|done]. by destruct (class_match request_id_char 1 128 s) eqn:Em.
  - intros st hs Hin%list_elem_of_In. apply in_map_iff in Hin as ([st0 hs0|] & Hm & _); [|done]. injection Hm as <- <-. set_solver.
Qed.

(** The class of the metrics route is not in the vocabulary of the log. *)
Lemma metrics_class_unlogged : _route_class "/metrics" = ClassMetrics /\ dict_get "route_class" (clean_route_class [("route_class"%string, lit "metrics")]) = Some (lit "unmatched").
Proof. split; vm_compute; reflexivity. Qed.
