(* ===== verification/ReviewAgent.v ===== *)
(** * Reviewing quarantined items offline

    Models [memory_router/review_unwrap.py] (the registry of unwrap providers), the
    review agent of [memory_router/cli/review_agent.py] (its audit table, the
    requests it answers and what they leave in the audit), and the visible form of
    evidence of [memory_router/cli/decrypt_quarantine.py]. What the token or a plug-in
    decrypts is an argument; writing to the audit database can fail at any time. *)

From Stdlib Require Import ZArith Lia Ascii.
From stdpp Require Import base sets strings numbers list.
From S2P Require Import Prelude Errors Text Sha256 Json JsonParse Envelope EnvelopeProps Dedupe Paths Hindsight Urls Dispatch Chars.

Local Open Scope Z_scope.

(** ** Unwrapping for review *)

Record ReviewProviderId := mkReviewId { ri_key_wrap : string; ri_name : option string; ri_version : option Z }.

#[export] Instance review_id_eq_dec : EqDecision ReviewProviderId.
Proof. solve_decision. Defined.

Definition json_text (v : option json) : option string := match v with Some (JStr s) => Some s | _ => None end.

(** A provider: its identity, and what its service makes of a wrapped key. *)
Record ReviewUnwrapProvider := mkReviewProvider { rp_identity : ReviewProviderId; rp_unwrap : string -> list (string * json) -> result string }.

Definition identity_ok (i : ReviewProviderId) : bool :=
  is_key_wrap_token (ri_key_wrap i)
  && bool_decide (is_Some (ri_name i) <-> is_Some (ri_version i))
  && match ri_name i, ri_version i with Some n, Some v => is_key_wrap_token n && (1 <=? v) | Some _, None => false | None, _ => bool_decide (ri_key_wrap i = DEFAULT_KEY_WRAP) end.

Abbreviation registry := (list (ReviewProviderId * ReviewUnwrapProvider)).

(** [ReviewProviderRegistry.__init__] *)
Fixpoint new_registry (providers : list ReviewUnwrapProvider) (known : registry) : result registry :=
  match providers with
  | [] => Ok known
  | p :: rest =>
      _ ← ensure (identity_ok (rp_identity p)) (EValueError "invalid review provider identity");
      _ ← ensure (bool_decide (dict_get (rp_identity p) (map (fun kp => (kp.1, tt)) known) = None)) (EValueError "duplicate review provider identity");
      new_registry rest (known ++ [(rp_identity p, p)])
  end.

Section review.
Context `{Rfc8785, AESGCM}.

(** The identity that an envelope names. *)
Definition envelope_identity (enc : list (string * json)) : result ReviewProviderId :=
  key_wrap ← getitem enc "key_wrap";
  match dict_get "provider" enc with
  | Some (JDict p) => Ok (mkReviewId (default ""%string (json_text (Some key_wrap))) (json_text (dict_get "name" p)) (match dict_get "version" p with Some (JInt v) => Some v | _ => None end))
  | _ => Ok (mkReviewId (default ""%string (json_text (Some key_wrap))) None None)
  end.

(** [ReviewProviderRegistry.decrypt] *)
Definition review_decrypt (providers : registry) (value : json) : result (list (string * json)) :=
  envelope ← parse_envelope value;
  encryption ← getitem envelope "encryption";
  let enc := match encryption with JDict e => e | _ => [] end in
  identity ← envelope_identity enc;
  match dict_get identity providers with
  | None => Err (EValueError "no matching review unwrap provider")
  | Some provider =>
      wrapped ← _validate_base64_field enc "wrapped_key_b64";
      dek ← rp_unwrap provider wrapped envelope;
      _ ← ensure (slen dek =? 32) (EValueError "invalid decrypted quarantine key length");
      decrypt_unwrapped_envelope (JDict envelope) dek
  end.

(** [Pkcs11RsaOaepProvider]; [token_decrypt] is the token's decryption. *)
Definition pkcs11_provider (token_decrypt : string -> result string) : ReviewUnwrapProvider :=
  mkReviewProvider (mkReviewId DEFAULT_KEY_WRAP None None) (fun wrapped envelope =>
    encryption ← getitem envelope "encryption";
    let enc := match encryption with JDict e => e | _ => [] end in
    _ ← ensure (bool_decide (dict_get "provider" enc = None)) (EValueError "PKCS#11 adapter only supports native RSA envelopes");
    token_decrypt wrapped).
End review.

(** ** The audit *)

Definition MAX_REQUEST_BYTES : Z := 2 * 1024 * 1024.
Definition MAX_AUDIT_ROWS : nat := 1000.
Definition MAX_UNAUTHORIZED_AUDIT_ROWS : nat := 100.

(** What a row tells, without its time. *)
Record decision := mkDecision { dc_reviewer : string; dc_quarantine_id : option string; dc_outcome : string }.
Record audit_row := mkRow { ar_id : Z; ar_timestamp : string; ar_decision : decision }.

Definition unauthorized (r : audit_row) : bool := bool_decide (dc_outcome (ar_decision r) = "unauthorized"%string).

(** The identity that SQLite gives to a new row. *)
Definition next_id (rows : list audit_row) : Z := 1 + foldr Z.max 0 (map ar_id rows).

(** [ORDER BY id DESC LIMIT limit] of the rows of one kind. *)
Definition of_kind (kind : bool) (rows : list audit_row) : list audit_row := List.filter (fun r => Bool.eqb (unauthorized r) kind) rows.
Definition newest (kind : bool) (limit : nat) (rows : list audit_row) : list Z :=
  take limit (map ar_id (sorted_by (fun a b => ar_id b <=? ar_id a) (of_kind kind rows))).

Definition prune (rows : list audit_row) (rule : bool * nat) : list audit_row :=
  List.filter (fun r => negb (Bool.eqb (unauthorized r) rule.1 && negb (elem (ar_id r) (newest rule.1 rule.2 rows)))) rows.

Definition RULES : list (bool * nat) := [(true, MAX_UNAUTHORIZED_AUDIT_ROWS); (false, (MAX_AUDIT_ROWS - MAX_UNAUTHORIZED_AUDIT_ROWS)%nat)].

Definition write_row (timestamp : string) (d : decision) (rows : list audit_row) : list audit_row :=
  fold_left prune RULES (rows ++ [mkRow (next_id rows) timestamp d]).

(** The agent's state: the table, and which of the next writes will fail. *)
Record agent_state := mkAgentState { ag_rows : list audit_row; ag_faults : list bool }.

(** [ReviewAudit.record]: the connection rolls a failed write back. *)
Definition record_audit (timestamp : string) (d : decision) : eff agent_state unit := fun st =>
  match ag_faults st with
  | true :: faults => (Err (EDatabase "sqlite3"), mkAgentState (ag_rows st) faults)
  | faults => (Ok (), mkAgentState (write_row timestamp d (ag_rows st)) (tail faults))
  end.

(** [path.stat().st_mode & 0o077] *)
Definition owner_only (mode : Z) : bool := Z.land mode 63 =? 0.

Definition open_audit (mode : Z) : result unit := ensure (owner_only mode) (EValueError "review audit database must be accessible only by its owner").

(** ** The agent *)

(** A credential is read as code points and kept as bytes. *)
Definition _validate_credential (credential : text) : result string :=
  if (tlen credential <? 32) || negb (forallb isascii credential)
  then Err (EValueError "review agent credential must be at least 32 ASCII characters") else Ok (of_chars (map chr credential)).

Definition _read_credential `{UnicodeDb} (mode : Z) (read : result text) : result string :=
  _ ← ensure (owner_only mode) (EValueError "review agent credential file must be owner-only");
  content ← read;
  _validate_credential (Chars.strip content).

Definition _request_byte_limit (value : string) : result Z :=
  match py_int value with
  | None => Err (EOther "request byte limit must be an integer")
  | Some limit => if limit <=? 0 then Err (EOther "request byte limit must be positive") else Ok limit
  end.

Definition REVIEWER_RE (s : string) : bool := class_match (fun c => is_alnum c || elem (code_of c) [46; 95; 64; 45]) 1 128 s.

Record ReviewAgent := mkAgent { ra_port : Z; ra_origin : string; ra_credential : string; ra_reviewer : string; ra_providers : registry; ra_max_request_bytes : Z }.

Definition rstrip_slash (s : string) : string := of_chars (rev (snd (span (fun c => bool_decide (c = "/"%char)) (rev (chars s))))).

Definition new_agent `{UrlSyntax} (port : Z) (origin : string) (credential : text) (reviewer : string) (providers : registry) (max_request_bytes : Z) : result ReviewAgent :=
  _ ← ensure (0 <? max_request_bytes) (EValueError "request byte limit must be positive");
  parsed ← match urlsplit origin with Some p => Ok p | None => Err (EValueError "Invalid IPv6 URL") end;
  _ ← ensure (elem (u_scheme parsed) ["http"; "https"]%string && negb (bool_decide (u_netloc parsed = ""%string)) && negb (has_char "@"%char (u_netloc parsed))
              && elem (u_path parsed) [""; "/"]%string && bool_decide (u_query parsed = ""%string) && bool_decide (u_fragment parsed = ""%string))
        (EValueError "origin must be an exact http(s) origin");
  _ ← ensure (REVIEWER_RE reviewer) (EValueError "invalid reviewer identity");
  credential ← _validate_credential credential;
  Ok (mkAgent port (rstrip_slash origin) credential reviewer providers max_request_bytes).

Record agent_request := mkAgentRequest {
  rq_now : string; rq_path : string; rq_host : option string; rq_origin : option string; rq_authorization : option string;
  rq_content_length : option string; rq_content_type : option string; rq_body : string
}.

(** A response: its status, its object, and whether it names the trusted origin. *)
Record agent_response := mkAgentResponse { rs_status : Z; rs_body : json; rs_cors : bool }.

Section handler.
Context `{Rfc8785, AESGCM}.
Context (agent : ReviewAgent).

Definition _trusted_origin (rq : agent_request) : bool :=
  bool_decide (rq_host rq = Some ("127.0.0.1:" +:+ str_of_Z (ra_port agent))%string) && bool_decide (rq_origin rq = Some (ra_origin agent)).

Definition _respond (rq : agent_request) (status : Z) (body : json) : agent_response := mkAgentResponse status body (_trusted_origin rq).

Definition error_body (code : string) : json := JDict [("error"%string, JStr code)].

(** [do_OPTIONS]; the body of 204 is empty. *)
Definition do_OPTIONS (rq : agent_request) : agent_response :=
  if negb (bool_decide (rq_path rq = "/decrypt"%string)) || negb (_trusted_origin rq) then _respond rq 403 (error_body "unauthorized")
  else mkAgentResponse 204 JNull true.

Definition authorized (rq : agent_request) : bool :=
  let token := default ""%string (rq_authorization rq) in
  bool_decide (rq_path rq = "/decrypt"%string) && _trusted_origin rq && forallb is_ascii (chars token) && bool_decide (token = ("Bearer " +:+ ra_credential agent)%string).

(** [except (ValueError, TypeError, KeyError)] *)
Definition invalid_request (e : exn) : bool := match e with EValueError _ => true | EOther m => elem m ["TypeError"; "KeyError"]%string | _ => false end.

(** The envelope of a request. *)
Definition read_request (rq : agent_request) : result (list (string * json)) :=
  length ← match py_int (default ""%string (rq_content_length rq)) with Some n => Ok n | None => Err (EValueError "invalid literal for int()") end;
  _ ← ensure ((0 <? length) && (length <=? ra_max_request_bytes agent)) (EValueError "invalid request size");
  _ ← ensure (bool_decide (rq_content_type rq = Some "application/json"%string)) (EValueError "invalid content type");
  body ← match json_loads_bytes false false (str_take (Z.to_nat length) (rq_body rq)) with Some v => Ok v | None => Err (EValueError "JSONDecodeError") end;
  match body with
  | JDict [(key, envelope)] => if bool_decide (key = "envelope"%string) then parse_envelope envelope else Err (EValueError "invalid request")
  | _ => Err (EValueError "invalid request")
  end.

(** [do_POST]; an exception that it does not handle ends the connection. *)
Definition do_POST (rq : agent_request) : eff agent_state agent_response :=
  let record id outcome := record_audit (rq_now rq) (mkDecision (ra_reviewer agent) id outcome) in
  if negb (authorized rq) then
    record None "unauthorized"%string;;
    mret (_respond rq 403 (error_body "unauthorized"))
  else match read_request rq with
  | Err e =>
      if invalid_request e then
        record None "failed"%string;;
        mret (_respond rq 400 (error_body "invalid_envelope"))
      else raise e
  | Ok envelope =>
      let quarantine_id := json_text (dict_get "quarantine_id" envelope) in
      decrypted ← try_except
        (decrypted ← lift (review_decrypt (ra_providers agent) (JDict envelope));
         record quarantine_id "verified"%string;;
         mret (Some decrypted))
        (fun _ => record quarantine_id "failed"%string;; mret None);
      mret (match decrypted with
            | Some d => _respond rq 200 (JDict [("decrypted"%string, JDict d)])
            | None => _respond rq 422 (error_body "review_decrypt_failed")
            end)
  end.

(** What [do_POST] tries to record, in order, with the answer that each record is
    followed by. *)
Definition attempts (rq : agent_request) : list (decision * agent_response) :=
  let attempt id outcome answer := (mkDecision (ra_reviewer agent) id outcome, answer) in
  if negb (authorized rq) then [attempt None "unauthorized"%string (_respond rq 403 (error_body "unauthorized"))]
  else match read_request rq with
  | Err e => if invalid_request e then [attempt None "failed"%string (_respond rq 400 (error_body "invalid_envelope"))] else []
  | Ok envelope =>
      let quarantine_id := json_text (dict_get "quarantine_id" envelope) in
      match review_decrypt (ra_providers agent) (JDict envelope) with
      | Ok d => [attempt quarantine_id "verified"%string (_respond rq 200 (JDict [("decrypted"%string, JDict d)]))]
      | Err _ => []
      end ++ [attempt quarantine_id "failed"%string (_respond rq 422 (error_body "review_decrypt_failed"))]
  end.

(** ** Threads

    The server answers every request in a thread of its own. The threads share the
    audit, whose lock makes a record one step; all else is a thread's own. *)

(** A request that is being answered: what is left to try, and its answer; [None]
    for a connection that an exception ended. *)
Record thread := mkThread { th_request : agent_request; th_attempts : list (decision * agent_response); th_answer : option (option agent_response) }.

Record server := mkServer { sv_rows : list audit_row; sv_threads : list thread }.

(** A request arrives, or a thread records what it tries next, which may fail. *)
Inductive server_event := Arrives (rq : agent_request) | Records (i : nat) (fault : bool).

Definition server_step (s : server) (ev : server_event) : server :=
  match ev with
  | Arrives rq => mkServer (sv_rows s) (sv_threads s ++ [mkThread rq (attempts rq) None])
  | Records i fault =>
      match sv_threads s !! i with
      | Some (mkThread rq tries None) =>
          match tries with
          | [] => mkServer (sv_rows s) (<[i := mkThread rq [] (Some None)]> (sv_threads s))
          | (d, answer) :: rest =>
              if fault : bool then mkServer (sv_rows s) (<[i := mkThread rq rest None]> (sv_threads s))
              else mkServer (write_row (rq_now rq) d (sv_rows s)) (<[i := mkThread rq rest (Some (Some answer))]> (sv_threads s))
          end
      | _ => s
      end
  end.

Definition serve (events : list server_event) : server := fold_left server_step events (mkServer [] []).
End handler.

(** ** Review agrees with the private key *)

Section review_props.
Context `{Rfc8785, AESGCM}.

Lemma parse_envelope_inv value envelope : parse_envelope value = Ok envelope -> exists enc, value = JDict envelope /\ dict_get "encryption" envelope = Some (JDict enc)
  /\ _validate_encryption_metadata envelope enc = Ok ().
Proof.
  unfold parse_envelope. destruct value as [| | | | | |e]; try done. destruct (dict_get "encryption" e) as [[| | | | | |enc]|] eqn:Ee; try done. intros Hp.
  apply result_bind_ok in Hp as ([] & Hv & Hp). repeat (apply result_bind_ok in Hp as (? & _ & Hp)). injection Hp as <-. by exists enc.
Qed.

Lemma native_key_wrap envelope enc : _validate_encryption_metadata envelope enc = Ok () -> dict_get "provider" enc = None -> is_text (dict_get "key_wrap" enc) DEFAULT_KEY_WRAP = true.
Proof.
  unfold _validate_encryption_metadata. intros Hv Hn. apply result_bind_ok in Hv as ([] & _ & Hv). apply result_bind_ok in Hv as ([] & _ & Hv). apply result_bind_ok in Hv as ([] & Hk & _).
  rewrite bool_decide_false in Hk by (rewrite Hn; by intros [? ?]). by apply ensure_ok in Hk.
Qed.

Lemma provider_identity envelope enc p : _validate_encryption_metadata envelope enc = Ok () -> dict_get "provider" enc = Some p ->
  exists identity, envelope_identity enc = Ok identity /\ ri_name identity <> None.
Proof.
  unfold _validate_encryption_metadata. intros Hv Hp. apply result_bind_ok in Hv as ([] & _ & Hv). apply result_bind_ok in Hv as ([] & _ & Hv). apply result_bind_ok in Hv as ([] & Hk & _).
  rewrite bool_decide_true in Hk by (rewrite Hp; by eexists). unfold _validate_wrap_provider in Hk. unfold envelope_identity, getitem. rewrite Hp in *.
  apply result_bind_ok in Hk as ([] & Hkw%ensure_ok & Hk). destruct (dict_get "key_wrap" enc) as [kw|]; [|done]. rewrite ok_bind.
  destruct p as [| | | | | |p]; try done. eexists. split; [reflexivity|]. cbn [ri_name]. apply result_bind_ok in Hk as ([] & _ & Hk). apply result_bind_ok in Hk as ([] & Hn%ensure_ok & _).
  by destruct (dict_get "name" p) as [[]|].
Qed.

(** The token-held key opens exactly the envelopes that the private key opens in
    process, and to the same objects. *)
Lemma token_review_agrees rsa_decrypt providers value d : new_registry [pkcs11_provider rsa_decrypt] [] = Ok providers ->
  review_decrypt providers value = Ok d <-> decrypt_envelope value rsa_decrypt = Ok d.
Proof.
  intros [= <-]. unfold review_decrypt, decrypt_envelope. destruct (parse_envelope value) as [envelope|] eqn:Hparse; [|done]. rewrite !ok_bind.
  destruct (parse_envelope_inv _ _ Hparse) as (enc & -> & Henc & Hv). unfold getitem at 1 2. rewrite Henc, !ok_bind.
  destruct (dict_get "provider" enc) as [p|] eqn:Ep.
  - destruct (provider_identity _ _ _ Hv Ep) as (identity & -> & Hname). rewrite ok_bind, bool_decide_false by done.
    split; [|done]. cbn [dict_get]. case_decide as Hid; [|done]. by rewrite Hid in Hname.
  - pose proof (native_key_wrap _ _ Hv Ep) as Hk. unfold envelope_identity, getitem at 1. rewrite Ep.
    assert (dict_get "key_wrap" enc = Some (JStr DEFAULT_KEY_WRAP)) as -> by (unfold is_text in Hk; by apply bool_decide_eq_true in Hk).
    rewrite !ok_bind, bool_decide_true by done. cbn [ensure]. rewrite ?ok_bind.
    replace (dict_get _ [(_, pkcs11_provider rsa_decrypt)]) with (Some (pkcs11_provider rsa_decrypt)) by reflexivity.
    destruct (_validate_base64_field enc "wrapped_key_b64") as [wrapped|]; [|done]. rewrite !ok_bind. cbn [rp_unwrap pkcs11_provider]. unfold getitem. rewrite Henc, ok_bind, Ep.
    rewrite bool_decide_true by done. cbn [ensure]. rewrite ok_bind. destruct (rsa_decrypt wrapped) as [dek|]; [|done]. rewrite !ok_bind.
    destruct (slen dek =? 32) eqn:El; [done|]. split; [done|]. unfold decrypt_unwrapped_envelope. rewrite Hparse, ok_bind. unfold getitem. by rewrite Henc, ok_bind, El.
Qed.
End review_props.

(** ** What the audit keeps *)

Definition lastn {A} (n : nat) (l : list A) : list A := drop (length l - n) l.

Lemma lastn_length {A} n (l : list A) : (length (lastn n l) <= n)%nat.
Proof. unfold lastn. rewrite length_drop. lia. Qed.

Lemma lastn_snoc {A} n (l : list A) x : lastn n (lastn n l ++ [x]) = lastn n (l ++ [x]).
Proof.
  unfold lastn. rewrite !length_app, length_drop. cbn [length]. destruct (decide (length l <= n)%nat) as [Hl|Hl].
  - replace (length l - n)%nat with 0%nat by lia. rewrite drop_0. f_equal. lia.
  - replace (length l - (length l - n) + 1 - n)%nat with 1%nat by lia. destruct n as [|n]; [rewrite !drop_ge; [done|rewrite length_app; cbn; lia|rewrite length_app, length_drop; cbn; lia]|].
    rewrite !drop_app_le by (rewrite ?length_drop; lia). rewrite drop_drop. do 2 f_equal. lia.
Qed.

Lemma lastn_map {A B} (f : A -> B) n l : map f (lastn n l) = lastn n (map f l).
Proof. unfold lastn. rewrite length_map. symmetry. apply skipn_map. Qed.

(** The identities grow. *)
Fixpoint increasing (rows : list audit_row) : Prop :=
  match rows with [] => True | r :: rest => Forall (fun s => ar_id r < ar_id s) rest /\ increasing rest end.

Lemma increasing_filter p rows : increasing rows -> increasing (List.filter p rows).
Proof.
  induction rows as [|r rows IH]; [done|]. intros [Hr Hi]. cbn [List.filter]. destruct (p r); [|by apply IH]. split; [|by apply IH].
  rewrite list.Forall_forall in *. intros s Hs%list_elem_of_In%List.filter_In. apply Hr, list_elem_of_In, Hs.
Qed.

Lemma increasing_snoc rows r : increasing rows -> Forall (fun s => ar_id s < ar_id r) rows -> increasing (rows ++ [r]).
Proof.
  induction rows as [|s rows IH]; [by intros; split|]. intros [Hs Hi] [Hr Hf]%Forall_cons_1. cbn [app increasing]. split; [|by apply IH].
  apply Forall_app. split; [done|by constructor].
Qed.

Lemma next_id_above rows : Forall (fun s => ar_id s < next_id rows) rows.
Proof.
  unfold next_id. rewrite list.Forall_forall. intros r Hr. induction rows as [|s rows IH]; [by apply elem_of_nil in Hr|]. cbn [map foldr]. apply elem_of_cons in Hr as [->|Hr]; [lia|].
  specialize (IH Hr). lia.
Qed.

Lemma sorted_desc rows : increasing rows -> sorted_by (fun a b => ar_id b <=? ar_id a) rows = rev rows.
Proof.
  induction rows as [|r rows IH]; [done|]. intros [Hr Hi]. cbn [sorted_by foldr rev]. fold (sorted_by (fun a b => ar_id b <=? ar_id a) rows). rewrite (IH Hi).
  assert (Hall : forall l, Forall (fun s => ar_id r < ar_id s) l -> insert_by (fun a b => ar_id b <=? ar_id a) r l = l ++ [r]).
  { clear. induction l as [|s l IH]; intros Hf; [done|]. apply Forall_cons_1 in Hf as [Hs Hf]. cbn [insert_by app]. rewrite (proj2 (Z.leb_gt _ _)) by lia. by rewrite IH. }
  apply Hall. by apply Forall_rev.
Qed.

(** Keeping the identities of a suffix keeps that suffix. *)
Lemma filter_suffix k rows : increasing rows -> List.filter (fun r => elem (ar_id r) (map ar_id (drop k rows))) rows = drop k rows.
Proof.
  revert k. induction rows as [|r rows IH]; intros k; [by destruct k|]. intros [Hr Hi]. destruct k as [|k].
  - cbn [drop]. rewrite <- (List.filter_ext_in (fun _ => true)).
    + clear. generalize (r :: rows). induction l as [|s l IH]; [done|]. cbn. by rewrite IH.
    + intros s Hs. symmetry. by apply elem_true, list_elem_of_In, in_map.
  - cbn [drop List.filter]. rewrite (proj2 (elem_false _ _)); [by apply IH|]. intros Hin%list_elem_of_In. apply in_map_iff in Hin as (s & Hid & Hs%list_elem_of_In).
    rewrite list.Forall_forall in Hr. assert (s ∈ rows) as Hs' by (rewrite <- (take_drop k rows); apply elem_of_app; by right). specialize (Hr s Hs'). lia.
Qed.

Lemma prune_kind kind limit rows : increasing rows -> of_kind kind (prune rows (kind, limit)) = lastn limit (of_kind kind rows).
Proof.
  intros Hi. unfold lastn. rewrite <- (filter_suffix (length (of_kind kind rows) - limit) (of_kind kind rows)) by (by apply increasing_filter).
  unfold prune, of_kind at 1. cbn [fst snd].
  assert (Hn : forall r, elem (ar_id r) (newest kind limit rows) = elem (ar_id r) (map ar_id (drop (length (of_kind kind rows) - limit) (of_kind kind rows)))).
  { intros r. unfold newest. rewrite sorted_desc by (by apply increasing_filter). rewrite map_rev, firstn_rev, length_map, skipn_map.
    apply eq_true_iff_eq. rewrite !elem_true, !list_elem_of_In. symmetry. apply in_rev. }
  generalize (newest kind limit rows) (map ar_id (drop (length (of_kind kind rows) - limit) (of_kind kind rows))) Hn. clear. intros n1 n2 Hn. unfold of_kind.
  induction rows as [|r rows IH]; [done|]. cbn [List.filter]. rewrite Hn. destruct (Bool.eqb (unauthorized r) kind) eqn:Ek; cbn [andb negb List.filter]; rewrite ?Ek; cbn [List.filter]; [|done].
  destruct (elem (ar_id r) n2) eqn:En; cbn [negb List.filter]; rewrite ?Ek, ?En; [by f_equal|done].
Qed.

Lemma prune_other kind kind' limit rows : kind' <> kind -> of_kind kind' (prune rows (kind, limit)) = of_kind kind' rows.
Proof.
  intros Hne. unfold prune. cbn [fst snd]. generalize (newest kind limit rows). intros n. unfold of_kind. induction rows as [|r rows IH]; [done|]. cbn [List.filter].
  destruct (Bool.eqb (unauthorized r) kind') eqn:Ek; [|by destruct (negb _); cbn [List.filter]; rewrite ?Ek].
  assert (Bool.eqb (unauthorized r) kind = false) as -> by (by destruct (unauthorized r), kind, kind'). cbn [andb negb List.filter]. rewrite Ek. by f_equal.
Qed.

Definition limit_of (kind : bool) : nat := if kind then MAX_UNAUTHORIZED_AUDIT_ROWS else (MAX_AUDIT_ROWS - MAX_UNAUTHORIZED_AUDIT_ROWS)%nat.

Lemma write_row_kind kind timestamp d rows : increasing rows -> increasing (write_row timestamp d rows)
  /\ of_kind kind (write_row timestamp d rows) = lastn (limit_of kind) (of_kind kind (rows ++ [mkRow (next_id rows) timestamp d])).
Proof.
  intros Hi. unfold write_row, RULES. cbn [fold_left]. set (new := rows ++ _).
  assert (Hn : increasing new) by (apply increasing_snoc; [done|apply next_id_above]).
  assert (Hp : increasing (prune new (true, MAX_UNAUTHORIZED_AUDIT_ROWS))) by (by apply increasing_filter). split; [by apply increasing_filter|].
  destruct kind; unfold limit_of.
  - rewrite prune_other by done. by apply prune_kind.
  - rewrite prune_kind by done. by rewrite prune_other.
Qed.

Definition history (kind : bool) (rows : list audit_row) : list decision := map ar_decision (of_kind kind rows).

Definition is_unauthorized (d : decision) : bool := bool_decide (dc_outcome d = "unauthorized"%string).

Definition audit_ok (rows : list audit_row) : Prop := increasing rows /\ forall kind, (length (of_kind kind rows) <= limit_of kind)%nat.

(** A table after one more decision: the oldest of its kind leaves when the kind is
    full, and the other kind is as it was. *)
Definition recorded (d : decision) (rows rows' : list audit_row) : Prop :=
  history (is_unauthorized d) rows' = lastn (limit_of (is_unauthorized d)) (history (is_unauthorized d) rows ++ [d])
  /\ history (negb (is_unauthorized d)) rows' = history (negb (is_unauthorized d)) rows.

Lemma kinds_length rows : length rows = (length (of_kind true rows) + length (of_kind false rows))%nat.
Proof. unfold of_kind. induction rows as [|r rows IH]; [done|]. cbn [List.filter length]. destruct (unauthorized r); cbn [Bool.eqb length]; lia. Qed.

Lemma lastn_all {A} n (l : list A) : (length l <= n)%nat -> lastn n l = l.
Proof. intros Hl. unfold lastn. by replace (length l - n)%nat with 0%nat by lia. Qed.

Lemma write_row_recorded timestamp d rows : audit_ok rows -> audit_ok (write_row timestamp d rows) /\ recorded d rows (write_row timestamp d rows).
Proof.
  intros [Hi Hl]. pose proof (fun kind => write_row_kind kind timestamp d rows Hi) as Hw. split; [split; [apply (Hw true)|]; intros kind; rewrite (proj2 (Hw kind)); apply lastn_length|].
  assert (Happ : forall kind, of_kind kind (rows ++ [mkRow (next_id rows) timestamp d]) = of_kind kind rows ++ if Bool.eqb (is_unauthorized d) kind then [mkRow (next_id rows) timestamp d] else []).
  { intros kind. unfold of_kind. rewrite List.filter_app. cbn [List.filter]. unfold unauthorized at 2. cbn [ar_decision]. fold (is_unauthorized d). by destruct (Bool.eqb _ kind). }
  unfold recorded, history. rewrite !(proj2 (Hw _)), !Happ. rewrite Bool.eqb_reflx, lastn_map, map_app. split; [done|].
  replace (Bool.eqb _ _) with false by (by destruct (is_unauthorized d)). rewrite app_nil_r. f_equal. apply lastn_all, Hl.
Qed.

Lemma record_audit_cases timestamp d st r st' : record_audit timestamp d st = (r, st') ->
  (r = Ok () /\ ag_rows st' = write_row timestamp d (ag_rows st)) \/ (is_ok r = false /\ ag_rows st' = ag_rows st).
Proof. unfold record_audit. destruct (ag_faults st) as [|[] faults]; intros [= <- <-]; [by left|by right|by left]. Qed.

Section agent_props.
Context `{Rfc8785, AESGCM}.
Context (agent : ReviewAgent).

(** Why a request was answered as it was, and the decision that tells so. *)
Inductive explained (rq : agent_request) : agent_response -> decision -> Prop :=
  | explained_unauthorized : authorized agent rq = false ->
      explained rq (_respond agent rq 403 (error_body "unauthorized")) (mkDecision (ra_reviewer agent) None "unauthorized")
  | explained_invalid : authorized agent rq = true -> is_ok (read_request agent rq) = false ->
      explained rq (_respond agent rq 400 (error_body "invalid_envelope")) (mkDecision (ra_reviewer agent) None "failed")
  | explained_failed envelope : authorized agent rq = true -> read_request agent rq = Ok envelope ->
      explained rq (_respond agent rq 422 (error_body "review_decrypt_failed")) (mkDecision (ra_reviewer agent) (json_text (dict_get "quarantine_id" envelope)) "failed")
  | explained_verified envelope decrypted : authorized agent rq = true -> read_request agent rq = Ok envelope ->
      review_decrypt (ra_providers agent) (JDict envelope) = Ok decrypted ->
      explained rq (_respond agent rq 200 (JDict [("decrypted"%string, JDict decrypted)])) (mkDecision (ra_reviewer agent) (json_text (dict_get "quarantine_id" envelope)) "verified").

Lemma attempts_explained rq d answer : (d, answer) ∈ attempts agent rq -> explained rq answer d.
Proof.
  unfold attempts. cbv zeta. destruct (authorized agent rq) eqn:Ea; cbn [negb]; [|intros [= -> ->]%list_elem_of_singleton; by constructor].
  destruct (read_request agent rq) as [envelope|e] eqn:Er.
  - rewrite elem_of_app, list_elem_of_singleton. intros [Hin|[= -> ->]]; [|by econstructor].
    destruct (review_decrypt (ra_providers agent) (JDict envelope)) as [x|] eqn:Ed; [|by apply elem_of_nil in Hin].
    apply list_elem_of_singleton in Hin as [= -> ->]. by econstructor.
  - destruct (invalid_request e); [|by intros ?%elem_of_nil]. intros [= -> ->]%list_elem_of_singleton. constructor; [done|by rewrite Er].
Qed.

(** The attempts one after the other, as one thread makes them when it is alone. *)
Fixpoint try_all (now : string) (tries : list (decision * agent_response)) (st : agent_state) : option agent_response * agent_state :=
  match tries with
  | [] => (None, st)
  | (d, answer) :: rest =>
      match record_audit now d st with
      | (Ok _, st') => (Some answer, st')
      | (Err _, st') => try_all now rest st'
      end
  end.

(** The attempts are those of [do_POST]. *)
Lemma do_POST_attempts rq st : let '(r, st') := do_POST agent rq st in
  try_all (rq_now rq) (attempts agent rq) st = (match r with Ok answer => Some answer | Err _ => None end, st').
Proof.
  unfold do_POST, attempts. cbv zeta. destruct (authorized agent rq); cbn [negb].
  2: { unfold mbind, eff_bind. cbn [try_all]. by destruct (record_audit _ _ st) as [[] st1]. }
  destruct (read_request agent rq) as [envelope|e].
  2: { destruct (invalid_request e); [|done]. unfold mbind, eff_bind. cbn [try_all]. by destruct (record_audit _ _ st) as [[] st1]. }
  unfold mbind at 1, eff_bind at 1, try_except, mbind, eff_bind, lift. destruct (review_decrypt (ra_providers agent) (JDict envelope)) as [decrypted|e]; cbn [app try_all fst snd].
  - destruct (record_audit _ (mkDecision _ _ "verified") st) as [[] st1]; [done|]. by destruct (record_audit _ _ st1) as [[] st2].
  - by destruct (record_audit _ _ st) as [[] st2].
Qed.

(** ** All threads together *)

Definition of_outcome (kind : bool) (l : list decision) : list decision := List.filter (fun d => Bool.eqb (is_unauthorized d) kind) l.

(** The table holds the newest of the decisions in a log, of either kind. *)
Definition table_of (log : list decision) (rows : list audit_row) : Prop :=
  audit_ok rows /\ forall kind, history kind rows = lastn (limit_of kind) (of_outcome kind log).

Lemma table_write log rows timestamp d : table_of log rows -> table_of (log ++ [d]) (write_row timestamp d rows).
Proof.
  intros [Hok Hh]. destruct (write_row_recorded timestamp d rows Hok) as [Hok' [Hone Hother]]. split; [done|]. intros kind.
  unfold of_outcome in *. rewrite List.filter_app. cbn [List.filter]. destruct (Bool.eqb (is_unauthorized d) kind) eqn:Ek.
  - apply Bool.eqb_prop in Ek as <-. rewrite Hone, Hh. apply lastn_snoc.
  - assert (kind = negb (is_unauthorized d)) as -> by (by destruct kind, (is_unauthorized d)). by rewrite app_nil_r, Hother, Hh.
Qed.

(** A thread that has answered has one entry in the log, which explains the answer;
    any other has none. *)
Definition thread_told (log : list (nat * decision)) (i : nat) (th : thread) : Prop :=
  (forall d a, (d, a) ∈ th_attempts th -> explained (th_request th) a d)
  /\ match th_answer th with
     | Some (Some answer) => exists d, (i, d) ∈ log /\ explained (th_request th) answer d
     | _ => i ∉ map fst log
     end.

Definition server_told (log : list (nat * decision)) (s : server) : Prop :=
  table_of (map snd log) (sv_rows s) /\ NoDup (map fst log) /\ (forall i, i ∈ map fst log -> (i < length (sv_threads s))%nat)
  /\ forall i th, sv_threads s !! i = Some th -> thread_told log i th.

(** A thread takes a step without a record. *)
Lemma told_silent log s i rq tries tries' answer : server_told log s -> sv_threads s !! i = Some (mkThread rq tries None) -> (forall x, x ∈ tries' -> x ∈ tries) ->
  match answer with Some (Some _) => False | _ => True end -> server_told log (mkServer (sv_rows s) (<[i := mkThread rq tries' answer]> (sv_threads s))).
Proof.
  intros (Ht & Hnd & Hlt & Hth) Hi Hsub Hans. split_and!; [done|done|intros j Hj; cbn [sv_threads]; rewrite length_insert; by apply Hlt|]. cbn [sv_threads]. intros j th Hj. apply list_lookup_insert_Some in Hj as [(<- & <- & _)|[_ Hj]]; [|by apply Hth].
  destruct (Hth _ _ Hi) as [Hex Hnone]. split; [intros d a Hin; by apply Hex, Hsub|]. cbn [th_answer]. by destruct answer as [[]|].
Qed.

Lemma told_step log s ev : server_told log s -> exists more, server_told (log ++ more) (server_step agent s ev).
Proof.
  intros Hs. destruct ev as [rq|i fault].
  - exists []. rewrite app_nil_r. destruct Hs as (Ht & Hnd & Hlt & Hth). split_and!; [done|done|intros i Hi; cbn [server_step sv_threads]; rewrite length_app; specialize (Hlt i Hi); cbn [length]; lia|].
    intros i th Hi. cbn [sv_threads server_step] in Hi. apply lookup_app_Some in Hi as [Hi|[Hge Hi]]; [by apply Hth|]. apply list_lookup_singleton_Some in Hi as [Hi <-].
    split; [intros d a; apply attempts_explained|]. cbn [th_answer]. intros Hin%Hlt. lia.
  - cbn [server_step]. destruct (sv_threads s !! i) as [[rq tries [answer|]]|] eqn:Ei; try (exists []; by rewrite app_nil_r).
    destruct tries as [|[d answer] rest]; [exists []; rewrite app_nil_r; by eapply told_silent|]. destruct fault.
    { exists []. rewrite app_nil_r. eapply told_silent; [done|exact Ei| |done]. intros x Hx. by right. }
    exists [(i, d)]. destruct Hs as (Ht & Hnd & Hlt & Hth). destruct (Hth _ _ Ei) as [Hex Hnone]. cbn [th_answer th_attempts th_request] in *.
    assert (Hlen : (i < length (sv_threads s))%nat) by (by eapply lookup_lt_Some). unfold server_told. rewrite !map_app. cbn [map fst snd]. split_and!.
    + by apply table_write.
    + apply NoDup_app. split_and!; [done|intros j Hj ->%list_elem_of_singleton; done|apply NoDup_singleton].
    + intros j [Hj|Hj]%elem_of_app; cbn [sv_threads]; rewrite length_insert; [by apply Hlt|]. apply list_elem_of_singleton in Hj as ->. done.
    + intros j th Hj. cbn [sv_threads] in Hj. apply list_lookup_insert_Some in Hj as [(<- & <- & _)|[Hne Hj]].
      * split; [intros d' a Hin; apply Hex; by right|]. cbn [th_answer th_request]. exists d. split; [apply elem_of_app; right; by left|]. apply Hex. by left.
      * destruct (Hth _ _ Hj) as [Hex' Hans]. split; [done|]. destruct (th_answer th) as [[a|]|].
        -- destruct Hans as (d' & Hin & Hd'). exists d'. split; [apply elem_of_app; by left|done].
        -- rewrite map_app, elem_of_app. cbn. intros [?|?%list_elem_of_singleton]; [done|congruence].
        -- rewrite map_app, elem_of_app. cbn. intros [?|?%list_elem_of_singleton]; [done|congruence].
Qed.

Lemma serve_told events : exists log, server_told log (serve agent events).
Proof.
  unfold serve. assert (Hgen : forall log s, server_told log s -> exists log', server_told log' (fold_left (server_step agent) events s)).
  { induction events as [|ev events IH]; intros log s Hs; [by exists log|]. cbn [fold_left]. destruct (told_step log s ev Hs) as [more Hm]. by eapply IH. }
  apply (Hgen []). split_and!; [split; [split; [done|]; intros []; cbn; lia|by intros []]|apply NoDup_nil_2|by intros i ?%elem_of_nil|done].
Qed.

(** C27: the review agent shows nothing that its audit does not tell. However the
    threads that answer decryption requests (POST) interleave, and whichever writes
    of the audit fail, there is a log with exactly one decision for every request
    that was answered, which explains the answer (evidence is shown only to the
    credential, from the trusted origin, and only when its decryption is recorded
    as verified), and none for a request that is not answered; and the table holds,
    of the requests without the credential and of the others, the newest 100 and the
    newest 900 decisions of that log, so that requests without the credential never
    displace a review. The attempts a thread makes are those of [do_POST]. A
    preflight request (OPTIONS) is answered without a decision, and is never shown
    any evidence. *)
Theorem review_agent_audited events : let s := serve agent events in
  (exists log, NoDup (map fst log)
    /\ (forall i th, sv_threads s !! i = Some th ->
         match th_answer th with
         | Some (Some answer) => exists d, (i, d) ∈ log /\ explained (th_request th) answer d
         | _ => i ∉ map fst log
         end)
    /\ (forall i, i ∈ map fst log -> (i < length (sv_threads s))%nat)
    /\ history true (sv_rows s) = lastn 100 (of_outcome true (map snd log)) /\ history false (sv_rows s) = lastn 900 (of_outcome false (map snd log))
    /\ (length (sv_rows s) <= 1000)%nat)
  /\ (forall rq st, let '(r, st') := do_POST agent rq st in
       try_all (rq_now rq) (attempts agent rq) st = (match r with Ok answer => Some answer | Err _ => None end, st'))
  /\ forall rq, rs_body (do_OPTIONS agent rq) ∈ [error_body "unauthorized"; JNull].
Proof.
  cbv zeta. split_and!; [|apply do_POST_attempts|].
  - destruct (serve_told events) as [log ([[Hi Hl] Hh] & Hnd & Hlt & Hth)]. exists log. split_and!; [done| |done|apply (Hh true)|apply (Hh false)|].
    + intros i th Hi'. by destruct (Hth i th Hi').
    + rewrite kinds_length. pose proof (Hl true). pose proof (Hl false). unfold limit_of, MAX_AUDIT_ROWS, MAX_UNAUTHORIZED_AUDIT_ROWS in *. lia.
  - intros rq. unfold do_OPTIONS. destruct (_ || _); cbn; [by left|by right; left].
Qed.
End agent_props.

(** ** Evidence made visible *)

Definition extract_envelope (value : json) : json :=
  match value with JDict d => default value (dict_get "encrypted" d) | v => v end.

Definition _is_invisible_or_control (c : Z) : bool :=
  (c <=? 31) || between 127 159 c || elem c [8203; 8204; 8205; 8288] || between 65024 65039 c || between 917504 917631 c.

(** The digits of [f"{n:X}"], and of [f"{n:04X}"]. *)
Definition hex_digit (n : Z) : Z := if n <? 10 then 48 + n else 55 + n.
Fixpoint hex_upper (fuel : nat) (n : Z) (acc : text) : text :=
  match fuel with
  | O => acc
  | S fuel => let acc := hex_digit (n mod 16) :: acc in if n <? 16 then acc else hex_upper fuel (n / 16) acc
  end.
Definition hex4 (n : Z) : text := map (fun k => hex_digit (n / 16 ^ k mod 16)) [3; 2; 1; 0].

Definition escape_code (c : Z) : text :=
  if negb (_is_invisible_or_control c) then [c]
  else if c =? 10 then [92; 110]
  else if c =? 13 then [92; 114]
  else if c =? 9 then [92; 116]
  else if c <=? 65535 then [92; 117] ++ hex4 c
  else [92; 117; 123] ++ hex_upper 6 c [] ++ [125].

Definition _escape_string (value : text) : text := concat (map escape_code value).

(** The same on a string of a JSON value, through its code points. *)
Definition text_of_string (s : string) : text := match decode (u s) with inl t => t | inr _ => u s end.
Definition string_of_text (t : text) : string := of_chars (map chr (encode t)).
Definition escape_json_string (s : string) : string := string_of_text (_escape_string (text_of_string s)).

(** [visit], with whether it changed anything. *)
Fixpoint visit (candidate : json) : bool * json :=
  match candidate with
  | JStr s => let e := escape_json_string s in (negb (bool_decide (e = s)), JStr e)
  | JList l => let visited := map visit l in (existsb fst visited, JList (map snd visited))
  | JDict d =>
      let visited := map (fun kv => (escape_json_string kv.1, kv.1, visit kv.2)) d in
      (existsb (fun e => negb (bool_decide (e.1.1 = e.1.2)) || e.2.1) visited, JDict (fold_left (fun r e => dict_set e.1.1 e.2.2 r) visited []))
  | v => (false, v)
  end.

Definition escaped_review_value (value : json) : bool * json := visit value.

(** [run]: the exit code, and what goes to standard output and to standard error. *)
Record decrypt_output := mkOutput { do_code : Z; do_evidence : option json; do_visible : option json }.

Definition run `{Rfc8785, AESGCM} (key_given : bool) (file : result string) (rsa_decrypt : string -> result string) : decrypt_output :=
  match
    (_ ← ensure key_given (EValueError "decryption key is required on stdin");
     content ← file;
     value ← match json_loads content with Some v => Ok v | None => Err (EValueError "JSONDecodeError") end;
     decrypt_envelope (extract_envelope value) rsa_decrypt)
  with
  | Ok decrypted => let '(changed, visible) := escaped_review_value (JDict decrypted) in mkOutput 0 (Some (JDict decrypted)) (if changed then Some visible else None)
  | Err _ => mkOutput 1 None None
  end.

(** ** Nothing invisible is shown *)

Definition shown (c : Z) : bool := negb (_is_invisible_or_control c).

Lemma hex_digit_shown n : 0 <= n < 16 -> shown (hex_digit n) = true.
Proof.
  intros Hn. assert (Hall : forallb (fun n => shown (hex_digit n)) (seqZ 0 16) = true) by reflexivity. rewrite List.forallb_forall in Hall. apply Hall, list_elem_of_In, elem_of_seqZ. lia.
Qed.

Lemma hex_upper_shown fuel n acc : 0 <= n -> forallb shown acc = true -> forallb shown (hex_upper fuel n acc) = true.
Proof.
  revert n acc. induction fuel as [|fuel IH]; intros n acc Hn Ha; [done|]. cbn [hex_upper]. cbv zeta.
  assert (Hd : forallb shown (hex_digit (n mod 16) :: acc) = true) by (cbn [forallb]; rewrite hex_digit_shown by (apply Z.mod_pos_bound; lia); done).
  destruct (n <? 16); [done|]. apply IH; [apply Z.div_pos; lia|done].
Qed.

Lemma escape_code_shown c : 0 <= c -> forallb shown (escape_code c) = true.
Proof.
  intros Hc. unfold escape_code. destruct (negb (_is_invisible_or_control c)) eqn:E; [cbn [forallb]; unfold shown; by rewrite E|]. repeat case_match; try done.
  - rewrite forallb_app. apply andb_true_iff. split; [done|]. unfold hex4. cbn [map forallb]. by rewrite !hex_digit_shown by (apply Z.mod_pos_bound; lia).
  - rewrite !forallb_app. by rewrite hex_upper_shown.
Qed.

Lemma escape_string_shown t : Forall (fun c => 0 <= c) t -> forallb shown (_escape_string t) = true.
Proof. intros Ht. unfold _escape_string. induction Ht as [|c t Hc Ht IH]; [done|]. cbn [map concat]. rewrite forallb_app, IH, escape_code_shown by done. done. Qed.

(** A text is left alone exactly when there is nothing to show. *)
Lemma escape_string_id t : _escape_string t = t <-> forallb shown t = true.
Proof.
  unfold _escape_string. induction t as [|c t IH]; [done|]. cbn [map concat forallb]. unfold escape_code at 1. fold (shown c). destruct (shown c) eqn:Es; cbn [andb].
  - rewrite <- IH. split; [by intros [= ?]|]. cbn [app]. by intros ->.
  - split; [|done]. repeat case_match; cbn [app]; intros [= <- ?]; by vm_compute in Es.
Qed.

Lemma encode_char_bytes c : scalar c = true -> Forall is_byte (encode_char c).
Proof.
  unfold scalar, between, encode_char, is_byte. intros Hc. assert (Hr : 0 <= c <= 1114111) by lia. clear Hc.
  repeat case_match; repeat constructor; Z.to_euclidean_division_equations; lia.
Qed.

Lemma encode_bytes t : encodable t = true -> Forall is_byte (encode t).
Proof.
  unfold encodable. induction t as [|c t IH]; [by constructor|]. cbn [forallb]. intros [Hc Ht]%andb_true_iff. rewrite encode_cons. apply Forall_app. split; [by apply encode_char_bytes|auto].
Qed.

Lemma chr_bytes l : Forall is_byte l -> map code_of (map chr l) = l.
Proof.
  induction 1 as [|b l Hb _ IH]; [done|]. cbn [map]. rewrite IH. f_equal. unfold is_byte in Hb. unfold code_of, chr. rewrite N_ascii_embedding by lia. lia.
Qed.

Lemma text_roundtrip t : encodable t = true -> text_of_string (string_of_text t) = t.
Proof.
  intros Ht. unfold text_of_string, string_of_text, u. rewrite chars_of_chars, chr_bytes by (by apply encode_bytes). by rewrite decode_encode.
Qed.

Definition valid_string (s : string) : bool := match decode (u s) with inl _ => true | inr _ => false end.
Definition shown_string (s : string) : bool := forallb shown (text_of_string s).

Lemma valid_encodable s : valid_string s = true -> encodable (text_of_string s) = true /\ string_of_text (text_of_string s) = s.
Proof.
  unfold valid_string, text_of_string. destruct (decode (u s)) as [t|] eqn:Ed; [|done]. intros _.
  assert (Hb : Forall (fun b => 0 <= b) (u s)) by (unfold u; eapply Forall_impl; [apply codes_are_bytes|]; intros b [? _]; done).
  destruct (decode_ok _ _ Hb Ed) as [He Hs]. split; [done|]. unfold string_of_text. rewrite Hs. unfold u. rewrite List.map_map, (List.map_ext _ (fun c => c)) by apply chr_code_of.
  by rewrite List.map_id, of_chars_chars.
Qed.

Lemma hex_digit_scalar n : 0 <= n < 16 -> scalar (hex_digit n) = true.
Proof. intros Hn. unfold scalar, between, hex_digit. case_match; lia. Qed.

Lemma hex_upper_scalar fuel n acc : 0 <= n -> encodable acc = true -> encodable (hex_upper fuel n acc) = true.
Proof.
  revert n acc. induction fuel as [|fuel IH]; intros n acc Hn Ha; [done|]. cbn [hex_upper]. cbv zeta.
  assert (Hd : encodable (hex_digit (n mod 16) :: acc) = true) by (unfold encodable in *; cbn [forallb]; by rewrite hex_digit_scalar by (apply Z.mod_pos_bound; lia)).
  destruct (n <? 16); [done|]. apply IH; [apply Z.div_pos; lia|done].
Qed.

Lemma escape_encodable t : encodable t = true -> encodable (_escape_string t) = true.
Proof.
  unfold _escape_string. induction t as [|c t IH]; [done|]. unfold encodable at 1. cbn [forallb map concat]. intros [Hc Ht]%andb_true_iff. rewrite encodable_app, (IH Ht), andb_true_r.
  assert (0 <= c) by (unfold scalar, between in Hc; lia).
  unfold escape_code. repeat case_match; try done; [unfold encodable; cbn [forallb]; by rewrite Hc| |].
  - rewrite encodable_app. apply andb_true_iff. split; [done|]. unfold hex4, encodable. cbn [map forallb]. by rewrite !hex_digit_scalar by (apply Z.mod_pos_bound; lia).
  - rewrite !encodable_app. by rewrite hex_upper_scalar.
Qed.

Lemma escape_json_shown s : valid_string s = true -> shown_string (escape_json_string s) = true.
Proof.
  intros [He _]%valid_encodable. unfold shown_string, escape_json_string. rewrite text_roundtrip by (by apply escape_encodable). apply escape_string_shown.
  unfold encodable in He. rewrite List.forallb_forall in He. apply list.Forall_forall. intros c Hc%list_elem_of_In%He. unfold scalar, between in Hc. lia.
Qed.

Lemma escape_json_id s : valid_string s = true -> escape_json_string s = s <-> shown_string s = true.
Proof.
  intros Hv. destruct (valid_encodable s Hv) as [He Hs]. unfold shown_string. rewrite <- escape_string_id. unfold escape_json_string. split; [|intros ->; done].
  intros E. apply (f_equal text_of_string) in E. by rewrite text_roundtrip in E by (by apply escape_encodable).
Qed.

Fixpoint all_strings (p : string -> bool) (v : json) : bool :=
  match v with
  | JStr s => p s
  | JList l => forallb (all_strings p) l
  | JDict d => forallb (fun kv => p kv.1 && all_strings p kv.2) d
  | _ => true
  end.

(** The keys of every object differ, as those of a Python dictionary do. *)
Fixpoint keys_distinct (v : json) : bool :=
  match v with
  | JList l => forallb keys_distinct l
  | JDict d => bool_decide (NoDup (map fst d)) && forallb (fun kv => keys_distinct kv.2) d
  | _ => true
  end.

Lemma fold_set_elem {E} (key : E -> string) (val : E -> json) es acc k v :
  (k, v) ∈ fold_left (fun r e => dict_set (key e) (val e) r) es acc -> (k, v) ∈ acc \/ exists e, e ∈ es /\ k = key e /\ v = val e.
Proof.
  revert acc. induction es as [|e es IH]; intros acc Hin; [by left|]. cbn [fold_left] in Hin. destruct (IH _ Hin) as [Hs|(e' & He & Hk)].
  - apply dict_set_elem in Hs as [[= -> ->]|Hs]; [right; exists e; set_solver|by left].
  - right. exists e'. set_solver.
Qed.

Lemma fold_set_fresh {E} (key : E -> string) (val : E -> json) es acc : NoDup (map fst acc ++ map key es) ->
  fold_left (fun r e => dict_set (key e) (val e) r) es acc = acc ++ map (fun e => (key e, val e)) es.
Proof.
  revert acc. induction es as [|e es IH]; intros acc Hn; [by rewrite app_nil_r|]. cbn [fold_left map] in *.
  assert (Hfresh : key e ∉ map fst acc) by (apply NoDup_app in Hn as (_ & Hd & _); intros Hk; apply (Hd _ Hk); by left).
  rewrite dict_set_fresh by done. rewrite IH; [by rewrite <- app_assoc|]. rewrite map_app, <- app_assoc. exact Hn.
Qed.

(** What [visit] shows has nothing invisible in any key or text. *)
Lemma visit_shown v : all_strings valid_string v = true -> all_strings shown_string (visit v).2 = true.
Proof.
  induction v as [|b|n|t|s|l IH|d IH] using json_ind'; intros Hv; try done.
  - by apply escape_json_shown.
  - cbn [visit snd all_strings] in *. rewrite List.forallb_forall in *. intros w Hw. apply in_map_iff in Hw as (p & <- & Hp). apply in_map_iff in Hp as (x & <- & Hx).
    rewrite list.Forall_forall in IH. apply IH; [by apply list_elem_of_In|by apply Hv].
  - cbn [visit snd all_strings] in *. rewrite List.forallb_forall in *. intros [k w] Hin%list_elem_of_In.
    apply (fold_set_elem (fun e : string * string * (bool * json) => e.1.1) (fun e => e.2.2)) in Hin as [Hin|(e & He%list_elem_of_In & -> & ->)]; [by apply elem_of_nil in Hin|].
    apply in_map_iff in He as ([k0 v0] & <- & Hd). specialize (Hv _ Hd). cbn [fst snd] in *. apply andb_true_iff in Hv as [Hk Hv]. rewrite escape_json_shown by done. cbn [andb].
    rewrite list.Forall_forall in IH. apply (IH (k0, v0)); [by apply list_elem_of_In|done].
Qed.

(** It reports a change exactly when there is something invisible. *)
Lemma visit_changed v : all_strings valid_string v = true -> (visit v).1 = false <-> all_strings shown_string v = true.
Proof.
  induction v as [|b|n|t|s|l IH|d IH] using json_ind'; intros Hv; try done.
  - cbn [visit fst all_strings]. rewrite negb_false_iff, bool_decide_eq_true. by apply escape_json_id.
  - cbn [visit fst all_strings] in *. induction l as [|x l IHl]; [done|]. apply Forall_cons_1 in IH as [Hx IH]. cbn [map existsb forallb] in *. apply andb_true_iff in Hv as [Hvx Hv].
    rewrite orb_false_iff, andb_true_iff, (Hx Hvx), (IHl IH Hv). done.
  - cbn [visit fst all_strings] in *. induction d as [|[k x] d IHd]; [done|]. apply Forall_cons_1 in IH as [Hx IH]. cbn [map existsb forallb fst snd] in *. apply andb_true_iff in Hv as [[Hk Hvx]%andb_true_iff Hv].
    rewrite !orb_false_iff, !andb_true_iff, negb_false_iff, bool_decide_eq_true, (Hx Hvx), (IHd IH Hv), (escape_json_id k Hk). done.
Qed.

(** Evidence without anything invisible is shown as it is. *)
Lemma visit_unchanged v : all_strings valid_string v = true -> keys_distinct v = true -> all_strings shown_string v = true -> (visit v).2 = v.
Proof.
  induction v as [|b|n|t|s|l IH|d IH] using json_ind'; intros Hv Hn Hs; try done.
  - cbn [visit snd]. f_equal. by apply escape_json_id.
  - cbn [visit snd all_strings keys_distinct] in *. f_equal. rewrite List.map_map. rewrite list.Forall_forall in IH. rewrite List.forallb_forall in Hv, Hn, Hs.
    rewrite <- (map_id l) at 2. apply map_ext_in. intros x Hx. apply IH; [by apply list_elem_of_In|auto..].
  - cbn [visit snd all_strings keys_distinct] in *. apply andb_true_iff in Hn as [Hnd%bool_decide_eq_true Hn]. f_equal. rewrite list.Forall_forall in IH. rewrite List.forallb_forall in Hv, Hn, Hs.
    assert (E : map (fun kv => (escape_json_string kv.1, kv.1, visit kv.2)) d = map (fun kv => (kv.1, kv.1, visit kv.2)) d).
    { apply map_ext_in. intros [k x] Hx. cbn [fst snd]. specialize (Hv _ Hx). specialize (Hs _ Hx). cbn [fst snd] in *. split_bool. by rewrite (proj2 (escape_json_id k ltac:(done))). }
    rewrite E. rewrite (fold_set_fresh (fun e : string * string * (bool * json) => e.1.1) (fun e => e.2.2)) by (by rewrite List.map_map).
    cbn [app]. rewrite List.map_map. rewrite <- (map_id d) at 2. apply map_ext_in. intros [k x] Hx. cbn [fst snd]. f_equal.
    specialize (Hv _ Hx). specialize (Hs _ Hx). specialize (Hn _ Hx). cbn [fst snd] in *. split_bool. apply (IH (k, x)); [by apply list_elem_of_In|done..].
Qed.

(** ** Examples *)

Module Example_agent.
#[local] Instance cipher : AESGCM := Example_envelope.cipher.
#[local] Instance dumps : Rfc8785 := Example_envelope.dumps.

Definition providers : registry := match new_registry [pkcs11_provider (fun wrapped => Ok wrapped)] [] with Ok r => r | Err _ => [] end.
Definition agent : ReviewAgent := mkAgent 8765 "https://console.example" "0123456789abcdef0123456789abcdef" "alice" providers MAX_REQUEST_BYTES.
Definition request (token body : string) : agent_request :=
  mkAgentRequest "2024-01-02T00:00:00+00:00" "/decrypt" (Some "127.0.0.1:8765") (Some "https://console.example") (Some token) (Some (str_of_Z (slen body))) (Some "application/json") body.
Definition good : string := "Bearer 0123456789abcdef0123456789abcdef".

Definition native : WrapProvider := mkWrapProvider DEFAULT_KEY_WRAP 32 None (fun key => Ok key).
Definition envelope : json :=
  match _create_prepared_provider_envelope Example_envelope.prepared native Example_envelope.data_key Example_envelope.vector with Ok e => JDict e | Err _ => JNull end.
Definition evidence : string := json_dumps (JDict [("envelope"%string, envelope)]).

(** One review, one without the credential that overtakes it, and one whose
    verification cannot be recorded. *)
Definition three_requests : list server_event :=
  [Arrives (request good evidence); Arrives (request "Bearer guess" evidence); Records 1 false; Arrives (request good evidence); Records 2 true; Records 0 false; Records 2 false].

Example three_recorded :
  map (fun r => (ar_id r, dc_quarantine_id (ar_decision r), dc_outcome (ar_decision r))) (sv_rows (serve agent three_requests))
  = [(1, None, "unauthorized"); (2, Some "q_request20240101_0123456789abcdef", "verified"); (3, Some "q_request20240101_0123456789abcdef", "failed")]%string.
Proof. vm_compute. reflexivity. Qed.

Lemma review_agent_audited_witness : (exists log : list (nat * decision), NoDup (map fst log)
    /\ history false (sv_rows (serve agent three_requests)) = lastn 900 (of_outcome false (map snd log)))
  /\ map dc_outcome (history false (sv_rows (serve agent three_requests))) = ["verified"; "failed"]%string.
Proof.
  split; [|vm_compute; reflexivity].
  destruct (review_agent_audited agent three_requests) as ((log & Hnd & _ & _ & _ & Hh & _) & _). exists log. split; [exact Hnd|exact Hh].
Defined.

(** Two keys that look alike once escaped: the visible form shows one of them. *)
Definition twins : json := JDict [(string_of_text [97; 8203], JInt 1); ("a\u200B"%string, JInt 2)].
Example hidden_twin : escaped_review_value twins = (true, JDict [("a\u200B"%string, JInt 2)]).
Proof. vm_compute. reflexivity. Qed.
End Example_agent.
